(* ===== verification/_CoqProject ===== *)
-Q . S2P
Prelude.v
TreeTypes.v
SelectHelper.v
TreeStore.v
TreeStoreInv.v
TreeRefresh.v
TreeStoreProc.v
TreeLedger.v
TreeSemaphore.v
TreeService.v
TokenStore.v
TokenStoreInv.v
TokenStoreProps.v
TokenStoreRuns.v
TokenService.v
SwapPlans.v
SwapPlansProps.v
LeafOptimizer.v
Timelocks.v
Paging.v
Bytes.v
ZBase32.v
SyncModel.v
SyncTables.v
SyncProcessor.v
SyncProps.v
SyncPush.v
SyncOverlay.v
ConversionQueue.v
SyncCoordinator.v
SecretSharing.v
FlashnetPools.v
Transactions.v
Signing.v
TimelockManager.v
UnilateralExit.v
Payments.v
ObjectCache.v
PaymentSync.v
Deposits.v
DepositsProps.v
Addresses.v
AddressesProps.v
TokenTx.v
TokenTxProps.v
Traces.v
TokenTransfers.v
TokenTransfersProps.v
TransferModels.v
Futures.v
Transfers.v
TransfersProps.v
ExchangeModels.v
Htlcs.v
Lightning.v
LeafSwaps.v
CoopExits.v
ExchangesProps.v
CoopExitsProps.v
DepositService.v
DepositServiceProps.v
StableBalance.v
StableBalanceProps.v
Flashnet.v
TokenConversion.v
TokenConversionProps.v
