(* ===== verification/Prelude.v ===== *)
(** * A verification of the Breez Spark SDK

    The SDK is a self-custodial wallet on Spark.  Money is a set of _leaves_ of
    operator-held trees (satoshis) and of _token outputs_; a payment reserves some of
    them, spends them through the operators and reports the change back.  This
    development models the parts of the Rust code that decide what happens to the
    money and to the user's records, proves what they promise, and leaves the
    cryptography, the transport and the databases to parameters with named
    hypotheses.  Source paths below are relative to [src/crates].

    ** The program's parts and their files

    Leaves ([spark/src/tree], [spark/src/services/leaf_optimizer.rs]):
    - [TreeTypes]: [TreeNode], statuses, balances, reservations, targets, errors
      ([tree/mod.rs], [tree/error.rs], [services/error.rs]).
    - [SelectHelper]: [tree/select_helper.rs], one definition per function, on [u64].
    - [TreeStore]: [LeavesState] and the [process_*] functions of [tree/store.rs];
      [TreeStoreInv] their invariant and effect on the pools; [TreeRefresh] the refresh
      ([process_set_leaves]); [TreeStoreProc] the command loop [run_processor] with its
      notifications; [TreeLedger] the abstract ledger of leaves that this loop refines, for
      any sequence of commands;
      [TreeSemaphore] clients, permits and the command channel as a
      transition system.
    - [TreeService]: [tree/service.rs] and [with_reserved_leaves] of [select_helper.rs]
      against the class [TreeStoreOps] (the trait
      [TreeStore]) and the network; [MemWorld] discharges the class by the in-memory
      store with the commands of other tasks interleaved.
    - [SwapPlans], [SwapPlansProps]: the planning functions of [leaf_optimizer.rs];
      [LeafOptimizer]: its runs against the tree service and the swap service.

    Tokens ([spark/src/token]): [TokenStore] the in-memory store, [TokenStoreInv] and
    [TokenStoreProps] its invariant and operations, [TokenStoreRuns] any sequence of its
    operations, [TokenService] the service against
    the class [TokenStoreOps], discharged by the in-memory store.

    Addresses and token transactions ([spark/src]): [Addresses] the texts of addresses,
    invoices and token identifiers ([address/mod.rs]), [AddressesProps] the behaviour of
    bech32, protobuf and keys they rely on (class [AddressLaws]), round trips and the signed
    hash; [TokenTx] the messages of token transactions, their hashes
    ([services/tokens.rs]) and conversions ([services/models.rs]), [TokenTxProps] what a
    hash commits to; [TokenTransfers] the token service of [services/tokens.rs] (build,
    start, validate, commit, transfer with retries, consolidate, create, mint, burn, freeze)
    over [TokenService], against the signer and the operators (class [TokenOperators]);
    [TokenTransfersProps] a log of reservations and commitments and what transfers promise.

    Transfers of leaves ([spark/src]): [TransferModels] the pool of operators
    ([operator/mod.rs]), their errors, the messages and the conversions of
    [services/models.rs]; [Futures] requests sent to every operator and joined by
    [try_join_all], under any scheduler; [Transfers] the whole of [services/transfer.rs]
    (keys split and tweaked for every operator, the package of a transfer, sending,
    verifying, preparing and claiming with retries) and [utils/leaf_key_tweak.rs], over
    [Signing], against the signer, the envelope encryption and the operators;
    [TransfersProps] what a transfer and a claim promise.  [Traces] is shared by
    transfers and exchanges: a world with a log, programs that emit events and
    programs that are quiet.

    Exchanges with the service provider, the SSP ([spark/src]): [ExchangeModels] its
    requests and answers ([ssp]), the messages of the operators, preimages and the
    collaborators; [Htlcs] the swap of leaves for a preimage ([utils/preimage_swap.rs]) and
    [services/htlc.rs]; [Lightning] [services/lightning.rs] (invoices with the shares of their
    preimage, HODL invoices, payments, fees); [LeafSwaps] [services/swap.rs] (leaves swapped
    for others under an adaptor key); [CoopExits] [services/coop_exit.rs] (refunds over the
    connectors of an exit transaction).  All of them prepare transfers with [Transfers] and
    use the pool, the threshold and the network of its service, and sign with [Signing];
    the SSP (class [SspClient]), the operators' calls ([ExchangeOperators]), invoices
    ([Bolt11Ops]) and clocks ([ExchangeEnv]) are classes.  [ExchangesProps] is a log of what
    the operators and the SSP are asked and what payments, invoices and swaps promise;
    [CoopExitsProps] what exits promise.

    The deposit service ([spark/src]): [DepositService] the whole of [services/deposit.rs]
    (addresses and the operators' proofs, the tree made of a deposit, quotes, claims and
    refunds of static deposits, the paged queries), with the functions of
    [bitcoin/service.rs] and [services/models.rs] it uses; rust-bitcoin's addresses and
    Schnorr signatures are the class [DepositOps], the calls of the operators, the SSP and
    the signer [DepositCalls].  [DepositServiceProps] shows that an address is handed out
    exactly when its proof holds, that a claimed deposit has a signed root and signed
    refunds to the user under the key of its address, that a refund spends the output meant
    for no less than the fee floor and above dust, and that the signed statement of a claim
    determines its fields.

    Bitcoin transactions and their signatures ([spark/src]): [Transactions] the data of
    rust-bitcoin and the node, refund and HTLC transactions of [utils/transactions.rs]
    and [utils/htlc_transactions.rs]; [Signing] signing jobs and the refunds of transfers
    and claims ([utils/signing_job.rs], [utils/refund.rs], [utils/frost.rs]) against the
    signer (class [FrostSigner]); [TimelockManager] the renewals of
    [services/timelock_manager.rs]; [UnilateralExit] [services/unilateral_exit.rs] with
    its paged query.

    Encodings and utilities: [Timelocks] ([spark/src/core/constants.rs]), [Paging]
    ([utils/paging.rs]), [Bytes] ([utils/byte_padding.rs], [utils/tagged_hasher.rs]),
    [ZBase32] ([breez-sdk/common/src/utils/zbase32.rs]),
    [SecretSharing] ([spark/src/signer/secret_sharing.rs], on MathComp's polynomials,
    over a parameter field and group).

    Record synchronisation ([breez-sdk/common/src/sync], [breez-sdk/core/src/persist]):
    [SyncModel] records, change sets and conversions; [SyncTables] the tables of the
    SQLite storage; [SyncProcessor] push, pull, back-off and the loop, against the
    class [SyncStorageOps] (the trait [SyncStorage]); [SyncProps] pulls, with the
    instance [table_storage] that discharges the class by the tables; [SyncPush]
    pushes; [SyncOverlay] the handler's view and the retries.

    Payments ([breez-sdk/core/src]): [Payments] the data of payments ([models/mod.rs])
    and their making from transfers and lightning payments ([models/adaptors.rs]);
    [ObjectCache] the cached items of the storage ([ObjectCacheRepository] of
    [persist/mod.rs]); [PaymentSync] the service that reads transfers and token
    transactions into the storage ([sync.rs], [utils/token.rs], [utils/payments.rs]),
    against the storage and the wallet (classes [PaymentStorage], [SyncWallet]).

    Static deposits ([breez-sdk/core/src]): [Deposits] the deposit table of
    [persist/sqlite.rs], the fetcher of unspent outputs ([utils/utxo_fetcher.rs]), the
    reconciliation with the chain ([utils/deposit_chain_syncer.rs]), the automatic claims
    of [sdk/sync.rs] and the user's calls of [sdk/deposits.rs], against the storage, the
    wallet and the chain service; [DepositsProps] the laws of the storage, what the
    reconciliation and the claims promise, and the table as their instance.

    Wallet coordination ([breez-sdk/core/src]): [ConversionQueue] the queue and worker of
    [stable_balance/queue.rs]; [StableBalance] the rest of the stable balance (active token,
    limits and their expiring cell, the three conversions, the event middleware, the worker
    with its conversions) against the trait [TokenConverter], the storage and the wallet;
    [StableBalanceProps] why a conversion is made and what it records, the worker as a
    refinement of its queue, changes of the active token; [SyncCoordinator] the coalescing of wallet syncs of
    [sdk/sync_coordinator.rs] with [sync_wallet_internal] of [sdk/sync.rs];
    [FlashnetPools] pool selection of [crates/flashnet/src]; [Flashnet] the client of the
    pools (login, cache, requests and their checks in [api.rs], [auth.rs], [cache.rs],
    [config.rs]) against the HTTP transport; [TokenConversion] the converter of
    [core/src/token_conversion] over that client, the wallet and the storage, with its
    middleware, an instance of the class [TokenConverter] that the stable balance uses;
    [TokenConversionProps] what a conversion pays, records and refunds.

    The prelude has what the files share: Rust results, the state-and-error monad
    [SE] with its notations, machine integers ([wadd], [wsub], [saturating_sub], ...),
    hash maps with an arbitrary iteration order ([HashOrder]), and lemmas on lists,
    sorting, permutations and maps.

    ** How state and effects are modelled

    A method that takes [&mut self] or a lock is a function of the state; a method that
    calls a collaborator is a program of the monad [SE] over a world that a class
    gives operations on; concurrent code is a labelled transition system whose steps
    are the critical sections.  Clock readings, random identifiers and answers of the
    network are arguments.  Unsigned integers are [Z] with wrap-around (the release
    profile does not check overflow) or with the checked and saturating operations the
    code names.  The order in which a [HashMap] is iterated is a parameter of every
    definition that iterates one, so a theorem holds for every order.

    ** What the theorems show

    - Conservation: in every run of the store's commands a leaf is in one place and a
      reserved one is not reserved again, unless a command hands in a leaf that the store
      holds elsewhere; the same for token outputs, where a finalized output stays away unless
      a late refresh brings it back (see [late_refresh_brings_back]); a cancelled
      reservation restores the store; balances and permits are conserved.
    - Selection: exact and minimum selection return what they promise, the greedy search
      with its retry decides the exact problem on power-of-two leaves, [select_leaves]
      returns the requested amounts or an error with the reservation released (with the
      one path that does not, see the lemma [swap_selection_failure_keeps_reservation]).
    - Refreshing classifies leaves by the operators that report them and never revives
      a spent one; waiting selections are woken when they can succeed.
    - Plans of the optimizer conserve value and reach the optimal denominations; each
      round's reservation is settled on every path.
    - Synchronisation: pulls never move a record back, pushes complete a prefix of the
      queue on top of the revision they were made for, the handler sees the state that
      will be, failed pushes are retried, and the tables keep their invariant.
    - Coordination: every sync request is answered exactly once by a sync of its type
      that started after it; the conversion queue survives restarts and is drained by
      its worker ([worker_ends] with the real conversions); a conversion of the stable balance
      is made once, for reasons read in the states its task went through, and marked as
      completed only once linked; whatever other tasks do, no payment that succeeds is
      overlooked and a change of the active token leaves the right one; when no other task
      interferes (class [NoOtherTask]) it leaves no conversion of the last.
    - Encodings round-trip or are injective; timelocks decrease in steps and stay
      aligned; paging returns every item once;
      any threshold of shares reconstructs a secret, fewer reveal nothing, and the
      proofs of honest shares verify.
    - Refunds: every refund signed for a transfer spends the output of its leaf with a
      timelock below the refund it replaces; a renewal signs a chain of fresh transactions over the right parent, and every
      expiring node is renewed the way it needs; a unilateral exit returns a package whose
      transactions are those of the queried nodes, parents first, each paid from the change
      before it as long as values and fees fit in 64 bits.
    - Addresses: texts of addresses and of invoices are read back (an invoice with the token
      of its network), and the signed hash of an invoice determines its terms.
    - Token transfers: what is committed spends the reserved outputs and pays the amounts and
      owners that were asked with the change to the wallet (the tokens of the outputs are left
      to the operators, see [validation_ignores_tokens]), at most one try succeeds, reservations are settled, the
      retries end, and a hash commits to the whole transaction.
    - Transfers: every operator is sent its own share of each leaf's tweak with the proofs
      that verify it, at sending and at claiming; a claim signs the transactions whose jobs
      it sent, passes over no leaf whose sender did not sign for it, retries a bounded
      number of times with bounded pauses; a package carries a signature over what it
      holds and commitments for every leaf; sending starts one transfer at most.
    - Exchanges: a lightning payment locks leaves for the invoice's preimage at most once, for
      no less than the invoice asks, the SSP is asked to pay only behind that lock, and a transfer
      is recovered only after a connection error, as the one the coordinator names for its id; the
      preimage of an invoice is shared with the operators only after the SSP made the invoice,
      each share encrypted to its operator, never for a HODL invoice; a swap shows the SSP
      refunds of the swapped leaves under the swap's adaptor key, for amounts within their
      value; the refunds of an exit spend a connector each, and an exit is completed only
      after its package was delivered.
    - Payments: a payment's status, fee and amount follow from its transfer; the texts
      of the data parse back; cached items read back whatever is written elsewhere; a
      sync that succeeds stores every transfer with its present status whose insertion
      succeeds, and leaves nothing final unread as long as pending transfers come last (it
      does not otherwise, see [pending_before_final_is_skipped]); the payments of a token
      transaction are those of the outputs that leave or enter the wallet.
    - Deposits: a reconciliation stores exactly what the operators list and keeps a
      deposit with a recorded refund until the refund is confirmed; an automatic claim
      is made only of a mature output without a refund, once, and within the fee limit.
    - Pools: a quoted amount pays for the output and its slippage (up to one unit when the
      reserves are so large that the division saturates), and the selected
      pool is the best of those that can deliver.
    - Token conversions: a conversion pays the pool at most once, in the state that its checks left,
      leaves no dust the user could not spend, and a payment is marked as refunded
      only after the pool accepted to give it back.

    ** Fuel

    Loops that are not structural take fuel, and a theorem says how much is enough:
    [select_leaves_terminates], [pager_terminates], [worker_drains_queue], [worker_ends],
    [unilateral_exit_terminates] (the levels of the tree), [token_transfer_ends] (five
    tries), [claim_transfer_ends], [bitcoin_sync_ends] and
    [collect_token_payments_ends] (a turn per fifty items, and one more),
    [fetch_pages_ends] (a turn per page of outputs) and [sync_loop_answers_everybody] state it; in [SwapPlans] the definitions pass a bound
    on the iterations themselves (64 denominations, the length of a list); in
    [SyncModel.decimal_loop] 20 digits suffice for a [u64], and [drain_bits] consumes
    five of at most twelve bits in a turn.

    ** Not modelled

    Network and storage drivers (gRPC, GraphQL, SQL text, HTTP), FROST and Bitcoin
    libraries, serde, generated protobuf types, bindings, command-line tools and the
    servers have no logic of their own that the kernel could check.  Of the modelled
    files: [LeafOptimizer::cancel] (it only waits), the subscription task of the
    synchronisation, and logging.  A request of a [try_join_all] that is dropped because
    another operator's failed is modelled as not sent or as answered, not as cut in
    the middle.  The error values of SSP calls are kept as a
    payload.  Of the token converter, the background loop that only waits and calls the
    refunder is not modelled, nor are the queries of the Flashnet client that nothing calls.
    A panic of the pool selection (an unchecked index or overflow) ends the program as the
    exception [Panic].  Left out: the record handler of
    [breez-sdk/core/src/realtime_sync/storage.rs], send payment validation, the queries of
    token transactions, the envelope encryption ([utils/src/ecies.rs]) and the composition of the services in [spark-wallet]. *)
From stdpp Require Export base tactics numbers list gmap fin_maps strings sorting.
From Stdlib Require Import ZArith Lia.
#[export] Set Default Goal Selector "!".

Open Scope Z_scope.

(** ** Results *)

(** Rust's [Result<A, E>]. *)
Inductive result (A E : Type) : Type :=
| Ok (a : A)
| Err (e : E).
Arguments Ok {A E} a.
Arguments Err {A E} e.

Definition is_ok {A E} (r : result A E) : bool :=
  match r with Ok _ => true | Err _ => false end.

(** The question-mark operator: an error leaves the function. *)
Definition rbind {A B E} (r : result A E) (k : A → result B E) : result B E :=
  match r with Ok a => k a | Err e => Err e end.

Definition ok_or {A E} (o : option A) (e : E) : result A E :=
  match o with Some a => Ok a | None => Err e end.

Definition map_err {A E F} (f : E → F) (r : result A E) : result A F :=
  match r with Ok a => Ok a | Err e => Err (f e) end.

Declare Scope rust_scope.
Delimit Scope rust_scope with rust.
Notation "'let*' p ':=' e 'in' k" := (rbind e (fun p => k))
  (at level 10, p pattern, e at level 200, k at level 200) : rust_scope.
Open Scope rust_scope.
Create HintDb rust.

Lemma default_Some {A} (d x : A) : default d (Some x) = x.
Proof. done. Qed.

Lemma default_None {A} (d : A) : default d None = d.
Proof. done. Qed.

Lemma rbind_ok {A B E} (r : result A E) (k : A → result B E) b :
  rbind r k = Ok b ↔ ∃ a, r = Ok a ∧ k a = Ok b.
Proof. destruct r; simpl; split; naive_solver. Qed.

Lemma rbind_err {A B E} (r : result A E) (k : A → result B E) e :
  rbind r k = Err e ↔ r = Err e ∨ ∃ a, r = Ok a ∧ k a = Err e.
Proof. destruct r; simpl; split; naive_solver. Qed.

Lemma ok_or_ok {A E} (o : option A) (e : E) a : ok_or o e = Ok a ↔ o = Some a.
Proof. destruct o; simpl; split; naive_solver. Qed.

(** ** Panics

    The errors of a function that can also panic (an index out of range, a division by
    zero). *)
Inductive exn (E : Type) : Type :=
| Panic
| Throw (e : E).
Arguments Panic {E}.
Arguments Throw {E} e.

Definition throws {A E} (r : result A E) : result A (exn E) := map_err Throw r.
Definition or_panic {A E} (o : option A) : result A (exn E) := ok_or o Panic.

Lemma throws_ok {A E} (r : result A E) a : throws r = Ok a → r = Ok a.
Proof. destruct r; naive_solver. Qed.

Lemma or_panic_ok {A E} (o : option A) a : @or_panic A E o = Ok a → o = Some a.
Proof. apply ok_or_ok. Qed.

(** ** Stateful computations that can fail

    A method that mutates the world [S] and returns a [Result<A, E>]; the state
    reached is kept when it fails. *)
Definition SE (S E A : Type) : Type := S → S * result A E.

Definition se_ret {S E A} (a : A) : SE S E A := λ s, (s, Ok a).
Definition se_fail {S E A} (e : E) : SE S E A := λ s, (s, Err e).
Definition se_lift {S E A} (r : result A E) : SE S E A := λ s, (s, r).
Definition se_bind {S E A B} (m : SE S E A) (k : A → SE S E B) : SE S E B :=
  λ s, match m s with (s', Ok a) => k a s' | (s', Err e) => (s', Err e) end.
Definition se_map_err {S E F A} (f : E → F) (m : SE S E A) : SE S F A :=
  λ s, let '(s', r) := m s in (s', map_err f r).
(** A call that cannot fail. *)
Definition se_total {S E A} (f : S → S * A) : SE S E A :=
  λ s, let '(s', a) := f s in (s', Ok a).
(** [match m.await { r => k r }]: the result is inspected, not propagated. *)
Definition se_try {S E F A B} (m : SE S E A) (k : result A E → SE S F B) : SE S F B :=
  λ s, let '(s', r) := m s in k r s'.

Notation "'do*' p ':=' m 'in' k" := (se_bind m (fun p => k))
  (at level 10, p pattern, m at level 200, k at level 200) : rust_scope.
Notation "'try*' p ':=' m 'in' k" := (se_try m (fun p => k))
  (at level 10, p pattern, m at level 200, k at level 200) : rust_scope.

Lemma se_bind_ok {S E A B} (m : SE S E A) (k : A → SE S E B) s s' b :
  se_bind m k s = (s', Ok b) ↔ ∃ s1 a, m s = (s1, Ok a) ∧ k a s1 = (s', Ok b).
Proof. unfold se_bind. destruct (m s) as [s1 [a|e]]; split; naive_solver. Qed.

Lemma se_bind_err {S E A B} (m : SE S E A) (k : A → SE S E B) s s' e :
  se_bind m k s = (s', Err e) ↔
  m s = (s', Err e) ∨ ∃ s1 a, m s = (s1, Ok a) ∧ k a s1 = (s', Err e).
Proof. unfold se_bind. destruct (m s) as [s1 [a|e']]; split; naive_solver. Qed.

Lemma se_map_err_ok {S E F A} (f : E → F) (m : SE S E A) s s' a :
  se_map_err f m s = (s', Ok a) ↔ m s = (s', Ok a).
Proof. unfold se_map_err. destruct (m s) as [s1 [?|?]]; simpl; split; naive_solver. Qed.

(** Computations whose runs are related to their start by a preorder [R]: leaving a part of
    the world alone, only adding to a log. *)
Definition se_preserves {S E A} (R : relation S) (m : SE S E A) : Prop := ∀ s, R s (m s).1.

Section preserves.
Context {S : Type} (R : relation S) {po : PreOrder R}.

Lemma se_preserves_ret {E A} (a : A) : se_preserves (E := E) R (se_ret a).
Proof. intros s. simpl. reflexivity. Qed.

Lemma se_preserves_fail {E A} (e : E) : se_preserves (A := A) R (se_fail e).
Proof. intros s. simpl. reflexivity. Qed.

Lemma se_preserves_lift {E A} (r : result A E) : se_preserves R (se_lift r).
Proof. intros s. simpl. reflexivity. Qed.

Lemma se_preserves_bind {E A B} (m : SE S E A) (k : A → SE S E B) :
  se_preserves R m → (∀ a, se_preserves R (k a)) → se_preserves R (se_bind m k).
Proof.
  intros Hm Hk s. unfold se_bind. specialize (Hm s).
  destruct (m s) as [s' [a|e]]; [|done]. transitivity s'; [done|apply Hk].
Qed.

Lemma se_preserves_try {E F A B} (m : SE S E A) (k : result A E → SE S F B) :
  se_preserves R m → (∀ r, se_preserves R (k r)) → se_preserves R (se_try m k).
Proof.
  intros Hm Hk s. unfold se_try. specialize (Hm s).
  destruct (m s) as [s' r]. transitivity s'; [done|apply Hk].
Qed.

Lemma se_preserves_map_err {E F A} (f : E → F) (m : SE S E A) :
  se_preserves R m → se_preserves R (se_map_err f m).
Proof. intros Hm s. specialize (Hm s). unfold se_map_err. by destruct (m s). Qed.

Lemma se_preserves_run {E A} (m : SE S E A) s s' r : se_preserves R m → m s = (s', r) → R s s'.
Proof. intros Hm Hr. specialize (Hm s). by rewrite Hr in Hm. Qed.
End preserves.

Create HintDb preserves.
#[export] Hint Resolve se_preserves_ret se_preserves_fail se_preserves_lift : preserves.

(** Goes through the calls of a computation; the calls of collaborators are left to the
    hints of [preserves]. *)
Ltac solve_preserves :=
  cbv zeta;
  lazymatch goal with
  | |- se_preserves _ (se_bind _ _) => apply se_preserves_bind; [apply _| |intros ?]; solve_preserves
  | |- se_preserves _ (se_try _ _) => apply se_preserves_try; [apply _| |intros ?]; solve_preserves
  | |- se_preserves _ (se_map_err _ _) => apply se_preserves_map_err; solve_preserves
  | |- se_preserves _ (match _ with _ => _ end) => case_match; solve_preserves
  | |- se_preserves _ (if _ then _ else _) => case_match; solve_preserves
  | |- _ => auto with preserves typeclass_instances
  end.

(** ** Machine integers

    An unsigned integer of [w] bits is a [Z] in [0, 2^w).  The release build
    has no overflow checks, so [+], [-], [*] and [Iterator::sum] wrap. *)
Definition wrap (w x : Z) : Z := x mod 2 ^ w.
Definition umax (w : Z) : Z := 2 ^ w - 1.
Definition in_u (w x : Z) : Prop := 0 ≤ x < 2 ^ w.

#[export] Instance in_u_dec w x : Decision (in_u w x).
Proof. unfold in_u. apply _. Defined.

Definition wadd (w a b : Z) : Z := wrap w (a + b).
Definition wsub (w a b : Z) : Z := wrap w (a - b).
Definition wmul (w a b : Z) : Z := wrap w (a * b).
Definition saturating_add (w a b : Z) : Z := Z.min (a + b) (umax w).
Definition saturating_sub (a b : Z) : Z := Z.max 0 (a - b).
Definition saturating_mul (w a b : Z) : Z := Z.min (a * b) (umax w).
Definition checked_add (w a b : Z) : option Z := if a + b <=? umax w then Some (a + b) else None.
Definition checked_sub (a b : Z) : option Z := if b <=? a then Some (a - b) else None.
Definition checked_mul (w a b : Z) : option Z := if a * b <=? umax w then Some (a * b) else None.

(** [Iterator::sum] at width [w], and the mathematical sum. *)
Definition sum_u (w : Z) (l : list Z) : Z := foldl (wadd w) 0 l.
Definition sumZ (l : list Z) : Z := foldr Z.add 0 l.

Lemma wrap_small w x : in_u w x → wrap w x = x.
Proof. unfold in_u, wrap. intros. by apply Z.mod_small. Qed.

Lemma wrap_in_u w x : 0 ≤ w → in_u w (wrap w x).
Proof. intros. unfold in_u, wrap. apply Z.mod_pos_bound. lia. Qed.

Lemma sumZ_cons x l : sumZ (x :: l) = x + sumZ l.
Proof. done. Qed.

Lemma sumZ_app l1 l2 : sumZ (l1 ++ l2) = sumZ l1 + sumZ l2.
Proof. induction l1 as [|x l1 IH]; simpl in *; [done|]. rewrite IH. lia. Qed.

Lemma sumZ_omap_cons {A B} (f : B → Z) (g : A → option B) x l :
  sumZ (f <$> omap g (x :: l)) = default 0 (f <$> g x) + sumZ (f <$> omap g l).
Proof. simpl. by destruct (g x). Qed.

Lemma sumZ_perm l1 l2 : l1 ≡ₚ l2 → sumZ l1 = sumZ l2.
Proof. induction 1; simpl in *; lia. Qed.

#[export] Instance sumZ_proper : Proper ((≡ₚ) ==> (=)) sumZ.
Proof. intros l1 l2. apply sumZ_perm. Qed.

Lemma sumZ_nonneg l : Forall (λ x, 0 ≤ x) l → 0 ≤ sumZ l.
Proof. induction 1; simpl; lia. Qed.

Lemma sumZ_sublist_le l1 l2 :
  sublist l1 l2 → Forall (λ x, 0 ≤ x) l2 → sumZ l1 ≤ sumZ l2.
Proof.
  induction 1; intros Hall; simpl; [lia| |];
    apply Forall_cons in Hall as [? Hall]; specialize (IHsublist Hall); lia.
Qed.

Lemma sumZ_replicate n x : sumZ (replicate n x) = Z.of_nat n * x.
Proof. induction n as [|n IH]; [done|]. simpl in *. rewrite IH. lia. Qed.

Lemma foldl_wadd w l a : 0 ≤ w → foldl (wadd w) (wrap w a) l = wrap w (a + sumZ l).
Proof.
  intros Hw. revert a. induction l as [|x l IH]; intros a; simpl.
  - f_equal. lia.
  - replace (wadd w (wrap w a) x) with (wrap w (a + x)).
    + rewrite IH. f_equal. lia.
    + unfold wadd, wrap. by rewrite Zplus_mod_idemp_l.
Qed.

Lemma sum_u_wrap w l : 0 ≤ w → sum_u w l = wrap w (sumZ l).
Proof.
  intros Hw. unfold sum_u.
  replace 0 with (wrap w 0) by (unfold wrap; apply Z.mod_0_l; lia).
  by rewrite foldl_wadd.
Qed.

(** No overflow: the machine sum is the mathematical one. *)
Lemma sum_u_exact w l :
  0 ≤ w → Forall (λ x, 0 ≤ x) l → sumZ l < 2 ^ w → sum_u w l = sumZ l.
Proof.
  intros. rewrite sum_u_wrap by done. apply wrap_small.
  split; [by apply sumZ_nonneg|done].
Qed.

Lemma sum_u_in_u w l : 0 ≤ w → in_u w (sum_u w l).
Proof. intros. rewrite sum_u_wrap by done. by apply wrap_in_u. Qed.

Lemma sum_u_perm w l1 l2 : 0 ≤ w → l1 ≡ₚ l2 → sum_u w l1 = sum_u w l2.
Proof. intros Hw Hp. rewrite !sum_u_wrap by done. by rewrite Hp. Qed.

(** ** Stable sorting

    [slice::sort_by] and [sort_by_key] are stable; [le a b] is [cmp a b] not
    being [Greater]. *)
Section stable_sort.
Context {A : Type} (le : A → A → bool).

Fixpoint sort_insert (x : A) (l : list A) : list A :=
  match l with
  | [] => [x]
  | y :: l' => if le x y then x :: l else y :: sort_insert x l'
  end.

Definition sort_by (l : list A) : list A := foldr sort_insert [] l.

Lemma sort_insert_perm x l : sort_insert x l ≡ₚ x :: l.
Proof.
  induction l as [|y l IH]; simpl; [done|].
  destruct (le x y); [done|]. rewrite IH. by constructor.
Qed.

Lemma sort_by_perm l : sort_by l ≡ₚ l.
Proof.
  induction l as [|x l IH]; simpl; [done|]. rewrite sort_insert_perm. by constructor.
Qed.

Context (le_total : ∀ x y, le x y = false → le y x = true).
Context (le_trans : ∀ x y z, le x y = true → le y z = true → le x z = true).

Lemma sort_insert_sorted x l :
  StronglySorted (λ a b, le a b = true) l →
  StronglySorted (λ a b, le a b = true) (sort_insert x l).
Proof.
  induction 1 as [|y l Hs IH Hall]; simpl; [repeat constructor|].
  destruct (le x y) eqn:E.
  - constructor; [by constructor|]. constructor; [done|].
    eapply Forall_impl; [done|]. simpl. intros z Hz. by eapply le_trans.
  - constructor; [done|]. rewrite sort_insert_perm. constructor; [by apply le_total|done].
Qed.

Lemma sort_by_sorted l : StronglySorted (λ a b, le a b = true) (sort_by l).
Proof.
  induction l as [|x l IH]; simpl; [constructor|]. by apply sort_insert_sorted.
Qed.
End stable_sort.

(** [slice::chunks(n)], for [n > 0] (it panics at 0); at most [length l] chunks. *)
Fixpoint chunks_loop {A} (fuel : nat) (n : nat) (l : list A) : list (list A) :=
  match fuel, l with
  | O, _ | _, [] => []
  | S fuel, _ => take n l :: chunks_loop fuel n (drop n l)
  end.

Definition chunks {A} (n : nat) (l : list A) : list (list A) := chunks_loop (length l) n l.

(** ** Hash maps

    A [HashMap] is a [gmap]; the order its iterators visit the entries in is
    not specified, so the code that iterates takes a [HashOrder]: any choice of
    one permutation of the entries per map.  Theorems hold for every choice. *)
Class HashOrder := {
  hm_iter : ∀ {K V : Type} `{Countable K}, gmap K V → list (K * V);
  hm_iter_perm : ∀ {K V : Type} `{Countable K} (m : gmap K V), hm_iter m ≡ₚ map_to_list m
}.

(** The order of the map's own enumeration, for examples. *)
Definition canonical_order : HashOrder :=
  {| hm_iter K V _ _ m := map_to_list m; hm_iter_perm K V _ _ m := reflexivity _ |}.

(** Every map visited backwards: a second order for examples. *)
Definition reversed_order : HashOrder :=
  {| hm_iter K V _ _ m := reverse (map_to_list m);
     hm_iter_perm K V _ _ m := reverse_Permutation (map_to_list m) |}.

(** [for x in l { m.insert(key(x), val(x)) }]. *)
Definition insert_all {K V X : Type} `{Countable K} (key : X → K) (val : X → V)
    (l : list X) (m : gmap K V) : gmap K V :=
  foldl (λ m x, <[key x := val x]> m) m l.

(** [for x in l { m.remove(key(x)) }]. *)
Definition remove_all {K V X : Type} `{Countable K} (key : X → K)
    (l : list X) (m : gmap K V) : gmap K V :=
  foldl (λ m x, delete (key x) m) m l.

(** A loop over [l] that threads a state and rewrites each element. *)
Fixpoint map_accum {S A B : Type} (f : S → A → S * B) (s : S) (l : list A) : S * list B :=
  match l with
  | [] => (s, [])
  | a :: l' =>
      let '(s1, b) := f s a in
      let '(s2, bs) := map_accum f s1 l' in
      (s2, b :: bs)
  end.

Section hash_maps.
Context {K V : Type} `{Countable K}.
Implicit Types (m : gmap K V) (k : K) (v : V).

(** The sum of a quantity over the values of a map. *)
Definition map_sum (f : V → Z) (m : gmap K V) : Z :=
  sumZ ((λ kv, f kv.2) <$> map_to_list m).

Lemma map_sum_empty f : map_sum f ∅ = 0.
Proof. unfold map_sum. by rewrite map_to_list_empty. Qed.

Lemma map_sum_insert f m k v :
  m !! k = None → map_sum f (<[k := v]> m) = f v + map_sum f m.
Proof. intros Hk. unfold map_sum. by rewrite map_to_list_insert. Qed.

Lemma map_sum_delete f m k v :
  m !! k = Some v → map_sum f (delete k m) = map_sum f m - f v.
Proof.
  intros Hk. rewrite <- (insert_delete_id m k v Hk) at 2.
  rewrite map_sum_insert by apply lookup_delete_eq. lia.
Qed.

Lemma map_sum_nonneg f m : (∀ k v, m !! k = Some v → 0 ≤ f v) → 0 ≤ map_sum f m.
Proof.
  intros Hf. apply sumZ_nonneg. apply Forall_fmap, Forall_forall.
  intros [k v] Hkv. simpl. apply elem_of_map_to_list in Hkv. eauto.
Qed.

Lemma map_sum_ext f g m :
  (∀ k v, m !! k = Some v → f v = g v) → map_sum f m = map_sum g m.
Proof.
  intros Hfg. unfold map_sum. f_equal. apply list_fmap_ext. intros i [k v] Hi. simpl.
  apply (Hfg k). apply elem_of_map_to_list. by eapply list_elem_of_lookup_2.
Qed.

Lemma lookup_insert_all_ne {X} (key : X → K) (val : X → V) l m k :
  k ∉ key <$> l → insert_all key val l m !! k = m !! k.
Proof.
  unfold insert_all. revert m. induction l as [|x l IH]; intros m Hk; simpl; [done|].
  simpl in Hk. rewrite not_elem_of_cons in Hk. destruct Hk as [Hne Hk].
  rewrite IH by done. by rewrite lookup_insert_ne.
Qed.

Lemma lookup_insert_all_in {X} (key : X → K) (val : X → V) l m k :
  k ∈ key <$> l → ∃ x, x ∈ l ∧ key x = k ∧ insert_all key val l m !! k = Some (val x).
Proof.
  unfold insert_all. revert m. induction l as [|x l IH]; intros m Hk; simpl in *.
  { by apply elem_of_nil in Hk. }
  destruct (decide (k ∈ key <$> l)) as [Hin|Hnin].
  - destruct (IH (<[key x := val x]> m) Hin) as (y & Hy & <- & Hl).
    exists y. split_and!; [by right|done|done].
  - apply elem_of_cons in Hk as [->|?]; [|done].
    exists x. split_and!; [by left|done|].
    change (insert_all key val l (<[key x := val x]> m) !! key x = Some (val x)).
    rewrite lookup_insert_all_ne by done. apply lookup_insert_eq.
Qed.

Lemma lookup_insert_all_Some {X} (key : X → K) (val : X → V) l m k v :
  insert_all key val l m !! k = Some v →
  (∃ x, x ∈ l ∧ key x = k ∧ v = val x) ∨ (k ∉ key <$> l ∧ m !! k = Some v).
Proof.
  intros Hl. destruct (decide (k ∈ key <$> l)) as [Hin|Hnin].
  - left. destruct (lookup_insert_all_in key val l m k Hin) as (x & ? & ? & Hx).
    exists x. split_and!; [done|done|congruence].
  - right. rewrite lookup_insert_all_ne in Hl by done. done.
Qed.

Lemma lookup_remove_all {X} (key : X → K) (l : list X) m k :
  remove_all key l m !! k = if decide (k ∈ key <$> l) then None else m !! k.
Proof.
  unfold remove_all. revert m. induction l as [|x l IH]; intros m; [done|].
  cbn [foldl]. rewrite IH, fmap_cons. destruct (decide (k = key x)) as [->|Hne].
  - rewrite lookup_delete_eq. repeat case_decide; set_solver.
  - rewrite lookup_delete_ne by done. repeat case_decide; set_solver.
Qed.

Lemma foldl_insert_if {X} (f : X → bool) (key : X → K) (val : X → V) l m :
  foldl (λ m x, if f x then <[key x := val x]> m else m) m l =
  insert_all key val (List.filter f l) m.
Proof.
  unfold insert_all. revert m. induction l as [|x l IH]; intros m; [done|]. simpl.
  destruct (f x); simpl; by rewrite IH.
Qed.

Lemma insert_all_app {X} (key : X → K) (val : X → V) l1 l2 m :
  insert_all key val (l1 ++ l2) m = insert_all key val l2 (insert_all key val l1 m).
Proof. unfold insert_all. by rewrite foldl_app. Qed.

Lemma insert_all_empty_Some {X} (key : X → K) (val : X → V) l k v :
  insert_all key val l ∅ !! k = Some v → ∃ x, x ∈ l ∧ key x = k ∧ v = val x.
Proof. intros [?|[_ Hv]]%lookup_insert_all_Some; [done|]. by rewrite lookup_empty in Hv. Qed.

Lemma insert_all_empty_None {X} (key : X → K) (val : X → V) l k :
  insert_all key val l ∅ !! k = None ↔ k ∉ key <$> l.
Proof.
  split.
  - intros Hn Hin. destruct (lookup_insert_all_in key val l ∅ k Hin) as (x & _ & _ & Hx).
    congruence.
  - intros Hn. rewrite lookup_insert_all_ne by done. apply lookup_empty.
Qed.

Context {ho : HashOrder}.

Definition hm_values (m : gmap K V) : list V := (hm_iter m).*2.
Definition hm_keys (m : gmap K V) : list K := (hm_iter m).*1.

Lemma elem_of_hm_iter m k v : (k, v) ∈ hm_iter m ↔ m !! k = Some v.
Proof. rewrite hm_iter_perm. apply elem_of_map_to_list. Qed.

Lemma elem_of_hm_values m v : v ∈ hm_values m ↔ ∃ k, m !! k = Some v.
Proof.
  unfold hm_values. rewrite list_elem_of_fmap. split.
  - intros ([k v'] & -> & Hkv). exists k. by apply elem_of_hm_iter.
  - intros [k Hk]. exists (k, v). split; [done|]. by apply elem_of_hm_iter.
Qed.

Lemma NoDup_hm_keys m : NoDup (hm_iter m).*1.
Proof. rewrite hm_iter_perm. apply NoDup_fst_map_to_list. Qed.

(** [for (k, v) in u { m.insert(k, v) }]. *)
Lemma insert_all_iter (u m : gmap K V) : insert_all fst snd (hm_iter u) m = u ∪ m.
Proof.
  apply map_eq. intros k. rewrite lookup_union.
  destruct (decide (k ∈ (hm_iter u).*1)) as [Hin|Hout].
  - destruct (lookup_insert_all_in fst snd (hm_iter u) m k Hin) as ([k' v] & Hkv & <- & ->).
    apply elem_of_hm_iter in Hkv. simpl. rewrite Hkv. by destruct (m !! k').
  - rewrite lookup_insert_all_ne by done. destruct (u !! k) as [v|] eqn:Hk.
    + destruct Hout. apply list_elem_of_fmap. exists (k, v). split; [done|].
      by apply elem_of_hm_iter.
    + by destruct (m !! k).
Qed.

Lemma sumZ_hm_values f m : sumZ (f <$> hm_values m) = map_sum f m.
Proof.
  unfold hm_values, map_sum. rewrite <- list_fmap_compose. by rewrite hm_iter_perm.
Qed.
End hash_maps.

(** ** Filtering by a boolean *)
Section bool_filter.
Context {A : Type}.
Implicit Types (f : A → bool) (l : list A).

Lemma elem_of_bfilter f l x : x ∈ List.filter f l ↔ x ∈ l ∧ f x = true.
Proof. rewrite !list_elem_of_In. apply filter_In. Qed.

Lemma sublist_bfilter f l : sublist (List.filter f l) l.
Proof. induction l; simpl; [constructor|]. case_match; by constructor. Qed.

Lemma bfilter_length_eq f l :
  length (List.filter f l) = length l → List.filter f l = l.
Proof.
  induction l as [|x l IH]; simpl; [done|]. destruct (f x); simpl; intros Hl.
  - f_equal. apply IH. lia.
  - pose proof (filter_length_le f l). lia.
Qed.

Lemma bfilter_perm f l1 l2 : l1 ≡ₚ l2 → List.filter f l1 ≡ₚ List.filter f l2.
Proof.
  induction 1; simpl; repeat case_match; try done; try constructor; try done.
  by etrans.
Qed.

Lemma find_Some_elem f l x : List.find f l = Some x → x ∈ l ∧ f x = true.
Proof. intros [? ?]%find_some. by rewrite list_elem_of_In. Qed.

Lemma find_None_elem f l : List.find f l = None ↔ ∀ x, x ∈ l → f x = false.
Proof.
  split.
  - intros Hf x Hx. apply (find_none f l Hf). by apply list_elem_of_In.
  - intros Hall. induction l as [|y l IH]; simpl; [done|].
    rewrite Hall by (by left). apply IH. intros x Hx. apply Hall. by right.
Qed.

Lemma existsb_elem f l : existsb f l = true ↔ ∃ x, x ∈ l ∧ f x = true.
Proof.
  rewrite existsb_exists. split; intros (x & Hx & ?); exists x;
    (split; [by apply list_elem_of_In|done]).
Qed.

Lemma existsb_elem_false f l : existsb f l = false ↔ ∀ x, x ∈ l → f x = false.
Proof.
  rewrite <- not_true_iff_false, existsb_elem. split.
  - intros Hn x Hx. apply not_true_iff_false. naive_solver.
  - intros Hall (x & Hx & ?). specialize (Hall x Hx). congruence.
Qed.
End bool_filter.

#[export] Hint Resolve sublist_bfilter : rust.

Lemma Forall_submseteq {A} (P : A → Prop) l1 l2 : l1 ⊆+ l2 → Forall P l2 → Forall P l1.
Proof.
  intros Hs. rewrite !Forall_forall. intros Hall x Hx. apply Hall. by eapply elem_of_submseteq.
Qed.

Lemma Forall_sublist {A} (P : A → Prop) l1 l2 : sublist l1 l2 → Forall P l2 → Forall P l1.
Proof. intros ?%sublist_submseteq. by apply Forall_submseteq. Qed.

Lemma bfilter_partition {A} (f : A → bool) l :
  l ≡ₚ List.filter f l ++ List.filter (λ x, negb (f x)) l.
Proof.
  induction l as [|x l IH]; simpl; [done|]. destruct (f x); simpl.
  - by rewrite <- IH.
  - rewrite <- Permutation_middle. by rewrite <- IH.
Qed.

Lemma bfilter_app {A} (f : A → bool) l1 l2 :
  List.filter f (l1 ++ l2) = List.filter f l1 ++ List.filter f l2.
Proof. induction l1; simpl; [done|]. case_match; simpl; by f_equal. Qed.

Lemma bfilter_submseteq {A} (f : A → bool) l1 l2 :
  l1 ⊆+ l2 → List.filter f l1 ⊆+ List.filter f l2.
Proof.
  intros [l Hl]%submseteq_Permutation. apply (bfilter_perm f) in Hl.
  rewrite bfilter_app in Hl. rewrite Hl. apply submseteq_inserts_r. done.
Qed.

Lemma bfilter_id {A} (f : A → bool) l :
  Forall (λ x, f x = true) l → List.filter f l = l.
Proof. induction 1; simpl; [done|]. by case_match; f_equal. Qed.

(** Elements taken from the two halves of a list split by [f]. *)
Lemma bfilter_split_submseteq {A} (f : A → bool) (a b l : list A) :
  a ⊆+ l → Forall (λ x, f x = true) a → b ⊆+ List.filter (λ x, negb (f x)) l →
  a ++ b ⊆+ l.
Proof.
  intros Ha Hf Hb. rewrite (bfilter_partition f l). apply submseteq_app; [|done].
  rewrite <- (bfilter_id f a Hf). by apply bfilter_submseteq.
Qed.
