(* ===== verification/TreeTypes.v ===== *)
(** The data model of the tree of leaves: [crates/spark/src/tree/mod.rs], the
    errors of [tree/error.rs] and [services/error.rs], and the types of other
    crates that they mention, as the class [Externals]. *)
From S2P Require Import Prelude.

(** ** Types of other crates

    [secp256k1::PublicKey], [bitcoin::Transaction], [frost::Identifier] and the
    foreign error payloads, with the operations the tree code uses.
    [tx_input0_sequence tx] is [tx.input[0].sequence.to_consensus_u32()]; it is
    [None] when the transaction has no input, where the index panics. *)
Class Externals := {
  PublicKey : Type;
  Transaction : Type;
  Identifier : Type;
  ForeignError : Type;
  PublicKey_eq_dec :: EqDecision PublicKey;
  Transaction_eq_dec :: EqDecision Transaction;
  Identifier_eq_dec :: EqDecision Identifier;
  tx_input0_sequence : Transaction → option Z;
}.

(** A concrete instance for examples: keys are numbers, a transaction is the
    list of the sequence numbers of its inputs. *)
Definition simple_externals : Externals := {|
  PublicKey := Z; Transaction := list Z; Identifier := Z; ForeignError := string;
  tx_input0_sequence := head
|}.

(** ** Tree nodes *)

Inductive TreeNodeStatus : Type :=
| Creating | Available | FrozenByIssuer | TransferLocked | SplitLocked | Splitted
| Aggregated | OnChain | Exited | AggregateLock | Investigation | Lost
| Reimbursed | RenewLocked | ParentExited | Unknown.

#[export] Instance TreeNodeStatus_eq_dec : EqDecision TreeNodeStatus.
Proof. solve_decision. Defined.

(** [impl Display for TreeNodeStatus]. *)
Definition TreeNodeStatus_fmt (s : TreeNodeStatus) : string :=
  match s with
  | Creating => "Creating"
  | Available => "Available"
  | FrozenByIssuer => "FrozenByIssuer"
  | TransferLocked => "TransferLocked"
  | SplitLocked => "SplitLocked"
  | Splitted => "Splitted"
  | Aggregated => "Aggregated"
  | OnChain => "OnChain"
  | Exited => "Exited"
  | AggregateLock => "AggregateLock"
  | Investigation => "Investigation"
  | Lost => "Lost"
  | Reimbursed => "Reimbursed"
  | RenewLocked => "RenewLocked"
  | ParentExited => "ParentExited"
  | Unknown => "Unknown"
  end.

(** [impl From<&str> for TreeNodeStatus]. *)
Definition TreeNodeStatus_from (s : string) : TreeNodeStatus :=
  if bool_decide (s = "CREATING") then Creating
  else if bool_decide (s = "AVAILABLE") then Available
  else if bool_decide (s = "FROZEN_BY_ISSUER") then FrozenByIssuer
  else if bool_decide (s = "TRANSFER_LOCKED") then TransferLocked
  else if bool_decide (s = "SPLIT_LOCKED") then SplitLocked
  else if bool_decide (s = "SPLITTED") then Splitted
  else if bool_decide (s = "AGGREGATED") then Aggregated
  else if bool_decide (s = "ON_CHAIN") then OnChain
  else if bool_decide (s = "EXITED") then Exited
  else if bool_decide (s = "AGGREGATE_LOCK") then AggregateLock
  else if bool_decide (s = "INVESTIGATION") then Investigation
  else if bool_decide (s = "LOST") then Lost
  else if bool_decide (s = "REIMBURSED") then Reimbursed
  else if bool_decide (s = "RENEW_LOCKED") then RenewLocked
  else if bool_decide (s = "PARENT_EXITED") then ParentExited
  else Unknown.

(** A [TreeNodeId] is a newtype of a string. *)
Abbreviation TreeNodeId := string.
Abbreviation LeavesReservationId := string.

(** [impl FromStr for TreeNodeId]. *)
Definition TreeNodeId_from_str (s : string) : result TreeNodeId string :=
  if bool_decide (s = "") then Err "TreeNodeId cannot be empty" else Ok s.

Section types.
Context {ext : Externals}.

Record SigningKeyshare : Type := {
  owner_identifiers : list Identifier;
  threshold : Z;
  keyshare_public_key : PublicKey
}.

#[export] Instance SigningKeyshare_eq_dec : EqDecision SigningKeyshare.
Proof. solve_decision. Defined.

Record TreeNode : Type := {
  tn_id : TreeNodeId;
  tree_id : string;
  value : Z;
  parent_node_id : option TreeNodeId;
  node_tx : Transaction;
  refund_tx : option Transaction;
  direct_tx : option Transaction;
  direct_refund_tx : option Transaction;
  direct_from_cpfp_refund_tx : option Transaction;
  vout : Z;
  verifying_public_key : PublicKey;
  owner_identity_public_key : option PublicKey;
  signing_keyshare : SigningKeyshare;
  status : TreeNodeStatus
}.

#[export] Instance TreeNode_eq_dec : EqDecision TreeNode.
Proof. solve_decision. Defined.

(** ** Errors *)

(** [services::ServiceError] and [tree::TreeServiceError], which mention each
    other; payloads of other crates and of other components are [ForeignError]. *)
Inductive ServiceError : Type :=
| DepositAddressUsed | InvalidDepositAddress | InvalidDepositAddressNetwork
| InvalidIdentifier | MissingDepositAddress | MissingUtxo
| MissingDepositAddressProof | MissingSigningKeyshare | MissingTreeSignatures
| MissingLeafId | InvalidDepositAddressProof | InvalidNodeId (s : string)
| InvalidOutputIndex | InvalidPublicKey | InvalidSignatureShare
| InvalidTransaction | InvalidNetwork (n : Z) | InvalidVerifyingKey
| NotADepositOutput | InvoiceDecodingError (s : string) | SSPswapError (s : string)
| PreimageShareStoreFailed (s : string) | PaymentNotFound
| ExtendTimeLockError (s : string) | TransferVerificationError (s : string)
| MaxRetriesExceeded | NoLeavesToClaim | ClaimTransferError (s : string)
| SignatureVerificationFailed (s : string) | TransferAlreadyClaimed
| SE_InvalidAmount | SE_InsufficientFunds | InvalidInput (s : string)
| PartialCheckTimelockError (nodes : list TreeNode)
| InvalidPaymentHash (s : string) | InvalidPreimage (s : string)
| NeededTooManyOutputs | BitcoinError (e : ForeignError) | FrostError (e : ForeignError)
| BitcoinIOError (s : string) | RequestError (e : ForeignError)
| ServiceProviderError (e : ForeignError) | ValidationError (s : string)
| SE_SignerError (e : ForeignError) | ServiceConnectionError (e : ForeignError)
| SE_TreeServiceError (e : TreeServiceError) | TokenOutputServiceError (e : ForeignError)
| TransferObserverError (e : ForeignError) | SE_Generic (s : string)
with TreeServiceError : Type :=
| InsufficientFunds
| RpcError (e : ForeignError)
| UnselectableAmount
| InvalidAmount
| SignerError (e : ForeignError)
| NonReservableLeaves
| TSE_ServiceError (e : ServiceError)
| ProcessorShutdown
| ResourceBusy (max_concurrent : Z) (timeout : Z)
| Generic (s : string).

(** ** Sequences of a node's transactions

    [None] is the panic of indexing an empty input list. *)
Definition as_u16 (x : Z) : Z := Z.land x 65535.

Definition node_sequence (n : TreeNode) : option Z := tx_input0_sequence (node_tx n).

Definition refund_sequence (n : TreeNode) : option (result Z TreeServiceError) :=
  match refund_tx n with
  | None => Some (Err (Generic "No refund tx"))
  | Some tx => Ok <$> tx_input0_sequence tx
  end.

Definition needs_node_tx_renewed (n : TreeNode) : option bool :=
  (λ s, as_u16 s <=? 100) <$> node_sequence n.

Definition needs_refund_tx_renewed (n : TreeNode) : option (result bool TreeServiceError) :=
  (λ r, let* s := r in Ok (as_u16 s <=? 100)) <$> refund_sequence n.

Definition is_zero_timelock (n : TreeNode) : option bool :=
  (λ s, as_u16 s =? 0) <$> node_sequence n.

(** ** Views of the store *)

Record Leaves : Type := {
  available : list TreeNode;
  not_available : list TreeNode;
  available_missing_from_operators : list TreeNode;
  reserved_for_payment : list TreeNode;
  reserved_for_swap : list TreeNode
}.

Definition available_balance (l : Leaves) : Z := sum_u 64 (value <$> available l).
Definition missing_operators_balance (l : Leaves) : Z :=
  sum_u 64 (value <$> available_missing_from_operators l).
Definition payment_reserved_balance (l : Leaves) : Z :=
  sum_u 64 (value <$> reserved_for_payment l).
Definition swap_reserved_balance (l : Leaves) : Z := sum_u 64 (value <$> reserved_for_swap l).
Definition balance (l : Leaves) : Z :=
  wadd 64 (wadd 64 (available_balance l) (missing_operators_balance l))
    (swap_reserved_balance l).

Inductive ReservationPurpose : Type := Payment | Swap.

#[export] Instance ReservationPurpose_eq_dec : EqDecision ReservationPurpose.
Proof. solve_decision. Defined.

Definition ReservationPurpose_fmt (p : ReservationPurpose) : string :=
  match p with Payment => "Payment" | Swap => "Swap" end.

Definition ReservationPurpose_from_str (s : string) : result ReservationPurpose string :=
  if bool_decide (s = "Payment") then Ok Payment
  else if bool_decide (s = "Swap") then Ok Swap
  else Err ("Unknown ReservationPurpose: " +:+ s).

Record LeavesReservation : Type := {
  res_id : LeavesReservationId;
  res_leaves : list TreeNode
}.

Definition LeavesReservation_new (leaves : list TreeNode) (id : LeavesReservationId) :=
  {| res_leaves := leaves; res_id := id |}.

Definition LeavesReservation_sum (r : LeavesReservation) : Z := sum_u 64 (value <$> res_leaves r).

Inductive ReserveResult : Type :=
| Success (r : LeavesReservation)
| ReserveInsufficientFunds
| WaitForPending (needed available pending : Z).

Definition into_result (r : ReserveResult) : result LeavesReservation TreeServiceError :=
  match r with
  | Success r => Ok r
  | ReserveInsufficientFunds => Err InsufficientFunds
  | WaitForPending _ _ _ => Err (Generic "Unexpected WaitForPending after swap")
  end.

Inductive TargetAmounts : Type :=
| AmountAndFee (amount_sats : Z) (fee_sats : option Z)
| ExactDenominations (denominations : list Z).

Definition total_sats (t : TargetAmounts) : Z :=
  match t with
  | AmountAndFee amount_sats fee_sats => wadd 64 amount_sats (default 0 fee_sats)
  | ExactDenominations denominations => sum_u 64 denominations
  end.

Record TargetLeaves : Type := {
  amount_leaves : list TreeNode;
  fee_leaves : option (list TreeNode)
}.

Definition TargetLeaves_new (a : list TreeNode) (f : option (list TreeNode)) : TargetLeaves :=
  {| amount_leaves := a; fee_leaves := f |}.

(** [max_wait_for_pending], in nanoseconds. *)
Record SelectLeavesOptions : Type := { max_wait_for_pending : Z }.

Definition DEFAULT_MAX_WAIT_FOR_PENDING : Z := 60 * 1000000000.

Definition SelectLeavesOptions_default : SelectLeavesOptions :=
  {| max_wait_for_pending := DEFAULT_MAX_WAIT_FOR_PENDING |}.
Definition SelectLeavesOptions_no_wait : SelectLeavesOptions := {| max_wait_for_pending := 0 |}.

(** The [u64] values of the nodes are in range. *)
Definition node_ok (n : TreeNode) : Prop := in_u 64 (value n).

#[export] Instance node_ok_dec n : Decision (node_ok n).
Proof. unfold node_ok. apply _. Defined.

(** The values of a list of nodes, and their exact sum. *)
Definition total (l : list TreeNode) : Z := sumZ (value <$> l).

Lemma total_app l1 l2 : total (l1 ++ l2) = total l1 + total l2.
Proof. unfold total. by rewrite fmap_app, sumZ_app. Qed.

Lemma total_nil : total [] = 0.
Proof. done. Qed.

Lemma total_cons x l : total (x :: l) = value x + total l.
Proof. done. Qed.

#[export] Instance total_proper : Proper ((≡ₚ) ==> (=)) total.
Proof. intros l1 l2 Hl. unfold total. by rewrite Hl. Qed.

Lemma values_nonneg l : Forall node_ok l → Forall (λ x, 0 ≤ x) (value <$> l).
Proof. intros. apply Forall_fmap. eapply Forall_impl; [done|]. unfold node_ok, in_u. simpl. lia. Qed.

Lemma total_nonneg l : Forall node_ok l → 0 ≤ total l.
Proof. intros. apply sumZ_nonneg. by apply values_nonneg. Qed.

Lemma total_exact l :
  Forall node_ok l → total l < 2 ^ 64 → sum_u 64 (value <$> l) = total l.
Proof. intros. apply sum_u_exact; [done|by apply values_nonneg|done]. Qed.

Lemma total_sublist_le l1 l2 : sublist l1 l2 → Forall node_ok l2 → total l1 ≤ total l2.
Proof.
  intros Hs Hok. apply sumZ_sublist_le; [|by apply values_nonneg].
  clear Hok. induction Hs; by constructor.
Qed.

Lemma total_submseteq_le l1 l2 : l1 ⊆+ l2 → Forall node_ok l2 → total l1 ≤ total l2.
Proof.
  intros [l Hl]%submseteq_Permutation Hok. rewrite Hl, total_app.
  rewrite Hl, Forall_app in Hok. pose proof (total_nonneg l). naive_solver lia.
Qed.

End types.

#[export] Hint Resolve total_nonneg values_nonneg : rust.

(** ** Example nodes, over [simple_externals] *)
Definition example_leaf (id : string) (v : Z) (st : TreeNodeStatus) : @TreeNode simple_externals :=
  {| tn_id := id; tree_id := "tree"; value := v; parent_node_id := None;
     node_tx := ([2000] : @Transaction simple_externals); refund_tx := None; direct_tx := None;
     direct_refund_tx := None; direct_from_cpfp_refund_tx := None; vout := 0;
     verifying_public_key := (5 : @PublicKey simple_externals);
     owner_identity_public_key := None;
     signing_keyshare := {| owner_identifiers := []; threshold := 2;
                            keyshare_public_key := (2 : @PublicKey simple_externals) |};
     status := st |}.
