(* ===== verification/SelectHelper.v ===== *)
(** Leaf selection: [crates/spark/src/tree/select_helper.rs].

    Exact and minimum-amount selection of leaves, with the greedy search and its
    retry on power-of-two leaves, and the proof that the greedy search is
    complete on power-of-two leaves. *)
From S2P Require Import Prelude TreeTypes.

Section select_helper.
Context {ext : Externals}.

(** ** The code *)

Definition find_exact_single_match (leaves : list TreeNode) (target_amount_sat : Z)
    : option TreeNode :=
  List.find (λ leaf, value leaf =? target_amount_sat) leaves.

Definition is_power_of_two (value : Z) : bool :=
  (0 <? value) && (Z.land value (wsub 64 value 1) =? 0).

(** The loop of [greedy_exact_match] over the sorted leaves. *)
Fixpoint greedy_loop (sorted_leaves : list TreeNode) (remaining : Z) (result : list TreeNode)
    : option (list TreeNode) :=
  match sorted_leaves with
  | [] => None
  | leaf :: rest =>
      if remaining <? value leaf then greedy_loop rest remaining result
      else
        let remaining := wsub 64 remaining (value leaf) in
        let result := result ++ [leaf] in
        if remaining =? 0 then Some result else greedy_loop rest remaining result
  end.

(** [sort_by(|a, b| b.value.cmp(&a.value))]: stable, descending. *)
Definition sort_descending (leaves : list TreeNode) : list TreeNode :=
  sort_by (λ a b, value b <=? value a) leaves.

Definition greedy_exact_match (leaves : list TreeNode) (target_amount_sat : Z)
    : option (list TreeNode) :=
  greedy_loop (sort_descending leaves) target_amount_sat [].

Definition find_exact_multiple_match (leaves : list TreeNode) (target_amount_sat : Z)
    : option (list TreeNode) :=
  if target_amount_sat =? 0 then Some []
  else match leaves with
  | [] => None
  | _ :: _ =>
    match greedy_exact_match leaves target_amount_sat with
    | Some result => Some result
    | None =>
        let power_of_two_leaves := List.filter (λ l, is_power_of_two (value l)) leaves in
        if Nat.eqb (length power_of_two_leaves) (length leaves) then None
        else greedy_exact_match power_of_two_leaves target_amount_sat
    end
  end.

Definition select_leaves_by_exact_amount (leaves : list TreeNode) (target_amount_sat : Z)
    : result (option (list TreeNode)) TreeServiceError :=
  if target_amount_sat =? 0 then Err InvalidAmount
  else if sum_u 64 (value <$> leaves) <? target_amount_sat then Err InsufficientFunds
  else match find_exact_single_match leaves target_amount_sat with
  | Some leaf => Ok (Some [leaf])
  | None =>
    match find_exact_multiple_match leaves target_amount_sat with
    | Some selected_leaves => Ok (Some selected_leaves)
    | None => Ok None
    end
  end.

Fixpoint exact_denominations_loop (denominations : list Z)
    (remaining_leaves selected_leaves : list TreeNode)
    : result (list TreeNode) TreeServiceError :=
  match denominations with
  | [] => Ok selected_leaves
  | denomination :: rest =>
      let* leaf := ok_or (find_exact_single_match remaining_leaves denomination)
                     UnselectableAmount in
      exact_denominations_loop rest
        (List.filter (λ l, negb (bool_decide (tn_id l = tn_id leaf))) remaining_leaves)
        (selected_leaves ++ [leaf])
  end.

Definition select_leaves_by_exact_denominations (leaves : list TreeNode)
    (denominations : list Z) : result (list TreeNode) TreeServiceError :=
  exact_denominations_loop denominations leaves [].

Fixpoint minimum_amount_loop (leaves : list TreeNode) (target_amount_sat sum : Z)
    (result : list TreeNode) : Z * list TreeNode :=
  match leaves with
  | [] => (sum, result)
  | leaf :: rest =>
      let sum := wadd 64 sum (value leaf) in
      let result := result ++ [leaf] in
      if target_amount_sat <=? sum then (sum, result)
      else minimum_amount_loop rest target_amount_sat sum result
  end.

Definition select_leaves_by_minimum_amount (leaves : list TreeNode) (target_amount_sat : Z)
    : result (option (list TreeNode)) TreeServiceError :=
  if target_amount_sat =? 0 then Err InvalidAmount
  else if sum_u 64 (value <$> leaves) <? target_amount_sat then Err InsufficientFunds
  else
    let '(sum, result) := minimum_amount_loop leaves target_amount_sat 0 [] in
    if sum <? target_amount_sat then Ok None else Ok (Some result).

Definition select_leaves_by_target_amounts (leaves : list TreeNode)
    (target_amounts : option TargetAmounts) : result TargetLeaves TreeServiceError :=
  match target_amounts with
  | None => Ok (TargetLeaves_new leaves None)
  | Some (AmountAndFee amount_sats fee_sats) =>
      let* amount_opt := select_leaves_by_exact_amount leaves amount_sats in
      let* amount_leaves := ok_or amount_opt UnselectableAmount in
      match fee_sats with
      | Some fee_sats =>
          let remaining_leaves :=
            List.filter (λ leaf,
              negb (existsb (λ a, bool_decide (tn_id a = tn_id leaf)) amount_leaves)) leaves in
          let* fee_opt := select_leaves_by_exact_amount remaining_leaves fee_sats in
          let* fee_leaves := ok_or fee_opt UnselectableAmount in
          Ok (TargetLeaves_new amount_leaves (Some fee_leaves))
      | None => Ok (TargetLeaves_new amount_leaves None)
      end
  | Some (ExactDenominations denominations) =>
      let* denominations_leaves := select_leaves_by_exact_denominations leaves denominations in
      Ok (TargetLeaves_new denominations_leaves None)
  end.

(** [[amount_leaves, fee_leaves.unwrap_or_default()].concat()], which every
    caller builds from the result. *)
Definition target_concat (t : TargetLeaves) : list TreeNode :=
  amount_leaves t ++ default [] (fee_leaves t).


(** ** Powers of two *)

Lemma is_power_of_two_spec v :
  in_u 64 v → is_power_of_two v = true ↔ ∃ k, 0 ≤ k ∧ v = 2 ^ k.
Proof.
  intros [Hv0 Hv]. unfold is_power_of_two, wsub. rewrite andb_true_iff, Z.ltb_lt, Z.eqb_eq. split.
  - intros [Hpos Hland]. exists (Z.log2 v).
    pose proof (Z.log2_nonneg v) as Hk. split; [done|].
    destruct (Z.log2_spec v Hpos) as [Hlo Hhi].
    destruct (decide (v = 2 ^ Z.log2 v)) as [|Hne]; [done|]. exfalso.
    rewrite (wrap_small 64 (v - 1)) in Hland by (unfold in_u; lia).
    assert (Z.log2 (v - 1) = Z.log2 v) as Hlog.
    { apply Z.log2_unique; [done|]. lia. }
    assert (Z.testbit (Z.land v (v - 1)) (Z.log2 v) = true) as Hbit.
    { rewrite Z.land_spec. rewrite Z.bit_log2 by done.
      rewrite <- Hlog. rewrite Z.bit_log2; [done|].
      pose proof (Z.pow_pos_nonneg 2 (Z.log2 v)). lia. }
    by rewrite Hland, Z.bits_0 in Hbit.
  - intros (k & Hk & ->). pose proof (Z.pow_pos_nonneg 2 k). split; [lia|].
    rewrite wrap_small by (unfold in_u; lia).
    replace (2 ^ k - 1) with (Z.ones k) by (rewrite Z.ones_equiv; lia).
    rewrite Z.land_ones by done. apply Z_mod_same_full.
Qed.

Definition pow2_node (l : TreeNode) : Prop := ∃ k, 0 ≤ k ∧ value l = 2 ^ k.

Lemma pow2_divide l1 l2 :
  pow2_node l1 → pow2_node l2 → value l1 ≤ value l2 → (value l1 | value l2).
Proof.
  intros (k1 & Hk1 & ->) (k2 & Hk2 & ->) Hle.
  assert (k1 ≤ k2) by (apply (Z.pow_le_mono_r_iff 2); lia).
  exists (2 ^ (k2 - k1)). rewrite <- Z.pow_add_r by lia. f_equal. lia.
Qed.

Abbreviation descending := (StronglySorted (λ a b, (value b <=? value a) = true)).

Lemma sort_descending_perm l : sort_descending l ≡ₚ l.
Proof. apply sort_by_perm. Qed.

Lemma sort_descending_sorted l : descending (sort_descending l).
Proof. apply sort_by_sorted; intros; lia. Qed.

(** ** Soundness of the greedy search *)

Lemma greedy_loop_sound l r acc res :
  Forall node_ok l → in_u 64 r → greedy_loop l r acc = Some res →
  ∃ s, res = acc ++ s ∧ sublist s l ∧ total s = r ∧ s ≠ [].
Proof.
  revert r acc. induction l as [|x l IH]; intros r acc Hok Hr; [done|].
  apply Forall_cons in Hok as [Hx Hok]. unfold node_ok, in_u in *. cbn [greedy_loop].
  destruct (Z.ltb_spec r (value x)).
  - intros Hg. destruct (IH r acc Hok Hr Hg) as (s & ? & ? & ? & ?).
    exists s. split_and!; auto using sublist.
  - unfold wsub. rewrite wrap_small by (unfold in_u; lia).
    destruct (Z.eqb_spec (r - value x) 0).
    + intros [= <-]. exists [x]. split_and!; [done| |rewrite total_cons, total_nil; lia|done].
      apply sublist_skip, sublist_nil_l.
    + intros Hg. destruct (IH (r - value x) (acc ++ [x])) as (s & -> & ? & Hs & ?); [done|lia|done|].
      exists (x :: s). split_and!; [by rewrite <- app_assoc|by constructor| |done].
      rewrite ?total_cons, ?total_nil in *. lia.
Qed.

Lemma sorted_ok l : Forall node_ok l → Forall node_ok (sort_descending l).
Proof. by rewrite sort_descending_perm. Qed.

Lemma greedy_exact_match_sound leaves target res :
  Forall node_ok leaves → in_u 64 target → greedy_exact_match leaves target = Some res →
  res ⊆+ leaves ∧ total res = target.
Proof.
  intros Hok Ht Hg.
  destruct (greedy_loop_sound _ _ _ _ (sorted_ok _ Hok) Ht Hg) as (s & -> & Hs & ? & _).
  split; [|done]. rewrite <- (sort_descending_perm leaves). by apply sublist_submseteq.
Qed.

Lemma bfilter_ok f l : Forall node_ok l → Forall node_ok (List.filter f l).
Proof. intros. eapply Forall_sublist; [apply sublist_bfilter|done]. Qed.

Lemma find_exact_multiple_match_sound leaves target res :
  Forall node_ok leaves → in_u 64 target →
  find_exact_multiple_match leaves target = Some res →
  res ⊆+ leaves ∧ total res = target.
Proof.
  intros Hok Ht. unfold find_exact_multiple_match.
  destruct (Z.eqb_spec target 0) as [->|Hne].
  { intros [= <-]. split; [apply submseteq_nil_l|done]. }
  destruct leaves as [|x l]; [done|]. set (leaves := x :: l) in *.
  destruct (greedy_exact_match leaves target) eqn:Hg.
  { intros [= <-]. by apply greedy_exact_match_sound. }
  case_match; [done|]. intros Hg2.
  destruct (greedy_exact_match_sound _ _ _ (bfilter_ok _ _ Hok) Ht Hg2). split; [|done].
  etrans; [done|]. apply sublist_submseteq, sublist_bfilter.
Qed.

(** ** Completeness of the greedy search on powers of two *)

(** In a descending list whose elements all divide [t], some prefix reaches [t]
    exactly as soon as the whole list reaches it. *)
Lemma prefix_hits s t :
  Forall pow2_node s → descending s → Forall (λ l, (value l | t)) s →
  0 ≤ t ≤ total s → ∃ n, total (take n s) = t.
Proof.
  revert t. induction s as [|p s IH]; intros t Hp Hd Hdiv Ht.
  { exists 0%nat. rewrite ?total_cons, ?total_nil in *. lia. }
  destruct (decide (t = 0)) as [->|Hne]; [by exists 0%nat|].
  apply Forall_cons in Hp as [Hp Hps]. apply StronglySorted_inv in Hd as [Hd Hle].
  apply Forall_cons in Hdiv as [Hpt Hdiv].
  destruct (IH (t - value p)) as [n Hn]; [done|done| | |].
  - apply Forall_forall. intros q Hq. apply Z.divide_sub_r.
    + rewrite Forall_forall in Hdiv. auto.
    + rewrite Forall_forall in Hps, Hle. specialize (Hle q Hq). simpl in Hle.
      apply pow2_divide; [auto|done|lia].
  - rewrite ?total_cons, ?total_nil in *. pose proof (Z.divide_pos_le (value p) t ltac:(lia) Hpt). lia.
  - exists (S n). cbn [take]. rewrite total_cons. lia.
Qed.

Lemma sublist_descending s l : sublist s l → descending l → descending s.
Proof.
  induction 1 as [|x s l Hs IH|x s l Hs IH]; intros Hd; [done| |];
    apply StronglySorted_inv in Hd as [Hd Hall]; [|by apply IH].
  constructor; [by apply IH|]. by eapply Forall_sublist.
Qed.

Lemma greedy_loop_complete l r acc s :
  Forall node_ok l → Forall pow2_node l → descending l → 0 < r < 2 ^ 64 →
  sublist s l → total s = r → is_Some (greedy_loop l r acc).
Proof.
  revert r acc s. induction l as [|x l IH]; intros r acc s Hok Hp Hd Hr Hs Hsum.
  { apply sublist_nil_r in Hs as ->. rewrite ?total_cons, ?total_nil in *. lia. }
  apply Forall_cons in Hok as [Hx Hok]. apply Forall_cons in Hp as [Hpx Hp].
  apply StronglySorted_inv in Hd as [Hd Hle]. unfold node_ok, in_u in Hx.
  assert (∀ s', sublist s' l → 0 ≤ total s') as Hnn.
  { intros s' ?. apply total_nonneg. by eapply Forall_sublist. }
  cbn [greedy_loop]. destruct (Z.ltb_spec r (value x)).
  - apply (IH r acc s); try done. apply sublist_cons_r in Hs as [?|(s' & -> & ?)]; [done|].
    specialize (Hnn s'). rewrite ?total_cons, ?total_nil in *. exfalso. naive_solver lia.
  - unfold wsub. rewrite wrap_small by (unfold in_u; lia).
    destruct (Z.eqb_spec (r - value x) 0); [by eexists|].
    assert (∃ s', sublist s' l ∧ total s' = r - value x) as (s' & Hs' & Hsum').
    { apply sublist_cons_r in Hs as [Hs|(s' & -> & ?)].
      - destruct (prefix_hits s (value x)) as [m Hm].
        + by eapply Forall_sublist.
        + by eapply sublist_descending.
        + apply Forall_forall. intros q Hq. apply (sublist_submseteq) in Hs.
          assert (q ∈ l) by (by eapply elem_of_submseteq).
          rewrite Forall_forall in Hp, Hle. specialize (Hle q). simpl in Hle.
          apply pow2_divide; [by apply Hp|done|]. naive_solver lia.
        + lia.
        + exists (drop m s). split.
          * etrans; [|done]. rewrite <- (take_drop m s) at 2. by apply sublist_inserts_l.
          * pose proof (total_app (take m s) (drop m s)) as Ha. rewrite take_drop in Ha. lia.
      - exists s'. split; [done|]. rewrite ?total_cons, ?total_nil in *. lia. }
    apply (IH _ _ s'); try done. lia.
Qed.

Lemma greedy_exact_match_complete leaves target s :
  Forall node_ok leaves → Forall pow2_node leaves → 0 < target < 2 ^ 64 →
  s ⊆+ leaves → total s = target → is_Some (greedy_exact_match leaves target).
Proof.
  intros Hok Hp Ht Hs Hsum. rewrite <- (sort_descending_perm leaves) in Hs.
  apply submseteq_sublist_r in Hs as (s' & Hss & Hs').
  eapply greedy_loop_complete; [by apply sorted_ok|by rewrite sort_descending_perm|
    apply sort_descending_sorted|done|done|]. by rewrite <- Hss.
Qed.


(** Any leaves that the power-of-two leaves of the wallet could pay with are
    found, whatever the other leaves are. *)
Lemma find_exact_multiple_match_complete leaves target s :
  Forall node_ok leaves → 0 < target < 2 ^ 64 →
  s ⊆+ List.filter (λ l, is_power_of_two (value l)) leaves → total s = target →
  is_Some (find_exact_multiple_match leaves target).
Proof.
  intros Hok Ht Hs Hsum. unfold find_exact_multiple_match.
  destruct (Z.eqb_spec target 0); [lia|]. destruct leaves as [|x l].
  { apply submseteq_nil_r in Hs as ->. rewrite total_nil in Hsum. lia. }
  set (leaves := x :: l) in *. set (pow := List.filter _ leaves) in *.
  assert (is_Some (greedy_exact_match pow target)) as Hpow.
  { eapply greedy_exact_match_complete; [by apply bfilter_ok| |done..].
    apply Forall_forall. intros y [Hy Hpy]%elem_of_bfilter.
    rewrite Forall_forall in Hok. apply is_power_of_two_spec; [by apply Hok|done]. }
  destruct (greedy_exact_match leaves target) eqn:Hg; [by eexists|].
  destruct (Nat.eqb_spec (length pow) (length leaves)) as [Hlen|]; [|done].
  apply bfilter_length_eq in Hlen. fold pow in Hlen. rewrite Hlen in Hpow.
  rewrite Hg in Hpow. by destruct Hpow.
Qed.

(** ** The selection functions *)

Lemma find_exact_single_match_Some leaves t l :
  find_exact_single_match leaves t = Some l → l ∈ leaves ∧ value l = t.
Proof. intros [? ?%Z.eqb_eq]%find_Some_elem. done. Qed.

Lemma find_exact_single_match_None leaves t :
  find_exact_single_match leaves t = None ↔ ∀ l, l ∈ leaves → value l ≠ t.
Proof.
  unfold find_exact_single_match. rewrite find_None_elem.
  split; intros Hl l Hin; specialize (Hl l Hin); lia.
Qed.

Lemma select_leaves_by_exact_amount_sound leaves t res :
  Forall node_ok leaves → in_u 64 t → select_leaves_by_exact_amount leaves t = Ok (Some res) →
  res ⊆+ leaves ∧ total res = t.
Proof.
  intros Hok Ht. unfold select_leaves_by_exact_amount.
  destruct (t =? 0); [done|]. case_match; [done|].
  destruct (find_exact_single_match leaves t) as [l|] eqn:Hf.
  - intros [= <-]. apply find_exact_single_match_Some in Hf as [Hl <-].
    split; [by apply singleton_submseteq_l|]. rewrite total_cons, total_nil. lia.
  - case_match eqn:Hm; [|done]. intros [= <-]. by apply find_exact_multiple_match_sound.
Qed.

Lemma exact_denominations_loop_sound ds rem sel res :
  exact_denominations_loop ds rem sel = Ok res →
  ∃ s, res = sel ++ s ∧ s ⊆+ rem ∧ value <$> s = ds.
Proof.
  revert rem sel. induction ds as [|d ds IH]; intros rem sel; cbn [exact_denominations_loop].
  { intros [= <-]. exists []. rewrite app_nil_r. split_and!; [done|apply submseteq_nil_l|done]. }
  rewrite rbind_ok. intros (leaf & Hleaf%ok_or_ok & Hloop).
  apply find_exact_single_match_Some in Hleaf as [Hin <-].
  apply IH in Hloop as (s & -> & Hs & <-). exists (leaf :: s).
  split_and!; [by rewrite <- app_assoc| |done].
  apply (bfilter_split_submseteq (λ l, bool_decide (tn_id l = tn_id leaf)) [leaf] s rem);
    [by apply singleton_submseteq_l| |done].
  constructor; [by apply bool_decide_eq_true_2|done].
Qed.

Lemma amount_ids_true (a : list TreeNode) :
  Forall (λ x, existsb (λ y, bool_decide (tn_id y = tn_id x)) a = true) a.
Proof.
  apply Forall_forall. intros x Hx. apply existsb_elem. exists x.
  split; [done|by apply bool_decide_eq_true_2].
Qed.

Definition target_ok (t : TargetAmounts) : Prop :=
  match t with
  | AmountAndFee a f => in_u 64 a ∧ in_u 64 (default 0 f)
  | ExactDenominations ds => Forall (in_u 64) ds
  end.

(** What a successful selection contains. *)
Definition selection_matches (leaves : list TreeNode) (t : option TargetAmounts)
    (r : TargetLeaves) : Prop :=
  match t with
  | None => amount_leaves r = leaves ∧ fee_leaves r = None
  | Some (AmountAndFee a None) => total (amount_leaves r) = a ∧ fee_leaves r = None
  | Some (AmountAndFee a (Some f)) =>
      total (amount_leaves r) = a ∧ ∃ fl, fee_leaves r = Some fl ∧ total fl = f
  | Some (ExactDenominations ds) => value <$> amount_leaves r = ds ∧ fee_leaves r = None
  end.

Lemma select_sound leaves t r :
  Forall node_ok leaves → (∀ x, t = Some x → target_ok x) →
  select_leaves_by_target_amounts leaves t = Ok r →
  selection_matches leaves t r ∧ target_concat r ⊆+ leaves.
Proof.
  intros Hok Ht. unfold target_concat. destruct t as [[a f|ds]|]; cbn -[in_u].
  - destruct (Ht _ eq_refl) as [Ha Hf]. rewrite rbind_ok. intros (ao & Hao & Hsel).
    apply rbind_ok in Hsel as (al & ->%ok_or_ok & Hsel).
    apply select_leaves_by_exact_amount_sound in Hao as [Hal Hta]; [|done..].
    destruct f as [fee|].
    + apply rbind_ok in Hsel as (fo & Hfo & Hsel).
      apply rbind_ok in Hsel as (fl & ->%ok_or_ok & [= <-]).
      apply select_leaves_by_exact_amount_sound in Hfo as [Hfl Htf]; [|by apply bfilter_ok|done].
      split; [by eauto|]. simpl. by eapply bfilter_split_submseteq; [|apply amount_ids_true|].
    + injection Hsel as <-. simpl. by rewrite app_nil_r.
  - rewrite rbind_ok. intros (s & Hs & [= <-]). simpl. rewrite app_nil_r.
    by apply exact_denominations_loop_sound in Hs as (s' & -> & ? & ?).
  - intros [= <-]. simpl. by rewrite app_nil_r.
Qed.

Lemma minimum_amount_loop_spec l t sum acc :
  Forall node_ok l → 0 ≤ sum → sum + total l < 2 ^ 64 →
  ∃ n, minimum_amount_loop l t sum acc = (sum + total (take n l), acc ++ take n l) ∧
       (t ≤ sum + total (take n l) ∨ take n l = l) ∧
       ∀ m, (0 < m < n)%nat → sum + total (take m l) < t.
Proof.
  revert sum acc. induction l as [|x l IH]; intros sum acc Hok Hsum Hb.
  { exists 0%nat. cbn [minimum_amount_loop take]. rewrite total_nil, app_nil_r. split_and!; [f_equal; lia|by right|lia]. }
  apply Forall_cons in Hok as [Hx Hok]. unfold node_ok, in_u in Hx.
  rewrite total_cons in Hb. pose proof (total_nonneg l Hok).
  cbn [minimum_amount_loop]. unfold wadd. rewrite wrap_small by (unfold in_u; lia).
  destruct (Z.leb_spec t (sum + value x)) as [Hle|Hlt].
  - exists 1%nat. cbn [take]. rewrite total_cons, total_nil. split_and!; [f_equal; lia|left; lia|lia].
  - destruct (IH (sum + value x) (acc ++ [x]) Hok) as (n & -> & Hend & Hmin); [lia..|].
    exists (S n). cbn [take]. rewrite total_cons, <- app_assoc. simpl. split_and!.
    + f_equal. lia.
    + destruct Hend as [?|Hend]; [left; lia|right; by rewrite Hend].
    + intros [|[|m]] Hm; [lia| |].
      * cbn [take]. rewrite total_cons, total_nil. lia.
      * cbn [take]. rewrite total_cons. specialize (Hmin (S m)). cbn [take] in Hmin. lia.
Qed.

Lemma select_minimum_spec leaves t :
  Forall node_ok leaves → total leaves < 2 ^ 64 → 0 < t →
  (total leaves < t ∧ select_leaves_by_minimum_amount leaves t = Err InsufficientFunds) ∨
  (∃ n, select_leaves_by_minimum_amount leaves t = Ok (Some (take n leaves)) ∧
        t ≤ total (take n leaves) ∧ ∀ m, (m < n)%nat → total (take m leaves) < t).
Proof.
  intros Hok Hb Ht. unfold select_leaves_by_minimum_amount.
  destruct (Z.eqb_spec t 0); [lia|]. rewrite total_exact by done.
  destruct (Z.ltb_spec (total leaves) t) as [|Hge]; [by left|right].
  destruct (minimum_amount_loop_spec leaves t 0 [] Hok) as (j & -> & Hend & Hmin); [lia..|].
  rewrite Z.add_0_l in *. assert (t ≤ total (take j leaves)) as Hj.
  { destruct Hend as [?| ->]; done. }
  exists j. destruct (Z.ltb_spec (total (take j leaves)) t); [lia|].
  split_and!; [done|done|]. intros [|m] Hm; [rewrite take_0, total_nil; lia|]. apply Hmin. lia.
Qed.

(** ** Selections as parts of the leaves, whatever the amounts *)

Lemma greedy_loop_sublist l r acc res :
  greedy_loop l r acc = Some res → ∃ s, res = acc ++ s ∧ sublist s l.
Proof.
  revert r acc. induction l as [|x l IH]; intros r acc; cbn [greedy_loop]; [done|]. case_match.
  - intros (s & ? & ?)%IH. exists s. split; [done|by constructor].
  - case_match.
    + intros [= <-]. exists [x]. split; [done|]. apply sublist_skip, sublist_nil_l.
    + intros (s & -> & ?)%IH. exists (x :: s). split; [by rewrite <- app_assoc|by constructor].
Qed.

Lemma greedy_exact_match_sub leaves t res : greedy_exact_match leaves t = Some res → res ⊆+ leaves.
Proof.
  intros (s & -> & Hs)%greedy_loop_sublist. simpl. rewrite <- (sort_descending_perm leaves).
  by apply sublist_submseteq.
Qed.

Lemma select_exact_sub leaves t res :
  select_leaves_by_exact_amount leaves t = Ok (Some res) → res ⊆+ leaves.
Proof.
  unfold select_leaves_by_exact_amount. destruct (t =? 0) eqn:H0; [done|]. case_match; [done|].
  destruct (find_exact_single_match leaves t) as [l|] eqn:Hf.
  - intros [= <-]. apply find_exact_single_match_Some in Hf as [Hl _]. by apply singleton_submseteq_l.
  - case_match eqn:Hm; [|done]. intros [= <-]. unfold find_exact_multiple_match in Hm.
    rewrite H0 in Hm. destruct leaves as [|x leaves]; [done|].
    destruct (greedy_exact_match (x :: leaves) t) eqn:Hg; [injection Hm as ->; by eapply greedy_exact_match_sub|].
    case_match; [done|]. etrans; [by eapply greedy_exact_match_sub|]. apply sublist_submseteq, sublist_bfilter.
Qed.

Lemma select_targets_sub leaves t r :
  select_leaves_by_target_amounts leaves t = Ok r → target_concat r ⊆+ leaves.
Proof.
  unfold target_concat. destruct t as [[a f|ds]|]; cbn.
  - rewrite rbind_ok. intros (ao & Hao & Hsel). apply rbind_ok in Hsel as (al & ->%ok_or_ok & Hsel).
    apply select_exact_sub in Hao. destruct f as [fee|]; [|injection Hsel as <-; by rewrite app_nil_r].
    apply rbind_ok in Hsel as (fo & Hfo & Hsel). apply rbind_ok in Hsel as (fl & ->%ok_or_ok & [= <-]).
    apply select_exact_sub in Hfo. by eapply bfilter_split_submseteq; [|apply amount_ids_true|].
  - rewrite rbind_ok. intros (s & Hs & [= <-]). simpl. rewrite app_nil_r.
    by apply exact_denominations_loop_sound in Hs as (s' & -> & ? & ?).
  - intros [= <-]. simpl. by rewrite app_nil_r.
Qed.

Lemma minimum_amount_loop_prefix l t sum acc :
  ∃ n, (minimum_amount_loop l t sum acc).2 = acc ++ take n l.
Proof.
  revert sum acc. induction l as [|x l IH]; intros sum acc; cbn [minimum_amount_loop].
  { exists 0%nat. by rewrite app_nil_r. }
  case_match; [by exists 1%nat|]. destruct (IH (wadd 64 sum (value x)) (acc ++ [x])) as [n ->].
  exists (S n). by rewrite <- app_assoc.
Qed.

Lemma select_minimum_sub leaves t res :
  select_leaves_by_minimum_amount leaves t = Ok (Some res) → res ⊆+ leaves.
Proof.
  unfold select_leaves_by_minimum_amount. repeat (case_match; [done|]).
  destruct (minimum_amount_loop_prefix leaves t 0 []) as [n Hn].
  destruct (minimum_amount_loop leaves t 0 []) as [sum r]. simpl in Hn. case_match; [done|].
  intros [= <-]. rewrite Hn. apply sublist_submseteq, sublist_take.
Qed.

(** ** Properties *)

(** C5: a successful selection pays exactly what was asked (the amount and the
    fee separately, or the listed denominations in order), and the leaves it
    returns are among the wallet's leaves with no leaf used twice. *)
Theorem select_leaves_by_target_amounts_exact leaves t r :
  Forall node_ok leaves → (∀ x, t = Some x → target_ok x) →
  select_leaves_by_target_amounts leaves t = Ok r →
  selection_matches leaves t r ∧ target_concat r ⊆+ leaves.
Proof. apply select_sound. Qed.

(** C39: when some of the power-of-two leaves add up to the target, the search
    finds leaves for it, even when the wallet also holds other leaves; and what
    it finds adds up to the target.  On wallets of power-of-two leaves the greedy
    search thus decides the subset-sum problem. *)
Theorem find_exact_multiple_match_decides leaves target s :
  Forall node_ok leaves → 0 < target < 2 ^ 64 →
  s ⊆+ List.filter (λ l, is_power_of_two (value l)) leaves → total s = target →
  ∃ res, find_exact_multiple_match leaves target = Some res ∧
         res ⊆+ leaves ∧ total res = target.
Proof.
  intros Hok Ht Hs Hsum.
  destruct (find_exact_multiple_match_complete leaves target s Hok Ht Hs Hsum) as [res Hres].
  exists res. split; [done|]. apply find_exact_multiple_match_sound; [done|unfold in_u; lia|done].
Qed.

(** the minimum-amount selection is the shortest prefix of the leaves that
    reaches a positive target, and an error exactly when all leaves together
    fall short; [Ok(None)] is never returned. *)
Theorem select_leaves_by_minimum_amount_shortest_prefix leaves t :
  Forall node_ok leaves → total leaves < 2 ^ 64 → 0 < t →
  (total leaves < t ∧ select_leaves_by_minimum_amount leaves t = Err InsufficientFunds) ∨
  (∃ n, select_leaves_by_minimum_amount leaves t = Ok (Some (take n leaves)) ∧
        t ≤ total (take n leaves) ∧ ∀ m, (m < n)%nat → total (take m leaves) < t).
Proof. apply select_minimum_spec. Qed.

End select_helper.

(** ** Witnesses *)

Definition wallet_3000_2048_1024 : list (@TreeNode simple_externals) :=
  [example_leaf "a" 3000 Available; example_leaf "b" 2048 Available;
   example_leaf "c" 1024 Available].

Lemma wallet_ok : Forall node_ok wallet_3000_2048_1024.
Proof. repeat (constructor; [unfold node_ok, in_u; simpl; lia|]). constructor. Defined.

Lemma select_leaves_by_target_amounts_exact_witness :
  ∃ r, select_leaves_by_target_amounts wallet_3000_2048_1024
         (Some (AmountAndFee 2048 (Some 1024))) = Ok r ∧
       selection_matches wallet_3000_2048_1024 (Some (AmountAndFee 2048 (Some 1024))) r ∧
       target_concat r ⊆+ wallet_3000_2048_1024.
Proof.
  eexists. split; [reflexivity|].
  apply (select_leaves_by_target_amounts_exact wallet_3000_2048_1024
           (Some (AmountAndFee 2048 (Some 1024)))).
  - exact wallet_ok.
  - intros x [= <-]. by vm_compute.
  - reflexivity.
Defined.

Lemma find_exact_multiple_match_decides_witness :
  ∃ res, find_exact_multiple_match wallet_3000_2048_1024 3072 = Some res ∧
         res ⊆+ wallet_3000_2048_1024 ∧ total res = 3072.
Proof.
  apply (find_exact_multiple_match_decides wallet_3000_2048_1024 3072
           (List.filter (λ l, is_power_of_two (value l)) wallet_3000_2048_1024)).
  - exact wallet_ok.
  - lia.
  - reflexivity.
  - reflexivity.
Defined.

Lemma select_leaves_by_minimum_amount_shortest_prefix_witness :
  (total wallet_3000_2048_1024 < 4000 ∧
   select_leaves_by_minimum_amount wallet_3000_2048_1024 4000 = Err InsufficientFunds) ∨
  (∃ n, select_leaves_by_minimum_amount wallet_3000_2048_1024 4000
          = Ok (Some (take n wallet_3000_2048_1024)) ∧
        4000 ≤ total (take n wallet_3000_2048_1024) ∧
        ∀ m, (m < n)%nat → total (take m wallet_3000_2048_1024) < 4000).
Proof.
  apply (select_leaves_by_minimum_amount_shortest_prefix wallet_3000_2048_1024 4000).
  - exact wallet_ok.
  - reflexivity.
  - lia.
Defined.
