(* ===== verification/TreeStore.v ===== *)
(** The state and operations of the in-memory tree store:
    [LeavesState] and the [process_*] functions of
    [crates/spark/src/tree/store.rs].

    Clock readings ([SystemTime::now()]) and fresh identifiers
    ([Uuid::now_v7()]) are arguments; times are numbers (nanoseconds). *)
From S2P Require Import Prelude TreeTypes SelectHelper.

(** A semaphore permit is identified by a number. *)
Abbreviation Permit := nat.

Section store.
Context {ext : Externals}.

(** ** State *)

Record StoredLeaf : Type := { sl_node : TreeNode; added_at : Z }.

Definition fresh_leaf (now : Z) (leaf : TreeNode) : StoredLeaf :=
  {| sl_node := leaf; added_at := now |}.

Definition sl_id (s : StoredLeaf) : TreeNodeId := tn_id (sl_node s).

Record ReservationEntry : Type := {
  re_leaves : list StoredLeaf;
  re_purpose : ReservationPurpose;
  re_permit : Permit;
  pending_change_amount : Z
}.

Record LeavesState : Type := {
  leaves : gmap TreeNodeId StoredLeaf;
  missing_operators_leaves : gmap TreeNodeId StoredLeaf;
  leaves_reservations : gmap LeavesReservationId ReservationEntry;
  spent_leaf_ids : gmap TreeNodeId Z;
  last_swap_completed_at : option Z
}.

Definition LeavesState_default : LeavesState :=
  {| leaves := ∅; missing_operators_leaves := ∅; leaves_reservations := ∅;
     spent_leaf_ids := ∅; last_swap_completed_at := None |}.

Definition set_pool (l : gmap TreeNodeId StoredLeaf) (st : LeavesState) : LeavesState :=
  {| leaves := l; missing_operators_leaves := missing_operators_leaves st;
     leaves_reservations := leaves_reservations st; spent_leaf_ids := spent_leaf_ids st;
     last_swap_completed_at := last_swap_completed_at st |}.

Definition set_missing (l : gmap TreeNodeId StoredLeaf) (st : LeavesState) : LeavesState :=
  {| leaves := leaves st; missing_operators_leaves := l;
     leaves_reservations := leaves_reservations st; spent_leaf_ids := spent_leaf_ids st;
     last_swap_completed_at := last_swap_completed_at st |}.

Definition set_reservations (r : gmap LeavesReservationId ReservationEntry)
    (st : LeavesState) : LeavesState :=
  {| leaves := leaves st; missing_operators_leaves := missing_operators_leaves st;
     leaves_reservations := r; spent_leaf_ids := spent_leaf_ids st;
     last_swap_completed_at := last_swap_completed_at st |}.

Definition set_spent (s : gmap TreeNodeId Z) (st : LeavesState) : LeavesState :=
  {| leaves := leaves st; missing_operators_leaves := missing_operators_leaves st;
     leaves_reservations := leaves_reservations st; spent_leaf_ids := s;
     last_swap_completed_at := last_swap_completed_at st |}.

Definition set_last_swap (t : option Z) (st : LeavesState) : LeavesState :=
  {| leaves := leaves st; missing_operators_leaves := missing_operators_leaves st;
     leaves_reservations := leaves_reservations st; spent_leaf_ids := spent_leaf_ids st;
     last_swap_completed_at := t |}.

Definition is_available (s : StoredLeaf) : bool :=
  bool_decide (status (sl_node s) = Available).

(** ** Operations *)

Section operations.
Context {ho : HashOrder}.

(** [LeavesState::available_balance] and [LeavesState::pending_balance]. *)
Definition state_available_balance (st : LeavesState) : Z :=
  sum_u 64 ((λ s, value (sl_node s)) <$> List.filter is_available (hm_values (leaves st))).

Definition pending_balance (st : LeavesState) : Z :=
  sum_u 64 (pending_change_amount <$> hm_values (leaves_reservations st)).

Definition add_leaf (now : Z) (st : LeavesState) (leaf : TreeNode) : LeavesState :=
  let st := set_spent (delete (tn_id leaf) (spent_leaf_ids st)) st in
  set_pool (<[tn_id leaf := fresh_leaf now leaf]> (leaves st)) st.

Definition process_add_leaves (now : Z) (st : LeavesState) (ls : list TreeNode)
    : LeavesState * result () TreeServiceError :=
  (foldl (add_leaf now) st ls, Ok ()).

(** The loop of [process_get_leaves] over the reservations. *)
Definition split_by_purpose (entries : list ReservationEntry)
    : list TreeNode * list TreeNode :=
  foldl (λ '(for_payment, for_swap) entry,
    let nodes := sl_node <$> re_leaves entry in
    match re_purpose entry with
    | Payment => (for_payment ++ nodes, for_swap)
    | Swap => (for_payment, for_swap ++ nodes)
    end) ([], []) entries.

Definition process_get_leaves (st : LeavesState) : result Leaves TreeServiceError :=
  let '(for_payment, for_swap) := split_by_purpose (hm_values (leaves_reservations st)) in
  Ok {| available := sl_node <$> List.filter is_available (hm_values (leaves st));
        not_available :=
          sl_node <$> List.filter (λ s, negb (is_available s)) (hm_values (leaves st));
        available_missing_from_operators :=
          sl_node <$> List.filter is_available (hm_values (missing_operators_leaves st));
        reserved_for_payment := for_payment;
        reserved_for_swap := for_swap |}.

(** [state.leaves_reservations.values().any(|e| e.purpose == Swap)] and
    [last_swap_completed_at.is_some_and(|c| c >= refresh_started_at)]. *)
Definition has_active_swap (st : LeavesState) : bool :=
  existsb (λ e, bool_decide (re_purpose e = Swap)) (hm_values (leaves_reservations st)).

Definition swap_completed_during_refresh (st : LeavesState) (refresh_started_at : Z) : bool :=
  match last_swap_completed_at st with
  | Some completed_at => refresh_started_at <=? completed_at
  | None => false
  end.

(** Insert the refreshed leaves that are not spent. *)
Definition refresh_pool (now : Z) (spent : gmap TreeNodeId Z) (ls : list TreeNode)
    : gmap TreeNodeId StoredLeaf :=
  foldl (λ m leaf,
    match spent !! tn_id leaf with
    | Some _ => m
    | None => <[tn_id leaf := fresh_leaf now leaf]> m
    end) ∅ ls.

(** Re-add the leaves of an old pool that were added after the refresh started
    and that neither new pool has. *)
Definition preserve_leaves (refresh_started_at : Z) (other : gmap TreeNodeId StoredLeaf)
    (old : list (TreeNodeId * StoredLeaf)) (pool : gmap TreeNodeId StoredLeaf)
    : gmap TreeNodeId StoredLeaf :=
  foldl (λ m '(id, stored),
    if (refresh_started_at <=? added_at stored)
       && bool_decide (m !! id = None) && bool_decide (other !! id = None)
    then <[id := stored]> m else m) pool old.

(** Refresh one reserved leaf, removing it from the pool that has it. *)
Definition refresh_stored (pools : gmap TreeNodeId StoredLeaf * gmap TreeNodeId StoredLeaf)
    (stored : StoredLeaf)
    : (gmap TreeNodeId StoredLeaf * gmap TreeNodeId StoredLeaf) * StoredLeaf :=
  let '(l, m) := pools in
  match l !! sl_id stored with
  | Some fresh => ((delete (sl_id stored) l, m), fresh)
  | None =>
    match m !! sl_id stored with
    | Some fresh => ((l, delete (sl_id stored) m), fresh)
    | None => ((l, m), stored)
    end
  end.

Definition refresh_entry (pools : gmap TreeNodeId StoredLeaf * gmap TreeNodeId StoredLeaf)
    (kv : LeavesReservationId * ReservationEntry)
    : (gmap TreeNodeId StoredLeaf * gmap TreeNodeId StoredLeaf)
      * (LeavesReservationId * ReservationEntry) :=
  let '(id, entry) := kv in
  let '(pools, ls) := map_accum refresh_stored pools (re_leaves entry) in
  (pools, (id, {| re_leaves := ls; re_purpose := re_purpose entry;
                  re_permit := re_permit entry;
                  pending_change_amount := pending_change_amount entry |})).

Definition process_set_leaves (now : Z) (st : LeavesState) (ls missing : list TreeNode)
    (refresh_started_at : Z) : LeavesState * result () TreeServiceError :=
  if has_active_swap st || swap_completed_during_refresh st refresh_started_at then (st, Ok ())
  else
    let spent := filter (λ kv, refresh_started_at ≤ kv.2) (spent_leaf_ids st) in
    let new_leaves := refresh_pool now spent ls in
    let new_missing := refresh_pool now spent missing in
    let new_leaves :=
      preserve_leaves refresh_started_at new_missing (hm_iter (leaves st)) new_leaves in
    let new_missing :=
      preserve_leaves refresh_started_at new_leaves
        (hm_iter (missing_operators_leaves st)) new_missing in
    let '((new_leaves, new_missing), entries) :=
      map_accum refresh_entry (new_leaves, new_missing) (hm_iter (leaves_reservations st)) in
    ({| leaves := new_leaves; missing_operators_leaves := new_missing;
        leaves_reservations := list_to_map entries; spent_leaf_ids := spent;
        last_swap_completed_at := last_swap_completed_at st |}, Ok ()).

(** [leaves.iter().filter_map(|leaf| state.leaves.remove(&leaf.id))]. *)
Definition take_leaves (pool : gmap TreeNodeId StoredLeaf) (ls : list TreeNode)
    : gmap TreeNodeId StoredLeaf * list StoredLeaf :=
  foldl (λ '(m, acc) leaf,
    match m !! tn_id leaf with
    | Some s => (delete (tn_id leaf) m, acc ++ [s])
    | None => (m, acc)
    end) (pool, []) ls.

Definition reserve_internal (uuid : LeavesReservationId) (st : LeavesState)
    (ls : list TreeNode) (purpose : ReservationPurpose) (permit : Permit) (pending : Z)
    : LeavesState * result LeavesReservationId TreeServiceError :=
  if bool_decide (ls = []) then (st, Err NonReservableLeaves)
  else if existsb (λ leaf, bool_decide (leaves st !! tn_id leaf = None)) ls
  then (st, Err NonReservableLeaves)
  else
    let '(pool, stored_leaves) := take_leaves (leaves st) ls in
    let entry := {| re_leaves := stored_leaves; re_purpose := purpose; re_permit := permit;
                    pending_change_amount := pending |} in
    (set_reservations (<[uuid := entry]> (leaves_reservations st)) (set_pool pool st), Ok uuid).

(** The answer when no leaves could be reserved. *)
Definition wait_or_fail (target_amount available pending : Z) : ReserveResult :=
  if target_amount <=? wadd 64 available pending
  then WaitForPending target_amount available pending
  else ReserveInsufficientFunds.

Definition process_try_reserve_leaves (uuid : LeavesReservationId) (st : LeavesState)
    (target_amounts : option TargetAmounts) (exact_only : bool) (purpose : ReservationPurpose)
    (permit : Permit) : LeavesState * result ReserveResult TreeServiceError :=
  let target_amount := match target_amounts with Some ta => total_sats ta | None => 0 end in
  let available := state_available_balance st in
  let pending := pending_balance st in
  let ls := sl_node <$> List.filter is_available (hm_values (leaves st)) in
  match select_leaves_by_target_amounts ls target_amounts with
  | Ok target_leaves =>
      let selected := target_concat target_leaves in
      let '(st, r) := reserve_internal uuid st selected purpose permit 0 in
      (st, let* id := r in Ok (Success (LeavesReservation_new selected id)))
  | Err _ =>
      if negb exact_only then
        match select_leaves_by_minimum_amount ls target_amount with
        | Ok (Some selected) =>
            let reserved_amount := sum_u 64 (value <$> selected) in
            let pending_change_amount :=
              if (target_amount <? reserved_amount) && (0 <? target_amount)
              then wsub 64 reserved_amount target_amount else 0 in
            let '(st, r) :=
              reserve_internal uuid st selected purpose permit pending_change_amount in
            (st, let* id := r in Ok (Success (LeavesReservation_new selected id)))
        | _ => (st, Ok (wait_or_fail target_amount available pending))
        end
      else (st, Ok (wait_or_fail target_amount available pending))
  end.

Definition process_cancel_reservation (st : LeavesState) (id : LeavesReservationId)
    : LeavesState :=
  match leaves_reservations st !! id with
  | Some entry =>
      set_pool (insert_all sl_id (λ s, s) (re_leaves entry) (leaves st))
        (set_reservations (delete id (leaves_reservations st)) st)
  | None => st
  end.

Definition process_finalize_reservation (now now' : Z) (st : LeavesState)
    (id : LeavesReservationId) (new_leaves : option (list TreeNode)) : LeavesState :=
  let st :=
    match leaves_reservations st !! id with
    | Some entry =>
        let st := set_reservations (delete id (leaves_reservations st)) st in
        let st := set_spent (insert_all sl_id (λ _, now) (re_leaves entry)
                               (spent_leaf_ids st)) st in
        if bool_decide (re_purpose entry = Swap) && bool_decide (is_Some new_leaves)
        then set_last_swap (Some now) st else st
    | None => st
    end in
  match new_leaves with
  | Some resulting_leaves =>
      set_pool (insert_all tn_id (fresh_leaf now') resulting_leaves (leaves st)) st
  | None => st
  end.

Definition process_update_reservation (now : Z) (st : LeavesState)
    (reservation_id : LeavesReservationId) (reserved_leaves change_leaves : list TreeNode)
    : LeavesState * result LeavesReservation TreeServiceError :=
  match leaves_reservations st !! reservation_id with
  | None => (st, Err (Generic ("Reservation " +:+ reservation_id +:+ " not found")))
  | Some old_entry =>
      let st := set_reservations (delete reservation_id (leaves_reservations st)) st in
      let st := set_pool (insert_all tn_id (fresh_leaf now) change_leaves (leaves st)) st in
      let reserved := fresh_leaf now <$> reserved_leaves in
      let entry := {| re_leaves := reserved; re_purpose := re_purpose old_entry;
                      re_permit := re_permit old_entry; pending_change_amount := 0 |} in
      let st := set_reservations (<[reservation_id := entry]> (leaves_reservations st)) st in
      (st, Ok (LeavesReservation_new (sl_node <$> reserved) reservation_id))
  end.

End operations.
End store.
