(* ===== verification/TreeStoreInv.v ===== *)
(** The invariant of the in-memory tree store and the lemmas that say what each
    operation does to the pools: a leaf is in at most one place (the available
    pool, the missing-from-operators pool, one position of one reservation). *)
From S2P Require Import Prelude TreeTypes SelectHelper TreeStore.

Section invariant.
Context {ext : Externals}.

Definition reserved_ids (e : ReservationEntry) : list TreeNodeId := sl_id <$> re_leaves e.

Definition keyed (m : gmap TreeNodeId StoredLeaf) : Prop :=
  ∀ k s, m !! k = Some s → sl_id s = k.

Definition pool_disjoint (l m : gmap TreeNodeId StoredLeaf) : Prop :=
  ∀ k, is_Some (l !! k) → m !! k = None.

Record store_inv (st : LeavesState) : Prop := {
  inv_pool_keyed : keyed (leaves st);
  inv_missing_keyed : keyed (missing_operators_leaves st);
  inv_pool_missing : pool_disjoint (leaves st) (missing_operators_leaves st);
  inv_reserved_nodup r e : leaves_reservations st !! r = Some e → NoDup (reserved_ids e);
  inv_reserved_out r e k :
    leaves_reservations st !! r = Some e → k ∈ reserved_ids e →
    leaves st !! k = None ∧ missing_operators_leaves st !! k = None;
  inv_reserved_once r1 r2 e1 e2 k :
    leaves_reservations st !! r1 = Some e1 → leaves_reservations st !! r2 = Some e2 →
    k ∈ reserved_ids e1 → k ∈ reserved_ids e2 → r1 = r2
}.

(** A leaf identifier that the store does not hold anywhere, except possibly in
    the available pool. *)
Definition not_held (st : LeavesState) (k : TreeNodeId) : Prop :=
  missing_operators_leaves st !! k = None ∧
  ∀ r e, leaves_reservations st !! r = Some e → k ∉ reserved_ids e.

Lemma keyed_empty : keyed ∅.
Proof. intros k s. by rewrite lookup_empty. Qed.

Lemma keyed_insert m k s : keyed m → sl_id s = k → keyed (<[k := s]> m).
Proof. intros Hm Hs j t. rewrite lookup_insert. case_decide; naive_solver. Qed.

Lemma keyed_delete m k : keyed m → keyed (delete k m).
Proof. intros Hm j t. rewrite lookup_delete. case_decide; naive_solver. Qed.

Lemma keyed_insert_all_fresh now ls m :
  keyed m → keyed (insert_all tn_id (fresh_leaf now) ls m).
Proof.
  unfold insert_all. revert m. induction ls as [|x ls IH]; intros m Hm; simpl; [done|].
  by apply IH, keyed_insert.
Qed.

Lemma keyed_insert_all_stored (ls : list StoredLeaf) m :
  keyed m → keyed (insert_all sl_id (λ s, s) ls m).
Proof.
  unfold insert_all. revert m. induction ls as [|x ls IH]; intros m Hm; simpl; [done|].
  by apply IH, keyed_insert.
Qed.

Lemma store_inv_default : store_inv LeavesState_default.
Proof. split; try apply keyed_empty; simpl; intros; try by simplify_map_eq. Qed.

(** ** The available pool as a list of nodes *)

Section pools.
Context {ho : HashOrder}.

Definition available_nodes (st : LeavesState) : list TreeNode :=
  sl_node <$> List.filter is_available (hm_values (leaves st)).

Lemma pool_node_in st l :
  keyed (leaves st) → l ∈ available_nodes st →
  ∃ s, leaves st !! tn_id l = Some s ∧ sl_node s = l ∧ status l = Available.
Proof.
  intros Hk. unfold available_nodes. intros (s & -> & Hs)%list_elem_of_fmap.
  apply elem_of_bfilter in Hs as [[k Hs]%elem_of_hm_values Hav].
  exists s. split_and!; [|done|by apply bool_decide_eq_true_1 in Hav].
  pose proof (Hk k s Hs) as <-. done.
Qed.

Lemma hm_values_ids_NoDup (m : gmap TreeNodeId StoredLeaf) :
  keyed m → NoDup (sl_id <$> hm_values m).
Proof.
  intros Hk. unfold hm_values. rewrite <- list_fmap_compose.
  replace ((sl_id ∘ snd) <$> hm_iter m) with (hm_iter m).*1; [apply NoDup_hm_keys|].
  apply list_fmap_ext. intros i [k s] Hi. simpl. symmetry. apply Hk.
  apply elem_of_hm_iter. by eapply list_elem_of_lookup_2.
Qed.

Lemma available_nodes_NoDup st : keyed (leaves st) → NoDup (tn_id <$> available_nodes st).
Proof.
  intros Hk. unfold available_nodes. rewrite <- list_fmap_compose.
  eapply sublist_NoDup; [apply (hm_values_ids_NoDup _ Hk)|].
  apply fmap_sublist, sublist_bfilter.
Qed.

(** ** Taking leaves out of the pool *)

Lemma omap_lookup_delete (m : gmap TreeNodeId StoredLeaf) k (ls : list TreeNode) :
  k ∉ tn_id <$> ls → omap (λ l, delete k m !! tn_id l) ls = omap (λ l, m !! tn_id l) ls.
Proof.
  induction ls as [|y ls IH]; [done|]. rewrite fmap_cons. intros [? ?]%not_elem_of_cons.
  simpl. rewrite lookup_delete_ne by done. case_match; [f_equal|]; by apply IH.
Qed.

Lemma take_leaves_aux (pool : gmap TreeNodeId StoredLeaf) (ls : list TreeNode)
    (acc : list StoredLeaf) :
  NoDup (tn_id <$> ls) →
  foldl (λ '(m, acc) leaf,
    match m !! tn_id leaf with
    | Some s => (delete (tn_id leaf) m, acc ++ [s])
    | None => (m, acc)
    end) (pool, acc) ls
  = (remove_all tn_id ls pool, acc ++ omap (λ l, pool !! tn_id l) ls).
Proof.
  unfold remove_all. revert pool acc. induction ls as [|x ls IH]; intros pool acc Hnd.
  { simpl. by rewrite app_nil_r. }
  rewrite fmap_cons in Hnd. apply NoDup_cons in Hnd as [Hx Hnd].
  cbn [foldl]. simpl omap. destruct (pool !! tn_id x) as [s|] eqn:Hs.
  - rewrite IH by done. by rewrite omap_lookup_delete, <- app_assoc.
  - rewrite IH by done. by rewrite delete_id.
Qed.

Lemma take_leaves_spec (pool : gmap TreeNodeId StoredLeaf) (ls : list TreeNode) :
  NoDup (tn_id <$> ls) →
  take_leaves pool ls = (remove_all tn_id ls pool, omap (λ l, pool !! tn_id l) ls).
Proof. apply take_leaves_aux. Qed.

(** The stored leaves of nodes that the pool holds. *)
Definition holds (pool : gmap TreeNodeId StoredLeaf) (l : TreeNode) : Prop :=
  ∃ s, pool !! tn_id l = Some s ∧ sl_node s = l.

Lemma omap_holds (pool : gmap TreeNodeId StoredLeaf) (ls : list TreeNode) :
  Forall (holds pool) ls → sl_node <$> omap (λ l, pool !! tn_id l) ls = ls.
Proof.
  induction 1 as [|l ls (s & Hs & Hl) Hall IH]; [done|]. simpl. rewrite Hs.
  rewrite fmap_cons. f_equal; [done|exact IH].
Qed.

(** The state after a reservation of [ls]. *)
Definition reserved_state (uuid : LeavesReservationId) (st : LeavesState) (ls : list TreeNode)
    (purpose : ReservationPurpose) (permit : Permit) (pending : Z) : LeavesState :=
  set_reservations
    (<[uuid := {| re_leaves := omap (λ l, leaves st !! tn_id l) ls; re_purpose := purpose;
                  re_permit := permit; pending_change_amount := pending |}]>
       (leaves_reservations st))
    (set_pool (remove_all tn_id ls (leaves st)) st).

Lemma reserve_internal_spec uuid st ls purpose permit pending :
  NoDup (tn_id <$> ls) → Forall (holds (leaves st)) ls →
  reserve_internal uuid st ls purpose permit pending =
  if bool_decide (ls = []) then (st, Err NonReservableLeaves)
  else (reserved_state uuid st ls purpose permit pending, Ok uuid).
Proof.
  intros Hnd Hh. unfold reserve_internal. case_bool_decide; [done|].
  replace (existsb _ ls) with false.
  - by rewrite take_leaves_spec.
  - symmetry. apply existsb_elem_false. intros l Hl. apply bool_decide_eq_false_2.
    rewrite Forall_forall in Hh. destruct (Hh l Hl) as (s & Hs & _). by rewrite Hs.
Qed.

(** ** Reserving *)

Definition target_total (t : option TargetAmounts) : Z :=
  match t with Some ta => total_sats ta | None => 0 end.

(** The values in the pool are [u64] values whose sum does not overflow. *)
Definition pool_small (st : LeavesState) : Prop :=
  Forall node_ok (available_nodes st) ∧ total (available_nodes st) < 2 ^ 64.

#[export] Instance pool_small_dec st : Decision (pool_small st).
Proof. unfold pool_small. apply _. Defined.

(** No leaves of the pool were found for the target: the exact selection failed, and the
    one of a minimal amount was not tried or the pool is worth less. *)
Definition nothing_selected (st : LeavesState) (t : option TargetAmounts) (exact_only : bool) : Prop :=
  is_ok (select_leaves_by_target_amounts (available_nodes st) t) = false ∧
  (exact_only = true ∨ target_total t = 0 ∨ total (available_nodes st) < target_total t).

(** What a reservation attempt may do. *)
Inductive reserve_outcome (uuid : LeavesReservationId) (st : LeavesState)
    (t : option TargetAmounts) (exact_only : bool) (purpose : ReservationPurpose)
    (permit : Permit) : LeavesState → result ReserveResult TreeServiceError → Prop :=
| reserved_exactly r :
    select_leaves_by_target_amounts (available_nodes st) t = Ok r →
    selection_matches (available_nodes st) t r →
    target_concat r ≠ [] → target_concat r ⊆+ available_nodes st →
    reserve_outcome uuid st t exact_only purpose permit
      (reserved_state uuid st (target_concat r) purpose permit 0)
      (Ok (Success (LeavesReservation_new (target_concat r) uuid)))
| reserved_at_least n sel :
    is_ok (select_leaves_by_target_amounts (available_nodes st) t) = false →
    exact_only = false → sel = take n (available_nodes st) →
    0 < target_total t ≤ total sel →
    (∀ m, (m < n)%nat → total (take m (available_nodes st)) < target_total t) →
    sel ≠ [] → sel ⊆+ available_nodes st →
    reserve_outcome uuid st t exact_only purpose permit
      (reserved_state uuid st sel purpose permit (total sel - target_total t))
      (Ok (Success (LeavesReservation_new sel uuid)))
| reserved_nothing r :
    select_leaves_by_target_amounts (available_nodes st) t = Ok r → target_concat r = [] →
    reserve_outcome uuid st t exact_only purpose permit st (Err NonReservableLeaves)
| reserve_waits :
    nothing_selected st t exact_only →
    target_total t ≤ wadd 64 (state_available_balance st) (pending_balance st) →
    reserve_outcome uuid st t exact_only purpose permit st
      (Ok (WaitForPending (target_total t) (state_available_balance st) (pending_balance st)))
| reserve_fails :
    nothing_selected st t exact_only →
    wadd 64 (state_available_balance st) (pending_balance st) < target_total t →
    reserve_outcome uuid st t exact_only purpose permit st (Ok ReserveInsufficientFunds).

Lemma selected_holds st ls :
  keyed (leaves st) → ls ⊆+ available_nodes st →
  NoDup (tn_id <$> ls) ∧ Forall (holds (leaves st)) ls.
Proof.
  intros Hk Hs. split.
  - pose proof (available_nodes_NoDup st Hk) as Hnd.
    apply (fmap_submseteq tn_id) in Hs. apply submseteq_Permutation in Hs as [rest Hp].
    rewrite Hp in Hnd. by apply NoDup_app in Hnd as [? _].
  - apply Forall_forall. intros l Hl. apply (elem_of_submseteq _ _ _ Hl) in Hs.
    apply pool_node_in in Hs as (s & ? & ? & _); [|done]. by exists s.
Qed.

Lemma wait_or_fail_outcome uuid st t exact_only purpose permit :
  nothing_selected st t exact_only →
  reserve_outcome uuid st t exact_only purpose permit st
    (Ok (wait_or_fail (target_total t) (state_available_balance st) (pending_balance st))).
Proof.
  intros Hn. unfold wait_or_fail. case_match eqn:Hb; [apply reserve_waits|apply reserve_fails]; (done || lia).
Qed.

Lemma try_reserve_spec uuid st t exact_only purpose permit :
  store_inv st → pool_small st → (∀ x, t = Some x → target_ok x) → 0 ≤ target_total t →
  reserve_outcome uuid st t exact_only purpose permit
    (process_try_reserve_leaves uuid st t exact_only purpose permit).1
    (process_try_reserve_leaves uuid st t exact_only purpose permit).2.
Proof.
  intros Hinv [Hok Hsum] Ht Htot. unfold process_try_reserve_leaves.
  fold (target_total t). fold (available_nodes st).
  destruct (select_leaves_by_target_amounts (available_nodes st) t) as [r|e] eqn:Hsel.
  - destruct (select_sound _ _ _ Hok Ht Hsel) as [Hm Hs].
    destruct (selected_holds st _ (inv_pool_keyed _ Hinv) Hs) as [Hnd Hh].
    rewrite reserve_internal_spec by done. case_bool_decide; simpl.
    + by eapply reserved_nothing.
    + by apply reserved_exactly.
  - assert (is_ok (select_leaves_by_target_amounts (available_nodes st) t) = false) as Hno
      by by rewrite Hsel.
    destruct exact_only; simpl; [by apply wait_or_fail_outcome; split; [|left]|].
    destruct (decide (target_total t = 0)) as [H0|H0].
    { unfold select_leaves_by_minimum_amount. rewrite H0. simpl.
      rewrite <- H0. by apply wait_or_fail_outcome; split; [|right; left]. }
    destruct (select_minimum_spec _ (target_total t) Hok Hsum) as [[Hlt ->]|(j & -> & Hge & Hmin)];
      [lia|by apply wait_or_fail_outcome; split; [|right; right]|].
    set (sel := take j _) in *.
    assert (sel ⊆+ available_nodes st) as Hs by apply sublist_submseteq, sublist_take.
    destruct (selected_holds st _ (inv_pool_keyed _ Hinv) Hs) as [Hnd Hh].
    pose proof (total_submseteq_le _ _ Hs Hok) as Hle.
    rewrite total_exact by (first [by eapply Forall_submseteq|lia]).
    rewrite reserve_internal_spec by done. case_bool_decide as Hnil; simpl.
    { rewrite Hnil, total_nil in Hge. lia. }
    replace (if _ && _ then _ else 0) with (total sel - target_total t);
      [by eapply reserved_at_least; [..|lia| | |]|].
    destruct (Z.ltb_spec (target_total t) (total sel)), (Z.ltb_spec 0 (target_total t)); simpl;
      [|lia..]. unfold wsub. rewrite wrap_small; [done|]. unfold in_u. lia.
Qed.

(** A reservation attempt on any store, whatever the amounts: it reserves leaves of the
    pool or changes nothing. *)
Lemma try_reserve_cases uuid st t exact_only purpose permit st' resp :
  keyed (leaves st) →
  process_try_reserve_leaves uuid st t exact_only purpose permit = (st', resp) →
  (st' = st ∧ ∀ r, resp ≠ Ok (Success r)) ∨
  ∃ sel pending, sel ≠ [] ∧ sel ⊆+ available_nodes st ∧
    st' = reserved_state uuid st sel purpose permit pending ∧
    resp = Ok (Success (LeavesReservation_new sel uuid)).
Proof.
  intros Hk. unfold process_try_reserve_leaves. fold (target_total t). fold (available_nodes st).
  assert (∀ sel pending, sel ⊆+ available_nodes st →
    (let '(st, r) := reserve_internal uuid st sel purpose permit pending in
     (st, let* id := r in Ok (Success (LeavesReservation_new sel id)))) = (st', resp) →
    (st' = st ∧ ∀ r, resp ≠ Ok (Success r)) ∨
    ∃ sel pending, sel ≠ [] ∧ sel ⊆+ available_nodes st ∧
      st' = reserved_state uuid st sel purpose permit pending ∧
      resp = Ok (Success (LeavesReservation_new sel uuid))) as Hres.
  { intros sel pending Hs. destruct (selected_holds st _ Hk Hs) as [Hnd Hh].
    rewrite reserve_internal_spec by done. case_bool_decide; simpl; intros [= <- <-]; [by left|right].
    by exists sel, pending. }
  assert (∀ n a p, (st, Ok (wait_or_fail n a p)) = (st', resp) →
    st' = st ∧ ∀ r, resp ≠ Ok (Success r)) as Hwait.
  { intros n a p [= <- <-]. split; [done|]. intros r. unfold wait_or_fail. by case_match. }
  destruct (select_leaves_by_target_amounts (available_nodes st) t) as [r|e] eqn:Hsel.
  - apply Hres. by eapply select_targets_sub.
  - destruct exact_only; simpl; [intros H; left; by eapply Hwait|].
    destruct (select_leaves_by_minimum_amount _ _) as [[sel|]|e'] eqn:Hm;
      [|intros H; left; by eapply Hwait..]. apply Hres. by eapply select_minimum_sub.
Qed.

(** ** Preservation of the invariant *)

Lemma inv_set_spent st s : store_inv st → store_inv (set_spent s st).
Proof. by intros [? ? ? ? ? ?]. Qed.

Lemma inv_set_last_swap st t : store_inv st → store_inv (set_last_swap t st).
Proof. by intros [? ? ? ? ? ?]. Qed.

Lemma inv_set_pool st pool :
  store_inv st → keyed pool →
  (∀ k, is_Some (pool !! k) → is_Some (leaves st !! k) ∨ not_held st k) →
  store_inv (set_pool pool st).
Proof.
  intros [Hk Hm Hd Hn Ho Hu] Hkp Hin. split; simpl; try done.
  - intros k [Hl|[? _]]%Hin; [by apply Hd|done].
  - intros r e k Hr Hke. destruct (Ho r e k Hr Hke) as [Hl Hmk]. split; [|done].
    apply eq_None_not_Some. intros [[s Hs]|[_ Hno]]%Hin; [congruence|]. by eapply Hno.
Qed.

Lemma inv_drop_reservation st r :
  store_inv st → store_inv (set_reservations (delete r (leaves_reservations st)) st).
Proof.
  intros [Hk Hm Hd Hn Ho Hu]. split; simpl; try done; intros *.
  - intros [_ ?]%lookup_delete_Some. eauto.
  - intros [_ ?]%lookup_delete_Some. eauto.
  - intros [_ ?]%lookup_delete_Some [_ ?]%lookup_delete_Some. eauto.
Qed.

Lemma inv_add_reservation st r e :
  store_inv st → NoDup (reserved_ids e) → leaves_reservations st !! r = None →
  (∀ k, k ∈ reserved_ids e → leaves st !! k = None ∧ not_held st k) →
  store_inv (set_reservations (<[r := e]> (leaves_reservations st)) st).
Proof.
  intros [Hk Hm Hd Hn Ho Hu] Hnd Hr Hout. split; simpl; try done; intros *.
  - rewrite lookup_insert_Some. naive_solver.
  - rewrite lookup_insert_Some. intros [[_ <-]|[_ He]] Hin; [|eauto].
    destruct (Hout _ Hin) as (? & ? & _). done.
  - rewrite !lookup_insert_Some. intros [[<- <-]|[? He1]] [[<- <-]|[? He2]] Hk1 Hk2; try done.
    + exfalso. destruct (Hout _ Hk1) as (_ & _ & Hno). by eapply Hno.
    + exfalso. destruct (Hout _ Hk2) as (_ & _ & Hno). by eapply Hno.
    + eauto.
Qed.

Lemma not_held_drop st r k :
  not_held st k → not_held (set_reservations (delete r (leaves_reservations st)) st) k.
Proof. intros [? Hno]. split; [done|]. simpl. intros r' e [_ ?]%lookup_delete_Some. by eapply Hno. Qed.

(** The leaves of a reservation are held by nothing else. *)
Lemma reserved_not_held st r e k :
  store_inv st → leaves_reservations st !! r = Some e → k ∈ reserved_ids e →
  not_held (set_reservations (delete r (leaves_reservations st)) st) k.
Proof.
  intros Hinv Hr Hk. destruct (inv_reserved_out _ Hinv _ _ _ Hr Hk) as [_ ?].
  split; [done|]. simpl. intros r' e' [Hne He]%lookup_delete_Some Hin.
  apply Hne. by eapply (inv_reserved_once _ Hinv).
Qed.

Lemma insert_all_is_Some {X} (key : X → TreeNodeId) (val : X → StoredLeaf) ls m k :
  is_Some (insert_all key val ls m !! k) → k ∈ key <$> ls ∨ is_Some (m !! k).
Proof.
  intros [s Hs]. apply lookup_insert_all_Some in Hs as [(x & ? & <- & _)|[_ ?]].
  - left. by apply list_elem_of_fmap_2.
  - right. by eexists.
Qed.

Lemma inv_insert_leaves now st ls :
  store_inv st → Forall (not_held st) (tn_id <$> ls) →
  store_inv (set_pool (insert_all tn_id (fresh_leaf now) ls (leaves st)) st).
Proof.
  intros Hinv Hls. apply inv_set_pool; [done|by apply keyed_insert_all_fresh, Hinv|].
  intros k [?|?]%insert_all_is_Some; [right|by left]. by eapply Forall_forall in Hls.
Qed.

Lemma inv_add_leaves now st ls r :
  store_inv st → Forall (not_held st) (tn_id <$> ls) →
  store_inv (process_add_leaves now st ls).1 ∧
  (process_add_leaves now st ls).2 = Ok r.
Proof.
  destruct r. intros Hinv Hls. split; [|done]. simpl. revert st Hinv Hls.
  induction ls as [|l ls IH]; intros st Hinv Hls; simpl; [done|].
  rewrite fmap_cons in Hls. apply Forall_cons in Hls as [Hl Hls]. apply IH.
  - unfold add_leaf. apply inv_set_pool; [by apply inv_set_spent| |].
    + by apply keyed_insert; [apply Hinv|].
    + intros k. simpl. rewrite lookup_insert. case_decide as Heq; subst; [by right|by left].
  - eapply Forall_impl; [done|]. intros k [? ?]. done.
Qed.

Lemma inv_cancel st r : store_inv st → store_inv (process_cancel_reservation st r).
Proof.
  intros Hinv. unfold process_cancel_reservation.
  destruct (leaves_reservations st !! r) as [e|] eqn:Hr; [|done].
  apply inv_set_pool; [by apply inv_drop_reservation|by apply keyed_insert_all_stored, Hinv|].
  intros k [Hin|?]%insert_all_is_Some; [|by left]. right. by eapply reserved_not_held.
Qed.

(** The state once a finalized or updated reservation is dropped. *)
Definition without (st : LeavesState) (r : LeavesReservationId) : LeavesState :=
  set_reservations (delete r (leaves_reservations st)) st.

Lemma inv_finalize now now' st r new_leaves :
  store_inv st → Forall (not_held (without st r)) (tn_id <$> default [] new_leaves) →
  store_inv (process_finalize_reservation now now' st r new_leaves).
Proof.
  intros Hinv Hnew. pose proof (inv_drop_reservation _ r Hinv) as Hd.
  unfold process_finalize_reservation. unfold without in Hnew.
  destruct (leaves_reservations st !! r) as [e|] eqn:Hr.
  - set (st1 := set_spent _ _). assert (store_inv st1) as H1 by by apply inv_set_spent.
    set (st2 := if _ && _ then _ else _).
    assert (store_inv st2) as H2 by (unfold st2; case_match; [by apply inv_set_last_swap|done]).
    destruct new_leaves as [ls|]; [|done]. apply inv_insert_leaves; [done|].
    eapply Forall_impl; [done|]. intros k [? ?]. unfold st2. by case_match.
  - rewrite delete_id in Hnew by done. destruct new_leaves as [ls|]; [|done].
    by apply inv_insert_leaves.
Qed.

Lemma inv_update now st r reserved change :
  store_inv st → Forall (not_held (without st r)) (tn_id <$> change ++ reserved) →
  NoDup (tn_id <$> reserved) →
  Forall (λ k, leaves st !! k = None ∧ k ∉ tn_id <$> change) (tn_id <$> reserved) →
  store_inv (process_update_reservation now st r reserved change).1.
Proof.
  intros Hinv Hheld Hnd Hout. unfold process_update_reservation.
  destruct (leaves_reservations st !! r) as [e|] eqn:Hr; [|done]. simpl.
  rewrite fmap_app, Forall_app in Hheld. destruct Hheld as [Hc Hres].
  apply (inv_add_reservation
    (set_pool (insert_all tn_id (fresh_leaf now) change (leaves st)) (without st r))).
  - apply (inv_insert_leaves _ (without st r)); [by apply inv_drop_reservation|done].
  - unfold reserved_ids. simpl. by rewrite <- list_fmap_compose.
  - simpl. apply lookup_delete_eq.
  - unfold reserved_ids. simpl. rewrite <- list_fmap_compose. intros k Hk.
    rewrite !Forall_forall in *. destruct (Hout k Hk) as [? ?]. split; [|by apply Hres].
    by rewrite lookup_insert_all_ne.
Qed.

Lemma reserved_state_ids uuid st ls purpose permit pending e :
  keyed (leaves st) → Forall (holds (leaves st)) ls →
  leaves_reservations (reserved_state uuid st ls purpose permit pending) !! uuid = Some e →
  reserved_ids e = tn_id <$> ls.
Proof.
  intros Hk Hh. simpl. rewrite lookup_insert_eq. intros [= <-]. unfold reserved_ids. simpl.
  rewrite <- (omap_holds (leaves st) ls Hh) at 2. by rewrite <- list_fmap_compose.
Qed.

Lemma inv_reserved_state uuid st ls purpose permit pending :
  store_inv st → leaves_reservations st !! uuid = None → ls ⊆+ available_nodes st →
  store_inv (reserved_state uuid st ls purpose permit pending).
Proof.
  intros Hinv Hu Hs. destruct (selected_holds _ _ (inv_pool_keyed _ Hinv) Hs) as [Hnd Hh].
  pose proof (reserved_state_ids uuid st ls purpose permit pending _
    (inv_pool_keyed _ Hinv) Hh (lookup_insert_eq _ _ _)) as Hids.
  apply (inv_add_reservation (set_pool (remove_all tn_id ls (leaves st)) st)).
  - apply inv_set_pool; [done| |].
    + intros k s. rewrite lookup_remove_all. case_decide; [done|]. apply Hinv.
    + intros k. rewrite lookup_remove_all. case_decide; [by intros []|by left].
  - by rewrite Hids.
  - done.
  - rewrite Hids. intros k Hk. simpl. rewrite lookup_remove_all, decide_True by done.
    split; [done|]. apply list_elem_of_fmap in Hk as (l & -> & Hl).
    rewrite Forall_forall in Hh. destruct (Hh l Hl) as (s & Hl' & _).
    split; simpl; [apply (inv_pool_missing _ Hinv); by eexists|].
    intros r e Hr Hin. destruct (inv_reserved_out _ Hinv _ _ _ Hr Hin). congruence.
Qed.

Lemma inv_try_reserve uuid st t exact_only purpose permit :
  store_inv st → pool_small st → (∀ x, t = Some x → target_ok x) → 0 ≤ target_total t →
  leaves_reservations st !! uuid = None →
  store_inv (process_try_reserve_leaves uuid st t exact_only purpose permit).1.
Proof.
  intros Hinv Hp Ht H0 Hu.
  destruct (try_reserve_spec uuid st t exact_only purpose permit Hinv Hp Ht H0); try done;
    by apply inv_reserved_state.
Qed.

(** Cancelling a reservation just made restores the pool: nothing is lost and
    nothing is added. *)
Lemma cancel_reserved_state uuid st ls purpose permit pending :
  store_inv st → leaves_reservations st !! uuid = None → ls ⊆+ available_nodes st →
  process_cancel_reservation (reserved_state uuid st ls purpose permit pending) uuid = st.
Proof.
  intros Hinv Hu Hs. destruct (selected_holds _ _ (inv_pool_keyed _ Hinv) Hs) as [Hnd Hh].
  unfold process_cancel_reservation, reserved_state. simpl. rewrite lookup_insert_eq. simpl.
  rewrite delete_insert_id by done. destruct st as [pool missing res spent swap]. simpl in *.
  unfold set_pool, set_reservations. simpl. f_equal. apply map_eq. intros k.
  assert (sl_id <$> omap (λ l, pool !! tn_id l) ls = tn_id <$> ls) as Hids.
  { rewrite <- (omap_holds pool ls Hh) at 2. by rewrite <- list_fmap_compose. }
  destruct (decide (k ∈ tn_id <$> ls)) as [Hk|Hk].
  - rewrite <- Hids in Hk.
    destruct (lookup_insert_all_in sl_id (λ s, s) _ (remove_all tn_id ls pool) k Hk)
      as (s & Hin & Hsk & ->). apply list_elem_of_omap in Hin as (l & Hl & Hls).
    by rewrite <- (inv_pool_keyed _ Hinv _ _ Hls), Hsk in Hls.
  - rewrite lookup_insert_all_ne by by rewrite Hids.
    by rewrite lookup_remove_all, decide_False.
Qed.

End pools.
End invariant.
