(* ===== verification/TreeRefresh.v ===== *)
(** What a refresh does to the store: [process_set_leaves] of
    [crates/spark/src/tree/store.rs] as an equation on every pool, and the
    invariant after it. *)
From S2P Require Import Prelude TreeTypes SelectHelper TreeStore TreeStoreInv.

Section refresh.
Context {ext : Externals} {ho : HashOrder}.
Implicit Types (pool l m : gmap TreeNodeId StoredLeaf) (st : LeavesState).

(** ** The refreshed pools *)

Definition unspent (spent : gmap TreeNodeId Z) (leaf : TreeNode) : bool :=
  bool_decide (spent !! tn_id leaf = None).

Lemma refresh_pool_insert_all now spent ls :
  refresh_pool now spent ls =
  insert_all tn_id (fresh_leaf now) (List.filter (unspent spent) ls) ∅.
Proof.
  unfold refresh_pool, insert_all. generalize (∅ : gmap TreeNodeId StoredLeaf).
  induction ls as [|x ls IH]; intros m; [done|]. simpl.
  assert (unspent spent x = bool_decide (spent !! tn_id x = None)) as -> by done.
  destruct (spent !! tn_id x) eqn:Hs; [by rewrite bool_decide_eq_false_2|].
  rewrite bool_decide_eq_true_2 by done. apply IH.
Qed.

Lemma keyed_refresh_pool now spent ls : keyed (refresh_pool now spent ls).
Proof. rewrite refresh_pool_insert_all. apply keyed_insert_all_fresh, keyed_empty. Qed.

Lemma refresh_pool_is_Some now spent ls k :
  is_Some (refresh_pool now spent ls !! k) ↔ k ∈ tn_id <$> ls ∧ spent !! k = None.
Proof.
  rewrite refresh_pool_insert_all. split.
  - intros [Hin|[s Hs]]%insert_all_is_Some; [|by rewrite lookup_empty in Hs].
    apply list_elem_of_fmap in Hin as (x & -> & [Hx Hu]%elem_of_bfilter).
    split; [by apply list_elem_of_fmap_2|]. by apply bool_decide_eq_true_1 in Hu.
  - intros [(x & -> & Hx)%list_elem_of_fmap Hs].
    destruct (lookup_insert_all_in tn_id (fresh_leaf now)
      (List.filter (unspent spent) ls) ∅ (tn_id x)) as (y & _ & _ & ->); [|by eexists].
    apply list_elem_of_fmap_2, elem_of_bfilter. split; [done|].
    by apply bool_decide_eq_true_2.
Qed.

Lemma refresh_pool_Some now spent ls k s :
  refresh_pool now spent ls !! k = Some s →
  ∃ leaf, leaf ∈ ls ∧ tn_id leaf = k ∧ s = fresh_leaf now leaf.
Proof.
  rewrite refresh_pool_insert_all. intros [(x & Hx & ? & ->)|[_ Hs]]%lookup_insert_all_Some.
  - apply elem_of_bfilter in Hx as [? _]. by exists x.
  - by rewrite lookup_empty in Hs.
Qed.

(** ** Preserved leaves *)

Lemma preserve_leaves_aux t other old pool k :
  NoDup old.*1 →
  preserve_leaves t other old pool !! k =
  match pool !! k with
  | Some s => Some s
  | None =>
      match (list_to_map old : gmap TreeNodeId StoredLeaf) !! k with
      | Some s => if (t <=? added_at s) && bool_decide (other !! k = None) then Some s else None
      | None => None
      end
  end.
Proof.
  unfold preserve_leaves. revert pool. induction old as [|[i s] old IH]; intros pool Hnd.
  { simpl. rewrite lookup_empty. by destruct (pool !! k). }
  rewrite fmap_cons in Hnd. apply NoDup_cons in Hnd as [Hi Hnd]. cbn [foldl]. rewrite IH by done.
  simpl. destruct (decide (k = i)) as [->|Hne].
  - rewrite lookup_insert_eq, (not_elem_of_list_to_map_1 old i) by done.
    destruct (pool !! i) eqn:Hp.
    { rewrite bool_decide_eq_false_2, andb_false_r by done. simpl. by rewrite Hp. }
    rewrite (bool_decide_eq_true_2 (None = None)) by done. rewrite andb_true_r.
    destruct (_ && _); [by rewrite lookup_insert_eq|by rewrite Hp].
  - rewrite lookup_insert_ne by done. destruct (_ && _ && _); by rewrite ?lookup_insert_ne.
Qed.

(** A leaf of the old pool survives when it was added after the refresh began
    and neither refreshed pool has it. *)
Lemma preserve_leaves_lookup t other (old : gmap TreeNodeId StoredLeaf) pool k :
  preserve_leaves t other (hm_iter old) pool !! k =
  match pool !! k with
  | Some s => Some s
  | None =>
      match old !! k with
      | Some s => if (t <=? added_at s) && bool_decide (other !! k = None) then Some s else None
      | None => None
      end
  end.
Proof.
  rewrite preserve_leaves_aux by apply NoDup_hm_keys.
  rewrite (list_to_map_proper _ (map_to_list old)) by (apply NoDup_hm_keys || apply hm_iter_perm).
  by rewrite list_to_map_to_list.
Qed.

Lemma keyed_preserve t other old pool :
  keyed old → keyed pool → keyed (preserve_leaves t other (hm_iter old) pool).
Proof.
  intros Ho Hp k s. rewrite preserve_leaves_lookup.
  repeat case_match; try done; intros [= <-]; eauto.
Qed.

(** ** Refreshing the reserved leaves *)

(** The leaf that replaces a reserved one. *)
Definition refreshed l m (s : StoredLeaf) : StoredLeaf :=
  default (default s (m !! sl_id s)) (l !! sl_id s).

Definition refreshed_entry l m (e : ReservationEntry) : ReservationEntry :=
  {| re_leaves := refreshed l m <$> re_leaves e; re_purpose := re_purpose e;
     re_permit := re_permit e; pending_change_amount := pending_change_amount e |}.

Lemma refreshed_id l m s : keyed l → keyed m → sl_id (refreshed l m s) = sl_id s.
Proof.
  intros Hl Hm. unfold refreshed.
  destruct (l !! sl_id s) eqn:E; simpl; [by apply Hl|].
  destruct (m !! sl_id s) eqn:E'; simpl; [by apply Hm|done].
Qed.

Lemma refreshed_ids l m e :
  keyed l → keyed m → reserved_ids (refreshed_entry l m e) = reserved_ids e.
Proof.
  intros Hl Hm. unfold reserved_ids. simpl. rewrite <- list_fmap_compose.
  apply list_fmap_ext. intros ? s _. by apply refreshed_id.
Qed.

Lemma refreshed_delete l m x s :
  sl_id s ≠ sl_id x → refreshed (delete (sl_id x) l) (delete (sl_id x) m) s = refreshed l m s.
Proof. intros Hne. unfold refreshed. by rewrite !lookup_delete_ne. Qed.

Lemma refresh_stored_spec l m s :
  pool_disjoint l m →
  refresh_stored (l, m) s =
  ((delete (sl_id s) l, delete (sl_id s) m), refreshed l m s).
Proof.
  intros Hd. unfold refresh_stored, refreshed. destruct (l !! sl_id s) eqn:Hl; simpl.
  - rewrite (delete_id m); [done|]. apply Hd. by eexists.
  - rewrite (delete_id l) by done. destruct (m !! sl_id s) eqn:Hm; [done|].
    by rewrite delete_id.
Qed.

Lemma pool_disjoint_delete k l m : pool_disjoint l m → pool_disjoint (delete k l) (delete k m).
Proof.
  intros Hd j [s Hj]. apply lookup_delete_Some in Hj as [? Hj].
  rewrite lookup_delete_ne by done. apply Hd. by eexists.
Qed.

Lemma pool_disjoint_remove_all {X} (key : X → TreeNodeId) ls l m :
  pool_disjoint l m → pool_disjoint (remove_all key ls l) (remove_all key ls m).
Proof.
  intros Hd k. rewrite !lookup_remove_all. case_decide; [done|]. apply Hd.
Qed.

Lemma refresh_reserved_spec ls l m :
  pool_disjoint l m → NoDup (sl_id <$> ls) →
  map_accum refresh_stored (l, m) ls =
  ((remove_all sl_id ls l, remove_all sl_id ls m), refreshed l m <$> ls).
Proof.
  unfold remove_all. revert l m. induction ls as [|x ls IH]; intros l m Hd Hnd; [done|].
  rewrite fmap_cons in Hnd. apply NoDup_cons in Hnd as [Hx Hnd].
  cbn [map_accum]. rewrite refresh_stored_spec by done. rewrite IH; [|by apply pool_disjoint_delete|done].
  f_equal. rewrite fmap_cons. f_equal. apply list_fmap_ext. intros i s Hi. apply refreshed_delete.
  intros Heq. apply Hx. rewrite <- Heq. apply list_elem_of_fmap_2.
  by eapply list_elem_of_lookup_2.
Qed.

Definition all_stored (kvs : list (LeavesReservationId * ReservationEntry)) : list StoredLeaf :=
  mjoin ((λ kv, re_leaves kv.2) <$> kvs).

Lemma refresh_entries_spec kvs l m :
  pool_disjoint l m → NoDup (sl_id <$> all_stored kvs) →
  map_accum refresh_entry (l, m) kvs =
  ((remove_all sl_id (all_stored kvs) l, remove_all sl_id (all_stored kvs) m),
   prod_map id (refreshed_entry l m) <$> kvs).
Proof.
  revert l m. induction kvs as [|[r e] kvs IH]; intros l m Hd Hnd; [done|].
  unfold all_stored in *. simpl in Hnd |- *. rewrite fmap_app in Hnd.
  apply NoDup_app in Hnd as (Hnd1 & Hdis & Hnd2).
  rewrite refresh_reserved_spec by done. rewrite IH; [|by apply pool_disjoint_remove_all|done].
  unfold remove_all. rewrite !foldl_app. do 2 f_equal.
  apply list_fmap_ext. intros i [r' e'] Hi. unfold prod_map. simpl. f_equal.
  unfold refreshed_entry. f_equal. apply list_fmap_ext. intros j s Hs.
  assert (sl_id s ∉ sl_id <$> re_leaves e) as Hout.
  { intros Hin. apply (Hdis _ Hin). apply list_elem_of_fmap_2, list_elem_of_join.
    exists (re_leaves e'). split; [by eapply list_elem_of_lookup_2|].
    apply list_elem_of_fmap. exists (r', e'). split; [done|]. by eapply list_elem_of_lookup_2. }
  unfold refreshed. change (foldl _ l (re_leaves e)) with (remove_all sl_id (re_leaves e) l).
  change (foldl _ m (re_leaves e)) with (remove_all sl_id (re_leaves e) m).
  by rewrite !lookup_remove_all, !decide_False.
Qed.

(** The leaves of all the reservations of a state. *)
Definition reserved_stored st : list StoredLeaf := all_stored (hm_iter (leaves_reservations st)).

Definition is_reserved st (k : TreeNodeId) : Prop :=
  ∃ r e, leaves_reservations st !! r = Some e ∧ k ∈ reserved_ids e.

Lemma reserved_stored_ids st k : k ∈ sl_id <$> reserved_stored st ↔ is_reserved st k.
Proof.
  unfold reserved_stored, all_stored, is_reserved, reserved_ids. split.
  - intros (s & -> & (ls & Hs & ([r e] & -> & Hre)%list_elem_of_fmap)%list_elem_of_join)
      %list_elem_of_fmap. apply elem_of_hm_iter in Hre.
    exists r, e. split; [done|]. by apply list_elem_of_fmap_2.
  - intros (r & e & Hr & (s & -> & Hs)%list_elem_of_fmap).
    apply list_elem_of_fmap_2, list_elem_of_join. exists (re_leaves e). split; [done|].
    apply list_elem_of_fmap. exists (r, e). split; [done|]. by apply elem_of_hm_iter.
Qed.

Lemma all_stored_NoDup kvs :
  NoDup kvs.*1 →
  (∀ r e, (r, e) ∈ kvs → NoDup (reserved_ids e)) →
  (∀ r1 e1 r2 e2 k, (r1, e1) ∈ kvs → (r2, e2) ∈ kvs → k ∈ reserved_ids e1 →
     k ∈ reserved_ids e2 → r1 = r2) →
  NoDup (sl_id <$> all_stored kvs).
Proof.
  unfold all_stored. induction kvs as [|[r e] kvs IH]; intros Hk Hn Hu; [constructor|].
  rewrite fmap_cons in Hk. apply NoDup_cons in Hk as [Hr Hk]. simpl. rewrite fmap_app.
  apply NoDup_app. split_and!.
  - apply (Hn r e). by left.
  - intros k Hin Hin2. apply list_elem_of_fmap in Hin2 as (s & Hks & Hs).
    apply list_elem_of_join in Hs as (ls & Hs & Hls).
    apply list_elem_of_fmap in Hls as ([r' e'] & -> & Hre). apply Hr.
    assert (r = r') as ->.
    { apply (Hu r e r' e' k); [by left|by right|done|]. subst k. by apply list_elem_of_fmap_2. }
    apply list_elem_of_fmap. by exists (r', e').
  - apply IH; [done|intros; eapply Hn; by right|].
    intros r1 e1 r2 e2 k H1 H2 ? ?. eapply (Hu r1 e1 r2 e2 k); [by right|by right|done|done].
Qed.

Lemma reserved_stored_NoDup st : store_inv st → NoDup (sl_id <$> reserved_stored st).
Proof.
  intros Hinv. apply all_stored_NoDup; [apply NoDup_hm_keys|..]; intros *;
    rewrite ?elem_of_hm_iter; apply Hinv.
Qed.

(** ** Taking the reserved leaves out, on any store *)

(** The pools lose leaves only; none of [ks] stays in the first, and one of them stays in the
    second only if the first had it. *)
Record swept (ks : list TreeNodeId)
    (pools pools' : gmap TreeNodeId StoredLeaf * gmap TreeNodeId StoredLeaf) : Prop := {
  swept_first k s : pools'.1 !! k = Some s → pools.1 !! k = Some s ∧ k ∉ ks;
  swept_second k s :
    pools'.2 !! k = Some s → pools.2 !! k = Some s ∧ (k ∉ ks ∨ is_Some (pools.1 !! k))
}.

Lemma swept_nil pools : swept [] pools pools.
Proof. split; intros k s Hk; (split; [done|]); [|left]; apply not_elem_of_nil. Qed.

Lemma swept_app ks1 ks2 p1 p2 p3 : swept ks1 p1 p2 → swept ks2 p2 p3 → swept (ks1 ++ ks2) p1 p3.
Proof.
  intros [H1 H1'] [H2 H2']. split; intros k s Hk; rewrite elem_of_app.
  - apply H2 in Hk as [[Hk ?]%H1 ?]. naive_solver.
  - apply H2' in Hk as [[Hk ?]%H1' [?|[s' Hs']]]; [naive_solver|].
    apply H1 in Hs' as [Hs' _]. split; [done|]. right. by eexists.
Qed.

Lemma swept_keyed ks p p' : swept ks p p' → keyed p.1 → keyed p.2 → keyed p'.1 ∧ keyed p'.2.
Proof.
  intros [H1 H2] Hl Hm. split; intros k s Hk.
  - apply H1 in Hk as [? _]. by apply Hl.
  - apply H2 in Hk as [? _]. by apply Hm.
Qed.

Lemma refresh_stored_swept p s :
  keyed p.1 → keyed p.2 →
  swept [sl_id s] p (refresh_stored p s).1 ∧ sl_id (refresh_stored p s).2 = sl_id s.
Proof.
  destruct p as [l m]. simpl. intros Hl Hm. destruct (l !! sl_id s) as [x|] eqn:E; simpl.
  - split; [|by apply Hl]. split; simpl; intros k y; rewrite ?list_elem_of_singleton.
    + intros [? ?]%lookup_delete_Some. done.
    + intros Hk. split; [done|]. destruct (decide (k = sl_id s)) as [->|]; [right; by eexists|by left].
  - destruct (m !! sl_id s) as [x|] eqn:E'; simpl.
    + split; [|by apply Hm]. split; simpl; intros k y; rewrite ?list_elem_of_singleton.
      * intros Hk. split; [done|]. intros ->. by rewrite E in Hk.
      * intros [? ?]%lookup_delete_Some. split; [done|by left].
    + split; [|done]. split; simpl; intros k y Hk; rewrite ?list_elem_of_singleton; (split; [done|]).
      * intros ->. by rewrite E in Hk.
      * left. intros ->. by rewrite E' in Hk.
Qed.

Lemma refresh_list_swept ls p :
  keyed p.1 → keyed p.2 →
  swept (sl_id <$> ls) p (map_accum refresh_stored p ls).1 ∧
  sl_id <$> (map_accum refresh_stored p ls).2 = sl_id <$> ls.
Proof.
  revert p. induction ls as [|x ls IH]; intros p Hl Hm; [split; [apply swept_nil|done]|].
  destruct (refresh_stored_swept p x Hl Hm) as [Hx Hid]. cbn [map_accum].
  destruct (refresh_stored p x) as [p1 x']. destruct (swept_keyed _ _ _ Hx Hl Hm) as [Hl1 Hm1].
  destruct (IH p1 Hl1 Hm1) as [Hs Hids]. destruct (map_accum refresh_stored p1 ls) as [p2 ls'].
  split; [exact (swept_app [_] _ _ _ _ Hx Hs)|]. cbn [fst snd] in *. by rewrite !fmap_cons, Hid, Hids.
Qed.

Lemma refresh_entry_swept kv p :
  keyed p.1 → keyed p.2 →
  swept (sl_id <$> re_leaves kv.2) p (refresh_entry p kv).1 ∧
  prod_map id reserved_ids (refresh_entry p kv).2 = prod_map id reserved_ids kv.
Proof.
  destruct kv as [r e]. intros Hl Hm. destruct (refresh_list_swept (re_leaves e) p Hl Hm) as [He Hid].
  unfold refresh_entry. destruct (map_accum refresh_stored p (re_leaves e)) as [p1 ls1].
  split; [done|]. unfold prod_map, reserved_ids. simpl in *. by rewrite Hid.
Qed.

Lemma refresh_entries_swept kvs p :
  keyed p.1 → keyed p.2 →
  swept (sl_id <$> all_stored kvs) p (map_accum refresh_entry p kvs).1 ∧
  prod_map id reserved_ids <$> (map_accum refresh_entry p kvs).2 = prod_map id reserved_ids <$> kvs.
Proof.
  revert p. induction kvs as [|kv kvs IH]; intros p Hl Hm; [split; [apply swept_nil|done]|].
  destruct (refresh_entry_swept kv p Hl Hm) as [Hx Hid]. cbn [map_accum].
  destruct (refresh_entry p kv) as [p1 kv']. destruct (swept_keyed _ _ _ Hx Hl Hm) as [Hl1 Hm1].
  destruct (IH p1 Hl1 Hm1) as [Hs Hids]. destruct (map_accum refresh_entry p1 kvs) as [p2 kvs'].
  cbn [fst snd] in *. split.
  - unfold all_stored. rewrite fmap_cons. cbn [mjoin list_join]. rewrite fmap_app. by eapply swept_app.
  - rewrite !fmap_cons. by rewrite Hid, Hids.
Qed.

(** ** The whole refresh *)

Definition refresh_skipped st (refresh_started_at : Z) : bool :=
  has_active_swap st || swap_completed_during_refresh st refresh_started_at.

Definition kept_spent st (refresh_started_at : Z) : gmap TreeNodeId Z :=
  filter (λ kv, refresh_started_at ≤ kv.2) (spent_leaf_ids st).

(** The two pools before the reserved leaves are taken out. *)
Definition refreshed_pool now st ls missing t : gmap TreeNodeId StoredLeaf :=
  preserve_leaves t (refresh_pool now (kept_spent st t) missing) (hm_iter (leaves st))
    (refresh_pool now (kept_spent st t) ls).

Definition refreshed_missing now st ls missing t : gmap TreeNodeId StoredLeaf :=
  preserve_leaves t (refreshed_pool now st ls missing t) (hm_iter (missing_operators_leaves st))
    (refresh_pool now (kept_spent st t) missing).

(** The operators never report a leaf in both lists. *)
Definition reports_disjoint (ls missing : list TreeNode) : Prop :=
  ∀ k, k ∈ tn_id <$> ls → k ∉ tn_id <$> missing.

Lemma refreshed_pools_disjoint now st ls missing t :
  reports_disjoint ls missing →
  pool_disjoint (refreshed_pool now st ls missing t) (refreshed_missing now st ls missing t).
Proof.
  intros Hd k Hk. unfold refreshed_missing. rewrite preserve_leaves_lookup.
  destruct (refreshed_pool now st ls missing t !! k) as [s|] eqn:Hp; [|by destruct Hk].
  destruct (refresh_pool _ _ missing !! k) as [s'|] eqn:Hm.
  - exfalso. assert (k ∈ tn_id <$> missing ∧ kept_spent st t !! k = None) as [Hmis Hsp].
    { apply (refresh_pool_is_Some now). by eexists. }
    unfold refreshed_pool in Hp. rewrite preserve_leaves_lookup, Hm in Hp.
    destruct (refresh_pool _ _ ls !! k) eqn:Hl.
    + apply (Hd k); [|done]. apply (refresh_pool_is_Some now (kept_spent st t)). by eexists.
    + destruct (leaves st !! k); [|done].
      by rewrite (bool_decide_eq_false_2 (Some s' = None)), andb_false_r in Hp.
  - destruct (missing_operators_leaves st !! k); [|done].
    by rewrite (bool_decide_eq_false_2 (Some s = None)), andb_false_r.
Qed.

Lemma keyed_refreshed_pool now st ls missing t :
  store_inv st → keyed (refreshed_pool now st ls missing t).
Proof. intros Hinv. apply keyed_preserve; [apply Hinv|apply keyed_refresh_pool]. Qed.

Lemma keyed_refreshed_missing now st ls missing t :
  store_inv st → keyed (refreshed_missing now st ls missing t).
Proof. intros Hinv. apply keyed_preserve; [apply Hinv|apply keyed_refresh_pool]. Qed.

(** A leaf in both refreshed pools was reported twice. *)
Lemma refreshed_in_both now st ls missing t k :
  is_Some (refreshed_pool now st ls missing t !! k) →
  is_Some (refreshed_missing now st ls missing t !! k) →
  k ∈ tn_id <$> ls ∧ k ∈ tn_id <$> missing.
Proof.
  intros [s Hp]. unfold refreshed_missing. rewrite preserve_leaves_lookup, Hp.
  destruct (refresh_pool _ _ missing !! k) as [s'|] eqn:Hm.
  - intros _. assert (k ∈ tn_id <$> missing ∧ kept_spent st t !! k = None) as [Hmis _]
      by (apply (refresh_pool_is_Some now); by eexists).
    unfold refreshed_pool in Hp. rewrite preserve_leaves_lookup, Hm in Hp.
    destruct (refresh_pool _ _ ls !! k) eqn:Hl.
    + split; [|done]. apply (refresh_pool_is_Some now (kept_spent st t)). by eexists.
    + destruct (leaves st !! k); [|done].
      by rewrite (bool_decide_eq_false_2 (Some s' = None)), andb_false_r in Hp.
  - destruct (missing_operators_leaves st !! k); [|by intros []].
    rewrite (bool_decide_eq_false_2 (Some s = None)), andb_false_r by done. by intros [].
Qed.

Lemma refreshed_pool_from now st ls missing t k :
  is_Some (refreshed_pool now st ls missing t !! k) → k ∈ tn_id <$> ls ∨ is_Some (leaves st !! k).
Proof.
  unfold refreshed_pool. rewrite preserve_leaves_lookup. destruct (refresh_pool _ _ ls !! k) eqn:Hnew.
  - left. apply (refresh_pool_is_Some now (kept_spent st t)). by eexists.
  - destruct (leaves st !! k); [by right|by intros []].
Qed.

Lemma refreshed_missing_from now st ls missing t k :
  is_Some (refreshed_missing now st ls missing t !! k) →
  k ∈ tn_id <$> missing ∨ is_Some (missing_operators_leaves st !! k).
Proof.
  unfold refreshed_missing. rewrite preserve_leaves_lookup. destruct (refresh_pool _ _ missing !! k) eqn:Hnew.
  - left. apply (refresh_pool_is_Some now (kept_spent st t)). by eexists.
  - destruct (missing_operators_leaves st !! k); [by right|by intros []].
Qed.

(** A refresh of any store that is not skipped, with reports that may overlap. *)
Lemma set_leaves_places now st ls missing t st' :
  keyed (leaves st) → keyed (missing_operators_leaves st) → refresh_skipped st t = false →
  process_set_leaves now st ls missing t = (st', Ok ()) →
  keyed (leaves st') ∧ keyed (missing_operators_leaves st') ∧
  (∀ r, reserved_ids <$> leaves_reservations st' !! r = reserved_ids <$> leaves_reservations st !! r) ∧
  (∀ k, is_Some (leaves st' !! k) →
     is_Some (refreshed_pool now st ls missing t !! k) ∧ ¬ is_reserved st k) ∧
  (∀ k, is_Some (missing_operators_leaves st' !! k) →
     is_Some (refreshed_missing now st ls missing t !! k) ∧
     (¬ is_reserved st k ∨ is_Some (refreshed_pool now st ls missing t !! k))).
Proof.
  intros Hl Hm Hskip. unfold process_set_leaves. fold (refresh_skipped st t). rewrite Hskip.
  fold (kept_spent st t). fold (refreshed_pool now st ls missing t).
  fold (refreshed_missing now st ls missing t).
  assert (keyed (refreshed_pool now st ls missing t)) as Hkl
    by (apply keyed_preserve; [done|apply keyed_refresh_pool]).
  assert (keyed (refreshed_missing now st ls missing t)) as Hkm
    by (apply keyed_preserve; [done|apply keyed_refresh_pool]).
  destruct (refresh_entries_swept (hm_iter (leaves_reservations st))
    (refreshed_pool now st ls missing t, refreshed_missing now st ls missing t) Hkl Hkm) as [Hs Hids].
  destruct (swept_keyed _ _ _ Hs Hkl Hkm) as [Hl' Hm'].
  destruct (map_accum _ _ _) as [[l' m'] entries]. intros [= <-]. cbn [fst snd] in *.
  split_and!; [done|done|..]; simpl.
  - intros r. rewrite <- !lookup_fmap. f_equal. rewrite <- list_to_map_fmap.
    transitivity (list_to_map (prod_map id reserved_ids <$> hm_iter (leaves_reservations st))
      : gmap LeavesReservationId (list TreeNodeId)); [by rewrite <- Hids|].
    rewrite (list_to_map_fmap reserved_ids). f_equal.
    rewrite (list_to_map_proper _ (map_to_list (leaves_reservations st)));
      [by rewrite list_to_map_to_list|apply NoDup_hm_keys|apply hm_iter_perm].
  - intros k [s [Hk Hno]%(swept_first _ _ _ Hs)]. split; [by eexists|]. by rewrite <- reserved_stored_ids.
  - intros k [s [Hk Hno]%(swept_second _ _ _ Hs)]. split; [by eexists|]. by rewrite <- reserved_stored_ids.
Qed.

(** The state a refresh leaves. *)
Definition refreshed_state now st ls missing t : LeavesState :=
  let l := refreshed_pool now st ls missing t in
  let m := refreshed_missing now st ls missing t in
  {| leaves := remove_all sl_id (reserved_stored st) l;
     missing_operators_leaves := remove_all sl_id (reserved_stored st) m;
     leaves_reservations := refreshed_entry l m <$> leaves_reservations st;
     spent_leaf_ids := kept_spent st t;
     last_swap_completed_at := last_swap_completed_at st |}.

Lemma set_leaves_spec now st ls missing t :
  store_inv st → reports_disjoint ls missing →
  process_set_leaves now st ls missing t =
  (if refresh_skipped st t then st else refreshed_state now st ls missing t, Ok ()).
Proof.
  intros Hinv Hd. unfold process_set_leaves. fold (refresh_skipped st t). case_match; [done|].
  fold (kept_spent st t). fold (refreshed_pool now st ls missing t).
  fold (refreshed_missing now st ls missing t).
  rewrite refresh_entries_spec; [|by apply refreshed_pools_disjoint|by apply reserved_stored_NoDup].
  unfold refreshed_state. do 2 f_equal.
  rewrite <- (list_to_map_to_list (refreshed_entry _ _ <$> _)).
  apply list_to_map_proper.
  - rewrite <- list_fmap_compose. apply NoDup_hm_keys.
  - rewrite map_to_list_fmap. by rewrite hm_iter_perm.
Qed.

Lemma inv_set_leaves now st ls missing t :
  store_inv st → reports_disjoint ls missing →
  store_inv (process_set_leaves now st ls missing t).1.
Proof.
  intros Hinv Hd. rewrite set_leaves_spec by done. simpl. case_match; [done|].
  pose proof (keyed_refreshed_pool now st ls missing t Hinv) as Hkl.
  pose proof (keyed_refreshed_missing now st ls missing t Hinv) as Hkm.
  assert (∀ r e, (refreshed_entry (refreshed_pool now st ls missing t)
      (refreshed_missing now st ls missing t) <$> leaves_reservations st) !! r = Some e →
      ∃ e0, leaves_reservations st !! r = Some e0 ∧ reserved_ids e = reserved_ids e0) as Hres.
  { intros r e. rewrite lookup_fmap. intros (e0 & -> & He)%fmap_Some. exists e0.
    split; [done|]. rewrite He. by apply refreshed_ids. }
  split; simpl.
  - intros k s. rewrite lookup_remove_all. case_decide; [done|]. apply Hkl.
  - intros k s. rewrite lookup_remove_all. case_decide; [done|]. apply Hkm.
  - by apply pool_disjoint_remove_all, refreshed_pools_disjoint.
  - intros r e (e0 & Hr & ->)%Hres. by eapply (inv_reserved_nodup _ Hinv).
  - intros r e k (e0 & Hr & ->)%Hres Hk. rewrite !lookup_remove_all.
    rewrite !decide_True; [done|..]; apply reserved_stored_ids; by exists r, e0.
  - intros r1 r2 e1 e2 k (? & ? & ->)%Hres (? & ? & ->)%Hres. by apply (inv_reserved_once _ Hinv).
Qed.

End refresh.
