(* ===== verification/TreeStoreProc.v ===== *)
(** The processor of the in-memory tree store and its clients: the command
    loop of [InMemoryTreeStore::run_processor] and the change notifications of
    [crates/spark/src/tree/store.rs]. *)
From S2P Require Import Prelude TreeTypes SelectHelper TreeStore TreeStoreInv TreeRefresh.

(** [DEFAULT_MAX_CONCURRENT_RESERVATIONS] and [DEFAULT_RESERVATION_TIMEOUT]
    (nanoseconds). *)
Definition DEFAULT_MAX_CONCURRENT_RESERVATIONS : nat := 30.
Definition DEFAULT_RESERVATION_TIMEOUT : Z := 60 * 1000000000.

Section processor.
Context {ext : Externals} {ho : HashOrder}.

(** ** Commands *)

Inductive StoreCommand : Type :=
| AddLeaves (leaves : list TreeNode)
| GetLeaves
| SetLeaves (leaves missing_operators_leaves : list TreeNode) (refresh_started_at : Z)
| TryReserveLeaves (target_amounts : option TargetAmounts) (exact_only : bool)
    (purpose : ReservationPurpose) (permit : Permit)
| CancelReservation (id : LeavesReservationId)
| FinalizeReservation (id : LeavesReservationId) (new_leaves : option (list TreeNode))
| UpdateReservation (reservation_id : LeavesReservationId)
    (reserved_leaves change_leaves : list TreeNode).

(** What is sent back on [response_tx]. *)
Inductive Response : Type :=
| RUnit (r : result () TreeServiceError)
| RLeaves (r : result Leaves TreeServiceError)
| RReserve (r : result ReserveResult TreeServiceError)
| RUpdate (r : result LeavesReservation TreeServiceError).

(** The readings of the outside world one command makes: at most two clock
    readings and one fresh identifier. *)
Record Ambient : Type := { now1 : Z; now2 : Z; new_uuid : LeavesReservationId }.

(** The [match command] of [run_processor]: new state, response, [force_notify]. *)
Definition run_command (amb : Ambient) (state : LeavesState) (command : StoreCommand)
    : LeavesState * Response * bool :=
  match command with
  | AddLeaves ls =>
      let '(st, r) := process_add_leaves (now1 amb) state ls in (st, RUnit r, false)
  | GetLeaves => (state, RLeaves (process_get_leaves state), false)
  | SetLeaves ls missing t =>
      let '(st, r) := process_set_leaves (now1 amb) state ls missing t in (st, RUnit r, false)
  | TryReserveLeaves t exact_only purpose permit =>
      let '(st, r) :=
        process_try_reserve_leaves (new_uuid amb) state t exact_only purpose permit in
      (st, RReserve r, false)
  | CancelReservation id => (process_cancel_reservation state id, RUnit (Ok ()), false)
  | FinalizeReservation id new_leaves =>
      (process_finalize_reservation (now1 amb) (now2 amb) state id new_leaves,
       RUnit (Ok ()), false)
  | UpdateReservation id reserved change =>
      let '(st, r) := process_update_reservation (now1 amb) state id reserved change in
      (st, RUpdate r, is_ok r)
  end.

(** One iteration of [run_processor]: new state, response, notification sent. *)
Definition processor_step (amb : Ambient) (state : LeavesState) (command : StoreCommand)
    : LeavesState * Response * bool :=
  let '(st, r, force_notify) := run_command amb state command in
  (st, r,
   negb (state_available_balance st =? state_available_balance state)
   || negb (pending_balance st =? pending_balance state) || force_notify).

(** [run_processor]: the commands of the channel in order, from the empty state. *)
Fixpoint run_processor (state : LeavesState) (cmds : list (Ambient * StoreCommand))
    : LeavesState * list (Response * bool) :=
  match cmds with
  | [] => (state, [])
  | (amb, c) :: cmds' =>
      let '(st, r, notified) := processor_step amb state c in
      let '(st', rs) := run_processor st cmds' in
      (st', (r, notified) :: rs)
  end.

(** ** Reachable states

    What the service guarantees of a command: a leaf it adds is not held
    elsewhere by the store, a refresh reports a leaf once, a reservation
    identifier is fresh, and amounts are [u64] values that do not overflow. *)
Definition command_ok (amb : Ambient) (st : LeavesState) (c : StoreCommand) : Prop :=
  match c with
  | AddLeaves ls => Forall (not_held st) (tn_id <$> ls)
  | GetLeaves | CancelReservation _ => True
  | SetLeaves ls missing _ => reports_disjoint ls missing
  | TryReserveLeaves t _ _ _ =>
      pool_small st ∧ (∀ x, t = Some x → target_ok x) ∧ 0 ≤ target_total t ∧
      leaves_reservations st !! new_uuid amb = None
  | FinalizeReservation id new_leaves =>
      Forall (not_held (without st id)) (tn_id <$> default [] new_leaves)
  | UpdateReservation id reserved change =>
      Forall (not_held (without st id)) (tn_id <$> change ++ reserved) ∧
      NoDup (tn_id <$> reserved) ∧
      Forall (λ k, leaves st !! k = None ∧ k ∉ tn_id <$> change) (tn_id <$> reserved)
  end.

Inductive reachable : LeavesState → Prop :=
| reachable_default : reachable LeavesState_default
| reachable_step amb st c :
    reachable st → command_ok amb st c → reachable (processor_step amb st c).1.1.

Lemma processor_step_state amb st c :
  (processor_step amb st c).1.1 = (run_command amb st c).1.1.
Proof. unfold processor_step. by destruct (run_command amb st c) as [[? ?] ?]. Qed.

Lemma processor_step_quiet amb st c :
  (processor_step amb st c).2 = false →
  state_available_balance (processor_step amb st c).1.1 = state_available_balance st ∧
  pending_balance (processor_step amb st c).1.1 = pending_balance st.
Proof.
  unfold processor_step. destruct (run_command amb st c) as [[st' ?] ?]. simpl.
  rewrite !orb_false_iff, !negb_false_iff, !Z.eqb_eq. tauto.
Qed.

Lemma inv_step amb st c :
  store_inv st → command_ok amb st c → store_inv (processor_step amb st c).1.1.
Proof.
  intros Hinv Hc. rewrite processor_step_state. destruct c; simpl in Hc |- *.
  - by apply (inv_add_leaves (now1 amb) st leaves tt).
  - done.
  - pose proof (inv_set_leaves (now1 amb) st leaves missing_operators_leaves
      refresh_started_at Hinv Hc). by destruct (process_set_leaves _ _ _ _ _).
  - destruct Hc as (? & ? & ? & ?).
    pose proof (inv_try_reserve (new_uuid amb) st target_amounts exact_only purpose permit).
    destruct (process_try_reserve_leaves _ _ _ _ _ _). simpl in *. eauto.
  - by apply inv_cancel.
  - by apply inv_finalize.
  - destruct Hc as (? & ? & ?). pose proof (inv_update (now1 amb) st reservation_id
      reserved_leaves change_leaves). destruct (process_update_reservation _ _ _ _ _). eauto.
Qed.

Lemma reachable_store_inv st : reachable st → store_inv st.
Proof. induction 1 as [|amb st c _ IH Hc]; [apply store_inv_default|by apply inv_step]. Qed.

(** C4: what [try_reserve_leaves] does on a store with the invariant, when the values in the
    pool and the target are [u64] and the pool's sum does not overflow.  Leaves that match the
    targets exactly, if the exact selection finds some, are moved to the reservation, and
    [NonReservableLeaves] is answered when it selects none at all.  Otherwise, unless
    [exact_only], the shortest prefix of the pool worth at least a positive target is, and the
    excess is recorded as pending change.  Only when neither selection found leaves is the
    store unchanged and the answer [WaitForPending] when the available and pending balances
    cover the target, and [InsufficientFunds] when they do not. *)
Theorem try_reserve_leaves_outcome uuid st t exact_only purpose permit :
  store_inv st → pool_small st → (∀ x, t = Some x → target_ok x) → 0 ≤ target_total t →
  reserve_outcome uuid st t exact_only purpose permit
    (process_try_reserve_leaves uuid st t exact_only purpose permit).1
    (process_try_reserve_leaves uuid st t exact_only purpose permit).2.
Proof. apply try_reserve_spec. Qed.

(** cancelling a reservation right after making it gives back the very same
    store: pools, reservations, spent leaves. *)
Theorem cancel_undoes_reserve uuid st t exact_only purpose permit st' r :
  store_inv st → pool_small st → (∀ x, t = Some x → target_ok x) → 0 ≤ target_total t →
  leaves_reservations st !! uuid = None →
  process_try_reserve_leaves uuid st t exact_only purpose permit = (st', Ok (Success r)) →
  process_cancel_reservation st' (res_id r) = st.
Proof.
  intros Hinv Hp Ht H0 Hu Hr.
  pose proof (try_reserve_spec uuid st t exact_only purpose permit Hinv Hp Ht H0) as Ho.
  rewrite Hr in Ho. simpl in Ho. inversion Ho; subst; by apply cancel_reserved_state.
Qed.

(** ** Contents after a refresh *)

Lemma refreshed_pool_Some now st ls missing t k s :
  refreshed_pool now st ls missing t !! k = Some s ↔
  (refresh_pool now (kept_spent st t) ls !! k = Some s) ∨
  (refresh_pool now (kept_spent st t) ls !! k = None ∧
   refresh_pool now (kept_spent st t) missing !! k = None ∧
   leaves st !! k = Some s ∧ t ≤ added_at s).
Proof.
  unfold refreshed_pool. rewrite preserve_leaves_lookup.
  destruct (refresh_pool now (kept_spent st t) ls !! k); [naive_solver|].
  destruct (leaves st !! k) as [s'|]; [|naive_solver].
  destruct (refresh_pool now (kept_spent st t) missing !! k).
  - rewrite bool_decide_eq_false_2, andb_false_r by done. naive_solver.
  - rewrite bool_decide_eq_true_2, andb_true_r by done. case_match; naive_solver lia.
Qed.

Lemma kept_spent_None st t k :
  kept_spent st t !! k = None ↔ ∀ at_, spent_leaf_ids st !! k = Some at_ → at_ < t.
Proof.
  unfold kept_spent. rewrite map_lookup_filter_None. simpl. split.
  - intros [Hn|Hn] a Ha; [congruence|]. specialize (Hn _ Ha). simpl in Hn. lia.
  - intros Hn. right. intros a Ha. specialize (Hn _ Ha). simpl. lia.
Qed.

(** C7: a refresh changes nothing while a swap reservation is live or when a swap
    completed since the refresh began.  After any other refresh, a leaf is in the
    available pool iff no reservation holds it and either the operators reported it and it was not
    spent since the refresh began, or it was added to the pool since the refresh
    began and the operators did not report it (or it is spent).  A leaf spent
    after the refresh began never comes back, and a leaf received meanwhile is
    never lost. *)
Theorem set_leaves_contents now st ls missing t k :
  store_inv st → reports_disjoint ls missing →
  let spent := ∃ at_, spent_leaf_ids st !! k = Some at_ ∧ t ≤ at_ in
  if refresh_skipped st t then (process_set_leaves now st ls missing t).1 = st else
  is_Some (leaves (process_set_leaves now st ls missing t).1 !! k) ↔
  ¬ is_reserved st k ∧
  ((k ∈ tn_id <$> ls ∧ ¬ spent) ∨
   ((k ∈ tn_id <$> ls ++ missing → spent) ∧
    ∃ s, leaves st !! k = Some s ∧ t ≤ added_at s)).
Proof.
  intros Hinv Hd spent. rewrite set_leaves_spec by done. destruct (refresh_skipped st t); [done|]. simpl.
  rewrite lookup_remove_all.
  assert (kept_spent st t !! k = None ↔ ¬ spent) as Hsp.
  { rewrite kept_spent_None. unfold spent. split.
    - intros Hn (a & Ha & ?). specialize (Hn a Ha). lia.
    - intros Hn a Ha. destruct (Z.lt_ge_cases a t); [done|]. exfalso. eauto. }
  case_decide as Hres; rewrite reserved_stored_ids in Hres; [by split; [intros []|intros [? _]]|].
  pose proof (refresh_pool_is_Some now (kept_spent st t) ls k) as Hl.
  pose proof (refresh_pool_is_Some now (kept_spent st t) missing k) as Hm.
  rewrite Hsp in Hl, Hm. rewrite fmap_app, elem_of_app. split.
  - intros [s Hs]. split; [done|]. apply refreshed_pool_Some in Hs as [Hs|(Hn1 & Hn2 & Hs & ?)].
    + left. apply Hl. by eexists.
    + rewrite <- not_eq_None_Some in Hl, Hm. right. split; [|by exists s].
      intros Hin. destruct (kept_spent st t !! k) eqn:Hk; [|tauto].
      unfold kept_spent in Hk. apply map_lookup_filter_Some in Hk as [? ?]. by eexists.
  - intros [_ [Hin|[Hin (s & Hs & ?)]]].
    + apply Hl in Hin as [s Hs]. exists s. apply refreshed_pool_Some. by left.
    + destruct (refresh_pool now (kept_spent st t) ls !! k) as [s'|] eqn:E1.
      * exists s'. apply refreshed_pool_Some. by left.
      * exists s. apply refreshed_pool_Some. right. split_and!; try done.
        apply eq_None_not_Some. intros [? ?]%Hm. tauto.
Qed.

(** ** Balances *)

Definition available_value (s : StoredLeaf) : Z :=
  if is_available s then value (sl_node s) else 0.

Definition swap_value (e : ReservationEntry) : Z :=
  match re_purpose e with Swap => total (sl_node <$> re_leaves e) | Payment => 0 end.

(** The balance the user sees, before wrapping to [u64]. *)
Definition exact_balance (st : LeavesState) : Z :=
  map_sum available_value (leaves st) + map_sum available_value (missing_operators_leaves st)
  + map_sum swap_value (leaves_reservations st).

Lemma total_filter_available (l : list StoredLeaf) :
  total (sl_node <$> List.filter is_available l) = sumZ (available_value <$> l).
Proof.
  induction l as [|s l IH]; [done|]. rewrite fmap_cons, sumZ_cons, <- IH. cbn [List.filter].
  unfold available_value at 1. by destruct (is_available s).
Qed.

Lemma total_available_pool (m : gmap TreeNodeId StoredLeaf) :
  total (sl_node <$> List.filter is_available (hm_values m)) = map_sum available_value m.
Proof. by rewrite total_filter_available, sumZ_hm_values. Qed.

Lemma state_available_balance_wrap st :
  state_available_balance st = wrap 64 (map_sum available_value (leaves st)).
Proof.
  unfold state_available_balance. rewrite sum_u_wrap by done.
  rewrite <- total_available_pool. unfold total. by rewrite <- list_fmap_compose.
Qed.

Lemma split_by_purpose_swap_aux es p s :
  total (foldl (λ '(for_payment, for_swap) entry,
    let nodes := sl_node <$> re_leaves entry in
    match re_purpose entry with
    | Payment => (for_payment ++ nodes, for_swap)
    | Swap => (for_payment, for_swap ++ nodes)
    end) (p, s) es).2 = total s + sumZ (swap_value <$> es).
Proof.
  revert p s. induction es as [|e es IH]; intros p s; [simpl; lia|].
  rewrite fmap_cons, sumZ_cons. cbn [foldl]. unfold swap_value at 1. destruct (re_purpose e); rewrite IH, ?total_app; lia.
Qed.

Lemma split_by_purpose_swap es :
  total (split_by_purpose es).2 = sumZ (swap_value <$> es).
Proof. unfold split_by_purpose. by rewrite split_by_purpose_swap_aux, total_nil. Qed.

Lemma wadd_wrap w a b : 0 ≤ w → wadd w (wrap w a) (wrap w b) = wrap w (a + b).
Proof. intros. unfold wadd, wrap. by rewrite <- Zplus_mod. Qed.

Lemma get_leaves_balance st :
  balance <$> match process_get_leaves st with Ok l => Some l | Err _ => None end =
  Some (wrap 64 (exact_balance st)).
Proof.
  unfold process_get_leaves. destruct (split_by_purpose _) as [p s] eqn:Hs. simpl. f_equal.
  unfold balance, available_balance, missing_operators_balance, swap_reserved_balance. simpl.
  rewrite !sum_u_wrap by done. fold (total s).
  fold (total (sl_node <$> List.filter is_available (hm_values (leaves st)))).
  fold (total (sl_node <$> List.filter is_available (hm_values (missing_operators_leaves st)))).
  rewrite !total_available_pool, !wadd_wrap by done. f_equal. unfold exact_balance. f_equal.
  replace s with (split_by_purpose (hm_values (leaves_reservations st))).2 by by rewrite Hs.
  by rewrite split_by_purpose_swap, sumZ_hm_values.
Qed.

Lemma map_sum_remove_all (f : StoredLeaf → Z) (m : gmap TreeNodeId StoredLeaf) ls :
  NoDup (tn_id <$> ls) → Forall (λ l, is_Some (m !! tn_id l)) ls →
  map_sum f (remove_all tn_id ls m) =
  map_sum f m - sumZ (f <$> omap (λ l, m !! tn_id l) ls).
Proof.
  unfold remove_all. revert m. induction ls as [|l ls IH]; intros m Hnd Hin; [simpl; lia|]. cbn [foldl].
  rewrite sumZ_omap_cons.
  rewrite fmap_cons in Hnd. apply NoDup_cons in Hnd as [Hl Hnd].
  apply Forall_cons in Hin as [[s Hs] Hin]. rewrite Hs. cbn [default fmap option_fmap option_map from_option].
  rewrite IH; [|done|].
  - rewrite (map_sum_delete f m (tn_id l) s), omap_lookup_delete by done. unfold id. lia.
  - apply Forall_forall. rewrite Forall_forall in Hin. intros x Hx.
    rewrite lookup_delete_ne; [by apply Hin|]. intros Heq. apply Hl. rewrite Heq.
    by apply list_elem_of_fmap_2.
Qed.

Lemma reserved_state_balance uuid st ls purpose permit pending :
  store_inv st → leaves_reservations st !! uuid = None → ls ⊆+ available_nodes st →
  exact_balance (reserved_state uuid st ls purpose permit pending) =
  exact_balance st - match purpose with Payment => total ls | Swap => 0 end.
Proof.
  intros Hinv Hu Hs. destruct (selected_holds _ _ (inv_pool_keyed _ Hinv) Hs) as [Hnd Hh].
  unfold exact_balance. simpl. rewrite map_sum_insert by done. unfold swap_value at 1. simpl.
  rewrite (omap_holds _ _ Hh), map_sum_remove_all; [|done|].
  - replace (sumZ _) with (total ls); [destruct purpose; lia|].
    rewrite <- (omap_holds _ _ Hh) at 1. unfold total. rewrite <- list_fmap_compose. f_equal.
    apply list_fmap_ext. intros i s Hi. simpl. unfold available_value.
    replace (is_available s) with true; [done|]. symmetry. apply bool_decide_eq_true_2.
    apply list_elem_of_lookup_2, list_elem_of_omap in Hi as (l & Hl & Hls).
    apply (elem_of_submseteq _ _ _ Hl), pool_node_in in Hs as (s' & ? & <- & Hav);
      [|apply Hinv]. congruence.
  - eapply Forall_impl; [done|]. intros l (s & Hl & _). by eexists.
Qed.

(** a successful reservation for a swap leaves the balance that [get_leaves]
    reports unchanged; one for a payment lowers it by the value it reserved. *)
Theorem try_reserve_leaves_balance uuid st t exact_only purpose permit st' r l l' :
  store_inv st → pool_small st → (∀ x, t = Some x → target_ok x) → 0 ≤ target_total t →
  leaves_reservations st !! uuid = None →
  process_try_reserve_leaves uuid st t exact_only purpose permit = (st', Ok (Success r)) →
  process_get_leaves st = Ok l → process_get_leaves st' = Ok l' →
  balance l' = wsub 64 (balance l)
    match purpose with Payment => LeavesReservation_sum r | Swap => 0 end.
Proof.
  intros Hinv Hp Ht H0 Hu Hr Hl Hl'.
  pose proof (try_reserve_spec uuid st t exact_only purpose permit Hinv Hp Ht H0) as Ho.
  rewrite Hr in Ho. simpl in Ho.
  assert (∃ sel pending, st' = reserved_state uuid st sel purpose permit pending ∧
    sel ⊆+ available_nodes st ∧ res_leaves r = sel) as (sel & pending & -> & Hsub & Hsel).
  { inversion Ho; subst; eauto. }
  pose proof (get_leaves_balance st) as Hb. rewrite Hl in Hb. injection Hb as ->.
  pose proof (get_leaves_balance (reserved_state uuid st sel purpose permit pending)) as Hb.
  rewrite Hl' in Hb. injection Hb as ->. rewrite reserved_state_balance by done.
  unfold wsub, LeavesReservation_sum. rewrite Hsel. fold (total sel).
  rewrite sum_u_wrap by done. fold (total sel). unfold wrap.
  destruct purpose; by rewrite ?Zminus_mod_idemp_r, Zminus_mod_idemp_l.
Qed.

(** ** Notifications *)

Lemma target_total_exact t r leaves :
  (∀ x, t = Some x → target_ok x) → selection_matches leaves t r → t ≠ None →
  total (target_concat r) < 2 ^ 64 → target_total t = total (target_concat r).
Proof.
  intros Ht Hm Hn. unfold target_concat. rewrite total_app. destruct t as [[a f|ds]|]; [..|done].
  - destruct (Ht _ eq_refl) as [Ha Hf]. simpl in *. intros Hlt. unfold wadd.
    destruct f as [f|]; simpl in *.
    + destruct Hm as (<- & fl & Hfl & <-). rewrite Hfl in *. simpl in *.
      rewrite wrap_small; [done|]. unfold in_u, id in *. lia.
    + destruct Hm as (<- & Hfl). rewrite Hfl in *. simpl in *. rewrite total_nil in *.
      rewrite wrap_small; [done|]. unfold in_u, id in *. lia.
  - destruct Hm as (<- & ->). simpl. rewrite total_nil, Z.add_0_r. intros Hlt.
    specialize (Ht _ eq_refl). simpl in Ht. rewrite sum_u_wrap by done. apply wrap_small.
    split; [|done]. apply sumZ_nonneg. eapply Forall_impl; [done|]. unfold in_u. simpl. lia.
Qed.

Lemma pool_small_balance st :
  pool_small st → state_available_balance st = total (available_nodes st) ∧
  0 ≤ total (available_nodes st) < 2 ^ 64.
Proof.
  intros [Hok Hlt]. pose proof (total_nonneg _ Hok). split; [|lia].
  rewrite <- total_exact by done. unfold state_available_balance, available_nodes.
  by rewrite <- list_fmap_compose.
Qed.

(** When the request may take more than the target, it waits or fails exactly
    when the available balance does not cover the target. *)
Lemma try_reserve_unsatisfied uuid st t purpose permit :
  store_inv st → pool_small st → (∀ x, t = Some x → target_ok x) → 0 < target_total t →
  total (available_nodes st) < target_total t →
  process_try_reserve_leaves uuid st t false purpose permit =
  (st, Ok (wait_or_fail (target_total t) (state_available_balance st) (pending_balance st))).
Proof.
  intros Hinv [Hok Hsum] Ht Hpos Hlt. unfold process_try_reserve_leaves.
  fold (target_total t). fold (available_nodes st).
  destruct (select_leaves_by_target_amounts (available_nodes st) t) as [r|e] eqn:Hsel.
  - exfalso. destruct (select_sound _ _ _ Hok Ht Hsel) as [Hm Hs].
    pose proof (total_submseteq_le _ _ Hs Hok). destruct t as [t|]; [|simpl in Hpos; lia].
    rewrite (target_total_exact _ r (available_nodes st)) in Hlt by (done || lia). lia.
  - simpl. destruct (select_minimum_spec _ (target_total t) Hok Hsum) as [[_ ->]|(j & _ & Hge & _)];
      [lia|done|]. exfalso.
    pose proof (total_sublist_le _ _ (sublist_take (available_nodes st) j) Hok). lia.
Qed.

(** no wake-up is lost: a request that was told to wait gets the very same
    answer after any command that sends no notification.  So a waiter that
    retries only when notified never misses the moment it could be served. *)
Theorem no_lost_wakeup amb uuid uuid' st c t purpose permit n a p :
  store_inv st → pool_small st → command_ok amb st c →
  pool_small (processor_step amb st c).1.1 →
  (∀ x, t = Some x → target_ok x) → 0 < target_total t →
  (process_try_reserve_leaves uuid st t false purpose permit).2 = Ok (WaitForPending n a p) →
  (processor_step amb st c).2 = false →
  process_try_reserve_leaves uuid' (processor_step amb st c).1.1 t false purpose permit =
  ((processor_step amb st c).1.1, Ok (WaitForPending n a p)).
Proof.
  intros Hinv Hp Hc Hp' Ht Hpos Hwait Hquiet.
  pose proof (inv_step amb st c Hinv Hc) as Hinv'.
  destruct (processor_step_quiet amb st c Hquiet) as [Ha Hpend].
  destruct (pool_small_balance _ Hp) as [Hb ?], (pool_small_balance _ Hp') as [Hb' ?].
  assert (total (available_nodes st) < target_total t) as Hlt.
  { apply Z.nle_gt. intros Hge. destruct Hp as [Hok Hsum]. revert Hwait.
    unfold process_try_reserve_leaves. fold (target_total t). fold (available_nodes st).
    destruct (select_leaves_by_target_amounts (available_nodes st) t) as [r|e] eqn:Hsel.
    - destruct (reserve_internal _ _ _ _ _ _) as [? []]; by simpl.
    - simpl. destruct (select_minimum_spec _ (target_total t) Hok Hsum) as [[? _]|(j & -> & _)];
        [lia|lia|]. destruct (reserve_internal _ _ _ _ _ _) as [? []]; by simpl. }
  rewrite try_reserve_unsatisfied in Hwait by done. simpl in Hwait.
  rewrite try_reserve_unsatisfied by (done || lia). f_equal. by rewrite Ha, Hpend.
Qed.

End processor.

(** ** Witnesses *)

#[local] Existing Instance simple_externals.
#[local] Existing Instance canonical_order.

Definition ex_ambient (uuid : string) : Ambient := {| now1 := 100; now2 := 101; new_uuid := uuid |}.

(** A wallet of three leaves, then a swap reservation of the largest. *)
Definition ex_wallet : LeavesState :=
  (processor_step (ex_ambient "r0") LeavesState_default (AddLeaves wallet_3000_2048_1024)).1.1.

Definition ex_target (n : Z) : option TargetAmounts := Some (AmountAndFee n None).

Lemma ex_wallet_new (ls : list TreeNode) : Forall (not_held LeavesState_default) (tn_id <$> ls).
Proof.
  apply Forall_forall. intros k _. split; [done|]. intros r e Hr. simpl in Hr.
  by rewrite lookup_empty in Hr.
Defined.

Lemma ex_wallet_reachable : reachable ex_wallet.
Proof. apply reachable_step; [apply reachable_default|apply ex_wallet_new]. Defined.

Lemma ex_wallet_inv : store_inv ex_wallet.
Proof. apply inv_step; [apply store_inv_default|apply ex_wallet_new]. Defined.

Lemma ex_wallet_small : pool_small ex_wallet.
Proof. compute_done. Defined.

Lemma ex_target_ok n : in_u 64 n → ∀ x, ex_target n = Some x → target_ok x.
Proof. intros Hn x [= <-]. split; [done|by vm_compute]. Defined.

Lemma try_reserve_leaves_outcome_witness :
  reserve_outcome "r1" ex_wallet (ex_target 2000) false Swap 0%nat
    (process_try_reserve_leaves "r1" ex_wallet (ex_target 2000) false Swap 0%nat).1
    (process_try_reserve_leaves "r1" ex_wallet (ex_target 2000) false Swap 0%nat).2.
Proof.
  apply (try_reserve_leaves_outcome "r1" ex_wallet (ex_target 2000) false Swap 0%nat).
  - exact ex_wallet_inv.
  - exact ex_wallet_small.
  - by apply ex_target_ok.
  - by vm_compute.
Defined.

(** The reservation of the example: 2000 sats out of the wallet. *)
Definition ex_reserved := process_try_reserve_leaves "r1" ex_wallet (ex_target 2000) false Payment 0%nat.

Definition ex_reservation : LeavesReservation :=
  match ex_reserved.2 with
  | Ok (Success r) => r
  | _ => LeavesReservation_new [] ""
  end.

Lemma cancel_undoes_reserve_witness :
  process_cancel_reservation ex_reserved.1 (res_id ex_reservation) = ex_wallet.
Proof.
  apply (cancel_undoes_reserve "r1" ex_wallet (ex_target 2000) false Payment 0%nat _ ex_reservation).
  - exact ex_wallet_inv.
  - exact ex_wallet_small.
  - by apply ex_target_ok.
  - by vm_compute.
  - by vm_compute.
  - by vm_compute.
Defined.

(** A refresh that began before the wallet's leaves were added and reports
    none of them keeps them. *)
Lemma set_leaves_contents_witness :
  if refresh_skipped ex_wallet 50
  then (process_set_leaves 200 ex_wallet [] [] 50).1 = ex_wallet
  else is_Some (leaves (process_set_leaves 200 ex_wallet [] [] 50).1 !! "a") ↔
    ¬ is_reserved ex_wallet "a" ∧
    (("a" ∈ tn_id <$> ([] : list TreeNode) ∧
      ¬ ∃ at_, spent_leaf_ids ex_wallet !! "a" = Some at_ ∧ 50 ≤ at_) ∨
     (("a" ∈ tn_id <$> ([] : list TreeNode) ++ [] →
       ∃ at_, spent_leaf_ids ex_wallet !! "a" = Some at_ ∧ 50 ≤ at_) ∧
      ∃ s, leaves ex_wallet !! "a" = Some s ∧ 50 ≤ added_at s)).
Proof.
  apply (set_leaves_contents 200 ex_wallet [] [] 50 "a").
  - exact ex_wallet_inv.
  - intros k Hk. by apply elem_of_nil in Hk.
Defined.

Definition ex_leaves (st : LeavesState) : Leaves :=
  match process_get_leaves st with
  | Ok l => l
  | Err _ => {| available := []; not_available := []; available_missing_from_operators := [];
                reserved_for_payment := []; reserved_for_swap := [] |}
  end.

Lemma try_reserve_leaves_balance_witness :
  balance (ex_leaves ex_reserved.1)
  = wsub 64 (balance (ex_leaves ex_wallet)) (LeavesReservation_sum ex_reservation).
Proof.
  apply (try_reserve_leaves_balance "r1" ex_wallet (ex_target 2000) false Payment 0%nat
           ex_reserved.1 ex_reservation).
  - exact ex_wallet_inv.
  - exact ex_wallet_small.
  - by apply ex_target_ok.
  - by vm_compute.
  - by vm_compute.
  - by vm_compute.
  - by vm_compute.
  - by vm_compute.
Defined.

(** The whole wallet is reserved for 6000 sats: a request for 50 must wait. *)
Definition ex_waiting : LeavesState :=
  (process_try_reserve_leaves "r1" ex_wallet (ex_target 6000) false Swap 0%nat).1.

Lemma no_lost_wakeup_witness :
  process_try_reserve_leaves "r3"
    (processor_step (ex_ambient "r2") ex_waiting GetLeaves).1.1 (ex_target 50) false Payment 1%nat
  = ((processor_step (ex_ambient "r2") ex_waiting GetLeaves).1.1, Ok (WaitForPending 50 0 72)).
Proof.
  apply (no_lost_wakeup (ex_ambient "r2") "r2" "r3" ex_waiting GetLeaves (ex_target 50)
           Payment 1%nat 50 0 72).
  - apply inv_try_reserve; [exact ex_wallet_inv|exact ex_wallet_small|by apply ex_target_ok|
      by vm_compute|by vm_compute].
  - compute_done.
  - done.
  - compute_done.
  - by apply ex_target_ok.
  - by vm_compute.
  - by vm_compute.
  - by vm_compute.
Defined.
