(* ===== verification/TreeLedger.v ===== *)
(** An abstract ledger of leaves, and the in-memory tree store
    ([crates/spark/src/tree/store.rs]) as a refinement of it.

    The ledger only says where each leaf is -- at hand, missing from some operators, or
    in one reservation -- and what the visible outcome of a command may change.  Every
    run of [run_processor] is a run of the ledger, so what the ledger guarantees about
    the order of reservations holds of the store. *)
From S2P Require Import Prelude TreeTypes SelectHelper TreeStore TreeStoreInv TreeRefresh TreeStoreProc.

(** ** The ledger *)

Inductive Place : Type :=
| AtHand
| AtSomeOperators
| InReservation (r : LeavesReservationId).

(** Where a leaf is; normally in one place at most. *)
Definition Ledger : Type := TreeNodeId → Place → Prop.

Definition once (L : Ledger) (k : TreeNodeId) : Prop := ∀ pl pl', L k pl → L k pl' → pl = pl'.

(** What a client sees of a command. *)
Inductive LedgerEvent : Type :=
| ENothing
| EAdd (ids : list TreeNodeId)
| EReserve (r : LeavesReservationId) (ids : list TreeNodeId)
| ECancel (r : LeavesReservationId)
| EFinalize (r : LeavesReservationId) (ids : list TreeNodeId)
| EUpdate (r : LeavesReservationId) (reserved change : list TreeNodeId)
| ERefresh (listed missing : list TreeNodeId).

(** A reservation takes leaves at hand, each once; the identifier of a reservation given out
    again loses the old one.  A refresh is skipped, or drops and brings leaves that are in no
    reservation; a leaf reported both by all and by some operators only may end in two places. *)
Definition ledger_step (e : LedgerEvent) (L L' : Ledger) : Prop :=
  match e with
  | ENothing => ∀ k pl, L' k pl ↔ L k pl
  | EAdd ids => ∀ k pl, L' k pl ↔ L k pl ∨ (pl = AtHand ∧ k ∈ ids)
  | EReserve r ids =>
      ids ≠ [] ∧ NoDup ids ∧ (∀ k, k ∈ ids → L k AtHand) ∧
      ∀ k pl, L' k pl ↔ (k ∈ ids ∧ pl = InReservation r) ∨
                        (pl ≠ InReservation r ∧ ¬ (k ∈ ids ∧ pl = AtHand) ∧ L k pl)
  | ECancel r =>
      ∀ k pl, L' k pl ↔ (pl ≠ InReservation r ∧ L k pl) ∨ (pl = AtHand ∧ L k (InReservation r))
  | EFinalize r ids =>
      ∀ k pl, L' k pl ↔ (pl ≠ InReservation r ∧ L k pl) ∨ (pl = AtHand ∧ k ∈ ids)
  | EUpdate r reserved change =>
      ∀ k pl, L' k pl ↔ (pl ≠ InReservation r ∧ L k pl) ∨ (pl = AtHand ∧ k ∈ change) ∨
                        (pl = InReservation r ∧ k ∈ reserved)
  | ERefresh listed missing =>
      (∀ k pl, L' k pl ↔ L k pl) ∨
      ((∀ k r, L' k (InReservation r) ↔ L k (InReservation r)) ∧
       (∀ k, L' k AtHand → (∀ r, ¬ L k (InReservation r)) ∧ (k ∈ listed ∨ L k AtHand)) ∧
       (∀ k, L' k AtSomeOperators →
          (k ∈ missing ∨ L k AtSomeOperators) ∧
          ((k ∈ listed ∧ k ∈ missing) ∨ ((∀ r, ¬ L k (InReservation r)) ∧ ¬ L' k AtHand))))
  end.

Inductive ledger_run : list LedgerEvent → Ledger → Ledger → Prop :=
| ledger_nil L : ledger_run [] L L
| ledger_cons e es L1 L2 L3 :
    ledger_step e L1 L2 → ledger_run es L2 L3 → ledger_run (e :: es) L1 L3.

(** The command hands in a leaf that is somewhere already and stays there: it is added or
    comes out of a finalized or updated reservation while another one or the leaves missing
    from some operators have it (or, as a leaf the reservation keeps, while it is at hand), it
    is both kept and change, or it is reported as held by all and not by all operators. *)
Definition doubles (e : LedgerEvent) (L : Ledger) (k : TreeNodeId) : Prop :=
  match e with
  | EAdd ids => k ∈ ids ∧ ∃ pl, pl ≠ AtHand ∧ L k pl
  | EFinalize r ids => k ∈ ids ∧ ∃ pl, pl ≠ AtHand ∧ pl ≠ InReservation r ∧ L k pl
  | EUpdate r reserved change =>
      (k ∈ change ∧ ∃ pl, pl ≠ AtHand ∧ pl ≠ InReservation r ∧ L k pl) ∨
      (k ∈ reserved ∧ (k ∈ change ∨ ∃ pl, pl ≠ InReservation r ∧ L k pl))
  | ERefresh listed missing => k ∈ listed ∧ k ∈ missing
  | ENothing | EReserve _ _ | ECancel _ => False
  end.

#[local] Instance Place_eq_dec : EqDecision Place.
Proof. solve_decision. Defined.

(** A leaf in one place gets into a second one only by such a command. *)
Lemma step_once e L L' k : ledger_step e L L' → ¬ doubles e L k → once L k → once L' k.
Proof.
  intros Hstep Hno HL pl pl'. destruct (decide (pl = pl')) as [|Hne]; [done|].
  destruct e as [|ids|r ids|r|r ids|r reserved change|listed missing]; simpl in Hstep, Hno.
  - rewrite !Hstep. apply HL.
  - rewrite !Hstep. naive_solver.
  - destruct Hstep as (_ & _ & Hat & Hstep). rewrite !Hstep.
    assert (∀ p, k ∈ ids → L k p → p = AtHand) by eauto. naive_solver.
  - rewrite !Hstep. naive_solver.
  - rewrite !Hstep. naive_solver.
  - rewrite !Hstep. naive_solver.
  - destruct Hstep as [Hstep|(Hr & Hh & Hm)]; [rewrite !Hstep; apply HL|].
    destruct pl as [| |r], pl' as [| |r']; rewrite ?Hr; naive_solver.
Qed.

(** ... and every such command but a refresh does put it there. *)
Lemma doubles_not_once e L L' k :
  ledger_step e L L' → doubles e L k → (∀ listed missing, e ≠ ERefresh listed missing) → ¬ once L' k.
Proof.
  intros Hstep Hd Hne HL. destruct e as [|ids|r ids|r|r ids|r reserved change|listed missing];
    simpl in Hstep, Hd; try done.
  - destruct Hd as (Hk & pl & Hpl & HL0). apply Hpl. apply HL; apply Hstep; auto.
  - destruct Hd as (Hk & pl & Hpl & Hr & HL0). apply Hpl. apply HL; apply Hstep; auto.
  - destruct Hd as [(Hk & pl & Hpl & Hr & HL0)|(Hk & [Hc|(pl & Hr & HL0)])].
    + apply Hpl. apply HL; apply Hstep; auto.
    + assert (AtHand = InReservation r); [|done]. apply HL; apply Hstep; auto.
    + apply Hr. apply HL; apply Hstep; auto.
  - by eapply Hne.
Qed.

(** A reservation ends by its cancellation, its finalization or its update, and when its
    identifier is given to another one. *)
Definition ends (r : LeavesReservationId) (e : LedgerEvent) : Prop :=
  match e with
  | ECancel r' | EFinalize r' _ | EUpdate r' _ _ | EReserve r' _ => r' = r
  | _ => False
  end.

#[export] Instance ends_dec r e : Decision (ends r e).
Proof. destruct e; simpl; apply _. Defined.

(** A leaf in a reservation stays there until the reservation ends. *)
Lemma reserved_stays e L L' k r :
  ledger_step e L L' → ¬ ends r e → L k (InReservation r) → L' k (InReservation r).
Proof.
  intros Hstep Hends Hk. destruct e as [|ids|r' ids|r'|r' ids|r' reserved change|listed missing];
    simpl in Hstep, Hends.
  - by apply Hstep.
  - apply Hstep. by left.
  - destruct Hstep as (_ & _ & _ & Hstep). apply Hstep. right. naive_solver.
  - apply Hstep. left. naive_solver.
  - apply Hstep. left. naive_solver.
  - apply Hstep. left. naive_solver.
  - destruct Hstep as [Hstep|(Hr & _)]; [by apply Hstep|by apply Hr].
Qed.

(** ** The store as a ledger *)

Section refinement.
Context {ext : Externals} {ho : HashOrder}.

Definition ledger_of (st : LeavesState) : Ledger := λ k pl,
  match pl with
  | AtHand => is_Some (leaves st !! k)
  | AtSomeOperators => is_Some (missing_operators_leaves st !! k)
  | InReservation r => ∃ e, leaves_reservations st !! r = Some e ∧ k ∈ reserved_ids e
  end.

(** The event a client sees: the command with the answer of the processor. *)
Definition event_of (c : StoreCommand) (resp : Response) : LedgerEvent :=
  match c, resp with
  | AddLeaves ls, _ => EAdd (tn_id <$> ls)
  | TryReserveLeaves _ _ _ _, RReserve (Ok (Success res)) =>
      EReserve (res_id res) (tn_id <$> res_leaves res)
  | CancelReservation r, _ => ECancel r
  | FinalizeReservation r new_leaves, _ => EFinalize r (tn_id <$> default [] new_leaves)
  | UpdateReservation r reserved change, RUpdate (Ok _) =>
      EUpdate r (tn_id <$> reserved) (tn_id <$> change)
  | SetLeaves ls missing _, _ => ERefresh (tn_id <$> ls) (tn_id <$> missing)
  | _, _ => ENothing
  end.

#[local] Instance in_place_dec st k pl : Decision (ledger_of st k pl).
Proof.
  destruct pl as [| |r]; simpl; [apply _..|].
  destruct (leaves_reservations st !! r) as [e|] eqn:Hr.
  - destruct (decide (k ∈ reserved_ids e)); [left; by exists e|right; naive_solver].
  - right. naive_solver.
Defined.

#[local] Instance some_place_dec st k (P : Place → Prop) `{!∀ pl, Decision (P pl)} :
  Decision (∃ pl, P pl ∧ ledger_of st k pl).
Proof.
  destruct (decide (P AtHand ∧ ledger_of st k AtHand)) as [|H1]; [left; by exists AtHand|].
  destruct (decide (P AtSomeOperators ∧ ledger_of st k AtSomeOperators)) as [|H2];
    [left; by exists AtSomeOperators|].
  destruct (decide (Exists (λ r, P (InReservation r) ∧ ledger_of st k (InReservation r))
                      (map_to_list (leaves_reservations st)).*1)) as [H3|H3].
  - left. apply Exists_exists in H3 as (r & _ & Hr). by exists (InReservation r).
  - right. intros ([| |r] & HP & HL); [naive_solver..|]. apply H3, Exists_exists. exists r.
    split; [|done]. destruct HL as (e & Hr & _). apply list_elem_of_fmap. exists (r, e).
    split; [done|]. by apply elem_of_map_to_list.
Defined.

#[local] Instance doubles_dec e st k : Decision (doubles e (ledger_of st) k).
Proof.
  destruct e as [|ids|r ids|r|r ids|r reserved change|listed missing]; simpl; try apply _.
  - destruct (decide (∃ pl, (pl ≠ AtHand ∧ pl ≠ InReservation r) ∧ ledger_of st k pl)) as [H|H];
      destruct (decide (k ∈ ids)); [left|right|right|right]; naive_solver.
  - destruct (decide (∃ pl, (pl ≠ AtHand ∧ pl ≠ InReservation r) ∧ ledger_of st k pl)) as [H|H];
      destruct (decide (∃ pl, pl ≠ InReservation r ∧ ledger_of st k pl)) as [H'|H'];
      destruct (decide (k ∈ change)), (decide (k ∈ reserved)); (left; naive_solver) || (right; naive_solver).
Defined.

Lemma is_Some_insert_all {X} (key : X → TreeNodeId) (val : X → StoredLeaf) ls m k :
  is_Some (insert_all key val ls m !! k) ↔ k ∈ key <$> ls ∨ is_Some (m !! k).
Proof.
  split; [apply insert_all_is_Some|]. intros H. destruct (decide (k ∈ key <$> ls)) as [Hin|Hin].
  - destruct (lookup_insert_all_in key val ls m k Hin) as (x & _ & _ & ->). by eexists.
  - rewrite lookup_insert_all_ne by done. by destruct H.
Qed.

Lemma without_reservation st r k r' :
  (∃ e, leaves_reservations (without st r) !! r' = Some e ∧ k ∈ reserved_ids e) ↔
  InReservation r' ≠ InReservation r ∧ ledger_of st k (InReservation r').
Proof.
  simpl. split.
  - intros (e & [Hne He]%lookup_delete_Some & Hk). split; [congruence|]. by exists e.
  - intros (Hne & e & He & Hk). exists e. split; [|done]. apply lookup_delete_Some.
    split; [congruence|done].
Qed.

(** Putting leaves into the pool of [st]. *)
Lemma ledger_insert {X} (key : X → TreeNodeId) (val : X → StoredLeaf) ls st k pl :
  ledger_of (set_pool (insert_all key val ls (leaves st)) st) k pl ↔
  ledger_of st k pl ∨ (pl = AtHand ∧ k ∈ key <$> ls).
Proof. destruct pl; simpl; [|naive_solver..]. rewrite is_Some_insert_all. naive_solver. Qed.

Lemma ledger_without st r k pl :
  ledger_of (without st r) k pl ↔ pl ≠ InReservation r ∧ ledger_of st k pl.
Proof. destruct pl as [| |r']; [simpl; naive_solver..|]. apply without_reservation. Qed.

Lemma step_add now st ls :
  ledger_step (EAdd (tn_id <$> ls)) (ledger_of st) (ledger_of (process_add_leaves now st ls).1).
Proof.
  simpl. intros k pl. revert st. induction ls as [|l ls IH]; intros st; simpl.
  { split; [by left|]. intros [?|[_ Hin]]; [done|]. by apply elem_of_nil in Hin. }
  rewrite IH. assert (ledger_of (add_leaf now st l) k pl ↔
    ledger_of st k pl ∨ (pl = AtHand ∧ k = tn_id l)) as ->.
  { destruct pl; simpl; [|naive_solver..]. rewrite lookup_insert_is_Some'. naive_solver. }
  rewrite elem_of_cons. naive_solver.
Qed.

Lemma step_cancel st r :
  ledger_step (ECancel r) (ledger_of st) (ledger_of (process_cancel_reservation st r)).
Proof.
  intros k pl. unfold process_cancel_reservation.
  destruct (leaves_reservations st !! r) as [e|] eqn:Hr.
  - fold (without st r). change (leaves st) with (leaves (without st r)).
    rewrite ledger_insert, ledger_without.
    assert (k ∈ sl_id <$> re_leaves e ↔ ledger_of st k (InReservation r)) as ->; [|done].
    simpl. rewrite Hr. unfold reserved_ids. naive_solver.
  - assert (¬ ledger_of st k (InReservation r)) as Hno by (simpl; rewrite Hr; naive_solver).
    split; [|naive_solver]. intros H. left. split; [|done]. by intros ->.
Qed.

Lemma step_finalize now now' st r new_leaves :
  ledger_step (EFinalize r (tn_id <$> default [] new_leaves)) (ledger_of st)
    (ledger_of (process_finalize_reservation now now' st r new_leaves)).
Proof.
  intros k pl. unfold process_finalize_reservation.
  set (st1 := match leaves_reservations st !! r with Some _ => _ | None => st end).
  assert (ledger_of st1 k pl ↔ pl ≠ InReservation r ∧ ledger_of st k pl) as Hst1.
  { unfold st1. destruct (leaves_reservations st !! r) as [e|] eqn:Hr.
    - rewrite <- ledger_without. by case_match; destruct pl.
    - split; [|naive_solver]. intros H. split; [|done]. intros ->. simpl in H. rewrite Hr in H.
      naive_solver. }
  destruct new_leaves as [ls|]; simpl.
  - rewrite ledger_insert, Hst1. done.
  - rewrite Hst1. split; [by left|]. intros [?|[_ Hin]]; [done|]. by apply elem_of_nil in Hin.
Qed.

Lemma step_update now st r reserved change :
  let out := process_update_reservation now st r reserved change in
  ledger_step (event_of (UpdateReservation r reserved change) (RUpdate out.2))
    (ledger_of st) (ledger_of out.1).
Proof.
  unfold process_update_reservation. destruct (leaves_reservations st !! r) as [e|] eqn:Hr; simpl; [|done].
  intros k pl. fold (without st r). set (st1 := set_pool _ (without st r)).
  assert (ledger_of st1 k pl ↔
    (pl ≠ InReservation r ∧ ledger_of st k pl) ∨ (pl = AtHand ∧ k ∈ tn_id <$> change)) as Hst1.
  { unfold st1. change (leaves st) with (leaves (without st r)). by rewrite ledger_insert, ledger_without. }
  transitivity ((pl ≠ InReservation r ∧ ledger_of st1 k pl) ∨
                (pl = InReservation r ∧ k ∈ tn_id <$> reserved)).
  - destruct pl as [| |r']; simpl; [naive_solver..|].
    destruct (decide (r' = r)) as [->|Hne].
    + rewrite lookup_insert_eq. split.
      * intros (e' & [= <-] & Hk). right. split; [done|].
        unfold reserved_ids in Hk. simpl in Hk. by rewrite <- list_fmap_compose in Hk.
      * intros [[? _]|[_ Hk]]; [done|]. eexists. split; [done|].
        unfold reserved_ids. simpl. by rewrite <- list_fmap_compose.
    + rewrite lookup_insert_ne by done. split; [|naive_solver]. intros H. left. split; [congruence|done].
  - rewrite Hst1. naive_solver.
Qed.

Definition pools_are_keyed (st : LeavesState) : Prop :=
  keyed (leaves st) ∧ keyed (missing_operators_leaves st).

Lemma step_reserved_state uuid st ls purpose permit pending :
  pools_are_keyed st → ls ≠ [] → ls ⊆+ available_nodes st →
  ledger_step (EReserve uuid (tn_id <$> ls)) (ledger_of st)
    (ledger_of (reserved_state uuid st ls purpose permit pending)).
Proof.
  intros [Hkey _] Hne Hs. destruct (selected_holds _ _ Hkey Hs) as [Hnd Hh].
  pose proof (reserved_state_ids uuid st ls purpose permit pending _ Hkey Hh (lookup_insert_eq _ _ _)) as Hids.
  simpl. split_and!; [by destruct ls|done|..].
  { intros k (l & -> & Hl)%list_elem_of_fmap. rewrite Forall_forall in Hh.
    destruct (Hh l Hl) as (s & Hs' & _). by exists s. }
  intros k [| |r]; simpl.
  - rewrite lookup_remove_all. case_decide; [|naive_solver]. split; [by intros []|naive_solver].
  - naive_solver.
  - destruct (decide (r = uuid)) as [->|Hr].
    + rewrite lookup_insert_eq. split; [|intros [[Hk _]|[? _]]; [|done]].
      2:{ eexists. split; [done|]. by rewrite Hids. }
      intros (e & [= <-] & Hk). left. by rewrite Hids in Hk.
    + rewrite lookup_insert_ne by done. split; [|naive_solver].
      intros H. right. split_and!; [congruence|naive_solver|done].
Qed.

Lemma keyed_reserved_state uuid st ls purpose permit pending :
  pools_are_keyed st → pools_are_keyed (reserved_state uuid st ls purpose permit pending).
Proof.
  intros [Hl Hm]. split; [|done]. intros k s. simpl. rewrite lookup_remove_all.
  case_decide; [done|]. apply Hl.
Qed.

Lemma step_try_reserve uuid st t exact_only purpose permit :
  pools_are_keyed st →
  let out := process_try_reserve_leaves uuid st t exact_only purpose permit in
  ledger_step (event_of (TryReserveLeaves t exact_only purpose permit) (RReserve out.2))
    (ledger_of st) (ledger_of out.1) ∧ pools_are_keyed out.1.
Proof.
  intros Hk. destruct (process_try_reserve_leaves _ _ _ _ _ _) as [st' resp] eqn:Hr.
  apply try_reserve_cases in Hr as [[-> Hno]|(sel & pending & Hne & Hs & -> & ->)]; [..|apply Hk]; simpl.
  - split; [|done]. destruct resp as [[res| |]|]; try done. by destruct (Hno res).
  - split; [by apply step_reserved_state|by apply keyed_reserved_state].
Qed.

Lemma step_refresh now st ls missing t :
  pools_are_keyed st →
  ledger_step (ERefresh (tn_id <$> ls) (tn_id <$> missing)) (ledger_of st)
    (ledger_of (process_set_leaves now st ls missing t).1) ∧
  pools_are_keyed (process_set_leaves now st ls missing t).1.
Proof.
  intros [Hl Hm]. destruct (refresh_skipped st t) eqn:Hskip.
  { unfold process_set_leaves. fold (refresh_skipped st t). rewrite Hskip. by split; [left|]. }
  assert ((process_set_leaves now st ls missing t).2 = Ok ()) as Hok.
  { unfold process_set_leaves. case_match; [done|]. by destruct (map_accum _ _ _) as [[? ?] ?]. }
  destruct (process_set_leaves now st ls missing t) as [st' o] eqn:Hrun. simpl in Hok. subst o.
  destruct (set_leaves_places now st ls missing t st' Hl Hm Hskip Hrun) as (Hl' & Hm' & Hr & Hp & Hq).
  assert (∀ k r, ledger_of st k (InReservation r) → is_reserved st k) as Hres.
  { intros k r (e & He & Hk). by exists r, e. }
  split; [|done]. right. simpl. split_and!.
  - intros k r. specialize (Hr r).
    destruct (leaves_reservations st' !! r) as [e'|], (leaves_reservations st !! r) as [e|]; simpl in Hr;
      [injection Hr as Hr|done|done|naive_solver].
    split; intros (e0 & [= <-] & Hin); eexists; (split; [done|]); congruence.
  - intros k [Hk Hno]%Hp. split; [intros r Hkr; by eapply Hno, Hres|]. by eapply refreshed_pool_from.
  - intros k [Hk Hno]%Hq. split; [by eapply refreshed_missing_from|].
    destruct (decide (is_Some (refreshed_pool now st ls missing t !! k))) as [Hboth|Hn].
    + left. by eapply refreshed_in_both.
    + right. split; [|by intros [? _]%Hp]. intros r Hkr. destruct Hno as [Hno|?]; [|done].
      by eapply Hno, Hres.
Qed.

Lemma keyed_pool_insert now ls st :
  pools_are_keyed st → pools_are_keyed (set_pool (insert_all tn_id (fresh_leaf now) ls (leaves st)) st).
Proof. intros [Hl Hm]. split; [by apply keyed_insert_all_fresh|done]. Qed.

Lemma keyed_step amb st c : pools_are_keyed st → pools_are_keyed (processor_step amb st c).1.1.
Proof.
  intros Hk. rewrite processor_step_state. destruct c; simpl.
  - clear -Hk. revert st Hk. induction leaves as [|l ls IH]; intros st [Hl Hm]; [done|]. simpl.
    apply IH. split; [by apply keyed_insert|exact Hm].
  - done.
  - destruct (step_refresh (now1 amb) st leaves missing_operators_leaves refresh_started_at Hk) as [_ H].
    by destruct (process_set_leaves _ _ _ _ _).
  - destruct (step_try_reserve (new_uuid amb) st target_amounts exact_only purpose permit Hk) as [_ H].
    by destruct (process_try_reserve_leaves _ _ _ _ _ _).
  - destruct Hk as [Hl Hm]. unfold process_cancel_reservation. case_match; [|done].
    split; [by apply keyed_insert_all_stored|done].
  - unfold process_finalize_reservation. set (st1 := match leaves_reservations st !! id with Some _ => _ | None => _ end).
    assert (pools_are_keyed st1) as H1 by (unfold st1; repeat case_match; exact Hk).
    clearbody st1. destruct new_leaves as [ls|]; [exact (keyed_pool_insert (now2 amb) ls st1 H1)|exact H1].
  - unfold process_update_reservation. destruct (leaves_reservations st !! reservation_id); [|exact Hk].
    exact (keyed_pool_insert _ change_leaves st Hk).
Qed.

Lemma step_refines amb st c :
  pools_are_keyed st →
  ledger_step (event_of c (processor_step amb st c).1.2) (ledger_of st)
    (ledger_of (processor_step amb st c).1.1).
Proof.
  intros Hk. unfold processor_step.
  destruct (run_command amb st c) as [[st' resp] force] eqn:Hrun. simpl.
  destruct c; simpl in Hrun.
  - injection Hrun as <- <- _. apply step_add.
  - by injection Hrun as <- <- _.
  - destruct (step_refresh (now1 amb) st leaves missing_operators_leaves refresh_started_at Hk) as [H _].
    destruct (process_set_leaves _ _ _ _ _). by injection Hrun as <- <- _.
  - destruct (step_try_reserve (new_uuid amb) st target_amounts exact_only purpose permit Hk) as [H _].
    destruct (process_try_reserve_leaves _ _ _ _ _ _). by injection Hrun as <- <- _.
  - injection Hrun as <- <- _. apply step_cancel.
  - injection Hrun as <- <- _. apply step_finalize.
  - pose proof (step_update (now1 amb) st reservation_id reserved_leaves change_leaves) as H.
    destruct (process_update_reservation _ _ _ _ _). by injection Hrun as <- <- _.
Qed.

(** ** Runs *)

Definition trace_events (cmds : list (Ambient * StoreCommand)) (rs : list (Response * bool))
    : list LedgerEvent :=
  zip_with (λ c r, event_of c.2 r.1) cmds rs.

(** The state before command [m] of a run, and whether that command hands [k] in twice. *)
Definition state_before (st : LeavesState) (cmds : list (Ambient * StoreCommand)) (m : nat) : LeavesState :=
  (run_processor st (take m cmds)).1.

Definition doubled_at (st : LeavesState) (cmds : list (Ambient * StoreCommand)) (m : nat)
    (k : TreeNodeId) : Prop :=
  ∃ amb c, cmds !! m = Some (amb, c) ∧
    doubles (event_of c (processor_step amb (state_before st cmds m) c).1.2)
      (ledger_of (state_before st cmds m)) k.

Lemma run_cons st amb c cmds :
  run_processor st ((amb, c) :: cmds) =
  let o := processor_step amb st c in
  let run := run_processor o.1.1 cmds in
  (run.1, (o.1.2, o.2) :: run.2).
Proof. simpl. destruct (processor_step amb st c) as [[st1 r] n]. simpl. by destruct (run_processor st1 cmds). Qed.

Lemma doubled_later st amb c cmds m k :
  doubled_at (processor_step amb st c).1.1 cmds m k → doubled_at st ((amb, c) :: cmds) (S m) k.
Proof.
  intros (amb' & c' & Hm & Hd). exists amb', c'. split; [done|].
  assert (state_before st ((amb, c) :: cmds) (S m) = state_before (processor_step amb st c).1.1 cmds m)
    as ->; [|done]. unfold state_before. cbn [take]. by rewrite run_cons.
Qed.

Lemma run_refines cmds st :
  pools_are_keyed st →
  ledger_run (trace_events cmds (run_processor st cmds).2) (ledger_of st)
    (ledger_of (run_processor st cmds).1).
Proof.
  revert st. induction cmds as [|[amb c] cmds IH]; intros st Hk; [constructor|].
  rewrite run_cons. econstructor; [by apply step_refines|]. by apply IH, keyed_step.
Qed.

Lemma run_once cmds st k :
  pools_are_keyed st → once (ledger_of st) k →
  once (ledger_of (run_processor st cmds).1) k ∨ ∃ m, doubled_at st cmds m k.
Proof.
  revert st. induction cmds as [|[amb c] cmds IH]; intros st Hk Ho; [by left|].
  pose proof (step_refines amb st c Hk) as Hstep.
  destruct (decide (doubles (event_of c (processor_step amb st c).1.2) (ledger_of st) k)) as [Hd|Hd].
  { right. exists 0%nat, amb, c. split; [done|]. exact Hd. }
  rewrite run_cons. destruct (IH _ (keyed_step amb st c Hk) (step_once _ _ _ _ Hstep Hd Ho)) as [?|[m Hm]];
    [by left|right]. exists (S m). by apply doubled_later.
Qed.

(** While a leaf is in a reservation and nowhere else no other reservation gets it. *)
Lemma reserved_until_end cmds st k r j r2 ids2 :
  pools_are_keyed st → once (ledger_of st) k → ledger_of st k (InReservation r) →
  let es := trace_events cmds (run_processor st cmds).2 in
  es !! j = Some (EReserve r2 ids2) → k ∈ ids2 →
  (∃ m e, (m < j)%nat ∧ es !! m = Some e ∧ ends r e) ∨ ∃ m, (m < j)%nat ∧ doubled_at st cmds m k.
Proof.
  revert st j. induction cmds as [|[amb c] cmds IH]; intros st j Hk Ho Hr es; [by destruct j|].
  unfold es. rewrite run_cons. cbn [snd trace_events zip_with].
  pose proof (step_refines amb st c Hk) as Hstep. set (e := event_of c _) in *.
  destruct j as [|j]; cbn [lookup list_lookup].
  { intros [= He] Hin. rewrite He in Hstep. destruct Hstep as (_ & _ & Hat & _).
    by pose proof (Ho _ _ Hr (Hat k Hin)). }
  intros Hj Hin. destruct (decide (ends r e)) as [He|He]; [left; exists 0%nat, e; split_and!; [lia|done|done]|].
  destruct (decide (doubles e (ledger_of st) k)) as [Hd|Hd].
  { right. exists 0%nat. split; [lia|]. by exists amb, c. }
  destruct (IH _ j (keyed_step amb st c Hk) (step_once _ _ _ _ Hstep Hd Ho)
    (reserved_stays _ _ _ _ _ Hstep He Hr) Hj Hin) as [(m & e' & ? & ? & ?)|(m & ? & ?)].
  - left. exists (S m), e'. split_and!; [lia|done|done].
  - right. exists (S m). split; [lia|by apply doubled_later].
Qed.

Lemma run_exclusive cmds st i j r1 r2 ids1 ids2 k :
  pools_are_keyed st → once (ledger_of st) k → (i < j)%nat →
  let es := trace_events cmds (run_processor st cmds).2 in
  es !! i = Some (EReserve r1 ids1) → es !! j = Some (EReserve r2 ids2) → k ∈ ids1 → k ∈ ids2 →
  (∃ m e, (i < m < j)%nat ∧ es !! m = Some e ∧ ends r1 e) ∨ ∃ m, (m < j)%nat ∧ doubled_at st cmds m k.
Proof.
  revert st i j. induction cmds as [|[amb c] cmds IH]; intros st i j Hk Ho Hij es; [by destruct i|].
  unfold es. rewrite run_cons. cbn [snd trace_events zip_with].
  pose proof (step_refines amb st c Hk) as Hstep. set (e := event_of c _) in *.
  destruct (decide (doubles e (ledger_of st) k)) as [Hd|Hd].
  { right. exists 0%nat. split; [lia|]. by exists amb, c. }
  pose proof (step_once _ _ _ _ Hstep Hd Ho) as Ho'. pose proof (keyed_step amb st c Hk) as Hk'.
  destruct j as [|j]; [lia|]. destruct i as [|i]; cbn [lookup list_lookup].
  - intros [= He] Hj Hk1 Hk2. rewrite He in Hstep. destruct Hstep as (_ & _ & _ & Hstep).
    assert (ledger_of (processor_step amb st c).1.1 k (InReservation r1)) as Hr by (apply Hstep; by left).
    destruct (reserved_until_end cmds _ k r1 j r2 ids2 Hk' Ho' Hr Hj Hk2) as [(m & e' & ? & ? & ?)|(m & ? & ?)].
    + left. exists (S m), e'. split_and!; [lia|lia|done|done].
    + right. exists (S m). split; [lia|by apply doubled_later].
  - intros Hi Hj Hk1 Hk2.
    destruct (IH _ i j Hk' Ho' ltac:(lia) Hi Hj Hk1 Hk2) as [(m & e' & ? & ? & ?)|(m & ? & ?)].
    + left. exists (S m), e'. split_and!; [lia|lia|done|done].
    + right. exists (S m). split; [lia|by apply doubled_later].
Qed.

Lemma keyed_default : pools_are_keyed LeavesState_default.
Proof. split; apply keyed_empty. Qed.

Lemma ledger_of_default k pl : ¬ ledger_of LeavesState_default k pl.
Proof. destruct pl as [| |r]; simpl; rewrite ?lookup_empty; [by intros []..|naive_solver]. Qed.

Lemma once_default k : once (ledger_of LeavesState_default) k.
Proof. by intros pl pl' []%ledger_of_default. Qed.

(** C1: after any run of the processor, whatever the commands, a leaf is in one place at
    most -- at hand, missing from some operators, or in one reservation -- unless some command
    of the run handed the leaf in while the store had it elsewhere: it was added, or came out
    of a finalized or updated reservation, while another reservation or the leaves missing from
    some operators had it (as a leaf the updated reservation keeps, also while it was at hand
    or among its change), or one refresh reported it both as held by all operators and as
    missing from some.  No reservation, cancellation or other refresh puts a leaf into two
    places. *)
Theorem leaf_in_one_place cmds k :
  once (ledger_of (run_processor LeavesState_default cmds).1) k ∨
  ∃ m, doubled_at LeavesState_default cmds m k.
Proof. apply run_once; [apply keyed_default|apply once_default]. Qed.


(** C3: reservations exclude each other in time, in every run of the processor: when two
    reservations were granted with a leaf in common, the first was cancelled, finalized or
    updated in between (or its identifier was given out again), unless a command before the
    second had handed the leaf in while the store had it elsewhere (the commands of C1). *)
Theorem reservations_exclude_each_other cmds i j r1 r2 ids1 ids2 k :
  (i < j)%nat →
  let es := trace_events cmds (run_processor LeavesState_default cmds).2 in
  es !! i = Some (EReserve r1 ids1) → es !! j = Some (EReserve r2 ids2) → k ∈ ids1 → k ∈ ids2 →
  (∃ m e, (i < m < j)%nat ∧ es !! m = Some e ∧ ends r1 e) ∨
  ∃ m, (m < j)%nat ∧ doubled_at LeavesState_default cmds m k.
Proof. intros Hij. by apply run_exclusive; [apply keyed_default|apply once_default|]. Qed.
End refinement.

(** ** Witnesses *)

#[local] Existing Instance simple_externals.
#[local] Existing Instance canonical_order.

(** A reservation of 2048 sats, its cancellation, and the same reservation again. *)
Definition ex_trace : list (Ambient * StoreCommand) :=
  [(ex_ambient "r0", AddLeaves wallet_3000_2048_1024);
   (ex_ambient "r1", TryReserveLeaves (ex_target 2048) true Payment 0%nat);
   (ex_ambient "r2", CancelReservation "r1");
   (ex_ambient "r3", TryReserveLeaves (ex_target 2048) true Payment 1%nat)].

Lemma reservations_exclude_each_other_witness :
  let es := trace_events ex_trace (run_processor LeavesState_default ex_trace).2 in
  ∃ k, (∃ m e, (1 < m < 3)%nat ∧ es !! m = Some e ∧ ends "r1" e) ∨
  ∃ m, (m < 3)%nat ∧ doubled_at LeavesState_default ex_trace m k.
Proof.
  eexists. eapply (reservations_exclude_each_other ex_trace 1 3 "r1" "r3");
    [lia|vm_compute; reflexivity|vm_compute; reflexivity|by left|by left].
Defined.

(** A leaf added while a reservation has it is at hand and reserved. *)
Definition ex_doubled : list (Ambient * StoreCommand) :=
  [(ex_ambient "r0", AddLeaves wallet_3000_2048_1024);
   (ex_ambient "r1", TryReserveLeaves (ex_target 2048) true Payment 0%nat);
   (ex_ambient "r2", AddLeaves wallet_3000_2048_1024)].

Example added_while_reserved :
  let st := (run_processor LeavesState_default ex_doubled).1 in
  (λ e, (λ k, bool_decide (is_Some (leaves st !! k))) <$> reserved_ids e) <$>
    leaves_reservations st !! "r1" = Some [true].
Proof. vm_compute. reflexivity. Qed.
