(* ===== verification/TreeSemaphore.v ===== *)
(** The reservation semaphore of the in-memory tree store
    ([InMemoryTreeStore::try_reserve_leaves] and the ownership of the permits in
    [crates/spark/src/tree/store.rs]): clients, the command channel and the
    processor as one transition system. *)
From S2P Require Import Prelude TreeTypes SelectHelper TreeStore TreeStoreInv TreeRefresh TreeStoreProc.

Section semaphore.
Context {ext : Externals} {ho : HashOrder}.

(** ** Clients *)

(** The answer of [timeout(acquire_owned())]. *)
Inductive AcquireOutcome : Type := Acquired (p : Permit) | TimedOut | SemaphoreClosed.

(** [try_reserve_leaves] up to sending the command. *)
Definition try_reserve_leaves_command (max_concurrent : nat) (timeout : Z)
    (o : AcquireOutcome) (target_amounts : option TargetAmounts) (exact_only : bool)
    (purpose : ReservationPurpose) : result StoreCommand TreeServiceError :=
  let* permit := match o with
                 | Acquired p => Ok p
                 | TimedOut => Err (ResourceBusy (Z.of_nat max_concurrent) timeout)
                 | SemaphoreClosed => Err ProcessorShutdown
                 end in
  Ok (TryReserveLeaves target_amounts exact_only purpose permit).

(** [send_command]: a closed channel or a dropped response is a shutdown. *)
Definition send_command {T} (sent : bool) (response : option (result T TreeServiceError))
    : result T TreeServiceError :=
  if sent then match response with Some r => r | None => Err ProcessorShutdown end
  else Err ProcessorShutdown.

(** ** Permits

    A permit is owned by the semaphore, by a client that acquired it, by a
    command in the channel or by a reservation; dropping its owner returns it. *)
Definition permits_of (m : gmap LeavesReservationId ReservationEntry) : list Permit :=
  re_permit <$> hm_values m.

Definition command_permits (c : StoreCommand) : list Permit :=
  match c with TryReserveLeaves _ _ _ p => [p] | _ => [] end.

Record System : Type := {
  sys_state : LeavesState;
  sys_free : list Permit;
  sys_acquired : list Permit;
  sys_queue : list StoreCommand
}.

Definition system_new (max_concurrent : nat) : System :=
  {| sys_state := LeavesState_default; sys_free := seq 0 max_concurrent;
     sys_acquired := []; sys_queue := [] |}.

(** The permits dropped by one iteration of the processor. *)
Definition dropped_permits (c : StoreCommand) (st st' : LeavesState) : list Permit :=
  filter (λ p, p ∉ permits_of (leaves_reservations st'))
    (command_permits c ++ permits_of (leaves_reservations st)).

Inductive system_step : System → System → Prop :=
| sys_acquire st free1 free2 acq q p :
    system_step
      {| sys_state := st; sys_free := free1 ++ p :: free2; sys_acquired := acq; sys_queue := q |}
      {| sys_state := st; sys_free := free1 ++ free2; sys_acquired := p :: acq; sys_queue := q |}
| sys_abandon st free acq1 acq2 q p :
    system_step
      {| sys_state := st; sys_free := free; sys_acquired := acq1 ++ p :: acq2; sys_queue := q |}
      {| sys_state := st; sys_free := p :: free; sys_acquired := acq1 ++ acq2; sys_queue := q |}
| sys_send_reserve st free acq1 acq2 q p c max timeout t exact_only purpose :
    try_reserve_leaves_command max timeout (Acquired p) t exact_only purpose = Ok c →
    system_step
      {| sys_state := st; sys_free := free; sys_acquired := acq1 ++ p :: acq2; sys_queue := q |}
      {| sys_state := st; sys_free := free; sys_acquired := acq1 ++ acq2; sys_queue := q ++ [c] |}
| sys_send st free acq q c :
    command_permits c = [] →
    system_step
      {| sys_state := st; sys_free := free; sys_acquired := acq; sys_queue := q |}
      {| sys_state := st; sys_free := free; sys_acquired := acq; sys_queue := q ++ [c] |}
| sys_process st free acq q c amb :
    system_step
      {| sys_state := st; sys_free := free; sys_acquired := acq; sys_queue := c :: q |}
      {| sys_state := (processor_step amb st c).1.1;
         sys_free := dropped_permits c st (processor_step amb st c).1.1 ++ free;
         sys_acquired := acq; sys_queue := q |}.

(** ** No command duplicates or forges a permit *)

Lemma permits_of_perm m : permits_of m ≡ₚ (λ kv, re_permit kv.2) <$> map_to_list m.
Proof. unfold permits_of, hm_values. rewrite <- list_fmap_compose. by rewrite hm_iter_perm. Qed.

Lemma permits_of_length m : length (permits_of m) = size m.
Proof. by rewrite permits_of_perm, length_fmap, length_map_to_list. Qed.

Lemma permits_of_insert m r e :
  m !! r = None → permits_of (<[r := e]> m) ≡ₚ re_permit e :: permits_of m.
Proof. intros Hr. rewrite !permits_of_perm, map_to_list_insert by done. done. Qed.

Lemma permits_of_delete m r e :
  m !! r = Some e → re_permit e :: permits_of (delete r m) ≡ₚ permits_of m.
Proof.
  intros Hr. rewrite <- permits_of_insert by apply lookup_delete_eq. by rewrite insert_delete_id.
Qed.

Lemma permits_of_delete_sub m r : permits_of (delete r m) ⊆+ permits_of m.
Proof.
  destruct (m !! r) as [e|] eqn:Hr; [|by rewrite delete_id].
  rewrite <- (permits_of_delete m r e Hr). by apply submseteq_cons.
Qed.

Lemma permits_of_insert_sub m r e : permits_of (<[r := e]> m) ⊆+ re_permit e :: permits_of m.
Proof.
  rewrite <- insert_delete_eq, permits_of_insert by apply lookup_delete_eq.
  apply submseteq_skip, permits_of_delete_sub.
Qed.

Lemma refresh_entries_permits (kvs : list (LeavesReservationId * ReservationEntry)) pools :
  let out := (map_accum refresh_entry pools kvs).2 in
  out.*1 = kvs.*1 ∧ (λ kv, re_permit kv.2) <$> out = (λ kv, re_permit kv.2) <$> kvs.
Proof.
  revert pools. induction kvs as [|[r e] kvs IH]; intros pools; [done|]. cbn [map_accum].
  destruct (refresh_entry pools (r, e)) as [p1 b] eqn:Hb. specialize (IH p1).
  assert (b.1 = r ∧ re_permit b.2 = re_permit e) as [Hb1 Hb2].
  { unfold refresh_entry in Hb. destruct (map_accum refresh_stored pools (re_leaves e)).
    by injection Hb as <- <-. }
  destruct (map_accum refresh_entry p1 kvs) as [p2 bs]. cbv zeta in *. cbn [snd] in *.
  destruct IH as [IH1 IH2]. by rewrite !fmap_cons, IH1, IH2, Hb1, Hb2.
Qed.

Lemma set_leaves_permits now st ls missing t :
  permits_of (leaves_reservations (process_set_leaves now st ls missing t).1)
  ≡ₚ permits_of (leaves_reservations st).
Proof.
  unfold process_set_leaves. case_match; [done|].
  match goal with |- context [map_accum refresh_entry ?p ?l] =>
    pose proof (refresh_entries_permits l p) as [Hk Hp]; destruct (map_accum refresh_entry p l)
      as [[l' m'] entries] end.
  simpl. cbn [snd] in Hk, Hp. rewrite !permits_of_perm, map_to_list_to_map, Hp.
  - by rewrite hm_iter_perm.
  - rewrite Hk. apply NoDup_hm_keys.
Qed.

Lemma reserve_internal_permits uuid st ls purpose permit pending :
  permits_of (leaves_reservations (reserve_internal uuid st ls purpose permit pending).1)
  ⊆+ permit :: permits_of (leaves_reservations st).
Proof.
  unfold reserve_internal. case_match; [by apply submseteq_cons|].
  case_match; [by apply submseteq_cons|]. destruct (take_leaves _ _) as [pool stored]. simpl.
  etrans; [apply permits_of_insert_sub|done].
Qed.

Lemma try_reserve_permits uuid st t exact_only purpose permit :
  permits_of (leaves_reservations
    (process_try_reserve_leaves uuid st t exact_only purpose permit).1)
  ⊆+ permit :: permits_of (leaves_reservations st).
Proof.
  unfold process_try_reserve_leaves.
  assert (permits_of (leaves_reservations st) ⊆+ permit :: permits_of (leaves_reservations st))
    by by apply submseteq_cons.
  repeat case_match; simpl; try done;
    match goal with H : reserve_internal ?u ?s ?l ?p ?q ?k = _ |- _ =>
      pose proof (reserve_internal_permits u s l p q k) as Hr; rewrite H in Hr; done end.
Qed.

Lemma fold_add_leaf_reservations now st ls :
  leaves_reservations (foldl (add_leaf now) st ls) = leaves_reservations st.
Proof. revert st. induction ls as [|l ls IH]; intros st; simpl; [done|]. by rewrite IH. Qed.

Lemma processor_permits amb st c :
  permits_of (leaves_reservations (processor_step amb st c).1.1)
  ⊆+ command_permits c ++ permits_of (leaves_reservations st).
Proof.
  rewrite processor_step_state. destruct c; simpl.
  - by rewrite fold_add_leaf_reservations.
  - done.
  - pose proof (set_leaves_permits (now1 amb) st leaves missing_operators_leaves
      refresh_started_at) as Hp. destruct (process_set_leaves _ _ _ _ _). simpl in *. by rewrite Hp.
  - pose proof (try_reserve_permits (new_uuid amb) st target_amounts exact_only purpose permit).
    by destruct (process_try_reserve_leaves _ _ _ _ _ _).
  - unfold process_cancel_reservation. case_match; [|done]. apply permits_of_delete_sub.
  - unfold process_finalize_reservation. repeat case_match; simpl; try done;
      apply permits_of_delete_sub.
  - unfold process_update_reservation. destruct (leaves_reservations st !! reservation_id) as [e|] eqn:He; [|done]. simpl.
    rewrite permits_of_insert by apply lookup_delete_eq. simpl. by rewrite permits_of_delete.
Qed.

(** ** Conservation *)

Lemma filter_out_submseteq (l h : list Permit) :
  NoDup l → h ⊆+ l → filter (λ p, p ∉ h) l ++ h ≡ₚ l.
Proof.
  intros Hl Hs. assert (NoDup h) as Hh.
  { apply submseteq_Permutation in Hs as [k Hk]. rewrite Hk in Hl. by apply NoDup_app in Hl as [? _]. }
  apply NoDup_Permutation; [|done|].
  - apply NoDup_app. split_and!; [by apply NoDup_filter| |done].
    intros p [? _]%list_elem_of_filter. done.
  - intros p. rewrite elem_of_app, list_elem_of_filter. split.
    + intros [[_ ?]|?]; [done|]. by eapply elem_of_submseteq.
    + intros ?. destruct (decide (p ∈ h)); [by right|by left].
Qed.

Definition all_permits (s : System) : list Permit :=
  sys_free s ++ sys_acquired s ++ mjoin (command_permits <$> sys_queue s)
  ++ permits_of (leaves_reservations (sys_state s)).

Lemma permits_conserved_step s s' :
  system_step s s' → NoDup (all_permits s) → all_permits s' ≡ₚ all_permits s.
Proof.
  unfold all_permits. destruct 1 as [| |? ? ? ? ? ? ? ? ? ? ? ? [= <-]|? ? ? ? ? Hc|]; simpl;
    intros Hnd.
  - solve_Permutation.
  - solve_Permutation.
  - rewrite fmap_app, join_app. simpl. solve_Permutation.
  - rewrite fmap_app, join_app. simpl. rewrite Hc. by rewrite !app_nil_r.
  - pose proof (filter_out_submseteq (command_permits c ++ permits_of (leaves_reservations st))
      (permits_of (leaves_reservations (processor_step amb st c).1.1))) as Hf.
    fold (dropped_permits c st (processor_step amb st c).1.1) in Hf.
    set (dropped := dropped_permits _ _ _) in *.
    set (held := permits_of (leaves_reservations (processor_step amb st c).1.1)) in *.
    trans (free ++ acq ++ mjoin (command_permits <$> q) ++ dropped ++ held);
      [solve_Permutation|]. rewrite Hf; [solve_Permutation| |apply processor_permits].
    apply NoDup_app in Hnd as (_ & _ & Hnd). apply NoDup_app in Hnd as (_ & _ & Hnd).
    eapply sublist_NoDup; [exact Hnd|]. rewrite <- app_assoc.
    apply sublist_app; [done|]. by apply sublist_inserts_l.
Qed.

(** permits are conserved: whatever clients and processor do, each of the
    [max_concurrent_reservations] permits is in exactly one place (semaphore,
    client, channel, reservation); so there are never more live reservations than
    permits, and a permit is never lost. *)
Theorem reservation_permits_conserved max s :
  rtc system_step (system_new max) s →
  all_permits s ≡ₚ seq 0 max ∧ (size (leaves_reservations (sys_state s)) ≤ max)%nat.
Proof.
  intros Hr. assert (all_permits s ≡ₚ seq 0 max) as Hp.
  { remember (system_new max) as s0 eqn:Hs0. assert (all_permits s0 ≡ₚ seq 0 max) as H0.
    { subst. unfold all_permits. simpl. unfold permits_of, hm_values.
      rewrite hm_iter_perm, map_to_list_empty. by rewrite !app_nil_r. }
    clear Hs0. induction Hr as [|s0 s1 s2 Hstep _ IH]; [done|]. apply IH.
    rewrite <- H0. apply permits_conserved_step; [done|]. rewrite H0. apply NoDup_seq. }
  split; [done|]. apply Permutation_length in Hp. revert Hp. unfold all_permits.
  rewrite length_seq, !length_app, permits_of_length. lia.
Qed.

End semaphore.

(** ** Witness *)

#[local] Existing Instance simple_externals.
#[local] Existing Instance canonical_order.

Definition ex_system : System :=
  let c := TryReserveLeaves (ex_target 2048) false Payment 0%nat in
  let st := (processor_step (ex_ambient "r1") LeavesState_default c).1.1 in
  {| sys_state := st; sys_free := dropped_permits c LeavesState_default st ++ [1%nat];
     sys_acquired := []; sys_queue := [] |}.

Lemma reservation_permits_conserved_witness :
  all_permits ex_system ≡ₚ seq 0 2 ∧
  (size (leaves_reservations (sys_state ex_system)) ≤ 2)%nat.
Proof.
  apply (reservation_permits_conserved 2 ex_system).
  eapply rtc_l; [apply (sys_acquire _ [] [1%nat] [] [] 0%nat)|].
  eapply rtc_l.
  { eapply (sys_send_reserve _ _ [] [] [] 0%nat _ 2 0 (ex_target 2048) false Payment).
    reflexivity. }
  eapply rtc_l; [apply (sys_process _ _ _ [] _ (ex_ambient "r1"))|]. apply rtc_refl.
Defined.
