(* ===== verification/TreeService.v ===== *)
(** The tree service: [SynchronousTreeService] of
    [crates/spark/src/tree/service.rs], written against the store and the network
    it is built from, and the in-memory world that implements the store part with
    the commands of other tasks interleaved. *)
From S2P Require Import Prelude TreeTypes SelectHelper TreeStore TreeStoreInv TreeRefresh TreeStoreProc TreeSemaphore.

(** The answer of [timeout(balance_rx.changed())]. *)
Inductive WaitOutcome : Type := Changed | Closed | WaitTimeout.

(** ** Collaborators

    [TreeStore] is the trait of [tree/mod.rs]; [TreeNetwork] is what the service
    calls of the operators, the timelock manager, the signer, the swap service
    and the clock, with the [Debug] texts its messages contain. *)
Class TreeStoreOps {ext : Externals} (W : Type) := {
  store_add_leaves : list TreeNode → SE W TreeServiceError ();
  store_get_leaves : SE W TreeServiceError Leaves;
  store_set_leaves : list TreeNode → list TreeNode → Z → SE W TreeServiceError ();
  store_cancel_reservation : LeavesReservationId → SE W TreeServiceError ();
  store_finalize_reservation :
    LeavesReservationId → option (list TreeNode) → SE W TreeServiceError ();
  store_try_reserve_leaves :
    option TargetAmounts → bool → ReservationPurpose → SE W TreeServiceError ReserveResult;
  store_now : SE W TreeServiceError Z;
  store_update_reservation :
    LeavesReservationId → list TreeNode → list TreeNode →
    SE W TreeServiceError LeavesReservation
}.

Class TreeNetwork {ext : Externals} (W : Type) := {
  net_query_coordinator : SE W TreeServiceError (list TreeNode);
  net_query_operators : W → W * list (result (list TreeNode) TreeServiceError);
  net_check_renew_nodes : list TreeNode → SE W ServiceError (list TreeNode);
  net_swap_leaves : list TreeNode → option (list Z) → SE W ServiceError (list TreeNode);
  net_public_key_for_node : TreeNodeId → SE W ForeignError PublicKey;
  net_combine : PublicKey → PublicKey → option PublicKey;
  net_instant : W → W * Z;
  net_wait_changed : W → W * WaitOutcome;
  debug_ServiceError : ServiceError → string;
  debug_Duration : Z → string
}.

Section service.
Context {ext : Externals} {ho : HashOrder} {W : Type} {ts : TreeStoreOps W} {tn : TreeNetwork W}.

Abbreviation M := (SE W TreeServiceError).

(** ** Thin methods *)

Definition list_leaves : M Leaves := store_get_leaves.
Definition cancel_reservation (id : LeavesReservationId) : M () := store_cancel_reservation id.
Definition finalize_reservation (id : LeavesReservationId) (new_leaves : option (list TreeNode))
    : M () := store_finalize_reservation id new_leaves.
(** [with_reserved_leaves] of [tree/select_helper.rs]: [f] over reserved leaves, and the
    reservation settled by its outcome; an error of the settlement is only logged. *)
Definition with_reserved_leaves {R E : Type} (f : SE W E R) (leaves : LeavesReservation) : SE W E R :=
  try* r := f in
  match r with
  | Ok r => try* _ := finalize_reservation (res_id leaves) None in se_ret r
  | Err e => try* _ := cancel_reservation (res_id leaves) in se_fail e
  end.

Definition get_available_balance : M Z :=
  do* ls := store_get_leaves in se_ret (balance ls).

(** ** Timelock renewal *)

Definition check_renew_nodes (nodes : list TreeNode) (error_fn : ServiceError → W → W)
    : M (list TreeNode) :=
  try* r := net_check_renew_nodes nodes in
  match r with
  | Ok nodes => se_ret nodes
  | Err e => λ w,
      (error_fn e w, Err (Generic ("Failed to check time lock: " +:+ debug_ServiceError e)))
  end.

(** The callback that keeps the nodes a partial failure did renew. *)
Definition add_partial (e : ServiceError) (w : W) : W :=
  match e with
  | PartialCheckTimelockError nodes => (store_add_leaves nodes w).1
  | _ => w
  end.

Definition insert_leaves (leaves : list TreeNode) : M (list TreeNode) :=
  do* result_nodes := check_renew_nodes leaves add_partial in
  do* _ := store_add_leaves result_nodes in
  se_ret result_nodes.

Definition renew_reservation_timelocks (reservation : LeavesReservation) : M LeavesReservation :=
  do* new_leaves :=
    check_renew_nodes (res_leaves reservation) (λ e w,
      match store_cancel_reservation (res_id reservation) w with
      | (w, Err _) => w
      | (w, Ok _) => add_partial e w
      end) in
  se_ret (LeavesReservation_new new_leaves (res_id reservation)).

(** ** Swaps *)

Definition swap_targets (target_amounts : option TargetAmounts) : option (list Z) :=
  (λ ta, match ta with
         | AmountAndFee amount_sats fee_sats =>
             [amount_sats] ++ match fee_sats with Some fee_sats => [fee_sats] | None => [] end
         | ExactDenominations denominations => denominations
         end) <$> target_amounts.

Definition swap_leaves_internal (leaves : list TreeNode) (target_amounts : option TargetAmounts)
    : M (list TreeNode) :=
  if bool_decide (leaves = []) then se_fail (Generic "no leaves to swap")
  else
    do* claimed_nodes :=
      se_map_err TSE_ServiceError (net_swap_leaves leaves (swap_targets target_amounts)) in
    check_renew_nodes claimed_nodes (λ _ w, w).

Definition reservation_matches_target (reservation : LeavesReservation)
    (target_amounts : option TargetAmounts) : bool :=
  let total_amount_sats := default 0 (total_sats <$> target_amounts) in
  ((total_amount_sats =? 0) || (LeavesReservation_sum reservation =? total_amount_sats))
  && is_ok (select_leaves_by_target_amounts (res_leaves reservation) target_amounts).

(** The leaves of the swap that the reservation does not keep. *)
Definition change_of (new_leaves reserved_leaves : list TreeNode) : list TreeNode :=
  List.filter (λ l, negb (bool_decide (tn_id l ∈ tn_id <$> reserved_leaves))) new_leaves.

Definition perform_swap_and_update_reservation (reservation : LeavesReservation)
    (target_amounts : option TargetAmounts) : M LeavesReservation :=
  try* swap_result := swap_leaves_internal (res_leaves reservation) target_amounts in
  match swap_result with
  | Err e => try* _ := store_cancel_reservation (res_id reservation) in se_fail e
  | Ok new_leaves =>
      do* target_leaves := se_lift (select_leaves_by_target_amounts new_leaves target_amounts) in
      let reserved_leaves := target_concat target_leaves in
      let change_leaves := change_of new_leaves reserved_leaves in
      try* update_result :=
        store_update_reservation (res_id reservation) reserved_leaves change_leaves in
      match update_result with
      | Ok final_reservation => se_ret final_reservation
      | Err e =>
          try* _ := store_finalize_reservation (res_id reservation) (Some new_leaves) in
          se_fail e
      end
  end.

(** ** Selection *)

Definition FIVE_SECONDS : Z := 5 * 1000000000.

Definition wait_for_pending_balance (wait_start max_wait : Z) : M () := λ w,
  let '(w, now) := net_instant w in
  let elapsed := now - wait_start in
  if max_wait <? elapsed
  then (w, Err (Generic ("Timeout waiting for pending balance after " +:+ debug_Duration elapsed)))
  else
    let '(w, o) := net_wait_changed w in
    match o with
    | Changed | WaitTimeout => (w, Ok ())
    | Closed => (w, Err (Generic "Store closed"))
    end.

(** The loop body once leaves are reserved. *)
Definition finish_selection (reservation : LeavesReservation)
    (target_amounts : option TargetAmounts) : M LeavesReservation :=
  do* reservation := renew_reservation_timelocks reservation in
  if reservation_matches_target reservation target_amounts then se_ret reservation
  else perform_swap_and_update_reservation reservation target_amounts.

(** The [loop] of [select_leaves]; [None] when the fuel runs out. *)
Fixpoint select_leaves_loop (fuel : nat) (target_amounts : option TargetAmounts)
    (purpose : ReservationPurpose) (max_wait wait_start : Z) (w : W)
    : W * option (result LeavesReservation TreeServiceError) :=
  match fuel with
  | O => (w, None)
  | S fuel =>
      match store_try_reserve_leaves target_amounts false purpose w with
      | (w, Err e) => (w, Some (Err e))
      | (w, Ok ReserveInsufficientFunds) => (w, Some (Err InsufficientFunds))
      | (w, Ok (WaitForPending _ _ _)) =>
          if max_wait =? 0 then (w, Some (Err InsufficientFunds))
          else match wait_for_pending_balance wait_start max_wait w with
               | (w, Err e) => (w, Some (Err e))
               | (w, Ok _) =>
                   select_leaves_loop fuel target_amounts purpose max_wait wait_start w
               end
      | (w, Ok (Success reservation)) =>
          let '(w, r) := finish_selection reservation target_amounts w in (w, Some r)
      end
  end.

Definition select_leaves (fuel : nat) (target_amounts : option TargetAmounts)
    (purpose : ReservationPurpose) (options : SelectLeavesOptions) (w : W)
    : W * option (result LeavesReservation TreeServiceError) :=
  let '(w, wait_start) := net_instant w in
  select_leaves_loop fuel target_amounts purpose (max_wait_for_pending options) wait_start w.

(** ** Refresh *)

(** Whether an operator disagrees with the coordinator on a leaf. *)
Definition operator_disagrees (operator_leaves : list TreeNode) (leaf : TreeNode) : bool :=
  match List.find (λ l, bool_decide (tn_id l = tn_id leaf)) operator_leaves with
  | Some operator_leaf =>
      bool_decide (status operator_leaf ≠ status leaf)
      || bool_decide (keyshare_public_key (signing_keyshare operator_leaf)
                      ≠ keyshare_public_key (signing_keyshare leaf))
      || bool_decide (node_tx operator_leaf ≠ node_tx leaf)
      || bool_decide (refund_tx operator_leaf ≠ refund_tx leaf)
  | None => true
  end.

Definition missing_operator_leaves_map (operators : list (list TreeNode))
    (coordinator_leaves : list TreeNode) : gmap TreeNodeId TreeNode :=
  foldl (λ m operator_leaves,
    foldl (λ m leaf, if operator_disagrees operator_leaves leaf
                     then <[tn_id leaf := leaf]> m else m) m coordinator_leaves)
    ∅ operators.

(** The loop that collects the leaves that are not available or whose verifying
    key is not the sum of the user's and the operators' keys. *)
Fixpoint ignored_leaves_loop (coordinator_leaves : list TreeNode)
    (ignored : gmap TreeNodeId TreeNode) : M (gmap TreeNodeId TreeNode) :=
  match coordinator_leaves with
  | [] => se_ret ignored
  | leaf :: rest =>
      if negb (bool_decide (status leaf = Available))
      then ignored_leaves_loop rest (<[tn_id leaf := leaf]> ignored)
      else
        do* our_node_pubkey := se_map_err SignerError (net_public_key_for_node (tn_id leaf)) in
        do* combined_pubkey :=
          se_lift (ok_or (net_combine our_node_pubkey
                            (keyshare_public_key (signing_keyshare leaf)))
                         (Generic "Failed to combine public keys")) in
        ignored_leaves_loop rest
          (if bool_decide (combined_pubkey ≠ verifying_public_key leaf)
           then <[tn_id leaf := leaf]> ignored else ignored)
  end.

Definition not_in (m : gmap TreeNodeId TreeNode) (leaf : TreeNode) : bool :=
  bool_decide (m !! tn_id leaf = None).

(** The first error among the operators' answers, or all of them. *)
Fixpoint collect_operators (rs : list (result (list TreeNode) TreeServiceError))
    : result (list (list TreeNode)) TreeServiceError :=
  match rs with
  | [] => Ok []
  | r :: rs => let* leaves := r in let* rest := collect_operators rs in Ok (leaves :: rest)
  end.

Definition refresh_leaves : M () :=
  do* refresh_started_at := store_now in
  try* coordinator_leaves_res := net_query_coordinator in
  do* operator_results := se_total net_query_operators in
  do* coordinator_leaves := se_lift coordinator_leaves_res in
  do* operator_leaves_vec := se_lift (collect_operators operator_results) in
  let missing_map := missing_operator_leaves_map operator_leaves_vec coordinator_leaves in
  do* ignored := ignored_leaves_loop coordinator_leaves ∅ in
  let new_leaves :=
    List.filter (λ leaf, not_in missing_map leaf && not_in ignored leaf) coordinator_leaves in
  let missing_operator_leaves := List.filter (not_in ignored) (hm_values missing_map) in
  do* refreshed_leaves :=
    check_renew_nodes new_leaves (λ e w,
      match e with
      | PartialCheckTimelockError nodes =>
          (store_set_leaves nodes missing_operator_leaves refresh_started_at w).1
      | _ => w
      end) in
  do* _ := store_set_leaves refreshed_leaves missing_operator_leaves refresh_started_at in
  se_ret ().

(** ** Properties against the interface *)

(** What the service relies on of [update_reservation]. *)
Definition update_returns_given : Prop :=
  ∀ id reserved change w w' r,
    store_update_reservation id reserved change w = (w', Ok r) → res_leaves r = reserved.

(** The wait loop makes progress: time passes while it waits. *)
Definition wait_advances (clock : W → Z) : Prop :=
  (∀ w, (net_instant w).2 = clock w ∧ clock w ≤ clock (net_instant w).1) ∧
  (∀ w, clock w + 1 ≤ clock (net_wait_changed w).1) ∧
  (∀ t e p w, clock w ≤ clock (store_try_reserve_leaves t e p w).1).

Lemma reservation_matches_target_sum r t :
  reservation_matches_target r (Some t) = true → 0 < total_sats t →
  LeavesReservation_sum r = total_sats t.
Proof.
  unfold reservation_matches_target. simpl. unfold id.
  rewrite andb_true_iff, orb_true_iff, !Z.eqb_eq. lia.
Qed.

Lemma selected_sum leaves t r :
  Forall node_ok leaves → target_ok t →
  select_leaves_by_target_amounts leaves (Some t) = Ok r →
  sum_u 64 (value <$> target_concat r) = total_sats t.
Proof.
  intros Hok Ht Hsel. destruct (select_sound leaves (Some t) r Hok) as [Hm _]; [by intros ? [= <-]|done|].
  unfold target_concat. rewrite fmap_app, sum_u_wrap, sumZ_app by done. destruct t as [a f|ds]; simpl in *.
  - unfold wadd. f_equal. destruct f as [f|]; simpl in *.
    + destruct Hm as (<- & fl & -> & <-). done.
    + destruct Hm as (<- & ->). done.
  - destruct Hm as (<- & ->). simpl. rewrite sum_u_wrap by done. f_equal.
    change (sumZ (value <$> [])) with 0. lia.
Qed.

(** The leaves the network hands over have [u64] values. *)
Definition network_values_ok : Prop :=
  ∀ nodes w w' nodes', net_check_renew_nodes nodes w = (w', Ok nodes') → Forall node_ok nodes'.

Lemma check_renew_nodes_ok nodes f w w' ns :
  check_renew_nodes nodes f w = (w', Ok ns) → net_check_renew_nodes nodes w = (w', Ok ns).
Proof.
  unfold check_renew_nodes, se_try. destruct (net_check_renew_nodes nodes w) as [w1 [ns1|e]];
    simpl; [|done]. by intros [= <- <-].
Qed.

Lemma finish_selection_sum r t w w' r' :
  update_returns_given → network_values_ok → target_ok t → 0 < total_sats t →
  finish_selection r (Some t) w = (w', Ok r') → LeavesReservation_sum r' = total_sats t.
Proof.
  intros Hup Hnet Ht Hpos. unfold finish_selection. rewrite se_bind_ok.
  intros (w1 & r1 & _ & Hfin). destruct (reservation_matches_target r1 (Some t)) eqn:Hm.
  { injection Hfin as <- <-. by apply reservation_matches_target_sum. }
  unfold perform_swap_and_update_reservation, se_try in Hfin.
  destruct (swap_leaves_internal (res_leaves r1) (Some t) w1) as [w2 [ns|e]] eqn:Hswap;
    [|by destruct (store_cancel_reservation _ _)].
  apply se_bind_ok in Hfin as (w3 & tl & Hsel & Hfin). injection Hsel as <- Hsel.
  destruct (store_update_reservation _ _ _ w2) as [w4 [fr|e]] eqn:Hu;
    [|by destruct (store_finalize_reservation _ _ _)]. injection Hfin as <- <-.
  unfold LeavesReservation_sum. rewrite (Hup _ _ _ _ _ _ Hu). eapply selected_sum; [|done|done].
  unfold swap_leaves_internal in Hswap. case_bool_decide; [done|].
  apply se_bind_ok in Hswap as (w5 & cl & _ & Hcr). eapply Hnet. by apply check_renew_nodes_ok in Hcr.
Qed.

(** C11: a selection that succeeds returns a reservation worth exactly the target,
    whether the leaves matched at once or had to be swapped, after any number of
    waits. *)
Theorem select_leaves_exact fuel t purpose options w w' r :
  update_returns_given → network_values_ok → target_ok t → 0 < total_sats t →
  select_leaves fuel (Some t) purpose options w = (w', Some (Ok r)) →
  LeavesReservation_sum r = total_sats t.
Proof.
  intros Hup Hnet Ht Hpos. unfold select_leaves. destruct (net_instant w) as [w0 start].
  generalize (max_wait_for_pending options) as mw. intros mw. revert w0.
  induction fuel as [|fuel IH]; intros w0; simpl; [done|].
  destruct (store_try_reserve_leaves _ _ _ w0) as [w1 [[res| |n a p]|e]]; try done.
  - destruct (finish_selection res (Some t) w1) as [w2 fr] eqn:Hf. intros [= -> ->].
    by eapply finish_selection_sum.
  - case_match; [done|]. destruct (wait_for_pending_balance _ _ _) as [w2 [[]|e]]; [apply IH|done].
Qed.

(** the wait loop terminates: when time passes while it waits, a fuel of one
    attempt per nanosecond of the maximal wait always produces an answer. *)
Theorem select_leaves_terminates clock t purpose options w :
  wait_advances clock → 0 ≤ max_wait_for_pending options →
  ∃ r, (select_leaves (Z.to_nat (max_wait_for_pending options) + 2) t purpose options w).2 = Some r.
Proof.
  intros (Hinst & Hwait & Hres). unfold select_leaves.
  destruct (net_instant w) as [w0 start] eqn:Hw. generalize (max_wait_for_pending options).
  intros mw Hmw. destruct (Hinst w) as [Hs Hle]. rewrite Hw in Hs, Hle. simpl in *.
  assert (∀ fuel w0, start ≤ clock w0 → mw + 2 - (clock w0 - start) ≤ Z.of_nat fuel → (0 < fuel)%nat →
    ∃ r, (select_leaves_loop fuel t purpose mw start w0).2 = Some r) as Hloop.
  { clear w0 Hw Hle. induction fuel as [|fuel IH]; intros w0 Hle Hf Hpos; [lia|]. simpl.
    pose proof (Hres t false purpose w0) as Hr.
    destruct (store_try_reserve_leaves _ _ _ w0) as [w1 [[res| |n a p]|e]]; try by eexists.
    { destruct (finish_selection res t w1). by eexists. }
    case_match; [by eexists|]. unfold wait_for_pending_balance.
    destruct (Hinst w1) as [Hi1 Hi2]. destruct (net_instant w1) as [w2 now]. simpl in *.
    destruct (Z.ltb_spec mw (now - start)); [by eexists|].
    specialize (Hwait w2). destruct (net_wait_changed w2) as [w3 []]; simpl in *;
      try (by eexists); apply IH; lia. }
  apply Hloop; lia.
Qed.

(** ** Refresh *)


(** The coordinator's leaves some operator disagrees on, operator by operator. *)
Definition disagreements (operators : list (list TreeNode)) (coordinator : list TreeNode)
    : list TreeNode :=
  mjoin ((λ o, List.filter (operator_disagrees o) coordinator) <$> operators).

Lemma missing_map_eq operators coordinator :
  missing_operator_leaves_map operators coordinator =
  insert_all tn_id id (disagreements operators coordinator) ∅.
Proof.
  unfold missing_operator_leaves_map, disagreements.
  generalize (∅ : gmap TreeNodeId TreeNode).
  induction operators as [|o os IH]; intros m; [done|]. cbn [foldl]. rewrite IH.
  simpl. rewrite insert_all_app. f_equal. apply (foldl_insert_if (operator_disagrees o) tn_id id).
Qed.

Lemma elem_of_disagreements operators coordinator l :
  l ∈ disagreements operators coordinator ↔
  l ∈ coordinator ∧ ∃ o, o ∈ operators ∧ operator_disagrees o l = true.
Proof.
  unfold disagreements. rewrite list_elem_of_join. split.
  - intros (ls & Hl & (o & -> & Ho)%list_elem_of_fmap). apply elem_of_bfilter in Hl as [? ?]. eauto.
  - intros [Hl (o & Ho & Hd)]. exists (List.filter (operator_disagrees o) coordinator).
    split; [by apply elem_of_bfilter|]. apply list_elem_of_fmap. by exists o.
Qed.

(** What the refresh hands to the store. *)
Definition refresh_new (operators : list (list TreeNode)) (coordinator : list TreeNode)
    (ignored : gmap TreeNodeId TreeNode) : list TreeNode :=
  List.filter (λ leaf, not_in (missing_operator_leaves_map operators coordinator) leaf
                       && not_in ignored leaf) coordinator.

Definition refresh_missing (operators : list (list TreeNode)) (coordinator : list TreeNode)
    (ignored : gmap TreeNodeId TreeNode) : list TreeNode :=
  List.filter (not_in ignored) (hm_values (missing_operator_leaves_map operators coordinator)).

Lemma elem_of_refresh_new operators coordinator ignored l :
  l ∈ refresh_new operators coordinator ignored ↔
  l ∈ coordinator ∧ tn_id l ∉ tn_id <$> disagreements operators coordinator ∧
  ignored !! tn_id l = None.
Proof.
  unfold refresh_new, not_in. rewrite elem_of_bfilter, andb_true_iff, !bool_decide_eq_true.
  by rewrite missing_map_eq, insert_all_empty_None.
Qed.

Lemma elem_of_refresh_missing operators coordinator ignored l :
  l ∈ refresh_missing operators coordinator ignored →
  l ∈ disagreements operators coordinator ∧ ignored !! tn_id l = None.
Proof.
  unfold refresh_missing, not_in. rewrite elem_of_bfilter, bool_decide_eq_true, elem_of_hm_values.
  intros [[k Hk] ?]. rewrite missing_map_eq in Hk.
  apply insert_all_empty_Some in Hk as (x & Hx & _ & ->). done.
Qed.

Lemma refresh_lists_disjoint operators coordinator ignored :
  reports_disjoint (refresh_new operators coordinator ignored)
    (refresh_missing operators coordinator ignored).
Proof.
  intros k (l & -> & (_ & Hl & _)%elem_of_refresh_new)%list_elem_of_fmap.
  intros (l' & Hid & [Hl' _]%elem_of_refresh_missing)%list_elem_of_fmap.
  apply Hl. rewrite Hid. by apply list_elem_of_fmap_2.
Qed.

(** A leaf the operators let the wallet use: it is available and its verifying
    key is the sum of the user's and the operators' keys. *)
Definition usable (key_of : TreeNodeId → PublicKey) (l : TreeNode) : Prop :=
  status l = Available ∧
  net_combine (key_of (tn_id l)) (keyshare_public_key (signing_keyshare l))
  = Some (verifying_public_key l).

(** The signer derives one key per node. *)
Definition signer_keys (key_of : TreeNodeId → PublicKey) : Prop :=
  ∀ k w w' pk, net_public_key_for_node k w = (w', Ok pk) → pk = key_of k.

Lemma ignored_leaves_loop_spec key_of cs ig w w' ig' :
  signer_keys key_of → ignored_leaves_loop cs ig w = (w', Ok ig') →
  ∀ k, ig' !! k = None ↔ ig !! k = None ∧ (∀ l, l ∈ cs → tn_id l = k → usable key_of l).
Proof.
  intros Hkey. revert ig w. induction cs as [|c cs IH]; intros ig w; cbn [ignored_leaves_loop].
  { intros [= <- <-] k. split; [intros ?; split; [done|]|tauto]. intros l Hl.
    by apply elem_of_nil in Hl. }
  assert (∀ (ig1 : gmap TreeNodeId TreeNode),
    (∀ k, ig1 !! k = None ↔ ig !! k = None ∧ (tn_id c = k → usable key_of c)) →
    (∀ k, ig' !! k = None ↔
       ig1 !! k = None ∧ (∀ l, l ∈ cs → tn_id l = k → usable key_of l)) →
    ∀ k, ig' !! k = None ↔
       ig !! k = None ∧ (∀ l, l ∈ c :: cs → tn_id l = k → usable key_of l)) as Hstep.
  { intros ig1 H1 H2 k. rewrite H2, H1. setoid_rewrite elem_of_cons. naive_solver. }
  assert (¬ usable key_of c → ∀ k, <[tn_id c := c]> ig !! k = None ↔
    ig !! k = None ∧ (tn_id c = k → usable key_of c)) as Hins.
  { intros Hu k. rewrite lookup_insert_None. naive_solver. }
  case_bool_decide as Hst; simpl.
  - intros Hloop. rewrite se_bind_ok in Hloop. destruct Hloop as (w1 & pk & Hpk & Hloop).
    apply se_map_err_ok, Hkey in Hpk. subst pk.
    rewrite se_bind_ok in Hloop. destruct Hloop as (w2 & pk2 & Hpk2 & Hloop).
    injection Hpk2 as <- Hpk2%ok_or_ok. eapply Hstep; [|by eapply IH].
    intros k. case_bool_decide as Hv.
    + apply Hins. intros [_ Hu]. congruence.
    + unfold usable. rewrite Hpk2. naive_solver.
  - intros Hloop. eapply Hstep; [|by eapply IH]. apply Hins. by intros [? _].
Qed.


(** Renewing a timelock replaces transactions, never the identity of a node. *)
Definition renew_keeps_ids : Prop :=
  ∀ nodes w w' nodes', net_check_renew_nodes nodes w = (w', Ok nodes') →
    tn_id <$> nodes' = tn_id <$> nodes.

(** a successful refresh reads the clock before it queries the operators and
    gives the store disjoint lists: as available, exactly the coordinator's leaves
    that every operator confirms and that are usable (available, verifying key
    equal to the combined keys); as missing, only usable leaves of the coordinator
    that some operator does not confirm. *)
Theorem refresh_leaves_classifies key_of w w' :
  signer_keys key_of → renew_keeps_ids → refresh_leaves w = (w', Ok ()) →
  ∃ t coordinator (operators : list (list TreeNode)) new refreshed missing w0 w1 w2,
    store_now w = (w0, Ok t) ∧ (net_query_coordinator w0).2 = Ok coordinator ∧
    net_check_renew_nodes new w1 = (w2, Ok refreshed) ∧
    store_set_leaves refreshed missing t w2 = (w', Ok ()) ∧
    reports_disjoint refreshed missing ∧
    (∀ l, l ∈ new ↔ l ∈ coordinator ∧
       ∀ l', l' ∈ coordinator → tn_id l' = tn_id l → usable key_of l' ∧
         ∀ o, o ∈ operators → operator_disagrees o l' = false) ∧
    (∀ l, l ∈ missing → l ∈ coordinator ∧ usable key_of l ∧
       ∃ o, o ∈ operators ∧ operator_disagrees o l = true).
Proof.
  intros Hkey Hids. unfold refresh_leaves. rewrite se_bind_ok. intros (w0 & t & Hnow & H).
  unfold se_try in H. destruct (net_query_coordinator w0) as [wc cr] eqn:Hc.
  rewrite se_bind_ok in H. destruct H as (wo & ors & _ & H).
  rewrite se_bind_ok in H. destruct H as (wl & coordinator & Hcl & H). injection Hcl as <- ->.
  rewrite se_bind_ok in H. destruct H as (wl & operators & Hol & H). injection Hol as <- _.
  rewrite se_bind_ok in H. destruct H as (wi & ignored & Hig & H).
  rewrite se_bind_ok in H. destruct H as (w2 & refreshed & Hr & H).
  rewrite se_bind_ok in H. destruct H as (w3 & [] & Hset & [= <-]).
  apply check_renew_nodes_ok in Hr.
  pose proof (ignored_leaves_loop_spec key_of _ _ _ _ _ Hkey Hig) as Hign.
  setoid_rewrite lookup_empty in Hign.
  exists t, coordinator, operators, (refresh_new operators coordinator ignored), refreshed,
    (refresh_missing operators coordinator ignored), w0, wi, w2.
  split_and!; [done|by rewrite Hc|done|done|..].
  - intros k Hk. rewrite (Hids _ _ _ _ Hr) in Hk. by eapply refresh_lists_disjoint.
  - intros l. rewrite elem_of_refresh_new, Hign. split.
    + intros (Hl & Hd & _ & Hu). split; [done|]. intros l' Hl' Hid. split; [by apply Hu|].
      intros o Ho. apply not_true_iff_false. intros Hdis. apply Hd. rewrite <- Hid.
      apply list_elem_of_fmap_2, elem_of_disagreements. eauto.
    + intros [Hl Hall]. split_and!; [done| |done|].
      * intros (l' & Hid & [Hl' (o & Ho & Hd)]%elem_of_disagreements)%list_elem_of_fmap.
        destruct (Hall l' Hl' (eq_sym Hid)) as [_ Hn]. rewrite Hn in Hd; done.
      * intros l' Hl' Hid. by apply Hall.
  - intros l [[Hl Hd]%elem_of_disagreements Hn]%elem_of_refresh_missing. split; [done|].
    apply Hign in Hn as [_ Hu]. split; [by apply Hu|done].
Qed.

End service.

(** ** The in-memory world

    The store behind its command channel, with the commands that other tasks
    send interleaved: before each call of the service, one batch of foreign
    commands is processed. *)
Section memory.
Context {ext : Externals} {ho : HashOrder} {N : Type}.

Record MemWorld : Type := {
  mw_store : LeavesState;
  mw_others : list (list (Ambient * StoreCommand));
  mw_ambient : list Ambient;
  mw_permits : list AcquireOutcome;
  mw_net : N
}.

Definition no_ambient : Ambient := {| now1 := 0; now2 := 0; new_uuid := "" |}.

(** The store and the world after the next batch of foreign commands. *)
Definition others_first (w : MemWorld) : MemWorld :=
  {| mw_store := (run_processor (mw_store w) (default [] (head (mw_others w)))).1;
     mw_others := tail (mw_others w); mw_ambient := mw_ambient w;
     mw_permits := mw_permits w; mw_net := mw_net w |}.

Definition mem_command (c : StoreCommand) (w : MemWorld) : MemWorld * Response :=
  let w := others_first w in
  let '(st, r, _) := processor_step (default no_ambient (head (mw_ambient w))) (mw_store w) c in
  ({| mw_store := st; mw_others := mw_others w; mw_ambient := tail (mw_ambient w);
      mw_permits := mw_permits w; mw_net := mw_net w |}, r).

(** The response of the command that was sent has the type its sender expects. *)
Definition mem_unit (c : StoreCommand) : SE MemWorld TreeServiceError () := λ w,
  let '(w, r) := mem_command c w in
  (w, match r with RUnit r => r | _ => Err ProcessorShutdown end).

Definition mem_try_reserve (t : option TargetAmounts) (exact_only : bool)
    (purpose : ReservationPurpose) : SE MemWorld TreeServiceError ReserveResult := λ w,
  let o := default SemaphoreClosed (head (mw_permits w)) in
  let w := {| mw_store := mw_store w; mw_others := mw_others w; mw_ambient := mw_ambient w;
              mw_permits := tail (mw_permits w); mw_net := mw_net w |} in
  match try_reserve_leaves_command DEFAULT_MAX_CONCURRENT_RESERVATIONS
          DEFAULT_RESERVATION_TIMEOUT o t exact_only purpose with
  | Err e => (w, Err e)
  | Ok c =>
      let '(w, r) := mem_command c w in
      (w, match r with RReserve r => r | _ => Err ProcessorShutdown end)
  end.

#[export] Instance mem_store_ops : TreeStoreOps MemWorld := {|
  store_add_leaves ls := mem_unit (AddLeaves ls);
  store_get_leaves := λ w,
    let '(w, r) := mem_command GetLeaves w in
    (w, match r with RLeaves r => r | _ => Err ProcessorShutdown end);
  store_set_leaves ls missing t := mem_unit (SetLeaves ls missing t);
  store_cancel_reservation id := mem_unit (CancelReservation id);
  store_finalize_reservation id new_leaves := mem_unit (FinalizeReservation id new_leaves);
  store_try_reserve_leaves := mem_try_reserve;
  store_now := λ w, (w, Ok (now1 (default no_ambient (head (mw_ambient w)))));
  store_update_reservation id reserved change := λ w,
    let '(w, r) := mem_command (UpdateReservation id reserved change) w in
    (w, match r with RUpdate r => r | _ => Err ProcessorShutdown end)
|}.

Lemma mem_update_returns_given : update_returns_given (W := MemWorld).
Proof.
  intros id reserved change w w' r. simpl. unfold mem_command, processor_step. simpl.
  unfold process_update_reservation. set (st := (run_processor _ _).1).
  destruct (leaves_reservations st !! id); [|done]. intros [= <- <-]. simpl.
  rewrite <- list_fmap_compose. by rewrite list_fmap_id.
Qed.

Lemma cancel_drops st id : leaves_reservations (process_cancel_reservation st id) !! id = None.
Proof.
  unfold process_cancel_reservation. case_match eqn:He; [|done]. simpl. apply lookup_delete_eq.
Qed.

Lemma finalize_drops now now' st id ls :
  leaves_reservations (process_finalize_reservation now now' st id ls) !! id = None.
Proof.
  unfold process_finalize_reservation.
  destruct (leaves_reservations st !! id) eqn:He; repeat case_match; simpl; try done;
    apply lookup_delete_eq.
Qed.

Lemma mem_cancel_drops id w :
  leaves_reservations (mw_store (store_cancel_reservation id w).1) !! id = None.
Proof. exact (cancel_drops _ _). Qed.

Lemma mem_finalize_drops id ls w :
  leaves_reservations (mw_store (store_finalize_reservation id ls w).1) !! id = None.
Proof. exact (finalize_drops _ _ _ _ _). Qed.

Lemma mem_update_holds id reserved change w w' r :
  store_update_reservation id reserved change w = (w', Ok r) →
  ∃ e, leaves_reservations (mw_store w') !! id = Some e ∧
       sl_node <$> re_leaves e = res_leaves r ∧ pending_change_amount e = 0.
Proof.
  simpl. unfold mem_command, processor_step. simpl. unfold process_update_reservation.
  set (st := (run_processor _ _).1). destruct (leaves_reservations st !! id); [|done].
  intros [= <- <-]. eexists. split; [apply lookup_insert_eq|]. done.
Qed.

(** the outcome of [with_reserved_leaves] is the one of its body, and the reservation is gone
    whatever it is. *)
Theorem with_reserved_leaves_settles {R E : Type} (f : SE MemWorld E R) reservation w :
  let '(w', r) := with_reserved_leaves f reservation w in
  r = (f w).2 ∧ leaves_reservations (mw_store w') !! res_id reservation = None.
Proof.
  unfold with_reserved_leaves, se_try. destruct (f w) as [w1 [a|e]].
  - pose proof (mem_finalize_drops (res_id reservation) None w1) as H.
    unfold finalize_reservation. by destruct (store_finalize_reservation _ _ w1).
  - pose proof (mem_cancel_drops (res_id reservation) w1) as H.
    unfold cancel_reservation. by destruct (store_cancel_reservation _ w1).
Qed.

Context {net : TreeNetwork MemWorld}.

(** C40: what a swap leaves behind, whatever other tasks do in between.  On success
    the reservation holds exactly the leaves it returns.  On failure the
    reservation is gone, and with it its permit, except in one case: the swap
    succeeded and the selection on its output failed; then nothing is called on
    the store, so the reservation is still there if it was. *)
Theorem perform_swap_outcome r t w :
  let '(w', res) := perform_swap_and_update_reservation r t w in
  match res with
  | Ok r' =>
      ∃ e, leaves_reservations (mw_store w') !! res_id r = Some e ∧
           sl_node <$> re_leaves e = res_leaves r' ∧ pending_change_amount e = 0
  | Err e =>
      leaves_reservations (mw_store w') !! res_id r = None ∨
      ∃ ls, swap_leaves_internal (res_leaves r) t w = (w', Ok ls) ∧
            select_leaves_by_target_amounts ls t = Err e
  end.
Proof.
  unfold perform_swap_and_update_reservation, se_try.
  destruct (swap_leaves_internal (res_leaves r) t w) as [w1 [ls|e]] eqn:Hs.
  - unfold se_bind, se_lift. destruct (select_leaves_by_target_amounts ls t) as [tl|e] eqn:Hsel;
      [|right; by exists ls].
    destruct (store_update_reservation (res_id r) _ _ w1) as [w2 [r'|e]] eqn:Hu.
    + by eapply mem_update_holds.
    + pose proof (mem_finalize_drops (res_id r) (Some ls) w2) as Hf.
      destruct (store_finalize_reservation _ _ w2). by left.
  - pose proof (mem_cancel_drops (res_id r) w1) as Hc.
    destruct (store_cancel_reservation _ w1). by left.
Qed.

End memory.

(** ** Witnesses *)

#[local] Existing Instance simple_externals.
#[local] Existing Instance canonical_order.

(** A network with a clock: the coordinator reports the example wallet, one of
    two operators misses leaf "c", swaps return what [out] says. *)
Definition ex_network (out : list TreeNode) : TreeNetwork (MemWorld (N := Z)) := {|
  net_query_coordinator w := (w, Ok wallet_3000_2048_1024);
  net_query_operators w :=
    (w, [Ok wallet_3000_2048_1024; Ok (take 2 wallet_3000_2048_1024)]);
  net_check_renew_nodes nodes w :=
    (w, if bool_decide (Forall node_ok nodes) then Ok nodes
        else Err (ValidationError "value out of range"));
  net_swap_leaves _ _ w := (w, Ok out);
  net_public_key_for_node _ w := (w, Ok (3 : @PublicKey simple_externals));
  net_combine a b := Some ((a : Z) + (b : Z) : @PublicKey simple_externals);
  net_instant w := (w, mw_net w);
  net_wait_changed w :=
    ({| mw_store := mw_store w; mw_others := mw_others w; mw_ambient := mw_ambient w;
        mw_permits := mw_permits w; mw_net := mw_net w + 1 |}, Changed);
  debug_ServiceError _ := "ServiceError";
  debug_Duration _ := "duration"
|}.

Definition ex_world : MemWorld (N := Z) :=
  {| mw_store := ex_wallet; mw_others := []; mw_ambient := [ex_ambient "r1"];
     mw_permits := [Acquired 0%nat]; mw_net := 0 |}.

Definition ex_swap_out : list TreeNode :=
  [example_leaf "x" 2000 Available; example_leaf "y" 1000 Available].

Lemma ex_values_ok out : network_values_ok (tn := ex_network out).
Proof.
  intros nodes w w' nodes'. simpl. case_bool_decide; [|done]. by intros [= <- <-].
Defined.

Lemma select_leaves_exact_witness :
  ∃ w' r,
    select_leaves (tn := ex_network ex_swap_out) 1 (ex_target 2000) Payment
      SelectLeavesOptions_default ex_world = (w', Some (Ok r)) ∧
    LeavesReservation_sum r = 2000.
Proof.
  eexists _, _. split.
  - vm_compute. reflexivity.
  - eapply (select_leaves_exact (tn := ex_network ex_swap_out) 1 (AmountAndFee 2000 None) Payment
             SelectLeavesOptions_default ex_world).
    + exact mem_update_returns_given.
    + apply ex_values_ok.
    + compute_done.
    + by vm_compute.
    + vm_compute. reflexivity.
Defined.

Lemma select_leaves_terminates_witness :
  ∃ r, (select_leaves (tn := ex_network []) (Z.to_nat 3 + 2) (ex_target 100000) Payment
          {| max_wait_for_pending := 3 |} ex_world).2 = Some r.
Proof.
  apply (select_leaves_terminates (tn := ex_network []) mw_net (ex_target 100000) Payment
           {| max_wait_for_pending := 3 |} ex_world); [|done].
  split_and!; intros; simpl; [done|lia|]. unfold mem_try_reserve.
  destruct (default _ _); simpl; try lia. unfold mem_command.
  by destruct (processor_step _ _ _) as [[? ?] ?].
Defined.

Lemma refresh_leaves_classifies_witness :
  ∃ w', refresh_leaves (tn := ex_network []) ex_world = (w', Ok ()) ∧
  ∃ t coordinator (operators : list (list TreeNode)) new refreshed missing w0 w1 w2,
    store_now ex_world = (w0, Ok t) ∧
    (net_query_coordinator (TreeNetwork := ex_network []) w0).2 = Ok coordinator ∧
    net_check_renew_nodes (TreeNetwork := ex_network []) new w1 = (w2, Ok refreshed) ∧
    store_set_leaves refreshed missing t w2 = (w', Ok ()) ∧
    reports_disjoint refreshed missing ∧
    (∀ l, l ∈ new ↔ l ∈ coordinator ∧
       ∀ l', l' ∈ coordinator → tn_id l' = tn_id l →
         usable (tn := ex_network []) (λ _, 3) l' ∧
         ∀ o, o ∈ operators → operator_disagrees o l' = false) ∧
    (∀ l, l ∈ missing → l ∈ coordinator ∧ usable (tn := ex_network []) (λ _, 3) l ∧
       ∃ o, o ∈ operators ∧ operator_disagrees o l = true).
Proof.
  eexists. split; [vm_compute; reflexivity|].
  eapply (refresh_leaves_classifies (tn := ex_network []) (λ _, 3) ex_world).
  - intros k w w' pk. simpl. by intros [= _ <-].
  - intros nodes w w' nodes'. simpl. case_bool_decide; [|done]. by intros [= <- <-].
  - vm_compute. reflexivity.
Defined.

(** A swap whose output does not match the target leaves the reservation in the
    store: the error leaves the function before any call that would drop it. *)
Lemma swap_selection_failure_keeps_reservation :
  let w := {| mw_store := ex_reserved.1; mw_others := []; mw_ambient := [];
              mw_permits := []; mw_net := 0 |} in
  let '(w', r) :=
    perform_swap_and_update_reservation (tn := ex_network [example_leaf "z" 3000 Available])
      ex_reservation (ex_target 2000) w in
  is_ok r = false ∧ is_Some (leaves_reservations (mw_store w') !! res_id ex_reservation).
Proof. vm_compute. split; [reflexivity|]. eexists. reflexivity. Qed.
