(* ===== verification/TokenStore.v ===== *)
(** The token outputs and their in-memory store:
    [crates/spark/src/token/mod.rs], [token/error.rs] and
    [token/store/mod.rs].  Each method runs under the store's mutex, so a method is
    a function of the state; clock readings and fresh identifiers are arguments. *)
From S2P Require Import Prelude.

Section token_store.
Context {PublicKey ForeignError : Type} `{EqDecision PublicKey}.

(** ** Data *)

Inductive TokenOutputServiceError : Type :=
| InsufficientFunds
| RpcError (e : ForeignError)
| SignerError (e : ForeignError)
| ServiceError (e : ForeignError)
| Generic (s : string).

Inductive GetTokenOutputsFilter : Type :=
| Identifier (id : string)
| IssuerPublicKey (pk : PublicKey).

Record TokenMetadata : Type := {
  identifier : string;
  issuer_public_key : PublicKey;
  name : string;
  ticker : string;
  decimals : Z;
  max_supply : Z;
  is_freezable : bool;
  creation_entity_public_key : option PublicKey
}.

Record TokenOutput : Type := {
  to_id : string;
  owner_public_key : PublicKey;
  revocation_commitment : string;
  withdraw_bond_sats : Z;
  withdraw_relative_block_locktime : Z;
  token_public_key : option PublicKey;
  token_identifier : string;
  token_amount : Z
}.

Record TokenOutputWithPrevOut : Type := {
  output : TokenOutput;
  prev_tx_hash : string;
  prev_tx_vout : Z
}.

Record TokenOutputs : Type := {
  tos_metadata : TokenMetadata;
  tos_outputs : list TokenOutputWithPrevOut
}.

Definition out_id (o : TokenOutputWithPrevOut) : string := to_id (output o).
Definition amount_of (o : TokenOutputWithPrevOut) : Z := token_amount (output o).

(** [TokenOutputs::ids]. *)
Definition tos_ids (t : TokenOutputs) : gset string := list_to_set (out_id <$> tos_outputs t).

Record TokenOutputsPerStatus : Type := {
  per_metadata : TokenMetadata;
  available : list TokenOutputWithPrevOut;
  reserved_for_payment : list TokenOutputWithPrevOut;
  reserved_for_swap : list TokenOutputWithPrevOut
}.

Definition available_balance (t : TokenOutputsPerStatus) : Z :=
  sum_u 128 (amount_of <$> available t).
Definition reserved_for_swap_balance (t : TokenOutputsPerStatus) : Z :=
  sum_u 128 (amount_of <$> reserved_for_swap t).
Definition balance (t : TokenOutputsPerStatus) : Z :=
  wadd 128 (available_balance t) (reserved_for_swap_balance t).

Record TokenOutputsReservation : Type := {
  tor_id : string;
  token_outputs : TokenOutputs
}.

Definition TokenOutputsReservation_new (id : string) (t : TokenOutputs) : TokenOutputsReservation :=
  {| tor_id := id; token_outputs := t |}.

Inductive SelectionStrategy : Type := SmallestFirst | LargestFirst.

Inductive ReservationTarget : Type :=
| MinTotalValue (amount : Z)
| MaxOutputCount (count : nat).

Inductive ReservationPurpose : Type := Payment | Swap.

#[export] Instance ReservationPurpose_eq_dec : EqDecision ReservationPurpose.
Proof. solve_decision. Defined.

(** ** State *)

Record StoredTokenOutput : Type := {
  sto_output : TokenOutputWithPrevOut;
  added_at : Z
}.

Definition sto_id (s : StoredTokenOutput) : string := out_id (sto_output s).

Definition stored_now (now : Z) (o : TokenOutputWithPrevOut) : StoredTokenOutput :=
  {| sto_output := o; added_at := now |}.

Record TokenOutputsEntry : Type := {
  entry_metadata : TokenMetadata;
  stored_outputs : list StoredTokenOutput;
  purpose : ReservationPurpose
}.

Record AvailableTokenOutputs : Type := {
  ato_metadata : TokenMetadata;
  ato_outputs : gmap string StoredTokenOutput
}.

Record TokenOutputsState : Type := {
  available_token_outputs : gmap string AvailableTokenOutputs;
  reservations : gmap string TokenOutputsEntry;
  spent_output_ids : gmap string Z;
  last_swap_completed_at : option Z
}.

Definition TokenOutputsState_default : TokenOutputsState :=
  {| available_token_outputs := ∅; reservations := ∅; spent_output_ids := ∅;
     last_swap_completed_at := None |}.

Definition set_available (a : gmap string AvailableTokenOutputs) (st : TokenOutputsState) :=
  {| available_token_outputs := a; reservations := reservations st;
     spent_output_ids := spent_output_ids st;
     last_swap_completed_at := last_swap_completed_at st |}.

Definition set_reservations (r : gmap string TokenOutputsEntry) (st : TokenOutputsState) :=
  {| available_token_outputs := available_token_outputs st; reservations := r;
     spent_output_ids := spent_output_ids st;
     last_swap_completed_at := last_swap_completed_at st |}.

Definition set_spent (s : gmap string Z) (st : TokenOutputsState) :=
  {| available_token_outputs := available_token_outputs st; reservations := reservations st;
     spent_output_ids := s; last_swap_completed_at := last_swap_completed_at st |}.

Definition set_last_swap (t : option Z) (st : TokenOutputsState) :=
  {| available_token_outputs := available_token_outputs st; reservations := reservations st;
     spent_output_ids := spent_output_ids st; last_swap_completed_at := t |}.

Definition with_outputs (m : gmap string StoredTokenOutput) (a : AvailableTokenOutputs) :=
  {| ato_metadata := ato_metadata a; ato_outputs := m |}.

Section operations.
Context {ho : HashOrder}.

(** [AvailableTokenOutputs::ids] and [output_vec]. *)
Definition ato_ids (a : AvailableTokenOutputs) : gset string := dom (ato_outputs a).
Definition output_vec (a : AvailableTokenOutputs) : list TokenOutputWithPrevOut :=
  sto_output <$> hm_values (ato_outputs a).

(** ** Refresh *)

(** Insert the refreshed outputs of one token that are not spent. *)
Definition refresh_token (now : Z) (spent : gmap string Z)
    (pools : gmap string AvailableTokenOutputs) (t : TokenOutputs)
    : gmap string AvailableTokenOutputs :=
  let id := identifier (tos_metadata t) in
  let entry := default {| ato_metadata := tos_metadata t; ato_outputs := ∅ |} (pools !! id) in
  <[id := {| ato_metadata := tos_metadata t;
             ato_outputs :=
               foldl (λ m o, match spent !! out_id o with
                             | Some _ => m
                             | None => <[out_id o := stored_now now o]> m
                             end) (ato_outputs entry) (tos_outputs t) |}]> pools.

Definition already_exists (pools : gmap string AvailableTokenOutputs) (id : string) : bool :=
  existsb (λ a, bool_decide (is_Some (ato_outputs a !! id))) (hm_values pools).

(** Re-add one old output that was added after the refresh started. *)
Definition preserve_output (t : Z) (old_metadata : TokenMetadata)
    (pools : gmap string AvailableTokenOutputs) (kv : string * StoredTokenOutput)
    : gmap string AvailableTokenOutputs :=
  let '(output_id, stored) := kv in
  if (t <=? added_at stored) && negb (already_exists pools output_id) then
    let entry := default {| ato_metadata := old_metadata; ato_outputs := ∅ |}
                   (pools !! identifier old_metadata) in
    <[identifier old_metadata := with_outputs (<[output_id := stored]> (ato_outputs entry)) entry]>
      pools
  else pools.

Definition preserve_token (t : Z) (pools : gmap string AvailableTokenOutputs)
    (old : AvailableTokenOutputs) : gmap string AvailableTokenOutputs :=
  foldl (preserve_output t (ato_metadata old)) pools (hm_iter (ato_outputs old)).

(** Reconcile one reservation with the refreshed pools. *)
Definition reconcile
    (acc : gmap string AvailableTokenOutputs * gmap string TokenOutputsEntry)
    (kv : string * TokenOutputsEntry)
    : gmap string AvailableTokenOutputs * gmap string TokenOutputsEntry :=
  let '(pools, res) := acc in
  let '(id, reserved_entry) := kv in
  match pools !! identifier (entry_metadata reserved_entry) with
  | None => (pools, delete id res)
  | Some a =>
      let reserved_stored :=
        List.filter (λ s, bool_decide (sto_id s ∈ ato_ids a)) (stored_outputs reserved_entry) in
      if bool_decide (reserved_stored = []) then (pools, delete id res)
      else
        (<[identifier (entry_metadata reserved_entry) :=
             with_outputs (filter (λ kv, kv.1 ∉ sto_id <$> reserved_stored) (ato_outputs a)) a]>
           pools,
         <[id := {| entry_metadata := entry_metadata reserved_entry;
                    stored_outputs := reserved_stored;
                    purpose := purpose reserved_entry |}]> res)
  end.

Definition has_active_swap (st : TokenOutputsState) : bool :=
  existsb (λ e, bool_decide (purpose e = Swap)) (hm_values (reservations st)).

Definition swap_completed_during_refresh (st : TokenOutputsState) (t : Z) : bool :=
  match last_swap_completed_at st with
  | Some completed_at => t <=? completed_at
  | None => false
  end.

Definition kept_spent (st : TokenOutputsState) (t : Z) : gmap string Z :=
  filter (λ kv, t ≤ kv.2) (spent_output_ids st).

Definition set_tokens_outputs (now : Z) (st : TokenOutputsState) (tokens : list TokenOutputs)
    (refresh_started_at : Z) : TokenOutputsState * result () TokenOutputServiceError :=
  if has_active_swap st || swap_completed_during_refresh st refresh_started_at then (st, Ok ())
  else
    let spent := kept_spent st refresh_started_at in
    let pools := foldl (refresh_token now spent) ∅ tokens in
    let pools :=
      foldl (preserve_token refresh_started_at) pools
        (hm_values (available_token_outputs st)) in
    let '(pools, res) := foldl reconcile (pools, reservations st) (hm_iter (reservations st)) in
    ({| available_token_outputs := pools; reservations := res; spent_output_ids := spent;
        last_swap_completed_at := last_swap_completed_at st |}, Ok ()).

(** ** Queries *)

Definition no_outputs (m : TokenMetadata) : TokenOutputsPerStatus :=
  {| per_metadata := m; available := []; reserved_for_payment := []; reserved_for_swap := [] |}.

Definition set_per_available (l : list TokenOutputWithPrevOut) (p : TokenOutputsPerStatus) :=
  {| per_metadata := per_metadata p; available := l;
     reserved_for_payment := reserved_for_payment p; reserved_for_swap := reserved_for_swap p |}.

(** [match purpose { Payment => reserved_for_payment.extend(..), .. }]. *)
Definition extend_reserved (p : TokenOutputsPerStatus) (e : TokenOutputsEntry) :=
  let outputs := sto_output <$> stored_outputs e in
  match purpose e with
  | Payment =>
      {| per_metadata := per_metadata p; available := available p;
         reserved_for_payment := reserved_for_payment p ++ outputs;
         reserved_for_swap := reserved_for_swap p |}
  | Swap =>
      {| per_metadata := per_metadata p; available := available p;
         reserved_for_payment := reserved_for_payment p;
         reserved_for_swap := reserved_for_swap p ++ outputs |}
  end.

Definition list_available (m : gmap string TokenOutputsPerStatus)
    (kv : string * AvailableTokenOutputs) : gmap string TokenOutputsPerStatus :=
  let '(token_id, a) := kv in
  let entry := default (no_outputs (ato_metadata a)) (m !! token_id) in
  <[token_id := set_per_available (output_vec a) entry]> m.

Definition list_reserved (m : gmap string TokenOutputsPerStatus) (e : TokenOutputsEntry)
    : gmap string TokenOutputsPerStatus :=
  let id := identifier (entry_metadata e) in
  <[id := extend_reserved (default (no_outputs (entry_metadata e)) (m !! id)) e]> m.

Definition list_tokens_outputs (st : TokenOutputsState)
    : result (list TokenOutputsPerStatus) TokenOutputServiceError :=
  let m := foldl list_available ∅ (hm_iter (available_token_outputs st)) in
  let m := foldl list_reserved m (hm_values (reservations st)) in
  Ok (hm_values m).

(** The token and metadata a filter names. *)
Definition find_token (st : TokenOutputsState) (filter : GetTokenOutputsFilter)
    : result (string * TokenMetadata) TokenOutputServiceError :=
  match filter with
  | Identifier token_id =>
      match available_token_outputs st !! token_id with
      | Some a => Ok (token_id, ato_metadata a)
      | None =>
          let* r :=
            ok_or (List.find (λ r, bool_decide (identifier (entry_metadata r) = token_id))
                     (hm_values (reservations st)))
                  (Generic "Token outputs not found") in
          Ok (token_id, entry_metadata r)
      end
  | IssuerPublicKey issuer_pk =>
      match List.find (λ a, bool_decide (issuer_public_key (ato_metadata a) = issuer_pk))
              (hm_values (available_token_outputs st)) with
      | Some a => Ok (identifier (ato_metadata a), ato_metadata a)
      | None =>
          let* r :=
            ok_or (List.find (λ r, bool_decide (issuer_public_key (entry_metadata r) = issuer_pk))
                     (hm_values (reservations st)))
                  (Generic "Token outputs not found") in
          Ok (identifier (entry_metadata r), entry_metadata r)
      end
  end.

Definition get_token_outputs (st : TokenOutputsState) (filter : GetTokenOutputsFilter)
    : result TokenOutputsPerStatus TokenOutputServiceError :=
  let* (token_id, metadata) := find_token st filter in
  let p := no_outputs metadata in
  let p := match available_token_outputs st !! token_id with
           | Some a => set_per_available (output_vec a) p
           | None => p
           end in
  Ok (foldl (λ p e, if bool_decide (identifier (entry_metadata e) = token_id)
                    then extend_reserved p e else p) p (hm_values (reservations st))).

(** ** Insertion *)

Definition insert_token_outputs (now : Z) (st : TokenOutputsState) (t : TokenOutputs)
    : TokenOutputsState * result () TokenOutputServiceError :=
  let st := set_spent (remove_all out_id (tos_outputs t) (spent_output_ids st)) st in
  let id := identifier (tos_metadata t) in
  let a :=
    match available_token_outputs st !! id with
    | Some existing =>
        with_outputs
          (foldl (λ m o, match m !! out_id o with
                         | Some _ => m
                         | None => <[out_id o := stored_now now o]> m
                         end) (ato_outputs existing) (tos_outputs t)) existing
    | None =>
        {| ato_metadata := tos_metadata t;
           ato_outputs := insert_all out_id (stored_now now) (tos_outputs t) ∅ |}
    end in
  (set_available (<[id := a]> (available_token_outputs st)) st, Ok ()).

(** ** Reservation *)

(** [sort_by_key] on the amount, or on [Reverse] of it. *)
Definition sort_outputs (strategy : option SelectionStrategy) (l : list TokenOutputWithPrevOut)
    : list TokenOutputWithPrevOut :=
  match strategy with
  | None | Some SmallestFirst => sort_by (λ a b, amount_of a <=? amount_of b) l
  | Some LargestFirst => sort_by (λ a b, amount_of b <=? amount_of a) l
  end.

(** The loop over the sorted outputs: what it selects and what remains. *)
Fixpoint fill_amount (remaining_amount : Z) (outputs : list TokenOutputWithPrevOut)
    : list TokenOutputWithPrevOut * Z :=
  match outputs with
  | [] => ([], remaining_amount)
  | o :: rest =>
      if remaining_amount =? 0 then ([], remaining_amount)
      else
        let '(selected, rem) := fill_amount (saturating_sub remaining_amount (amount_of o)) rest in
        (o :: selected, rem)
  end.

Definition select_outputs (outputs : list TokenOutputWithPrevOut) (target : ReservationTarget)
    (strategy : option SelectionStrategy)
    : result (list TokenOutputWithPrevOut) TokenOutputServiceError :=
  match target with
  | MinTotalValue amount =>
      if sum_u 128 (amount_of <$> outputs) <? amount then Err InsufficientFunds
      else match List.find (λ o, amount_of o =? amount) outputs with
           | Some o => Ok [o]
           | None =>
               let '(selected, remaining_amount) :=
                 fill_amount amount (sort_outputs strategy outputs) in
               if 0 <? remaining_amount then Err InsufficientFunds else Ok selected
           end
  | MaxOutputCount count => Ok (take count (sort_outputs strategy outputs))
  end.

Definition check_target (target : ReservationTarget) : result () TokenOutputServiceError :=
  match target with
  | MinTotalValue amount =>
      if amount =? 0 then Err (Generic "Amount to reserve must be greater than zero") else Ok ()
  | MaxOutputCount count =>
      if bool_decide (count = O) then Err (Generic "Count to reserve must be greater than zero")
      else Ok ()
  end.

(** The outputs of the pool among the preferred ones. *)
Definition candidates (a : AvailableTokenOutputs)
    (preferred_outputs : option (list TokenOutputWithPrevOut)) : list TokenOutputWithPrevOut :=
  match preferred_outputs with
  | Some preferred =>
      List.filter (λ o, existsb (λ p, bool_decide (out_id o = out_id p)) preferred) (output_vec a)
  | None => output_vec a
  end.

Definition reserve_token_outputs (uuid : string) (st : TokenOutputsState)
    (token_id : string) (target : ReservationTarget) (purpose : ReservationPurpose)
    (preferred_outputs : option (list TokenOutputWithPrevOut))
    (strategy : option SelectionStrategy)
    : TokenOutputsState * result TokenOutputsReservation TokenOutputServiceError :=
  match check_target target with
  | Err e => (st, Err e)
  | Ok _ =>
      match available_token_outputs st !! token_id with
      | None => (st, Err (Generic ("Token outputs not found for identifier: " +:+ token_id)))
      | Some a =>
          match select_outputs (candidates a preferred_outputs) target strategy with
          | Err e => (st, Err e)
          | Ok selected =>
              let stored_selected := omap (λ o, ato_outputs a !! out_id o) selected in
              let metadata := ato_metadata a in
              let pool := filter (λ kv, kv.1 ∉ out_id <$> selected) (ato_outputs a) in
              let st := set_available
                (<[token_id := with_outputs pool a]> (available_token_outputs st)) st in
              let st := set_reservations
                (<[uuid := {| entry_metadata := metadata; stored_outputs := stored_selected;
                              purpose := purpose |}]> (reservations st)) st in
              (st, Ok (TokenOutputsReservation_new uuid
                         {| tos_metadata := metadata; tos_outputs := selected |}))
          end
      end
  end.

Definition cancel_reservation (st : TokenOutputsState) (id : string)
    : TokenOutputsState * result () TokenOutputServiceError :=
  match reservations st !! id with
  | None => (st, Ok ())
  | Some e =>
      let st := set_reservations (delete id (reservations st)) st in
      match available_token_outputs st !! identifier (entry_metadata e) with
      | None => (st, Ok ())
      | Some a =>
          (set_available
             (<[identifier (entry_metadata e) :=
                  with_outputs (insert_all sto_id (λ s, s) (stored_outputs e) (ato_outputs a)) a]>
                (available_token_outputs st)) st, Ok ())
      end
  end.

Definition finalize_reservation (now : Z) (st : TokenOutputsState) (id : string)
    : TokenOutputsState * result () TokenOutputServiceError :=
  match reservations st !! id with
  | None => (st, Ok ())
  | Some e =>
      let st := set_reservations (delete id (reservations st)) st in
      let st := set_spent (insert_all sto_id (λ _, now) (stored_outputs e)
                             (spent_output_ids st)) st in
      (if bool_decide (purpose e = Swap) then set_last_swap (Some now) st else st, Ok ())
  end.

End operations.
End token_store.
