(* ===== verification/TokenStoreInv.v ===== *)
(** The invariant of the in-memory token output store and what its operations
    promise: an output is in one place, and a spent output is in none. *)
From S2P Require Import Prelude TokenStore.

Section invariant.
Context {PublicKey ForeignError : Type} `{EqDecision PublicKey}.
Abbreviation Metadata := (@TokenMetadata PublicKey).
Abbreviation Pools := (gmap string (@AvailableTokenOutputs PublicKey)).
Abbreviation State := (@TokenOutputsState PublicKey).
Abbreviation Entry := (@TokenOutputsEntry PublicKey).
Abbreviation Stored := (@StoredTokenOutput PublicKey).
Implicit Types (pools : Pools) (st : State) (i k r : string) (e : Entry) (s : Stored).

Definition contains pools i : Prop :=
  ∃ k a, pools !! k = Some a ∧ is_Some (ato_outputs a !! i).

Definition outputs_keyed (m : gmap string Stored) : Prop := ∀ i s, m !! i = Some s → sto_id s = i.

Record pools_ok pools : Prop := {
  pools_keyed k a : pools !! k = Some a → identifier (ato_metadata a) = k;
  pools_outputs_keyed k a : pools !! k = Some a → outputs_keyed (ato_outputs a);
  pools_disjoint k1 k2 a1 a2 i :
    pools !! k1 = Some a1 → pools !! k2 = Some a2 →
    is_Some (ato_outputs a1 !! i) → is_Some (ato_outputs a2 !! i) → k1 = k2
}.

Definition entry_ids e : list string := sto_id <$> stored_outputs e.

Definition reserved_in st i : Prop :=
  ∃ r e, reservations st !! r = Some e ∧ i ∈ entry_ids e.

Record token_inv st : Prop := {
  ti_pools : pools_ok (available_token_outputs st);
  ti_nodup r e : reservations st !! r = Some e → NoDup (entry_ids e);
  ti_reserved_out i : reserved_in st i → ¬ contains (available_token_outputs st) i;
  ti_reserved_once r1 r2 e1 e2 i :
    reservations st !! r1 = Some e1 → reservations st !! r2 = Some e2 →
    i ∈ entry_ids e1 → i ∈ entry_ids e2 → r1 = r2;
  ti_spent_out i :
    is_Some (spent_output_ids st !! i) →
    ¬ contains (available_token_outputs st) i ∧ ¬ reserved_in st i
}.

Lemma pools_ok_empty : pools_ok ∅.
Proof. split; intros *; by rewrite lookup_empty. Qed.

Lemma token_inv_default : token_inv TokenOutputsState_default.
Proof.
  split; simpl; [apply pools_ok_empty|..].
  - intros r e Hr. by rewrite lookup_empty in Hr.
  - intros i (r & e & Hr & _). simpl in Hr. by rewrite lookup_empty in Hr.
  - intros r1 r2 e1 e2 i Hr. by rewrite lookup_empty in Hr.
  - intros i [t Ht]. by rewrite lookup_empty in Ht.
Qed.

(** ** Updating the pool of one token *)

Lemma contains_insert pools k a' i :
  contains (<[k := a']> pools) i →
  is_Some (ato_outputs a' !! i) ∨ contains pools i.
Proof.
  intros (k' & a & [[<- <-]|[? Hk]]%lookup_insert_Some & Hi); [by left|right]. by exists k', a.
Qed.

(** A pool may gain outputs that no pool had. *)
Lemma pools_ok_insert pools k a' :
  pools_ok pools → identifier (ato_metadata a') = k → outputs_keyed (ato_outputs a') →
  (∀ i, is_Some (ato_outputs a' !! i) →
     (∃ a, pools !! k = Some a ∧ is_Some (ato_outputs a !! i)) ∨ ¬ contains pools i) →
  pools_ok (<[k := a']> pools).
Proof.
  intros [Hk Ho Hd] Hid Hkey Hin.
  assert (∀ k2 a2 i, pools !! k2 = Some a2 → is_Some (ato_outputs a' !! i) →
    is_Some (ato_outputs a2 !! i) → k = k2) as Hnew.
  { intros k2 a2 i Hk2 Hi Hi2. destruct (Hin i Hi) as [(a & Ha & Hai)|Hno]; [by eapply Hd|].
    exfalso. apply Hno. by exists k2, a2. }
  split; intros *; rewrite !lookup_insert_Some.
  - naive_solver.
  - naive_solver.
  - intros [[<- <-]|[? H1]] [[<- <-]|[? H2]] Hi1 Hi2; [done|by eapply Hnew| |by eapply Hd].
    symmetry. by eapply Hnew.
Qed.

Lemma token_inv_set_pool st k a' :
  token_inv st → identifier (ato_metadata a') = k → outputs_keyed (ato_outputs a') →
  (∀ i, is_Some (ato_outputs a' !! i) →
     (∃ a, available_token_outputs st !! k = Some a ∧ is_Some (ato_outputs a !! i)) ∨
     (¬ contains (available_token_outputs st) i ∧ ¬ reserved_in st i ∧
      spent_output_ids st !! i = None)) →
  token_inv (set_available (<[k := a']> (available_token_outputs st)) st).
Proof.
  intros [Hp Hn Ho Hu Hs] Hid Hkey Hin.
  assert (∀ i, contains (<[k := a']> (available_token_outputs st)) i →
    contains (available_token_outputs st) i ∨
    (¬ reserved_in st i ∧ spent_output_ids st !! i = None)) as Hc.
  { intros i [Hi|?]%contains_insert; [|by left].
    destruct (Hin i Hi) as [(a & Ha & Hai)|(? & ? & ?)]; [left; by exists k, a|by right]. }
  split; simpl; [|done| |done|].
  - apply pools_ok_insert; try done. intros i Hi. destruct (Hin i Hi) as [?|(? & _)]; eauto.
  - intros i Hr [?|[? _]]%Hc; [by eapply Ho|done].
  - intros i Hi. destruct (Hs i Hi) as [? ?]. split; [|done].
    intros [?|[_ Hnone]]%Hc; [done|]. rewrite Hnone in Hi. by destruct Hi.
Qed.

Lemma token_inv_drop_reservation st r :
  token_inv st → token_inv (set_reservations (delete r (reservations st)) st).
Proof.
  intros [Hp Hn Ho Hu Hs].
  assert (∀ i, reserved_in (set_reservations (delete r (reservations st)) st) i → reserved_in st i)
    as Hr.
  { intros i (r' & e & Hr' & ?). simpl in Hr'. apply lookup_delete_Some in Hr' as [_ ?].
    by exists r', e. }
  split; simpl; [done|..].
  - intros r' e [_ ?]%lookup_delete_Some. eauto.
  - eauto.
  - intros r1 r2 e1 e2 i [_ ?]%lookup_delete_Some [_ ?]%lookup_delete_Some. eauto.
  - intros i Hi. destruct (Hs i Hi). split; [done|]. eauto.
Qed.

Lemma dropped_not_reserved st r e i :
  token_inv st → reservations st !! r = Some e → i ∈ entry_ids e →
  ¬ reserved_in (set_reservations (delete r (reservations st)) st) i.
Proof.
  intros Hinv Hr Hi (r' & e' & Hr' & Hi'). simpl in Hr'.
  apply lookup_delete_Some in Hr' as [Hne Hr']. apply Hne. by eapply (ti_reserved_once _ Hinv).
Qed.

Lemma reserved_not_spent st i : token_inv st → reserved_in st i → spent_output_ids st !! i = None.
Proof.
  intros Hinv Hr. apply eq_None_not_Some. intros Hs. by destruct (ti_spent_out _ Hinv i Hs).
Qed.

Lemma outputs_keyed_insert m i s : outputs_keyed m → sto_id s = i → outputs_keyed (<[i := s]> m).
Proof. intros Hm Hs j t. rewrite lookup_insert_Some. naive_solver. Qed.

Lemma outputs_keyed_insert_all {X} (key : X → string) (val : X → Stored) l m :
  outputs_keyed m → (∀ x, sto_id (val x) = key x) → outputs_keyed (insert_all key val l m).
Proof.
  intros Hm Hv. unfold insert_all. revert m Hm. induction l as [|x l IH]; intros m Hm; [done|].
  by apply IH, outputs_keyed_insert.
Qed.

Lemma token_inv_cancel st r :
  token_inv st → token_inv (cancel_reservation (ForeignError := ForeignError) st r).1.
Proof.
  intros Hinv. unfold cancel_reservation. destruct (reservations st !! r) as [e|] eqn:Hr; [|done].
  pose proof (token_inv_drop_reservation st r Hinv) as Hd. simpl.
  destruct (available_token_outputs st !! identifier (entry_metadata e)) as [a|] eqn:Ha; [|done].
  simpl. apply (token_inv_set_pool (set_reservations (delete r (reservations st)) st)); [done|..]; simpl.
  - by apply (pools_keyed _ (ti_pools _ Hinv)).
  - apply outputs_keyed_insert_all; [|done]. by eapply (pools_outputs_keyed _ (ti_pools _ Hinv)).
  - intros i [s Hs]. apply lookup_insert_all_Some in Hs as [(x & Hx & <- & ->)|[_ Hs]].
    + right. assert (sto_id x ∈ entry_ids e) as Hin by by apply list_elem_of_fmap_2.
      assert (reserved_in st (sto_id x)) by by exists r, e.
      split_and!; [by apply (ti_reserved_out _ Hinv)|by eapply dropped_not_reserved|].
      by apply reserved_not_spent.
    + left. exists a. split; [done|by eexists].
Qed.

Lemma token_inv_set_last_swap st t : token_inv st → token_inv (set_last_swap t st).
Proof. by intros [? ? ? ? ?]. Qed.

Lemma token_inv_finalize now st r :
  token_inv st → token_inv (finalize_reservation (ForeignError := ForeignError) now st r).1.
Proof.
  intros Hinv. unfold finalize_reservation. destruct (reservations st !! r) as [e|] eqn:Hr; [|done].
  cbn [fst]. assert (token_inv (set_spent
    (insert_all sto_id (λ _, now) (stored_outputs e) (spent_output_ids st))
    (set_reservations (delete r (reservations st)) st))) as Hfin.
  { destruct (token_inv_drop_reservation st r Hinv) as [Hp Hn Ho Hu Hs]. split; try done.
    intros i [t Ht]. simpl in *. apply lookup_insert_all_Some in Ht as [(x & Hx & <- & _)|[_ Ht]].
    - assert (sto_id x ∈ entry_ids e) as Hin by by apply list_elem_of_fmap_2. split.
      + apply (ti_reserved_out _ Hinv). by exists r, e.
      + by eapply dropped_not_reserved.
    - apply Hs. by eexists. }
  case_bool_decide; [by apply token_inv_set_last_swap|done].
Qed.

Lemma spent_remove_all st (l : list (@TokenOutputWithPrevOut PublicKey)) :
  token_inv st → token_inv (set_spent (remove_all out_id l (spent_output_ids st)) st).
Proof.
  intros [Hp Hn Ho Hu Hs]. split; try done. intros i. simpl. rewrite lookup_remove_all.
  case_decide; [by intros []|]. apply Hs.
Qed.

(** An output received is not reserved and not in the pool of another token. *)
Definition insert_ok st (t : @TokenOutputs PublicKey) : Prop :=
  ∀ i, i ∈ out_id <$> tos_outputs t →
    ¬ reserved_in st i ∧
    (contains (available_token_outputs st) i →
     ∃ a, available_token_outputs st !! identifier (tos_metadata t) = Some a ∧
          is_Some (ato_outputs a !! i)).

Lemma foldl_insert_new now (l : list (@TokenOutputWithPrevOut PublicKey)) (m : gmap string Stored) :
  outputs_keyed m →
  let m' := foldl (λ m o, match m !! out_id o with
                          | Some _ => m
                          | None => <[out_id o := stored_now now o]> m
                          end) m l in
  outputs_keyed m' ∧ ∀ i, is_Some (m' !! i) → is_Some (m !! i) ∨ i ∈ out_id <$> l.
Proof.
  revert m. induction l as [|o l IH]; intros m Hm; [split; [done|by left]|]. cbn [foldl].
  destruct (m !! out_id o) as [s|] eqn:Ho.
  - destruct (IH m Hm) as [? Hi]. split; [done|]. intros i [?|?]%Hi; [by left|right; by right].
  - destruct (IH (<[out_id o := stored_now now o]> m)) as [? Hi]; [by apply outputs_keyed_insert|].
    split; [done|]. intros i [His|?]%Hi; [|right; by right].
    rewrite lookup_insert in His. case_decide as Heq; [right; rewrite <- Heq; by left|by left].
Qed.

Lemma inv_insert now st t :
  token_inv st → insert_ok st t →
  token_inv (insert_token_outputs (ForeignError := ForeignError) now st t).1.
Proof.
  intros Hinv Hok. unfold insert_token_outputs. cbn [fst].
  set (st1 := set_spent _ _). assert (token_inv st1) as H1 by by apply spent_remove_all.
  assert (∀ i, i ∈ out_id <$> tos_outputs t → spent_output_ids st1 !! i = None) as Hsp.
  { intros i Hi. simpl. by rewrite lookup_remove_all, decide_True. }
  assert (∀ i, i ∈ out_id <$> tos_outputs t →
    (∃ a, available_token_outputs st1 !! identifier (tos_metadata t) = Some a ∧
          is_Some (ato_outputs a !! i)) ∨
    (¬ contains (available_token_outputs st1) i ∧ ¬ reserved_in st1 i ∧
     spent_output_ids st1 !! i = None)) as Hnew.
  { intros i Hi. destruct (Hok i Hi) as [Hres Hc].
    destruct (available_token_outputs st !! identifier (tos_metadata t)) as [a|] eqn:Ha.
    - destruct (ato_outputs a !! i) eqn:Hai; [left; exists a; split; [done|by eexists]|].
      right. split_and!; [|done|by apply Hsp]. intros (a' & ? & [? ?])%Hc. by simplify_eq.
    - right. split_and!; [|done|by apply Hsp]. intros (a' & ? & _)%Hc. done. }
  apply token_inv_set_pool; [done|..].
  - change (available_token_outputs st1) with (available_token_outputs st).
    case_match eqn:Ha; [|done]. exact (pools_keyed _ (ti_pools _ Hinv) _ _ Ha).
  - change (available_token_outputs st1) with (available_token_outputs st).
    case_match eqn:Ha; simpl.
    + apply foldl_insert_new. by eapply (pools_outputs_keyed _ (ti_pools _ Hinv)).
    + apply outputs_keyed_insert_all; [|done]. intros ? ? Hs. by rewrite lookup_empty in Hs.
  - intros i. change (available_token_outputs st1) with (available_token_outputs st).
    destruct (available_token_outputs st !! identifier (tos_metadata t)) as [a|] eqn:Ha; simpl.
    + intros Hi. apply foldl_insert_new in Hi as [Hi|Hi].
      * left. by exists a.
      * rewrite <- Ha. by apply Hnew.
      * by eapply (pools_outputs_keyed _ (ti_pools _ Hinv)).
    + intros [s Hs]. apply insert_all_empty_Some in Hs as (o & Ho & <- & _).
      rewrite <- Ha. by apply Hnew, list_elem_of_fmap_2.
Qed.

End invariant.
