(* ===== verification/TokenStoreProps.v ===== *)
(** The token output store: refresh and reservation preserve the invariant, what a
    reservation selects, and the properties of the store's reachable states
    ([crates/spark/src/token/store/mod.rs]). *)
From S2P Require Import Prelude TokenStore TokenStoreInv.

Section props.
Context {PublicKey ForeignError : Type} `{EqDecision PublicKey} {ho : HashOrder}.
Abbreviation Pools := (gmap string (@AvailableTokenOutputs PublicKey)).
Abbreviation State := (@TokenOutputsState PublicKey).
Abbreviation Entry := (@TokenOutputsEntry PublicKey).
Abbreviation Stored := (@StoredTokenOutput PublicKey).
Abbreviation Tokens := (@TokenOutputs PublicKey).
Abbreviation Output := (@TokenOutputWithPrevOut PublicKey).
Implicit Types (pools : Pools) (st : State) (i k r : string) (e : Entry) (s : Stored).

(** ** Refresh *)

(** The operators report an output under one token. *)
Definition tokens_ok (tokens : list Tokens) : Prop :=
  ∀ t1 t2 i, t1 ∈ tokens → t2 ∈ tokens →
    i ∈ out_id <$> tos_outputs t1 → i ∈ out_id <$> tos_outputs t2 →
    identifier (tos_metadata t1) = identifier (tos_metadata t2).

(** The pools a refresh builds hold only reported outputs that are not spent. *)
Definition reported (spent : gmap string Z) (tokens : list Tokens) pools : Prop :=
  ∀ k a i, pools !! k = Some a → is_Some (ato_outputs a !! i) →
    spent !! i = None ∧
    ∃ t, t ∈ tokens ∧ identifier (tos_metadata t) = k ∧ i ∈ out_id <$> tos_outputs t.

Lemma foldl_unspent now (spent : gmap string Z) (l : list Output) (m : gmap string Stored) :
  outputs_keyed m →
  let m' := foldl (λ m o, match spent !! out_id o with
                          | Some _ => m
                          | None => <[out_id o := stored_now now o]> m
                          end) m l in
  outputs_keyed m' ∧
  ∀ i, is_Some (m' !! i) → is_Some (m !! i) ∨ (i ∈ out_id <$> l ∧ spent !! i = None).
Proof.
  revert m. induction l as [|o l IH]; intros m Hm; [split; [done|by left]|]. cbn [foldl].
  destruct (spent !! out_id o) as [s|] eqn:Ho.
  - destruct (IH m Hm) as [? Hi]. split; [done|]. intros i [?|[? ?]]%Hi; [by left|right].
    split; [by right|done].
  - destruct (IH (<[out_id o := stored_now now o]> m)) as [? Hi]; [by apply outputs_keyed_insert|].
    split; [done|]. intros i [His|[? ?]]%Hi; [|right; split; [by right|done]].
    rewrite lookup_insert in His. case_decide as Heq; [|by left].
    right. rewrite <- Heq. split; [by left|done].
Qed.

Lemma refresh_token_ok now spent tokens pools t :
  tokens_ok tokens → t ∈ tokens → pools_ok pools → reported spent tokens pools →
  pools_ok (refresh_token now spent pools t) ∧ reported spent tokens (refresh_token now spent pools t).
Proof.
  intros Htok Ht Hok Hrep. unfold refresh_token. set (k := identifier (tos_metadata t)).
  set (old := ato_outputs (default _ (pools !! k))).
  assert (∀ i, is_Some (old !! i) → ∃ a, pools !! k = Some a ∧ is_Some (ato_outputs a !! i)) as Hold.
  { intros i. unfold old. destruct (pools !! k) as [a|]; simpl; [by exists a|].
    rewrite lookup_empty. by intros []. }
  destruct (foldl_unspent now spent (tos_outputs t) old) as [Hkey Hnew].
  { unfold old. destruct (pools !! k) eqn:Hp; simpl; [by eapply pools_outputs_keyed|].
    intros ? ? Hs. by rewrite lookup_empty in Hs. }
  split.
  - apply pools_ok_insert; [done|done|done|]. simpl. intros i [Hi|[Hi _]]%Hnew; [left; by apply Hold|].
    destruct (pools !! k) as [a|] eqn:Ha.
    + destruct (ato_outputs a !! i) eqn:Hai; [left; exists a; split; [done|by eexists]|]. right.
      intros (k2 & a2 & Hk2 & Hi2). destruct (Hrep _ _ _ Hk2 Hi2) as [_ (t2 & Ht2 & Hid & Hin)].
      assert (k2 = k) as -> by (rewrite <- Hid; by eapply Htok). simplify_eq.
      rewrite Hai in Hi2. by destruct Hi2.
    + right. intros (k2 & a2 & Hk2 & Hi2).
      destruct (Hrep _ _ _ Hk2 Hi2) as [_ (t2 & Ht2 & Hid & Hin)].
      assert (k2 = k) as -> by (rewrite <- Hid; by eapply Htok). congruence.
  - intros k2 a i [[<- <-]|[_ Hk2]]%lookup_insert_Some Hi; [|by eapply Hrep]. simpl in Hi.
    apply Hnew in Hi as [(a & Ha & Hai)%Hold|[Hi Hsp]]; [by eapply Hrep|]. split; [done|].
    by exists t.
Qed.

Lemma refresh_pools_ok now spent tokens :
  tokens_ok tokens →
  pools_ok (foldl (refresh_token now spent) ∅ tokens) ∧
  reported spent tokens (foldl (refresh_token now spent) ∅ tokens).
Proof.
  intros Htok. assert (∀ l pools, (∀ t, t ∈ l → t ∈ tokens) → pools_ok pools →
    reported spent tokens pools → pools_ok (foldl (refresh_token now spent) pools l) ∧
    reported spent tokens (foldl (refresh_token now spent) pools l)) as Hl.
  { induction l as [|t l IH]; intros pools Hin Hok Hrep; [done|]. cbn [foldl].
    destruct (refresh_token_ok now spent tokens pools t) as [? ?]; try done; [apply Hin; by left|].
    apply IH; [|done|done]. intros t' Ht'. apply Hin. by right. }
  apply Hl; [done|apply pools_ok_empty|]. intros k a i Hk. by rewrite lookup_empty in Hk.
Qed.

Definition unspent_pools (spent : gmap string Z) pools : Prop :=
  ∀ i, contains pools i → spent !! i = None.

Lemma already_exists_spec pools i : already_exists pools i = true ↔ contains pools i.
Proof.
  unfold already_exists. rewrite existsb_elem. split.
  - intros (a & [k Hk]%elem_of_hm_values & Hi%bool_decide_eq_true_1). by exists k, a.
  - intros (k & a & Hk & Hi). exists a. split; [apply elem_of_hm_values; by eexists|].
    by apply bool_decide_eq_true_2.
Qed.

Lemma preserve_output_ok t spent md pools i s :
  pools_ok pools → unspent_pools spent pools → sto_id s = i → spent !! i = None →
  pools_ok (preserve_output t md pools (i, s)) ∧
  unspent_pools spent (preserve_output t md pools (i, s)).
Proof.
  intros Hok Hun Hid Hsp. unfold preserve_output. case_match eqn:Hb; [|done].
  apply andb_true_iff in Hb as [_ Hex%negb_true_iff].
  assert (¬ contains pools i) as Hno.
  { intros Hc%already_exists_spec. congruence. }
  set (old := default _ (pools !! identifier md)).
  assert (∀ j, is_Some (ato_outputs old !! j) →
    ∃ a, pools !! identifier md = Some a ∧ is_Some (ato_outputs a !! j)) as Hold.
  { intros j. unfold old. destruct (pools !! identifier md) as [a|]; simpl; [by exists a|].
    rewrite lookup_empty. by intros []. }
  split.
  - apply pools_ok_insert; [done|..]; simpl.
    + unfold old. destruct (pools !! identifier md) eqn:Hp; [|done].
      exact (pools_keyed _ Hok _ _ Hp).
    + apply outputs_keyed_insert; [|done]. unfold old.
      destruct (pools !! identifier md) eqn:Hp; simpl; [by eapply pools_outputs_keyed|].
      intros ? ? Hs. by rewrite lookup_empty in Hs.
    + intros j. rewrite lookup_insert. case_decide as Heq; [subst j; by right|].
      intros ?%Hold. by left.
  - intros j [Hj|?]%contains_insert; [|by apply Hun]. simpl in Hj. rewrite lookup_insert in Hj.
    case_decide as Heq; [by subst j|]. apply Hold in Hj as (a & Ha & Hj). apply Hun. by eexists _, a.
Qed.

Lemma preserve_pools_ok t st tokens now :
  token_inv st → tokens_ok tokens →
  let spent := kept_spent st t in
  let pools := foldl (preserve_token t) (foldl (refresh_token now spent) ∅ tokens)
                 (hm_values (available_token_outputs st)) in
  pools_ok pools ∧ unspent_pools spent pools.
Proof.
  intros Hinv Htok spent. destruct (refresh_pools_ok now spent tokens Htok) as [Hok Hrep].
  assert (unspent_pools spent (foldl (refresh_token now spent) ∅ tokens)) as Hun.
  { intros i (k & a & Hk & Hi). by destruct (Hrep _ _ _ Hk Hi). }
  revert Hok Hun. generalize (foldl (refresh_token now spent) ∅ tokens).
  assert (∀ a, a ∈ hm_values (available_token_outputs st) →
    ∀ i s, ato_outputs a !! i = Some s → sto_id s = i ∧ spent !! i = None) as Hold.
  { intros a [k Hk]%elem_of_hm_values i s Hs. split.
    - by eapply (pools_outputs_keyed _ (ti_pools _ Hinv)).
    - apply eq_None_not_Some. intros [x [Hx _]%map_lookup_filter_Some].
      destruct (ti_spent_out _ Hinv i) as [Hno _]; [by eexists|]. apply Hno. exists k, a.
      split; [done|by eexists]. }
  induction (hm_values (available_token_outputs st)) as [|a l IH]; intros pools Hok Hun; [done|].
  cbn [foldl].
  assert (pools_ok (preserve_token t pools a) ∧ unspent_pools spent (preserve_token t pools a))
    as [? ?].
  { unfold preserve_token. specialize (Hold a ltac:(by left)).
    assert (∀ kv, kv ∈ hm_iter (ato_outputs a) → ato_outputs a !! kv.1 = Some kv.2) as Hiter.
    { intros [i s] Hi. by apply elem_of_hm_iter. }
    clear IH. revert pools Hok Hun. induction (hm_iter (ato_outputs a)) as [|[i s] its IHi];
      intros pools Hok Hun; [done|]. cbn [foldl].
    destruct (Hold i s (Hiter (i, s) ltac:(by left))) as [? ?].
    destruct (preserve_output_ok t spent (ato_metadata a) pools i s) as [? ?]; try done.
    apply IHi; [|done|done]. intros kv Hkv. apply Hiter. by right. }
  apply IH; [|done|done]. intros a' Ha'. apply Hold. by right.
Qed.

(** ** Reconciling the reservations *)

(** The state of the reconciliation loop: [kvs] are still to process. *)
Record reconciling st (spent : gmap string Z) (kvs : list (string * Entry)) pools
    (res : gmap string Entry) : Prop := {
  rc_pools : pools_ok pools;
  rc_unspent : unspent_pools spent pools;
  rc_res r e : res !! r = Some e →
    (r, e) ∈ kvs ∨
    ∃ e0, reservations st !! r = Some e0 ∧ sublist (entry_ids e) (entry_ids e0) ∧
          ∀ i, i ∈ entry_ids e → ¬ contains pools i ∧ spent !! i = None
}.

Lemma pools_ok_shrink pools k a m :
  pools_ok pools → pools !! k = Some a →
  (∀ i, is_Some (m !! i) → m !! i = ato_outputs a !! i) →
  pools_ok (<[k := with_outputs m a]> pools) ∧
  ∀ i, contains (<[k := with_outputs m a]> pools) i → contains pools i.
Proof.
  intros Hok Ha Hm. split.
  - apply pools_ok_insert; [done|exact (pools_keyed _ Hok _ _ Ha)| |].
    + intros i s Hs. simpl in Hs. apply (pools_outputs_keyed _ Hok _ _ Ha).
      rewrite <- Hs. symmetry. apply Hm. by eexists.
    + simpl. intros i Hi. left. exists a. split; [done|]. by rewrite <- Hm.
  - intros i [Hi|?]%contains_insert; [|done]. simpl in Hi. exists k, a. split; [done|].
    by rewrite <- Hm.
Qed.

Lemma reconcile_step st spent kvs pools res r e :
  reservations st !! r = Some e → r ∉ kvs.*1 →
  reconciling st spent ((r, e) :: kvs) pools res →
  reconciling st spent kvs (reconcile (pools, res) (r, e)).1 (reconcile (pools, res) (r, e)).2.
Proof.
  intros Hr Hnin [Hok Hun Hres].
  assert (∀ pools', (∀ i, contains pools' i → contains pools i) → ∀ r' e', r' ≠ r →
    res !! r' = Some e' → (r', e') ∈ kvs ∨
    ∃ e0, reservations st !! r' = Some e0 ∧ sublist (entry_ids e') (entry_ids e0) ∧
          ∀ i, i ∈ entry_ids e' → ¬ contains pools' i ∧ spent !! i = None) as Hother.
  { intros pools' Hsub r' e' Hne [Hin|(e0 & ? & ? & Hi)]%Hres.
    - apply elem_of_cons in Hin as [[= -> _]|?]; [done|by left].
    - right. exists e0. split_and!; [done|done|]. intros i Hie. destruct (Hi i Hie). eauto. }
  assert (reconciling st spent kvs pools (delete r res)) as Hdrop.
  { split; [done|done|]. intros r' e' [Hne ?]%lookup_delete_Some. by eapply Hother. }
  unfold reconcile. destruct (pools !! identifier (entry_metadata e)) as [a|] eqn:Ha; [|done].
  set (kept := List.filter _ (stored_outputs e)). case_bool_decide; [done|]. cbn [fst snd].
  assert (∀ s, s ∈ kept → s ∈ stored_outputs e ∧ is_Some (ato_outputs a !! sto_id s)) as Hkept.
  { intros s [? Hs%bool_decide_eq_true_1]%elem_of_bfilter. split; [done|]. by apply elem_of_dom. }
  destruct (pools_ok_shrink pools (identifier (entry_metadata e)) a
    (filter (λ kv, kv.1 ∉ sto_id <$> kept) (ato_outputs a)) Hok Ha) as [Hok' Hsub].
  { intros i [s [Hs ?]%map_lookup_filter_Some]. rewrite Hs.
    by apply map_lookup_filter_Some. }
  split; [done| |].
  - intros i Hi. by apply Hun, Hsub.
  - intros r' e' [[<- <-]|[Hne ?]]%lookup_insert_Some; [right|by eapply Hother].
    exists e. split_and!; [done|apply fmap_sublist, sublist_bfilter|].
    intros i (s & -> & Hs)%list_elem_of_fmap. simpl in Hs. destruct (Hkept s Hs) as [_ Hsa].
    split; [|apply Hun; by eexists _, a]. intros (k & a2 & Hk & Hi).
    apply lookup_insert_Some in Hk as [[<- <-]|[Hne Hk]].
    + destruct Hi as [s' [_ Hn]%map_lookup_filter_Some]. apply Hn. simpl. by apply list_elem_of_fmap_2.
    + apply Hne. by eapply (pools_disjoint _ Hok).
Qed.

Lemma reconcile_all st spent kvs pools res :
  NoDup kvs.*1 → (∀ r e, (r, e) ∈ kvs → reservations st !! r = Some e) →
  reconciling st spent kvs pools res →
  reconciling st spent [] (foldl reconcile (pools, res) kvs).1 (foldl reconcile (pools, res) kvs).2.
Proof.
  revert pools res. induction kvs as [|[r e] kvs IH]; intros pools res Hnd Hin Hrc; [done|].
  rewrite fmap_cons in Hnd. apply NoDup_cons in Hnd as [Hr Hnd]. cbn [foldl].
  pose proof (reconcile_step st spent kvs pools res r e (Hin r e ltac:(by left)) Hr Hrc) as Hs.
  destruct (reconcile (pools, res) (r, e)) as [pools' res']. apply IH; [done| |done].
  intros r' e' ?. apply Hin. by right.
Qed.

Lemma inv_set_tokens now st tokens t :
  token_inv st → tokens_ok tokens →
  token_inv (set_tokens_outputs (ForeignError := ForeignError) now st tokens t).1.
Proof.
  intros Hinv Htok. unfold set_tokens_outputs. case_match; [done|].
  destruct (preserve_pools_ok t st tokens now Hinv Htok) as [Hok Hun].
  set (pools := foldl (preserve_token t) _ _) in *.
  pose proof (reconcile_all st (kept_spent st t) (hm_iter (reservations st)) pools (reservations st))
    as Hrc. destruct (foldl reconcile _ _) as [pools' res]. cbn [fst snd] in *.
  destruct Hrc as [Hok' Hun' Hres].
  - apply NoDup_hm_keys.
  - intros r e. by rewrite elem_of_hm_iter.
  - split; [done|done|]. intros r e Hr. left. by apply elem_of_hm_iter.
  - assert (∀ r e, res !! r = Some e → ∃ e0, reservations st !! r = Some e0 ∧
      sublist (entry_ids e) (entry_ids e0) ∧
      ∀ i, i ∈ entry_ids e → ¬ contains pools' i ∧ kept_spent st t !! i = None) as Hres'.
    { intros r e [Hn|?]%Hres; [by apply elem_of_nil in Hn|done]. }
    split; simpl; [done|..].
    + intros r e (e0 & Hr & Hs & _)%Hres'. eapply sublist_NoDup; [|done].
      by eapply (ti_nodup _ Hinv).
    + intros i (r & e & (e0 & _ & _ & Hi)%Hres' & Hie). by apply Hi.
    + intros r1 r2 e1 e2 i (e1' & H1 & Hs1 & _)%Hres' (e2' & H2 & Hs2 & _)%Hres' Hi1 Hi2.
      eapply (ti_reserved_once _ Hinv); [done|done|..];
        (eapply elem_of_submseteq; [|by apply sublist_submseteq]); done.
    + intros i [x Hx]. split.
      * intros Hc%Hun'. by rewrite Hc in Hx.
      * intros (r & e & (e0 & _ & _ & Hi)%Hres' & Hie). destruct (Hi i Hie) as [_ Hn].
        by rewrite Hn in Hx.
Qed.


(** ** Selection *)

Definition outputs_total (l : list Output) : Z := sumZ (amount_of <$> l).

Definition outputs_small (l : list Output) : Prop :=
  Forall (λ o, in_u 128 (amount_of o)) l ∧ outputs_total l < 2 ^ 128.

Lemma outputs_nonneg (l : list Output) : Forall (λ o, in_u 128 (amount_of o)) l → Forall (λ x, 0 ≤ x) (amount_of <$> l).
Proof. intros. apply Forall_fmap. eapply Forall_impl; [done|]. unfold in_u. simpl. lia. Qed.

Lemma outputs_total_cons (o : Output) l : outputs_total (o :: l) = amount_of o + outputs_total l.
Proof. done. Qed.

Lemma fill_amount_spec remaining (l : list Output) :
  Forall (λ o, in_u 128 (amount_of o)) l → 0 ≤ remaining →
  ∃ n, fill_amount remaining l = (take n l, Z.max 0 (remaining - outputs_total (take n l))) ∧
       (remaining ≤ outputs_total (take n l) ∨ take n l = l) ∧
       ∀ m, (m < n)%nat → outputs_total (take m l) < remaining.
Proof.
  intros Hok. revert remaining. induction Hok as [|o l Ho _ IH]; intros remaining H0; simpl.
  { exists O. split_and!; [f_equal; unfold outputs_total; simpl; lia|by right|lia]. }
  destruct (Z.eqb_spec remaining 0) as [->|Hne].
  { exists O. split_and!; [done|by left|lia]. }
  unfold in_u in Ho. destruct (IH (saturating_sub remaining (amount_of o))) as (n & -> & Hend & Hmin);
    [unfold saturating_sub; lia|]. unfold saturating_sub in *.
  assert (remaining - amount_of o ≤ 0 → n = O) as Hn0.
  { intros Hle. destruct n as [|n]; [done|]. specialize (Hmin O ltac:(lia)).
    unfold outputs_total in Hmin. simpl in Hmin. lia. }
  exists (S n). cbn [take]. rewrite outputs_total_cons. split_and!.
  - f_equal. destruct (Z.le_gt_cases (remaining - amount_of o) 0) as [Hle|Hgt]; [|lia].
    rewrite (Hn0 Hle). unfold outputs_total. simpl. lia.
  - destruct Hend as [?| ->]; [left; lia|by right].
  - intros [|m] Hm; [unfold outputs_total; simpl; lia|]. cbn [take]. rewrite outputs_total_cons.
    destruct (Z.le_gt_cases (remaining - amount_of o) 0) as [Hle|Hgt]; [specialize (Hn0 Hle); lia|].
    specialize (Hmin m ltac:(lia)). lia.
Qed.


Lemma sort_outputs_perm strategy (l : list Output) : sort_outputs strategy l ≡ₚ l.
Proof. destruct strategy as [[]|]; apply sort_by_perm. Qed.

(** What a successful selection is: an output of exactly the amount when there is
    one, otherwise the shortest prefix of the sorted outputs that covers it. *)
Definition selects (outputs : list Output) (target : ReservationTarget)
    (strategy : option SelectionStrategy) (sel : list Output) : Prop :=
  match target with
  | MinTotalValue a =>
      (∃ o, sel = [o] ∧ o ∈ outputs ∧ amount_of o = a) ∨
      ((∀ o, o ∈ outputs → amount_of o ≠ a) ∧
       ∃ n, sel = take n (sort_outputs strategy outputs) ∧ a ≤ outputs_total sel ∧
            ∀ m, (m < n)%nat → outputs_total (take m (sort_outputs strategy outputs)) < a)
  | MaxOutputCount n => sel = take n (sort_outputs strategy outputs)
  end.

Lemma selects_sub outputs target strategy sel :
  selects outputs target strategy sel → sel ⊆+ outputs.
Proof.
  assert (∀ n, take n (sort_outputs strategy outputs) ⊆+ outputs) as Htake.
  { intros n. rewrite <- (sort_outputs_perm strategy outputs) at 2.
    apply sublist_submseteq, sublist_take. }
  destruct target as [a|n]; simpl; [intros [(o & -> & Ho & _)|(_ & n & -> & _)]|intros ->]; try done.
  by apply singleton_submseteq_l.
Qed.

Definition target_nonneg (target : ReservationTarget) : Prop :=
  match target with MinTotalValue a => 0 ≤ a | MaxOutputCount _ => True end.

Lemma select_outputs_spec (outputs : list Output) target strategy :
  outputs_small outputs → target_nonneg target →
  match select_outputs (ForeignError := ForeignError) outputs target strategy with
  | Ok sel => selects outputs target strategy sel
  | Err e => e = InsufficientFunds ∧ ∃ a, target = MinTotalValue a ∧ outputs_total outputs < a
  end.
Proof.
  intros [Hok Hsmall] Hnn. unfold select_outputs. destruct target as [a|n]; [|done].
  rewrite sum_u_exact by (done || by apply outputs_nonneg). fold (outputs_total outputs).
  simpl in Hnn. destruct (Z.ltb_spec (outputs_total outputs) a) as [Hlt|Hge]; [by eauto|].
  destruct (List.find _ outputs) as [o|] eqn:Hf.
  { apply find_Some_elem in Hf as [Ho Ha%Z.eqb_eq]. left. by exists o. }
  destruct (fill_amount_spec a (sort_outputs strategy outputs)) as (n & -> & Hend & Hmin); [|done|].
  { by rewrite sort_outputs_perm. }
  assert (a ≤ outputs_total (take n (sort_outputs strategy outputs))) as Hcover.
  { destruct Hend as [?| ->]; [done|]. unfold outputs_total in *. by rewrite sort_outputs_perm. }
  destruct (Z.ltb_spec 0 (Z.max 0 (a - outputs_total (take n (sort_outputs strategy outputs)))));
    [lia|]. right. split; [|eauto]. intros o Ho Heq. rewrite find_None_elem in Hf.
  specialize (Hf o Ho). apply Z.eqb_neq in Hf. done.
Qed.

(** ** Reserving *)

Lemma output_vec_in (a : @AvailableTokenOutputs PublicKey) o :
  outputs_keyed (ato_outputs a) → o ∈ output_vec a →
  ∃ s, ato_outputs a !! out_id o = Some s ∧ sto_output s = o.
Proof.
  intros Hk (s & -> & [i Hi]%elem_of_hm_values)%list_elem_of_fmap. exists s.
  split; [|done]. change (out_id (sto_output s)) with (sto_id s). by rewrite (Hk i s Hi).
Qed.

Lemma output_vec_NoDup (a : @AvailableTokenOutputs PublicKey) :
  outputs_keyed (ato_outputs a) → NoDup (out_id <$> output_vec a).
Proof.
  intros Hk. unfold output_vec, hm_values. rewrite <- !list_fmap_compose.
  replace (_ <$> hm_iter (ato_outputs a)) with (hm_iter (ato_outputs a)).*1; [apply NoDup_hm_keys|].
  apply list_fmap_ext. intros n [i s] Hn. simpl. symmetry. apply (Hk i s).
  apply elem_of_hm_iter. by eapply list_elem_of_lookup_2.
Qed.

Lemma candidates_sub (a : @AvailableTokenOutputs PublicKey) pref :
  sublist (candidates a pref) (output_vec a).
Proof. unfold candidates. case_match; [apply sublist_bfilter|done]. Qed.

(** A selection out of a keyed pool: distinct outputs that the pool holds. *)
Lemma selection_held (a : @AvailableTokenOutputs PublicKey) pref sel :
  outputs_keyed (ato_outputs a) → sel ⊆+ candidates a pref →
  NoDup (out_id <$> sel) ∧ sto_output <$> omap (λ o, ato_outputs a !! out_id o) sel = sel.
Proof.
  intros Hk Hs. assert (sel ⊆+ output_vec a) as Hsub.
  { etrans; [done|]. apply sublist_submseteq, candidates_sub. }
  split.
  - pose proof (output_vec_NoDup a Hk) as Hnd. apply (fmap_submseteq out_id) in Hsub.
    apply submseteq_Permutation in Hsub as [rest Hp]. rewrite Hp in Hnd.
    by apply NoDup_app in Hnd as [? _].
  - assert (∀ o, o ∈ sel → ∃ s, ato_outputs a !! out_id o = Some s ∧ sto_output s = o) as Hin.
    { intros o Ho. apply output_vec_in; [done|]. by eapply elem_of_submseteq. }
    clear Hs Hsub. induction sel as [|o sel IH]; [done|].
    destruct (Hin o ltac:(by left)) as (s & Hs & Ho). simpl. rewrite Hs, fmap_cons.
    f_equal; [done|]. apply IH. intros o' Ho'. apply Hin. by right.
Qed.

Lemma selected_ids (a : @AvailableTokenOutputs PublicKey) pref sel :
  outputs_keyed (ato_outputs a) → sel ⊆+ candidates a pref →
  sto_id <$> omap (λ o, ato_outputs a !! out_id o) sel = out_id <$> sel.
Proof.
  intros Hk Hs. destruct (selection_held a pref sel Hk Hs) as [_ Heq].
  rewrite <- Heq at 2. by rewrite <- list_fmap_compose.
Qed.

(** The state after a reservation of [sel]. *)
Definition reserved_tokens (uuid : string) st (token_id : string) (a : AvailableTokenOutputs)
    (sel : list Output) (p : ReservationPurpose) : State :=
  set_reservations
    (<[uuid := {| entry_metadata := ato_metadata a;
                  stored_outputs := omap (λ o, ato_outputs a !! out_id o) sel; purpose := p |}]>
       (reservations st))
    (set_available
       (<[token_id := with_outputs (filter (λ kv, kv.1 ∉ out_id <$> sel) (ato_outputs a)) a]>
          (available_token_outputs st)) st).

Lemma reserve_cases uuid st token_id target p pref strategy st' (r : @TokenOutputsReservation PublicKey) :
  reserve_token_outputs (ForeignError := ForeignError) uuid st token_id target p pref strategy
    = (st', Ok r) →
  ∃ a sel, available_token_outputs st !! token_id = Some a ∧
    check_target (ForeignError := ForeignError) target = Ok () ∧
    select_outputs (ForeignError := ForeignError) (candidates a pref) target strategy = Ok sel ∧
    st' = reserved_tokens uuid st token_id a sel p ∧
    r = TokenOutputsReservation_new uuid {| tos_metadata := ato_metadata a; tos_outputs := sel |}.
Proof.
  unfold reserve_token_outputs. destruct (check_target target) as [[]|]; [|done].
  destruct (available_token_outputs st !! token_id) as [a|]; [|done].
  destruct (select_outputs _ _ _) as [sel|] eqn:Hsel; [|done]. intros [= <- <-]. by exists a, sel.
Qed.

Lemma contains_reserved uuid st token_id a sel p i :
  pools_ok (available_token_outputs st) → available_token_outputs st !! token_id = Some a →
  (∀ j, j ∈ out_id <$> sel → is_Some (ato_outputs a !! j)) →
  contains (available_token_outputs (reserved_tokens uuid st token_id a sel p)) i ↔
  contains (available_token_outputs st) i ∧ i ∉ out_id <$> sel.
Proof.
  intros Hok Ha Hsel. simpl. split.
  - intros (k & b & [[<- <-]|[Hne Hk]]%lookup_insert_Some & Hi).
    + destruct Hi as [s [Hs ?]%map_lookup_filter_Some]. split; [|done]. exists token_id, a.
      split; [done|by eexists].
    + split; [by exists k, b|]. intros Hin. apply Hne. by eapply (pools_disjoint _ Hok); eauto.
  - intros [(k & b & Hk & Hi) Hn]. destruct (decide (k = token_id)) as [->|Hne].
    + simplify_eq. eexists token_id, _. split; [apply lookup_insert_eq|]. simpl.
      destruct Hi as [s Hs]. exists s. by apply map_lookup_filter_Some.
    + exists k, b. by rewrite lookup_insert_ne.
Qed.

Lemma selected_in_pool (a : @AvailableTokenOutputs PublicKey) pref sel j :
  outputs_keyed (ato_outputs a) → sel ⊆+ candidates a pref → j ∈ out_id <$> sel →
  is_Some (ato_outputs a !! j).
Proof.
  intros Hk Hs (o & -> & Ho)%list_elem_of_fmap.
  destruct (output_vec_in a o Hk) as (s & Hso & _); [|by eexists].
  eapply elem_of_submseteq; [done|]. etrans; [done|]. apply sublist_submseteq, candidates_sub.
Qed.

Lemma inv_reserved_tokens uuid st token_id a pref sel p :
  token_inv st → reservations st !! uuid = None →
  available_token_outputs st !! token_id = Some a → sel ⊆+ candidates a pref →
  token_inv (reserved_tokens uuid st token_id a sel p).
Proof.
  intros Hinv Hu Ha Hs. pose proof (ti_pools _ Hinv) as Hok.
  pose proof (pools_outputs_keyed _ Hok _ _ Ha) as Hk.
  pose proof (selected_ids a pref sel Hk Hs) as Hids.
  assert (∀ j, j ∈ out_id <$> sel → is_Some (ato_outputs a !! j)) as Hin
    by by intros; eapply selected_in_pool.
  pose proof (λ i, contains_reserved uuid st token_id a sel p i Hok Ha Hin) as Hc.
  assert (∀ j, j ∈ out_id <$> sel → contains (available_token_outputs st) j) as Hcon.
  { intros j Hj. exists token_id, a. split; [done|by apply Hin]. }
  assert (∀ i, reserved_in (reserved_tokens uuid st token_id a sel p) i →
    i ∈ out_id <$> sel ∨ reserved_in st i) as Hres.
  { intros i (r & e & Hr & Hi). simpl in Hr.
    apply lookup_insert_Some in Hr as [[<- <-]|[_ Hr]]; [left|right; by exists r, e].
    unfold entry_ids in Hi. simpl in Hi. by rewrite Hids in Hi. }
  split.
  - simpl. apply pools_ok_shrink; [done|done|]. intros i [s [Hsi ?]%map_lookup_filter_Some].
    rewrite Hsi. by apply map_lookup_filter_Some.
  - intros r e. simpl. intros [[<- <-]|[_ Hr]]%lookup_insert_Some; [|by eapply (ti_nodup _ Hinv)].
    unfold entry_ids. simpl. rewrite Hids. by eapply selection_held.
  - intros i Hi Hco. apply Hc in Hco as [Hco Hn]. destruct (Hres i Hi) as [?|?]; [done|].
    by eapply (ti_reserved_out _ Hinv).
  - assert (∀ r e i, reservations st !! r = Some e → i ∈ entry_ids e →
      i ∉ out_id <$> sel) as Hold.
    { intros r e i Hr Hi Hsel. apply (ti_reserved_out _ Hinv i); [by exists r, e|by apply Hcon]. }
    intros r1 r2 e1 e2 i. simpl. rewrite !lookup_insert_Some. unfold entry_ids in *.
    intros [[<- <-]|[? H1]] [[<- <-]|[? H2]]; simpl; rewrite ?Hids; intros Hi1 Hi2;
      [done| | |by eapply (ti_reserved_once _ Hinv)]; exfalso; by eapply Hold.
  - intros i Hi. destruct (ti_spent_out _ Hinv i Hi) as [Hn1 Hn2]. split.
    + by intros [? _]%Hc.
    + intros [?%Hcon|?]%Hres; done.
Qed.

(** ** Reachable states *)

Inductive TokenCommand : Type :=
| SetTokens (tokens : list Tokens) (refresh_started_at : Z)
| InsertTokens (t : Tokens)
| ReserveTokens (token_id : string) (target : ReservationTarget) (p : ReservationPurpose)
    (preferred_outputs : option (list Output)) (strategy : option SelectionStrategy)
| CancelTokens (id : string)
| FinalizeTokens (id : string).

Definition run_token_command (now : Z) (uuid : string) st (c : TokenCommand) : State :=
  match c with
  | SetTokens tokens t => (set_tokens_outputs (ForeignError := ForeignError) now st tokens t).1
  | InsertTokens t => (insert_token_outputs (ForeignError := ForeignError) now st t).1
  | ReserveTokens token_id target p pref strategy =>
      (reserve_token_outputs (ForeignError := ForeignError) uuid st token_id target p pref strategy).1
  | CancelTokens id => (cancel_reservation (ForeignError := ForeignError) st id).1
  | FinalizeTokens id => (finalize_reservation (ForeignError := ForeignError) now st id).1
  end.

(** What holds of the calls: an output is reported under one token, an output
    received is not held elsewhere, an identifier is fresh, amounts fit. *)
Definition token_command_ok (uuid : string) st (c : TokenCommand) : Prop :=
  match c with
  | SetTokens tokens _ => tokens_ok tokens
  | InsertTokens t => insert_ok st t
  | ReserveTokens token_id target _ pref _ =>
      reservations st !! uuid = None ∧ target_nonneg target ∧
      ∀ a, available_token_outputs st !! token_id = Some a → outputs_small (candidates a pref)
  | CancelTokens _ | FinalizeTokens _ => True
  end.

Lemma inv_token_command now uuid st c :
  token_inv st → token_command_ok uuid st c → token_inv (run_token_command now uuid st c).
Proof.
  intros Hinv Hc. destruct c as [tokens t|t|token_id target p pref strategy|id|id];
    cbn [run_token_command token_command_ok] in *.
  - by apply inv_set_tokens.
  - by apply inv_insert.
  - destruct Hc as (Hu & Hnn & Hsmall).
    destruct (reserve_token_outputs _ _ _ _ _ _ _) as [st' [r|e]] eqn:Hr; simpl.
    + apply reserve_cases in Hr as (a & sel & Ha & _ & Hsel & -> & _).
      eapply (inv_reserved_tokens uuid st token_id a pref); [done|done|done|].
      pose proof (select_outputs_spec (candidates a pref) target strategy (Hsmall a Ha) Hnn) as Hspec.
      rewrite Hsel in Hspec. by eapply selects_sub.
    + unfold reserve_token_outputs in Hr. repeat case_match; by simplify_eq.
  - by apply token_inv_cancel.
  - by apply token_inv_finalize.
Qed.

(** what a reservation of token outputs does: on success it moves from the
    token's pool to the reservation exactly the outputs it selected, an output of
    exactly the amount if there is one and else the shortest prefix of the sorted
    candidates that covers it (or the requested number of outputs); on failure it
    changes nothing, and for a positive amount it fails only when the candidates
    do not cover it. *)
Theorem reserve_token_outputs_spec uuid st token_id a target p pref strategy :
  token_inv st → available_token_outputs st !! token_id = Some a →
  outputs_small (candidates a pref) → target_nonneg target →
  match reserve_token_outputs (ForeignError := ForeignError) uuid st token_id target p pref strategy with
  | (st', Ok r) =>
      let sel := tos_outputs (token_outputs r) in
      selects (candidates a pref) target strategy sel ∧
      (∃ e, reservations st' !! tor_id r = Some e ∧ sto_output <$> stored_outputs e = sel ∧
            purpose e = p) ∧
      (∀ i, contains (available_token_outputs st') i ↔
            contains (available_token_outputs st) i ∧ i ∉ out_id <$> sel)
  | (st', Err e) =>
      st' = st ∧ ∀ n, target = MinTotalValue n → 0 < n →
        e = InsufficientFunds ∧ outputs_total (candidates a pref) < n
  end.
Proof.
  intros Hinv Ha Hsmall Hnn. pose proof (ti_pools _ Hinv) as Hok.
  pose proof (pools_outputs_keyed _ Hok _ _ Ha) as Hk.
  pose proof (select_outputs_spec (candidates a pref) target strategy Hsmall Hnn) as Hspec.
  destruct (reserve_token_outputs _ _ _ _ _ _ _) as [st' [r|e]] eqn:Hr.
  - apply reserve_cases in Hr as (a' & sel & Ha' & _ & Hsel & -> & ->). simplify_eq.
    rewrite Hsel in Hspec. simpl. pose proof (selects_sub _ _ _ _ Hspec) as Hs.
    split_and!; [done| |].
    + eexists. split; [apply lookup_insert_eq|]. simpl. split; [|done].
      by apply (selection_held a pref sel).
    + intros i. apply (contains_reserved uuid st token_id a sel p i Hok Ha).
      intros j Hj. by eapply selected_in_pool.
  - unfold reserve_token_outputs in Hr. rewrite Ha in Hr.
    destruct (check_target target) as [[]|] eqn:Hc.
    + destruct (select_outputs _ _ _) as [sel|e'] eqn:Hsel; [done|]. simplify_eq.
      split; [done|]. intros n -> _. destruct Hspec as (-> & n' & [= <-] & ?). done.
    + simplify_eq. split; [done|]. intros n -> Hpos. simpl in Hc.
      destruct (Z.eqb_spec n 0); [lia|done].
Qed.

Lemma cancel_reserved_tokens uuid st token_id target p pref strategy st'
    (r : @TokenOutputsReservation PublicKey) :
  token_inv st → reservations st !! uuid = None → target_nonneg target →
  (∀ a, available_token_outputs st !! token_id = Some a → outputs_small (candidates a pref)) →
  reserve_token_outputs (ForeignError := ForeignError) uuid st token_id target p pref strategy
    = (st', Ok r) →
  cancel_reservation (ForeignError := ForeignError) st' (tor_id r) = (st, Ok ()).
Proof.
  intros Hinv Hu Hnn Hsmall Hr. apply reserve_cases in Hr as (a & sel & Ha & _ & Hsel & -> & ->).
  pose proof (select_outputs_spec (candidates a pref) target strategy (Hsmall a Ha) Hnn) as Hspec.
  rewrite Hsel in Hspec. apply selects_sub in Hspec as Hs. pose proof (ti_pools _ Hinv) as Hok.
  pose proof (pools_outputs_keyed _ Hok _ _ Ha) as Hk.
  pose proof (selected_ids a pref sel Hk Hs) as Hids.
  unfold cancel_reservation, reserved_tokens. simpl. rewrite lookup_insert_eq. simpl.
  rewrite (pools_keyed _ Hok _ _ Ha), lookup_insert_eq, delete_insert_id, insert_insert_eq by done.
  destruct st as [pools res spent swap]. unfold set_available, set_reservations. simpl in *.
  do 2 f_equal. apply map_eq. intros k. rewrite lookup_insert.
  case_decide as Heq; [|done]. subst k. rewrite Ha. f_equal. destruct a as [md outs].
  unfold with_outputs. simpl in *. f_equal. apply map_eq. intros i.
  destruct (decide (i ∈ out_id <$> sel)) as [Hi|Hi].
  - rewrite <- Hids in Hi.
    destruct (lookup_insert_all_in sto_id (λ s, s) _ (filter (λ kv, kv.1 ∉ out_id <$> sel) outs) i Hi)
      as (s & Hin & Hsi & ->).
    apply list_elem_of_omap in Hin as (o & Ho & Hos).
    pose proof (Hk _ _ Hos) as Hid. rewrite <- Hsi, Hid. by rewrite Hos.
  - rewrite lookup_insert_all_ne by by rewrite Hids. rewrite map_lookup_filter.
    destruct (outs !! i); simpl; [|done]. by rewrite option_guard_True.
Qed.

(** cancelling a token reservation right after making it restores the store. *)
Theorem cancel_undoes_token_reserve uuid st token_id target p pref strategy st'
    (r : @TokenOutputsReservation PublicKey) :
  token_inv st → reservations st !! uuid = None → target_nonneg target →
  (∀ a, available_token_outputs st !! token_id = Some a → outputs_small (candidates a pref)) →
  reserve_token_outputs (ForeignError := ForeignError) uuid st token_id target p pref strategy
    = (st', Ok r) →
  cancel_reservation (ForeignError := ForeignError) st' (tor_id r) = (st, Ok ()).
Proof. apply cancel_reserved_tokens. Qed.

End props.

(** ** Witnesses *)

#[local] Existing Instance canonical_order.

Definition ex_metadata : @TokenMetadata Z :=
  {| identifier := "tok"; issuer_public_key := 7; name := "Token"; ticker := "TOK";
     decimals := 2; max_supply := 1000000; is_freezable := false;
     creation_entity_public_key := None |}.

Definition ex_output (id : string) (amount : Z) : @TokenOutputWithPrevOut Z :=
  {| output := {| to_id := id; owner_public_key := 1; revocation_commitment := "rc";
                  withdraw_bond_sats := 10; withdraw_relative_block_locktime := 100;
                  token_public_key := None; token_identifier := "tok"; token_amount := amount |};
     prev_tx_hash := "tx"; prev_tx_vout := 0 |}.

Definition ex_tokens : @TokenOutputs Z :=
  {| tos_metadata := ex_metadata;
     tos_outputs := [ex_output "o1" 50; ex_output "o2" 20; ex_output "o3" 30] |}.

Definition ex_token_store : @TokenOutputsState Z :=
  run_token_command (ForeignError := string) 100 "r0" TokenOutputsState_default
    (InsertTokens ex_tokens).

Definition ex_pool : @AvailableTokenOutputs Z :=
  default {| ato_metadata := ex_metadata; ato_outputs := ∅ |}
    (available_token_outputs ex_token_store !! "tok").

Lemma ex_insert_ok : token_command_ok "r0" TokenOutputsState_default (InsertTokens ex_tokens).
Proof.
  intros i _. split.
  - intros (r & e & Hr & _). simpl in Hr. by rewrite lookup_empty in Hr.
  - intros (k & a & Hk & _). simpl in Hk. by rewrite lookup_empty in Hk.
Defined.

Lemma ex_token_inv : token_inv ex_token_store.
Proof. apply inv_token_command; [apply token_inv_default|exact ex_insert_ok]. Defined.

#[local] Instance outputs_small_dec (l : list (@TokenOutputWithPrevOut Z)) :
  Decision (outputs_small l).
Proof. unfold outputs_small. apply _. Defined.

Lemma ex_pool_small : outputs_small (candidates ex_pool None).
Proof. compute_done. Defined.

Lemma ex_pool_found a :
  available_token_outputs ex_token_store !! "tok" = Some a → outputs_small (candidates a None).
Proof.
  intros Ha. replace a with ex_pool; [exact ex_pool_small|]. unfold ex_pool. by rewrite Ha.
Defined.

Lemma reserve_token_outputs_spec_witness :
  match reserve_token_outputs (ForeignError := string) "r1" ex_token_store "tok"
          (MinTotalValue 45) Payment None None with
  | (st', Ok r) =>
      let sel := tos_outputs (token_outputs r) in
      selects (candidates ex_pool None) (MinTotalValue 45) None sel ∧
      (∃ e, reservations st' !! tor_id r = Some e ∧ sto_output <$> stored_outputs e = sel ∧
            purpose e = Payment) ∧
      (∀ i, contains (available_token_outputs st') i ↔
            contains (available_token_outputs ex_token_store) i ∧ i ∉ out_id <$> sel)
  | (st', Err e) =>
      st' = ex_token_store ∧ ∀ n, MinTotalValue 45 = MinTotalValue n → 0 < n →
        e = InsufficientFunds ∧ outputs_total (candidates ex_pool None) < n
  end.
Proof.
  apply (reserve_token_outputs_spec (ForeignError := string) "r1" ex_token_store "tok" ex_pool).
  - exact ex_token_inv.
  - by vm_compute.
  - exact ex_pool_small.
  - by vm_compute.
Defined.

Definition ex_token_reserved :=
  reserve_token_outputs (ForeignError := string) "r1" ex_token_store "tok"
    (MinTotalValue 45) Payment None None.

Definition ex_token_reservation : @TokenOutputsReservation Z :=
  match ex_token_reserved.2 with
  | Ok r => r
  | Err _ => TokenOutputsReservation_new "" ex_tokens
  end.

Lemma cancel_undoes_token_reserve_witness :
  cancel_reservation (ForeignError := string) ex_token_reserved.1 (tor_id ex_token_reservation)
  = (ex_token_store, Ok ()).
Proof.
  apply (cancel_undoes_token_reserve (ForeignError := string) "r1" ex_token_store "tok"
           (MinTotalValue 45) Payment None None _ ex_token_reservation).
  - exact ex_token_inv.
  - by vm_compute.
  - by vm_compute.
  - exact ex_pool_found.
  - by vm_compute.
Defined.
