(* ===== verification/TokenStoreRuns.v ===== *)
(** Runs of the in-memory token output store ([crates/spark/src/token/store/mod.rs]), whatever
    its callers ask: where an output can be, and how a spent one can come back. *)
From S2P Require Import Prelude TokenStore TokenStoreInv TokenStoreProps.

Section runs.
Context {PublicKey ForeignError : Type} `{EqDecision PublicKey} {ho : HashOrder}.
Abbreviation Pools := (gmap string (@AvailableTokenOutputs PublicKey)).
Abbreviation State := (@TokenOutputsState PublicKey).
Abbreviation Entry := (@TokenOutputsEntry PublicKey).
Abbreviation Stored := (@StoredTokenOutput PublicKey).
Abbreviation Tokens := (@TokenOutputs PublicKey).
Abbreviation Output := (@TokenOutputWithPrevOut PublicKey).
Implicit Types (pools : Pools) (st : State) (i k r : string) (e : Entry) (s : Stored).

(** ** Places *)

Inductive TokenPlace : Type := PoolOf (token : string) | ReservedBy (r : string).

#[local] Instance TokenPlace_eq_dec : EqDecision TokenPlace.
Proof. solve_decision. Defined.

Definition in_pool pools k i : Prop := ∃ a, pools !! k = Some a ∧ is_Some (ato_outputs a !! i).

Definition placed st i (pl : TokenPlace) : Prop :=
  match pl with
  | PoolOf k => in_pool (available_token_outputs st) k i
  | ReservedBy r => ∃ e, reservations st !! r = Some e ∧ i ∈ entry_ids e
  end.

Definition placed_once st i : Prop := ∀ pl pl', placed st i pl → placed st i pl' → pl = pl'.
Definition nowhere st i : Prop := ∀ pl, ¬ placed st i pl.

Definition pool_once pools i : Prop := ∀ k k', in_pool pools k i → in_pool pools k' i → k = k'.

(** What holds of the pools of every state: they are keyed by their contents. *)
Definition pools_tidy pools : Prop :=
  ∀ k a, pools !! k = Some a → identifier (ato_metadata a) = k ∧ outputs_keyed (ato_outputs a).

Lemma pools_tidy_insert pools k a :
  pools_tidy pools → identifier (ato_metadata a) = k → outputs_keyed (ato_outputs a) →
  pools_tidy (<[k := a]> pools).
Proof. intros Hp Hk Ho k' a' [[<- <-]|[_ ?]]%lookup_insert_Some; [done|by apply Hp]. Qed.

Lemma in_pool_insert pools k a k' i :
  in_pool (<[k := a]> pools) k' i ↔
  (k' = k ∧ is_Some (ato_outputs a !! i)) ∨ (k' ≠ k ∧ in_pool pools k' i).
Proof.
  unfold in_pool. split.
  - intros (b & [[<- <-]|[? Hb]]%lookup_insert_Some & Hi); [by left|right]. eauto.
  - intros [[-> Hi]|[Hne (b & Hb & Hi)]].
    + exists a. by rewrite lookup_insert_eq.
    + exists b. by rewrite lookup_insert_ne.
Qed.

Lemma outputs_keyed_empty : outputs_keyed (∅ : gmap string Stored).
Proof. intros ? ? Hs. by rewrite lookup_empty in Hs. Qed.

(** ** A refresh *)

Lemma refresh_token_places now (spent : gmap string Z) pools (t : Tokens) :
  pools_tidy pools →
  pools_tidy (refresh_token now spent pools t) ∧
  ∀ k i, in_pool (refresh_token now spent pools t) k i →
    in_pool pools k i ∨
    (k = identifier (tos_metadata t) ∧ i ∈ out_id <$> tos_outputs t ∧ spent !! i = None).
Proof.
  intros Hp. unfold refresh_token. set (k := identifier (tos_metadata t)).
  set (old := ato_outputs (default _ (pools !! k))).
  assert (outputs_keyed old) as Hold.
  { unfold old. destruct (pools !! k) as [a|] eqn:Ha; [by eapply Hp|apply outputs_keyed_empty]. }
  destruct (foldl_unspent now spent (tos_outputs t) old Hold) as [Hkey Hnew].
  split; [by apply pools_tidy_insert|].
  intros k' i [[-> Hi]|[_ Hi]]%in_pool_insert; [|by left]. simpl in Hi.
  apply Hnew in Hi as [Hi|[Hi Hs]]; [left|by right].
  unfold old in Hi. destruct (pools !! k) as [a|] eqn:Ha; simpl in Hi; [by exists a|].
  rewrite lookup_empty in Hi. by destruct Hi.
Qed.

Definition reported_as (tokens : list Tokens) k i : Prop :=
  ∃ t, t ∈ tokens ∧ identifier (tos_metadata t) = k ∧ i ∈ out_id <$> tos_outputs t.

Lemma refresh_tokens_places now (spent : gmap string Z) (tokens : list Tokens) pools :
  pools_tidy pools →
  pools_tidy (foldl (refresh_token now spent) pools tokens) ∧
  ∀ k i, in_pool (foldl (refresh_token now spent) pools tokens) k i →
    in_pool pools k i ∨ (reported_as tokens k i ∧ spent !! i = None).
Proof.
  revert pools. induction tokens as [|t tokens IH]; intros pools Hp; [split; [done|by left]|].
  destruct (refresh_token_places now spent pools t Hp) as [Hp1 H1].
  destruct (IH _ Hp1) as [Hp2 H2]. split; [done|]. intros k i [[?|(-> & Hi & Hs)]%H1|[(t' & ? & ? & ?) Hs]]%H2.
  - by left.
  - right. split; [|done]. exists t. split_and!; [by left|done|done].
  - right. split; [|done]. exists t'. split_and!; [by right|done|done].
Qed.

Lemma already_exists_in pools i : already_exists pools i = true ↔ ∃ k, in_pool pools k i.
Proof. apply already_exists_spec. Qed.

(** An output kept from the old pools goes to its token, if no pool has it. *)
Lemma preserve_output_places t md pools j s :
  pools_tidy pools → sto_id s = j →
  pools_tidy (preserve_output t md pools (j, s)) ∧
  ∀ k i, in_pool (preserve_output t md pools (j, s)) k i →
    in_pool pools k i ∨ (i = j ∧ k = identifier md ∧ ∀ k', ¬ in_pool pools k' i).
Proof.
  intros Hp Hs. unfold preserve_output. case_match eqn:Hb; [|split; [done|by left]].
  apply andb_true_iff in Hb as [_ Hex%negb_true_iff]. set (k0 := identifier md).
  set (old := default _ (pools !! k0)).
  assert (identifier (ato_metadata old) = k0 ∧ outputs_keyed (ato_outputs old)) as [Hid Hk].
  { unfold old. destruct (pools !! k0) as [a|] eqn:Ha; [by apply Hp|]. split; [done|apply outputs_keyed_empty]. }
  split; [by apply pools_tidy_insert; [..|apply outputs_keyed_insert]|].
  intros k i [[-> Hi]|[_ Hi]]%in_pool_insert; [|by left]. simpl in Hi.
  rewrite lookup_insert in Hi. case_decide as Heq.
  - right. subst i. split_and!; [done|done|]. intros k' Hk'.
    assert (already_exists pools j = true) as Hc by (apply already_exists_in; eauto). congruence.
  - left. unfold old in Hi. destruct (pools !! k0) as [a|] eqn:Ha; [by exists a|].
    simpl in Hi. rewrite lookup_empty in Hi. by destruct Hi.
Qed.

(** What preserving old outputs keeps: where they come from, and that they stay in one pool. *)
Definition grown (old : string → string → Prop) pools pools' : Prop :=
  (∀ k i, in_pool pools' k i → in_pool pools k i ∨ (old k i ∧ ∀ k', ¬ in_pool pools k' i)) ∧
  ∀ i, pool_once pools i → pool_once pools' i.

Lemma grown_refl old pools : grown old pools pools.
Proof. split; [by left|done]. Qed.

Lemma grown_trans old p1 p2 p3 : (∀ k i, in_pool p1 k i → in_pool p2 k i) →
  grown old p1 p2 → grown old p2 p3 → grown old p1 p3.
Proof.
  intros Hsub [H1 O1] [H2 O2]. split; [|auto]. intros k i [?%H1|[? Hno]]%H2; [done|].
  right. split; [done|]. intros k' Hk'. eapply Hno. eauto.
Qed.

Lemma preserve_output_keeps t md pools j s k i :
  in_pool pools k i → in_pool (preserve_output t md pools (j, s)) k i.
Proof.
  intros Hi. unfold preserve_output. case_match; [|done]. apply in_pool_insert.
  destruct (decide (k = identifier md)) as [->|]; [left|by right]. split; [done|].
  destruct Hi as (a & Ha & Hi). rewrite Ha. simpl. rewrite lookup_insert. by case_decide.
Qed.

Lemma preserve_token_places t pools (a : @AvailableTokenOutputs PublicKey) :
  pools_tidy pools → outputs_keyed (ato_outputs a) →
  let old := λ k i, k = identifier (ato_metadata a) ∧ is_Some (ato_outputs a !! i) in
  pools_tidy (preserve_token t pools a) ∧ grown old pools (preserve_token t pools a) ∧
  ∀ k i, in_pool pools k i → in_pool (preserve_token t pools a) k i.
Proof.
  intros Hp Ha old. unfold preserve_token.
  assert (∀ kv, kv ∈ hm_iter (ato_outputs a) → ato_outputs a !! kv.1 = Some kv.2) as Hiter
    by by (intros [i s] Hi; apply elem_of_hm_iter).
  revert pools Hp. induction (hm_iter (ato_outputs a)) as [|[j s] l IH]; intros pools Hp;
    [split_and!; [done|apply grown_refl|done]|].
  cbn [foldl]. pose proof (Hiter (j, s) ltac:(by left)) as Hj. simpl in Hj.
  destruct (preserve_output_places t (ato_metadata a) pools j s Hp (Ha _ _ Hj)) as [Hp1 H1].
  assert (∀ k i, in_pool pools k i → in_pool (preserve_output t (ato_metadata a) pools (j, s)) k i) as Hk1
    by (intros; by apply preserve_output_keeps).
  destruct (IH (λ kv H, Hiter kv (list_elem_of_further _ _ _ H)) _ Hp1) as (Hp2 & Hg & Hk2).
  split_and!; [done| |auto]. eapply grown_trans; [exact Hk1| |exact Hg]. split.
  - intros k i [?|(-> & -> & Hno)]%H1; [by left|right]. split; [|done]. split; [done|by eexists].
  - intros i Ho k k' [Hk|(-> & -> & Hno)]%H1 [Hk'|(? & -> & Hno')]%H1; [by apply Ho|..].
    + by destruct (Hno' k).
    + by destruct (Hno k').
    + done.
Qed.

Lemma preserve_tokens_places t (olds : list (@AvailableTokenOutputs PublicKey)) pools :
  pools_tidy pools → (∀ a, a ∈ olds → outputs_keyed (ato_outputs a)) →
  let old := λ k i, ∃ a, a ∈ olds ∧ k = identifier (ato_metadata a) ∧ is_Some (ato_outputs a !! i) in
  pools_tidy (foldl (preserve_token t) pools olds) ∧ grown old pools (foldl (preserve_token t) pools olds) ∧
  ∀ k i, in_pool pools k i → in_pool (foldl (preserve_token t) pools olds) k i.
Proof.
  revert pools. induction olds as [|a olds IH]; intros pools Hp Ha old;
    [split_and!; [done|apply grown_refl|done]|].
  destruct (preserve_token_places t pools a Hp (Ha a ltac:(by left))) as (Hp1 & [G1 O1] & Hk1).
  destruct (IH _ Hp1 (λ b H, Ha b (list_elem_of_further _ _ _ H))) as (Hp2 & [G2 O2] & Hk2).
  cbn [foldl]. split_and!; [done| |auto]. eapply grown_trans; [exact Hk1|..]; split; [|exact O1| |exact O2].
  - intros k i [?|[[-> ?] ?]]%G1; [by left|right]. split; [|done]. exists a. split_and!; [by left|done|done].
  - intros k i [?|[(b & ? & -> & ?) ?]]%G2; [by left|right]. split; [|done]. exists b.
    split_and!; [by right|done|done].
Qed.

(** ** Reconciling *)

(** What the loop over the reservations does to one of them. *)
Inductive reconciled pools (res : gmap string Entry) r e : Pools → gmap string Entry → Prop :=
| reconciled_dropped : reconciled pools res r e pools (delete r res)
| reconciled_kept tok a (kept : list Stored) e' :
    pools !! tok = Some a → sublist kept (stored_outputs e) →
    (∀ s, s ∈ kept → is_Some (ato_outputs a !! sto_id s)) → stored_outputs e' = kept →
    reconciled pools res r e
      (<[tok := with_outputs (filter (λ kv, kv.1 ∉ sto_id <$> kept) (ato_outputs a)) a]> pools)
      (<[r := e']> res).

Lemma reconcile_spec pools (res : gmap string Entry) r e :
  reconciled pools res r e (reconcile (pools, res) (r, e)).1 (reconcile (pools, res) (r, e)).2.
Proof.
  unfold reconcile. destruct (pools !! identifier (entry_metadata e)) as [a|] eqn:Ha; [|constructor].
  cbn zeta. case_bool_decide; [constructor|]. cbn [fst snd].
  apply (reconciled_kept _ _ _ _ _ _
    (List.filter (λ s, bool_decide (sto_id s ∈ ato_ids a)) (stored_outputs e))); [done|..|done].
  - apply sublist_bfilter.
  - intros s [_ Hs%bool_decide_eq_true_1]%elem_of_bfilter. by apply elem_of_dom.
Qed.

Lemma reconciled_sub pools res r e pools' res' :
  res !! r = Some e → reconciled pools res r e pools' res' → pools_tidy pools →
  pools_tidy pools' ∧ (∀ k i, in_pool pools' k i → in_pool pools k i) ∧
  (∀ r' e', res' !! r' = Some e' → ∃ e0, res !! r' = Some e0 ∧ sublist (entry_ids e') (entry_ids e0)) ∧
  (∀ r', r' ≠ r → res' !! r' = res !! r').
Proof.
  intros Hr [|tok a kept e' Ha Hs Hin He'] Hp.
  - split_and!; [done|done|..].
    + intros r' e' [_ ?]%lookup_delete_Some. by exists e'.
    + intros r' Hne. by rewrite lookup_delete_ne.
  - split_and!.
    + apply pools_tidy_insert; [done|by apply (Hp tok a)|]. intros j s. simpl.
      intros [Hj _]%map_lookup_filter_Some. by apply (proj2 (Hp tok a Ha)).
    + intros k i [[-> [s [Hi _]%map_lookup_filter_Some]]|[_ ?]]%in_pool_insert; [|done].
      exists a. split; [done|by eexists].
    + intros r' e'' [[<- <-]|[_ ?]]%lookup_insert_Some; [|by exists e'']. exists e. split; [done|].
      unfold entry_ids. rewrite He'. by apply fmap_sublist.
    + intros r' Hne. by rewrite lookup_insert_ne.
Qed.

(** One output in the loop: [o] is the reservation, among those already gone through, that
    kept it. *)
Record settling i (kvs : list (string * Entry)) pools (res : gmap string Entry) (o : option string) : Prop := {
  se_once : pool_once pools i;
  se_kept r e : res !! r = Some e → i ∈ entry_ids e → (r, e) ∈ kvs ∨ o = Some r;
  se_taken : is_Some o → ∀ k, ¬ in_pool pools k i
}.

Lemma reconciled_settles i kvs pools res o r e pools' res' :
  r ∉ kvs.*1 → reconciled pools res r e pools' res' → settling i ((r, e) :: kvs) pools res o →
  ∃ o', settling i kvs pools' res' o'.
Proof.
  intros Hr Hrec [Ho Hk Ht].
  assert (∀ r' e', r' ≠ r → res !! r' = Some e' → i ∈ entry_ids e' → (r', e') ∈ kvs ∨ o = Some r') as Hother.
  { intros r' e' Hne Hr' Hi. destruct (Hk r' e' Hr' Hi) as [[[= -> _]|?]%elem_of_cons|?]; [done|by left|by right]. }
  destruct Hrec as [|tok a kept e' Ha Hs Hin He'].
  { exists o. split; [done| |done]. intros r' e' [Hne ?]%lookup_delete_Some. by eapply Hother. }
  set (pools' := <[tok := _]> pools).
  assert (∀ k, in_pool pools' k i → in_pool pools k i ∧ (k = tok → i ∉ sto_id <$> kept)) as Hsub.
  { intros k [[-> [s [Hi Hn]%map_lookup_filter_Some]]|[Hne Hi]]%in_pool_insert; [|done].
    split; [|by intros _]. exists a. split; [done|by eexists]. }
  assert (pool_once pools' i) as Ho' by (intros k k' [? _]%Hsub [? _]%Hsub; by apply Ho).
  assert (entry_ids e' = sto_id <$> kept) as Hids by (unfold entry_ids; by rewrite He').
  destruct (decide (i ∈ sto_id <$> kept)) as [Hi|Hi].
  - assert (in_pool pools tok i) as Hpool.
    { exists a. split; [done|]. apply list_elem_of_fmap in Hi as (s & -> & Hsk). by apply Hin. }
    assert (o = None) as -> by (apply eq_None_not_Some; intros Hso; by eapply Ht).
    exists (Some r). split; [done|..].
    + intros r' e'' [[<- <-]|[Hne Hr']]%lookup_insert_Some Hie; [by right|left].
      by destruct (Hother r' e'' (not_eq_sym Hne) Hr' Hie).
    + intros _ k [Hkp Hno]%Hsub. by apply Hno; [apply Ho|].
  - exists o. split; [done|..].
    + intros r' e'' [[<- <-]|[Hne Hr']]%lookup_insert_Some Hie; [by rewrite Hids in Hie|]. by eapply Hother.
    + intros Hso k [Hkp _]%Hsub. by eapply Ht.
Qed.

Lemma reconcile_all_spec kvs pools (res : gmap string Entry) :
  NoDup kvs.*1 → (∀ r e, (r, e) ∈ kvs → res !! r = Some e) → pools_tidy pools →
  let out := foldl reconcile (pools, res) kvs in
  pools_tidy out.1 ∧ (∀ k i, in_pool out.1 k i → in_pool pools k i) ∧
  (∀ r' e', out.2 !! r' = Some e' → ∃ e0, res !! r' = Some e0 ∧ sublist (entry_ids e') (entry_ids e0)) ∧
  (∀ i o, settling i kvs pools res o → ∃ o', settling i [] out.1 out.2 o').
Proof.
  revert pools res. induction kvs as [|[r e] kvs IH]; intros pools res Hnd Hin Hp out.
  { split_and!; [done|done|by eauto|by eauto]. }
  rewrite fmap_cons in Hnd. apply NoDup_cons in Hnd as [Hr Hnd]. unfold out. cbn [foldl].
  pose proof (reconcile_spec pools res r e) as Hrec. pose proof (Hin r e ltac:(by left)) as Hre.
  destruct (reconcile (pools, res) (r, e)) as [pools' res']. cbn [fst snd] in Hrec.
  destruct (reconciled_sub _ _ _ _ _ _ Hre Hrec Hp) as (Hp' & Hpool & Hfrom & Hrest).
  destruct (IH pools' res' Hnd) as (Hend & Hpool' & Hfrom' & Hset); [|exact Hp'|].
  - intros r' e' Hre'. rewrite Hrest; [apply Hin; by right|]. intros ->. apply Hr.
    apply list_elem_of_fmap. by exists (r, e').
  - split_and!; [done|auto|..].
    + intros r' e' (e1 & (e0 & ? & ?)%Hfrom & ?)%Hfrom'. exists e0. split; [done|by etrans].
    + intros i o Hs. destruct (reconciled_settles i kvs pools res o r e pools' res' Hr Hrec Hs) as [o' Ho'].
      by eapply Hset.
Qed.

(** ** Commands *)


(** The call hands in an output that is in another place of the store and stays there. *)
Definition token_doubles st (c : @TokenCommand PublicKey) i : Prop :=
  match c with
  | InsertTokens t =>
      i ∈ out_id <$> tos_outputs t ∧ ∃ pl, pl ≠ PoolOf (identifier (tos_metadata t)) ∧ placed st i pl
  | SetTokens tokens _ => ∃ k k', k ≠ k' ∧ reported_as tokens k i ∧ reported_as tokens k' i
  | _ => False
  end.

(** ... or hands it in at all, in a refresh if the store does not hold it for spent. *)
Definition hands_in st (c : @TokenCommand PublicKey) i : Prop :=
  match c with
  | InsertTokens t => i ∈ out_id <$> tos_outputs t
  | SetTokens tokens t => (∃ k, reported_as tokens k i) ∧ kept_spent st t !! i = None
  | _ => False
  end.

Abbreviation run := (run_token_command (PublicKey := PublicKey) (ForeignError := ForeignError)).

(** What a command does to the places of [i]. *)
Definition moves st (c : @TokenCommand PublicKey) st' i : Prop :=
  (¬ token_doubles st c i → placed_once st i → placed_once st' i) ∧
  (∀ pl, placed st' i pl → (∃ pl0, placed st i pl0) ∨ hands_in st c i).

Lemma set_tokens_moves now uuid st tokens t :
  pools_tidy (available_token_outputs st) →
  let st' := run now uuid st (SetTokens tokens t) in
  pools_tidy (available_token_outputs st') ∧ ∀ i, moves st (SetTokens tokens t) st' i.
Proof.
  intros Hp. cbn [run_token_command]. unfold set_tokens_outputs. case_match; [by split; [|split; [|left; eauto]]|].
  set (spent := kept_spent st t).
  assert (pools_tidy (∅ : Pools)) as H0 by (intros k a Hk; by rewrite lookup_empty in Hk).
  destruct (refresh_tokens_places now spent tokens ∅ H0) as [Hp1 H1].
  set (p1 := foldl (refresh_token now spent) ∅ tokens) in *.
  destruct (preserve_tokens_places t (hm_values (available_token_outputs st)) p1 Hp1) as (Hp2 & [G O] & _).
  { intros a [k Hk]%elem_of_hm_values. by eapply Hp. }
  set (p2 := foldl (preserve_token t) p1 _) in *.
  assert (∀ k i, in_pool p1 k i → reported_as tokens k i ∧ spent !! i = None) as Hrep.
  { intros k i [(a & Ha & _)|?]%H1; [by rewrite lookup_empty in Ha|done]. }
  destruct (reconcile_all_spec (hm_iter (reservations st)) p2 (reservations st)) as (Hp3 & Hpool & Hfrom & Hset);
    [apply NoDup_hm_keys|by intros r e; rewrite elem_of_hm_iter|done|].
  destruct (foldl reconcile (p2, reservations st) _) as [p3 res]. cbn [fst snd] in *.
  split; [done|]. intros i. split.
  - intros Hno _. assert (pool_once p1 i) as Ho1.
    { intros k k' [Hk _]%Hrep [Hk' _]%Hrep. destruct (decide (k = k')); [done|]. exfalso. apply Hno. by exists k, k'. }
    destruct (Hset i None) as [o [Ho3 Hkept Htaken]].
    { split; [by apply O| |by intros []]. intros r e Hr _. left. by apply elem_of_hm_iter. }
    assert (∀ r e, res !! r = Some e → i ∈ entry_ids e → o = Some r) as Hkept'.
    { intros r e Hr Hi. destruct (Hkept r e Hr Hi) as [Hn|?]; [by apply elem_of_nil in Hn|done]. }
    intros [k|r] [k'|r']; simpl.
    + intros Hk Hk'. f_equal. by apply Ho3.
    + intros Hk (e & Hr & Hi). rewrite (Hkept' _ _ Hr Hi) in Htaken. by destruct (Htaken ltac:(by eexists) k).
    + intros (e & Hr & Hi) Hk. rewrite (Hkept' _ _ Hr Hi) in Htaken. by destruct (Htaken ltac:(by eexists) k').
    + intros (e & Hr & Hi) (e' & Hr' & Hi'). pose proof (Hkept' _ _ Hr Hi). pose proof (Hkept' _ _ Hr' Hi').
      congruence.
  - intros [k|r]; simpl.
    + intros [Hk|[(a & [k0 Ha]%elem_of_hm_values & -> & Hi) _]]%Hpool%G.
      * right. apply Hrep in Hk as [? ?]. split; [by exists k|done].
      * left. exists (PoolOf (identifier (ato_metadata a))). destruct (Hp _ _ Ha) as [-> _]. by exists a.
    + intros (e & (e0 & Hr & Hs)%Hfrom & Hi). left. exists (ReservedBy r), e0. split; [done|].
      eapply elem_of_submseteq; [exact Hi|by apply sublist_submseteq].
Qed.

Lemma insert_moves now uuid st (t : Tokens) :
  pools_tidy (available_token_outputs st) →
  let st' := run now uuid st (InsertTokens t) in
  pools_tidy (available_token_outputs st') ∧ ∀ i, moves st (InsertTokens t) st' i.
Proof.
  intros Hp. cbn [run_token_command]. unfold insert_token_outputs. cbn [fst].
  set (k0 := identifier (tos_metadata t)). set (a' := match available_token_outputs _ !! k0 with Some _ => _ | None => _ end).
  assert (identifier (ato_metadata a') = k0 ∧ outputs_keyed (ato_outputs a') ∧
    ∀ i, is_Some (ato_outputs a' !! i) → in_pool (available_token_outputs st) k0 i ∨ i ∈ out_id <$> tos_outputs t)
    as (Hid & Hk & Hin).
  { unfold a'. cbn. destruct (available_token_outputs st !! k0) as [a|] eqn:Ha.
    - destruct (Hp _ _ Ha) as [Hid Hk].
      destruct (foldl_insert_new now (tos_outputs t) (ato_outputs a) Hk) as [Hk' Hi].
      split_and!; [done|done|]. intros i [?|?]%Hi; [left; by exists a|by right].
    - split_and!; [done|apply outputs_keyed_insert_all; [apply outputs_keyed_empty|done]|].
      intros i [s Hs]. apply insert_all_empty_Some in Hs as (o & Ho & <- & _). right.
      by apply list_elem_of_fmap_2. }
  split; [by apply pools_tidy_insert|]. intros i.
  assert (∀ pl, placed (set_available (<[k0 := a']> (available_token_outputs st))
      (set_spent (remove_all out_id (tos_outputs t) (spent_output_ids st)) st)) i pl →
    placed st i pl ∨ (i ∈ out_id <$> tos_outputs t ∧ pl = PoolOf k0)) as Hpl.
  { intros [k|r]; simpl; [|by left]. intros [[-> [?|?]%Hin]|[_ ?]]%in_pool_insert; [by left|by right|by left]. }
  split.
  - intros Hno Ho pl pl'. simpl in Hno. destruct (decide (pl = pl')) as [|Hne]; [done|].
    intros [H|[H ->]]%Hpl [H'|[H' ->]]%Hpl; [by apply Ho|..]; try done; exfalso; apply Hno;
      (split; [done|]); [by exists pl|by exists pl'].
  - intros pl [H|[H _]]%Hpl; [left; eauto|by right].
Qed.

Lemma reserve_moves now uuid st token_id target p pref strategy :
  pools_tidy (available_token_outputs st) →
  let st' := run now uuid st (ReserveTokens token_id target p pref strategy) in
  pools_tidy (available_token_outputs st') ∧ ∀ i, moves st (ReserveTokens token_id target p pref strategy) st' i.
Proof.
  intros Hp. cbn [run_token_command].
  destruct (reserve_token_outputs _ _ _ _ _ _ _) as [st' [r|e]] eqn:Hr; cbn [fst].
  2:{ assert (st' = st) as ->.
      { unfold reserve_token_outputs in Hr. repeat case_match; by simplify_eq. }
      split; [done|]. intros i. split; [done|left; eauto]. }
  apply reserve_cases in Hr as (a & sel & Ha & _ & _ & -> & _). destruct (Hp _ _ Ha) as [Hid Hk].
  unfold reserved_tokens. cbn.
  split; [apply pools_tidy_insert; [done|done|intros j s [? _]%map_lookup_filter_Some; by apply Hk]|].
  intros i. set (st' := set_reservations _ _).
  assert (∀ pl, placed st' i pl →
    (placed st i pl ∧ (pl = PoolOf token_id → i ∉ out_id <$> sel) ∧ pl ≠ ReservedBy uuid) ∨
    (pl = ReservedBy uuid ∧ i ∈ out_id <$> sel ∧ placed st i (PoolOf token_id))) as Hpl.
  { intros [k|r']; simpl.
    - intros [[-> [s [Hi Hn]%map_lookup_filter_Some]]|[Hne Hi]]%in_pool_insert; left.
      + split_and!; [|by intros _|done]. exists a. split; [done|by eexists].
      + split_and!; [done|by intros [= ->]|done].
    - intros (e & [[<- <-]|[Hne Hr]]%lookup_insert_Some & Hi).
      + right. split; [done|]. unfold entry_ids in Hi. simpl in Hi.
        apply list_elem_of_fmap in Hi as (s & -> & (o & Ho & Hs)%list_elem_of_omap).
        pose proof (Hk _ _ Hs) as ->. split; [by apply list_elem_of_fmap_2|]. exists a.
        split; [done|by eexists].
      + left. split_and!; [by exists e|done|congruence]. }
  split.
  - intros _ Ho pl pl' [(H & Hn & Hu)|(-> & Hs & H)]%Hpl [(H' & Hn' & Hu')|(-> & Hs' & H')]%Hpl.
    + by apply Ho.
    + by destruct (Hn (Ho _ _ H H') Hs').
    + by destruct (Hn' (Ho _ _ H' H) Hs).
    + done.
  - intros pl [(H & _)|(_ & _ & H)]%Hpl; left; eauto.
Qed.

Lemma cancel_moves now uuid st id :
  pools_tidy (available_token_outputs st) →
  let st' := run now uuid st (CancelTokens id) in
  pools_tidy (available_token_outputs st') ∧ ∀ i, moves st (CancelTokens id) st' i.
Proof.
  intros Hp. cbn [run_token_command]. unfold cancel_reservation.
  destruct (reservations st !! id) as [e|] eqn:He; [|split; [done|intros i; split; [done|left; eauto]]].
  assert (∀ i r, placed (set_reservations (delete id (reservations st)) st) i (ReservedBy r) →
    placed st i (ReservedBy r) ∧ r ≠ id) as Hdel.
  { intros i r (e' & Hr & Hi). simpl in Hr. apply lookup_delete_Some in Hr as [Hne Hr].
    split; [by exists e'|done]. }
  cbn [available_token_outputs set_reservations].
  destruct (available_token_outputs st !! identifier (entry_metadata e)) as [a|] eqn:Ha; cbn [fst].
  2:{ assert (∀ i pl, placed (set_reservations (delete id (reservations st)) st) i pl → placed st i pl) as Hsub.
      { intros i [k|r] H; [done|by apply Hdel]. }
      split; [done|]. intros i. split; [|intros pl H; left; eauto].
      intros _ Ho pl pl' H H'. apply Ho; by apply Hsub. }
  destruct (Hp _ _ Ha) as [Hid Hk]. set (tok := identifier (entry_metadata e)) in *.
  split; [apply pools_tidy_insert; [done|done|by apply outputs_keyed_insert_all]|].
  intros i. set (st' := set_available _ _).
  assert (∀ pl, placed st' i pl →
    (placed st i pl ∧ pl ≠ ReservedBy id) ∨ (pl = PoolOf tok ∧ placed st i (ReservedBy id))) as Hpl.
  { intros [k|r]; [|intros [? ?]%Hdel; left; split; [done|congruence]].
    intros [[-> [s Hs]]|[_ Hi]]%in_pool_insert; [|by left]. simpl in Hs.
    apply lookup_insert_all_Some in Hs as [(x & Hx & <- & _)|[_ Hs]].
    - right. split; [done|]. exists e. split; [done|by apply list_elem_of_fmap_2].
    - left. split; [|done]. exists a. split; [done|by eexists]. }
  split.
  - intros _ Ho pl pl' [[H Hn]|[-> H]]%Hpl [[H' Hn']|[-> H']]%Hpl; [by apply Ho|..|done].
    + destruct (Hn (Ho _ _ H H')).
    + destruct (Hn' (Ho _ _ H' H)).
  - intros pl [[H _]|[_ H]]%Hpl; left; eauto.
Qed.

Lemma finalize_places now uuid st id i pl :
  placed (run now uuid st (FinalizeTokens id)) i pl → placed st i pl ∧ pl ≠ ReservedBy id.
Proof.
  cbn [run_token_command]. unfold finalize_reservation.
  destruct (reservations st !! id) as [e|] eqn:He; cbn [fst].
  - intros H. assert (placed (set_reservations (delete id (reservations st)) st) i pl) as H'.
    { case_bool_decide; by destruct pl. }
    destruct pl as [k|r]; [done|]. destruct H' as (e' & Hr & Hi). simpl in Hr.
    apply lookup_delete_Some in Hr as [Hne Hr].
    split; [by exists e'|congruence].
  - intros H. split; [done|]. intros ->. destruct H as (e & Hr & _). congruence.
Qed.

Lemma token_moves now uuid st c :
  pools_tidy (available_token_outputs st) →
  pools_tidy (available_token_outputs (run now uuid st c)) ∧ ∀ i, moves st c (run now uuid st c) i.
Proof.
  intros Hp. destruct c as [tokens t|t|token_id target p pref strategy|id|id].
  - by apply set_tokens_moves.
  - by apply insert_moves.
  - by apply reserve_moves.
  - by apply cancel_moves.
  - split.
    + cbn [run_token_command]. unfold finalize_reservation. case_match; [|done]. simpl. by case_bool_decide.
    + intros i. split.
      * intros _ Ho pl pl' [H _]%finalize_places [H' _]%finalize_places. by apply Ho.
      * intros pl [H _]%finalize_places. left. eauto.
Qed.

(** ** Spent outputs *)

Lemma spent_stays now uuid st c i a :
  spent_output_ids st !! i = Some a → nowhere st i →
  spent_output_ids (run now uuid st c) !! i = Some a ∨
  match c with
  | InsertTokens t => i ∈ out_id <$> tos_outputs t
  | SetTokens _ t => a < t
  | _ => False
  end.
Proof.
  intros Ha Hno. destruct c as [tokens t|t|token_id target p pref strategy|id|id]; cbn [run_token_command].
  - unfold set_tokens_outputs. case_match; [by left|]. destruct (foldl reconcile _ _). simpl.
    destruct (Z.lt_ge_cases a t); [by right|left]. by apply map_lookup_filter_Some.
  - simpl. rewrite lookup_remove_all. case_decide; [by right|by left].
  - left. unfold reserve_token_outputs. by repeat case_match.
  - left. unfold cancel_reservation. by repeat case_match.
  - left. unfold finalize_reservation. destruct (reservations st !! id) as [e|] eqn:He; [|done].
    assert (insert_all sto_id (λ _, now) (stored_outputs e) (spent_output_ids st) !! i = Some a) as H.
    { rewrite lookup_insert_all_ne; [done|]. intros Hi. apply (Hno (ReservedBy id)). by exists e. }
    simpl. by case_bool_decide.
Qed.

Lemma finalize_marks now uuid st id e i :
  reservations st !! id = Some e → i ∈ entry_ids e →
  spent_output_ids (run now uuid st (FinalizeTokens id)) !! i = Some now.
Proof.
  intros He Hi. cbn [run_token_command]. unfold finalize_reservation. rewrite He.
  assert (insert_all sto_id (λ _, now) (stored_outputs e) (spent_output_ids st) !! i = Some now) as H.
  { by destruct (lookup_insert_all_in sto_id (λ _, now) (stored_outputs e) (spent_output_ids st) i Hi)
      as (x & _ & _ & ->). }
  simpl. by case_bool_decide.
Qed.

(** ** Runs *)

(** Commands with the clock and the fresh identifier each reads. *)
Definition token_run st (cmds : list (Z * string * @TokenCommand PublicKey)) : State :=
  foldl (λ st cmd, run cmd.1.1 cmd.1.2 st cmd.2) st cmds.

Definition token_doubled_at st (cmds : list (Z * string * @TokenCommand PublicKey)) (m : nat) i : Prop :=
  ∃ cmd, cmds !! m = Some cmd ∧ token_doubles (token_run st (take m cmds)) cmd.2 i.

(** An output spent at [a] comes back: it is received again, or reported by a refresh when this
    one, or an earlier one since, began after [a]. *)
Definition brought_back (cmds : list (Z * string * @TokenCommand PublicKey)) i (a : Z) : Prop :=
  ∃ m cmd, cmds !! m = Some cmd ∧
    match cmd.2 with
    | InsertTokens t => i ∈ out_id <$> tos_outputs t
    | SetTokens tokens _ =>
        (∃ k, reported_as tokens k i) ∧
        ∃ m' cmd' tokens' t', (m' ≤ m)%nat ∧ cmds !! m' = Some cmd' ∧ cmd'.2 = SetTokens tokens' t' ∧ a < t'
    | _ => False
    end.

#[local] Instance placed_dec st i pl : Decision (placed st i pl).
Proof.
  destruct pl as [k|r]; simpl.
  - unfold in_pool. destruct (available_token_outputs st !! k) as [a|] eqn:Ha; [|right; naive_solver].
    destruct (decide (is_Some (ato_outputs a !! i))); [left; by exists a|right; naive_solver].
  - destruct (reservations st !! r) as [e|] eqn:Hr; [|right; naive_solver].
    destruct (decide (i ∈ entry_ids e)); [left; by exists e|right; naive_solver].
Defined.

#[local] Instance hands_in_dec st c i : Decision (hands_in st c i).
Proof.
  destruct c as [tokens t|t|? ? ? ? ?|?|?]; simpl; try apply _.
  destruct (decide (kept_spent st t !! i = None)) as [Hk|Hk]; [|right; naive_solver].
  destruct (decide (Exists (λ t1 : Tokens, i ∈ out_id <$> tos_outputs t1) tokens)) as [H|H].
  - left. split; [|done]. apply Exists_exists in H as (t1 & ? & ?). by exists (identifier (tos_metadata t1)), t1.
  - right. intros [(k & t1 & ? & _ & ?) _]. apply H, Exists_exists. by exists t1.
Defined.

#[local] Instance token_doubles_dec st c i : Decision (token_doubles st c i).
Proof.
  destruct c as [tokens t|t|? ? ? ? ?|?|?]; simpl; try apply _.
  - unfold reported_as. destruct (decide (Exists (λ t1 : Tokens, Exists (λ t2 : Tokens,
        identifier (tos_metadata t1) ≠ identifier (tos_metadata t2) ∧
        i ∈ out_id <$> tos_outputs t1 ∧ i ∈ out_id <$> tos_outputs t2) tokens) tokens)) as [H|H].
    + left. apply Exists_exists in H as (t1 & H1 & (t2 & H2 & Hne & ? & ?)%Exists_exists).
      eexists _, _. split; [exact Hne|]. split; [by exists t1|by exists t2].
    + right. intros (k & k' & Hne & (t1 & H1 & <- & Hi1) & (t2 & H2 & <- & Hi2)). apply H, Exists_exists.
      exists t1. split; [done|]. apply Exists_exists. by exists t2.
  - set (k0 := identifier (tos_metadata t)).
    destruct (decide (Exists (λ k, k ≠ k0 ∧ placed st i (PoolOf k))
      (map_to_list (available_token_outputs st)).*1)) as [H1|H1];
    [|destruct (decide (Exists (λ r, placed st i (ReservedBy r)) (map_to_list (reservations st)).*1)) as [H2|H2]];
    destruct (decide (i ∈ out_id <$> tos_outputs t)) as [Hi|Hi].
    + left. split; [done|]. apply Exists_exists in H1 as (k & _ & ? & ?). exists (PoolOf k). split; [congruence|done].
    + right. naive_solver.
    + left. split; [done|]. apply Exists_exists in H2 as (r & _ & ?). by exists (ReservedBy r).
    + right. naive_solver.
    + right. intros (_ & [k|r] & Hne & Hpl).
      * apply H1, Exists_exists. exists k. split; [|split; [congruence|done]].
        destruct Hpl as (a & Ha & _). apply list_elem_of_fmap. exists (k, a). split; [done|]. by apply elem_of_map_to_list.
      * apply H2, Exists_exists. exists r. split; [|done].
        destruct Hpl as (e & He & _). apply list_elem_of_fmap. exists (r, e). split; [done|]. by apply elem_of_map_to_list.
    + right. naive_solver.
Defined.

Lemma token_doubled_later st cmd cmds m i :
  token_doubled_at (run cmd.1.1 cmd.1.2 st cmd.2) cmds m i → token_doubled_at st (cmd :: cmds) (S m) i.
Proof. intros (cmd' & Hm & Hd). by exists cmd'. Qed.

Lemma token_run_tidy cmds st :
  pools_tidy (available_token_outputs st) → pools_tidy (available_token_outputs (token_run st cmds)).
Proof. revert st. induction cmds as [|cmd cmds IH]; intros st Hp; [done|]. simpl. by apply IH, token_moves. Qed.

Lemma token_run_once cmds st i :
  pools_tidy (available_token_outputs st) → placed_once st i →
  placed_once (token_run st cmds) i ∨ ∃ m, token_doubled_at st cmds m i.
Proof.
  revert st. induction cmds as [|cmd cmds IH]; intros st Hp Ho; [by left|].
  destruct (token_moves cmd.1.1 cmd.1.2 st cmd.2 Hp) as [Hp' Hm]. destruct (Hm i) as [Hstep _].
  destruct (decide (token_doubles st cmd.2 i)) as [Hd|Hd]; [right; exists 0%nat, cmd; by split|].
  destruct (IH _ Hp' (Hstep Hd Ho)) as [?|[m Hdm]]; [by left|right]. exists (S m). by apply token_doubled_later.
Qed.

(** [dropped]: the mark of the spent output is gone, by a refresh that began after [a]. *)
Lemma token_run_nowhere cmds st i a (dropped : Prop) :
  pools_tidy (available_token_outputs st) → nowhere st i →
  spent_output_ids st !! i = Some a ∨ dropped →
  nowhere (token_run st cmds) i ∨
  ∃ m cmd, cmds !! m = Some cmd ∧
    match cmd.2 with
    | InsertTokens t => i ∈ out_id <$> tos_outputs t
    | SetTokens tokens _ =>
        (∃ k, reported_as tokens k i) ∧
        (dropped ∨ ∃ m' cmd' tokens' t', (m' ≤ m)%nat ∧ cmds !! m' = Some cmd' ∧ cmd'.2 = SetTokens tokens' t' ∧ a < t')
    | _ => False
    end.
Proof.
  revert st dropped. induction cmds as [|cmd cmds IH]; intros st dropped Hp Hno Hs; [by left|].
  destruct (token_moves cmd.1.1 cmd.1.2 st cmd.2 Hp) as [Hp' Hm]. destruct (Hm i) as [_ Hfrom].
  set (here := ∃ tokens' t', cmd.2 = SetTokens tokens' t' ∧ a < t').
  destruct (decide (hands_in st cmd.2 i)) as [Hh|Hh].
  - right. exists 0%nat, cmd. split; [done|]. destruct (cmd.2) as [tokens t|t|? ? ? ? ?|?|?] eqn:Hc; try done.
    destruct Hh as [Hrep Hkept]. split; [done|]. destruct Hs as [Hs|?]; [right|by left].
    exists 0%nat, cmd, tokens, t. split_and!; [done|done|done|].
    unfold kept_spent in Hkept. apply map_lookup_filter_None in Hkept as [?|Hk]; [congruence|].
    specialize (Hk _ Hs). simpl in Hk. lia.
  - destruct (IH (run cmd.1.1 cmd.1.2 st cmd.2) (dropped ∨ here) Hp') as [?|(m & cmd' & Hm' & Hb)].
    + intros pl [[pl0 H]|?]%Hfrom; [by eapply Hno|done].
    + destruct Hs as [Hs|?]; [|by right; left].
      destruct (spent_stays cmd.1.1 cmd.1.2 st cmd.2 i a Hs Hno) as [?|H]; [by left|right; right].
      destruct (cmd.2) as [tokens t|t|? ? ? ? ?|?|?] eqn:Hc; try done. by exists tokens, t.
    + by left.
    + right. exists (S m), cmd'. split; [done|]. destruct (cmd'.2); try done.
      destruct Hb as [Hrep [[?|(tokens' & t' & ? & ?)]|(m' & cmd2 & tokens' & t' & ? & ? & ? & ?)]];
        (split; [done|]); [by left|right..].
      * exists 0%nat, cmd, tokens', t'. split_and!; [lia|done|done|done].
      * exists (S m'), cmd2, tokens', t'. split_and!; [lia|done|done|done].
Qed.

Lemma tidy_default : pools_tidy (available_token_outputs (TokenOutputsState_default : State)).
Proof. intros k a Hk. simpl in Hk. by rewrite lookup_empty in Hk. Qed.

Lemma nowhere_default i : nowhere (TokenOutputsState_default : State) i.
Proof. intros [k|r] (x & Hx & _); simpl in Hx; by rewrite lookup_empty in Hx. Qed.

(** C10: in every run of the token store, whatever its callers ask, an output is in one place
    at most -- the pool of one token or one reservation -- unless some call handed it in while
    the store had it elsewhere (an insertion while a reservation or another token's pool had
    it, a refresh that reports it under two tokens).  An output of a reservation that was
    finalized is then nowhere, unless a call handed it in twice or it came back later: it was
    received again, or reported by a refresh when this one, or an earlier one since, had begun
    after the finalization. *)
Theorem token_store_no_double_spend cmds i :
  let st := token_run TokenOutputsState_default cmds in
  (placed_once st i ∨ ∃ m, token_doubled_at TokenOutputsState_default cmds m i) ∧
  ∀ n now uuid id,
    cmds !! n = Some (now, uuid, FinalizeTokens id) →
    placed (token_run TokenOutputsState_default (take n cmds)) i (ReservedBy id) →
    nowhere st i ∨ (∃ m, token_doubled_at TokenOutputsState_default cmds m i) ∨
    brought_back (drop (S n) cmds) i now.
Proof.
  intros st. split.
  { apply token_run_once; [apply tidy_default|]. by intros pl pl' ?%nowhere_default. }
  intros n now uuid id Hn Hres. set (stn := token_run _ (take n cmds)) in *.
  destruct (token_run_once (take n cmds) TokenOutputsState_default i) as [Ho|[m (cmd & Hm & Hd)]];
    [apply tidy_default|by intros pl pl' ?%nowhere_default| |].
  2:{ right. left. exists m, cmd. apply lookup_take_Some in Hm as [Hm Hlt]. split; [done|].
      rewrite take_take in Hd. by replace (m `min` n)%nat with m in Hd by lia. }
  assert (st = token_run (run now uuid stn (FinalizeTokens id)) (drop (S n) cmds)) as ->.
  { unfold st, stn, token_run. rewrite <- (take_drop_middle cmds n _ Hn) at 1. by rewrite foldl_app. }
  pose proof (token_run_tidy (take n cmds) _ tidy_default) as Hp. fold stn in Hp, Ho.
  destruct Hres as (e & He & Hi).
  destruct (token_run_nowhere (drop (S n) cmds) (run now uuid stn (FinalizeTokens id)) i now False)
    as [?|(m & cmd & Hm & Hb)]; [by apply token_moves| |left; by eapply finalize_marks|by left|].
  - intros pl [H Hne]%finalize_places. apply Hne. apply Ho; [done|]. by exists e.
  - right. right. exists m, cmd. split; [done|]. destruct (cmd.2); try done. naive_solver.
Qed.
End runs.

(** ** Witnesses *)

#[local] Existing Instance canonical_order.

(** Outputs received, one reserved and spent, and a refresh that began before it was spent and
    still reports it. *)
Definition ex_run : list (Z * string * @TokenCommand Z) :=
  [(100, "r0", InsertTokens ex_tokens);
   (101, "r1", ReserveTokens "tok" (MinTotalValue 50) Payment None None);
   (102, "r2", FinalizeTokens "r1");
   (103, "r3", SetTokens [ex_tokens] 99)].

Lemma token_store_no_double_spend_witness :
  placed (token_run (ForeignError := string) TokenOutputsState_default (take 2 ex_run)) "o1" (ReservedBy "r1") ∧
  (nowhere (token_run (ForeignError := string) TokenOutputsState_default ex_run) "o1" ∨
   (∃ m, token_doubled_at (ForeignError := string) TokenOutputsState_default ex_run m "o1") ∨
   brought_back (drop 3 ex_run) "o1" 102).
Proof.
  assert (placed (token_run (ForeignError := string) TokenOutputsState_default (take 2 ex_run)) "o1" (ReservedBy "r1"))
    as H.
  { eexists. split; [vm_compute; reflexivity|by left]. }
  split; [exact H|].
  destruct (token_store_no_double_spend (ForeignError := string) ex_run "o1") as [_ Hspent].
  exact (Hspent 2%nat 102 "r2" "r1" eq_refl H).
Defined.

(** The mark of a spent output is dropped by a refresh that began after it, so a refresh that
    began before and ends later brings it back. *)
Example late_refresh_brings_back :
  let late := ex_run ++ [(104, "r4", SetTokens [ex_tokens] 103); (105, "r5", SetTokens [ex_tokens] 99)] in
  bool_decide (is_Some (
    a ← available_token_outputs (token_run (ForeignError := string) TokenOutputsState_default late) !! "tok";
    ato_outputs a !! "o1")) = true.
Proof. vm_compute. reflexivity. Qed.
