(* ===== verification/TokenService.v ===== *)
(** The token output service: [SynchronousTokenOutputService] of
    [crates/spark/src/token/service.rs] and [with_reserved_token_outputs] of
    [token/mod.rs], written against the store's interface and the operators'. *)
From S2P Require Import Prelude TokenStore TokenStoreInv TokenStoreProps.

(** [SELECT_TOKEN_OUTPUTS_MAX_RETRIES]. *)
Definition SELECT_TOKEN_OUTPUTS_MAX_RETRIES : nat := 3.

(** The trait [TokenOutputStore]. *)
Class TokenStoreOps (PublicKey ForeignError W : Type) := {
  ts_set : list (@TokenOutputs PublicKey) → Z → SE W (@TokenOutputServiceError ForeignError) ();
  ts_list : SE W (@TokenOutputServiceError ForeignError) (list (@TokenOutputsPerStatus PublicKey));
  ts_get : @GetTokenOutputsFilter PublicKey →
    SE W (@TokenOutputServiceError ForeignError) (@TokenOutputsPerStatus PublicKey);
  ts_insert : @TokenOutputs PublicKey → SE W (@TokenOutputServiceError ForeignError) ();
  ts_reserve : string → ReservationTarget → ReservationPurpose →
    option (list (@TokenOutputWithPrevOut PublicKey)) → option SelectionStrategy →
    SE W (@TokenOutputServiceError ForeignError) (@TokenOutputsReservation PublicKey);
  ts_cancel : string → SE W (@TokenOutputServiceError ForeignError) ();
  ts_finalize : string → SE W (@TokenOutputServiceError ForeignError) ();
  ts_now : SE W (@TokenOutputServiceError ForeignError) Z
}.

(** What the service calls of the operators and the signer.  [raw_token_id] is the
    token identifier of an answer's output, [None] when the answer has none; the
    conversions are the [TryFrom]s of the RPC types. *)
Class TokenNetwork (PublicKey ForeignError W : Type) := {
  RawOutput : Type;
  RawMetadata : Type;
  raw_token_id : RawOutput → option (list Z);
  raw_output : RawOutput →
    result (@TokenOutputWithPrevOut PublicKey) (@TokenOutputServiceError ForeignError);
  raw_metadata_id : RawMetadata → list Z;
  raw_metadata : RawMetadata →
    result (@TokenMetadata PublicKey) (@TokenOutputServiceError ForeignError);
  net_query_all : SE W (@TokenOutputServiceError ForeignError) (list RawOutput);
  net_query_metadata : list (list Z) →
    SE W (@TokenOutputServiceError ForeignError) (list RawMetadata);
  net_sleep_one_second : W → W
}.

Section service.
Context {PublicKey ForeignError W : Type} `{EqDecision PublicKey} {ho : HashOrder}.
Context {ts : TokenStoreOps PublicKey ForeignError W} {tn : TokenNetwork PublicKey ForeignError W}.
Abbreviation Error := (@TokenOutputServiceError ForeignError).
Abbreviation Output := (@TokenOutputWithPrevOut PublicKey).

(** ** Refresh *)

(** [outputs_map.entry(token_id).or_default().push(token_output)] for each answer. *)
Fixpoint group_outputs (outputs : list RawOutput) (outputs_map : gmap (list Z) (list Output))
    : result (gmap (list Z) (list Output)) Error :=
  match outputs with
  | [] => Ok outputs_map
  | raw :: rest =>
      match raw_token_id raw with
      | None => group_outputs rest outputs_map
      | Some token_id =>
          let* token_output := raw_output raw in
          group_outputs rest
            (<[token_id := default [] (outputs_map !! token_id) ++ [token_output]]> outputs_map)
      end
  end.

(** The [map(..).collect()] that joins each group with its metadata. *)
Fixpoint join_metadata (metadata : list RawMetadata) (groups : list (list Z * list Output))
    : result (list (@TokenOutputs PublicKey)) Error :=
  match groups with
  | [] => Ok []
  | (token_id, outputs) :: rest =>
      let* m := ok_or (List.find (λ m, bool_decide (raw_metadata_id m = token_id)) metadata)
                      (Generic "Metadata not found") in
      let* md := raw_metadata m in
      let* tokens := join_metadata metadata rest in
      Ok ({| tos_metadata := md; tos_outputs := outputs |} :: tokens)
  end.

Definition refresh_tokens_outputs : SE W Error () :=
  do* refresh_started_at := ts_now in
  do* outputs := net_query_all in
  if Nat.eqb (length outputs) 0 then
    do* _ := ts_set [] refresh_started_at in se_ret ()
  else
    do* outputs_map := se_lift (group_outputs outputs ∅) in
    do* metadata := net_query_metadata (hm_keys outputs_map) in
    if negb (Nat.eqb (length metadata) (length (hm_keys outputs_map)))
    then se_fail (Generic "Metadata not found for all tokens")
    else
      do* token_outputs := se_lift (join_metadata metadata (hm_iter outputs_map)) in
      do* _ := ts_set token_outputs refresh_started_at in
      se_ret ().

(** ** Reservation with retries *)

Fixpoint reserve_attempts (attempts : nat) (token_id : string) (target : ReservationTarget)
    (p : ReservationPurpose) (preferred : option (list Output))
    (strategy : option SelectionStrategy)
    : SE W Error (option (@TokenOutputsReservation PublicKey)) :=
  match attempts with
  | O => se_ret None
  | S attempts' =>
      try* reserve_res := ts_reserve token_id target p preferred strategy in
      match reserve_res with
      | Ok r => se_ret (Some r)
      | Err _ =>
          do* _ := refresh_tokens_outputs in
          do* per_status := ts_get (Identifier token_id) in
          let token_balance := balance per_status in
          if match target with
             | MinTotalValue amount => token_balance <? amount
             | MaxOutputCount _ => false
             end
          then se_ret None
          else
            do* _ := (λ w, (if bool_decide (attempts' = O) then w else net_sleep_one_second w,
                            Ok ())) in
            reserve_attempts attempts' token_id target p preferred strategy
      end
  end.

Definition reserve_token_outputs (token_id : string) (target : ReservationTarget)
    (p : ReservationPurpose) (preferred : option (list Output))
    (strategy : option SelectionStrategy) : SE W Error (@TokenOutputsReservation PublicKey) :=
  do* reservation :=
    reserve_attempts SELECT_TOKEN_OUTPUTS_MAX_RETRIES token_id target p preferred strategy in
  se_lift (ok_or reservation InsufficientFunds).

Definition list_tokens_outputs := ts_list.
Definition insert_token_outputs (t : @TokenOutputs PublicKey) := ts_insert t.
Definition cancel_reservation (id : string) := ts_cancel id.
Definition finalize_reservation (id : string) := ts_finalize id.
Definition get_token_metadata (filter : @GetTokenOutputsFilter PublicKey)
    : SE W Error (@TokenMetadata PublicKey) :=
  do* per_status := ts_get filter in se_ret (per_metadata per_status).

(** [with_reserved_token_outputs]: run [f], then settle the reservation; the
    outcome of settling is only logged. *)
Definition with_reserved_token_outputs {E R} (f : SE W E R)
    (reservation : @TokenOutputsReservation PublicKey) : SE W E R :=
  try* r := f in
  match r with
  | Ok r => try* _ := ts_finalize (tor_id reservation) in se_ret r
  | Err e => try* _ := ts_cancel (tor_id reservation) in se_fail e
  end.

(** ** A refresh hands the store every reported output once *)

(** The outputs of the answers that have one, converted. *)
Fixpoint converted (outputs : list RawOutput) : result (list Output) Error :=
  match outputs with
  | [] => Ok []
  | raw :: rest =>
      match raw_token_id raw with
      | None => converted rest
      | Some _ => let* o := raw_output raw in let* os := converted rest in Ok (o :: os)
      end
  end.

Definition grouped (m : gmap (list Z) (list Output)) : list Output := mjoin (map_to_list m).*2.

Lemma grouped_push m k (o : Output) :
  grouped (<[k := default [] (m !! k) ++ [o]]> m) ≡ₚ o :: grouped m.
Proof.
  unfold grouped. destruct (m !! k) as [l|] eqn:Hk; simpl.
  - rewrite <- (insert_delete_id m k l Hk) at 2. rewrite <- (insert_delete_eq m).
    rewrite !map_to_list_insert by apply lookup_delete_eq. simpl. unfold id.
    rewrite <- app_assoc. simpl. by rewrite <- Permutation_middle.
  - by rewrite map_to_list_insert.
Qed.

Lemma group_outputs_converted outputs m m' :
  group_outputs outputs m = Ok m' →
  ∃ os, converted outputs = Ok os ∧ grouped m' ≡ₚ grouped m ++ os.
Proof.
  revert m. induction outputs as [|raw rest IH]; intros m; simpl.
  { intros [= ->]. exists []. by rewrite app_nil_r. }
  destruct (raw_token_id raw) as [k|]; [|apply IH].
  rewrite rbind_ok. intros (o & Ho & (os & Hos & Hp)%IH). rewrite Ho. simpl. rewrite Hos. simpl.
  exists (o :: os). split; [done|]. rewrite Hp, grouped_push. simpl. apply Permutation_middle.
Qed.

Lemma join_metadata_outputs metadata groups tokens :
  join_metadata metadata groups = Ok tokens → tos_outputs <$> tokens = groups.*2.
Proof.
  revert tokens. induction groups as [|[k os] groups IH]; intros tokens; simpl; [by intros [= <-]|].
  rewrite rbind_ok. intros (m & _ & H). apply rbind_ok in H as (md & _ & H).
  apply rbind_ok in H as (ts' & Hts & [= <-]). rewrite fmap_cons. simpl. by rewrite (IH ts').
Qed.

(** When no output is reported twice, each is under one token. *)
Lemma tokens_ok_of_NoDup (tokens : list (@TokenOutputs PublicKey)) :
  NoDup (out_id <$> mjoin (tos_outputs <$> tokens)) → tokens_ok tokens.
Proof.
  induction tokens as [|t tokens IH]; intros Hnd t1 t2 i H1 H2 Hi1 Hi2.
  { by apply elem_of_nil in H1. }
  simpl in Hnd. rewrite fmap_app in Hnd. apply NoDup_app in Hnd as (_ & Hdis & Hnd).
  assert (∀ t', t' ∈ tokens → i ∈ out_id <$> tos_outputs t' →
    i ∈ out_id <$> mjoin (tos_outputs <$> tokens)) as Hrest.
  { intros t' Ht' (o & -> & Ho)%list_elem_of_fmap. apply list_elem_of_fmap_2, list_elem_of_join.
    exists (tos_outputs t'). split; [done|by apply list_elem_of_fmap_2]. }
  rewrite elem_of_cons in H1, H2. destruct H1 as [->|H1], H2 as [->|H2]; [done|..].
  - exfalso. apply (Hdis i Hi1). by eapply Hrest.
  - exfalso. apply (Hdis i Hi2). by eapply Hrest.
  - by eapply IH.
Qed.

(** a successful refresh reads the clock before it queries the operators, and
    hands the store each output of the answers exactly once, grouped by token; so
    when the operators do not repeat an output the store's condition on a refresh
    holds. *)
Theorem refresh_tokens_outputs_partition w w' :
  refresh_tokens_outputs w = (w', Ok ()) →
  ∃ t tokens raws outputs w0 w1 w2,
    ts_now w = (w0, Ok t) ∧ net_query_all w0 = (w1, Ok raws) ∧
    converted raws = Ok outputs ∧ mjoin (tos_outputs <$> tokens) ≡ₚ outputs ∧
    ts_set tokens t w2 = (w', Ok ()) ∧
    (NoDup (out_id <$> outputs) → tokens_ok tokens).
Proof.
  unfold refresh_tokens_outputs. rewrite se_bind_ok. intros (w0 & t & Hnow & H).
  rewrite se_bind_ok in H. destruct H as (w1 & raws & Hq & H).
  destruct (Nat.eqb_spec (length raws) 0) as [Hl|_].
  { rewrite se_bind_ok in H. destruct H as (w2 & [] & Hset & [= <-]).
    destruct raws; [|done]. exists t, [], [], [], w0, w1, w1. split_and!; try done.
    intros _ t1 t2 i Ht1. by apply elem_of_nil in Ht1. }
  rewrite se_bind_ok in H. destruct H as (w1' & m & Hg & H). injection Hg as <- Hg.
  rewrite se_bind_ok in H. destruct H as (w2 & metadata & _ & H).
  destruct (negb _); [done|].
  rewrite se_bind_ok in H. destruct H as (w2' & tokens & Hj & H). injection Hj as <- Hj.
  rewrite se_bind_ok in H. destruct H as (w3 & [] & Hset & [= <-]).
  apply group_outputs_converted in Hg as (os & Hos & Hp). apply join_metadata_outputs in Hj.
  assert (mjoin (tos_outputs <$> tokens) ≡ₚ os) as Hpart.
  { rewrite Hj. rewrite hm_iter_perm. fold (grouped m). rewrite Hp. unfold grouped.
    by rewrite map_to_list_empty. }
  exists t, tokens, raws, os, w0, w1, w2. split_and!; try done.
  intros Hnd. apply tokens_ok_of_NoDup. by rewrite Hpart.
Qed.

End service.

(** ** The in-memory world *)

Section memory.
Context {PublicKey ForeignError : Type} `{EqDecision PublicKey} {ho : HashOrder}.

(** The store under its mutex, with the clock readings and fresh identifiers to
    come. *)
Record TokenWorld : Type := {
  tw_store : @TokenOutputsState PublicKey;
  tw_now : Z;
  tw_uuid : string
}.

Definition with_store (st : @TokenOutputsState PublicKey) (w : TokenWorld) : TokenWorld :=
  {| tw_store := st; tw_now := tw_now w; tw_uuid := tw_uuid w |}.

Definition on_store {A} (f : TokenWorld →
    @TokenOutputsState PublicKey * result A (@TokenOutputServiceError ForeignError))
    : SE TokenWorld (@TokenOutputServiceError ForeignError) A :=
  λ w, let '(st, r) := f w in (with_store st w, r).

#[export] Instance memory_token_store : TokenStoreOps PublicKey ForeignError TokenWorld := {|
  ts_set tokens t := on_store (λ w, set_tokens_outputs (tw_now w) (tw_store w) tokens t);
  ts_list := on_store (λ w, (tw_store w, TokenStore.list_tokens_outputs (tw_store w)));
  ts_get f := on_store (λ w, (tw_store w, get_token_outputs (tw_store w) f));
  ts_insert t := on_store (λ w, TokenStore.insert_token_outputs (tw_now w) (tw_store w) t);
  ts_reserve id target p pref strategy :=
    on_store (λ w, TokenStore.reserve_token_outputs (tw_uuid w) (tw_store w) id target p pref strategy);
  ts_cancel id := on_store (λ w, TokenStore.cancel_reservation (tw_store w) id);
  ts_finalize id := on_store (λ w, TokenStore.finalize_reservation (tw_now w) (tw_store w) id);
  ts_now := λ w, (w, Ok (tw_now w))
|}.

(** settling a reservation around an operation that does not touch the store:
    when it succeeds, every reserved output is recorded as spent and is neither
    available nor reserved; when it fails, the store is as before the reservation.
    The operation's own outcome is returned either way. *)
Theorem with_reserved_token_outputs_settles {E R} (f : SE TokenWorld E R) w w1
    token_id target p pref strategy r :
  token_inv (tw_store w) → reservations (tw_store w) !! tw_uuid w = None →
  target_nonneg target →
  (∀ a, available_token_outputs (tw_store w) !! token_id = Some a → outputs_small (candidates a pref)) →
  ts_reserve token_id target p pref strategy w = (w1, Ok r) →
  tw_store (f w1).1 = tw_store w1 →
  let '(w3, res) := with_reserved_token_outputs f r w1 in
  res = (f w1).2 ∧
  match res with
  | Ok _ => ∀ o, o ∈ tos_outputs (token_outputs r) →
      spent_output_ids (tw_store w3) !! out_id o = Some (tw_now (f w1).1) ∧
      ¬ contains (available_token_outputs (tw_store w3)) (out_id o) ∧
      ¬ reserved_in (tw_store w3) (out_id o)
  | Err _ => tw_store w3 = tw_store w
  end.
Proof.
  intros Hinv Hu Hnn Hsmall Hr Hst. simpl in Hr. unfold on_store in Hr.
  destruct (TokenStore.reserve_token_outputs _ _ _ _ _ _ _) as [st1 r1] eqn:Hres.
  injection Hr as <- ->. unfold with_reserved_token_outputs, se_try. simpl in Hst.
  destruct (f (with_store st1 w)) as [w2 [x|e]]; simpl in *; unfold on_store.
  - pose proof (reserve_cases _ _ _ _ _ _ _ _ _ Hres) as (a & sel & Ha & _ & Hsel & Hst1 & Hrr).
    assert (token_inv st1) as Hinv1.
    { pose proof (inv_token_command (ForeignError := ForeignError) 0 (tw_uuid w) (tw_store w)
        (ReserveTokens token_id target p pref strategy) Hinv) as Hi.
      cbn [run_token_command token_command_ok] in Hi. rewrite Hres in Hi. by apply Hi. }
    pose proof (token_inv_finalize (ForeignError := ForeignError) (tw_now w2) st1 (tor_id r) Hinv1) as Hfin.
    rewrite Hst. destruct (TokenStore.finalize_reservation _ _ _) as [st3 fr] eqn:Hfr. simpl in *.
    split; [done|]. intros o Ho. subst r. simpl in *.
    pose proof (select_outputs_spec (ForeignError := ForeignError) (candidates a pref) target strategy (Hsmall a Ha) Hnn) as Hspec.
    rewrite Hsel in Hspec. apply selects_sub in Hspec as Hs.
    pose proof (pools_outputs_keyed _ (ti_pools _ Hinv) _ _ Ha) as Hk.
    pose proof (selected_ids a pref sel Hk Hs) as Hids.
    unfold TokenStore.finalize_reservation in Hfr. rewrite Hst1 in Hfr. simpl in Hfr.
    rewrite lookup_insert_eq in Hfr. simpl in Hfr.
    assert (spent_output_ids st3 !! out_id o = Some (tw_now w2)) as Hspent.
    { assert (out_id o ∈ sto_id <$> omap (λ o, ato_outputs a !! out_id o) sel) as Hin.
      { rewrite Hids. by apply list_elem_of_fmap_2. }
      destruct (lookup_insert_all_in sto_id (λ _ : StoredTokenOutput, tw_now w2) _
        (spent_output_ids (tw_store w)) _ Hin) as (s & _ & _ & Hl).
      injection Hfr as <- _. by case_bool_decide. }
    split; [done|]. apply (ti_spent_out _ Hfin). by eexists.
  - rewrite Hst. pose proof (cancel_reserved_tokens _ _ _ _ _ _ _ _ _ Hinv Hu Hnn Hsmall Hres)
      as Hc. destruct (TokenStore.cancel_reservation _ _) as [st3 cr]. injection Hc as -> ->. done.
Qed.

End memory.

(** ** Witnesses *)

#[local] Existing Instance canonical_order.

(** A network of two tokens: an answer is its token's number and an output. *)
#[local] Instance ex_token_network : TokenNetwork Z string (TokenWorld (PublicKey := Z)) := {|
  RawOutput := option Z * @TokenOutputWithPrevOut Z;
  RawMetadata := Z;
  raw_token_id raw := (λ n, [n]) <$> raw.1;
  raw_output raw := Ok raw.2;
  raw_metadata_id n := [n];
  raw_metadata n :=
    Ok {| identifier := if n =? 0 then "tok" else "other"; issuer_public_key := n; name := "";
          ticker := ""; decimals := 0; max_supply := 0; is_freezable := false;
          creation_entity_public_key := None |};
  net_query_all w :=
    (w, Ok [(Some 0, ex_output "o1" 50); (Some 1, ex_output "x1" 5); (None, ex_output "z" 0);
            (Some 0, ex_output "o2" 20)]);
  net_query_metadata _ w := (w, Ok [1; 0]);
  net_sleep_one_second w := w
|}.

Definition ex_token_world : TokenWorld (PublicKey := Z) :=
  {| tw_store := ex_token_store; tw_now := 200; tw_uuid := "r1" |}.

Lemma refresh_tokens_outputs_partition_witness :
  ∃ w', refresh_tokens_outputs (ForeignError := string) ex_token_world = (w', Ok ()) ∧
  ∃ t tokens raws outputs w0 w1 w2,
    ts_now (PublicKey := Z) (ForeignError := string) ex_token_world = (w0, Ok t) ∧
    net_query_all (PublicKey := Z) (ForeignError := string) w0 = (w1, Ok raws) ∧
    converted (ForeignError := string) (W := TokenWorld) raws = Ok outputs ∧ mjoin (tos_outputs <$> tokens) ≡ₚ outputs ∧
    ts_set (ForeignError := string) tokens t w2 = (w', Ok ()) ∧
    (NoDup (out_id <$> outputs) → tokens_ok tokens).
Proof.
  eexists. split; [vm_compute; reflexivity|].
  eapply (refresh_tokens_outputs_partition (ForeignError := string) ex_token_world). vm_compute. reflexivity.
Defined.

Lemma with_reserved_token_outputs_settles_witness :
  ∃ r, let '(w3, res) := with_reserved_token_outputs (ForeignError := string)
                (λ w, (w, @Ok nat string 7%nat)) r
                (with_store ex_token_reserved.1 ex_token_world) in
  res = Ok 7%nat ∧
  ∀ o, o ∈ tos_outputs (token_outputs r) → spent_output_ids (tw_store w3) !! out_id o = Some 200.
Proof.
  exists ex_token_reservation.
  destruct (with_reserved_token_outputs _ _ _) as [w3 res] eqn:Hw.
  pose proof (with_reserved_token_outputs_settles (ForeignError := string)
    (λ w, (w, @Ok nat string 7%nat)) ex_token_world
    (with_store ex_token_reserved.1 ex_token_world) "tok" (MinTotalValue 45) Payment None None
    ex_token_reservation) as H.
  rewrite Hw in H. destruct H as [-> Hall].
  - exact ex_token_inv.
  - by vm_compute.
  - by vm_compute.
  - exact ex_pool_found.
  - by vm_compute.
  - done.
  - split; [done|]. intros o Ho. by destruct (Hall o Ho).
Defined.
