(* ===== verification/SwapPlans.v ===== *)
(** The leaf optimizer's planning functions:
    [calculate_optimization_swaps] and everything below it in
    [crates/spark/src/services/leaf_optimizer.rs].  Leaf values are [u64]. *)
From S2P Require Import Prelude.
From Stdlib Require Import Permutation.

(** [DEFAULT_MAX_LEAVES_PER_SWAP]. *)
Definition DEFAULT_MAX_LEAVES_PER_SWAP : Z := 64.

Record SwapPlan : Type := {
  leaves_to_give : list Z;
  leaves_to_receive : list Z
}.

(** [values.sort()]. *)
Definition sort_values (l : list Z) : list Z := sort_by Z.leb l.

(** ** Greedy decomposition *)

(** [while value >= power { result.push(power); value -= power }]. *)
Fixpoint drain (fuel : nat) (power value : Z) (result : list Z) : list Z * Z :=
  match fuel with
  | O => (result, value)
  | S fuel =>
      if power <=? value then drain fuel power (value - power) (result ++ [power])
      else (result, value)
  end.

(** [while value > 0 && power > 0 { ..; power /= 2 }]; the inner loop runs
    [value / power] times. *)
Fixpoint greedy_leaves_loop (fuel : nat) (value power : Z) (result : list Z) : list Z :=
  match fuel with
  | O => result
  | S fuel =>
      if (0 <? value) && (0 <? power) then
        let '(result, value) := drain (Z.to_nat (value / power)) power value result in
        greedy_leaves_loop fuel value (power / 2) result
      else result
  end.

(** 65 rounds: the powers 2^63 .. 2^0, then power is 0. *)
Definition greedy_leaves (value : Z) : list Z :=
  sort_values (greedy_leaves_loop 65 value (2 ^ 63) []).

(** ** Denominations that minimize swaps *)

(** [for _ in 0..multiplicity { if remaining >= power {..} }]. *)
Fixpoint push_copies (multiplicity : nat) (power remaining : Z) (result : list Z)
    : Z * list Z :=
  match multiplicity with
  | O => (remaining, result)
  | S m =>
      if power <=? remaining then push_copies m power (remaining - power) (result ++ [power])
      else push_copies m power remaining result
  end.

(** [while power <= amount { ..; if power > u64::MAX / 2 { break }; power *= 2 }]. *)
Fixpoint swap_minimizing_loop (fuel : nat) (amount : Z) (multiplicity : nat)
    (power remaining : Z) (result : list Z) : Z * list Z :=
  match fuel with
  | O => (remaining, result)
  | S fuel =>
      if power <=? amount then
        let '(remaining, result) := push_copies multiplicity power remaining result in
        if umax 64 / 2 <? power then (remaining, result)
        else swap_minimizing_loop fuel amount multiplicity (wmul 64 power 2) remaining result
      else (remaining, result)
  end.

Definition swap_minimizing_leaves (amount : Z) (multiplicity : nat) : list Z :=
  let '(remaining, result) := swap_minimizing_loop 64 amount multiplicity 1 amount [] in
  sort_values (result ++ greedy_leaves remaining).

(** ** Counters *)

Definition count_occurrences (values : list Z) : gmap Z Z :=
  foldl (λ counter v, <[v := wadd 64 (default 0 (counter !! v)) 1]> counter) ∅ values.

Section plans.
Context {ho : HashOrder}.

Definition subtract_counters (a b : gmap Z Z) : gmap Z Z :=
  foldl (λ result '(k, v),
    let b_count := default 0 (b !! k) in
    if b_count <? v then <[k := v - b_count]> result else result) ∅ (hm_iter a).

Definition counter_to_flat_array (counter : gmap Z Z) : list Z :=
  mjoin ((λ k, replicate (Z.to_nat (default 0 (counter !! k))) k)
           <$> sort_values (hm_keys counter)).

(** ** Maximizing unilateral exit *)

(** The plan of one batch, if it changes anything. *)
Definition plan_batch (batch target : list Z) : list SwapPlan :=
  if bool_decide (target ≠ batch)
  then [{| leaves_to_give := batch; leaves_to_receive := target |}] else [].

Fixpoint maximize_loop (max_leaves : nat) (leaves batch : list Z) (swaps : list SwapPlan)
    : list Z * list SwapPlan :=
  match leaves with
  | [] => (batch, swaps)
  | leaf :: leaves =>
      let batch := batch ++ [leaf] in
      let target := greedy_leaves (sum_u 64 batch) in
      if (max_leaves <=? length batch)%nat || (max_leaves <=? length target)%nat
      then maximize_loop max_leaves leaves [] (swaps ++ plan_batch batch target)
      else maximize_loop max_leaves leaves batch swaps
  end.

Definition maximize_unilateral_exit (input_leave_amounts : list Z) (max_leaves_per_swap : Z)
    : list SwapPlan :=
  let '(batch, swaps) :=
    maximize_loop (Z.to_nat max_leaves_per_swap) (sort_values input_leave_amounts) [] [] in
  if bool_decide (batch = []) then swaps
  else swaps ++ plan_batch batch (greedy_leaves (sum_u 64 batch)).

(** ** Minimizing transfer swaps *)

(** [for cutoff in (1..=max_leaves).rev()]: the first batch short enough. *)
Fixpoint find_cutoff (cutoff max_leaves : nat) (give_sum : Z) (to_receive_batch : list Z)
    : option (list Z) :=
  match cutoff with
  | O => None
  | S cutoff' =>
      let sum_cut := sum_u 64 (take cutoff to_receive_batch) in
      let remainder := wsub 64 give_sum sum_cut in
      let alternate_batch := take cutoff to_receive_batch ++ greedy_leaves remainder in
      if (length alternate_batch <=? max_leaves)%nat then Some alternate_batch
      else find_cutoff cutoff' max_leaves give_sum to_receive_batch
  end.

(** The swaps of one balanced pair of batches. *)
Definition emit_swaps (max_leaves : nat) (give_sum : Z) (to_give_batch to_receive_batch : list Z)
    : list SwapPlan :=
  if (max_leaves <? length to_give_batch)%nat then
    (λ chunk, {| leaves_to_give := chunk; leaves_to_receive := greedy_leaves (sum_u 64 chunk) |})
      <$> chunks max_leaves to_give_batch
  else if (max_leaves <? length to_receive_batch)%nat then
    match find_cutoff max_leaves max_leaves give_sum to_receive_batch with
    | Some alternate_batch =>
        [{| leaves_to_give := to_give_batch; leaves_to_receive := alternate_batch |}]
    | None => []
    end
  else [{| leaves_to_give := to_give_batch; leaves_to_receive := to_receive_batch |}].

(** The end of one iteration: emit when the batches balance. *)
Definition settle_batches (max_leaves : nat) (to_give to_receive : list Z)
    : list SwapPlan * (list Z * list Z) :=
  let give_sum := sum_u 64 to_give in
  let receive_sum := sum_u 64 to_receive in
  if bool_decide (to_give ≠ []) && bool_decide (to_receive ≠ []) && (give_sum =? receive_sum)
  then (emit_swaps max_leaves give_sum to_give to_receive, ([], []))
  else ([], (to_give, to_receive)).

(** The [while] loop over the two queues; [None] when the fuel runs out. *)
Fixpoint balance_loop (fuel max_leaves : nat) (give receive to_give to_receive : list Z)
    (swaps : list SwapPlan) : option (list SwapPlan) :=
  match give, receive with
  | [], [] => Some swaps
  | _, _ =>
      match fuel with
      | O => None
      | S fuel =>
          if sum_u 64 to_receive <? sum_u 64 to_give then
            match receive with
            | [] => Some swaps
            | x :: receive =>
                let '(new, (to_give, to_receive)) :=
                  settle_batches max_leaves to_give (to_receive ++ [x]) in
                balance_loop fuel max_leaves give receive to_give to_receive (swaps ++ new)
            end
          else
            match give with
            | [] => Some swaps
            | x :: give =>
                let '(new, (to_give, to_receive)) :=
                  settle_batches max_leaves (to_give ++ [x]) to_receive in
                balance_loop fuel max_leaves give receive to_give to_receive (swaps ++ new)
            end
      end
  end.

Definition minimize_transfer_swap (input_leave_amounts : list Z) (multiplicity : nat)
    (max_leaves_per_swap : Z) : option (list SwapPlan) :=
  let balance := sum_u 64 input_leave_amounts in
  let optimal_leaves := swap_minimizing_leaves balance multiplicity in
  let wallet_counter := count_occurrences input_leave_amounts in
  let optimal_counter := count_occurrences optimal_leaves in
  let give := counter_to_flat_array (subtract_counters wallet_counter optimal_counter) in
  let receive := counter_to_flat_array (subtract_counters optimal_counter wallet_counter) in
  if negb (sum_u 64 give =? sum_u 64 receive) then Some []
  else balance_loop (length give + length receive) (Z.to_nat max_leaves_per_swap)
         give receive [] [] [].

Definition calculate_optimization_swaps (input_leave_amounts : list Z) (multiplicity : nat)
    (max_leaves_per_swap : Z) : option (list SwapPlan) :=
  if bool_decide (multiplicity = O)
  then Some (maximize_unilateral_exit input_leave_amounts max_leaves_per_swap)
  else minimize_transfer_swap input_leave_amounts multiplicity max_leaves_per_swap.

End plans.

(** ** The decompositions of the repository's tests *)

Example greedy_leaves_100000 : greedy_leaves 100000 = [32; 128; 512; 1024; 32768; 65536].
Proof. vm_compute. reflexivity. Qed.

Example swap_minimizing_leaves_100 :
  swap_minimizing_leaves 100 1 = [1; 1; 2; 4; 4; 8; 16; 32; 32].
Proof. vm_compute. reflexivity. Qed.

Example calculate_optimization_swaps_8 :
  calculate_optimization_swaps (ho := canonical_order) [8] 1 64
  = Some [{| leaves_to_give := [8]; leaves_to_receive := [1; 1; 2; 4] |}].
Proof. vm_compute. reflexivity. Qed.
