(* ===== verification/SwapPlansProps.v ===== *)
(** What the leaf optimizer's plans promise: value is conserved, the received
    denominations are powers of two, the leaves given are the wallet's, the greedy
    decomposition is the shortest, and an unsplit plan reaches the optimal set
    ([crates/spark/src/services/leaf_optimizer.rs]). *)
From S2P Require Import Prelude SwapPlans.
From Stdlib Require Import Permutation.

Definition is_pow2 (x : Z) : Prop := ∃ k, 0 ≤ k ∧ x = 2 ^ k.

Lemma is_pow2_pos x : is_pow2 x → 0 < x.
Proof. intros (k & ? & ->). lia. Qed.

Lemma pow2_sum_nonneg l : Forall is_pow2 l → 0 ≤ sumZ l.
Proof.
  intros Hl. apply sumZ_nonneg. eapply Forall_impl; [done|]. intros x ?%is_pow2_pos. simpl. lia.
Qed.

Lemma sort_values_perm l : sort_values l ≡ₚ l.
Proof. apply sort_by_perm. Qed.

Lemma sort_values_sum l : sumZ (sort_values l) = sumZ l.
Proof. by rewrite sort_values_perm. Qed.

Lemma sort_values_length l : length (sort_values l) = length l.
Proof. by rewrite sort_values_perm. Qed.

Lemma sort_values_pow2 l : Forall is_pow2 l → Forall is_pow2 (sort_values l).
Proof. by rewrite sort_values_perm. Qed.

(** ** The greedy decomposition *)

(** The powers below 2^k in the binary expansion, largest first. *)
Fixpoint binary (k : nat) (v : Z) : list Z :=
  match k with
  | O => []
  | S k => if 2 ^ Z.of_nat k <=? v then 2 ^ Z.of_nat k :: binary k (v - 2 ^ Z.of_nat k)
           else binary k v
  end.

Lemma drain_exact n p v r :
  0 < p → Z.of_nat n * p ≤ v → drain n p v r = (r ++ replicate n p, v - Z.of_nat n * p).
Proof.
  intros Hp. revert v r. induction n as [|n IH]; intros v r Hv; simpl.
  { rewrite app_nil_r. f_equal. lia. }
  destruct (Z.leb_spec p v); [|lia]. rewrite IH by lia. rewrite <- app_assoc. f_equal. lia.
Qed.

Lemma drain_spec p v r :
  0 < p → 0 ≤ v → drain (Z.to_nat (v / p)) p v r
  = (r ++ replicate (Z.to_nat (v / p)) p, v mod p).
Proof.
  intros Hp Hv. assert (0 ≤ v / p) by by apply Z.div_pos.
  rewrite drain_exact, Z2Nat.id by (try rewrite Z2Nat.id; try lia;
    pose proof (Z.mul_div_le v p); lia). f_equal. rewrite Z.mod_eq by lia. lia.
Qed.

Lemma pow2_succ k : 2 ^ Z.of_nat (S k) = 2 * 2 ^ Z.of_nat k.
Proof. rewrite Nat2Z.inj_succ, Z.pow_succ_r by lia. done. Qed.

Lemma binary_zero k : binary k 0 = [].
Proof.
  induction k as [|k IH]; [done|]. cbn [binary].
  destruct (Z.leb_spec (2 ^ Z.of_nat k) 0); [pose proof (Z.pow_pos_nonneg 2 (Z.of_nat k)); lia|done].
Qed.

Lemma greedy_loop_zero fuel p r : greedy_leaves_loop fuel 0 p r = r.
Proof. by destruct fuel. Qed.

Lemma greedy_loop_step fuel v p r :
  greedy_leaves_loop (S fuel) v p r =
  if (0 <? v) && (0 <? p) then
    let '(r, v) := drain (Z.to_nat (v / p)) p v r in greedy_leaves_loop fuel v (p / 2) r
  else r.
Proof. done. Qed.

Lemma greedy_loop_binary k v r :
  0 ≤ v < 2 ^ Z.of_nat (S k) →
  greedy_leaves_loop (S (S k)) v (2 ^ Z.of_nat k) r = r ++ binary (S k) v.
Proof.
  revert v r. induction k as [|k IH]; intros v r Hv.
  - change (2 ^ Z.of_nat 1) with 2 in Hv. assert (v = 0 ∨ v = 1) as [-> | ->] by lia.
    + simpl. by rewrite app_nil_r.
    + done.
  - rewrite greedy_loop_step. set (p := 2 ^ Z.of_nat (S k)). rewrite pow2_succ in Hv.
    assert (p = 2 * 2 ^ Z.of_nat k) as Hp by apply pow2_succ.
    change (binary (S (S k)) v) with
      (if p <=? v then p :: binary (S k) (v - p) else binary (S k) v).
    fold p in Hv, IH. clearbody p.
    assert (p / 2 = 2 ^ Z.of_nat k) as -> by (rewrite Hp, Z.mul_comm; apply Z.div_mul; lia).
    destruct (Z.ltb_spec 0 v) as [Hv0|].
    2: { assert (v = 0) as -> by lia. destruct (Z.leb_spec p 0); [lia|].
         by rewrite binary_zero, app_nil_r. }
    destruct (Z.ltb_spec 0 p); [|lia]. cbn [andb]. rewrite drain_spec by lia.
    destruct (Z.leb_spec p v).
    + assert (v / p = 1) as Hd by (symmetry; apply (Z.div_unique_pos v p 1 (v - p)); lia).
      assert (v mod p = v - p) as -> by (rewrite Z.mod_eq, Hd by lia; lia). rewrite Hd.
      change (replicate (Z.to_nat 1) p) with [p].
      rewrite IH by lia. by rewrite <- app_assoc.
    + rewrite Z.div_small, Z.mod_small by lia. simpl replicate. rewrite app_nil_r. apply IH. lia.
Qed.

Lemma greedy_leaves_binary v : in_u 64 v → greedy_leaves v = sort_values (binary 64 v).
Proof.
  intros Hv. unfold greedy_leaves. f_equal.
  replace (2 ^ 63) with (2 ^ Z.of_nat 63) by reflexivity.
  rewrite (greedy_loop_binary 63 v []); [reflexivity|]. exact Hv.
Qed.

Lemma binary_sum k v : 0 ≤ v < 2 ^ Z.of_nat k → sumZ (binary k v) = v.
Proof.
  revert v. induction k as [|k IH]; intros v Hv; [simpl in *; lia|]. cbn [binary].
  rewrite pow2_succ in Hv. destruct (Z.leb_spec (2 ^ Z.of_nat k) v).
  - rewrite sumZ_cons, IH by lia. lia.
  - apply IH. lia.
Qed.

Lemma binary_pow2 k v : Forall is_pow2 (binary k v).
Proof.
  revert v. induction k as [|k IH]; intros v; [constructor|]. cbn [binary]. case_match; [|done].
  constructor; [|done]. exists (Z.of_nat k). split; [lia|done].
Qed.

(** Adding one power of two, with or without a carry out of the top, does not
    lengthen the expansion by more than one. *)
Lemma binary_add_pow2 k a j :
  0 ≤ a < 2 ^ Z.of_nat k → (j < k)%nat →
  (a + 2 ^ Z.of_nat j < 2 ^ Z.of_nat k →
     (length (binary k (a + 2 ^ Z.of_nat j)) ≤ S (length (binary k a)))%nat) ∧
  (2 ^ Z.of_nat k ≤ a + 2 ^ Z.of_nat j →
     (length (binary k (a + 2 ^ Z.of_nat j - 2 ^ Z.of_nat k)) ≤ length (binary k a))%nat).
Proof.
  revert a. induction k as [|k IH]; intros a Ha Hj; [lia|]. rewrite pow2_succ in *.
  cbn [binary]. set (p := 2 ^ Z.of_nat k) in *. set (q := 2 ^ Z.of_nat j) in *.
  assert (0 < q) by (unfold q; lia).
  destruct (decide (j = k)) as [->|Hne].
  - change q with p in *. split; intros Hc;
      destruct (Z.leb_spec p a); try lia; destruct (Z.leb_spec p (a + p)); try lia.
    + simpl. replace (a + p - p) with a by lia. lia.
    + destruct (Z.leb_spec p (a + p - 2 * p)); [lia|]. simpl.
      replace (a + p - 2 * p) with (a - p) by lia. lia.
  - assert (q ≤ p) by (apply Z.pow_le_mono_r; lia).
    destruct (Z.leb_spec p a).
    + destruct (IH (a - p)) as [IH1 IH2]; [lia|lia|]. split; intros Hc.
      * destruct (Z.leb_spec p (a + q)); [|lia]. simpl.
        replace (a + q - p) with (a - p + q) by lia. specialize (IH1 ltac:(lia)). lia.
      * destruct (Z.leb_spec p (a + q - 2 * p)); [lia|].
        specialize (IH2 ltac:(lia)). replace (a + q - 2 * p) with (a - p + q - p) by lia. simpl. lia.
    + destruct (IH a) as [IH1 IH2]; [lia|lia|]. split; intros Hc; [|lia].
      destruct (Z.leb_spec p (a + q)).
      * simpl. specialize (IH2 ltac:(lia)). lia.
      * apply IH1. lia.
Qed.

Lemma binary_shortest k l :
  Forall is_pow2 l → sumZ l < 2 ^ Z.of_nat k → (length (binary k (sumZ l)) ≤ length l)%nat.
Proof.
  induction 1 as [|x l Hx Hl IH]; intros Hs; [simpl; by rewrite binary_zero|].
  rewrite sumZ_cons in *. pose proof (pow2_sum_nonneg l Hl).
  pose proof (is_pow2_pos x Hx). destruct Hx as (j & Hj & ->).
  assert (j < Z.of_nat k) by (apply (Z.pow_lt_mono_r_iff 2); lia).
  destruct (binary_add_pow2 k (sumZ l) (Z.to_nat j)) as [Hadd _]; [lia|lia|].
  rewrite Z2Nat.id, Z.add_comm in Hadd by done. simpl. specialize (Hadd Hs).
  specialize (IH ltac:(lia)). lia.
Qed.

Lemma greedy_leaves_sum v : in_u 64 v → sumZ (greedy_leaves v) = v.
Proof.
  intros Hv. rewrite greedy_leaves_binary, sort_values_sum by done. by apply binary_sum.
Qed.

Lemma greedy_leaves_pow2 v : in_u 64 v → Forall is_pow2 (greedy_leaves v).
Proof.
  intros Hv. rewrite greedy_leaves_binary by done. apply sort_values_pow2, binary_pow2.
Qed.

(** the greedy decomposition of a value adds up to it, consists of powers of
    two, and no other list of powers of two with that sum is shorter: it is the
    cheapest set of leaves to exit with. *)
Theorem greedy_leaves_optimal v :
  in_u 64 v →
  sumZ (greedy_leaves v) = v ∧ Forall is_pow2 (greedy_leaves v) ∧
  ∀ l, Forall is_pow2 l → sumZ l = v → (length (greedy_leaves v) ≤ length l)%nat.
Proof.
  intros Hv. split_and!; [by apply greedy_leaves_sum|by apply greedy_leaves_pow2|].
  intros l Hl Hs. rewrite greedy_leaves_binary, sort_values_length by done.
  rewrite <- Hs. apply binary_shortest; [done|]. rewrite Hs. apply Hv.
Qed.

(** ** The swap-minimizing denominations *)

Lemma push_copies_spec m p rem r rem' r' :
  0 ≤ rem → push_copies m p rem r = (rem', r') →
  ∃ n, r' = r ++ replicate n p ∧ rem' = rem - Z.of_nat n * p ∧ 0 ≤ rem'.
Proof.
  revert rem r. induction m as [|m IH]; intros rem r H0; simpl.
  { intros [= <- <-]. exists O. rewrite app_nil_r. split_and!; [done|lia|done]. }
  destruct (Z.leb_spec p rem); [|by apply IH].
  intros (n & -> & -> & ?)%IH; [|lia]. exists (S n). rewrite <- app_assoc.
  split_and!; [done|lia|lia].
Qed.

Lemma swap_minimizing_loop_spec fuel amount m k rem r rem' r' :
  (fuel + k = 64)%nat → in_u 64 rem → Forall is_pow2 r →
  swap_minimizing_loop fuel amount m (2 ^ Z.of_nat k) rem r = (rem', r') →
  Forall is_pow2 r' ∧ rem' + sumZ r' = rem + sumZ r ∧ in_u 64 rem'.
Proof.
  revert k rem r. induction fuel as [|fuel IH]; intros k rem r Hk Hrem Hr; cbn [swap_minimizing_loop].
  { by intros [= <- <-]. }
  destruct (Z.leb_spec (2 ^ Z.of_nat k) amount); [|by intros [= <- <-]].
  destruct (push_copies m (2 ^ Z.of_nat k) rem r) as [rem1 r1] eqn:Hp.
  apply push_copies_spec in Hp as (n & -> & -> & Hpos); [|apply Hrem].
  assert (Forall is_pow2 (r ++ replicate n (2 ^ Z.of_nat k))) as Hpow.
  { apply Forall_app. split; [done|]. apply Forall_replicate. exists (Z.of_nat k). split; [lia|done]. }
  assert (in_u 64 (rem - Z.of_nat n * 2 ^ Z.of_nat k)) as Hin.
  { unfold in_u in *. assert (0 ≤ Z.of_nat n * 2 ^ Z.of_nat k) by lia. lia. }
  assert (rem - Z.of_nat n * 2 ^ Z.of_nat k + sumZ (r ++ replicate n (2 ^ Z.of_nat k))
          = rem + sumZ r) as Hsum by (rewrite sumZ_app, sumZ_replicate; lia).
  destruct (Z.ltb_spec (umax 64 / 2) (2 ^ Z.of_nat k)) as [|Hle].
  { intros [= <- <-]. done. }
  assert (wmul 64 (2 ^ Z.of_nat k) 2 = 2 ^ Z.of_nat (S k)) as ->.
  { unfold wmul. rewrite wrap_small; [rewrite pow2_succ; lia|].
    change (umax 64 / 2) with 9223372036854775807 in Hle. unfold in_u. lia. }
  intros Hloop. apply IH in Hloop as (? & Hs & ?); [|lia|done|done]. split_and!; [done|lia|done].
Qed.

Lemma swap_minimizing_leaves_spec amount m :
  in_u 64 amount →
  sumZ (swap_minimizing_leaves amount m) = amount ∧ Forall is_pow2 (swap_minimizing_leaves amount m).
Proof.
  intros Ha. unfold swap_minimizing_leaves.
  destruct (swap_minimizing_loop 64 amount m 1 amount []) as [rem r] eqn:Hl.
  apply (swap_minimizing_loop_spec 64 amount m 0) in Hl as (Hr & Hs & Hrem); [|done|done|by constructor].
  rewrite sort_values_sum, sumZ_app, greedy_leaves_sum by done. split; [simpl in Hs; lia|].
  apply sort_values_pow2, Forall_app. split; [done|by apply greedy_leaves_pow2].
Qed.

(** ** Counters as multisets *)

Abbreviation cnt := (count_occ Z.eq_dec).

Lemma perm_of_counts l1 l2 : (∀ k, cnt l1 k = cnt l2 k) → l1 ≡ₚ l2.
Proof. apply (Permutation_count_occ Z.eq_dec). Qed.

Lemma counts_of_perm l1 l2 k : l1 ≡ₚ l2 → cnt l1 k = cnt l2 k.
Proof. intros Hp. by apply (Permutation_count_occ Z.eq_dec). Qed.

(** A list with smaller counts is part of the other. *)
Lemma complement_of_counts l1 l2 : (∀ k, cnt l1 k ≤ cnt l2 k)%nat → ∃ c, l2 ≡ₚ l1 ++ c.
Proof.
  revert l2. induction l1 as [|x l1 IH]; intros l2 Hc; [by exists l2|].
  assert (x ∈ l2) as Hx.
  { apply list_elem_of_In, (count_occ_In Z.eq_dec). specialize (Hc x). simpl in Hc.
    destruct (Z.eq_dec x x); [lia|done]. }
  apply elem_of_Permutation in Hx as [l2' Hp].
  destruct (IH l2') as [c Hcp]; [|exists c; rewrite Hp; simpl; by rewrite Hcp].
  intros k. specialize (Hc k). rewrite (counts_of_perm _ _ k Hp) in Hc. simpl in Hc.
  destruct (Z.eq_dec x k); lia.
Qed.

Lemma cnt_le_length l k : (cnt l k ≤ length l)%nat.
Proof. induction l as [|x l IH]; simpl; [lia|]. destruct (Z.eq_dec x k); lia. Qed.

Lemma count_occurrences_spec l k :
  Z.of_nat (length l) < 2 ^ 64 → default 0 (count_occurrences l !! k) = Z.of_nat (cnt l k).
Proof.
  intros Hlen. unfold count_occurrences.
  assert (∀ l (m : gmap Z Z),
    (∀ k, 0 ≤ default 0 (m !! k) ∧ default 0 (m !! k) + Z.of_nat (length l) < 2 ^ 64) →
    default 0 (foldl (λ m v, <[v := wadd 64 (default 0 (m !! v)) 1]> m) m l !! k)
    = default 0 (m !! k) + Z.of_nat (cnt l k)) as Hgen; [|rewrite Hgen].
  - clear l Hlen. induction l as [|x l IH]; intros m Hm; [simpl; lia|].
    assert (wadd 64 (default 0 (m !! x)) 1 = default 0 (m !! x) + 1) as Hadd.
    { apply wrap_small. destruct (Hm x) as [? Hx]. unfold in_u. simpl length in Hx. lia. }
    cbn [foldl]. rewrite Hadd, IH.
    + rewrite lookup_insert. cbn [count_occ]. destruct (Z.eq_dec x k) as [->|Hne].
      * rewrite decide_True, default_Some by done. lia.
      * by rewrite decide_False.
    + intros j. destruct (Hm j) as [H1 H2]. simpl length in H2. rewrite lookup_insert.
      case_decide as Heq; [|lia]. subst j. rewrite default_Some. lia.
  - by rewrite lookup_empty, default_None.
  - intros j. rewrite lookup_empty, default_None. lia.
Qed.

Section plans.
Context {ho : HashOrder}.

Lemma subtract_aux (b : gmap Z Z) kvs (result : gmap Z Z) k :
  NoDup kvs.*1 →
  foldl (λ result '(k, v),
    let b_count := default 0 (b !! k) in
    if b_count <? v then <[k := v - b_count]> result else result) result kvs !! k =
  match (list_to_map kvs : gmap Z Z) !! k with
  | Some v => if default 0 (b !! k) <? v then Some (v - default 0 (b !! k)) else result !! k
  | None => result !! k
  end.
Proof.
  revert result. induction kvs as [|[i v] kvs IH]; intros result Hnd.
  { simpl. by rewrite lookup_empty. }
  rewrite fmap_cons in Hnd. apply NoDup_cons in Hnd as [Hi Hnd]. cbn [foldl]. rewrite IH by done.
  simpl. destruct (decide (k = i)) as [->|Hne].
  - rewrite lookup_insert_eq, (not_elem_of_list_to_map_1 kvs i) by done.
    cbv zeta. by destruct (default 0 (b !! i) <? v); rewrite ?lookup_insert_eq.
  - rewrite lookup_insert_ne by done. cbv zeta.
    by destruct (default 0 (b !! i) <? v); rewrite ?lookup_insert_ne.
Qed.

Lemma subtract_counters_spec (a b : gmap Z Z) k :
  0 ≤ default 0 (b !! k) →
  default 0 (subtract_counters a b !! k) = Z.max 0 (default 0 (a !! k) - default 0 (b !! k)).
Proof.
  intros Hb. unfold subtract_counters. rewrite subtract_aux by apply NoDup_hm_keys.
  rewrite (list_to_map_proper _ (map_to_list a)) by (apply NoDup_hm_keys || apply hm_iter_perm).
  rewrite list_to_map_to_list, lookup_empty. destruct (a !! k) as [v|]; rewrite ?default_Some, ?default_None; [|lia].
  destruct (Z.ltb_spec (default 0 (b !! k)) v); rewrite ?default_Some, ?default_None; lia.
Qed.

Lemma cnt_app l1 l2 k : cnt (l1 ++ l2) k = (cnt l1 k + cnt l2 k)%nat.
Proof. apply count_occ_app. Qed.

Lemma cnt_replicate n x k : cnt (replicate n x) k = if decide (x = k) then n else O.
Proof.
  induction n as [|n IH]; simpl; [by case_decide|]. rewrite IH.
  destruct (Z.eq_dec x k); case_decide; done.
Qed.

Lemma cnt_join (n : Z → nat) ks k :
  NoDup ks → cnt (mjoin ((λ x, replicate (n x) x) <$> ks)) k = if decide (k ∈ ks) then n k else O.
Proof.
  induction 1 as [|x ks Hx Hnd IH]; [by rewrite decide_False by apply not_elem_of_nil|].
  change (mjoin _) with (replicate (n x) x ++ mjoin ((λ x, replicate (n x) x) <$> ks)).
  rewrite cnt_app, cnt_replicate, IH. destruct (decide (x = k)) as [->|Hne].
  - rewrite (decide_False (P := k ∈ ks)), decide_True by (done || by left). lia.
  - destruct (decide (k ∈ ks)).
    + rewrite decide_True by by right. done.
    + rewrite decide_False; [done|]. intros [->|?]%elem_of_cons; done.
Qed.

Lemma counter_to_flat_array_spec (m : gmap Z Z) k :
  cnt (counter_to_flat_array m) k = Z.to_nat (default 0 (m !! k)).
Proof.
  unfold counter_to_flat_array. rewrite cnt_join.
  - case_decide as Hk; [done|]. destruct (m !! k) as [v|] eqn:Hm; [|done]. exfalso. apply Hk.
    rewrite sort_values_perm. unfold hm_keys. apply list_elem_of_fmap. exists (k, v).
    split; [done|]. by apply elem_of_hm_iter.
  - rewrite sort_values_perm. apply NoDup_hm_keys.
Qed.

(** The leaves to give and to receive, and the leaves kept. *)
Lemma give_receive_split l1 l2 :
  Z.of_nat (length l1) < 2 ^ 64 → Z.of_nat (length l2) < 2 ^ 64 →
  ∃ common,
    l1 ≡ₚ counter_to_flat_array
            (subtract_counters (count_occurrences l1) (count_occurrences l2)) ++ common ∧
    l2 ≡ₚ counter_to_flat_array
            (subtract_counters (count_occurrences l2) (count_occurrences l1)) ++ common.
Proof.
  intros H1 H2. set (give := counter_to_flat_array (subtract_counters (count_occurrences l1) _)).
  set (receive := counter_to_flat_array (subtract_counters (count_occurrences l2) _)).
  assert (∀ k, cnt give k = (cnt l1 k - cnt l2 k)%nat) as Hg.
  { intros k. unfold give. rewrite counter_to_flat_array_spec, subtract_counters_spec;
      rewrite !count_occurrences_spec by done; lia. }
  assert (∀ k, cnt receive k = (cnt l2 k - cnt l1 k)%nat) as Hr.
  { intros k. unfold receive. rewrite counter_to_flat_array_spec, subtract_counters_spec;
      rewrite !count_occurrences_spec by done; lia. }
  destruct (complement_of_counts give l1) as [c1 Hc1]; [intros k; rewrite Hg; lia|].
  destruct (complement_of_counts receive l2) as [c2 Hc2]; [intros k; rewrite Hr; lia|].
  exists c1. split; [done|]. rewrite Hc2. apply Permutation_app_head, perm_of_counts.
  intros k. apply (counts_of_perm _ _ k) in Hc1, Hc2. rewrite cnt_app, Hg in Hc1.
  rewrite cnt_app, Hr in Hc2. lia.
Qed.

(** ** Plans *)

Definition gives (swaps : list SwapPlan) : list Z := mjoin (leaves_to_give <$> swaps).
Definition receives (swaps : list SwapPlan) : list Z := mjoin (leaves_to_receive <$> swaps).

(** A plan conserves value, receives powers of two and gives few leaves. *)
Definition plan_ok (max_leaves : nat) (p : SwapPlan) : Prop :=
  sumZ (leaves_to_give p) = sumZ (leaves_to_receive p) ∧
  Forall is_pow2 (leaves_to_receive p) ∧ (length (leaves_to_give p) ≤ max_leaves)%nat.

Definition values_ok (l : list Z) : Prop := Forall (λ x, 0 ≤ x) l ∧ sumZ l < 2 ^ 64.

Lemma values_ok_sum l : values_ok l → sum_u 64 l = sumZ l ∧ in_u 64 (sumZ l).
Proof.
  intros [Hl Hs]. split; [by apply sum_u_exact|]. split; [by apply sumZ_nonneg|done].
Qed.

Lemma values_ok_app l1 l2 : values_ok (l1 ++ l2) → values_ok l1 ∧ values_ok l2.
Proof.
  intros [[Hl1 Hl2]%Forall_app Hs]. rewrite sumZ_app in Hs.
  pose proof (sumZ_nonneg _ Hl1). pose proof (sumZ_nonneg _ Hl2). split; split; try done; lia.
Qed.

Lemma values_ok_perm l1 l2 : l1 ≡ₚ l2 → values_ok l1 → values_ok l2.
Proof. intros Hp [Hl Hs]. split; by rewrite <- Hp. Qed.

Lemma gives_app s1 s2 : gives (s1 ++ s2) = gives s1 ++ gives s2.
Proof. unfold gives. by rewrite fmap_app, join_app. Qed.

Lemma receives_app s1 s2 : receives (s1 ++ s2) = receives s1 ++ receives s2.
Proof. unfold receives. by rewrite fmap_app, join_app. Qed.

Lemma plan_batch_ok max_leaves batch :
  values_ok batch → (length batch ≤ max_leaves)%nat →
  Forall (plan_ok max_leaves) (plan_batch batch (greedy_leaves (sum_u 64 batch))) ∧
  gives (plan_batch batch (greedy_leaves (sum_u 64 batch))) ⊆+ batch.
Proof.
  intros Hok Hlen. destruct (values_ok_sum _ Hok) as [-> Hin]. unfold plan_batch.
  case_bool_decide; [|split; [constructor|apply submseteq_nil_l]]. split.
  - constructor; [|constructor]. split_and!; simpl; [by rewrite greedy_leaves_sum| |done].
    by apply greedy_leaves_pow2.
  - unfold gives. simpl. by rewrite app_nil_r.
Qed.

Lemma maximize_loop_spec max_leaves leaves batch swaps batch' swaps' :
  (0 < max_leaves)%nat → (length batch < max_leaves)%nat →
  values_ok (batch ++ leaves) →
  Forall (plan_ok max_leaves) swaps →
  maximize_loop max_leaves leaves batch swaps = (batch', swaps') →
  Forall (plan_ok max_leaves) swaps' ∧ (length batch' < max_leaves)%nat ∧ values_ok batch' ∧
  gives swaps' ++ batch' ⊆+ gives swaps ++ batch ++ leaves.
Proof.
  intros Hmax. revert batch swaps. induction leaves as [|x leaves IH]; intros batch swaps Hlen Hok Hs;
    simpl.
  { intros [= <- <-]. rewrite app_nil_r in *. done. }
  assert (values_ok ((batch ++ [x]) ++ leaves)) as Hok' by by rewrite <- app_assoc.
  destruct (values_ok_app _ _ Hok') as [Hb Hl].
  assert (length (batch ++ [x]) ≤ max_leaves)%nat as Hbl by (rewrite length_app; simpl; lia).
  destruct (plan_batch_ok max_leaves (batch ++ [x]) Hb Hbl) as [Hp Hg].
  destruct (Nat.leb_spec max_leaves (length (batch ++ [x]))) as [|Hlt]; cbn [orb];
    [|destruct (Nat.leb_spec max_leaves (length (greedy_leaves (sum_u 64 (batch ++ [x]))))) as [|]].
  1,2: intros Hloop; apply IH in Hloop as (? & ? & ? & Hsub); [|simpl; lia|done|by apply Forall_app];
    split_and!; [done|done|done|]; etrans; [exact Hsub|]; rewrite gives_app; simpl;
    rewrite <- app_assoc; apply submseteq_app; [done|];
    rewrite (app_assoc batch [x] leaves : batch ++ x :: leaves = _); by apply submseteq_app.
  intros Hloop. apply IH in Hloop as (? & ? & ? & Hsub); [|done|done|done].
  split_and!; [done|done|done|]. by rewrite <- (app_assoc batch [x]) in Hsub.
Qed.

Lemma maximize_unilateral_exit_spec input max_leaves :
  values_ok input → 0 < max_leaves →
  Forall (plan_ok (Z.to_nat max_leaves)) (maximize_unilateral_exit input max_leaves) ∧
  gives (maximize_unilateral_exit input max_leaves) ⊆+ input.
Proof.
  intros Hok Hmax. unfold maximize_unilateral_exit.
  destruct (maximize_loop _ _ _ _) as [batch swaps] eqn:Hloop.
  apply maximize_loop_spec in Hloop as (Hs & Hlen & Hb & Hsub); [|lia|simpl; lia| |constructor].
  2: { simpl. eapply values_ok_perm; [symmetry; apply sort_values_perm|done]. }
  simpl in Hsub. rewrite sort_values_perm in Hsub. case_bool_decide as Hnil.
  - split; [done|]. etrans; [|exact Hsub]. apply submseteq_inserts_r. done.
  - destruct (plan_batch_ok (Z.to_nat max_leaves) batch Hb) as [Hp Hg]; [lia|].
    split; [by apply Forall_app|]. rewrite gives_app. etrans; [|exact Hsub]. by apply submseteq_app.
Qed.


Lemma chunks_loop_spec fuel n (l : list Z) :
  (0 < n)%nat → (length l ≤ fuel)%nat →
  mjoin (chunks_loop fuel n l) = l ∧ Forall (λ c, length c ≤ n)%nat (chunks_loop fuel n l).
Proof.
  intros Hn. revert l. induction fuel as [|fuel IH]; intros l Hl.
  { destruct l; [by split|simpl in Hl; lia]. }
  destruct l as [|x l]; [by split|].
  change (chunks_loop (S fuel) n (x :: l))
    with (take n (x :: l) :: chunks_loop fuel n (drop n (x :: l))).
  destruct (IH (drop n (x :: l))) as [Hj Hc]; [rewrite length_drop; simpl in *; lia|].
  split; [|constructor; [rewrite length_take; lia|done]].
  change (mjoin (?a :: ?b)) with (a ++ mjoin b). rewrite Hj. apply take_drop.
Qed.

Lemma find_cutoff_spec cutoff max_leaves tr alt :
  values_ok tr → Forall is_pow2 tr →
  find_cutoff cutoff max_leaves (sumZ tr) tr = Some alt → sumZ alt = sumZ tr ∧ Forall is_pow2 alt.
Proof.
  intros Hok Hp. induction cutoff as [|cutoff IH]; [done|].
  cbn [find_cutoff]. case_match; [|done]. intros [= <-].
  assert (values_ok (take (S cutoff) tr ++ drop (S cutoff) tr)) as Hsplit by by rewrite take_drop.
  destruct (values_ok_app _ _ Hsplit) as [Ht Hd].
  destruct (values_ok_sum _ Ht) as [Hts Ht1], (values_ok_sum _ Hd) as [_ Hd1].
  assert (sumZ tr = sumZ (take (S cutoff) tr) + sumZ (drop (S cutoff) tr)) as Hsum
    by by rewrite <- sumZ_app, take_drop.
  assert (wsub 64 (sumZ tr) (sum_u 64 (take (S cutoff) tr)) = sumZ (drop (S cutoff) tr)) as Hrem.
  { rewrite Hts. unfold wsub. rewrite Hsum.
    replace (_ + _ - _) with (sumZ (drop (S cutoff) tr)) by lia. by apply wrap_small. }
  rewrite Hrem. split.
  - rewrite sumZ_app, greedy_leaves_sum by done. lia.
  - apply Forall_app. split; [by apply Forall_take|by apply greedy_leaves_pow2].
Qed.

Lemma emit_swaps_spec max_leaves tg tr :
  (0 < max_leaves)%nat → values_ok tg → values_ok tr → Forall is_pow2 tr → sumZ tg = sumZ tr →
  Forall (plan_ok max_leaves) (emit_swaps max_leaves (sumZ tg) tg tr) ∧
  gives (emit_swaps max_leaves (sumZ tg) tg tr) ⊆+ tg.
Proof.
  intros Hmax Hg Hr Hp Hsum. unfold emit_swaps.
  destruct (Nat.ltb_spec max_leaves (length tg)) as [Hlt|Hge].
  - unfold chunks. destruct (chunks_loop_spec (length tg) max_leaves tg Hmax) as [Hj Hc]; [done|].
    revert Hj Hc. generalize (chunks_loop (length tg) max_leaves tg). intros cs Hj Hc. split.
    + apply Forall_fmap, Forall_forall. intros c Hc'. rewrite Forall_forall in Hc.
      assert (values_ok c) as Hcok.
      { destruct Hg as [Hnn Hs]. subst tg. apply elem_of_Permutation in Hc' as [cs' Hp'].
        assert (mjoin cs ≡ₚ c ++ mjoin cs') as Hpj by (rewrite Hp'; done).
        apply (values_ok_app c (mjoin cs')). by apply (values_ok_perm _ _ Hpj). }
      destruct (values_ok_sum _ Hcok) as [Hcs Hin]. split_and!; simpl; [|..|by apply Hc].
      * by rewrite Hcs, greedy_leaves_sum.
      * rewrite Hcs. by apply greedy_leaves_pow2.
    + unfold gives. rewrite <- list_fmap_compose.
      replace ((leaves_to_give ∘ _) <$> cs) with cs; [by rewrite Hj|].
      symmetry. rewrite <- (list_fmap_id cs) at 2. by apply list_fmap_ext.
  - destruct (Nat.ltb_spec max_leaves (length tr)).
    + rewrite Hsum. destruct (find_cutoff _ _ _ _) as [alt|] eqn:Hf;
        [|split; [constructor|apply submseteq_nil_l]].
      apply find_cutoff_spec in Hf as [Ha1 Ha2]; [|done|done]. split.
      * constructor; [|constructor]. split_and!; simpl; [congruence|done|lia].
      * unfold gives. simpl. by rewrite app_nil_r.
    + split; [constructor; [by split_and!; simpl|constructor]|].
      unfold gives. simpl. by rewrite app_nil_r.
Qed.

Lemma settle_batches_spec max_leaves tg tr new tg' tr' :
  (0 < max_leaves)%nat → values_ok tg → values_ok tr → Forall is_pow2 tr →
  settle_batches max_leaves tg tr = (new, (tg', tr')) →
  Forall (plan_ok max_leaves) new ∧ gives new ++ tg' ⊆+ tg ∧
  sumZ tg - sumZ tg' = sumZ tr - sumZ tr' ∧
  ((tg' = tg ∧ tr' = tr) ∨ (tg' = [] ∧ tr' = [])).
Proof.
  intros Hmax Hg Hr Hp. unfold settle_batches.
  destruct (values_ok_sum _ Hg) as [-> _], (values_ok_sum _ Hr) as [-> _].
  destruct (_ && (sumZ tg =? sumZ tr)) eqn:Hb.
  - intros [= <- <- <-]. apply andb_true_iff in Hb as [_ Hs%Z.eqb_eq].
    destruct (emit_swaps_spec max_leaves tg tr) as [? ?]; try done.
    rewrite app_nil_r. split_and!; [done|done|simpl; lia|by right].
  - intros [= <- <- <-]. split_and!; [constructor|done|lia|by left].
Qed.

(** The loop always finishes within its fuel, and its plans are sound. *)
Lemma balance_loop_spec fuel max_leaves give receive tg tr swaps :
  (0 < max_leaves)%nat → (length give + length receive ≤ fuel)%nat →
  values_ok (tg ++ give) → values_ok (tr ++ receive) → Forall is_pow2 (tr ++ receive) →
  Forall (plan_ok max_leaves) swaps →
  ∃ swaps', balance_loop fuel max_leaves give receive tg tr swaps = Some swaps' ∧
    Forall (plan_ok max_leaves) swaps' ∧ gives swaps' ⊆+ gives swaps ++ tg ++ give.
Proof.
  intros Hmax. revert give receive tg tr swaps.
  induction fuel as [|fuel IH]; intros give receive tg tr swaps Hf Hg Hr Hp Hs.
  { destruct give, receive; simpl in Hf; try lia. exists swaps. split_and!; [done|done|].
    by apply submseteq_inserts_r. }
  assert (∃ swaps', Some swaps = Some swaps' ∧ Forall (plan_ok max_leaves) swaps' ∧
    gives swaps' ⊆+ gives swaps ++ tg ++ give) as Hstop.
  { exists swaps. split_and!; [done|done|]. by apply submseteq_inserts_r. }
  assert (∀ give' receive' tg1 tr1 new tg' tr',
    tg1 ++ give' = tg ++ give → tr1 ++ receive' = tr ++ receive →
    (length give' + length receive' ≤ fuel)%nat →
    settle_batches max_leaves tg1 tr1 = (new, (tg', tr')) →
    ∃ swaps', balance_loop fuel max_leaves give' receive' tg' tr' (swaps ++ new) = Some swaps' ∧
      Forall (plan_ok max_leaves) swaps' ∧ gives swaps' ⊆+ gives swaps ++ tg ++ give) as Hstep.
  { intros give' receive' tg1 tr1 new tg' tr' Heg Her Hlen Hset.
    rewrite <- Heg in Hg |- *. rewrite <- Her in Hr, Hp.
    destruct (values_ok_app _ _ Hg) as [Hg1 Hg2], (values_ok_app _ _ Hr) as [Hr1 Hr2].
    apply Forall_app in Hp as [Hp1 Hp2].
    destruct (settle_batches_spec _ _ _ _ _ _ Hmax Hg1 Hr1 Hp1 Hset) as (Hnew & Hgive & _ & Hcase).
    destruct (IH give' receive' tg' tr' (swaps ++ new)) as (s' & Hs' & Hok & Hsub); [done|..].
    - destruct Hcase as [[-> ->]|[-> ->]]; [done|]. simpl. done.
    - destruct Hcase as [[-> ->]|[-> ->]]; done.
    - destruct Hcase as [[-> ->]|[-> ->]]; [by apply Forall_app|done].
    - by apply Forall_app.
    - exists s'. split_and!; [done|done|]. etrans; [exact Hsub|].
      rewrite gives_app, <- app_assoc, (app_assoc (gives new)). apply submseteq_app; [done|].
      by apply submseteq_app. }
  destruct give as [|x give], receive as [|y receive]; cbn [balance_loop];
    [by apply Hstop|..]; (destruct (_ <? _); [|]); try by apply Hstop.
  - destruct (settle_batches max_leaves tg (tr ++ [y])) as [new [tg' tr']] eqn:Hset.
    eapply Hstep; [..|exact Hset]; [done|by rewrite <- app_assoc|simpl in *; lia].
  - destruct (settle_batches max_leaves (tg ++ [x]) tr) as [new [tg' tr']] eqn:Hset.
    eapply Hstep; [..|exact Hset]; [by rewrite <- app_assoc|done|simpl in *; lia].
  - destruct (settle_batches max_leaves tg (tr ++ [y])) as [new [tg' tr']] eqn:Hset.
    eapply Hstep; [..|exact Hset]; [done|by rewrite <- app_assoc|simpl in *; lia].
  - destruct (settle_batches max_leaves (tg ++ [x]) tr) as [new [tg' tr']] eqn:Hset.
    eapply Hstep; [..|exact Hset]; [by rewrite <- app_assoc|done|simpl in *; lia].
Qed.

(** The wallet and the optimal set have fewer than 2^64 leaves. *)
Definition counts_ok (input : list Z) (multiplicity : nat) : Prop :=
  Z.of_nat (length input) < 2 ^ 64 ∧
  Z.of_nat (length (swap_minimizing_leaves (sumZ input) multiplicity)) < 2 ^ 64.

Lemma minimize_split input multiplicity :
  values_ok input → counts_ok input multiplicity →
  let optimal := swap_minimizing_leaves (sum_u 64 input) multiplicity in
  let give := counter_to_flat_array
                (subtract_counters (count_occurrences input) (count_occurrences optimal)) in
  let receive := counter_to_flat_array
                   (subtract_counters (count_occurrences optimal) (count_occurrences input)) in
  ∃ common, input ≡ₚ give ++ common ∧ optimal ≡ₚ receive ++ common ∧
    values_ok give ∧ values_ok receive ∧ Forall is_pow2 receive ∧ sumZ give = sumZ receive ∧
    sumZ optimal = sumZ input.
Proof.
  intros Hok [Hl1 Hl2]. destruct (values_ok_sum _ Hok) as [-> Hin].
  intros optimal give receive.
  destruct (swap_minimizing_leaves_spec (sumZ input) multiplicity Hin) as [Hsum Hpow].
  fold optimal in Hsum, Hpow. destruct (give_receive_split input optimal Hl1 Hl2) as (c & Hc1 & Hc2).
  fold give in Hc1. fold receive in Hc2. exists c.
  assert (values_ok optimal) as Hopt.
  { split; [|rewrite Hsum; apply Hin]. eapply Forall_impl; [done|]. intros x ?%is_pow2_pos.
    simpl. lia. }
  split_and!; [done|done|..|done].
  - by apply (values_ok_app give c), (values_ok_perm input).
  - by apply (values_ok_app receive c), (values_ok_perm optimal).
  - rewrite Hc2 in Hpow. by apply Forall_app in Hpow as [? _].
  - pose proof (sumZ_perm _ _ Hc1) as H1. pose proof (sumZ_perm _ _ Hc2) as H2.
    rewrite sumZ_app in H1, H2. lia.
Qed.

(** planning is total and sound for every wallet and setting: it always
    produces plans (the loops terminate), each plan receives exactly the value it
    gives, in powers of two, and gives at most [max_leaves_per_swap] leaves, and
    together the plans give leaves the wallet holds, each at most once. *)
Theorem calculate_optimization_swaps_sound input multiplicity max_leaves :
  values_ok input → counts_ok input multiplicity → 0 < max_leaves →
  ∃ swaps, calculate_optimization_swaps input multiplicity max_leaves = Some swaps ∧
    Forall (plan_ok (Z.to_nat max_leaves)) swaps ∧ gives swaps ⊆+ input.
Proof.
  intros Hok Hc Hmax. unfold calculate_optimization_swaps. case_bool_decide.
  { destruct (maximize_unilateral_exit_spec input max_leaves Hok Hmax). by eexists. }
  unfold minimize_transfer_swap.
  destruct (minimize_split input multiplicity Hok Hc) as (c & Hc1 & _ & Hg & Hr & Hp & _ & _).
  set (give := counter_to_flat_array (subtract_counters (count_occurrences input) _)) in *.
  set (receive := counter_to_flat_array (subtract_counters _ (count_occurrences input))) in *.
  case_match; [exists []; split_and!; [done|constructor|apply submseteq_nil_l]|].
  destruct (balance_loop_spec (length give + length receive) (Z.to_nat max_leaves) give receive
    [] [] []) as (s & Hs & Hplans & Hsub); try done; [lia|].
  exists s. split_and!; [done|done|]. rewrite Hc1. etrans; [exact Hsub|].
  by apply submseteq_inserts_r.
Qed.


(** ** Plans that are not split *)

Lemma positive_sum_zero l : Forall (λ x, 0 < x) l → sumZ l = 0 → l = [].
Proof.
  destruct 1 as [|x l Hx Hl]; [done|]. rewrite sumZ_cons. intros Hs.
  assert (0 ≤ sumZ l); [|lia]. apply sumZ_nonneg. eapply Forall_impl; [done|]. simpl. lia.
Qed.

Lemma positive_nonneg l : Forall (λ x, 0 < x) l → Forall (λ x, 0 ≤ x) l.
Proof. intros. eapply Forall_impl; [done|]. simpl. lia. Qed.

(** Two batches the loop has not settled yet. *)
Definition unsettled (tg tr : list Z) : Prop := tg = [] ∨ tr = [] ∨ sumZ tg ≠ sumZ tr.

Lemma settle_batches_exact max_leaves tg tr new tg' tr' :
  values_ok tg → values_ok tr → (length tg ≤ max_leaves)%nat → (length tr ≤ max_leaves)%nat →
  settle_batches max_leaves tg tr = (new, (tg', tr')) →
  unsettled tg' tr' ∧ gives new ++ tg' = tg ∧ receives new ++ tr' = tr.
Proof.
  intros Hg Hr Hlg Hlr. unfold settle_batches.
  destruct (values_ok_sum _ Hg) as [-> _], (values_ok_sum _ Hr) as [-> _].
  destruct (_ && (sumZ tg =? sumZ tr)) eqn:Hb.
  - intros [= <- <- <-]. unfold emit_swaps.
    destruct (Nat.ltb_spec max_leaves (length tg)); [lia|].
    destruct (Nat.ltb_spec max_leaves (length tr)); [lia|].
    split; [by left|]. unfold gives, receives. simpl. by rewrite !app_nil_r.
  - intros [= <- <- <-]. split; [|done]. apply andb_false_iff in Hb as [Hb|Hb%Z.eqb_neq];
      [|by right; right].
    apply andb_false_iff in Hb as [Hb|Hb]; apply bool_decide_eq_false in Hb;
      apply dec_stable in Hb; [by left|by right; left].
Qed.

Lemma balance_loop_exact fuel max_leaves give receive tg tr swaps :
  (length give + length receive ≤ fuel)%nat →
  (length (tg ++ give) ≤ max_leaves)%nat → (length (tr ++ receive) ≤ max_leaves)%nat →
  Forall (λ x, 0 < x) (tg ++ give) → Forall (λ x, 0 < x) (tr ++ receive) →
  sumZ (tg ++ give) < 2 ^ 64 → sumZ (tg ++ give) = sumZ (tr ++ receive) → unsettled tg tr →
  ∃ swaps', balance_loop fuel max_leaves give receive tg tr swaps = Some swaps' ∧
    gives swaps' = gives swaps ++ tg ++ give ∧ receives swaps' = receives swaps ++ tr ++ receive.
Proof.
  revert give receive tg tr swaps.
  induction fuel as [|fuel IH]; intros give receive tg tr swaps Hf Hlg Hlr Hg Hr Hb Hs Hu.
  all: assert (give = [] → receive = [] → tg = [] ∧ tr = []) as Hend
    by (intros -> ->; rewrite !app_nil_r in *; destruct Hu as [->|[->|?]]; [| |lia];
        simpl in Hs; split; try done; apply positive_sum_zero; done).
  { destruct give, receive; simpl in Hf; try lia. destruct Hend as [-> ->]; [done..|].
    exists swaps. by rewrite !app_nil_r. }
  assert (values_ok (tg ++ give)) as Hgok by (split; [by apply positive_nonneg|done]).
  assert (values_ok (tr ++ receive)) as Hrok by (split; [by apply positive_nonneg|lia]).
  assert (∀ give' receive' tg1 tr1 new tg' tr',
    tg1 ++ give' = tg ++ give → tr1 ++ receive' = tr ++ receive →
    (length give' + length receive' ≤ fuel)%nat →
    settle_batches max_leaves tg1 tr1 = (new, (tg', tr')) →
    ∃ swaps', balance_loop fuel max_leaves give' receive' tg' tr' (swaps ++ new) = Some swaps' ∧
      gives swaps' = gives swaps ++ tg ++ give ∧
      receives swaps' = receives swaps ++ tr ++ receive) as Hstep.
  { intros give' receive' tg1 tr1 new tg' tr' Heg Her Hlen Hset.
    rewrite <- Heg in Hgok, Hlg, Hg, Hb, Hs |- *. rewrite <- Her in Hrok, Hlr, Hr, Hs |- *.
    destruct (values_ok_app _ _ Hgok) as [Hg1 _], (values_ok_app _ _ Hrok) as [Hr1 _].
    pose proof Hlg as Hlg1. pose proof Hlr as Hlr1. rewrite length_app in Hlg1, Hlr1.
    destruct (settle_batches_exact max_leaves tg1 tr1 new tg' tr') as (Hu' & Htg & Htr);
      [done|done|lia|lia|done|].
    assert (sumZ (gives new) = sumZ (receives new)) as Hnew.
    { revert Hset. unfold settle_batches. destruct (values_ok_sum _ Hg1) as [-> _],
        (values_ok_sum _ Hr1) as [-> _]. destruct (_ && (sumZ tg1 =? sumZ tr1)) eqn:Hc.
      - intros [= <- <- <-]. rewrite app_nil_r in Htg, Htr. rewrite Htg, Htr.
        apply andb_true_iff in Hc as [_ Hc]. by apply Z.eqb_eq.
      - by intros [= <- _ _]. }
    rewrite <- Htg, <- Htr in *. rewrite <- !app_assoc in *. rewrite !sumZ_app in *.
    rewrite !length_app in *. apply Forall_app in Hg as [Hgn Hg], Hr as [Hrn Hr].
    pose proof (sumZ_nonneg _ (positive_nonneg _ Hgn)).
    destruct (IH give' receive' tg' tr' (swaps ++ new)) as (s' & Hs' & Hs1 & Hs2);
      rewrite ?length_app, ?sumZ_app; try done; try lia.
    exists s'. split; [done|]. by rewrite Hs1, Hs2, gives_app, receives_app, <- !app_assoc. }
  destruct (values_ok_app _ _ Hgok) as [Hg1 Hg2], (values_ok_app _ _ Hrok) as [Hr1 Hr2].
  destruct (values_ok_sum _ Hg1) as [Hsg _], (values_ok_sum _ Hr1) as [Hsr _].
  rewrite !sumZ_app in Hs. pose proof (sumZ_nonneg _ (proj1 Hg2)) as Hgn.
  pose proof (sumZ_nonneg _ (proj1 Hr2)) as Hrn. apply Forall_app in Hg as [_ Hgp], Hr as [_ Hrp].
  destruct give as [|x give], receive as [|y receive]; cbn [balance_loop].
  - destruct Hend as [-> ->]; [done..|]. exists swaps. by rewrite !app_nil_r.
  - rewrite Hsg, Hsr. destruct (Z.ltb_spec (sumZ tr) (sumZ tg)).
    + destruct (settle_batches max_leaves tg (tr ++ [y])) as [new [tg' tr']] eqn:Hset.
      eapply Hstep; [..|exact Hset]; [done|by rewrite <- app_assoc|simpl in *; lia].
    + exfalso. rewrite !sumZ_cons in *. apply Forall_cons in Hrp as [? Hrp].
      pose proof (sumZ_nonneg _ (positive_nonneg _ Hrp)). simpl in Hs. lia.
  - rewrite Hsg, Hsr. destruct (Z.ltb_spec (sumZ tr) (sumZ tg)).
    + exfalso. simpl in Hs, Hgn. lia.
    + destruct (settle_batches max_leaves (tg ++ [x]) tr) as [new [tg' tr']] eqn:Hset.
      eapply Hstep; [..|exact Hset]; [by rewrite <- app_assoc|done|simpl in *; lia].
  - destruct (_ <? _).
    + destruct (settle_batches max_leaves tg (tr ++ [y])) as [new [tg' tr']] eqn:Hset.
      eapply Hstep; [..|exact Hset]; [done|by rewrite <- app_assoc|simpl in *; lia].
    + destruct (settle_batches max_leaves (tg ++ [x]) tr) as [new [tg' tr']] eqn:Hset.
      eapply Hstep; [..|exact Hset]; [by rewrite <- app_assoc|done|simpl in *; lia].
Qed.

(** when the wallet and the optimal set fit one round, executing the plans of
    [minimize_transfer_swap] turns the wallet into exactly the swap-minimizing
    denominations of its balance: they give what is in excess, receive what is
    missing, and touch nothing else. *)
Theorem minimize_transfer_swap_reaches_optimal input multiplicity max_leaves :
  Forall (λ x, 0 < x) input → sumZ input < 2 ^ 64 → counts_ok input multiplicity →
  Z.of_nat (length input) ≤ max_leaves →
  Z.of_nat (length (swap_minimizing_leaves (sumZ input) multiplicity)) ≤ max_leaves →
  ∃ swaps kept, minimize_transfer_swap input multiplicity max_leaves = Some swaps ∧
    input ≡ₚ gives swaps ++ kept ∧
    receives swaps ++ kept ≡ₚ swap_minimizing_leaves (sumZ input) multiplicity.
Proof.
  intros Hpos Hsum Hc Hl1 Hl2. assert (values_ok input) as Hok by (split; [by apply positive_nonneg|done]).
  destruct (minimize_split input multiplicity Hok Hc) as (c & Hc1 & Hc2 & Hg & Hr & Hp & Hs & _).
  unfold minimize_transfer_swap. destruct (values_ok_sum _ Hok) as [Hbal _]. rewrite Hbal in *.
  set (optimal := swap_minimizing_leaves (sumZ input) multiplicity) in *.
  set (give := counter_to_flat_array (subtract_counters (count_occurrences input) _)) in *.
  set (receive := counter_to_flat_array (subtract_counters _ (count_occurrences input))) in *.
  destruct (values_ok_sum _ Hg) as [-> _], (values_ok_sum _ Hr) as [-> _].
  rewrite Hs, Z.eqb_refl. cbn [negb].
  pose proof (Permutation_length Hc1) as Hlen1. pose proof (Permutation_length Hc2) as Hlen2.
  rewrite length_app in Hlen1, Hlen2.
  destruct (balance_loop_exact (length give + length receive) (Z.to_nat max_leaves) give receive
    [] [] []) as (s & Hsw & Hgive & Hrec); simpl; [lia|lia|lia|..].
  - clearbody give. rewrite Hc1 in Hpos. by apply Forall_app in Hpos as [? _].
  - eapply Forall_impl; [done|]. intros x. apply is_pow2_pos.
  - apply Hg.
  - done.
  - by left.
  - exists s, c. simpl in Hgive, Hrec. rewrite Hgive, Hrec. done.
Qed.

End plans.

(** ** Witnesses *)

#[local] Existing Instance canonical_order.

Lemma greedy_leaves_optimal_witness :
  sumZ (greedy_leaves 100000) = 100000 ∧ Forall is_pow2 (greedy_leaves 100000) ∧
  ∀ l, Forall is_pow2 l → sumZ l = 100000 → (length (greedy_leaves 100000) ≤ length l)%nat.
Proof. apply (greedy_leaves_optimal 100000). compute_done. Defined.

Lemma calculate_optimization_swaps_sound_witness :
  ∃ swaps, calculate_optimization_swaps [100; 7; 7; 16] 1 2 = Some swaps ∧
    Forall (plan_ok (Z.to_nat 2)) swaps ∧ gives swaps ⊆+ [100; 7; 7; 16].
Proof.
  apply (calculate_optimization_swaps_sound [100; 7; 7; 16] 1 2).
  - split; [repeat constructor; lia|by vm_compute].
  - split; by vm_compute.
  - lia.
Defined.

Lemma minimize_transfer_swap_reaches_optimal_witness :
  ∃ swaps kept, minimize_transfer_swap [100; 7; 7; 16] 1 64 = Some swaps ∧
    [100; 7; 7; 16] ≡ₚ gives swaps ++ kept ∧
    receives swaps ++ kept ≡ₚ swap_minimizing_leaves (sumZ [100; 7; 7; 16]) 1.
Proof.
  apply (minimize_transfer_swap_reaches_optimal [100; 7; 7; 16] 1 64).
  - repeat constructor.
  - by vm_compute.
  - split; by vm_compute.
  - by vm_compute.
  - by vm_compute.
Defined.
