(* ===== verification/LeafOptimizer.v ===== *)
(** The leaf optimizer's runs: [LeafOptimizer] of
    [crates/spark/src/services/leaf_optimizer.rs], with the tree service, the swap
    service, the cancellation channel and the event handler as an interface. *)
From S2P Require Import Prelude TreeTypes SwapPlans.

(** ** Options, progress, events *)

Record LeafOptimizationOptions : Type := {
  multiplicity : nat;
  max_leaves_per_swap : Z
}.

Definition LeafOptimizationOptions_default : LeafOptimizationOptions :=
  {| multiplicity := 1; max_leaves_per_swap := DEFAULT_MAX_LEAVES_PER_SWAP |}.

Record OptimizationProgress : Type := {
  is_running : bool;
  current_round : Z;
  total_rounds : Z
}.

Definition OptimizationProgress_default : OptimizationProgress :=
  {| is_running := false; current_round := 0; total_rounds := 0 |}.

Inductive OptimizationEvent : Type :=
| Started (total : Z)
| RoundCompleted (current total : Z)
| Completed
| Cancelled
| Failed (error : string)
| Skipped.

(** What the optimizer calls.  [opt_cancelled] is the value of the cancellation
    channel, [opt_set_cancelled] sends on it; [opt_progress] is the progress under
    its mutex. *)
Class OptimizerEnv {ext : Externals} (W : Type) := {
  opt_list_leaves : SE W TreeServiceError Leaves;
  opt_select_leaves : option TargetAmounts → ReservationPurpose → SelectLeavesOptions →
    SE W TreeServiceError LeavesReservation;
  opt_finalize : LeavesReservationId → option (list TreeNode) → SE W TreeServiceError ();
  opt_cancel_reservation : LeavesReservationId → SE W TreeServiceError ();
  opt_refresh_leaves : SE W TreeServiceError ();
  opt_swap_leaves : list TreeNode → option (list Z) → SE W ServiceError (list TreeNode);
  opt_cancelled : W → bool;
  opt_set_cancelled : bool → W → W;
  opt_progress : W → OptimizationProgress;
  opt_set_progress : OptimizationProgress → W → W;
  opt_emit : OptimizationEvent → W → W;
  display_ServiceError : ServiceError → string;
  swap_failed_text : Z → ServiceError → string
}.

Section optimizer.
Context {ext : Externals} {ho : HashOrder} {W : Type} {env : OptimizerEnv W}.

(** [LeafOptimizationOptions::validate]; the warning is only logged. *)
Definition validate (o : LeafOptimizationOptions) : result () ServiceError :=
  if max_leaves_per_swap o =? 0 then Err (SE_Generic "max_leaves_per_swap must be greater than 0")
  else Ok ().

Context (config : LeafOptimizationOptions).

Definition should_optimize (leaves : list TreeNode) : bool :=
  if bool_decide (multiplicity config = O) then
    let swaps := maximize_unilateral_exit (value <$> leaves) (max_leaves_per_swap config) in
    let num_inputs := sumZ ((λ s, Z.of_nat (length (leaves_to_give s))) <$> swaps) in
    let num_outputs := sumZ ((λ s, Z.of_nat (length (leaves_to_receive s))) <$> swaps) in
    num_outputs <? num_inputs
  else true.

(** [execute_optimization_rounds]: [Ok true] when done, [Ok false] when cancelled. *)
Fixpoint execute_rounds (total round : Z) (swaps : list SwapPlan) : SE W ServiceError bool :=
  match swaps with
  | [] => se_ret true
  | swap :: rest => λ w,
      if opt_cancelled w then (w, Ok false)
      else
        match opt_select_leaves (Some (ExactDenominations (leaves_to_give swap))) Swap
                SelectLeavesOptions_no_wait w with
        | (w, Err _) => execute_rounds total (round + 1) rest w
        | (w, Ok swap_reservation) =>
            let w := opt_set_progress
                       {| is_running := true; current_round := round; total_rounds := total |} w in
            match opt_swap_leaves (res_leaves swap_reservation)
                    (Some (leaves_to_receive swap)) w with
            | (w, Ok new_leaves) =>
                let '(w, _) := opt_finalize (res_id swap_reservation) (Some new_leaves) w in
                let w := opt_emit (RoundCompleted round total) w in
                execute_rounds total (round + 1) rest w
            | (w, Err e) =>
                let '(w, _) := opt_cancel_reservation (res_id swap_reservation) w in
                (w, Err (SE_Generic (swap_failed_text round e)))
            end
        end
  end.

Definition execute_optimization_rounds (swaps : list SwapPlan) : SE W ServiceError bool :=
  execute_rounds (wrap 32 (Z.of_nat (length swaps))) 1 swaps.

(** [run_optimization_with_guard] before the guard is dropped. *)
Definition run_optimization : SE W ServiceError () := λ w,
  let w := opt_set_cancelled false w in
  match opt_list_leaves w with
  | (w, Err e) => (w, Err (SE_TreeServiceError e))
  | (w, Ok all_leaves) =>
      let leaves := available all_leaves in
      if bool_decide (leaves = []) then (opt_emit Skipped w, Ok ())
      else if negb (should_optimize leaves) then (opt_emit Skipped w, Ok ())
      else
        let swaps := default [] (calculate_optimization_swaps (value <$> leaves)
                                   (multiplicity config) (max_leaves_per_swap config)) in
        if bool_decide (swaps = []) then (opt_emit Skipped w, Ok ())
        else
          let total := wrap 32 (Z.of_nat (length swaps)) in
          let w := opt_set_progress
                     {| is_running := is_running (opt_progress w); current_round := 0;
                        total_rounds := total |} w in
          let w := opt_emit (Started total) w in
          match execute_optimization_rounds swaps w with
          | (w, Ok true) => (opt_emit Completed w, Ok ())
          | (w, Ok false) => (opt_emit Cancelled w, Ok ())
          | (w, Err e) =>
              let '(w, _) := opt_refresh_leaves w in
              (opt_emit (Failed (display_ServiceError e)) w, Err e)
          end
  end.

(** The guard's [drop]: the progress is reset however the run ends. *)
Definition run_optimization_with_guard : SE W ServiceError () := λ w,
  let '(w, r) := run_optimization w in
  (opt_set_progress OptimizationProgress_default w, r).

(** [start]: the spawned task's error is only logged. *)
Definition start (w : W) : W :=
  if is_running (opt_progress w) then w
  else
    let w := opt_set_progress {| is_running := true; current_round := 0; total_rounds := 0 |} w in
    (run_optimization_with_guard w).1.

(** ** What the environment guarantees

    [live] are the reservations in the store and [events] what the handler saw. *)
Class OptimizerLaws (live : W → gset LeavesReservationId) (events : W → list OptimizationEvent) := {
  law_list w : live (opt_list_leaves w).1 = live w ∧ events (opt_list_leaves w).1 = events w;
  law_select t p o w :
    events (opt_select_leaves t p o w).1 = events w ∧
    match (opt_select_leaves t p o w).2 with
    | Ok r => res_id r ∉ live w ∧ live (opt_select_leaves t p o w).1 = {[res_id r]} ∪ live w
    | Err _ => live (opt_select_leaves t p o w).1 = live w
    end;
  law_finalize id l w :
    live (opt_finalize id l w).1 = live w ∖ {[id]} ∧ events (opt_finalize id l w).1 = events w;
  law_cancel id w :
    live (opt_cancel_reservation id w).1 = live w ∖ {[id]} ∧
    events (opt_cancel_reservation id w).1 = events w;
  law_refresh w : live (opt_refresh_leaves w).1 = live w ∧ events (opt_refresh_leaves w).1 = events w;
  law_swap l t w : live (opt_swap_leaves l t w).1 = live w ∧ events (opt_swap_leaves l t w).1 = events w;
  law_set_cancelled b w : live (opt_set_cancelled b w) = live w ∧ events (opt_set_cancelled b w) = events w;
  law_set_progress p w :
    live (opt_set_progress p w) = live w ∧ events (opt_set_progress p w) = events w ∧
    opt_progress (opt_set_progress p w) = p;
  law_emit e w : live (opt_emit e w) = live w ∧ events (opt_emit e w) = events w ++ [e]
}.

Context {live : W → gset LeavesReservationId} {events : W → list OptimizationEvent}.
Context {laws : OptimizerLaws live events}.

(** The rounds completed between two bounds, in increasing order. *)
Inductive rounds_events (total : Z) : Z → Z → list OptimizationEvent → Prop :=
| rounds_none a b : rounds_events total a b []
| rounds_more a n b es :
    a ≤ n < b → rounds_events total (n + 1) b es →
    rounds_events total a b (RoundCompleted n total :: es).

Lemma rounds_events_mono total a a' b es :
  a' ≤ a → rounds_events total a b es → rounds_events total a' b es.
Proof. intros Ha. destruct 1; constructor; [lia|done]. Qed.

Lemma execute_rounds_spec total round swaps w :
  let '(w', _) := execute_rounds total round swaps w in
  live w' = live w ∧
  ∃ es, events w' = events w ++ es ∧
    rounds_events total round (round + Z.of_nat (length swaps)) es.
Proof.
  revert round w. induction swaps as [|swap rest IH]; intros round w; cbn [execute_rounds].
  { split; [done|]. exists []. rewrite app_nil_r. split; [done|constructor]. }
  destruct (opt_cancelled w).
  { split; [done|]. exists []. rewrite app_nil_r. split; [done|constructor]. }
  destruct (law_select (Some (ExactDenominations (leaves_to_give swap))) Swap
    SelectLeavesOptions_no_wait w) as [He Hsel].
  destruct (opt_select_leaves _ _ _ w) as [w1 [r|e]]; simpl in He, Hsel.
  2: { specialize (IH (round + 1) w1). destruct (execute_rounds total (round + 1) rest w1) as [w2 ?].
       destruct IH as (Hl & es & Hes & Hr). split; [congruence|]. exists es.
       split; [congruence|]. simpl length. eapply rounds_events_mono; [|].
       - instantiate (1 := round + 1). lia.
       - by replace (round + Z.of_nat (S (length rest)))
           with (round + 1 + Z.of_nat (length rest)) by lia. }
  destruct Hsel as [Hfresh Hlive]. set (p := {| is_running := true |}).
  destruct (law_set_progress p w1) as (Hl2 & He2 & _).
  destruct (law_swap (res_leaves r) (Some (leaves_to_receive swap)) (opt_set_progress p w1))
    as [Hl3 He3].
  destruct (opt_swap_leaves _ _ _) as [w3 [nl|e]]; simpl in Hl3, He3.
  - destruct (law_finalize (res_id r) (Some nl) w3) as [Hl4 He4].
    destruct (opt_finalize _ _ _) as [w4 ?]. simpl in Hl4, He4.
    destruct (law_emit (RoundCompleted round total) w4) as [Hl5 He5].
    specialize (IH (round + 1) (opt_emit (RoundCompleted round total) w4)).
    destruct (execute_rounds total (round + 1) rest _) as [w6 ?].
    destruct IH as (Hl & es & Hes & Hr). split.
    + rewrite Hl, Hl5, Hl4, Hl3, Hl2, Hlive. set_solver.
    + exists (RoundCompleted round total :: es). split.
      * rewrite Hes, He5, He4, He3, He2, He, <- app_assoc. done.
      * constructor; [simpl length; lia|]. simpl length.
        by replace (round + Z.of_nat (S (length rest)))
          with (round + 1 + Z.of_nat (length rest)) by lia.
  - destruct (law_cancel (res_id r) w3) as [Hl4 He4].
    destruct (opt_cancel_reservation _ _) as [w4 ?]. simpl in Hl4, He4. split.
    + rewrite Hl4, Hl3, Hl2, Hlive. set_solver.
    + exists []. rewrite app_nil_r. split; [congruence|constructor].
Qed.

(** The events of one run. *)
Inductive run_events : list OptimizationEvent → Prop :=
| run_nothing : run_events []
| run_skipped : run_events [Skipped]
| run_rounds total n es e :
    rounds_events total 1 (1 + n) es → (e = Completed ∨ e = Cancelled ∨ ∃ s, e = Failed s) →
    run_events (Started total :: es ++ [e]).

Lemma run_optimization_spec w :
  let '(w', r) := run_optimization w in
  live w' = live w ∧ ∃ es, events w' = events w ++ es ∧ run_events es ∧ (es = [] → is_ok r = false).
Proof.
  unfold run_optimization. destruct (law_set_cancelled false w) as [Hl0 He0].
  set (w0 := opt_set_cancelled false w) in *. destruct (law_list w0) as [Hl1 He1].
  destruct (opt_list_leaves w0) as [w1 [all|e]]; simpl in Hl1, He1.
  2: { split; [congruence|]. exists []. rewrite app_nil_r. split_and!; [congruence|constructor|done]. }
  assert (live (opt_emit Skipped w1) = live w ∧
    ∃ es, events (opt_emit Skipped w1) = events w ++ es ∧ run_events es ∧ (es = [] → is_ok (@Ok () ServiceError ()) = false)) as Hskip.
  { destruct (law_emit Skipped w1) as [Hl Hev]. split; [congruence|]. exists [Skipped].
    split_and!; [congruence|constructor|done]. }
  case_bool_decide; [done|]. destruct (negb _); [done|]. case_bool_decide; [done|].
  set (swaps := default [] _). set (total := wrap 32 _). set (p := {| is_running := _ |}).
  destruct (law_set_progress p w1) as (Hl2 & He2 & _).
  destruct (law_emit (Started total) (opt_set_progress p w1)) as [Hl3 He3].
  pose proof (execute_rounds_spec total 1 swaps (opt_emit (Started total) (opt_set_progress p w1)))
    as Hex. unfold execute_optimization_rounds. fold total.
  destruct (execute_rounds total 1 swaps _) as [w4 r]. destruct Hex as (Hl4 & es & He4 & Hr).
  assert (∀ e w5, live w5 = live w4 → events w5 = events w4 →
    (e = Completed ∨ e = Cancelled ∨ ∃ s, e = Failed s) →
    live (opt_emit e w5) = live w ∧ events (opt_emit e w5) = events w ++ (Started total :: es ++ [e]) ∧
    run_events (Started total :: es ++ [e])) as Hend.
  { intros e w5 Hl5 He5 He. destruct (law_emit e w5) as [Hl6 He6]. split_and!; [congruence| |].
    - rewrite He6, He5, He4, He3, He2, He1, He0, <- !app_assoc. done.
    - by eapply run_rounds. }
  destruct r as [[]|e].
  - destruct (Hend Completed w4) as (? & ? & ?); try done; [by left|]. split; [done|].
    eexists. split_and!; [done|done|done].
  - destruct (Hend Cancelled w4) as (? & ? & ?); try done; [by right; left|]. split; [done|].
    eexists. split_and!; [done|done|done].
  - destruct (law_refresh w4) as [Hl5 He5]. destruct (opt_refresh_leaves w4) as [w5 ?].
    simpl in Hl5, He5.
    destruct (Hend (Failed (display_ServiceError e)) w5) as (? & ? & ?); try done;
      [by right; right; eexists|]. split; [done|]. eexists. split_and!; [done|done|done].
Qed.

(** an optimization run leaves no reservation behind, whatever fails or is
    cancelled and wherever; it reports a well-formed sequence of events (nothing,
    a skip, or a start, completed rounds in increasing order and one outcome); and
    the running flag is cleared at the end. *)
Theorem optimization_settles_every_round w :
  let '(w', r) := run_optimization_with_guard w in
  live w' = live w ∧
  (∃ es, events w' = events w ++ es ∧ run_events es ∧ (es = [] → is_ok r = false)) ∧
  is_running (opt_progress w') = false.
Proof.
  unfold run_optimization_with_guard. pose proof (run_optimization_spec w) as Hrun.
  destruct (run_optimization w) as [w' r]. destruct Hrun as (Hl & es & He & Hes & Hnil).
  destruct (law_set_progress OptimizationProgress_default w') as (Hl' & He' & Hp).
  split_and!; [congruence| |by rewrite Hp]. exists es. split_and!; [congruence|done|done].
Qed.

End optimizer.

(** ** Witness *)

#[local] Existing Instance simple_externals.
#[local] Existing Instance canonical_order.

(** A world that names reservations by how many it made, and fails every swap of
    more than [we_max] leaves. *)
Record ExWorld : Type := {
  we_live : gset string;
  we_events : list OptimizationEvent;
  we_progress : OptimizationProgress;
  we_cancel : bool;
  we_wallet : list TreeNode;
  we_max : nat
}.

Definition we_set_live (l : gset string) (w : ExWorld) : ExWorld :=
  {| we_live := l; we_events := we_events w; we_progress := we_progress w;
     we_cancel := we_cancel w; we_wallet := we_wallet w; we_max := we_max w |}.
Definition we_add_event (e : OptimizationEvent) (w : ExWorld) : ExWorld :=
  {| we_live := we_live w; we_events := we_events w ++ [e]; we_progress := we_progress w;
     we_cancel := we_cancel w; we_wallet := we_wallet w; we_max := we_max w |}.

#[local] Instance ex_optimizer : OptimizerEnv ExWorld := {|
  opt_list_leaves w :=
    (w, Ok {| available := we_wallet w; not_available := []; available_missing_from_operators := [];
              reserved_for_payment := []; reserved_for_swap := [] |});
  opt_select_leaves t _ _ w :=
    let r := {| res_id := fresh (we_live w); res_leaves := we_wallet w |} in
    (we_set_live ({[res_id r]} ∪ we_live w) w, Ok r);
  opt_finalize id _ w := (we_set_live (we_live w ∖ {[id]}) w, Ok ());
  opt_cancel_reservation id w := (we_set_live (we_live w ∖ {[id]}) w, Ok ());
  opt_refresh_leaves w := (w, Ok ());
  opt_swap_leaves l _ w :=
    (w, if (length l <=? we_max w)%nat then Ok l else Err (SSPswapError "too many leaves"));
  opt_cancelled := we_cancel;
  opt_set_cancelled b w :=
    {| we_live := we_live w; we_events := we_events w; we_progress := we_progress w;
       we_cancel := b; we_wallet := we_wallet w; we_max := we_max w |};
  opt_progress := we_progress;
  opt_set_progress p w :=
    {| we_live := we_live w; we_events := we_events w; we_progress := p;
       we_cancel := we_cancel w; we_wallet := we_wallet w; we_max := we_max w |};
  opt_emit := we_add_event;
  display_ServiceError _ := "error";
  swap_failed_text _ _ := "failed"
|}.

#[local] Instance ex_optimizer_laws : OptimizerLaws (W := ExWorld) we_live we_events.
Proof.
  split; try done. intros t p o w. simpl. split; [done|]. split; [apply is_fresh|done].
Defined.

Definition ex_optimizer_world : ExWorld :=
  {| we_live := {["payment"]}; we_events := []; we_progress := OptimizationProgress_default;
     we_cancel := false;
     we_wallet := [example_leaf "a" 100 Available; example_leaf "b" 7 Available]; we_max := 1 |}.

Lemma optimization_settles_every_round_witness :
  let '(w', r) := run_optimization_with_guard LeafOptimizationOptions_default ex_optimizer_world in
  we_live w' = {["payment"]} ∧
  (∃ es, we_events w' = [] ++ es ∧ run_events es ∧ (es = [] → is_ok r = false)) ∧
  is_running (opt_progress w') = false.
Proof.
  apply (optimization_settles_every_round (live := we_live) (events := we_events)
           LeafOptimizationOptions_default ex_optimizer_world).
Defined.
