(* ===== verification/Timelocks.v ===== *)
(** Relative timelocks of the tree's transactions:
    [crates/spark/src/core/constants.rs].  A [Sequence] is its consensus [u32]. *)
From S2P Require Import Prelude.

Definition SPARK_SEQUENCE_FLAG : Z := Z.shiftl 1 30.
Definition TIMELOCK_MASK : Z := 65535.
Definition INITIAL_TIME_LOCK : Z := 2000.
Definition TIME_LOCK_INTERVAL : Z := 100.
Definition DIRECT_TIME_LOCK_OFFSET : Z := 50.
Definition DIRECT_HTLC_TIME_LOCK_OFFSET : Z := 85.
Definition HTLC_TIME_LOCK_OFFSET : Z := 70.

(** [as u16]. *)
Definition to_u16 (x : Z) : Z := wrap 16 x.

Section timelocks.

(** [LockTime::Blocks(Height::from_height(b)).to_consensus_u32()] of rust-bitcoin. *)
Context (blocks_to_consensus : Z → Z).

Definition spark_sequence_flag (current_sequence : Z) : Z :=
  Z.land current_sequence SPARK_SEQUENCE_FLAG.

Definition to_sequence (blocks flag : Z) : Z := Z.lor (blocks_to_consensus blocks) flag.

Definition initial_timelock_sequence : Z * Z :=
  (to_sequence INITIAL_TIME_LOCK SPARK_SEQUENCE_FLAG,
   to_sequence (wadd 16 INITIAL_TIME_LOCK DIRECT_TIME_LOCK_OFFSET) SPARK_SEQUENCE_FLAG).

Definition initial_root_timelock_sequence : Z * Z :=
  (to_sequence 0 SPARK_SEQUENCE_FLAG, to_sequence DIRECT_TIME_LOCK_OFFSET SPARK_SEQUENCE_FLAG).

Definition initial_zero_timelock_sequence : Z * Z :=
  (to_sequence 0 SPARK_SEQUENCE_FLAG, to_sequence DIRECT_TIME_LOCK_OFFSET 0).

Definition current_sequence (sequence : Z) : Z * Z :=
  let timelock := to_u16 sequence in
  (sequence, to_sequence (wadd 16 timelock DIRECT_TIME_LOCK_OFFSET) (spark_sequence_flag sequence)).

Definition enforce_timelock (sequence : Z) : Z :=
  let timelock := to_u16 (Z.land sequence TIMELOCK_MASK) in
  let remainder := timelock mod TIME_LOCK_INTERVAL in
  let enforced_timelock :=
    if negb (remainder =? 0) then wsub 16 timelock remainder else timelock in
  to_sequence enforced_timelock (spark_sequence_flag sequence).

Definition check_next_timelock (current_sequence : Z) : option Z :=
  checked_sub (to_u16 (Z.land current_sequence TIMELOCK_MASK)) TIME_LOCK_INTERVAL.

Definition next_sequence (current_sequence : Z) : option (Z * Z) :=
  match check_next_timelock current_sequence with
  | None => None
  | Some next_timelock =>
      let flag := spark_sequence_flag current_sequence in
      Some (to_sequence next_timelock flag,
            to_sequence (wadd 16 next_timelock DIRECT_TIME_LOCK_OFFSET) flag)
  end.

Definition next_lightning_htlc_sequence (current_sequence : Z) : option (Z * Z) :=
  match check_next_timelock current_sequence with
  | None => None
  | Some next_timelock =>
      let flag := spark_sequence_flag current_sequence in
      Some (to_sequence (wadd 16 next_timelock HTLC_TIME_LOCK_OFFSET) flag,
            to_sequence (wadd 16 next_timelock DIRECT_HTLC_TIME_LOCK_OFFSET) flag)
  end.

(** ** Timelock and flag of a sequence

    A height-based relative lock is encoded as its number of blocks (BIP 68). *)
Context (blocks_encoding : ∀ b, in_u 16 b → blocks_to_consensus b = b).

Definition timelock (sequence : Z) : Z := sequence mod 2 ^ 16.
Definition has_flag (sequence : Z) : bool := Z.testbit sequence 30.

Lemma land_mask x : Z.land x TIMELOCK_MASK = timelock x.
Proof. unfold timelock. change TIMELOCK_MASK with (Z.ones 16). by apply Z.land_ones. Qed.

Lemma timelock_in_u s : in_u 16 (timelock s).
Proof. unfold timelock, in_u. apply Z.mod_pos_bound. lia. Qed.

Lemma to_u16_mask s : to_u16 (Z.land s TIMELOCK_MASK) = timelock s.
Proof. rewrite land_mask. apply wrap_small, timelock_in_u. Qed.

Lemma flag_value s : spark_sequence_flag s = if has_flag s then 2 ^ 30 else 0.
Proof.
  unfold spark_sequence_flag, has_flag, SPARK_SEQUENCE_FLAG. apply Z.bits_inj'. intros n Hn.
  rewrite Z.land_spec, Z.shiftl_1_l. destruct (decide (n = 30)) as [->|Hne].
  - rewrite Z.pow2_bits_true by lia. rewrite andb_true_r. destruct (Z.testbit s 30) eqn:E; [|done].
    by rewrite Z.pow2_bits_true.
  - rewrite Z.pow2_bits_false by lia. rewrite andb_false_r. case_match; [|by rewrite Z.bits_0].
    by rewrite Z.pow2_bits_false.
Qed.

Lemma small_no_high_bit b n : in_u 16 b → 16 ≤ n → Z.testbit b n = false.
Proof.
  intros [H0 Hb] Hn. destruct (decide (b = 0)) as [->|]; [apply Z.bits_0|].
  apply Z.bits_above_log2; [done|]. assert (Z.log2 b < 16); [|lia]. by apply Z.log2_lt_pow2; lia.
Qed.

(** Encoding a small timelock with a flag keeps both apart. *)
Lemma to_sequence_spec b s :
  in_u 16 b →
  let q := to_sequence b (spark_sequence_flag s) in
  timelock q = b ∧ has_flag q = has_flag s ∧ in_u 32 q.
Proof.
  intros Hb. unfold to_sequence. rewrite blocks_encoding, flag_value by done. cbv zeta. split_and!.
  - unfold timelock. rewrite <- Z.land_ones, Z.land_lor_distr_l by done.
    rewrite Z.land_ones, Z.mod_small by done. destruct (has_flag s).
    + change (Z.land (2 ^ 30) (Z.ones 16)) with 0. by rewrite Z.lor_0_r.
    + by rewrite Z.lor_0_r.
  - unfold has_flag at 1. rewrite Z.lor_spec, small_no_high_bit by (done || lia).
    by destruct (has_flag s).
  - assert (Z.land b (if has_flag s then 2 ^ 30 else 0) = 0) as Hland.
    { destruct (has_flag s); [|by rewrite Z.land_0_r]. apply Z.bits_inj'. intros n Hn.
      rewrite Z.land_spec, Z.bits_0. destruct (decide (n = 30)) as [->|].
      - by rewrite small_no_high_bit.
      - by rewrite Z.pow2_bits_false, andb_false_r. }
    rewrite <- Z.lxor_lor, <- Z.add_nocarry_lxor by done. unfold in_u in *.
    destruct (has_flag s); lia.
Qed.

(** The next pair of sequences exists exactly when at least one interval is
    left; the CPFP timelock is then one interval lower, the direct one 50 blocks
    above it (and the HTLC ones 70 and 85 above), with the flag unchanged. *)
Lemma next_sequence_decrements s :
  match next_sequence s, next_lightning_htlc_sequence s with
  | None, None => timelock s < TIME_LOCK_INTERVAL
  | Some (cpfp, direct), Some (htlc, direct_htlc) =>
      TIME_LOCK_INTERVAL ≤ timelock s ∧
      timelock cpfp = timelock s - TIME_LOCK_INTERVAL ∧
      timelock direct = timelock cpfp + DIRECT_TIME_LOCK_OFFSET ∧
      timelock htlc = timelock cpfp + HTLC_TIME_LOCK_OFFSET ∧
      timelock direct_htlc = timelock cpfp + DIRECT_HTLC_TIME_LOCK_OFFSET ∧
      Forall (λ q, has_flag q = has_flag s ∧ in_u 32 q) [cpfp; direct; htlc; direct_htlc]
  | _, _ => False
  end.
Proof.
  unfold next_sequence, next_lightning_htlc_sequence, check_next_timelock, checked_sub.
  rewrite to_u16_mask. unfold TIME_LOCK_INTERVAL, DIRECT_TIME_LOCK_OFFSET, HTLC_TIME_LOCK_OFFSET,
    DIRECT_HTLC_TIME_LOCK_OFFSET. pose proof (timelock_in_u s) as Ht.
  destruct (Z.leb_spec 100 (timelock s)); [|done].
  assert (∀ off, 0 ≤ off ≤ 100 → wadd 16 (timelock s - 100) off = timelock s - 100 + off ∧
    in_u 16 (timelock s - 100 + off)) as Hoff.
  { intros off Ho. unfold in_u in *. split; [apply wrap_small; unfold in_u|]; lia. }
  destruct (to_sequence_spec (timelock s - 100) s) as (H1 & Hf1 & Hu1); [unfold in_u in *; lia|].
  destruct (Hoff 50) as [-> H50]; [lia|]. destruct (Hoff 70) as [-> H70]; [lia|].
  destruct (Hoff 85) as [-> H85]; [lia|].
  destruct (to_sequence_spec _ s H50) as (H2 & Hf2 & Hu2).
  destruct (to_sequence_spec _ s H70) as (H3 & Hf3 & Hu3).
  destruct (to_sequence_spec _ s H85) as (H4 & Hf4 & Hu4).
  rewrite H1, H2, H3, H4. split_and!; try done.
  repeat (apply Forall_cons; split; [done|]). constructor.
Qed.

(** Every sequence derived from [s] unlocks strictly before it, the one for the user
    first. *)
Lemma next_sequence_lower s cpfp direct :
  next_sequence s = Some (cpfp, direct) ∨ next_lightning_htlc_sequence s = Some (cpfp, direct) →
  timelock cpfp < timelock direct < timelock s ∧
  has_flag cpfp = has_flag s ∧ has_flag direct = has_flag s.
Proof.
  pose proof (next_sequence_decrements s) as H. unfold TIME_LOCK_INTERVAL, DIRECT_TIME_LOCK_OFFSET,
    HTLC_TIME_LOCK_OFFSET, DIRECT_HTLC_TIME_LOCK_OFFSET in H.
  destruct (next_sequence s) as [[c d]|], (next_lightning_htlc_sequence s) as [[hc hd]|];
    try done; [|by intros [?|?]].
  destruct H as (Hs & Hc & Hd & Hhc & Hhd & Hall). rewrite !Forall_cons in Hall.
  destruct Hall as ([Hf1 _] & [Hf2 _] & [Hf3 _] & [Hf4 _] & _).
  intros [[= <- <-]|[= <- <-]]; (split; [lia|done]).
Qed.

Lemma next_sequence_is_Some s : TIME_LOCK_INTERVAL ≤ timelock s → is_Some (next_sequence s).
Proof.
  intros H. pose proof (next_sequence_decrements s) as Hn. unfold next_sequence in *.
  destruct (check_next_timelock s) eqn:E; [by eexists|]. exfalso.
  destruct (next_lightning_htlc_sequence s); lia || done.
Qed.

Lemma enforce_timelock_spec s :
  timelock (enforce_timelock s) = timelock s - timelock s mod TIME_LOCK_INTERVAL ∧
  has_flag (enforce_timelock s) = has_flag s ∧ in_u 32 (enforce_timelock s).
Proof.
  unfold enforce_timelock. rewrite to_u16_mask. pose proof (timelock_in_u s) as Ht.
  unfold TIME_LOCK_INTERVAL. pose proof (Z.mod_pos_bound (timelock s) 100 ltac:(lia)).
  pose proof (Z.mod_le (timelock s) 100). unfold in_u in Ht.
  destruct (Z.eqb_spec (timelock s mod 100) 0) as [Hz|Hne]; cbn [negb].
  - rewrite Hz, Z.sub_0_r. apply to_sequence_spec. done.
  - assert (wsub 16 (timelock s) (timelock s mod 100) = timelock s - timelock s mod 100) as ->.
    { apply wrap_small. unfold in_u. lia. }
    apply to_sequence_spec. unfold in_u. lia.
Qed.

(** The sequences from [s] on: how often a leaf can be transferred. *)
Fixpoint sequences (fuel : nat) (s : Z) : list Z :=
  match fuel with
  | O => []
  | S fuel => match next_sequence s with
              | Some (cpfp, _) => cpfp :: sequences fuel cpfp
              | None => []
              end
  end.

Lemma sequences_length fuel s :
  timelock s / TIME_LOCK_INTERVAL ≤ Z.of_nat fuel →
  Z.of_nat (length (sequences fuel s)) = timelock s / TIME_LOCK_INTERVAL.
Proof.
  revert s. unfold TIME_LOCK_INTERVAL.
  induction fuel as [|fuel IH]; intros s Hf; cbn [sequences].
  { pose proof (timelock_in_u s) as [? _]. simpl. assert (0 ≤ timelock s / 100) by by apply Z.div_pos.
    simpl in Hf. lia. }
  unfold next_sequence, check_next_timelock, checked_sub. rewrite to_u16_mask. unfold TIME_LOCK_INTERVAL.
  pose proof (timelock_in_u s) as Ht. unfold in_u in Ht.
  destruct (Z.leb_spec 100 (timelock s)) as [Hge|Hlt].
  - destruct (to_sequence_spec (timelock s - 100) s) as (H1 & _ & Hu); [unfold in_u; lia|].
    assert ((timelock s - 100) / 100 = timelock s / 100 - 1) as Hdiv.
    { replace (timelock s - 100) with (timelock s + (-1) * 100) by lia. by rewrite Z.div_add. }
    simpl length. rewrite Nat2Z.inj_succ, IH; rewrite H1; lia.
  - simpl. rewrite Z.div_small; lia.
Qed.

(** rounding a timelock down to the interval is idempotent, and a rounded leaf
    can be transferred exactly [timelock / 100] times before it must be renewed,
    as often as before rounding. *)
Theorem enforce_timelock_aligned s :
  in_u 32 s →
  enforce_timelock (enforce_timelock s) = enforce_timelock s ∧
  timelock (enforce_timelock s) mod TIME_LOCK_INTERVAL = 0 ∧
  timelock s - TIME_LOCK_INTERVAL < timelock (enforce_timelock s) ≤ timelock s ∧
  ∀ fuel, (656 ≤ fuel)%nat →
    Z.of_nat (length (sequences fuel (enforce_timelock s))) = timelock s / TIME_LOCK_INTERVAL ∧
    Z.of_nat (length (sequences fuel s)) = timelock s / TIME_LOCK_INTERVAL.
Proof.
  intros Hs. destruct (enforce_timelock_spec s) as (Ht & Hflag & Hu).
  pose proof (timelock_in_u s) as Hts. unfold in_u in Hts. unfold TIME_LOCK_INTERVAL in *.
  pose proof (Z.mod_pos_bound (timelock s) 100 ltac:(lia)).
  assert (timelock (enforce_timelock s) = 100 * (timelock s / 100)) as Ht'.
  { rewrite Ht, Z.mod_eq by lia. lia. }
  assert (timelock (enforce_timelock s) mod 100 = 0) as Hmod.
  { rewrite Ht', Z.mul_comm. by apply Z.mod_mul. }
  split_and!; [|done|lia|lia|].
  - unfold enforce_timelock at 1. rewrite to_u16_mask. unfold TIME_LOCK_INTERVAL. rewrite Hmod.
    cbn [Z.eqb negb]. rewrite flag_value, Hflag, Ht.
    unfold enforce_timelock. rewrite to_u16_mask, flag_value. unfold TIME_LOCK_INTERVAL.
    destruct (Z.eqb_spec (timelock s mod 100) 0) as [Hz|Hne]; cbn [negb].
    + by rewrite Hz, Z.sub_0_r.
    + assert (wsub 16 (timelock s) (timelock s mod 100) = timelock s - timelock s mod 100) as ->;
        [|done]. pose proof (Z.mod_le (timelock s) 100). apply wrap_small. unfold in_u. lia.
  - intros fuel Hf. assert (timelock s / 100 ≤ 655).
    { apply Z.lt_succ_r, Z.div_lt_upper_bound; lia. }
    rewrite !sequences_length; unfold TIME_LOCK_INTERVAL;
      [|lia|rewrite Ht', Z.mul_comm, Z.div_mul; lia].
    split; [|done]. by rewrite Ht', Z.mul_comm, Z.div_mul.
Qed.

End timelocks.

(** ** Witnesses *)

Lemma enforce_timelock_aligned_witness :
  enforce_timelock (λ b, b) (enforce_timelock (λ b, b) 1899) = enforce_timelock (λ b, b) 1899 ∧
  timelock (enforce_timelock (λ b, b) 1899) mod TIME_LOCK_INTERVAL = 0 ∧
  timelock 1899 - TIME_LOCK_INTERVAL < timelock (enforce_timelock (λ b, b) 1899) ≤ timelock 1899 ∧
  ∀ fuel, (656 ≤ fuel)%nat →
    Z.of_nat (length (sequences (λ b, b) fuel (enforce_timelock (λ b, b) 1899)))
      = timelock 1899 / TIME_LOCK_INTERVAL ∧
    Z.of_nat (length (sequences (λ b, b) fuel 1899)) = timelock 1899 / TIME_LOCK_INTERVAL.
Proof. apply (enforce_timelock_aligned (λ b, b)); [done|compute_done]. Defined.
