(* ===== verification/Paging.v ===== *)
(** Paged queries: [crates/spark/src/utils/paging.rs]. *)
From S2P Require Import Prelude.

Definition DEFAULT_PAGING_LIMIT : Z := 100.
Definition DEFAULT_PAGING_OFFSET : Z := 0.

Inductive Order : Type := Ascending | Descending.

Record PagingFilter : Type := {
  offset : Z;
  limit : Z;
  order : Order
}.

Definition PagingFilter_new (o l : option Z) (ord : option Order) : PagingFilter :=
  {| offset := default DEFAULT_PAGING_OFFSET o; limit := default DEFAULT_PAGING_LIMIT l;
     order := default Descending ord |}.

Definition PagingFilter_next (f : PagingFilter) : PagingFilter :=
  {| offset := wadd 64 (offset f) (limit f); limit := limit f; order := order f |}.

(** [offset] is an [i64]. *)
Definition next_from_offset (f : PagingFilter) (offset : Z) : option PagingFilter :=
  if offset <=? 0 then None else Some (PagingFilter_next f).

Definition PagingFilter_default : PagingFilter :=
  {| offset := DEFAULT_PAGING_OFFSET; limit := DEFAULT_PAGING_LIMIT; order := Descending |}.

Section paging.
Context {T E St : Type}.

Record PagingResult : Type := { items : list T; next : option PagingFilter }.

Definition complete (l : list T) : PagingResult := {| items := l; next := None |}.
Definition PagingResult_len (r : PagingResult) : nat := length (items r).
Definition PagingResult_is_empty (r : PagingResult) : bool := bool_decide (length (items r) = O).

(** The loop of [pager]; [None] when the fuel runs out. *)
Fixpoint pager_loop (fuel : nat) (query_fn : PagingFilter → SE St E PagingResult)
    (paging_filter : PagingFilter) (res : list T) (s : St)
    : St * option (result PagingResult E) :=
  match fuel with
  | O => (s, None)
  | S fuel =>
      match query_fn paging_filter s with
      | (s, Err e) => (s, Some (Err e))
      | (s, Ok resp) =>
          if PagingResult_is_empty resp then (s, Some (Ok (complete res)))
          else
            let res := res ++ items resp in
            match next resp with
            | None => (s, Some (Ok (complete res)))
            | Some next =>
                if offset next <=? offset paging_filter then (s, Some (Ok (complete res)))
                else pager_loop fuel query_fn next res s
            end
      end
  end.

(** Offsets are [u64] and increase: 2^64 iterations are always enough. *)
Definition pager_fuel (f : PagingFilter) : nat := Z.to_nat (2 ^ 64 - offset f).

Definition pager (fuel : nat) (query_fn : PagingFilter → SE St E PagingResult)
    (paging_filter : PagingFilter) (s : St) : St * option (result PagingResult E) :=
  pager_loop fuel query_fn paging_filter [] s.

(** ** Termination *)

(** Every filter a server hands back has a [u64] offset. *)
Definition offsets_u64 (query_fn : PagingFilter → SE St E PagingResult) : Prop :=
  ∀ f s s' r n, query_fn f s = (s', Ok r) → next r = Some n → in_u 64 (offset n).

(** paging terminates whatever the server answers, even one that never stops
    handing out next pages: the offsets must increase. *)
Theorem pager_terminates query_fn f s :
  offsets_u64 query_fn → in_u 64 (offset f) →
  ∃ r, (pager (pager_fuel f) query_fn f s).2 = Some r.
Proof.
  intros Hq Hf. unfold pager.
  assert (∀ fuel f res s, in_u 64 (offset f) → 2 ^ 64 - offset f ≤ Z.of_nat fuel →
    ∃ r, (pager_loop fuel query_fn f res s).2 = Some r) as Hloop.
  { clear f s Hf. induction fuel as [|fuel IH]; intros f res s Hf Hfuel; [unfold in_u in Hf; lia|].
    cbn [pager_loop]. destruct (query_fn f s) as [s' [resp|e]] eqn:Hr; [|by eexists].
    case_match; [by eexists|]. destruct (next resp) as [n|] eqn:Hn; [|by eexists].
    destruct (Z.leb_spec (offset n) (offset f)); [by eexists|].
    apply IH; [by eapply Hq|]. lia. }
  apply Hloop; [done|]. unfold pager_fuel. unfold in_u in Hf. lia.
Qed.

(** ** A server with a list

    What the operators' queries do: the items from the offset on, at most
    [limit] of them, and the offset of the rest when there is one. *)
Definition slice_server (xs : list T) (f : PagingFilter) : SE St E PagingResult :=
  let page := take (Z.to_nat (limit f)) (drop (Z.to_nat (offset f)) xs) in
  let rest := offset f + limit f in
  se_ret {| items := page;
            next := next_from_offset f (if rest <? Z.of_nat (length xs) then rest else 0) |}.

Lemma pager_loop_slices xs fuel f res s :
  Z.of_nat (length xs) + limit f < 2 ^ 63 → 0 < limit f → 0 ≤ offset f →
  Z.of_nat (length xs) < offset f + limit f * Z.of_nat fuel → (0 < fuel)%nat →
  pager_loop fuel (slice_server xs) f res s
  = (s, Some (Ok (complete (res ++ drop (Z.to_nat (offset f)) xs)))).
Proof.
  revert f res. induction fuel as [|fuel IH]; intros f res Hlen Hlim Hoff Hfuel Hpos; [lia|].
  cbn [pager_loop]. unfold slice_server at 1, se_ret, PagingResult_is_empty. simpl items.
  case_bool_decide as Hempty.
  { rewrite length_take, length_drop in Hempty. rewrite drop_ge, app_nil_r by lia. done. }
  rewrite length_take, length_drop in Hempty. simpl next. unfold next_from_offset.
  destruct (Z.ltb_spec (offset f + limit f) (Z.of_nat (length xs))) as [Hmore|Hlast].
  - destruct (Z.leb_spec (offset f + limit f) 0); [lia|].
    assert (wadd 64 (offset f) (limit f) = offset f + limit f) as Hadd.
    { apply wrap_small. unfold in_u. lia. }
    unfold PagingFilter_next at 1. simpl offset. rewrite Hadd.
    destruct (Z.leb_spec (offset f + limit f) (offset f)); [lia|].
    rewrite IH; simpl; rewrite ?Hadd; try lia.
    rewrite <- app_assoc. do 4 f_equal.
    rewrite Z2Nat.inj_add, <- drop_drop by lia. by rewrite take_drop.
  - simpl. do 4 f_equal. rewrite take_ge; [done|]. rewrite length_drop. lia.
Qed.

(** paging through a server that holds a list returns the whole list, in order,
    without gaps or repetitions, whatever the page size. *)
Theorem pager_complete xs f s :
  Z.of_nat (length xs) + limit f < 2 ^ 63 → 0 < limit f → offset f = 0 →
  pager (S (length xs)) (slice_server xs) f s = (s, Some (Ok (complete xs))).
Proof.
  intros Hlen Hlim Hoff. unfold pager. rewrite pager_loop_slices; try lia.
  - by rewrite Hoff.
  - rewrite Hoff. nia.
Qed.

End paging.

(** ** Witnesses *)

(** A server that always offers a further page. *)
Definition endless_server (f : PagingFilter) : SE nat string (@PagingResult Z) :=
  λ n, (S n, Ok {| items := [1];
                   next := if bool_decide (in_u 64 (offset f + 2 ^ 63))
                           then Some {| offset := offset f + 2 ^ 63; limit := 1; order := Ascending |}
                           else None |}).

Lemma pager_terminates_witness :
  ∃ r, (pager (pager_fuel PagingFilter_default) endless_server PagingFilter_default O).2 = Some r.
Proof.
  apply (pager_terminates endless_server PagingFilter_default O).
  - intros f s s' r n [= <- <-]. simpl. case_bool_decide; [|done]. by intros [= <-].
  - compute_done.
Defined.

Lemma pager_complete_witness :
  pager (E := string) 8 (slice_server [1; 2; 3; 4; 5; 6; 7])
    {| offset := 0; limit := 3; order := Ascending |} tt
  = (tt, Some (Ok (complete [1; 2; 3; 4; 5; 6; 7]))).
Proof.
  apply (pager_complete (E := string) [1; 2; 3; 4; 5; 6; 7]
           {| offset := 0; limit := 3; order := Ascending |} tt); simpl; lia.
Defined.
