(* ===== verification/Bytes.v ===== *)
(** Byte encodings: [crates/spark/src/utils/byte_padding.rs] and
    [utils/tagged_hasher.rs].  A byte is a [Z] in [0, 256). *)
From Stdlib Require Import Ascii.
From S2P Require Import Prelude.

Abbreviation byte_ok := (in_u 8).

(** ** Big- and little-endian integers *)

(** [uN::to_le_bytes] for [n] bytes, and its inverse. *)
Fixpoint to_le_bytes (n : nat) (x : Z) : list Z :=
  match n with
  | O => []
  | S n => x mod 256 :: to_le_bytes n (x / 256)
  end.

Fixpoint from_le_bytes (l : list Z) : Z :=
  match l with
  | [] => 0
  | b :: l => b + 256 * from_le_bytes l
  end.

Definition to_be_bytes (n : nat) (x : Z) : list Z := reverse (to_le_bytes n x).
Definition from_be_bytes (l : list Z) : Z := from_le_bytes (reverse l).

Lemma to_le_bytes_length n x : length (to_le_bytes n x) = n.
Proof. revert x. induction n as [|n IH]; intros x; simpl; [done|]. by rewrite IH. Qed.

Lemma to_le_bytes_ok n x : Forall byte_ok (to_le_bytes n x).
Proof.
  revert x. induction n as [|n IH]; intros x; simpl; constructor; [|done].
  apply Z.mod_pos_bound. lia.
Qed.

Lemma from_to_le_bytes n x : 0 ≤ x < 256 ^ Z.of_nat n → from_le_bytes (to_le_bytes n x) = x.
Proof.
  revert x. induction n as [|n IH]; intros x Hx; cbn [to_le_bytes from_le_bytes]; [simpl in Hx; lia|].
  rewrite Nat2Z.inj_succ, Z.pow_succ_r in Hx by lia. rewrite IH.
  - pose proof (Z.div_mod x 256). lia.
  - split; [by apply Z.div_pos; lia|]. apply Z.div_lt_upper_bound; lia.
Qed.

Lemma from_le_bytes_bound l : Forall byte_ok l → 0 ≤ from_le_bytes l < 256 ^ Z.of_nat (length l).
Proof.
  induction 1 as [|b l Hb Hl IH]; [simpl; lia|]. cbn [from_le_bytes length].
  rewrite Nat2Z.inj_succ, Z.pow_succ_r by lia. unfold in_u in Hb. lia.
Qed.

Lemma to_from_le_bytes l : Forall byte_ok l → to_le_bytes (length l) (from_le_bytes l) = l.
Proof.
  induction 1 as [|b l Hb Hl IH]; [done|]. cbn [length to_le_bytes from_le_bytes].
  unfold in_u in Hb. f_equal.
  - rewrite Z.mul_comm, Z.mod_add by lia. apply Z.mod_small. lia.
  - rewrite Z.mul_comm, Z.div_add, Z.div_small, Z.add_0_l by lia. done.
Qed.

Lemma from_le_bytes_zeros l n : from_le_bytes (l ++ replicate n 0) = from_le_bytes l.
Proof.
  induction l as [|b l IH]; simpl in *; [induction n; simpl in *; lia|]. by rewrite IH.
Qed.

(** [str::as_bytes]. *)
Definition as_bytes (s : string) : list Z :=
  (λ c, Z.of_N (Ascii.N_of_ascii c)) <$> String.list_ascii_of_string s.

Lemma as_bytes_inj s1 s2 : as_bytes s1 = as_bytes s2 → s1 = s2.
Proof.
  unfold as_bytes. intros H. apply list_fmap_eq_inj in H.
  - by rewrite <- (String.string_of_list_ascii_of_string s1), H,
      String.string_of_list_ascii_of_string.
  - intros a b Hab. rewrite <- (Ascii.ascii_N_embedding a), <- (Ascii.ascii_N_embedding b).
    f_equal. lia.
Qed.

Lemma to_be_bytes_length n x : length (to_be_bytes n x) = n.
Proof. unfold to_be_bytes. by rewrite length_reverse, to_le_bytes_length. Qed.

(** ** [BytePadding] for [u128] *)

(** [bytes[first_non_zero..]]. *)
Fixpoint skip_zeros (l : list Z) : list Z :=
  match l with
  | [] => []
  | b :: l' => if b =? 0 then skip_zeros l' else l
  end.

Definition to_unpadded_be_bytes (x : Z) : list Z :=
  if x =? 0 then [0] else skip_zeros (to_be_bytes 16 x).

(** [bytes[..last_non_zero + 1]]. *)
Definition to_unpadded_le_bytes (x : Z) : list Z :=
  if x =? 0 then [0] else reverse (skip_zeros (reverse (to_le_bytes 16 x))).

Definition from_unpadded_be_bytes (bytes : list Z) : result Z string :=
  if (16 <? length bytes)%nat then Err "Input bytes exceed u128 size"
  else Ok (from_be_bytes (replicate (16 - length bytes) 0 ++ bytes)).

Definition from_unpadded_le_bytes (bytes : list Z) : result Z string :=
  if (16 <? length bytes)%nat then Err "Input bytes exceed u128 size"
  else Ok (from_le_bytes (bytes ++ replicate (16 - length bytes) 0)).

Lemma skip_zeros_split l : ∃ n, l = replicate n 0 ++ skip_zeros l.
Proof.
  induction l as [|b l [n IH]]; [by exists O|]. simpl. destruct (Z.eqb_spec b 0) as [->|].
  - exists (S n). simpl. by rewrite <- IH.
  - by exists O.
Qed.

Lemma skip_zeros_head l b : head (skip_zeros l) = Some b → b ≠ 0.
Proof.
  induction l as [|c l IH]; simpl; [done|]. destruct (Z.eqb_spec c 0); [done|].
  simpl. by intros [= <-].
Qed.

Lemma from_be_bytes_pad n l : from_be_bytes (replicate n 0 ++ l) = from_be_bytes l.
Proof.
  unfold from_be_bytes. by rewrite reverse_app, reverse_replicate, from_le_bytes_zeros.
Qed.

Lemma from_to_be_bytes n x : 0 ≤ x < 256 ^ Z.of_nat n → from_be_bytes (to_be_bytes n x) = x.
Proof. intros. unfold from_be_bytes, to_be_bytes. rewrite reverse_involutive. by apply from_to_le_bytes. Qed.

(** the unpadded encodings of a [u128] are decoded back to it, take 1 to 16
    bytes and have no superfluous zero byte (so each value has one encoding);
    longer inputs are rejected. *)
Theorem byte_padding_roundtrip x :
  in_u 128 x →
  from_unpadded_be_bytes (to_unpadded_be_bytes x) = Ok x ∧
  from_unpadded_le_bytes (to_unpadded_le_bytes x) = Ok x ∧
  to_unpadded_le_bytes x = reverse (to_unpadded_be_bytes x) ∧
  (1 ≤ length (to_unpadded_be_bytes x) ≤ 16)%nat ∧
  (x ≠ 0 → head (to_unpadded_be_bytes x) ≠ Some 0).
Proof.
  intros Hx. assert (0 ≤ x < 256 ^ Z.of_nat 16) as Hx' by exact Hx.
  assert (to_unpadded_le_bytes x = reverse (to_unpadded_be_bytes x)) as Hrev.
  { unfold to_unpadded_le_bytes, to_unpadded_be_bytes. by case_match. }
  assert ((length (to_unpadded_be_bytes x) ≤ 16)%nat ∧ (1 ≤ length (to_unpadded_be_bytes x))%nat ∧
    from_be_bytes (to_unpadded_be_bytes x) = x ∧
    (x ≠ 0 → head (to_unpadded_be_bytes x) ≠ Some 0)) as (Hle & Hge & Hfrom & Hhead).
  { unfold to_unpadded_be_bytes. destruct (Z.eqb_spec x 0) as [->|Hne]; [simpl; split_and!; try done; lia|].
    destruct (skip_zeros_split (to_be_bytes 16 x)) as [n Hn].
    pose proof (from_to_be_bytes 16 x Hx') as Hft.
    assert (length (to_be_bytes 16 x) = 16%nat) as Hlen.
    { unfold to_be_bytes. by rewrite length_reverse, to_le_bytes_length. }
    rewrite Hn, from_be_bytes_pad in Hft. rewrite Hn, length_app in Hlen. split_and!; [lia| |done|].
    - destruct (skip_zeros _) eqn:Hs; [|simpl; lia]. simpl in Hft. by rewrite <- Hft in Hne.
    - intros _ Hh. by apply skip_zeros_head in Hh. }
  assert (length (to_unpadded_le_bytes x) = length (to_unpadded_be_bytes x)) as Hlen.
  { by rewrite Hrev, length_reverse. }
  unfold from_unpadded_be_bytes, from_unpadded_le_bytes. rewrite Hlen.
  destruct (Nat.ltb_spec 16 (length (to_unpadded_be_bytes x))); [lia|].
  split_and!; try done.
  - by rewrite from_be_bytes_pad, Hfrom.
  - rewrite from_le_bytes_zeros, Hrev. by f_equal.
Qed.

(** ** Tagged hashing *)

Section tagged_hasher.

(** SHA-256: 32 bytes for any input. *)
Context (sha256 : list Z → list Z).

Record TaggedHasher : Type := { tag_hash : list Z; values : list Z }.

(** A length on 8 big-endian bytes, then the bytes. *)
Definition length_prefixed (bytes : list Z) : list Z :=
  to_be_bytes 8 (Z.of_nat (length bytes)) ++ bytes.

Definition compute_tag_hash (tag : list (list Z)) : list Z :=
  sha256 (mjoin (length_prefixed <$> tag)).

Definition TaggedHasher_new (tag : list (list Z)) : TaggedHasher :=
  {| tag_hash := compute_tag_hash tag; values := [] |}.

Definition write_length_prefixed (h : TaggedHasher) (bytes : list Z) : TaggedHasher :=
  {| tag_hash := tag_hash h; values := values h ++ length_prefixed bytes |}.

Definition add_bytes (h : TaggedHasher) (bytes : list Z) : TaggedHasher :=
  write_length_prefixed h bytes.
Definition add_string (h : TaggedHasher) (s : list Z) : TaggedHasher := write_length_prefixed h s.
Definition add_u64 (h : TaggedHasher) (value : Z) : TaggedHasher :=
  write_length_prefixed h (to_be_bytes 8 value).

(** Lexicographic order of byte strings. *)
Fixpoint bytes_leb (a b : list Z) : bool :=
  match a, b with
  | [], _ => true
  | _, [] => false
  | x :: a, y :: b => if x =? y then bytes_leb a b else x <? y
  end.

Definition add_map_string_to_bytes (h : TaggedHasher) (m : gmap (list Z) (list Z)) : TaggedHasher :=
  let h := add_u64 h (Z.of_nat (size m)) in
  let pairs := sort_by (λ a b, bytes_leb a.1 b.1) (map_to_list m) in
  foldl (λ h '(key, value), add_bytes (add_string h key) value) h pairs.

Definition signable_message (h : TaggedHasher) : list Z :=
  tag_hash h ++ tag_hash h ++ values h.

Definition hash (h : TaggedHasher) : list Z := sha256 (signable_message h).

(** The hasher of a tag and a list of values. *)
Definition hasher_of (tag : list (list Z)) (vs : list (list Z)) : TaggedHasher :=
  foldl add_bytes (TaggedHasher_new tag) vs.

Lemma hasher_of_values h vs :
  values (foldl add_bytes h vs) = values h ++ mjoin (length_prefixed <$> vs) ∧
  tag_hash (foldl add_bytes h vs) = tag_hash h.
Proof.
  revert h. induction vs as [|v vs IH]; intros h; [by rewrite app_nil_r|]. cbn [foldl].
  destruct (IH (add_bytes h v)) as [-> ->]. split; [|done]. simpl. by rewrite <- app_assoc.
Qed.

Definition short (v : list Z) : Prop := Z.of_nat (length v) < 2 ^ 64.

Lemma length_prefixed_prefix v1 v2 r1 r2 :
  short v1 → short v2 → length_prefixed v1 ++ r1 = length_prefixed v2 ++ r2 → v1 = v2 ∧ r1 = r2.
Proof.
  unfold short, length_prefixed. intros H1 H2 Heq. rewrite <- !app_assoc in Heq.
  apply app_inj_1 in Heq as [Hlen Heq].
  - apply (f_equal from_be_bytes) in Hlen. rewrite !from_to_be_bytes in Hlen.
    + by apply app_inj_1 in Heq; [|lia].
    + change (256 ^ Z.of_nat 8) with (2 ^ 64). lia.
    + change (256 ^ Z.of_nat 8) with (2 ^ 64). lia.
  - unfold to_be_bytes. by rewrite !length_reverse, !to_le_bytes_length.
Qed.

Lemma length_prefixed_join_nil v vs : mjoin (length_prefixed <$> v :: vs) ≠ [].
Proof.
  intros Heq. apply (f_equal length) in Heq.
  change (length (length_prefixed v ++ mjoin (length_prefixed <$> vs)) = 0%nat) in Heq.
  unfold length_prefixed at 1, to_be_bytes in Heq.
  rewrite !length_app, length_reverse, to_le_bytes_length in Heq. lia.
Qed.

Lemma length_prefixed_join_inj vs1 vs2 :
  Forall short vs1 → Forall short vs2 →
  mjoin (length_prefixed <$> vs1) = mjoin (length_prefixed <$> vs2) → vs1 = vs2.
Proof.
  intros H1. revert vs2. induction H1 as [|v1 vs1 Hv1 H1 IH]; intros vs2 H2 Heq.
  - destruct vs2 as [|v2 vs2]; [done|]. symmetry in Heq. by apply length_prefixed_join_nil in Heq.
  - destruct H2 as [|v2 vs2 Hv2 H2]; [by apply length_prefixed_join_nil in Heq|].
    change (length_prefixed v1 ++ mjoin (length_prefixed <$> vs1)
            = length_prefixed v2 ++ mjoin (length_prefixed <$> vs2)) in Heq.
    apply length_prefixed_prefix in Heq as [-> Heq]; [|done|done]. f_equal. by apply IH.
Qed.

(** the message that is hashed or signed determines the hash of the tag and the
    sequence of values: length prefixes leave no two sequences with one message,
    however the values are split. *)
Theorem signable_message_injective tag1 tag2 vs1 vs2 :
  (∀ m, length (sha256 m) = 32%nat) → Forall short vs1 → Forall short vs2 →
  signable_message (hasher_of tag1 vs1) = signable_message (hasher_of tag2 vs2) →
  compute_tag_hash tag1 = compute_tag_hash tag2 ∧ vs1 = vs2.
Proof.
  intros Hsha H1 H2. unfold signable_message, hasher_of.
  destruct (hasher_of_values (TaggedHasher_new tag1) vs1) as [-> ->].
  destruct (hasher_of_values (TaggedHasher_new tag2) vs2) as [-> ->]. simpl. intros Heq.
  apply app_inj_1 in Heq as [Ht Heq]; [|unfold compute_tag_hash; by rewrite !Hsha].
  split; [done|]. apply app_inj_1 in Heq as [_ Heq]; [|unfold compute_tag_hash; by rewrite !Hsha].
  by apply length_prefixed_join_inj.
Qed.

End tagged_hasher.

(** ** Witnesses *)

(** ** Hashes of hashes

    A commitment to blocks: the hash of their hashes in a row. *)
Section hashed_blocks.
Context (sha256 : list Z → list Z) (sha256_length : ∀ m, length (sha256 m) = 32%nat).

(** Two different messages, one of each list, with one hash. *)
Definition collides (xs ys : list (list Z)) : Prop :=
  ∃ x y, x ∈ xs ∧ y ∈ ys ∧ x ≠ y ∧ sha256 x = sha256 y.

Lemma collides_mono xs ys xs' ys' :
  xs ⊆ xs' → ys ⊆ ys' → collides xs ys → collides xs' ys'.
Proof. intros Hx Hy (x & y & ? & ? & ? & ?). exists x, y. split_and!; [by apply Hx|by apply Hy|done..]. Qed.

Lemma collides_here x y xs ys :
  x ∈ xs → y ∈ ys → sha256 x = sha256 y → x = y ∨ collides xs ys.
Proof. intros Hx Hy H. destruct (decide (x = y)); [by left|]. right. by exists x, y. Qed.

(** Everything that is hashed for the commitment. *)
Definition hashed_messages (blocks : list (list Z)) : list (list Z) :=
  mjoin (sha256 <$> blocks) :: blocks.

Lemma join_hashes_inj bs1 bs2 :
  mjoin (sha256 <$> bs1) = mjoin (sha256 <$> bs2) → bs1 = bs2 ∨ collides bs1 bs2.
Proof using sha256_length.
  revert bs2. induction bs1 as [|b1 bs1 IH]; intros [|b2 bs2] H; simpl in H.
  - by left.
  - apply (f_equal length) in H. rewrite length_app, sha256_length in H. simpl in H. lia.
  - apply (f_equal length) in H. rewrite length_app, sha256_length in H. simpl in H. lia.
  - apply app_inj_1 in H as [H1 H2]; [|by rewrite !sha256_length].
    destruct (collides_here b1 b2 (b1 :: bs1) (b2 :: bs2)) as [->|?]; [set_solver..| |by right].
    destruct (IH bs2 H2) as [->|Hc]; [by left|right]. eapply collides_mono; [..|exact Hc]; set_solver.
Qed.

Lemma hash_of_hashes_inj bs1 bs2 :
  sha256 (mjoin (sha256 <$> bs1)) = sha256 (mjoin (sha256 <$> bs2)) →
  bs1 = bs2 ∨ collides (hashed_messages bs1) (hashed_messages bs2).
Proof using sha256_length.
  intros H. apply (collides_here _ _ (hashed_messages bs1) (hashed_messages bs2)) in H
    as [H|?]; [|by right|set_solver..].
  apply join_hashes_inj in H as [?|Hc]; [by left|right].
  eapply collides_mono; [..|exact Hc]; set_solver.
Qed.
End hashed_blocks.

Lemma byte_padding_roundtrip_witness :
  from_unpadded_be_bytes (to_unpadded_be_bytes 66051) = Ok 66051 ∧
  from_unpadded_le_bytes (to_unpadded_le_bytes 66051) = Ok 66051 ∧
  to_unpadded_le_bytes 66051 = reverse (to_unpadded_be_bytes 66051) ∧
  (1 ≤ length (to_unpadded_be_bytes 66051) ≤ 16)%nat ∧
  (66051 ≠ 0 → head (to_unpadded_be_bytes 66051) ≠ Some 0).
Proof. apply (byte_padding_roundtrip 66051). compute_done. Defined.

(** A 32-byte stand-in for the hash: the length of the message. *)
Definition ex_sha256 (m : list Z) : list Z := to_le_bytes 32 (Z.of_nat (length m)).

Lemma signable_message_injective_witness :
  compute_tag_hash ex_sha256 [[115]; [112]] = compute_tag_hash ex_sha256 [[115]; [112]] ∧
  [[1; 2]; [3]] = [[1; 2]; [3]].
Proof.
  apply (signable_message_injective ex_sha256 [[115]; [112]] [[115]; [112]] [[1; 2]; [3]] [[1; 2]; [3]]).
  - intros m. apply to_le_bytes_length.
  - repeat (constructor; [by vm_compute|]). constructor.
  - repeat (constructor; [by vm_compute|]). constructor.
  - reflexivity.
Defined.
