(* ===== verification/ZBase32.v ===== *)
(** z-base-32 encoding: [crates/breez-sdk/common/src/utils/zbase32.rs]. *)
From S2P Require Import Prelude Bytes.
From Stdlib Require Import Ascii.

(** ** The encoder *)

Definition ZBASE32_ALPHABET : list ascii :=
  String.list_ascii_of_string "ybndrfg8ejkmcpqxot1uwisza345h769".

Definition alphabet_at (index : Z) : ascii := nth (Z.to_nat index) ZBASE32_ALPHABET "000"%char.

(** [while bits_in_buffer >= 5 { .. }]; the bits decrease by 5. *)
Fixpoint drain_bits (fuel : nat) (buffer bits_in_buffer : Z) (out : list Z) : Z * list Z :=
  match fuel with
  | O => (bits_in_buffer, out)
  | S fuel =>
      if 5 <=? bits_in_buffer then
        let bits_in_buffer := bits_in_buffer - 5 in
        let index := Z.land (Z.shiftr buffer bits_in_buffer) 31 in
        drain_bits fuel buffer bits_in_buffer (out ++ [index])
      else (bits_in_buffer, out)
  end.

(** [for &byte in data { .. }]: the buffer is a [u16], [<<] drops the high bits. *)
Fixpoint encode_loop (data : list Z) (buffer bits_in_buffer : Z) (out : list Z)
    : Z * Z * list Z :=
  match data with
  | [] => (buffer, bits_in_buffer, out)
  | byte :: data =>
      let buffer := Z.lor (wrap 16 (Z.shiftl buffer 8)) byte in
      let bits_in_buffer := bits_in_buffer + 8 in
      let '(bits_in_buffer, out) :=
        drain_bits (Z.to_nat bits_in_buffer) buffer bits_in_buffer out in
      encode_loop data buffer bits_in_buffer out
  end.

(** The alphabet indices of the encoding. *)
Definition encode_indices (data : list Z) : list Z :=
  let '(buffer, bits_in_buffer, out) := encode_loop data 0 0 [] in
  if 0 <? bits_in_buffer
  then out ++ [Z.land (wrap 16 (Z.shiftl buffer (5 - bits_in_buffer))) 31]
  else out.

Definition encode_zbase32 (data : list Z) : list ascii := alphabet_at <$> encode_indices data.

(** ** Numbers in base 32 *)

Definition num32 (l : list Z) : Z := foldl (λ n d, n * 32 + d) 0 l.
Definition num256 (l : list Z) : Z := foldl (λ n b, n * 256 + b) 0 l.

Lemma num32_snoc l d : num32 (l ++ [d]) = num32 l * 32 + d.
Proof. unfold num32. by rewrite foldl_app. Qed.

Lemma land_31 x : Z.land x 31 = x mod 32.
Proof. change 31 with (Z.ones 5). by rewrite Z.land_ones. Qed.

Definition digit_ok (d : Z) : Prop := 0 ≤ d < 32.

Lemma digit_mod x : digit_ok (x mod 32).
Proof. apply Z.mod_pos_bound. lia. Qed.

(** The number read so far is what was put out, then the bits in the buffer. *)
Definition encoded (v buffer bits : Z) (out : list Z) : Prop :=
  v = num32 out * 2 ^ bits + buffer mod 2 ^ bits ∧ Forall digit_ok out.

Lemma mod_split b k j : 0 ≤ k → 0 ≤ j → b mod 2 ^ (k + j) = 2 ^ k * ((b / 2 ^ k) mod 2 ^ j) + b mod 2 ^ k.
Proof.
  intros Hk Hj. rewrite Z.pow_add_r by done. rewrite Z.rem_mul_r by lia. lia.
Qed.

Lemma drain_bits_spec fuel v buffer bits out bits' out' :
  encoded v buffer bits out → 0 ≤ bits ≤ Z.of_nat fuel →
  drain_bits fuel buffer bits out = (bits', out') →
  encoded v buffer bits' out' ∧ 0 ≤ bits' < 5 ∧
  5 * Z.of_nat (length out') + bits' = 5 * Z.of_nat (length out) + bits.
Proof.
  revert bits out. induction fuel as [|fuel IH]; intros bits out Henc Hb; cbn [drain_bits].
  { intros [= <- <-]. split_and!; [done|lia|lia|lia]. }
  destruct (Z.leb_spec 5 bits) as [Hge|]; [|intros [= <- <-]; split_and!; [done|lia|lia|lia]].
  intros Hd. apply IH in Hd as (? & ? & Hl); [|clear Hd|lia].
  - split_and!; [done|lia|lia|]. rewrite Hl, length_app. simpl. lia.
  - destruct Henc as [-> Hok]. split.
    + rewrite num32_snoc, land_31, Z.shiftr_div_pow2 by lia.
      replace bits with (bits - 5 + 5) at 1 2 by lia.
      rewrite mod_split, Z.pow_add_r by lia. change (2 ^ 5) with 32. lia.
    + apply Forall_app. split; [done|]. constructor; [|constructor]. rewrite land_31. apply digit_mod.
Qed.

Lemma lor_shifted_byte buffer b :
  byte_ok b → Z.lor (wrap 16 (Z.shiftl buffer 8)) b = wrap 16 (buffer * 256) + b.
Proof.
  intros Hb. rewrite Z.shiftl_mul_pow2 by lia. change (2 ^ 8) with 256.
  assert (Z.land (wrap 16 (buffer * 256)) b = 0) as Hland.
  { apply Z.bits_inj'. intros n Hn. rewrite Z.land_spec, Z.bits_0.
    destruct (Z.lt_ge_cases n 8) as [Hlt|Hge].
    - unfold wrap. rewrite Z.mod_pow2_bits_low by lia. change 256 with (2 ^ 8).
      by rewrite Z.mul_pow2_bits_low.
    - destruct (decide (b = 0)) as [->|]; [by rewrite Z.bits_0, andb_false_r|].
      rewrite (Z.bits_above_log2 b n), andb_false_r; [done|unfold in_u in Hb; lia|].
      assert (Z.log2 b < 8); [|lia]. apply Z.log2_lt_pow2; unfold in_u in Hb; lia. }
  rewrite <- Z.lxor_lor by done. by rewrite <- Z.add_nocarry_lxor.
Qed.

Lemma encode_loop_spec data v buffer bits out buffer' bits' out' :
  Forall byte_ok data → encoded v buffer bits out → 0 ≤ bits < 5 → 0 ≤ buffer →
  encode_loop data buffer bits out = (buffer', bits', out') →
  encoded (foldl (λ n b, n * 256 + b) v data) buffer' bits' out' ∧ 0 ≤ bits' < 5 ∧ 0 ≤ buffer' ∧
  5 * Z.of_nat (length out') + bits' = 5 * Z.of_nat (length out) + bits + 8 * Z.of_nat (length data).
Proof.
  intros Hdata. revert v buffer bits out.
  induction Hdata as [|b data Hb _ IH]; intros v buffer bits out Henc Hbits Hbuf; cbn [encode_loop].
  { intros [= <- <- <-]. split_and!; [done|lia|lia|lia|simpl; lia]. }
  rewrite lor_shifted_byte by done. set (buffer1 := wrap 16 (buffer * 256) + b).
  assert (0 ≤ buffer1) as Hbuf1.
  { unfold buffer1, wrap, in_u in *. pose proof (Z.mod_pos_bound (buffer * 256) (2 ^ 16)). lia. }
  assert (encoded (v * 256 + b) buffer1 (bits + 8) out) as Henc1.
  { destruct Henc as [-> Hok]. split; [|done].
    assert (buffer1 mod 2 ^ (bits + 8) = (buffer mod 2 ^ bits) * 256 + b) as ->.
    { unfold buffer1, wrap. assert (0 < 2 ^ bits) by lia.
      assert (2 ^ (bits + 8) = 2 ^ bits * 256) as HM by (rewrite Z.pow_add_r by lia; done).
      rewrite <- Zplus_mod_idemp_l, Z.mod_mod_divide.
      - rewrite HM, Z.mul_mod_distr_r by lia. apply Z.mod_small.
        pose proof (Z.mod_pos_bound buffer (2 ^ bits)). unfold in_u in Hb. lia.
      - exists (2 ^ (8 - bits)). rewrite <- Z.pow_add_r by lia. f_equal. lia. }
    rewrite Z.pow_add_r by lia. change (2 ^ 8) with 256. lia. }
  destruct (drain_bits _ buffer1 (bits + 8) out) as [bits2 out2] eqn:Hd.
  apply (drain_bits_spec _ (v * 256 + b)) in Hd as (Henc2 & Hb2 & Hl2); [|done|lia].
  intros Hloop. apply (IH (v * 256 + b)) in Hloop as (? & ? & ? & Hl); [|done|done|done].
  split_and!; try done; try lia. simpl length. lia.
Qed.

Lemma encode_indices_spec data :
  Forall byte_ok data →
  let pad := (5 - (8 * Z.of_nat (length data)) mod 5) mod 5 in
  num32 (encode_indices data) = num256 data * 2 ^ pad ∧ Forall digit_ok (encode_indices data) ∧
  5 * Z.of_nat (length (encode_indices data)) = 8 * Z.of_nat (length data) + pad.
Proof.
  intros Hdata. unfold encode_indices. destruct (encode_loop data 0 0 []) as [[buffer bits] out] eqn:Hl.
  apply (encode_loop_spec data 0) in Hl as ([Hv Hok] & Hb & Hbuf & Hlen); [|done|by split|lia|lia].
  fold (num256 data) in Hv. simpl in Hlen.
  assert ((8 * Z.of_nat (length data)) mod 5 = bits) as ->.
  { symmetry. apply (Z.mod_unique _ _ (Z.of_nat (length out))); lia. }
  destruct (Z.ltb_spec 0 bits) as [Hpos|Hzero].
  - rewrite (Z.mod_small (5 - bits) 5) by lia. cbv zeta. split_and!.
    + rewrite num32_snoc, land_31, Z.shiftl_mul_pow2 by lia. unfold wrap. rewrite Hv.
      assert (2 ^ bits * 2 ^ (5 - bits) = 32) as H32.
      { rewrite <- Z.pow_add_r by lia. by replace (bits + (5 - bits)) with 5 by lia. }
      rewrite Z.mod_mod_divide by by exists 2048.
      rewrite <- H32, Z.mul_mod_distr_r by lia. lia.
    + apply Forall_app. split; [done|]. constructor; [|constructor]. rewrite land_31. apply digit_mod.
    + rewrite length_app. simpl. lia.
  - assert (bits = 0) as -> by lia. change ((5 - 0) mod 5) with 0. cbv zeta.
    change (2 ^ 0) with 1 in *. rewrite Z.mod_1_r in Hv. split_and!; [lia|done|lia].
Qed.

(** ** Injectivity *)

Lemma foldl_base_split base l n :
  foldl (λ n d, n * base + d) n l = n * base ^ Z.of_nat (length l) + foldl (λ n d, n * base + d) 0 l.
Proof.
  revert n. induction l as [|d l IH]; intros n; cbn [foldl length].
  { change (Z.of_nat 0) with 0. rewrite Z.pow_0_r. lia. }
  rewrite IH, (IH (0 * base + d)), Nat2Z.inj_succ, Z.pow_succ_r by lia. lia.
Qed.

Lemma num256_inj l1 l2 :
  Forall byte_ok l1 → Forall byte_ok l2 → length l1 = length l2 → num256 l1 = num256 l2 → l1 = l2.
Proof.
  assert (∀ l, Forall byte_ok l → 0 ≤ num256 l < 256 ^ Z.of_nat (length l)) as Hbound.
  { induction 1 as [|b l Hb _ IH]; [unfold num256; simpl; lia|]. unfold num256 in *.
    cbn [foldl length]. rewrite foldl_base_split, Nat2Z.inj_succ, Z.pow_succ_r by lia.
    unfold in_u in Hb. nia. }
  intros H1. revert l2. induction H1 as [|b1 l1 Hb1 H1 IH]; intros l2 H2 Hlen Heq.
  { by destruct l2. }
  destruct H2 as [|b2 l2 Hb2 H2]; [done|]. injection Hlen as Hlen.
  unfold num256 in Heq. cbn [foldl] in Heq. rewrite !(foldl_base_split 256 _ (0 * 256 + _)) in Heq.
  fold (num256 l1) (num256 l2) in Heq. rewrite Hlen in Heq.
  pose proof (Hbound l1 H1) as HB1. rewrite Hlen in HB1. pose proof (Hbound l2 H2) as HB2.
  destruct (Z.div_mod_unique (256 ^ Z.of_nat (length l2)) b1 b2 (num256 l1) (num256 l2))
    as [-> Heq']; [by left|by left|lia|]. f_equal. by apply IH.
Qed.

Lemma alphabet_at_inj d1 d2 :
  digit_ok d1 → digit_ok d2 → alphabet_at d1 = alphabet_at d2 → d1 = d2.
Proof.
  unfold digit_ok, alphabet_at. intros H1 H2 Heq.
  assert (NoDup ZBASE32_ALPHABET) as Hnd by compute_done.
  apply (NoDup_nth ZBASE32_ALPHABET "000"%char) in Heq; [lia|by apply NoDup_ListNoDup|..];
    change (length ZBASE32_ALPHABET) with 32%nat; lia.
Qed.

Lemma alphabet_map_inj l1 l2 :
  Forall digit_ok l1 → Forall digit_ok l2 → alphabet_at <$> l1 = alphabet_at <$> l2 → l1 = l2.
Proof.
  intros H1. revert l2. induction H1 as [|d1 l1 Hd1 _ IH]; intros l2 H2 Heq; destruct H2; try done.
  simpl in Heq. injection Heq as Hh Ht. f_equal; [by apply alphabet_at_inj|by apply IH].
Qed.

(** z-base-32 is the big-endian base-32 numeral of the data padded with zero
    bits to a multiple of five, [ceil(8 n / 5)] characters for [n] bytes; so two
    different byte strings never have the same encoding. *)
Theorem encode_zbase32_numeral data :
  Forall byte_ok data →
  let pad := (5 - (8 * Z.of_nat (length data)) mod 5) mod 5 in
  (∃ indices, encode_zbase32 data = alphabet_at <$> indices ∧ Forall digit_ok indices ∧
     num32 indices = num256 data * 2 ^ pad ∧
     5 * Z.of_nat (length indices) = 8 * Z.of_nat (length data) + pad) ∧
  ∀ data', Forall byte_ok data' → encode_zbase32 data' = encode_zbase32 data → data' = data.
Proof.
  intros Hd pad. destruct (encode_indices_spec data Hd) as (Hn & Hok & Hl). split.
  { exists (encode_indices data). done. }
  intros data' Hd' Heq. destruct (encode_indices_spec data' Hd') as (Hn' & Hok' & Hl').
  apply alphabet_map_inj in Heq; [|done|done]. rewrite Heq in Hn', Hl'.
  assert (length data' = length data) as Hlen.
  { pose proof (Z.mod_pos_bound (5 - (8 * Z.of_nat (length data)) mod 5) 5).
    pose proof (Z.mod_pos_bound (5 - (8 * Z.of_nat (length data')) mod 5) 5). lia. }
  apply num256_inj; [done|done|done|]. rewrite Hlen in Hn'. rewrite Hn in Hn'.
  apply Z.mul_cancel_r in Hn'; [done|]. apply Z.pow_nonzero; [lia|]. apply Z.mod_pos_bound. lia.
Qed.

(** ** Witness *)

Example encode_zbase32_hello :
  String.string_of_list_ascii (encode_zbase32 [104; 101; 108; 108; 111]) = "pb1sa5dx"%string.
Proof. reflexivity. Qed.

Lemma encode_zbase32_numeral_witness :
  let pad := (5 - (8 * Z.of_nat (length [104; 101])) mod 5) mod 5 in
  (∃ indices, encode_zbase32 [104; 101] = alphabet_at <$> indices ∧ Forall digit_ok indices ∧
     num32 indices = num256 [104; 101] * 2 ^ pad ∧
     5 * Z.of_nat (length indices) = 8 * Z.of_nat (length [104; 101]) + pad) ∧
  ∀ data', Forall byte_ok data' → encode_zbase32 data' = encode_zbase32 [104; 101] →
    data' = [104; 101].
Proof. apply (encode_zbase32_numeral [104; 101]). compute_done. Defined.
