(* ===== verification/SyncModel.v ===== *)
(** Records of the real-time synchronisation and their changes:
    [crates/breez-sdk/common/src/sync/model.rs] and the conversions of
    [sync/storage.rs].

    A record exists in two forms, with parsed fields ([SchemaVersion], JSON values)
    and as stored (strings); both are instances of one type. *)
From S2P Require Import Prelude.
From Stdlib Require Import Ascii.

(** ** JSON

    [serde_json]: a value, [from_str] and [to_string] with the texts of their
    errors. *)
Class Json := {
  Value : Type;
  Value_eq_dec :: EqDecision Value;
  json_from_str : string → result Value string;
  json_to_string : Value → result string string
}.

(** [serde_json] reads back what it wrote. *)
Class JsonLaws `{Json} := {
  json_roundtrip : ∀ v s v', json_to_string v = Ok s → json_from_str s = Ok v' → v' = v
}.

(** ** Decimal numbers *)

Definition digit_ascii (d : Z) : ascii := ascii_of_nat (48 + Z.to_nat d).

(** [Display] of a [u64]: at most 20 digits. *)
Fixpoint decimal_loop (fuel : nat) (n : Z) (acc : list ascii) : list ascii :=
  match fuel with
  | O => acc
  | S fuel =>
      let acc := digit_ascii (n mod 10) :: acc in
      if n <? 10 then acc else decimal_loop fuel (n / 10) acc
  end.

Definition show_u64 (n : Z) : list ascii := decimal_loop 20 n [].

Definition ascii_digit (c : ascii) : option Z :=
  let n := Z.of_nat (nat_of_ascii c) in
  if (48 <=? n) && (n <=? 57) then Some (n - 48) else None.

Fixpoint parse_digits (l : list ascii) (acc : Z) : option Z :=
  match l with
  | [] => Some acc
  | c :: l =>
      d ← ascii_digit c; m ← checked_mul 64 acc 10; a ← checked_add 64 m d; parse_digits l a
  end.

(** [u64::from_str]: a leading plus is allowed, the empty text is not. *)
Definition parse_u64 (l : list ascii) : option Z :=
  match l with
  | [] => None
  | c :: rest =>
      if Ascii.eqb c "+" then match rest with [] => None | _ => parse_digits rest 0 end
      else parse_digits l 0
  end.

(** [str::split] on one character: the pieces between its occurrences. *)
Fixpoint split_on (sep : ascii) (l : list ascii) : list (list ascii) :=
  match l with
  | [] => [[]]
  | c :: l =>
      if Ascii.eqb c sep then [] :: split_on sep l
      else match split_on sep l with
           | [] => [[c]]
           | piece :: pieces => (c :: piece) :: pieces
           end
  end.

(** ** Schema versions *)

Record SchemaVersion : Type := { major : Z; minor : Z; patch : Z }.

Definition SchemaVersion_new (major minor patch : Z) : SchemaVersion :=
  {| major := major; minor := minor; patch := patch |}.

Definition is_supported_by (v supported_max : SchemaVersion) : bool :=
  major v <=? major supported_max.

Definition SchemaVersion_fmt (v : SchemaVersion) : string :=
  String.string_of_list_ascii
    (show_u64 (major v) ++ ["."%char] ++ show_u64 (minor v) ++ ["."%char] ++ show_u64 (patch v)).

Definition SchemaVersion_from_str (s : string) : result SchemaVersion string :=
  match split_on "." (String.list_ascii_of_string s) with
  | [p0; p1; p2] =>
      let* major := ok_or (parse_u64 p0)
        ("Invalid major version: " +:+ String.string_of_list_ascii p0) in
      let* minor := ok_or (parse_u64 p1)
        ("Invalid minor version: " +:+ String.string_of_list_ascii p1) in
      let* patch := ok_or (parse_u64 p2)
        ("Invalid patch version: " +:+ String.string_of_list_ascii p2) in
      Ok {| major := major; minor := minor; patch := patch |}
  | _ => Err ("Invalid version format '" +:+ s +:+ "': expected major.minor.patch")
  end.

(** ** Records and changes *)

Record RecordId : Type := { rtype : string; data_id : string }.

#[export] Instance RecordId_eq_dec : EqDecision RecordId.
Proof. solve_decision. Defined.

#[export] Instance RecordId_countable : Countable RecordId.
Proof.
  refine (inj_countable' (λ i, (rtype i, data_id i))
            (λ p, {| rtype := p.1; data_id := p.2 |}) _).
  by intros [].
Defined.

(** [S] is the type of the schema version and [V] that of a field. *)
Record Record_ (S V : Type) : Type := {
  rec_id : RecordId;
  revision : Z;
  schema_version : S;
  data : gmap string V
}.
Arguments rec_id {S V}.
Arguments revision {S V}.
Arguments schema_version {S V}.
Arguments data {S V}.

Record UnversionedRecordChange (S V : Type) : Type := {
  uc_id : RecordId;
  uc_schema_version : S;
  uc_updated_fields : gmap string V
}.
Arguments uc_id {S V}.
Arguments uc_schema_version {S V}.
Arguments uc_updated_fields {S V}.

Record RecordChange (S V : Type) : Type := {
  rc_id : RecordId;
  rc_schema_version : S;
  updated_fields : gmap string V;
  local_revision : Z
}.
Arguments rc_id {S V}.
Arguments rc_schema_version {S V}.
Arguments updated_fields {S V}.
Arguments local_revision {S V}.

Record OutgoingChange (S V : Type) : Type := {
  change : RecordChange S V;
  parent : option (Record_ S V)
}.
Arguments change {S V}.
Arguments parent {S V}.

Record IncomingChange (S V : Type) : Type := {
  new_state : Record_ S V;
  old_state : option (Record_ S V)
}.
Arguments new_state {S V}.
Arguments old_state {S V}.

Definition set_revision {S V} (rev : Z) (r : Record_ S V) : Record_ S V :=
  {| rec_id := rec_id r; revision := rev; schema_version := schema_version r; data := data r |}.

Section records.
Context {S V : Type} `{EqDecision V} {ho : HashOrder}.

(** The parent's fields, overwritten by the given ones. *)
Definition overlay (parent : option (Record_ S V)) (fields : gmap string V) : gmap string V :=
  let data := match parent with
              | Some parent => insert_all fst snd (hm_iter (data parent)) ∅
              | None => ∅
              end in
  insert_all fst snd (hm_iter fields) data.

(** [OutgoingChange::merge]. *)
Definition merge (c : OutgoingChange S V) : Record_ S V :=
  {| rec_id := rc_id (change c);
     revision := default 0 (revision <$> parent c);
     schema_version := rc_schema_version (change c);
     data := overlay (parent c) (updated_fields (change c)) |}.

(** [Record::with_parent]. *)
Definition with_parent (r : Record_ S V) (parent : option (Record_ S V)) : Record_ S V :=
  {| rec_id := rec_id r; revision := revision r; schema_version := schema_version r;
     data := overlay parent (data r) |}.

(** The fields of a record that its parent does not have or has otherwise. *)
Definition changed_fields (fields : gmap string V) (parent : Record_ S V) : gmap string V :=
  foldl (λ m '(k, v),
    match data parent !! k with
    | Some parent_value => if bool_decide (parent_value ≠ v) then <[k := v]> m else m
    | None => <[k := v]> m
    end) ∅ (hm_iter fields).

(** [Record::change_set]. *)
Definition change_set (r : Record_ S V) (parent : option (Record_ S V)) : OutgoingChange S V :=
  {| change :=
       {| rc_id := rec_id r; rc_schema_version := schema_version r;
          updated_fields := match parent with
                            | Some parent => changed_fields (data r) parent
                            | None => data r
                            end;
          local_revision := revision r |};
     parent := parent |}.

(** ** The laws of changes *)

Lemma overlay_union p fields :
  overlay p fields = fields ∪ match p with Some p => data p | None => ∅ end.
Proof.
  unfold overlay. rewrite insert_all_iter. destruct p; [|done].
  rewrite insert_all_iter. by rewrite (right_id_L ∅ (∪)).
Qed.

Lemma changed_fields_lookup fields p k :
  changed_fields fields p !! k =
  match fields !! k with
  | Some v => if decide (data p !! k = Some v) then None else Some v
  | None => None
  end.
Proof.
  unfold changed_fields.
  set (keep := λ kv : string * V, bool_decide (data p !! kv.1 ≠ Some kv.2)).
  assert (∀ l m, foldl (λ m '(k, v),
      match data p !! k with
      | Some parent_value => if bool_decide (parent_value ≠ v) then <[k := v]> m else m
      | None => <[k := v]> m
      end) m l = insert_all fst snd (List.filter keep l) m) as Hf.
  { intros l m. rewrite <- foldl_insert_if. revert m.
    induction l as [|[k' v'] l IH]; intros m; [done|]. cbn [foldl]. rewrite IH.
    f_equal. unfold keep. simpl. destruct (data p !! k'); repeat case_bool_decide; naive_solver. }
  rewrite Hf. clear Hf.
  destruct (insert_all _ _ _ _ !! k) as [v|] eqn:Hk.
  - apply insert_all_empty_Some in Hk as ([k' v'] & Hin & <- & ->).
    apply elem_of_bfilter in Hin as [Hin Hkeep]. apply elem_of_hm_iter in Hin. simpl.
    rewrite Hin. unfold keep in Hkeep. simpl in Hkeep. apply bool_decide_eq_true in Hkeep.
    by case_decide.
  - apply insert_all_empty_None in Hk. destruct (fields !! k) as [v|] eqn:Hv; [|done].
    case_decide as Hp; [done|]. destruct Hk. apply list_elem_of_fmap. exists (k, v).
    split; [done|]. apply elem_of_bfilter. split; [by apply elem_of_hm_iter|].
    unfold keep. by apply bool_decide_eq_true.
Qed.

Lemma merge_data c :
  data (merge c) = updated_fields (change c) ∪ match parent c with Some p => data p | None => ∅ end.
Proof. apply overlay_union. Qed.

Lemma merge_change_set_data r p :
  data (merge (change_set r p)) = data (with_parent r p).
Proof.
  unfold merge, with_parent, change_set. simpl. rewrite !overlay_union.
  destruct p as [p|]; [|done]. apply map_eq. intros k. rewrite !lookup_union, changed_fields_lookup.
  destruct (data r !! k) as [v|]; [|done]. case_decide as Hp; [|done].
  rewrite Hp. done.
Qed.

(** a change set is exact: merging it into the parent gives the record's
    fields over the parent's, at the parent's revision, and it carries no field
    that the parent already has with that value; a record that keeps all the
    parent's fields is restored by it. *)
Theorem change_set_merge (r : Record_ S V) (p : option (Record_ S V)) :
  merge (change_set r p) =
    set_revision (default 0 (revision <$> p)) (with_parent r p) ∧
  (∀ q, p = Some q →
     updated_fields (change (change_set r p)) ##ₘ filter (λ kv, data q !! kv.1 = Some kv.2) (data r) ∧
     (dom (data q) ⊆ dom (data r) → data (merge (change_set r p)) = data r)).
Proof.
  split.
  - pose proof (merge_change_set_data r p) as Hd. unfold merge, set_revision, with_parent in *.
    simpl in *. by f_equal.
  - intros q ->. split.
    + simpl. apply map_disjoint_spec. intros k v1 v2. rewrite changed_fields_lookup.
      intros Hc [Hv Hq]%map_lookup_filter_Some. simpl in Hq. rewrite Hv in Hc.
      by case_decide.
    + intros Hdom. rewrite merge_change_set_data. simpl. rewrite overlay_union.
      apply map_eq. intros k. rewrite lookup_union. destruct (data r !! k) as [v|] eqn:Hk.
      * by destruct (data q !! k).
      * apply not_elem_of_dom in Hk. assert (k ∉ dom (data q)) as Hq by set_solver.
        apply not_elem_of_dom in Hq. by rewrite Hq.
Qed.
End records.

(** ** Storage form

    [SyncStorageError] of [sync/storage.rs] and the [TryFrom] conversions between
    the two forms. *)
Inductive SyncStorageError : Type :=
| Implementation (msg : string)
| InitializationError (msg : string)
| Serialization (msg : string).

Section conversions.
Context {json : Json} {ho : HashOrder}.

Abbreviation Model := (Record_ SchemaVersion Value).
Abbreviation Stored := (Record_ string string).

(** [iter().map(|(k, v)| Ok((k, f(v)?))).collect::<Result<HashMap<..>>>()]. *)
Fixpoint try_entries {A B : Type} (f : A → result B string) (l : list (string * A))
    : result (list (string * B)) SyncStorageError :=
  match l with
  | [] => Ok []
  | (k, a) :: l =>
      let* b := map_err Serialization (f a) in
      let* rest := try_entries f l in
      Ok ((k, b) :: rest)
  end.

Definition try_fields {A B : Type} (f : A → result B string) (m : gmap string A)
    : result (gmap string B) SyncStorageError :=
  let* l := try_entries f (hm_iter m) in Ok (list_to_map l).

Definition Record_try_from_storage (r : Stored) : result Model SyncStorageError :=
  let* v := map_err Serialization (SchemaVersion_from_str (schema_version r)) in
  let* d := try_fields json_from_str (data r) in
  Ok {| rec_id := rec_id r; revision := revision r; schema_version := v; data := d |}.

Definition Record_try_from_model (r : Model) : result Stored SyncStorageError :=
  let* d := try_fields json_to_string (data r) in
  Ok {| rec_id := rec_id r; revision := revision r;
        schema_version := SchemaVersion_fmt (schema_version r); data := d |}.

Definition RecordChange_try_from_storage (c : RecordChange string string)
    : result (RecordChange SchemaVersion Value) SyncStorageError :=
  let* v := map_err Serialization (SchemaVersion_from_str (rc_schema_version c)) in
  let* d := try_fields json_from_str (updated_fields c) in
  Ok {| rc_id := rc_id c; rc_schema_version := v; updated_fields := d;
        local_revision := local_revision c |}.

Definition try_parent (p : option Stored) : result (option Model) SyncStorageError :=
  match p with
  | Some p => let* p := Record_try_from_storage p in Ok (Some p)
  | None => Ok None
  end.

Definition OutgoingChange_try_from_storage (c : OutgoingChange string string)
    : result (OutgoingChange SchemaVersion Value) SyncStorageError :=
  let* ch := RecordChange_try_from_storage (change c) in
  let* p := try_parent (parent c) in
  Ok {| change := ch; parent := p |}.

Definition IncomingChange_try_from_storage (c : IncomingChange string string)
    : result (IncomingChange SchemaVersion Value) SyncStorageError :=
  let* n := Record_try_from_storage (new_state c) in
  let* o := try_parent (old_state c) in
  Ok {| new_state := n; old_state := o |}.

Definition UnversionedRecordChange_try_from_model (c : UnversionedRecordChange SchemaVersion Value)
    : result (UnversionedRecordChange string string) SyncStorageError :=
  let* d := try_fields json_to_string (uc_updated_fields c) in
  Ok {| uc_id := uc_id c; uc_schema_version := SchemaVersion_fmt (uc_schema_version c);
        uc_updated_fields := d |}.

(** ** Round trips *)

Lemma try_entries_ok {A B} (f : A → result B string) l l' :
  try_entries f l = Ok l' →
  l'.*1 = l.*1 ∧ ∀ i k b, l' !! i = Some (k, b) → ∃ a, l !! i = Some (k, a) ∧ f a = Ok b.
Proof.
  revert l'. induction l as [|[k a] l IH]; intros l'; simpl.
  { intros [= <-]. split; [done|]. intros i k b Hi. by rewrite lookup_nil in Hi. }
  destruct (f a) as [b|e] eqn:Hf; [|done]. simpl.
  destruct (try_entries f l) as [rest|e] eqn:Hr; [|done]. simpl. intros [= <-].
  destruct (IH rest eq_refl) as [Hk Hl]. split; [simpl; by f_equal|].
  intros [|i] k' b'; simpl; [intros [= <- <-]; eauto|]. apply Hl.
Qed.

Lemma try_fields_ok {A B} (f : A → result B string) (m : gmap string A) m' :
  try_fields f m = Ok m' →
  dom m' = dom m ∧ ∀ k b, m' !! k = Some b → ∃ a, m !! k = Some a ∧ f a = Ok b.
Proof.
  unfold try_fields. destruct (try_entries f (hm_iter m)) as [l|e] eqn:Hl; [|done].
  intros [= <-]. apply try_entries_ok in Hl as [Hk Hl].
  assert (NoDup l.*1) as Hnd by (rewrite Hk; apply NoDup_hm_keys).
  split.
  - rewrite dom_list_to_map_L. apply set_eq. intros k.
    rewrite elem_of_list_to_set, Hk, elem_of_dom. rewrite list_elem_of_fmap. split.
    + intros ([k' a] & -> & Hin). apply elem_of_hm_iter in Hin. by eexists.
    + intros [a Ha]. exists (k, a). split; [done|]. by apply elem_of_hm_iter.
  - intros k b Hb. apply elem_of_list_to_map in Hb; [|done].
    apply list_elem_of_lookup in Hb as [i Hi]. destruct (Hl i k b Hi) as (a & Ha & Hf).
    exists a. split; [|done]. apply elem_of_hm_iter. by eapply list_elem_of_lookup_2.
Qed.

Lemma Record_try_from_storage_ok r r' :
  Record_try_from_storage r = Ok r' →
  rec_id r' = rec_id r ∧ revision r' = revision r ∧ try_fields json_from_str (data r) = Ok (data r').
Proof.
  unfold Record_try_from_storage. destruct (SchemaVersion_from_str _); [|done]. simpl.
  destruct (try_fields _ _) as [d|e]; [|done]. by intros [= <-].
Qed.

Lemma Record_try_from_model_ok r r' :
  Record_try_from_model r = Ok r' →
  rec_id r' = rec_id r ∧ revision r' = revision r ∧ try_fields json_to_string (data r) = Ok (data r').
Proof.
  unfold Record_try_from_model. destruct (try_fields _ _) as [d|e]; [|done]. by intros [= <-].
Qed.

Lemma stored_data_reads_back {laws : JsonLaws} (d : gmap string Value) s d' :
  try_fields json_to_string d = Ok s → try_fields json_from_str s = Ok d' → d' = d.
Proof.
  intros [Hd1 Hl1]%try_fields_ok [Hd2 Hl2]%try_fields_ok. apply map_eq. intros k.
  destruct (d' !! k) as [v'|] eqn:Hk.
  - destruct (Hl2 k v' Hk) as (x & Hx & Hp). destruct (Hl1 k x Hx) as (v & Hv & Hs).
    rewrite Hv. f_equal. by eapply json_roundtrip.
  - apply not_elem_of_dom in Hk. rewrite Hd2, Hd1 in Hk. by apply not_elem_of_dom in Hk.
Qed.

Lemma stored_record_reads_back {laws : JsonLaws} r s r' :
  Record_try_from_model r = Ok s → Record_try_from_storage s = Ok r' →
  rec_id r' = rec_id r ∧ revision r' = revision r ∧ data r' = data r.
Proof.
  intros (Hi & Hr & Hd)%Record_try_from_model_ok (Hi' & Hr' & Hd')%Record_try_from_storage_ok.
  split_and!; [congruence..|]. by eapply stored_data_reads_back.
Qed.
End conversions.

(** ** Schema versions are read back *)

Definition digit_ok10 (d : Z) : Prop := 0 ≤ d < 10.
Definition num10 (acc : Z) (ds : list Z) : Z := foldl (λ n d, n * 10 + d) acc ds.

Lemma decimal_loop_spec fuel n acc :
  0 ≤ n < 10 ^ Z.of_nat (S fuel) →
  ∃ ds, decimal_loop (S fuel) n acc = (digit_ascii <$> ds) ++ acc ∧ ds ≠ [] ∧
        Forall digit_ok10 ds ∧ num10 0 ds = n.
Proof.
  revert n acc. induction fuel as [|fuel IH]; intros n acc Hn.
  - exists [n]. cbn [decimal_loop]. rewrite Z.mod_small by lia.
    rewrite (proj2 (Z.ltb_lt n 10)) by lia. split_and!; [done|done| |simpl; lia].
    constructor; [unfold digit_ok10; lia|done].
  - remember (S fuel) as f. cbn [decimal_loop]. destruct (Z.ltb_spec n 10) as [Hlt|Hge].
    + exists [n]. rewrite Z.mod_small by lia. split_and!; [done|done| |simpl; lia].
      constructor; [unfold digit_ok10; lia|done].
    + destruct (IH (n / 10) (digit_ascii (n mod 10) :: acc)) as (ds & -> & Hne & Hok & Hnum).
      { rewrite Nat2Z.inj_succ, Z.pow_succ_r in Hn by lia. split; [apply Z.div_pos; lia|].
        apply Z.div_lt_upper_bound; lia. }
      exists (ds ++ [n mod 10]). split_and!.
      * rewrite fmap_app, <- app_assoc. done.
      * by destruct ds.
      * apply Forall_app. split; [done|]. constructor; [|done].
        unfold digit_ok10. pose proof (Z.mod_pos_bound n 10). lia.
      * unfold num10. rewrite foldl_app. fold (num10 0 ds). rewrite Hnum. simpl.
        pose proof (Z.div_mod n 10). lia.
Qed.

Lemma show_u64_spec n :
  in_u 64 n →
  ∃ ds, show_u64 n = digit_ascii <$> ds ∧ ds ≠ [] ∧ Forall digit_ok10 ds ∧ num10 0 ds = n.
Proof.
  intros [H0 H1]. destruct (decimal_loop_spec 19 n []) as (ds & Hs & ?).
  { split; [done|]. etrans; [exact H1|]. done. }
  exists ds. split; [|done]. unfold show_u64. by rewrite Hs, app_nil_r.
Qed.

Lemma digit_cases (P : Z → Prop) d :
  digit_ok10 d → P 0 → P 1 → P 2 → P 3 → P 4 → P 5 → P 6 → P 7 → P 8 → P 9 → P d.
Proof.
  unfold digit_ok10. intros Hd **.
  assert (d = 0 ∨ d = 1 ∨ d = 2 ∨ d = 3 ∨ d = 4 ∨ d = 5 ∨ d = 6 ∨ d = 7 ∨ d = 8 ∨ d = 9)
    as Hc by lia.
  naive_solver.
Qed.

Lemma ascii_digit_ascii d : digit_ok10 d → ascii_digit (digit_ascii d) = Some d.
Proof. intros Hd. by apply (digit_cases (λ d, ascii_digit (digit_ascii d) = Some d)). Qed.

Lemma digit_ascii_neq d c :
  digit_ok10 d → ascii_digit c = None → Ascii.eqb (digit_ascii d) c = false.
Proof.
  intros Hd Hc. apply Ascii.eqb_neq. intros <-. by rewrite ascii_digit_ascii in Hc.
Qed.

Lemma num10_ge acc ds : 0 ≤ acc → Forall digit_ok10 ds → acc ≤ num10 acc ds.
Proof.
  intros Hacc Hds. revert acc Hacc. induction Hds as [|d ds Hd _ IH]; intros acc Hacc; simpl; [lia|].
  unfold digit_ok10 in Hd. etrans; [|apply IH; lia]. lia.
Qed.

Lemma parse_digits_spec ds acc :
  0 ≤ acc → Forall digit_ok10 ds → num10 acc ds < 2 ^ 64 →
  parse_digits (digit_ascii <$> ds) acc = Some (num10 acc ds).
Proof.
  intros Hacc Hds. revert acc Hacc. induction Hds as [|d ds Hd Hds IH]; intros acc Hacc Hlt; [done|].
  cbn [fmap list_fmap parse_digits]. rewrite ascii_digit_ascii by done. simpl.
  simpl in Hlt. pose proof Hd as Hd'. unfold digit_ok10 in Hd'.
  pose proof (num10_ge (acc * 10 + d) ds) as Hge.
  assert (acc * 10 + d < 2 ^ 64) by (specialize (Hge ltac:(lia) Hds); lia).
  unfold checked_mul, checked_add, umax.
  rewrite (proj2 (Z.leb_le (acc * 10) (2 ^ 64 - 1))) by lia. simpl.
  rewrite (proj2 (Z.leb_le (acc * 10 + d) (2 ^ 64 - 1))) by lia. simpl.
  apply IH; [lia|done].
Qed.

Lemma parse_show_u64 n : in_u 64 n → parse_u64 (show_u64 n) = Some n.
Proof.
  intros Hn. destruct (show_u64_spec n Hn) as (ds & -> & Hne & Hds & Hnum).
  destruct ds as [|d ds]; [done|]. unfold parse_u64. cbn [fmap list_fmap].
  apply Forall_cons in Hds as Hc. rewrite digit_ascii_neq by (by apply Hc || done).
  pose proof (parse_digits_spec (d :: ds) 0) as Hp. cbn [fmap list_fmap] in Hp.
  rewrite Hp; [by rewrite Hnum|lia|done|]. rewrite Hnum. apply Hn.
Qed.

Lemma split_on_piece sep p rest :
  Forall (λ c, Ascii.eqb c sep = false) p →
  split_on sep (p ++ sep :: rest) = p :: split_on sep rest.
Proof.
  induction 1 as [|c p Hc _ IH]; simpl.
  - by rewrite Ascii.eqb_refl.
  - rewrite Hc. by rewrite IH.
Qed.

Lemma split_on_last sep p :
  Forall (λ c, Ascii.eqb c sep = false) p → split_on sep p = [p].
Proof. induction 1 as [|c p Hc _ IH]; simpl; [done|]. by rewrite Hc, IH. Qed.

Lemma show_u64_no_dot n : in_u 64 n → Forall (λ c, Ascii.eqb c "." = false) (show_u64 n).
Proof.
  intros Hn. destruct (show_u64_spec n Hn) as (ds & -> & _ & Hds & _).
  apply Forall_fmap. eapply Forall_impl; [done|]. intros d Hd. by apply digit_ascii_neq.
Qed.

(** a schema version that is written as text is read back the same. *)
Theorem schema_version_roundtrip v :
  in_u 64 (major v) → in_u 64 (minor v) → in_u 64 (patch v) →
  SchemaVersion_from_str (SchemaVersion_fmt v) = Ok v.
Proof.
  intros Hm Hn Hp. unfold SchemaVersion_from_str, SchemaVersion_fmt.
  rewrite String.list_ascii_of_string_of_list_ascii. simpl.
  rewrite split_on_piece by (by apply show_u64_no_dot).
  rewrite split_on_piece by (by apply show_u64_no_dot).
  rewrite split_on_last by (by apply show_u64_no_dot).
  rewrite !parse_show_u64 by done. by destruct v.
Qed.

(** ** Witnesses *)

Definition ex_record (rev : Z) (d : gmap string Z) : Record_ Z Z :=
  {| rec_id := {| rtype := "Contact"; data_id := "c1" |}; revision := rev;
     schema_version := 1; data := d |}.

Lemma change_set_merge_witness :
  let ho := canonical_order in
  let p := ex_record 7 {[ "name" := 1; "age" := 2 ]} in
  let r := ex_record 0 {[ "name" := 1; "age" := 3; "city" := 4 ]} in
  data (merge (change_set r (Some p))) = data r.
Proof.
  intros ho p r. apply (proj2 (change_set_merge r (Some p)) p eq_refl).
  apply (bool_decide_unpack _). by vm_compute.
Defined.

Lemma schema_version_roundtrip_witness :
  SchemaVersion_from_str (SchemaVersion_fmt (SchemaVersion_new 18446744073709551615 0 105)) =
  Ok (SchemaVersion_new 18446744073709551615 0 105).
Proof. apply schema_version_roundtrip; split; vm_compute; congruence. Defined.
