(* ===== verification/SyncTables.v ===== *)
(** The tables behind the real-time synchronisation: the methods of the SQLite
    storage of [crates/breez-sdk/core/src/persist/sqlite.rs] on [sync_outgoing],
    [sync_incoming], [sync_state] and [sync_revision].

    Each method runs in one transaction, so it is a function of the tables.
    [commit_time] is never read by the program and is left out, as are failures of
    the database; a map of strings is stored as the map itself, not as its JSON
    text. *)
From S2P Require Import Prelude SyncModel.

Abbreviation StoredRecord := (Record_ string string).
Abbreviation StoredChange := (RecordChange string string).
Abbreviation StoredOutgoing := (OutgoingChange string string).
Abbreviation StoredIncoming := (IncomingChange string string).

(** ** The tables *)

(** [sync_outgoing] has no key: its rows, oldest first.  The keys of [sync_state]
    and [sync_incoming] are their primary keys. *)
Record SyncTables : Type := {
  sync_revision : Z;
  sync_outgoing : list StoredChange;
  sync_state : gmap RecordId StoredRecord;
  sync_incoming : gmap (RecordId * Z) StoredRecord
}.

Definition SyncTables_new : SyncTables :=
  {| sync_revision := 0; sync_outgoing := []; sync_state := ∅; sync_incoming := ∅ |}.

Definition with_outgoing (l : list StoredChange) (t : SyncTables) : SyncTables :=
  {| sync_revision := sync_revision t; sync_outgoing := l; sync_state := sync_state t;
     sync_incoming := sync_incoming t |}.

Definition with_incoming (m : gmap (RecordId * Z) StoredRecord) (t : SyncTables) : SyncTables :=
  {| sync_revision := sync_revision t; sync_outgoing := sync_outgoing t;
     sync_state := sync_state t; sync_incoming := m |}.

(** [INSERT OR REPLACE INTO sync_state] and
    [UPDATE sync_revision SET revision = MAX(revision, ?)]. *)
Definition put_state (r : StoredRecord) (t : SyncTables) : SyncTables :=
  {| sync_revision := Z.max (sync_revision t) (revision r); sync_outgoing := sync_outgoing t;
     sync_state := <[rec_id r := r]> (sync_state t); sync_incoming := sync_incoming t |}.

(** [LIMIT ?]. *)
Fixpoint sql_limit {A} (limit : Z) (l : list A) : list A :=
  match l with
  | [] => []
  | x :: l => if 0 <? limit then x :: sql_limit (limit - 1) l else []
  end.

(** ** The methods *)

(** [COALESCE(MAX(revision), 0) + 1]. *)
Definition next_local_revision (l : list StoredChange) : Z :=
  match l with
  | [] => 1
  | c :: l => foldl Z.max (local_revision c) (local_revision <$> l) + 1
  end.

Definition add_outgoing_change (record : UnversionedRecordChange string string) (t : SyncTables)
    : SyncTables * Z :=
  let local_revision := next_local_revision (sync_outgoing t) in
  (with_outgoing (sync_outgoing t ++
     [{| rc_id := uc_id record; rc_schema_version := uc_schema_version record;
         updated_fields := uc_updated_fields record; local_revision := local_revision |}]) t,
   local_revision).

(** Whether a row of [sync_outgoing] is the one to delete. *)
Definition is_row (id : RecordId) (rev : Z) (c : StoredChange) : bool :=
  bool_decide (rc_id c = id) && (local_revision c =? rev).

Definition complete_outgoing_sync (record : StoredRecord) (local_revision : Z) (t : SyncTables)
    : SyncTables :=
  put_state record
    (with_outgoing
       (List.filter (λ c, negb (is_row (rec_id record) local_revision c)) (sync_outgoing t)) t).

(** The [LEFT JOIN sync_state]. *)
Definition join_state (t : SyncTables) (c : StoredChange) : StoredOutgoing :=
  {| change := c; parent := sync_state t !! rc_id c |}.

Definition get_pending_outgoing_changes (limit : Z) (t : SyncTables) : list StoredOutgoing :=
  sql_limit limit
    (join_state t <$> sort_by (λ a b, local_revision a <=? local_revision b) (sync_outgoing t)).

Definition get_latest_outgoing_change (t : SyncTables) : option StoredOutgoing :=
  head (sql_limit 1
    (join_state t <$> sort_by (λ a b, local_revision b <=? local_revision a) (sync_outgoing t))).

Definition get_last_revision (t : SyncTables) : Z := sync_revision t.

Definition insert_incoming_records (records : list StoredRecord) (t : SyncTables) : SyncTables :=
  with_incoming (insert_all (λ r, (rec_id r, revision r)) (λ r, r) records (sync_incoming t)) t.

Definition delete_incoming_record (record : StoredRecord) (t : SyncTables) : SyncTables :=
  with_incoming (delete (rec_id record, revision record) (sync_incoming t)) t.

Definition update_record_from_incoming (record : StoredRecord) (t : SyncTables) : SyncTables :=
  put_state record t.

Section queries.
Context {ho : HashOrder}.

(** [ORDER BY i.revision ASC]; the order of equal revisions is the table's. *)
Definition get_incoming_records (limit : Z) (t : SyncTables) : list StoredIncoming :=
  sql_limit limit
    ((λ r, {| new_state := r; old_state := sync_state t !! rec_id r |})
       <$> sort_by (λ a b, revision a <=? revision b) (hm_values (sync_incoming t))).
End queries.

(** ** The invariant *)

Definition queue_ok (l : list StoredChange) : Prop :=
  StronglySorted (λ a b, local_revision a < local_revision b) l.

Record tables_ok (t : SyncTables) : Prop := {
  tk_queue : queue_ok (sync_outgoing t);
  tk_state k r : sync_state t !! k = Some r → rec_id r = k ∧ revision r ≤ sync_revision t;
  tk_incoming k r : sync_incoming t !! k = Some r → k = (rec_id r, revision r)
}.

(** The revision up to which a record is known. *)
Definition state_revision (t : SyncTables) (k : RecordId) : option Z :=
  revision <$> sync_state t !! k.

Lemma tables_ok_new : tables_ok SyncTables_new.
Proof.
  split; simpl; [constructor|..]; intros k r Hk; by rewrite lookup_empty in Hk.
Qed.

Lemma foldl_max_ge l x y : (y = x ∨ y ∈ l) → y ≤ foldl Z.max x l.
Proof.
  revert x y. induction l as [|z l IH]; intros x y Hy; simpl.
  { destruct Hy as [->|Hy]; [done|]. by apply elem_of_nil in Hy. }
  destruct Hy as [->|[->|Hy]%elem_of_cons].
  - etrans; [|apply IH; by left]. lia.
  - etrans; [|apply IH; by left]. lia.
  - apply IH. by right.
Qed.

Lemma next_local_revision_gt l c : c ∈ l → local_revision c < next_local_revision l.
Proof.
  destruct l as [|c0 l]; [by intros ?%elem_of_nil|]. intros Hc. simpl.
  enough (local_revision c ≤ foldl Z.max (local_revision c0) (local_revision <$> l)) by lia.
  apply foldl_max_ge. apply elem_of_cons in Hc as [->|Hc]; [by left|]. right.
  by apply list_elem_of_fmap_2.
Qed.

Lemma queue_ok_snoc l c :
  queue_ok l → (∀ x, x ∈ l → local_revision x < local_revision c) → queue_ok (l ++ [c]).
Proof.
  induction 1 as [|x l Hl IH Hx]; intros Hc; simpl; [repeat constructor|].
  constructor.
  - apply IH. intros y Hy. apply Hc. by right.
  - apply Forall_app. split; [done|]. constructor; [|done]. apply Hc. by left.
Qed.

Lemma queue_ok_filter f l : queue_ok l → queue_ok (List.filter f l).
Proof.
  induction 1 as [|x l Hl IH Hx]; simpl; [constructor|]. case_match; [|done].
  constructor; [done|]. by eapply Forall_sublist; [apply sublist_bfilter|].
Qed.

Lemma sort_by_sorted_id {A} (le : A → A → bool) l :
  StronglySorted (λ a b, le a b = true) l → sort_by le l = l.
Proof.
  induction 1 as [|x l Hl IH Hx]; simpl; [done|]. rewrite IH.
  destruct l as [|y l]; simpl; [done|]. apply Forall_cons in Hx as [Hx _]. by rewrite Hx.
Qed.

Lemma queue_ok_sorted l :
  queue_ok l → sort_by (λ a b, local_revision a <=? local_revision b) l = l.
Proof.
  intros Hl. apply sort_by_sorted_id. induction Hl as [|x l Hl IH Hx]; constructor; [done|].
  eapply Forall_impl; [exact Hx|]. intros y Hy. simpl in *. apply Z.leb_le. lia.
Qed.

Lemma queue_ok_NoDup l : queue_ok l → NoDup (local_revision <$> l).
Proof.
  induction 1 as [|x l Hl IH Hx]; simpl; constructor; [|done].
  rewrite list_elem_of_fmap. intros (y & Hy & Hin). rewrite Forall_forall in Hx.
  specialize (Hx y Hin). lia.
Qed.

Lemma sql_limit_all {A} limit (l : list A) : Z.of_nat (length l) ≤ limit → sql_limit limit l = l.
Proof.
  revert limit. induction l as [|x l IH]; intros limit Hl; simpl in *; [done|].
  rewrite (proj2 (Z.ltb_lt 0 limit)) by lia. f_equal. apply IH. lia.
Qed.

Lemma sql_limit_prefix {A} limit (l : list A) : ∃ rest, l = sql_limit limit l ++ rest.
Proof.
  revert limit. induction l as [|x l IH]; intros limit; simpl; [by exists []|].
  case_match; [|by eexists]. destruct (IH (limit - 1)) as [rest Hr]. exists rest.
  simpl. by f_equal.
Qed.

Lemma ok_put_state r t : tables_ok t → tables_ok (put_state r t).
Proof.
  intros [Hq Hs Hi]. split; simpl; [done| |done].
  intros k r' [[<- <-]|[Hne Hk]]%lookup_insert_Some; [split; [done|lia]|].
  destruct (Hs k r' Hk). split; [done|lia].
Qed.

Lemma ok_with_outgoing l t : queue_ok l → tables_ok t → tables_ok (with_outgoing l t).
Proof. intros ? [Hq Hs Hi]. by split. Qed.

Lemma ok_add_outgoing record t : tables_ok t → tables_ok (add_outgoing_change record t).1.
Proof.
  intros Ht. apply ok_with_outgoing; [|done]. apply queue_ok_snoc; [apply Ht|].
  intros x Hx. simpl. by apply next_local_revision_gt.
Qed.

Lemma ok_complete_outgoing r rev t : tables_ok t → tables_ok (complete_outgoing_sync r rev t).
Proof.
  intros Ht. apply ok_put_state, ok_with_outgoing; [|done]. apply queue_ok_filter, Ht.
Qed.

Lemma ok_insert_incoming rs t : tables_ok t → tables_ok (insert_incoming_records rs t).
Proof.
  intros [Hq Hs Hi]. split; simpl; [done..|].
  intros k r [(x & _ & <- & ->)|[_ Hk]]%lookup_insert_all_Some; [done|]. by apply Hi.
Qed.

Lemma ok_delete_incoming r t : tables_ok t → tables_ok (delete_incoming_record r t).
Proof.
  intros [Hq Hs Hi]. split; simpl; [done..|]. intros k r' [_ Hk]%lookup_delete_Some. by apply Hi.
Qed.

(** ** Reachable tables *)

Inductive TableCommand : Type :=
| AddOutgoing (record : UnversionedRecordChange string string)
| CompleteOutgoing (record : StoredRecord) (local_revision : Z)
| InsertIncoming (records : list StoredRecord)
| DeleteIncoming (record : StoredRecord)
| UpdateFromIncoming (record : StoredRecord).

Definition run_table_command (c : TableCommand) (t : SyncTables) : SyncTables :=
  match c with
  | AddOutgoing record => (add_outgoing_change record t).1
  | CompleteOutgoing record rev => complete_outgoing_sync record rev t
  | InsertIncoming records => insert_incoming_records records t
  | DeleteIncoming record => delete_incoming_record record t
  | UpdateFromIncoming record => update_record_from_incoming record t
  end.

Definition run_table_commands (cs : list TableCommand) (t : SyncTables) : SyncTables :=
  foldl (λ t c, run_table_command c t) t cs.

Lemma ok_run_command c t : tables_ok t → tables_ok (run_table_command c t).
Proof.
  intros Ht. destruct c; simpl.
  - by apply (ok_add_outgoing record).
  - by apply ok_complete_outgoing.
  - by apply ok_insert_incoming.
  - by apply ok_delete_incoming.
  - by apply ok_put_state.
Qed.

Lemma ok_run_commands cs t : tables_ok t → tables_ok (run_table_commands cs t).
Proof.
  unfold run_table_commands. revert t. induction cs as [|c cs IH]; intros t Ht; [done|].
  simpl. by apply IH, ok_run_command.
Qed.

Lemma pending_queue t :
  tables_ok t → Z.of_nat (length (sync_outgoing t)) ≤ umax 32 →
  get_pending_outgoing_changes (umax 32) t = join_state t <$> sync_outgoing t.
Proof.
  intros Ht Hl. unfold get_pending_outgoing_changes. rewrite queue_ok_sorted by apply Ht.
  apply sql_limit_all. by rewrite length_fmap.
Qed.

Lemma sync_revision_mono c t : sync_revision t ≤ sync_revision (run_table_command c t).
Proof. destruct c; simpl; lia. Qed.

(** the tables of the synchronisation after any sequence of operations: the
    pending changes are handed out in the order they were made, each under a local
    id of its own, and a new change gets a higher id than all of them; every
    record's state is covered by the cursor, which never goes back. *)
Theorem sync_tables_reachable cs c :
  let t := run_table_commands cs SyncTables_new in
  tables_ok t ∧ NoDup (local_revision <$> sync_outgoing t) ∧
  (Z.of_nat (length (sync_outgoing t)) ≤ umax 32 →
   change <$> get_pending_outgoing_changes (umax 32) t = sync_outgoing t) ∧
  (∀ record, Forall (λ x, local_revision x < (add_outgoing_change record t).2) (sync_outgoing t)) ∧
  get_last_revision t ≤ get_last_revision (run_table_command c t).
Proof.
  intros t. pose proof (ok_run_commands cs SyncTables_new tables_ok_new) as Ht.
  split_and!.
  - done.
  - apply queue_ok_NoDup, Ht.
  - intros Hl. rewrite pending_queue by done. rewrite <- list_fmap_compose. by rewrite list_fmap_id.
  - intros record. apply Forall_forall. intros x Hx. by apply next_local_revision_gt.
  - apply sync_revision_mono.
Qed.
