(* ===== verification/SyncProcessor.v ===== *)
(** The synchronisation processor: [SyncProcessor] of
    [crates/breez-sdk/common/src/sync/background.rs] and
    [SyncService::set_outgoing_record] of [sync/service.rs], against the storage
    trait of [sync/storage.rs], the remote service and the record handler. *)
From S2P Require Import Prelude SyncModel SyncTables.

Abbreviation ModelRecord := (Record_ SchemaVersion Value).
Abbreviation ModelChange := (RecordChange SchemaVersion Value).
Abbreviation ModelOutgoing := (OutgoingChange SchemaVersion Value).
Abbreviation ModelIncoming := (IncomingChange SchemaVersion Value).

Inductive RecordOutcome : Type := Completed | Deferred.

(** The reply of the remote service's [SetRecord]. *)
Inductive SetRecordStatus : Type := SetSuccess | SetConflict.
Record SetRecordReply : Type := { reply_status : SetRecordStatus; new_revision : Z }.

(** The state behind the lock of [sync_loop]: the running back-off timer. *)
Record BackoffHandle : Type := { started_at : Z; backoff_duration : Z }.

(** ** Collaborators

    [SyncStorageOps] is the trait [SyncStorage]; [SyncRemote] is the signing client,
    the trait [NewRecordHandler], the clock, and the back-off timer's cell with the
    scaling of a [Duration] by 1.5 in [f32] arithmetic.  [any_error] is [anyhow::Error]. *)
Class SyncStorageOps (W : Type) := {
  st_add_outgoing_change : UnversionedRecordChange string string → SE W SyncStorageError Z;
  st_complete_outgoing_sync : StoredRecord → Z → SE W SyncStorageError ();
  st_get_pending_outgoing_changes : Z → SE W SyncStorageError (list StoredOutgoing);
  st_get_last_revision : SE W SyncStorageError Z;
  st_insert_incoming_records : list StoredRecord → SE W SyncStorageError ();
  st_delete_incoming_record : StoredRecord → SE W SyncStorageError ();
  st_get_incoming_records : Z → SE W SyncStorageError (list StoredIncoming);
  st_get_latest_outgoing_change : SE W SyncStorageError (option StoredOutgoing);
  st_update_record_from_incoming : StoredRecord → SE W SyncStorageError ()
}.

Class SyncRemote {json : Json} (W : Type) := {
  any_error : Type;
  any_storage : SyncStorageError → any_error;
  any_text : string → any_error;
  net_set_record : ModelRecord → SE W any_error SetRecordReply;
  net_list_changes : Z → SE W any_error (list ModelRecord);
  on_incoming_change : ModelIncoming → SE W any_error RecordOutcome;
  on_replay_outgoing_change : ModelOutgoing → SE W any_error ();
  on_sync_completed : option Z → option Z → SE W any_error ();
  on_sync_failed : W → W;
  sync_clock : W → W * Z;
  get_backoff : W → option BackoffHandle;
  set_backoff : option BackoffHandle → W → W;
  scale_backoff : Z → Z
}.

(** ** Back-off scheduling *)

(** The timer after [schedule_backoff]; [None] when the existing one is kept. *)
Definition new_backoff (existing : option BackoffHandle) (now duration : Z)
    : option BackoffHandle :=
  let scheduled := Some {| started_at := now; backoff_duration := duration |} in
  match existing with
  | Some existing =>
      let elapsed := Z.max 0 (now - started_at existing) in
      let remaining := saturating_sub (backoff_duration existing) elapsed in
      if negb (remaining =? 0) && (remaining <? duration) then None else scheduled
  | None => scheduled
  end.

Section processor.
Context {json : Json} {ho : HashOrder} {W : Type}.
Context {st : SyncStorageOps W} {net : SyncRemote W}.

Abbreviation M := (SE W any_error).

(** [storage.f().await?]. *)
Definition storage {A} (m : SE W SyncStorageError A) : M A := se_map_err any_storage m.
Definition converted {A} (r : result A SyncStorageError) : M A := se_lift (map_err any_storage r).

(** ** Startup *)

Definition ensure_outgoing_record_committed : M () :=
  do* latest := storage st_get_latest_outgoing_change in
  match latest with
  | None => se_ret ()
  | Some record =>
      do* record := converted (OutgoingChange_try_from_storage record) in
      on_replay_outgoing_change record
  end.

(** ** Push *)

Definition push_sync_record (c : ModelOutgoing) : M () :=
  let local_revision := local_revision (change c) in
  let record := merge c in
  do* reply := net_set_record record in
  match reply_status reply with
  | SetConflict => se_fail (any_text "Conflict when trying to push outgoing change")
  | SetSuccess =>
      let record := set_revision (new_revision reply) record in
      do* record := converted (Record_try_from_model record) in
      storage (st_complete_outgoing_sync record local_revision)
  end.

Fixpoint push_changes (pending_ids : gset RecordId) (changes : list StoredOutgoing)
    (pushed_count : Z) : M Z :=
  match changes with
  | [] => se_ret pushed_count
  | storage_change :: changes =>
      if bool_decide (rc_id (change storage_change) ∈ pending_ids)
      then push_changes pending_ids changes pushed_count
      else
        do* c := converted (OutgoingChange_try_from_storage storage_change) in
        do* _ := push_sync_record c in
        push_changes pending_ids changes (saturating_add 32 pushed_count 1)
  end.

Definition push_sync_batch (changes : list StoredOutgoing) : M Z :=
  do* incoming := storage (st_get_incoming_records (umax 32)) in
  let pending_ids : gset RecordId := list_to_set ((λ r, rec_id (new_state r)) <$> incoming) in
  push_changes pending_ids changes 0.

Definition push_sync_once : M (option Z) :=
  do* changes := storage (st_get_pending_outgoing_changes (umax 32)) in
  if bool_decide (changes = []) then se_ret None
  else
    do* count := push_sync_batch changes in
    se_ret (if count =? 0 then None else Some count).

(** ** Pull *)

(** The pending outgoing changes of each record, oldest first. *)
Definition outgoing_by_record (pending_outgoing : list StoredOutgoing)
    : gmap RecordId (list StoredChange) :=
  let map :=
    foldl (λ m outgoing,
      let id := rc_id (change outgoing) in
      <[id := default [] (m !! id) ++ [change outgoing]]> m) ∅ pending_outgoing in
  (sort_by (λ a b, local_revision a <=? local_revision b)) <$> map.

(** Overlay the fields of one outgoing change; a field that does not parse is skipped. *)
Definition overlay_change (d : gmap string Value) (c : StoredChange) : gmap string Value :=
  foldl (λ d '(k, v), match json_from_str v with
                      | Ok value => <[k := value]> d
                      | Err _ => d
                      end) d (hm_iter (updated_fields c)).

Definition with_new_data {S V} (d : gmap string V) (c : IncomingChange S V) : IncomingChange S V :=
  {| new_state :=
       {| rec_id := rec_id (new_state c); revision := revision (new_state c);
          schema_version := schema_version (new_state c); data := d |};
     old_state := old_state c |}.

(** The change the handler is shown. *)
Definition merged_incoming (outgoing : gmap RecordId (list StoredChange))
    (incoming_record : StoredIncoming) : result ModelIncoming SyncStorageError :=
  let* merged := IncomingChange_try_from_storage incoming_record in
  Ok match outgoing !! rec_id (new_state incoming_record) with
     | Some outgoing_changes =>
         with_new_data (foldl overlay_change (data (new_state merged)) outgoing_changes) merged
     | None => merged
     end.

Definition first_time_seen (incoming_record : StoredIncoming) : bool :=
  match old_state incoming_record with
  | None => true
  | Some old => revision old <? revision (new_state incoming_record)
  end.

Fixpoint process_incoming (outgoing : gmap RecordId (list StoredChange))
    (incoming_records : list StoredIncoming) (incoming_applied : Z) : M Z :=
  match incoming_records with
  | [] => se_ret incoming_applied
  | incoming_record :: rest =>
      do* _ := if first_time_seen incoming_record
               then storage (st_update_record_from_incoming (new_state incoming_record))
               else se_ret () in
      do* merged := converted (merged_incoming outgoing incoming_record) in
      try* outcome := on_incoming_change merged in
      match outcome with
      | Ok Completed =>
          do* _ := storage (st_delete_incoming_record (new_state incoming_record)) in
          process_incoming outgoing rest (saturating_add 32 incoming_applied 1)
      | Ok Deferred => process_incoming outgoing rest incoming_applied
      | Err _ => process_incoming outgoing rest incoming_applied
      end
  end.

Definition pull_sync_once_local : M Z :=
  do* incoming_records := storage (st_get_incoming_records (umax 32)) in
  let total_count := Z.of_nat (length incoming_records) in
  if umax 32 <? total_count
  then se_fail (any_text "out of range integral type conversion attempted")
  else
    do* outgoing :=
      if 0 <? total_count then
        do* pending_outgoing := storage (st_get_pending_outgoing_changes (umax 32)) in
        se_ret (outgoing_by_record pending_outgoing)
      else se_ret ∅ in
    process_incoming outgoing incoming_records 0.

(** [records.iter().map(Record::try_from).collect::<Result<Vec<_>, _>>()]. *)
Fixpoint try_records (records : list ModelRecord) : result (list StoredRecord) SyncStorageError :=
  match records with
  | [] => Ok []
  | r :: records =>
      let* r := Record_try_from_model r in let* rest := try_records records in Ok (r :: rest)
  end.

Definition pull_sync_once : M (option Z) :=
  do* since_revision := storage st_get_last_revision in
  do* records := net_list_changes since_revision in
  let records := sort_by (λ a b, revision a <=? revision b) records in
  do* db_records := converted (try_records records) in
  do* _ := if bool_decide (length records = O) then se_ret ()
           else storage (st_insert_incoming_records db_records) in
  do* count := pull_sync_once_local in
  se_ret (Some count).

(** [start], up to the background tasks. *)
Definition start_consistent : M () :=
  do* _ := ensure_outgoing_record_committed in
  try* _ := pull_sync_once_local in
  se_ret ().

(** ** Triggers *)

Definition schedule_backoff (duration : Z) (w : W) : W :=
  let '(w, now) := sync_clock w in
  match new_backoff (get_backoff w) now duration with
  | Some handle => set_backoff (Some handle) w
  | None => w
  end.

(** A failed attempt: the handler is told and a back-off is scheduled. *)
Definition failed_attempt (duration : Z) (w : W) : W * (option Z * option Z) :=
  (schedule_backoff duration (on_sync_failed w), (None, None)).

(** [handle_backoff]; [queued] is what [try_recv] finds in the channel. *)
Definition handle_backoff (queued : list Z) (last_backoff : Z) (w : W)
    : W * (option Z * option Z) :=
  let last_backoff := foldl Z.min last_backoff queued in
  match pull_sync_once w with
  | (w, Err _) => failed_attempt (scale_backoff last_backoff) w
  | (w, Ok incoming_count) =>
      match push_sync_once w with
      | (w, Err _) => failed_attempt (scale_backoff last_backoff) w
      | (w, Ok outgoing_count) => (w, (incoming_count, outgoing_count))
      end
  end.

Definition ONE_SECOND : Z := 1000000000.

(** What a push trigger receives from the broadcast channel. *)
Inductive PushTrigger : Type := Triggered (id : RecordId) | TriggerClosed | TriggerLagged (n : Z).

(** [handle_push]; [pull_changed] is [pull_trigger.has_changed().unwrap_or(false)]. *)
Definition handle_push (result : PushTrigger) (pull_changed : bool) (w : W)
    : W * (option Z * option Z) :=
  match result with
  | TriggerClosed | TriggerLagged _ => (w, (None, None))
  | Triggered _ =>
      match (if pull_changed then pull_sync_once w else (w, Ok None)) with
      | (w, Err _) => failed_attempt ONE_SECOND w
      | (w, Ok incoming_count) =>
          match push_sync_once w with
          | (w, Err _) => failed_attempt ONE_SECOND w
          | (w, Ok outgoing_count) => (w, (incoming_count, outgoing_count))
          end
      end
  end.

(** The pull branch of the loop. *)
Definition handle_pull (w : W) : W * (option Z * option Z) :=
  match pull_sync_once w with
  | (w, Ok count) => (w, (count, None))
  | (w, Err _) => (on_sync_failed w, (None, None))
  end.

Inductive LoopEvent : Type :=
| PullTriggered
| BackoffTriggered (queued : list Z) (last_backoff : Z)
| PushTriggered (result : PushTrigger) (pull_changed : bool).

(** One iteration of the loop of [sync_loop]. *)
Definition sync_loop_step (e : LoopEvent) (w : W) : W :=
  let '(w, (incoming_count, outgoing_count)) :=
    match e with
    | PullTriggered => handle_pull w
    | BackoffTriggered queued last_backoff => handle_backoff queued last_backoff w
    | PushTriggered result pull_changed => handle_push result pull_changed w
    end in
  match incoming_count, outgoing_count with
  | None, None => w
  | _, _ => (on_sync_completed incoming_count outgoing_count w).1
  end.

(** The initial remote pull of [sync_loop]. *)
Definition initial_pull (w : W) : W :=
  match pull_sync_once w with
  | (w, Ok count) => (on_sync_completed count None w).1
  | (w, Err _) => on_sync_failed w
  end.

(** [sync_loop] on the events it receives before it is shut down. *)
Definition sync_loop (events : list LoopEvent) (w : W) : W :=
  foldl (λ w e, sync_loop_step e w) (initial_pull w) events.

(** [SyncService::set_outgoing_record] of [sync/service.rs]; the trigger is only sent. *)
Definition set_outgoing_record (record : UnversionedRecordChange SchemaVersion Value) : M () :=
  do* record := converted (UnversionedRecordChange_try_from_model record) in
  do* _ := storage (st_add_outgoing_change record) in
  se_ret ().
End processor.
