(* ===== verification/SyncProps.v ===== *)
(** What the synchronisation does to the tables and to the remote records: pulls
    never step back, pushes complete a prefix of the queue and never overwrite what
    they have not seen ([crates/breez-sdk/common/src/sync/background.rs]). *)
From S2P Require Import Prelude SyncModel SyncTables SyncProcessor.

Section world.
Context {json : Json} {ho : HashOrder} {N : Type}.

(** ** The world: the tables and everything else *)

Record SyncWorld : Type := { sw_tables : SyncTables; sw_net : N }.

Definition set_tables (t : SyncTables) (w : SyncWorld) : SyncWorld :=
  {| sw_tables := t; sw_net := sw_net w |}.

Definition on_tables {A} (f : SyncTables → SyncTables * A) : SE SyncWorld SyncStorageError A :=
  λ w, let '(t, a) := f (sw_tables w) in (set_tables t w, Ok a).

#[export] Instance table_storage : SyncStorageOps SyncWorld := {|
  st_add_outgoing_change record := on_tables (add_outgoing_change record);
  st_complete_outgoing_sync record rev :=
    on_tables (λ t, (complete_outgoing_sync record rev t, ()));
  st_get_pending_outgoing_changes limit :=
    on_tables (λ t, (t, get_pending_outgoing_changes limit t));
  st_get_last_revision := on_tables (λ t, (t, get_last_revision t));
  st_insert_incoming_records records := on_tables (λ t, (insert_incoming_records records t, ()));
  st_delete_incoming_record record := on_tables (λ t, (delete_incoming_record record t, ()));
  st_get_incoming_records limit := on_tables (λ t, (t, get_incoming_records limit t));
  st_get_latest_outgoing_change := on_tables (λ t, (t, get_latest_outgoing_change t));
  st_update_record_from_incoming record :=
    on_tables (λ t, (update_record_from_incoming record t, ()))
|}.

Context {net : SyncRemote SyncWorld}.

(** A storage call on the tables, then the rest. *)
Lemma storage_bind {A B} (f : SyncTables → SyncTables * A) (k : A → SE SyncWorld any_error B) w :
  se_bind (storage (on_tables f)) k w = k (f (sw_tables w)).2 (set_tables (f (sw_tables w)).1 w).
Proof. unfold se_bind, storage, se_map_err, on_tables. by destruct (f (sw_tables w)). Qed.

Lemma set_tables_same w : set_tables (sw_tables w) w = w.
Proof. by destruct w. Qed.

(** Other tasks may queue outgoing changes while the processor waits for the
    remote service or the handler; nothing else touches the tables. *)
Definition add_all (t : SyncTables) (cs : list (UnversionedRecordChange string string))
    : SyncTables :=
  foldl (λ t c, (add_outgoing_change c t).1) t cs.

Definition adds_only (w w' : SyncWorld) : Prop := ∃ cs, sw_tables w' = add_all (sw_tables w) cs.

Record remote_adds_only : Prop := {
  set_record_adds r w : adds_only w (net_set_record r w).1;
  list_changes_adds rev w : adds_only w (net_list_changes rev w).1;
  incoming_adds c w : adds_only w (on_incoming_change c w).1
}.

Lemma add_all_spec t cs :
  tables_ok t →
  tables_ok (add_all t cs) ∧ sync_state (add_all t cs) = sync_state t ∧
  sync_incoming (add_all t cs) = sync_incoming t ∧
  sync_revision (add_all t cs) = sync_revision t ∧
  ∃ added, sync_outgoing (add_all t cs) = sync_outgoing t ++ added.
Proof.
  unfold add_all. revert t. induction cs as [|c cs IH]; intros t Ht; simpl.
  { split_and!; [done..|]. exists []. by rewrite app_nil_r. }
  destruct (IH _ (ok_add_outgoing c t Ht)) as (Hok & Hs & Hi & Hr & added & Ho).
  split_and!; [done..|]. simpl in Ho. rewrite Ho. rewrite <- app_assoc. by eexists.
Qed.

(** ** Pulling *)

(** What a pull may change: record states move up to incoming revisions, incoming
    records are removed, outgoing changes of other tasks are added. *)
Record pulled (t t' : SyncTables) : Prop := {
  pu_mono k r : sync_state t !! k = Some r →
    ∃ r', sync_state t' !! k = Some r' ∧ revision r ≤ revision r';
  pu_from k r : sync_state t' !! k = Some r →
    sync_state t !! k = Some r ∨ sync_incoming t !! (k, revision r) = Some r;
  pu_incoming : sync_incoming t' ⊆ sync_incoming t;
  pu_outgoing : ∃ added, sync_outgoing t' = sync_outgoing t ++ added;
  pu_cursor : sync_revision t ≤ sync_revision t'
}.

Lemma app_self {A} (l : list A) : ∃ added, l = l ++ added.
Proof. exists []. by rewrite app_nil_r. Qed.

#[export] Instance pulled_preorder : PreOrder pulled.
Proof.
  split.
  - intros t. split; [|by left|done|apply app_self|done].
    intros k r Hr. exists r. split; [done|lia].
  - intros t1 t2 t3 [m1 f1 i1 [a1 o1] c1] [m2 f2 i2 [a2 o2] c2]. split.
    + intros k r Hr. destruct (m1 k r Hr) as (r' & Hr' & ?).
      destruct (m2 k r' Hr') as (r'' & ? & ?). exists r''. split; [done|lia].
    + intros k r Hr. destruct (f2 k r Hr) as [Hr'|Hr']; [by apply f1|].
      right. by eapply lookup_weaken.
    + by etrans.
    + exists (a1 ++ a2). by rewrite o2, o1, app_assoc.
    + lia.
Qed.

Lemma pulled_adds w w' : tables_ok (sw_tables w) → adds_only w w' →
  tables_ok (sw_tables w') ∧ pulled (sw_tables w) (sw_tables w') ∧
  sync_state (sw_tables w') = sync_state (sw_tables w) ∧
  sync_incoming (sw_tables w') = sync_incoming (sw_tables w).
Proof.
  intros Ht [cs ->]. destruct (add_all_spec _ cs Ht) as (Hok & Hs & Hi & Hr & Ho).
  split_and!; [done| |done..]. split; rewrite ?Hs, ?Hi, ?Hr; [|by left|done|done|done].
  intros k r Hr'. exists r. split; [done|lia].
Qed.

Definition incoming_key (i : StoredIncoming) : RecordId * Z :=
  (rec_id (new_state i), revision (new_state i)).

(** The loop over the incoming records, read at [t0], has [rest] to go. *)
Record pull_inv (t0 t : SyncTables) (rest : list StoredIncoming) : Prop := {
  pi_ok : tables_ok t;
  pi_pulled : pulled t0 t;
  pi_old : Forall (λ i, old_state i = sync_state t0 !! rec_id (new_state i)) rest;
  pi_sorted : StronglySorted (λ a b, revision (new_state a) ≤ revision (new_state b)) rest;
  pi_cur k r : sync_state t !! k = Some r →
    sync_state t0 !! k = Some r ∨ Forall (λ i, revision r ≤ revision (new_state i)) rest;
  pi_present : Forall (λ i, sync_incoming t !! incoming_key i = Some (new_state i)) rest;
  pi_nodup : NoDup (incoming_key <$> rest)
}.

Lemma pull_inv_adds t0 w w' rest :
  adds_only w w' → pull_inv t0 (sw_tables w) rest → pull_inv t0 (sw_tables w') rest.
Proof.
  intros Ha [Hok Hp Ho Hs Hc Hi Hn].
  destruct (pulled_adds w w' Hok Ha) as (Hok' & Hp' & Hst & Hin).
  split; [done|by etrans|done|done|by rewrite Hst|by rewrite Hin|done].
Qed.

(** The update of the record's state. *)
Lemma pulled_update t0 t i rest :
  pull_inv t0 t (i :: rest) → first_time_seen i = true →
  pulled t (update_record_from_incoming (new_state i) t).
Proof.
  intros [Hok Hp Ho Hs Hc Hi Hn] Hf. apply Forall_cons in Hi as [Hi1 _]. split; simpl.
  - intros k r Hr. destruct (decide (k = rec_id (new_state i))) as [->|Hne].
    + exists (new_state i). rewrite lookup_insert_eq. split; [done|].
      apply Forall_cons in Ho as [Ho _]. unfold first_time_seen in Hf. rewrite Ho in Hf.
      destruct (Hc _ _ Hr) as [Hr0|Hall]; [|by apply Forall_cons in Hall as [? _]].
      rewrite Hr0 in Hf. apply Z.ltb_lt in Hf. lia.
    + exists r. rewrite lookup_insert_ne by done. done.
  - intros k r [[<- <-]|[_ Hr]]%lookup_insert_Some; [|by left]. right. exact Hi1.
  - done.
  - apply app_self.
  - lia.
Qed.

Lemma pull_inv_update t0 t i rest :
  pull_inv t0 t (i :: rest) → first_time_seen i = true →
  pull_inv t0 (update_record_from_incoming (new_state i) t) (i :: rest).
Proof.
  intros Hinv Hf. pose proof (pulled_update _ _ _ _ Hinv Hf) as Hp'.
  destruct Hinv as [Hok Hp Ho Hs Hc Hi Hn].
  split; [by apply ok_put_state|by etrans|done|done| |done|done].
  simpl. intros k r [[<- <-]|[_ Hr]]%lookup_insert_Some; [|by apply Hc].
  right. constructor; [done|]. by apply StronglySorted_inv in Hs as [_ Hs].
Qed.

(** Dropping the head of the list, keeping or deleting its row. *)
Lemma pull_inv_next t0 t i rest :
  pull_inv t0 t (i :: rest) → pull_inv t0 t rest.
Proof.
  intros [Hok Hp Ho Hs Hc Hi Hn]. apply Forall_cons in Ho as [_ Ho].
  apply StronglySorted_inv in Hs as [Hs _]. apply Forall_cons in Hi as [_ Hi].
  apply NoDup_cons in Hn as [_ Hn]. split; try done.
  intros k r Hr. destruct (Hc k r Hr) as [?|Hall]; [by left|]. right.
  by apply Forall_cons in Hall as [_ ?].
Qed.

Lemma pull_inv_delete t0 t i rest :
  pull_inv t0 t (i :: rest) → pull_inv t0 (delete_incoming_record (new_state i) t) rest.
Proof.
  intros Hinv. pose proof (pull_inv_next _ _ _ _ Hinv) as [Hok Hp Ho Hs Hc Hi Hn].
  destruct Hinv as [_ _ _ _ _ _ Hnd]. apply NoDup_cons in Hnd as [Hnin _].
  split; [by apply ok_delete_incoming| |done|done|done| |done].
  - etrans; [exact Hp|]. split; simpl; [|by left|by apply delete_subseteq|apply app_self|done].
    intros k r Hr. exists r. split; [done|lia].
  - simpl. rewrite Forall_forall in Hi |- *. intros j Hj. rewrite lookup_delete_ne; [by apply Hi|].
    intros Heq. destruct Hnin. apply list_elem_of_fmap. by exists j.
Qed.

(** The record's state is at the incoming revision or beyond it. *)
Definition covers (t : SyncTables) (i : StoredIncoming) : Prop :=
  ∃ s, sync_state t !! rec_id (new_state i) = Some s ∧ revision (new_state i) ≤ revision s.

(** What the loop over the incoming records leaves, and, when it ends well, that
    every record it saw is covered and how many were removed. *)
Definition pull_done (records : list StoredIncoming) (applied : Z)
    (t : SyncTables) (out : SyncWorld * result Z any_error) : Prop :=
  let t' := sw_tables out.1 in
  tables_ok t' ∧ pulled t t' ∧
  ∀ n, out.2 = Ok n →
    Forall (covers t') records ∧
    Z.of_nat (size (sync_incoming t')) + n = Z.of_nat (size (sync_incoming t)) + applied.

Lemma covers_pulled t t' i : covers t i → pulled t t' → covers t' i.
Proof.
  intros (s & Hs & Hle) Hp. destruct (pu_mono _ _ Hp _ _ Hs) as (s' & Hs' & ?).
  exists s'. split; [done|lia].
Qed.

(** One record handled, [removed] of its rows deleted, then the rest. *)
Lemma pull_done_cons i rest t t1 applied removed out :
  covers t1 i → pulled t t1 →
  Z.of_nat (size (sync_incoming t1)) + removed = Z.of_nat (size (sync_incoming t)) →
  pull_done rest (applied + removed) t1 out → pull_done (i :: rest) applied t out.
Proof.
  intros Hc Hp1 Hsz (Hok & Hp & Hend). split_and!; [done|by etrans|].
  intros n Hr. destruct (Hend n Hr) as [Hall Hcount]. split; [|lia].
  constructor; [|done]. by eapply covers_pulled.
Qed.

(** The world after the update of the head's record state. *)
Lemma head_update t0 w i rest :
  pull_inv t0 (sw_tables w) (i :: rest) →
  ∃ w1, (if first_time_seen i
         then storage (st_update_record_from_incoming (new_state i)) else se_ret ()) w = (w1, Ok ()) ∧
    pull_inv t0 (sw_tables w1) (i :: rest) ∧ pulled (sw_tables w) (sw_tables w1) ∧
    sync_incoming (sw_tables w1) = sync_incoming (sw_tables w) ∧ covers (sw_tables w1) i.
Proof.
  intros Hinv. destruct (first_time_seen i) eqn:Hf.
  - eexists. split; [done|]. cbn.
    split_and!; [by apply pull_inv_update|by eapply pulled_update|done|].
    exists (new_state i). simpl. rewrite lookup_insert_eq. done.
  - exists w. split_and!; [done|done|done|done|].
    destruct Hinv as [_ Hp Ho _ _ _ _]. apply Forall_cons in Ho as [Ho _].
    unfold first_time_seen in Hf. destruct (old_state i) as [old|]; [|done].
    apply Z.ltb_ge in Hf. destruct (pu_mono _ _ Hp _ _ (eq_sym Ho)) as (s & Hs & ?).
    exists s. split; [done|lia].
Qed.

Lemma pulled_delete r t : pulled t (delete_incoming_record r t).
Proof.
  split; simpl; [|by left|by apply delete_subseteq|apply app_self|done].
  intros k r' Hr. exists r'. split; [done|lia].
Qed.

Lemma delete_incoming_size t i :
  sync_incoming t !! incoming_key i = Some (new_state i) →
  Z.of_nat (size (sync_incoming (delete_incoming_record (new_state i) t))) + 1 =
  Z.of_nat (size (sync_incoming t)).
Proof.
  intros Hi. simpl. rewrite map_size_delete_Some by (by eexists).
  assert (size (sync_incoming t) ≠ 0%nat); [|lia].
  intros Hz. apply map_size_empty_inv in Hz. by rewrite Hz, lookup_empty in Hi.
Qed.

Lemma process_incoming_spec (adds : remote_adds_only) outgoing records applied t0 w :
  pull_inv t0 (sw_tables w) records → 0 ≤ applied →
  applied + Z.of_nat (length records) ≤ umax 32 →
  pull_done records applied (sw_tables w) (process_incoming outgoing records applied w).
Proof.
  revert applied w. induction records as [|i rest IH]; intros applied w Hinv Ha Hn.
  { unfold pull_done. simpl. split_and!; [apply Hinv|done|]. intros n [= <-]. split; [done|lia]. }
  cbn [process_incoming]. unfold se_bind at 1.
  destruct (head_update t0 w i rest Hinv) as (w1 & -> & Hinv1 & Hp1 & Hin1 & Hc1).
  unfold se_bind at 1, converted, se_lift.
  destruct (merged_incoming outgoing i) as [c|e]; cbn [map_err];
    [|simpl; split_and!; [apply Hinv1|exact Hp1|by intros]].
  unfold se_try. pose proof (incoming_adds adds c w1) as Had.
  destruct (on_incoming_change c w1) as [w2 o]. simpl in Had.
  pose proof (pull_inv_adds t0 w1 w2 _ Had Hinv1) as Hinv2.
  destruct (pulled_adds w1 w2 (pi_ok _ _ _ Hinv1) Had) as (_ & Hp2 & _ & Hin2).
  assert (pulled (sw_tables w) (sw_tables w2)) as Hpw by (by etrans).
  pose proof (covers_pulled _ _ _ Hc1 Hp2) as Hc2.
  assert (Z.of_nat (size (sync_incoming (sw_tables w2))) =
          Z.of_nat (size (sync_incoming (sw_tables w)))) as Hsz by (by rewrite Hin2, Hin1).
  simpl in Hn. pose proof (pull_inv_next _ _ _ _ Hinv2) as Hkeep.
  assert (pull_done (i :: rest) applied (sw_tables w)
            (process_incoming outgoing rest applied w2)) as Hgo.
  { apply (pull_done_cons _ _ _ (sw_tables w2) _ 0); [done|done|lia|].
    rewrite Z.add_0_r. apply IH; [done|done|lia]. }
  destruct o as [[|]|e]; [|done|done].
  unfold se_bind at 1, storage, se_map_err. cbn [st_delete_incoming_record table_storage on_tables].
  unfold on_tables. cbn [map_err].
  pose proof (pi_present _ _ _ Hinv2) as Hpr. apply Forall_cons in Hpr as [Hpr _].
  apply (pull_done_cons _ _ _ (delete_incoming_record (new_state i) (sw_tables w2)) _ 1).
  - eapply covers_pulled; [done|]. apply pulled_delete.
  - etrans; [done|]. apply pulled_delete.
  - rewrite delete_incoming_size by done. lia.
  - unfold saturating_add. rewrite Z.min_l by (unfold umax in *; lia).
    apply (IH (applied + 1) (set_tables _ w2)); simpl; [|lia|lia].
    by apply pull_inv_delete.
Qed.

(** ** Reading the incoming records *)

Lemma incoming_keys t :
  tables_ok t →
  (λ r, (rec_id r, revision r)) <$> hm_values (sync_incoming t) = hm_keys (sync_incoming t).
Proof.
  intros Ht. unfold hm_values, hm_keys. rewrite <- list_fmap_compose.
  apply list_fmap_ext. intros i [k r] Hi. simpl. symmetry. apply (tk_incoming _ Ht).
  apply elem_of_hm_iter. by eapply list_elem_of_lookup_2.
Qed.

Lemma sorted_fmap {A B} (R : A → A → Prop) (R' : B → B → Prop) (f : A → B) l :
  (∀ a b, R a b → R' (f a) (f b)) → StronglySorted R l → StronglySorted R' (f <$> l).
Proof.
  intros HR. induction 1 as [|x l Hl IH Hx]; simpl; constructor; [done|].
  apply Forall_fmap. eapply Forall_impl; [done|]. intros y. apply HR.
Qed.

Definition join_incoming (t : SyncTables) (r : StoredRecord) : StoredIncoming :=
  {| new_state := r; old_state := sync_state t !! rec_id r |}.

Definition sorted_incoming (t : SyncTables) : list StoredRecord :=
  sort_by (λ a b, revision a <=? revision b) (hm_values (sync_incoming t)).

Lemma get_incoming_all t :
  Z.of_nat (size (sync_incoming t)) ≤ umax 32 →
  get_incoming_records (umax 32) t = join_incoming t <$> sorted_incoming t.
Proof.
  intros Hs. apply sql_limit_all. unfold sorted_incoming. rewrite length_fmap, (sort_by_perm _).
  unfold hm_values. by rewrite length_fmap, hm_iter_perm, length_map_to_list.
Qed.

Lemma sorted_incoming_present t :
  tables_ok t → Forall (λ r, sync_incoming t !! (rec_id r, revision r) = Some r) (sorted_incoming t).
Proof.
  intros Ht. unfold sorted_incoming. rewrite (sort_by_perm _). apply Forall_forall.
  intros r [k Hk]%elem_of_hm_values. pose proof (tk_incoming _ Ht _ _ Hk) as ->. done.
Qed.

Lemma pull_inv_start t :
  tables_ok t → pull_inv t t (join_incoming t <$> sorted_incoming t).
Proof.
  intros Ht. split; [done|done| | |by left| |].
  - by apply Forall_fmap, Forall_true.
  - eapply sorted_fmap; [|apply sort_by_sorted].
    + intros a b Hab. by apply Z.leb_le.
    + intros a b Hab. apply Z.leb_le. apply Z.leb_gt in Hab. lia.
    + intros a b c Hab Hbc. apply Z.leb_le in Hab, Hbc. apply Z.leb_le. lia.
  - apply Forall_fmap. by apply sorted_incoming_present.
  - rewrite <- list_fmap_compose. unfold compose, incoming_key, join_incoming. simpl.
    unfold sorted_incoming. rewrite (sort_by_perm _), incoming_keys by done. apply NoDup_hm_keys.
Qed.

(** A local pull, from any state of the tables. *)
Lemma pull_local_spec (adds : remote_adds_only) w :
  let t := sw_tables w in
  tables_ok t → Z.of_nat (size (sync_incoming t)) ≤ umax 32 →
  let '(w', r) := pull_sync_once_local w in
  tables_ok (sw_tables w') ∧ pulled t (sw_tables w') ∧
  ∀ n, r = Ok n →
    (∀ k rev, is_Some (sync_incoming t !! (k, rev)) →
       ∃ s, sync_state (sw_tables w') !! k = Some s ∧ rev ≤ revision s) ∧
    Z.of_nat (size (sync_incoming (sw_tables w'))) + n = Z.of_nat (size (sync_incoming t)).
Proof.
  intros t Ht Hsmall. unfold pull_sync_once_local.
  assert (length (join_incoming t <$> sorted_incoming t) = size (sync_incoming t)) as Hlen.
  { unfold sorted_incoming. rewrite length_fmap, (sort_by_perm _). unfold hm_values.
    by rewrite length_fmap, hm_iter_perm, length_map_to_list. }
  cbn [st_get_incoming_records table_storage]. rewrite storage_bind. cbn [fst snd].
  rewrite set_tables_same. fold t. rewrite get_incoming_all by done. rewrite Hlen.
  rewrite (proj2 (Z.ltb_ge _ _)) by done.
  assert (∃ outgoing, (if 0 <? Z.of_nat (size (sync_incoming t)) then
      do* pending_outgoing := storage (st_get_pending_outgoing_changes (umax 32)) in
      se_ret (outgoing_by_record pending_outgoing) else se_ret ∅) w = (w, Ok outgoing))
    as [outgoing Hout].
  { case_match; [|by eexists]. cbn [st_get_pending_outgoing_changes table_storage].
    rewrite storage_bind. simpl. rewrite set_tables_same. by eexists. }
  unfold se_bind at 1. rewrite Hout.
  pose proof (process_incoming_spec adds outgoing _ 0 t w (pull_inv_start t Ht) (Z.le_refl 0))
    as Hdone.
  rewrite Hlen in Hdone. specialize (Hdone Hsmall).
  destruct (process_incoming _ _ _ _) as [w' r]. destruct Hdone as (Hok & Hp & Hend). simpl in *.
  split_and!; [done|done|]. intros n Hr. destruct (Hend n Hr) as [Hall Hcount]. split; [|subst t; lia].
  intros k rev [s0 Hs0]. pose proof (tk_incoming _ Ht _ _ Hs0) as [= -> ->].
  rewrite Forall_fmap, Forall_forall in Hall. apply (Hall s0).
  unfold sorted_incoming. rewrite (sort_by_perm _). apply elem_of_hm_values. by eexists.
Qed.

Lemma try_records_ok records db :
  try_records records = Ok db →
  (λ r, (rec_id r, revision r)) <$> db = (λ r, (rec_id r, revision r)) <$> records.
Proof.
  revert db. induction records as [|r records IH]; intros db; simpl; [by intros [= <-]|].
  destruct (Record_try_from_model r) as [s|e] eqn:Hr; [|done]. simpl.
  destruct (try_records records) as [rest|e]; [|done]. simpl. intros [= <-]. simpl.
  apply Record_try_from_model_ok in Hr as (-> & -> & _). f_equal. by apply IH.
Qed.

Lemma insert_incoming_size t db :
  (size (sync_incoming (insert_incoming_records db t)) ≤ size (sync_incoming t) + length db)%nat.
Proof.
  simpl. unfold insert_all. generalize (sync_incoming t).
  induction db as [|r db IH]; intros m; simpl; [lia|]. etrans; [apply IH|]. rewrite map_size_insert.
  destruct (m !! _); simpl; lia.
Qed.

(** The amount of incoming records stays within what one query returns. *)
Definition incoming_small (w : SyncWorld) : Prop :=
  Z.of_nat (size (sync_incoming (sw_tables w))) ≤ umax 32 ∧
  ∀ since w1 records, net_list_changes since w = (w1, Ok records) →
    Z.of_nat (size (sync_incoming (sw_tables w)) + length records) ≤ umax 32.

Lemma insert_fetched_ok records t :
  tables_ok t →
  ∀ db, try_records (sort_by (λ a b, revision a <=? revision b) records) = Ok db →
  tables_ok (insert_incoming_records db t) ∧
  (size (sync_incoming (insert_incoming_records db t)) ≤ size (sync_incoming t) + length records)%nat ∧
  ∀ r, r ∈ records → is_Some (sync_incoming (insert_incoming_records db t) !! (rec_id r, revision r)).
Proof.
  intros Ht db Hdb%try_records_ok. split_and!.
  - by apply ok_insert_incoming.
  - etrans; [apply insert_incoming_size|]. apply (f_equal length) in Hdb.
    rewrite !length_fmap, (sort_by_perm _) in Hdb. lia.
  - intros r Hr.
    assert ((rec_id r, revision r) ∈ (λ r : StoredRecord, (rec_id r, revision r)) <$> db) as Hin.
    { rewrite Hdb, (sort_by_perm _). by apply (list_elem_of_fmap_2 (λ r : ModelRecord, (rec_id r, revision r))). }
    destruct (lookup_insert_all_in (λ r : StoredRecord, (rec_id r, revision r)) (λ r, r) db (sync_incoming t) _ Hin)
      as (x & _ & _ & Hx). simpl. rewrite Hx. by eexists.
Qed.

(** a pull never steps back: whatever the remote service answers and whatever the
    handler does with the records, no record's state and not the cursor ever moves
    to an older revision, and queued outgoing changes stay queued.  When it
    succeeds, it asked for the changes since the cursor, and each record it got is
    covered by the state and by the cursor, so it is not fetched again. *)
Theorem pull_never_steps_back w w' r :
  remote_adds_only → tables_ok (sw_tables w) → incoming_small w →
  pull_sync_once w = (w', r) →
  tables_ok (sw_tables w') ∧
  (∀ k s, sync_state (sw_tables w) !! k = Some s →
     ∃ s', sync_state (sw_tables w') !! k = Some s' ∧ revision s ≤ revision s') ∧
  get_last_revision (sw_tables w) ≤ get_last_revision (sw_tables w') ∧
  (∃ added, sync_outgoing (sw_tables w') = sync_outgoing (sw_tables w) ++ added) ∧
  ∀ n, r = Ok n →
    ∃ w1 records, net_list_changes (get_last_revision (sw_tables w)) w = (w1, Ok records) ∧
      ∀ rec, rec ∈ records → revision rec ≤ get_last_revision (sw_tables w') ∧
        ∃ s, sync_state (sw_tables w') !! rec_id rec = Some s ∧ revision rec ≤ revision s.
Proof.
  intros adds Ht [Hsmall Hsmall'] Hpull. unfold pull_sync_once in Hpull.
  cbn [st_get_last_revision table_storage] in Hpull. rewrite storage_bind in Hpull.
  cbn [fst snd] in Hpull. rewrite set_tables_same in Hpull. unfold se_bind at 1 in Hpull.
  set (since := get_last_revision (sw_tables w)) in *.
  pose proof (list_changes_adds adds since w) as Had.
  destruct (net_list_changes since w) as [w1 res] eqn:Hl. simpl in Had.
  destruct (pulled_adds w w1 Ht Had) as (Hok1 & Hp1 & Hst1 & Hin1).
  destruct res as [records|e].
  2: { injection Hpull as <- <-. destruct Hp1. split_and!; [done..|]. by intros n. }
  unfold se_bind at 1, converted, se_lift in Hpull.
  destruct (try_records _) as [db|e] eqn:Hdb; cbn [map_err] in Hpull.
  2: { injection Hpull as <- <-. destruct Hp1. split_and!; [done..|]. by intros n. }
  destruct (insert_fetched_ok records (sw_tables w1) Hok1 db Hdb) as (Hok2 & Hsz2 & Hhas2).
  assert (∃ w2, (if bool_decide (length (sort_by (λ a b, revision a <=? revision b) records) = O)
      then se_ret () else storage (st_insert_incoming_records db)) w1 = (w2, Ok ()) ∧
      sw_tables w2 = insert_incoming_records db (sw_tables w1)) as (w2 & Hins & Hw2).
  { case_bool_decide as Hz; [|by eexists]. exists w1. split; [done|].
    rewrite (sort_by_perm _) in Hz. apply nil_length_inv in Hz as ->.
    injection Hdb as <-. by destruct (sw_tables w1). }
  unfold se_bind at 1 in Hpull. rewrite Hins in Hpull. unfold se_bind in Hpull.
  pose proof (pull_local_spec adds w2) as Hlocal. cbv zeta in Hlocal. rewrite Hw2 in Hlocal.
  specialize (Hlocal Hok2). specialize (Hsmall' _ _ _ Hl). rewrite <- Hin1 in Hsmall'.
  specialize (Hlocal ltac:(lia)).
  destruct (pull_sync_once_local w2) as [w3 res]. destruct Hlocal as (Hok3 & Hp3 & Hend).
  assert (w' = w3 ∧ ∀ n, r = Ok n → ∃ m, res = Ok m) as [-> Hr].
  { destruct res; injection Hpull as <- <-; (split; [done|]); intros n; [by eexists|done]. }
  destruct (pu_outgoing _ _ Hp1) as [a1 Ho1]. destruct (pu_outgoing _ _ Hp3) as [a3 Ho3].
  pose proof (pu_cursor _ _ Hp1). pose proof (pu_cursor _ _ Hp3). simpl in *.
  split_and!; [done| | | |].
  - intros k s Hs. apply (pu_mono _ _ Hp3 k s). simpl. by rewrite Hst1.
  - unfold get_last_revision in *. lia.
  - exists (a1 ++ a3). by rewrite Ho3, Ho1, app_assoc.
  - intros n Hn. destruct (Hr n Hn) as [m ->]. exists w1, records. split; [done|].
    intros rec Hrec. destruct (Hend m eq_refl) as [Hcov _].
    destruct (Hcov _ _ (Hhas2 rec Hrec)) as (s & Hs & Hle).
    destruct (tk_state _ Hok3 _ _ Hs) as [_ Hc]. split; [unfold get_last_revision; lia|].
    by exists s.
Qed.
End world.
Arguments SyncWorld N : clear implicits.
Arguments on_tables {N A}.

(** ** Witnesses *)

#[local] Existing Instance canonical_order.

(** Values that are their own text. *)
#[export] Instance text_json : Json := {|
  Value := string; Value_eq_dec := _;
  json_from_str s := Ok s; json_to_string v := Ok v
|}.

(** A remote service that remembers every revision it gave out, newest last, with its
    predecessor. *)
Definition ExServer : Type := list (RecordId * Z * (Z * gmap string string)).

Definition ex_top (s : ExServer) : Z := foldr (λ e m, Z.max e.1.2 m) 0 s.

Definition ex_current (s : ExServer) (k : RecordId) : Z :=
  foldl (λ m e, if bool_decide (e.1.1 = k) then e.1.2 else m) 0 s.

Definition ex_version : SchemaVersion := SchemaVersion_new 1 0 0.

(** The changes since a revision; the handler applies every record. *)
#[export] Instance ex_remote : SyncRemote (SyncWorld ExServer) := {|
  any_error := string;
  any_storage e := match e with
                   | Implementation m | InitializationError m | Serialization m => m
                   end;
  any_text m := m;
  net_set_record r w :=
    if revision r =? ex_current (sw_net w) (rec_id r) then
      let new := ex_top (sw_net w) + 1 in
      ({| sw_tables := sw_tables w;
          sw_net := sw_net w ++ [(rec_id r, new, (revision r, data r))] |},
       Ok {| reply_status := SetSuccess; new_revision := new |})
    else (w, Ok {| reply_status := SetConflict; new_revision := 0 |});
  net_list_changes since w :=
    (w, Ok ((λ e, {| rec_id := e.1.1; revision := e.1.2; schema_version := ex_version;
                     data := e.2.2 |}) <$> List.filter (λ e, since <? e.1.2) (sw_net w)));
  on_incoming_change _ w := (w, Ok Completed);
  on_replay_outgoing_change _ w := (w, Ok ());
  on_sync_completed _ _ w := (w, Ok ());
  on_sync_failed w := w;
  sync_clock w := (w, 0);
  get_backoff _ := None;
  set_backoff _ w := w;
  scale_backoff d := d + d / 2
|}.

Lemma ex_remote_adds : remote_adds_only (N := ExServer).
Proof.
  split; intros; exists []; [|done|done]. simpl. by case_match.
Qed.

Definition ex_id (s : string) : RecordId := {| rtype := "Contact"; data_id := s |}.

(** Two remote records, one with two revisions; this device knows none of them and
    has two changes of the second one in its queue. *)
Definition ex_server : ExServer :=
  [(ex_id "a", 1, (0, {[ "name" := "x" ]})); (ex_id "b", 2, (0, {[ "name" := "y" ]}));
   (ex_id "a", 3, (1, {[ "name" := "z" ]}))].

Definition ex_change (k field v : string) : UnversionedRecordChange string string :=
  {| uc_id := ex_id k; uc_schema_version := "1.0.0"; uc_updated_fields := {[ field := v ]} |}.

Definition ex_tables : SyncTables :=
  run_table_commands [AddOutgoing (ex_change "b" "age" "1"); AddOutgoing (ex_change "b" "age" "2");
    AddOutgoing (ex_change "c" "age" "3")] SyncTables_new.

Definition ex_sync_world : SyncWorld ExServer := {| sw_tables := ex_tables; sw_net := ex_server |}.

(** The same world after a pull. *)
Definition ex_pulled : SyncWorld ExServer := (pull_sync_once ex_sync_world).1.

Lemma ex_incoming_small : incoming_small ex_sync_world.
Proof.
  split; [by vm_compute|]. intros since w1 records Hl. injection Hl as <- <-. rewrite length_fmap.
  simpl. repeat case_match; vm_compute; congruence.
Qed.

Lemma ex_tables_ok : tables_ok (sw_tables ex_sync_world).
Proof. apply ok_run_commands, tables_ok_new. Qed.

(** What the pull did to the tables. *)
Lemma ex_pulled_tables :
  let r k rev v :=
    {| rec_id := ex_id k; revision := rev; schema_version := "1.0.0"; data := {[ "name" := v ]} |} in
  let rs := [r "a" 1 "x"; r "b" 2 "y"; r "a" 3 "z"] in
  sw_tables ex_pulled =
  run_table_commands ([InsertIncoming rs] ++
    mjoin ((λ x, [UpdateFromIncoming x; DeleteIncoming x]) <$> rs)) ex_tables.
Proof. by vm_compute. Qed.

Lemma ex_pulled_ok : tables_ok (sw_tables ex_pulled).
Proof. rewrite ex_pulled_tables. apply ok_run_commands, ex_tables_ok. Qed.

Lemma pull_never_steps_back_witness :
  (pull_sync_once ex_sync_world).2 = Ok (Some 3) ∧
  get_last_revision (sw_tables ex_pulled) = 3 ∧
  tables_ok (sw_tables ex_pulled).
Proof.
  split; [by vm_compute|]. split; [by vm_compute|].
  apply (pull_never_steps_back ex_sync_world ex_pulled (pull_sync_once ex_sync_world).2).
  - exact ex_remote_adds.
  - exact ex_tables_ok.
  - exact ex_incoming_small.
  - by vm_compute.
Defined.
