(* ===== verification/SyncPush.v ===== *)
(** What a push of the synchronisation does: which queued changes it completes and
    what becomes of the remote records ([push_sync_once] of
    [crates/breez-sdk/common/src/sync/background.rs]). *)
From S2P Require Import Prelude SyncModel SyncTables SyncProcessor SyncProps.

(** ** The remote records

    The revisions the remote service has given out: for each its predecessor and its
    fields.  Revision 0 is the record before it exists.  [set_record] replies with a
    revision whose predecessor is the one the client sent (a record that moved on is
    a conflict); revisions are never changed. *)
Class RemoteHistory {json : Json} (N : Type) := {
  hist : N → RecordId → Z → option (Z * gmap string Value)
}.

Section push.
Context {json : Json} {laws : JsonLaws} {ho : HashOrder} {N : Type}.
Context {net : SyncRemote (SyncWorld N)} {hi : RemoteHistory N}.

Definition grows (n n' : N) : Prop :=
  ∀ k rev e, hist n k rev = Some e → hist n' k rev = Some e.

Record remote_keeps_history : Prop := {
  hist_zero n k : hist n k 0 = Some (0, ∅);
  set_record_grows r w : grows (sw_net w) (sw_net (net_set_record r w).1);
  set_record_success r w w' reply :
    net_set_record r w = (w', Ok reply) → reply_status reply = SetSuccess →
    hist (sw_net w') (rec_id r) (new_revision reply) = Some (revision r, data r)
}.

(** A stored record that reads as a revision the service gave out. *)
Definition known (n : N) (k : RecordId) (s : StoredRecord) : Prop :=
  ∀ m, Record_try_from_storage s = Ok m → ∃ p, hist n k (revision s) = Some (p, data m).

(** Every record state is a revision the service gave out. *)
Definition synced (w : SyncWorld N) : Prop :=
  ∀ k s, sync_state (sw_tables w) !! k = Some s → known (sw_net w) k s.

(** The change was applied on top of the revision it found: the service has a revision
    with the change's fields over its predecessor's, and all other fields kept. *)
Definition applied_on_top (n : N) (c : StoredChange) : Prop :=
  ∃ m new prev pp d,
    RecordChange_try_from_storage c = Ok m ∧
    hist n (rc_id c) new = Some (prev, updated_fields m ∪ d) ∧
    hist n (rc_id c) prev = Some (pp, d).

Definition parent_known (n : N) (c : StoredOutgoing) : Prop :=
  ∀ s, parent c = Some s → known n (rc_id (change c)) s.

#[export] Instance grows_preorder : PreOrder grows.
Proof. split; [by intros n k|]. intros n1 n2 n3 H1 H2 k rev e He. by apply H2, H1. Qed.

Lemma known_grows n n' k s : grows n n' → known n k s → known n' k s.
Proof. intros Hg Hk m Hm. destruct (Hk m Hm) as [p Hp]. exists p. by apply Hg. Qed.

Lemma applied_grows n n' c : grows n n' → applied_on_top n c → applied_on_top n' c.
Proof.
  intros Hg (m & new & prev & pp & d & ? & ? & ?). exists m, new, prev, pp, d.
  split_and!; [done|by apply Hg..].
Qed.

(** ** The queue *)

(** The rows of [l] other than those of [pushed]. *)
Definition remaining (pushed l : list StoredChange) : list StoredChange :=
  List.filter (λ c, negb (existsb (λ d, is_row (rc_id d) (local_revision d) c) pushed)) l.

Record pushed_rel (pushed : list StoredChange) (t t' : SyncTables) : Prop := {
  pr_ok : tables_ok t';
  pr_incoming : sync_incoming t' = sync_incoming t;
  pr_queue : ∃ added, sync_outgoing t' = remaining pushed (sync_outgoing t) ++ added
}.

Lemma remaining_nil l : remaining [] l = l.
Proof. unfold remaining. apply bfilter_id, Forall_true. done. Qed.

Lemma remaining_app p1 p2 l : remaining p2 (remaining p1 l) = remaining (p1 ++ p2) l.
Proof.
  unfold remaining. induction l as [|c l IH]; simpl; [done|].
  rewrite existsb_app, negb_orb. destruct (existsb _ p1); simpl; [done|].
  destruct (existsb _ p2); simpl; by rewrite ?IH.
Qed.

Lemma pushed_rel_trans p1 p2 t1 t2 t3 :
  pushed_rel p1 t1 t2 → pushed_rel p2 t2 t3 → pushed_rel (p1 ++ p2) t1 t3.
Proof.
  intros [o1 i1 [a1 q1]] [o2 i2 [a2 q2]]. split; [done|congruence|].
  exists (remaining p2 a1 ++ a2). rewrite q2, q1, app_assoc. f_equal.
  unfold remaining at 1. rewrite bfilter_app. f_equal. apply remaining_app.
Qed.

Lemma pushed_rel_refl t : tables_ok t → pushed_rel [] t t.
Proof.
  intros Ht. split; [done..|]. exists []. by rewrite remaining_nil, app_nil_r.
Qed.

Lemma pushed_rel_adds (w w' : SyncWorld N) :
  tables_ok (sw_tables w) → adds_only w w' → pushed_rel [] (sw_tables w) (sw_tables w').
Proof.
  intros Ht Ha. destruct (pulled_adds w w' Ht Ha) as (Hok & Hp & _ & Hi).
  destruct (pu_outgoing _ _ Hp) as [added Ho]. split; [done|done|].
  exists added. by rewrite remaining_nil.
Qed.

Lemma pushed_rel_complete r c t :
  tables_ok t → rec_id r = rc_id c →
  pushed_rel [c] t (complete_outgoing_sync r (local_revision c) t).
Proof.
  intros Ht Hr. split; [by apply ok_complete_outgoing|done|].
  exists []. simpl. rewrite app_nil_r, Hr. unfold remaining. simpl.
  apply List.filter_ext. intros x. by rewrite orb_false_r.
Qed.

(** ** One change *)

Lemma RecordChange_try_ok c m :
  RecordChange_try_from_storage c = Ok m → rc_id m = rc_id c ∧ local_revision m = local_revision c.
Proof.
  unfold RecordChange_try_from_storage. destruct (SchemaVersion_from_str _); [|done]. simpl.
  destruct (try_fields _ _); [|done]. by intros [= <-].
Qed.

Lemma OutgoingChange_try_ok c m :
  OutgoingChange_try_from_storage c = Ok m →
  RecordChange_try_from_storage (change c) = Ok (change m) ∧ try_parent (parent c) = Ok (parent m).
Proof.
  unfold OutgoingChange_try_from_storage.
  destruct (RecordChange_try_from_storage (change c)); [|done]. simpl.
  destruct (try_parent (parent c)); [|done]. by intros [= <-].
Qed.

(** The parent's fields, as the merge starts from them. *)
Lemma parent_history (keeps : remote_keeps_history) n c m :
  parent_known n c → try_parent (parent c) = Ok (parent m) → rc_id (change m) = rc_id (change c) →
  ∃ p d, hist n (rc_id (change c)) (revision (merge m)) = Some (p, d) ∧
         data (merge m) = updated_fields (change m) ∪ d.
Proof.
  intros Hk Hp Hid. rewrite merge_data. unfold merge. simpl.
  destruct (parent c) as [s|] eqn:Hpc; simpl in Hp.
  - destruct (Record_try_from_storage s) as [pm|e] eqn:Hs; [|done]. injection Hp as <-. simpl.
    destruct (Hk s Hpc pm Hs) as [p Hh].
    apply Record_try_from_storage_ok in Hs as (_ & -> & _). by exists p, (data pm).
  - injection Hp as <-. exists 0, ∅. split; [|done]. simpl. apply (hist_zero keeps).
Qed.

Definition push_ok (pushed : list StoredOutgoing) (w w' : SyncWorld N) : Prop :=
  pushed_rel (change <$> pushed) (sw_tables w) (sw_tables w') ∧ synced w' ∧
  grows (sw_net w) (sw_net w') ∧ Forall (applied_on_top (sw_net w') ∘ change) pushed.

Lemma push_ok_trans p1 p2 w1 w2 w3 : push_ok p1 w1 w2 → push_ok p2 w2 w3 → push_ok (p1 ++ p2) w1 w3.
Proof.
  intros (Hr1 & _ & Hg1 & Ha1) (Hr2 & Hs2 & Hg2 & Ha2). split_and!.
  - rewrite fmap_app. by eapply pushed_rel_trans.
  - done.
  - by etrans.
  - apply Forall_app. split; [|done]. eapply Forall_impl; [done|].
    intros c. simpl. by apply applied_grows.
Qed.

Lemma push_ok_refl w : tables_ok (sw_tables w) → synced w → push_ok [] w w.
Proof. intros Ht Hs. split_and!; [by apply pushed_rel_refl|done|done|constructor]. Qed.

(** The call of the service, whatever it answers. *)
Lemma set_record_keeps (adds : remote_adds_only) (keeps : remote_keeps_history) r w :
  tables_ok (sw_tables w) → synced w → push_ok [] w (net_set_record r w).1.
Proof.
  intros Ht Hs. pose proof (set_record_adds adds r w) as Had.
  pose proof (set_record_grows keeps r w) as Hg.
  destruct (pulled_adds w _ Ht Had) as (_ & _ & Hst & _). split_and!.
  - by apply pushed_rel_adds.
  - intros k s. rewrite Hst. intros Hk. eapply known_grows; [done|]. by apply Hs.
  - done.
  - constructor.
Qed.

Lemma push_record_spec (adds : remote_adds_only) (keeps : remote_keeps_history) c m w :
  OutgoingChange_try_from_storage c = Ok m → tables_ok (sw_tables w) → synced w →
  parent_known (sw_net w) c →
  let '(w', r) := push_sync_record m w in push_ok (if is_ok r then [c] else []) w w'.
Proof.
  intros Hc Ht Hs Hpk. apply OutgoingChange_try_ok in Hc as [Hm Hp].
  pose proof (RecordChange_try_ok _ _ Hm) as [Hid Hlr].
  destruct (parent_history keeps _ c m Hpk Hp Hid) as (pp & d & Hh & Hd).
  unfold push_sync_record, se_bind at 1.
  pose proof (set_record_keeps adds keeps (merge m) w Ht Hs) as Hset.
  pose proof (set_record_success keeps (merge m) w) as Hsuc.
  destruct (net_set_record (merge m) w) as [w1 [reply|e]]; [|exact Hset]. simpl in Hset.
  destruct (reply_status reply) eqn:Hst; [|exact Hset].
  specialize (Hsuc w1 reply eq_refl Hst). simpl in Hsuc. rewrite Hid in Hsuc.
  unfold se_bind, converted, se_lift.
  destruct (Record_try_from_model _) as [s|e] eqn:Hstore; cbn [map_err]; [|exact Hset].
  cbn. change [c] with ([] ++ [c]). eapply push_ok_trans; [exact Hset|].
  pose proof (Record_try_from_model_ok _ _ Hstore) as (Hsid & Hsrev & _). simpl in Hsid, Hsrev.
  destruct Hset as (Hr1 & Hs1 & Hg1 & _). rewrite Hlr. split_and!.
  - apply pushed_rel_complete; [apply Hr1|]. simpl. congruence.
  - intros k s'. simpl. intros [[<- <-]|[_ Hk]]%lookup_insert_Some; [|by apply Hs1].
    intros m' Hm'. destruct (stored_record_reads_back _ _ _ Hstore Hm') as (_ & _ & Hdata).
    exists (revision (merge m)). rewrite Hsid, Hsrev, Hdata, Hid. exact Hsuc.
  - done.
  - constructor; [|done].
    exists (change m), (new_revision reply), (revision (merge m)), pp, d.
    split_and!; [done| |by apply Hg1]. simpl. rewrite Hsuc. f_equal. f_equal. exact Hd.
Qed.

(** ** The batch *)

(** The changes a push may send: those of records without a pending incoming change. *)
Definition pushable (pending_ids : gset RecordId) (changes : list StoredOutgoing)
    : list StoredOutgoing :=
  List.filter (λ c, negb (bool_decide (rc_id (change c) ∈ pending_ids))) changes.

Lemma push_changes_spec (adds : remote_adds_only) (keeps : remote_keeps_history)
    pending_ids changes count w :
  tables_ok (sw_tables w) → synced w → Forall (parent_known (sw_net w)) changes →
  0 ≤ count → count + Z.of_nat (length changes) ≤ umax 32 →
  let '(w', r) := push_changes pending_ids changes count w in
  ∃ n, push_ok (take n (pushable pending_ids changes)) w w' ∧
    match r with
    | Ok k => n = length (pushable pending_ids changes) ∧ k = count + Z.of_nat n
    | Err _ => (n < length (pushable pending_ids changes))%nat
    end.
Proof.
  revert count w. induction changes as [|c changes IH]; intros count w Ht Hs Hk H0 Hlen.
  { exists 0%nat. simpl. split; [by apply push_ok_refl|]. split; [done|lia]. }
  cbn [push_changes]. unfold pushable in *. simpl in *. apply Forall_cons in Hk as [Hkc Hk].
  case_bool_decide as Hpend; simpl.
  { apply (IH count); try done. lia. }
  unfold se_bind at 1, converted, se_lift.
  destruct (OutgoingChange_try_from_storage c) as [m|e] eqn:Hc; cbn [map_err].
  2: { exists 0%nat. simpl. split; [by apply push_ok_refl|lia]. }
  unfold se_bind. pose proof (push_record_spec adds keeps c m w Hc Ht Hs Hkc) as Hrec.
  destruct (push_sync_record m w) as [w1 [[]|e]]; simpl in Hrec.
  2: { exists 0%nat. simpl. split; [done|lia]. }
  pose proof Hrec as (Hr1 & Hs1 & Hg1 & _).
  unfold saturating_add. rewrite Z.min_l by (unfold umax in *; lia).
  specialize (IH (count + 1) w1 (pr_ok _ _ _ Hr1) Hs1).
  destruct (push_changes _ changes _ w1) as [w2 r].
  destruct IH as (n & Hok & Hres); [|lia|lia|].
  { eapply Forall_impl; [exact Hk|]. intros x Hx s Hps. eapply known_grows; [done|]. by apply Hx. }
  exists (S n). simpl. split; [by apply (push_ok_trans [c] _ w w1 w2)|].
  destruct r; [|lia]. destruct Hres as [-> ->]. split; [done|lia].
Qed.

(** Whether an incoming record is pending for [k]. *)
Definition has_incoming (t : SyncTables) (k : RecordId) : bool :=
  existsb (λ kv, bool_decide (kv.1.1 = k)) (map_to_list (sync_incoming t)).

(** The queued changes of records that have no pending incoming record. *)
Definition sendable (t : SyncTables) : list StoredChange :=
  List.filter (λ c, negb (has_incoming t (rc_id c))) (sync_outgoing t).

Lemma pending_ids_spec t k :
  tables_ok t → Z.of_nat (size (sync_incoming t)) ≤ umax 32 →
  bool_decide (k ∈ (list_to_set ((λ r, rec_id (new_state r)) <$>
    get_incoming_records (umax 32) t) : gset RecordId)) = has_incoming t k.
Proof.
  intros Ht Hs. apply Bool.eq_iff_eq_true. rewrite bool_decide_eq_true. unfold has_incoming.
  rewrite existsb_elem, elem_of_list_to_set, get_incoming_all by done.
  rewrite <- list_fmap_compose, list_elem_of_fmap. unfold sorted_incoming. split.
  - intros (r & -> & Hr). rewrite (sort_by_perm _) in Hr. apply elem_of_hm_values in Hr as [k' Hk'].
    exists (k', r). split; [by apply elem_of_map_to_list|]. apply bool_decide_eq_true.
    by rewrite (tk_incoming _ Ht _ _ Hk').
  - intros ([k' r] & Hkr & Hk'). apply elem_of_map_to_list in Hkr. apply bool_decide_eq_true in Hk'.
    exists r. split; [|rewrite (sort_by_perm _); apply elem_of_hm_values; by eexists].
    simpl in *. by rewrite (tk_incoming _ Ht _ _ Hkr) in Hk'.
Qed.

Lemma pushable_sendable t :
  tables_ok t → Z.of_nat (size (sync_incoming t)) ≤ umax 32 →
  pushable (list_to_set ((λ r, rec_id (new_state r)) <$> get_incoming_records (umax 32) t))
    (join_state t <$> sync_outgoing t) = join_state t <$> sendable t.
Proof.
  intros Ht Hs. unfold pushable, sendable. induction (sync_outgoing t) as [|c l IH]; [done|].
  cbn [fmap list_fmap List.filter]. cbn [join_state change]. rewrite pending_ids_spec by done.
  destruct (has_incoming t (rc_id c)); simpl; [done|]. f_equal. done.
Qed.

(** C8: what a push does, whatever the service answers.  It completes a prefix of the
    queued changes of records without a pending incoming change (all of them when it
    succeeds, not all when it fails); every other change stays in the queue in order,
    and the incoming records are untouched.  No update is lost: each change it
    completed was applied on top of the revision it found, also when several changes
    of one record were read from the queue with the same parent. *)
Theorem push_sync_once_outcome w w' r :
  remote_adds_only → remote_keeps_history → tables_ok (sw_tables w) → synced w →
  Z.of_nat (length (sync_outgoing (sw_tables w))) ≤ umax 32 →
  Z.of_nat (size (sync_incoming (sw_tables w))) ≤ umax 32 →
  push_sync_once w = (w', r) →
  ∃ n : nat,
    let pushed := take n (sendable (sw_tables w)) in
    match r with
    | Ok None => sendable (sw_tables w) = []
    | Ok (Some k) => pushed = sendable (sw_tables w) ∧ k = Z.of_nat (length pushed) ∧ 0 < k
    | Err _ => (n < length (sendable (sw_tables w)))%nat
    end ∧
    (∃ added, sync_outgoing (sw_tables w') = remaining pushed (sync_outgoing (sw_tables w)) ++ added) ∧
    sync_incoming (sw_tables w') = sync_incoming (sw_tables w) ∧
    Forall (applied_on_top (sw_net w')) pushed ∧ tables_ok (sw_tables w') ∧ synced w'.
Proof.
  intros adds keeps Ht Hs Hq Hi Hpush. unfold push_sync_once in Hpush.
  cbn [st_get_pending_outgoing_changes table_storage] in Hpush. rewrite storage_bind in Hpush.
  cbn [fst snd] in Hpush. rewrite set_tables_same, pending_queue in Hpush by done.
  case_bool_decide as Hempty.
  { injection Hpush as <- <-. exists 0%nat. apply fmap_nil_inv in Hempty.
    unfold sendable. rewrite Hempty. split_and!; try done. by exists []. }
  unfold push_sync_batch in Hpush. unfold se_bind at 1 in Hpush.
  cbn [st_get_incoming_records table_storage] in Hpush. rewrite storage_bind in Hpush.
  cbn [fst snd] in Hpush. rewrite set_tables_same in Hpush.
  pose proof (push_changes_spec adds keeps
    (list_to_set ((λ r, rec_id (new_state r)) <$> get_incoming_records (umax 32) (sw_tables w)))
    (join_state (sw_tables w) <$> sync_outgoing (sw_tables w)) 0 w Ht Hs) as Hspec.
  destruct (push_changes _ _ 0 w) as [w1 r1]. rewrite pushable_sendable in Hspec by done.
  destruct Hspec as (n & Hok & Hres).
  { apply Forall_fmap, Forall_true. intros c s Hps. by apply Hs. }
  { done. }
  { rewrite length_fmap. lia. }
  exists n. destruct Hok as (Hr & Hsy & _ & Ha).
  rewrite <- fmap_take in Hr, Ha. rewrite <- list_fmap_compose in Hr.
  rewrite list_fmap_id in Hr. apply Forall_fmap in Ha.
  rewrite <- list_fmap_compose, list_fmap_id in Ha. rewrite length_fmap in Hres.
  assert (w' = w1) as -> by (by destruct r1; injection Hpush).
  split; [|split_and!; [apply Hr|apply Hr|exact Ha|apply Hr|done]].
  destruct r1 as [k|e]; injection Hpush as <-; [|done]. destruct Hres as [-> ->].
  rewrite firstn_all, Z.add_0_l. destruct (Z.eqb_spec (Z.of_nat (length (sendable (sw_tables w)))) 0).
  - apply nil_length_inv. lia.
  - split_and!; [done|done|lia].
Qed.
End push.

(** ** Witness *)

#[local] Existing Instance canonical_order.

#[export] Instance text_json_laws : JsonLaws (H := text_json).
Proof. split. intros v s v' [= <-] [= <-]. done. Qed.

Definition ex_lookup (s : ExServer) (k : RecordId) (rev : Z) : option (Z * gmap string string) :=
  snd <$> List.find (λ e, bool_decide (e.1 = (k, rev))) s.

#[export] Instance ex_history : RemoteHistory ExServer := {|
  hist s k rev := if rev =? 0 then Some (0, ∅) else ex_lookup s k rev
|}.

Lemma ex_top_ge s e : e ∈ s → e.1.2 ≤ ex_top s.
Proof.
  intros He. induction s as [|x s IH]; [by apply elem_of_nil in He|]. simpl.
  apply elem_of_cons in He as [->|He]; [lia|]. specialize (IH He). lia.
Qed.

Lemma ex_top_nonneg s : 0 ≤ ex_top s.
Proof. induction s; simpl; lia. Qed.

Lemma find_app_Some {A} (f : A → bool) l1 l2 x :
  List.find f l1 = Some x → List.find f (l1 ++ l2) = Some x.
Proof. induction l1 as [|y l1 IH]; simpl; [done|]. by case_match. Qed.

Lemma find_app_None {A} (f : A → bool) l1 l2 :
  List.find f l1 = None → List.find f (l1 ++ l2) = List.find f l2.
Proof. induction l1 as [|y l1 IH]; simpl; [done|]. by case_match. Qed.

Lemma ex_remote_keeps : remote_keeps_history (N := ExServer).
Proof.
  split; simpl.
  - done.
  - intros r w k rev e. destruct (rev =? 0) eqn:Hz; simpl; rewrite Hz; [done|].
    destruct (revision r =? _); simpl; [|done].
    unfold ex_lookup. intros (x & Hx & ->)%fmap_Some. by rewrite (find_app_Some _ _ _ _ Hx).
  - intros r w w' reply. case_match; [|by intros [= <- <-] [=]]. intros [= <- <-] _. simpl.
    pose proof (ex_top_nonneg (sw_net w)). rewrite (proj2 (Z.eqb_neq _ 0)) by lia.
    unfold ex_lookup. rewrite find_app_None.
    + simpl. rewrite bool_decide_eq_true_2 by done. done.
    + apply find_None_elem. intros x Hx. apply bool_decide_eq_false. intros Heq.
      pose proof (ex_top_ge _ _ Hx) as Hle. rewrite Heq in Hle. simpl in Hle. lia.
Qed.

(** Deciding [synced] for this service. *)
Definition ex_known (n : ExServer) (k : RecordId) (s : StoredRecord) : bool :=
  match Record_try_from_storage s, hist n k (revision s) with
  | Ok m, Some (p, d) => bool_decide (d = (data m : gmap string string))
  | Ok _, None => false
  | Err _, _ => true
  end.

Lemma ex_synced_check w :
  forallb (λ ks, ex_known (sw_net w) ks.1 ks.2) (map_to_list (sync_state (sw_tables w))) = true →
  synced w.
Proof.
  intros Hall k s Hk m Hm. apply elem_of_map_to_list, list_elem_of_In in Hk.
  pose proof (proj1 (forallb_forall _ _) Hall _ Hk) as Hc. unfold ex_known in Hc. simpl fst in Hc.
  simpl snd in Hc. rewrite Hm in Hc. destruct (hist _ k (revision s)) as [[p d]|]; [|done].
  apply bool_decide_eq_true in Hc as ->. by exists p.
Qed.

Lemma ex_pulled_synced : synced ex_pulled.
Proof. apply ex_synced_check. by vm_compute. Qed.

(** Two changes of one record: the first is pushed, the second is a conflict for now
    (its parent was read before the first push); nothing is lost. *)
Lemma push_sync_once_outcome_witness :
  (push_sync_once ex_pulled).2 = Err "Conflict when trying to push outgoing change" ∧
  tables_ok (sw_tables (push_sync_once ex_pulled).1) ∧ synced (push_sync_once ex_pulled).1.
Proof.
  split; [by vm_compute|].
  destruct (push_sync_once_outcome ex_pulled (push_sync_once ex_pulled).1 (push_sync_once ex_pulled).2)
    as (n & _ & _ & _ & _ & Hok & Hsy).
  - exact ex_remote_adds.
  - exact ex_remote_keeps.
  - exact ex_pulled_ok.
  - exact ex_pulled_synced.
  - by vm_compute.
  - by vm_compute.
  - by vm_compute.
  - by split.
Defined.
