(* ===== verification/SyncOverlay.v ===== *)
(** What the record handler is shown and when a failed synchronisation is tried
    again ([crates/breez-sdk/common/src/sync/background.rs]). *)
From S2P Require Import Prelude SyncModel SyncTables SyncProcessor SyncProps.

(** ** The overlay of pending changes *)

Section overlay.
Context {json : Json} {ho : HashOrder}.

Lemma overlay_change_union d c fields :
  try_fields json_from_str (updated_fields c) = Ok fields → overlay_change d c = fields ∪ d.
Proof.
  intros Hf. unfold overlay_change.
  assert (∀ l l', try_entries json_from_str l = Ok l' →
    ∀ d, foldl (λ d '(k, v), match json_from_str v with
                        | Ok value => <[k := value]> d
                        | Err _ => d
                        end) d l = insert_all fst snd l' d) as Hfold.
  { clear. induction l as [|[k v] l IH]; intros l'; simpl; [by intros [= <-]|].
    destruct (json_from_str v) as [value|e]; [|done]. simpl.
    destruct (try_entries json_from_str l) as [rest|e] eqn:Hr; [|done]. simpl.
    intros [= <-] d. exact (IH rest eq_refl _). }
  unfold try_fields in Hf. destruct (try_entries _ _) as [l'|e] eqn:Hl; [|done].
  injection Hf as <-. rewrite (Hfold _ _ Hl).
  apply try_entries_ok in Hl as [Hk _].
  assert (NoDup l'.*1) as Hnd by (rewrite Hk; apply NoDup_hm_keys).
  apply map_eq. intros k. rewrite lookup_union.
  destruct (insert_all fst snd l' d !! k) as [v|] eqn:Hi.
  - apply lookup_insert_all_Some in Hi as [([k' v'] & Hin & <- & ->)|[Hout Hd]].
    + simpl. rewrite (elem_of_list_to_map_1 l' k' v' Hnd Hin). by destruct (d !! k').
    + rewrite not_elem_of_list_to_map_1 by done. by rewrite Hd.
  - destruct (decide (k ∈ l'.*1)) as [Hin|Hout].
    + destruct (lookup_insert_all_in fst snd l' d k Hin) as (x & _ & _ & ?). congruence.
    + rewrite lookup_insert_all_ne in Hi by done. by rewrite not_elem_of_list_to_map_1, Hi.
Qed.

(** The changes of one record, in the order of the queue. *)
Definition changes_of (k : RecordId) (l : list StoredChange) : list StoredChange :=
  List.filter (λ c, bool_decide (rc_id c = k)) l.

Lemma group_lookup (l : list StoredOutgoing) (m : gmap RecordId (list StoredChange)) k :
  foldl (λ m o, <[rc_id (change o) := default [] (m !! rc_id (change o)) ++ [change o]]> m) m l !! k =
  match changes_of k (change <$> l) with
  | [] => m !! k
  | cs => Some (default [] (m !! k) ++ cs)
  end.
Proof.
  revert m. induction l as [|o l IH]; intros m; [done|]. cbn [foldl fmap list_fmap]. rewrite IH.
  unfold changes_of. cbn [List.filter]. fold (changes_of k (change <$> l)).
  case_bool_decide as Hk.
  - rewrite Hk, lookup_insert_eq. simpl. destruct (changes_of k (change <$> l)); [done|].
    by rewrite <- app_assoc.
  - rewrite lookup_insert_ne by done. done.
Qed.

Lemma outgoing_by_record_lookup t k :
  tables_ok t → Z.of_nat (length (sync_outgoing t)) ≤ umax 32 →
  default [] (outgoing_by_record (get_pending_outgoing_changes (umax 32) t) !! k) =
  changes_of k (sync_outgoing t).
Proof.
  intros Ht Hq. rewrite pending_queue by done. unfold outgoing_by_record.
  rewrite lookup_fmap, group_lookup, <- list_fmap_compose, list_fmap_id.
  destruct (changes_of k (sync_outgoing t)) as [|c cs] eqn:Hc; [by rewrite lookup_empty|].
  rewrite lookup_empty. cbn [default from_option app fmap option_fmap option_map].
  rewrite <- Hc. apply queue_ok_sorted, queue_ok_filter, Ht.
Qed.

(** A pending change pushed on top of a record. *)
Definition push_on (p : ModelRecord) (c : ModelChange) : ModelRecord :=
  merge {| change := c; parent := Some p |}.

Lemma overlay_chain cs ms (r : ModelRecord) :
  Forall2 (λ c m, RecordChange_try_from_storage c = Ok m) cs ms →
  foldl overlay_change (data r) cs = data (foldl push_on r ms).
Proof.
  intros Hcs. revert r. induction Hcs as [|c m cs ms Hc _ IH]; intros r; [done|]. cbn [foldl].
  rewrite <- IH. f_equal. unfold RecordChange_try_from_storage in Hc.
  destruct (SchemaVersion_from_str _); [|done]. simpl in Hc.
  destruct (try_fields json_from_str (updated_fields c)) as [fields|e] eqn:Hf; [|done].
  injection Hc as <-. rewrite (overlay_change_union _ _ _ Hf).
  unfold push_on. by rewrite merge_data.
Qed.

(** the handler is shown the future: for an incoming record with changes queued
    locally, it gets the fields the record will have once those changes are pushed,
    one after the other, on top of the incoming revision. *)
Theorem handler_sees_future_state t i m ms :
  tables_ok t → Z.of_nat (length (sync_outgoing t)) ≤ umax 32 →
  Forall2 (λ c m, RecordChange_try_from_storage c = Ok m)
    (changes_of (rec_id (new_state i)) (sync_outgoing t)) ms →
  merged_incoming (outgoing_by_record (get_pending_outgoing_changes (umax 32) t)) i = Ok m →
  ∃ r, Record_try_from_storage (new_state i) = Ok r ∧
    data (new_state m) = data (foldl push_on r ms) ∧
    revision (new_state m) = revision (new_state i) ∧ rec_id (new_state m) = rec_id (new_state i).
Proof.
  intros Ht Hq Hms Hm. unfold merged_incoming, IncomingChange_try_from_storage in Hm.
  destruct (Record_try_from_storage (new_state i)) as [r|e] eqn:Hr; [|done]. simpl in Hm.
  destruct (try_parent (old_state i)) as [o|e]; [|done]. simpl in Hm. injection Hm as <-.
  exists r. split; [done|]. pose proof (Record_try_from_storage_ok _ _ Hr) as (Hid & Hrev & _).
  pose proof (outgoing_by_record_lookup t (rec_id (new_state i)) Ht Hq) as Hl.
  rewrite <- (overlay_chain _ _ r Hms), <- Hl.
  by destruct (outgoing_by_record _ !! _).
Qed.

(** The loop applies an incoming record also when the record's state is newer; its
    fields then replace the newer ones in the handler's tables. *)
Lemma old_revision_is_applied {W} {st : SyncStorageOps W} {net : SyncRemote W} i m w :
  first_time_seen i = false → merged_incoming ∅ i = Ok m →
  process_incoming ∅ [i] 0 w =
  match on_incoming_change m w with
  | (w, Ok Completed) =>
      match storage (st_delete_incoming_record (new_state i)) w with
      | (w, Ok _) => (w, Ok 1)
      | (w, Err e) => (w, Err e)
      end
  | (w, _) => (w, Ok 0)
  end.
Proof.
  intros Hf Hm. cbn [process_incoming]. rewrite Hf, Hm.
  unfold se_bind, se_try, converted, se_lift, se_ret. simpl.
  destruct (on_incoming_change m w) as [w1 [[|]|e]]; [|done|done].
  by destruct (storage _ w1) as [w2 [[]|e]].
Qed.
End overlay.

(** ** Back-off *)

(** When the timer fires. *)
Definition fires (h : BackoffHandle) : Z := started_at h + backoff_duration h.

Lemma new_backoff_spec existing now d :
  0 < d → (∀ e, existing = Some e → started_at e ≤ now) →
  match new_backoff existing now d with
  | Some h => started_at h = now ∧ fires h = now + d ∧
      ∀ e, existing = Some e → now < fires e → now + d ≤ fires e
  | None => ∃ e, existing = Some e ∧ now < fires e < now + d
  end.
Proof.
  intros Hd He. unfold new_backoff, fires, saturating_sub.
  destruct existing as [e|]; [|by split_and!]. specialize (He e eq_refl).
  destruct (Z.eqb_spec (Z.max 0 (backoff_duration e - Z.max 0 (now - started_at e))) 0);
    destruct (Z.ltb_spec (Z.max 0 (backoff_duration e - Z.max 0 (now - started_at e))) d);
    simpl; try (split_and!; [done|done|]; intros e' [= <-]; lia).
  exists e. split; [done|lia].
Qed.

Section backoff.
Context {json : Json} {ho : HashOrder} {W : Type}.
Context {st : SyncStorageOps W} {net : SyncRemote W}.

(** The timer's cell, and a clock that does not run backwards. *)
Record timer_laws : Prop := {
  get_set_backoff h w : get_backoff (set_backoff h w) = h;
  clock_keeps_backoff w w' now :
    sync_clock w = (w', now) → get_backoff w' = get_backoff w ∧
    ∀ h, get_backoff w = Some h → started_at h ≤ now
}.

(** A timer is running that fires within [d]. *)
Definition retry_within (d : Z) (w : W) : Prop :=
  ∃ w1 w2 now h, sync_clock w1 = (w2, now) ∧ get_backoff w = Some h ∧
    now < fires h ≤ now + d ∧ ∀ h', get_backoff w1 = Some h' → now < fires h' → fires h ≤ fires h'.

Lemma failed_attempt_retried (laws : timer_laws) d w :
  0 < d → (failed_attempt d w).2 = (None, None) ∧ retry_within d (failed_attempt d w).1.
Proof.
  intros Hd. split; [done|]. unfold failed_attempt, schedule_backoff. simpl.
  destruct (sync_clock (on_sync_failed w)) as [w1 now] eqn:Hc.
  destruct (clock_keeps_backoff laws _ _ _ Hc) as [Hg Hle].
  pose proof (new_backoff_spec (get_backoff w1) now d Hd) as Hspec. rewrite Hg in *.
  specialize (Hspec Hle). exists (on_sync_failed w), w1, now.
  destruct (new_backoff _ now d) as [h|].
  - exists h. destruct Hspec as (_ & Hf & Hmin). rewrite (get_set_backoff laws), Hf.
    split_and!; [done|done|lia|lia|done].
  - destruct Hspec as (e & He & ? & ?). exists e. rewrite Hg.
    split_and!; [done|done|lia|lia|]. intros h' Hh'. rewrite He in Hh'. injection Hh' as <-. lia.
Qed.

(** a failed synchronisation is always tried again: when a triggered push (or the
    pull before it) fails, a timer is left running that fires within a second, and
    after a failed retry one that fires within the scaled delay, never later than a
    timer that was already running; otherwise the queue was pushed. *)
Theorem failed_push_is_retried id pull_changed queued last_backoff w :
  timer_laws → (∀ d, 0 < d → 0 < scale_backoff d) → Forall (λ d, 0 < d) (last_backoff :: queued) →
  (let '(w', counts) := handle_push (Triggered id) pull_changed w in
   (∃ w1 c, push_sync_once w1 = (w', Ok c) ∧ counts.2 = c) ∨
   (counts = (None, None) ∧ retry_within ONE_SECOND w')) ∧
  (let '(w', counts) := handle_backoff queued last_backoff w in
   (∃ w1 c, push_sync_once w1 = (w', Ok c) ∧ counts.2 = c) ∨
   (counts = (None, None) ∧ retry_within (scale_backoff (foldl Z.min last_backoff queued)) w')).
Proof.
  intros laws Hscale Hpos.
  assert (0 < foldl Z.min last_backoff queued) as Hmin.
  { apply Forall_cons in Hpos as [H0 Hq]. clear -H0 Hq. revert last_backoff H0.
    induction Hq as [|d l Hd _ IH]; intros b Hb; simpl; [done|]. apply IH. lia. }
  specialize (Hscale _ Hmin). split.
  - unfold handle_push.
    destruct (if pull_changed then pull_sync_once w else (w, Ok None)) as [w1 [ci|e]].
    + destruct (push_sync_once w1) as [w2 [co|e]] eqn:Hp; [left; by exists w1, co|].
      right. by apply failed_attempt_retried.
    + right. by apply failed_attempt_retried.
  - unfold handle_backoff. destruct (pull_sync_once w) as [w1 [ci|e]].
    + destruct (push_sync_once w1) as [w2 [co|e]] eqn:Hp; [left; by exists w1, co|].
      right. by apply failed_attempt_retried.
    + right. by apply failed_attempt_retried.
Qed.
End backoff.

(** ** Witnesses *)

#[local] Existing Instance canonical_order.

(** A record of another device, for a record with two changes in the queue. *)
Definition ex_incoming : StoredIncoming :=
  {| new_state := {| rec_id := ex_id "b"; revision := 9; schema_version := "1.0.0";
                     data := {[ "name" := "new"; "age" := "0" ]} |};
     old_state := None |}.

Definition ex_merged : result ModelIncoming SyncStorageError :=
  merged_incoming (outgoing_by_record (get_pending_outgoing_changes (umax 32) ex_tables)) ex_incoming.

Definition ex_model_change (n : Z) (v : string) : ModelChange :=
  {| rc_id := ex_id "b"; rc_schema_version := ex_version; updated_fields := {[ "age" := v ]};
     local_revision := n |}.

Lemma handler_sees_future_state_witness :
  ∃ m r, ex_merged = Ok m ∧
    data (new_state m) = data (foldl push_on r [ex_model_change 1 "1"; ex_model_change 2 "2"]) ∧
    data (new_state m) !! "age" = Some ("2" : @Value text_json).
Proof.
  destruct ex_merged as [m|e] eqn:Hm; [|by vm_compute in Hm].
  destruct (handler_sees_future_state ex_tables ex_incoming m
    [ex_model_change 1 "1"; ex_model_change 2 "2"]) as (r & _ & Hd & _).
  - apply ex_tables_ok.
  - by vm_compute.
  - repeat constructor; by vm_compute.
  - exact Hm.
  - exists m, r. split_and!; [done|done|]. vm_compute in Hm. injection Hm as <-. by vm_compute.
Defined.

(** A service that is down; the world outside the tables is the timer and the clock. *)
#[local] Instance ex_down : SyncRemote (SyncWorld (option BackoffHandle * Z)) := {|
  any_error := string;
  any_storage _ := "storage";
  any_text m := m;
  net_set_record _ w := (w, Err "down");
  net_list_changes _ w := (w, Err "down");
  on_incoming_change _ w := (w, Ok Completed);
  on_replay_outgoing_change _ w := (w, Ok ());
  on_sync_completed _ _ w := (w, Ok ());
  on_sync_failed w := w;
  sync_clock w :=
    let now := match (sw_net w).1 with
               | Some h => Z.max (sw_net w).2 (started_at h)
               | None => (sw_net w).2
               end in
    ({| sw_tables := sw_tables w; sw_net := ((sw_net w).1, now) |}, now);
  get_backoff w := (sw_net w).1;
  set_backoff h w := {| sw_tables := sw_tables w; sw_net := (h, (sw_net w).2) |};
  scale_backoff d := d + d / 2
|}.

Definition ex_down_world : SyncWorld (option BackoffHandle * Z) :=
  {| sw_tables := ex_tables; sw_net := (None, 50) |}.

Lemma failed_push_is_retried_witness :
  get_backoff (handle_push (Triggered (ex_id "b")) false ex_down_world).1 =
    Some {| started_at := 50; backoff_duration := ONE_SECOND |} ∧
  let '(w', counts) := handle_push (Triggered (ex_id "b")) false ex_down_world in
  (∃ w1 c, push_sync_once w1 = (w', Ok c) ∧ counts.2 = c) ∨
  (counts = (None, None) ∧ retry_within ONE_SECOND w').
Proof.
  split; [by vm_compute|].
  apply (failed_push_is_retried (ex_id "b") false [] 1 ex_down_world).
  - split; [done|]. intros w0 w' now [= <- <-]. simpl. split; [done|].
    intros h Hh. rewrite Hh. lia.
  - simpl. intros d Hd. pose proof (Z.div_pos d 2). lia.
  - by repeat constructor.
Defined.
