(* ===== verification/ConversionQueue.v ===== *)
(** The conversion queue of the stable balance and its worker:
    [crates/breez-sdk/core/src/stable_balance/queue.rs].

    Each method runs under the queue's mutex.  A clock reading and whether the
    cache could be written are arguments; a failure to write is only logged. *)
From S2P Require Import Prelude.

(** ** Data *)

Inductive ConversionTask : Type :=
| PerReceive (payment_id : string)
| AutoConvert
| Deactivation (token_identifier : string).

Inductive PendingState : Type := Ready | Deferred.

#[export] Instance PendingState_eq_dec : EqDecision PendingState.
Proof. solve_decision. Defined.

#[export] Instance ConversionTask_eq_dec : EqDecision ConversionTask.
Proof. solve_decision. Defined.

(** [DEFERRED_TASK_TIMEOUT_SECS]. *)
Definition DEFERRED_TASK_TIMEOUT_SECS : Z := 120.

Record PendingConversion : Type := {
  payment_id : string;
  pc_state : PendingState;
  created_at : Z
}.

Inductive PerReceiveResult : Type := Done (converted : bool) | Retry.

Record ConversionQueueState : Type := {
  per_receive : list PendingConversion;
  pending_task : option ConversionTask
}.

(** The queue: its state, the permit of its [Notify] and the cached list. *)
Record ConversionQueue : Type := {
  q_state : ConversionQueueState;
  q_notified : bool;
  q_saved : option (list PendingConversion)
}.

Definition ConversionQueue_new (saved : option (list PendingConversion)) : ConversionQueue :=
  {| q_state := {| per_receive := []; pending_task := None |};
     q_notified := false; q_saved := saved |}.

Definition q_per_receive (q : ConversionQueue) : list PendingConversion := per_receive (q_state q).
Definition q_pending (q : ConversionQueue) : option ConversionTask := pending_task (q_state q).

Definition set_per_receive (l : list PendingConversion) (q : ConversionQueue) : ConversionQueue :=
  {| q_state := {| per_receive := l; pending_task := q_pending q |};
     q_notified := q_notified q; q_saved := q_saved q |}.

Definition set_pending (t : option ConversionTask) (q : ConversionQueue) : ConversionQueue :=
  {| q_state := {| per_receive := q_per_receive q; pending_task := t |};
     q_notified := q_notified q; q_saved := q_saved q |}.

Definition notify_one (q : ConversionQueue) : ConversionQueue :=
  {| q_state := q_state q; q_notified := true; q_saved := q_saved q |}.

(** The permit is taken by the worker's [notified().await]. *)
Definition take_permit (q : ConversionQueue) : ConversionQueue :=
  {| q_state := q_state q; q_notified := false; q_saved := q_saved q |}.

(** ** The methods *)

(** What the cache holds for a list: nothing for the empty one. *)
Definition cache_of (l : list PendingConversion) : option (list PendingConversion) :=
  match l with [] => None | _ => Some l end.

Definition persist_pending (stored : bool) (q : ConversionQueue) : ConversionQueue :=
  {| q_state := q_state q; q_notified := q_notified q;
     q_saved := if stored then cache_of (q_per_receive q) else q_saved q |}.

Definition is_payment (id : string) (p : PendingConversion) : bool :=
  bool_decide (payment_id p = id).

Definition push_per_receive (now : Z) (stored : bool) (id : string) (q : ConversionQueue)
    : ConversionQueue :=
  if negb (existsb (is_payment id) (q_per_receive q)) then
    let q := set_per_receive (q_per_receive q ++
               [{| payment_id := id; pc_state := Ready; created_at := now |}]) q in
    notify_one (persist_pending stored q)
  else q.

Definition push_auto_convert (q : ConversionQueue) : ConversionQueue :=
  match q_pending q with
  | None => notify_one (set_pending (Some AutoConvert) q)
  | Some _ => q
  end.

Definition push_deactivation (token_identifier : string) (q : ConversionQueue) : ConversionQueue :=
  notify_one (set_pending (Some (Deactivation token_identifier)) q).

Definition clear_pending_auto_convert (q : ConversionQueue) : ConversionQueue :=
  match q_pending q with
  | Some AutoConvert => set_pending None q
  | _ => q
  end.

Definition has_per_receive (q : ConversionQueue) : bool :=
  negb (bool_decide (length (q_per_receive q) = O)).

Definition clear_queue (stored : bool) (q : ConversionQueue) : ConversionQueue * list string :=
  let cleared := payment_id <$> q_per_receive q in
  (persist_pending stored (set_pending None (set_per_receive [] q)), cleared).

(** [iter_mut().find(..)] on the first entry of the payment. *)
Fixpoint defer_first (id : string) (l : list PendingConversion) : list PendingConversion :=
  match l with
  | [] => []
  | p :: l =>
      if is_payment id p
      then {| payment_id := payment_id p; pc_state := Deferred; created_at := created_at p |} :: l
      else p :: defer_first id l
  end.

Definition defer_task (stored : bool) (id : string) (q : ConversionQueue) : ConversionQueue :=
  if existsb (is_payment id) (q_per_receive q)
  then persist_pending stored (set_per_receive (defer_first id (q_per_receive q)) q)
  else q.

Definition is_ready (p : PendingConversion) : bool := negb (bool_decide (pc_state p = Deferred)).

Definition next_task (q : ConversionQueue) : option ConversionTask :=
  match List.find is_ready (q_per_receive q) with
  | Some pending => Some (PerReceive (payment_id pending))
  | None => if bool_decide (length (q_per_receive q) = O) then q_pending q else None
  end.

Definition complete_task (stored : bool) (task : ConversionTask) (q : ConversionQueue)
    : ConversionQueue :=
  match task with
  | PerReceive id =>
      persist_pending stored
        (set_per_receive (List.filter (λ p, negb (is_payment id p)) (q_per_receive q)) q)
  | AutoConvert | Deactivation _ => set_pending None q
  end.

(** Remove the first entry that satisfies [f]. *)
Fixpoint remove_first (f : PendingConversion → bool) (l : list PendingConversion)
    : option (PendingConversion * list PendingConversion) :=
  match l with
  | [] => None
  | p :: l =>
      if f p then Some (p, l)
      else match remove_first f l with Some (x, l) => Some (x, p :: l) | None => None end
  end.

Section queue.
(** [per_receive_transfer_id(id).to_string()]: the name-based identifier of the
    conversion of a payment. *)
Context (per_receive_transfer_id : string → string).

Definition is_resolved (incoming_payment_id : string) (p : PendingConversion) : bool :=
  bool_decide (pc_state p = Deferred)
  && bool_decide (per_receive_transfer_id (payment_id p) = incoming_payment_id).

Definition resolve_by_conversion_payment (stored : bool) (incoming_payment_id : string)
    (q : ConversionQueue) : ConversionQueue * option string :=
  match remove_first (is_resolved incoming_payment_id) (q_per_receive q) with
  | None => (q, None)
  | Some (resolved, rest) =>
      (notify_one (persist_pending stored (set_per_receive rest q)), Some (payment_id resolved))
  end.

Definition is_expired (now : Z) (p : PendingConversion) : bool :=
  bool_decide (pc_state p = Deferred) && (0 <? created_at p)
  && (DEFERRED_TASK_TIMEOUT_SECS <? saturating_sub now (created_at p)).

Definition clear_expired_tasks (now : Z) (stored : bool) (q : ConversionQueue)
    : ConversionQueue * list string :=
  let timed_out := payment_id <$> List.filter (is_expired now) (q_per_receive q) in
  let q := set_per_receive (List.filter (λ p, negb (is_expired now p)) (q_per_receive q)) q in
  if bool_decide (length timed_out = O) then (q, timed_out)
  else (notify_one (persist_pending stored q), timed_out).

(** The loop of [recover_pending_conversions]. *)
Definition recover_entry (l : list PendingConversion) (entry : PendingConversion)
    : list PendingConversion :=
  if existsb (is_payment (payment_id entry)) l then l else l ++ [entry].

(** [recover_pending_conversions]; [fetched] tells whether the cache could be read. *)
Definition recover_pending_conversions (fetched stored : bool) (q : ConversionQueue)
    : ConversionQueue :=
  match (if fetched then q_saved q else None) with
  | Some pending =>
      if bool_decide (length pending = O) then q
      else persist_pending stored
             (set_per_receive (foldl recover_entry (q_per_receive q) pending) q)
  | None => q
  end.

(** ** The worker *)

(** What a conversion returns: whether it converted, or an error and whether the
    error is a duplicate transfer. *)
Abbreviation Outcome := (result bool bool).

(** [process_per_receive]; writing the completed status is not modelled, its
    failure is only logged. *)
Definition process_per_receive (r : Outcome) : PerReceiveResult :=
  match r with
  | Ok converted => Done converted
  | Err is_duplicate_transfer => if is_duplicate_transfer then Done false else Retry
  end.

(** The end of the worker's turn on a task, whose conversion returned [r]; the
    second component tells whether it triggers a sync. *)
Definition finish_task (stored : bool) (task : ConversionTask) (r : Outcome)
    (q : ConversionQueue) : ConversionQueue * bool :=
  match task with
  | PerReceive id =>
      match process_per_receive r with
      | Done converted =>
          let q := complete_task stored task q in
          if converted then (clear_pending_auto_convert q, true) else (q, false)
      | Retry => (defer_task stored id q, false)
      end
  | AutoConvert | Deactivation _ =>
      let converted := match r with Ok converted => converted | Err _ => false end in
      (complete_task stored task q, converted)
  end.

(** [while let Some(task) = next_task() { .. }] when no other task touches the queue:
    the tasks in the order they were processed; [None] when the fuel runs out. *)
Fixpoint drain_tasks (fuel : nat) (convert : ConversionTask → Outcome) (q : ConversionQueue)
    : option (ConversionQueue * list ConversionTask) :=
  match next_task q with
  | None => Some (q, [])
  | Some task =>
      match fuel with
      | O => None
      | S fuel =>
          let '(q, _) := finish_task true task (convert task) q in
          '(q, tasks) ← drain_tasks fuel convert q; Some (q, task :: tasks)
      end
  end.

(** ** Operations as steps *)

Inductive QueueOp : Type :=
| OpPushPerReceive (now : Z) (id : string)
| OpPushAutoConvert
| OpPushDeactivation (token : string)
| OpClearPendingAutoConvert
| OpClearQueue
| OpDefer (id : string)
| OpComplete (task : ConversionTask)
| OpResolve (incoming_payment_id : string)
| OpClearExpired (now : Z)
| OpRecover.

Definition run_op (stored : bool) (op : QueueOp) (q : ConversionQueue) : ConversionQueue :=
  match op with
  | OpPushPerReceive now id => push_per_receive now stored id q
  | OpPushAutoConvert => push_auto_convert q
  | OpPushDeactivation token => push_deactivation token q
  | OpClearPendingAutoConvert => clear_pending_auto_convert q
  | OpClearQueue => (clear_queue stored q).1
  | OpDefer id => defer_task stored id q
  | OpComplete task => complete_task stored task q
  | OpResolve id => (resolve_by_conversion_payment stored id q).1
  | OpClearExpired now => (clear_expired_tasks now stored q).1
  | OpRecover => recover_pending_conversions true stored q
  end.

(** ** The cache follows the queue *)

Definition queue_ids (l : list PendingConversion) : list string := payment_id <$> l.

Definition queue_inv (q : ConversionQueue) : Prop :=
  NoDup (queue_ids (q_per_receive q)) ∧ q_saved q = cache_of (q_per_receive q).

Lemma is_payment_spec id l : existsb (is_payment id) l = true ↔ id ∈ queue_ids l.
Proof.
  rewrite existsb_elem. unfold is_payment, queue_ids. rewrite list_elem_of_fmap. split.
  - intros (p & Hp & Hid%bool_decide_eq_true). by exists p.
  - intros (p & -> & Hp). exists p. split; [done|]. by apply bool_decide_eq_true.
Qed.

Lemma is_payment_none id l : existsb (is_payment id) l = false ↔ id ∉ queue_ids l.
Proof. by rewrite <- not_true_iff_false, is_payment_spec. Qed.

Lemma sublist_ids l k : sublist l k → sublist (queue_ids l) (queue_ids k).
Proof. induction 1; simpl; by constructor. Qed.

(** Deleting an entry or changing it without its identifier. *)
Lemma ids_replace_NoDup l1 p (o : option PendingConversion) l2 :
  (∀ x, o = Some x → payment_id x = payment_id p) →
  NoDup (queue_ids (l1 ++ p :: l2)) → NoDup (queue_ids (l1 ++ option_list o ++ l2)).
Proof.
  intros Ho Hn. destruct o as [x|]; simpl.
  - unfold queue_ids in *. rewrite fmap_app in *. simpl in *. by rewrite (Ho x).
  - eapply sublist_NoDup; [exact Hn|]. apply sublist_ids. apply sublist_app; [done|].
    by constructor.
Qed.

Lemma queue_ids_filter f l : NoDup (queue_ids l) → NoDup (queue_ids (List.filter f l)).
Proof.
  intros Hn. eapply sublist_NoDup; [exact Hn|]. apply sublist_ids, sublist_bfilter.
Qed.

Lemma queue_ids_defer id l : queue_ids (defer_first id l) = queue_ids l.
Proof. induction l as [|p l IH]; simpl; [done|]. case_match; simpl; by f_equal. Qed.

Lemma remove_first_sublist f l x rest :
  remove_first f l = Some (x, rest) → sublist rest l ∧ x ∈ l ∧ f x = true.
Proof.
  revert x rest. induction l as [|p l IH]; intros x rest; simpl; [done|].
  destruct (f p) eqn:Hf.
  - intros [= <- <-]. split_and!; [by constructor|by left|done].
  - destruct (remove_first f l) as [[y l']|]; [|done]. intros [= <- <-].
    destruct (IH y l' eq_refl) as (Hs & Hin & Hy). split_and!; [by constructor|by right|done].
Qed.

Lemma recover_entries_NoDup l pending :
  NoDup (queue_ids l) → NoDup (queue_ids (foldl recover_entry l pending)).
Proof.
  revert l. induction pending as [|e pending IH]; intros l Hl; [done|]. simpl. apply IH.
  unfold recover_entry. destruct (existsb _ l) eqn:He; [done|]. apply is_payment_none in He.
  unfold queue_ids. rewrite fmap_app. apply NoDup_app. split_and!; [done| |apply NoDup_singleton].
  intros x Hx ->%list_elem_of_singleton. by destruct He.
Qed.

Lemma recover_entries_fresh l pending :
  NoDup (queue_ids (l ++ pending)) → foldl recover_entry l pending = l ++ pending.
Proof.
  revert l. induction pending as [|e pending IH]; intros l Hl; simpl; [by rewrite app_nil_r|].
  assert (recover_entry l e = l ++ [e]) as ->.
  { unfold recover_entry. rewrite (proj2 (is_payment_none _ _)); [done|].
    unfold queue_ids in Hl |- *. rewrite fmap_app in Hl. apply NoDup_app in Hl as (_ & Hd & _).
    intros Hin. apply (Hd _ Hin). by left. }
  rewrite IH; rewrite <- app_assoc; done.
Qed.

Lemma inv_persist q : NoDup (queue_ids (q_per_receive q)) → queue_inv (persist_pending true q).
Proof. by split. Qed.

Lemma inv_run_op op q : queue_inv q → queue_inv (run_op true op q).
Proof.
  intros Hinv. destruct Hinv as [Hn Hs] eqn:Hq. clear Hq.
  destruct op; simpl; [| | | | | | | | |].
  - unfold push_per_receive. destruct (existsb _ _) eqn:He; [done|]. simpl.
    apply is_payment_none in He. split; [|done]. unfold notify_one, q_per_receive. simpl.
    unfold queue_ids. rewrite fmap_app. apply NoDup_app.
    split_and!; [done| |apply NoDup_singleton]. intros x Hx ->%list_elem_of_singleton.
    by destruct He.
  - unfold push_auto_convert. by destruct (q_pending q).
  - done.
  - unfold clear_pending_auto_convert. by destruct (q_pending q) as [[]|].
  - apply inv_persist. constructor.
  - unfold defer_task. destruct (existsb _ _); [|done]. apply inv_persist.
    unfold q_per_receive. simpl. by rewrite queue_ids_defer.
  - destruct task; [|done|done]. apply inv_persist. by apply queue_ids_filter.
  - unfold resolve_by_conversion_payment.
    destruct (remove_first _ _) as [[x rest]|] eqn:Hr; [|done].
    apply remove_first_sublist in Hr as (Hsub & _). split; [|done].
    eapply sublist_NoDup; [exact Hn|]. by apply sublist_ids.
  - unfold clear_expired_tasks. case_bool_decide as Hz; simpl.
    + rewrite length_fmap in Hz.
      assert (List.filter (λ p, negb (is_expired now p)) (q_per_receive q) = q_per_receive q) as ->.
      { apply bfilter_id, Forall_forall. intros p Hp. apply negb_true_iff.
        destruct (is_expired now p) eqn:Hx; [|done]. exfalso.
        assert (p ∈ List.filter (is_expired now) (q_per_receive q)) as Hin by (by apply elem_of_bfilter).
        apply nil_length_inv in Hz. rewrite Hz in Hin. by apply elem_of_nil in Hin. }
      done.
    + split; [|done]. by apply queue_ids_filter.
  - unfold recover_pending_conversions. destruct (q_saved q) as [pending|] eqn:Hp; [|done].
    case_bool_decide; [done|]. apply inv_persist. by apply recover_entries_NoDup.
Qed.

Definition run_ops (ops : list QueueOp) (q : ConversionQueue) : ConversionQueue :=
  foldl (λ q op, run_op true op q) q ops.

Lemma inv_run_ops ops q : queue_inv q → queue_inv (run_ops ops q).
Proof.
  unfold run_ops. revert q. induction ops as [|op ops IH]; intros q Hq; [done|].
  simpl. by apply IH, inv_run_op.
Qed.

(** A queue as the worker starts it: recovered from the cache. *)
Definition restart (saved : option (list PendingConversion)) : ConversionQueue :=
  recover_pending_conversions true true (ConversionQueue_new saved).

Lemma restart_spec saved :
  NoDup (queue_ids (default [] saved)) → saved ≠ Some [] →
  q_per_receive (restart saved) = default [] saved ∧ queue_inv (restart saved).
Proof.
  intros Hn Hne. unfold restart, recover_pending_conversions.
  destruct saved as [l|]; simpl in *; [|by repeat constructor].
  destruct l as [|e l]; [done|]. rewrite bool_decide_eq_false_2 by done.
  pose proof (recover_entries_fresh [] (e :: l) Hn) as Hr. simpl in Hr.
  unfold queue_inv, q_per_receive. simpl. rewrite Hr. split; [done|]. by split.
Qed.

Lemma cache_of_default l : default [] (cache_of l) = l ∧ cache_of l ≠ Some [].
Proof. by destruct l. Qed.

(** the queue survives a restart: after recovery and any operations, each payment
    is queued at most once, and a worker that is started again from the cache has
    exactly the same conversions, in order and with their states and ages. *)
Theorem queue_survives_restart saved ops :
  NoDup (queue_ids (default [] saved)) → saved ≠ Some [] →
  let q := run_ops ops (restart saved) in
  NoDup (queue_ids (q_per_receive q)) ∧
  q_per_receive (restart (q_saved q)) = q_per_receive q.
Proof.
  intros Hn Hne q. destruct (restart_spec saved Hn Hne) as [_ Hinv].
  destruct (inv_run_ops ops _ Hinv) as [Hnd Hs]. split; [done|].
  fold q in Hnd, Hs. rewrite Hs. destruct (cache_of_default (q_per_receive q)) as [Hd Hc].
  destruct (restart_spec (cache_of (q_per_receive q))) as [Hr _]; [by rewrite Hd|done|].
  by rewrite Hr.
Qed.

(** A payment queued before the recovery overwrites the cache, and what the cache
    held is not recovered any more. *)
Lemma push_before_recovery_loses_saved now id saved :
  q_saved (push_per_receive now true id (ConversionQueue_new saved)) =
  Some [{| payment_id := id; pc_state := Ready; created_at := now |}].
Proof. done. Qed.

(** A deactivation that is queued while an auto-convert runs is dropped with it. *)
Lemma completed_auto_convert_drops_deactivation token r q :
  q_pending (finish_task true AutoConvert r (push_deactivation token q)).1 = None.
Proof. done. Qed.

(** ** Wakeups *)

(** The operations of the other tasks; recovery, deferral and completion are the worker's. *)
Definition is_external (op : QueueOp) : bool :=
  match op with OpDefer _ | OpComplete _ | OpRecover => false | _ => true end.

Definition run_external (ops : list (bool * QueueOp)) (q : ConversionQueue) : ConversionQueue :=
  foldl (λ q op, run_op op.1 op.2 q) q ops.

(** The worker sleeps soundly: there is nothing to do, or its permit is set. *)
Definition awake_or_idle (q : ConversionQueue) : Prop :=
  next_task q = None ∨ q_notified q = true.

Lemma find_none_filter {A} (f g : A → bool) l :
  List.find f l = None → List.find f (List.filter g l) = None.
Proof.
  induction l as [|x l IH]; [done|]. simpl. destruct (f x) eqn:Hf; [done|]. intros H.
  destruct (g x); simpl; [rewrite Hf|]; by apply IH.
Qed.

Lemma next_task_none_iff q :
  next_task q = None ↔
  List.find is_ready (q_per_receive q) = None ∧ (q_per_receive q = [] → q_pending q = None).
Proof.
  unfold next_task. destruct (List.find _ _) as [p|] eqn:Hf; [naive_solver|].
  case_bool_decide as Hl.
  - apply nil_length_inv in Hl. naive_solver.
  - split; [|done]. intros _. split; [done|]. intros E. by rewrite E in Hl.
Qed.

Lemma external_awake_or_idle stored op q :
  is_external op = true → awake_or_idle q → awake_or_idle (run_op stored op q).
Proof.
  unfold awake_or_idle. intros Hop H. destruct op; simpl in *; try done.
  - unfold push_per_receive. destruct (existsb _ _); [done|]. by right.
  - unfold push_auto_convert. destruct (q_pending q); [done|]. by right.
  - by right.
  - unfold clear_pending_auto_convert. destruct (q_pending q) as [[]|] eqn:Hp; try done.
    destruct H as [H|H]; [left|by right]. apply next_task_none_iff in H as [Hf Hn].
    apply next_task_none_iff. by split.
  - by left.
  - unfold resolve_by_conversion_payment. destruct (remove_first _ _) as [[x r]|]; [by right|done].
  - unfold clear_expired_tasks. case_bool_decide as Hz; [|by right]. simpl.
    destruct H as [H|H]; [left|by right]. apply next_task_none_iff in H as [Hf Hn].
    rewrite length_fmap in Hz. apply nil_length_inv in Hz.
    apply next_task_none_iff. split; [by apply find_none_filter|].
    unfold q_per_receive at 1. simpl. intros E. apply Hn.
    pose proof (bfilter_partition (is_expired now) (q_per_receive q)) as Hp.
    rewrite Hz, E in Hp. by apply Permutation_nil_r in Hp.
Qed.

(** the worker misses no wakeup: if it found nothing to do, then after any calls
    of the other tasks -- even ones that could not write the cache -- either there is
    still nothing to do or the permit it awaits is set. *)
Theorem queue_never_misses_wakeup ops q :
  next_task q = None → forallb (λ op, is_external op.2) ops = true →
  let q' := run_external ops q in next_task q' = None ∨ q_notified q' = true.
Proof.
  intros Hq. assert (awake_or_idle q) as H by by left. clear Hq. revert q H.
  induction ops as [|[stored op] ops IH]; intros q H Hops; [done|]. simpl in *.
  apply andb_true_iff in Hops as [Hop Hops]. by apply IH; [apply external_awake_or_idle|].
Qed.

(** ** Draining the queue *)

(** The queue a drain leaves behind: converted payments are removed, those whose
    conversion failed are deferred. *)
Definition settled (convert : ConversionTask → Outcome) (p : PendingConversion)
    : option PendingConversion :=
  if is_ready p then
    match process_per_receive (convert (PerReceive (payment_id p))) with
    | Done _ => None
    | Retry => Some {| payment_id := payment_id p; pc_state := Deferred; created_at := created_at p |}
    end
  else Some p.

Definition converts (convert : ConversionTask → Outcome) (p : PendingConversion) : bool :=
  is_ready p && match process_per_receive (convert (PerReceive (payment_id p))) with
                | Done converted => converted | Retry => false end.

(** The other task a drain comes to: the pending one, unless a payment is still
    deferred, and unless it is an auto-convert and a payment was converted. *)
Definition remaining_task (convert : ConversionTask → Outcome) (l : list PendingConversion)
    (pending : option ConversionTask) : option ConversionTask :=
  match omap (settled convert) l, pending with
  | [], Some AutoConvert => if existsb (converts convert) l then None else pending
  | [], _ => pending
  | _ :: _, _ => None
  end.

Lemma find_is_ready_split l p :
  List.find is_ready l = Some p →
  ∃ l1 l2, l = l1 ++ p :: l2 ∧ List.filter is_ready l1 = [] ∧ is_ready p = true.
Proof.
  induction l as [|x l IH]; [done|]. simpl. destruct (is_ready x) eqn:Hx.
  - intros [= ->]. by exists [], l.
  - intros (l1 & l2 & -> & Hl1 & Hp)%IH. exists (x :: l1), l2. split_and!; [done| |done].
    simpl. by rewrite Hx.
Qed.

Lemma not_ready_one convert p :
  is_ready p = false → settled convert p = Some p ∧ converts convert p = false.
Proof. intros H. unfold settled, converts. by rewrite H. Qed.

Lemma not_ready_settled convert l :
  List.filter is_ready l = [] →
  omap (settled convert) l = l ∧ existsb (converts convert) l = false.
Proof.
  induction l as [|x l IH]; [done|]. simpl. destruct (is_ready x) eqn:Hx; [done|].
  intros [H1 H2]%IH. destruct (not_ready_one convert x Hx) as [-> ->]. simpl. split; [|done].
  f_equal. exact H1.
Qed.

Lemma find_none_not_ready l : List.find is_ready l = None → List.filter is_ready l = [].
Proof. induction l as [|x l IH]; [done|]. simpl. by destruct (is_ready x). Qed.

Lemma find_app_not_ready l1 l2 :
  List.filter is_ready l1 = [] → List.find is_ready (l1 ++ l2) = List.find is_ready l2.
Proof. induction l1 as [|x l1 IH]; [done|]. simpl. by destruct (is_ready x). Qed.

Lemma filter_id_out id l1 p l2 :
  NoDup (queue_ids (l1 ++ p :: l2)) → id = payment_id p →
  List.filter (λ x, negb (is_payment id x)) (l1 ++ p :: l2) = l1 ++ l2 ∧
  defer_first id (l1 ++ p :: l2) =
    l1 ++ {| payment_id := id; pc_state := Deferred; created_at := created_at p |} :: l2.
Proof.
  intros Hn ->. unfold queue_ids in Hn. rewrite fmap_app in Hn.
  apply NoDup_app in Hn as (_ & Hd & Hn). apply NoDup_cons in Hn as [Hp _].
  assert (∀ x, x ∈ l1 ∨ x ∈ l2 → is_payment (payment_id p) x = false) as Hx.
  { intros x Hin. apply bool_decide_eq_false. intros Hid. destruct Hin as [Hin|Hin].
    - apply (Hd (payment_id x)); [by apply list_elem_of_fmap_2|]. rewrite Hid. by left.
    - apply Hp. rewrite <- Hid. by apply list_elem_of_fmap_2. }
  assert (is_payment (payment_id p) p = true) as Hself by by apply bool_decide_eq_true.
  rewrite bfilter_app. simpl. rewrite Hself. simpl. split.
  - f_equal; apply bfilter_id, Forall_forall; intros x Hin; rewrite Hx; auto.
  - assert (∀ x, x ∈ l1 → is_payment (payment_id p) x = false) as Hl1 by auto. clear Hd Hx.
    induction l1 as [|y l1 IH]; simpl; [by rewrite Hself|].
    rewrite (Hl1 y) by by left. f_equal. apply IH. intros x Hin. apply Hl1. by right.
Qed.

(** One turn of the worker on the first ready payment. *)
Lemma finish_first_ready convert q p l1 l2 :
  NoDup (queue_ids (q_per_receive q)) → q_per_receive q = l1 ++ p :: l2 → is_ready p = true →
  let task := PerReceive (payment_id p) in
  let q' := (finish_task true task (convert task) q).1 in
  q_per_receive q' = l1 ++ option_list (settled convert p) ++ l2 ∧
  q_pending q' = if converts convert p then q_pending (clear_pending_auto_convert q) else q_pending q.
Proof.
  intros Hn Hl Hr. simpl. unfold settled, converts. rewrite Hr. simpl. rewrite Hl in Hn.
  destruct (filter_id_out (payment_id p) l1 p l2 Hn eq_refl) as [Hf Hd].
  destruct (process_per_receive _) as [[]|]; simpl.
  - unfold clear_pending_auto_convert, complete_task. simpl. unfold q_pending at 1 3. simpl.
    destruct (q_pending q) as [[]|] eqn:Hp; unfold q_per_receive at 1, q_pending at 1; simpl;
      rewrite Hl, Hf, ?Hp; done.
  - unfold q_per_receive at 1. simpl. by rewrite Hl, Hf.
  - unfold defer_task. rewrite (proj2 (is_payment_spec _ _)).
    + unfold q_per_receive at 1. simpl. by rewrite Hl, Hd.
    + rewrite Hl. unfold queue_ids. rewrite fmap_app. apply elem_of_app. right. by left.
Qed.

Lemma settled_idem convert p :
  omap (settled convert) (option_list (settled convert p)) = option_list (settled convert p) ∧
  List.filter is_ready (option_list (settled convert p)) = [] ∧
  existsb (converts convert) (option_list (settled convert p)) = false.
Proof.
  unfold settled. destruct (is_ready p) eqn:Hr; simpl.
  - destruct (process_per_receive _); by split_and!.
  - unfold settled, converts. rewrite Hr. by split_and!.
Qed.

Lemma omap_settled_once convert l1 p l2 :
  List.filter is_ready l1 = [] →
  omap (settled convert) (l1 ++ option_list (settled convert p) ++ l2) =
  omap (settled convert) (l1 ++ p :: l2).
Proof.
  intros Hl1. destruct (settled_idem convert p) as [Hs _]. rewrite !omap_app, Hs. f_equal.
  simpl. by destruct (settled convert p).
Qed.

Lemma remaining_task_once convert l1 p l2 q :
  List.filter is_ready l1 = [] →
  remaining_task convert (l1 ++ option_list (settled convert p) ++ l2)
    (if converts convert p then q_pending (clear_pending_auto_convert q) else q_pending q) =
  remaining_task convert (l1 ++ p :: l2) (q_pending q).
Proof.
  intros Hl1. unfold remaining_task. rewrite omap_settled_once by done.
  destruct (omap _ _); [|done]. destruct (settled_idem convert p) as (_ & _ & Hs).
  destruct (not_ready_settled convert l1 Hl1) as [_ He].
  rewrite !existsb_app, Hs, He. simpl. unfold clear_pending_auto_convert.
  destruct (converts convert p), (q_pending q) as [[]|] eqn:Hp; simpl; rewrite ?Hp; done.
Qed.

(** The pending task is never a payment's. *)
Definition pending_ok (q : ConversionQueue) : Prop := ∀ id, q_pending q ≠ Some (PerReceive id).

Lemma pending_ok_run_op stored op q : pending_ok q → pending_ok (run_op stored op q).
Proof.
  unfold pending_ok. intros H id. destruct op; simpl; try done.
  - unfold push_per_receive. by destruct (existsb _ _).
  - unfold push_auto_convert. by destruct (q_pending q) eqn:E; rewrite ?E.
  - unfold clear_pending_auto_convert. by destruct (q_pending q) as [[]|] eqn:E; simpl; rewrite ?E.
  - unfold defer_task. by destruct (existsb _ _).
  - by destruct task.
  - unfold resolve_by_conversion_payment. by destruct (remove_first _ _) as [[]|].
  - unfold clear_expired_tasks. by case_bool_decide.
  - unfold recover_pending_conversions. destruct (q_saved q); [|done]. by case_bool_decide.
Qed.

Lemma pending_ok_run_ops ops q : pending_ok q → pending_ok (run_ops ops q).
Proof.
  unfold run_ops. revert q. induction ops as [|op ops IH]; intros q Hq; [done|].
  simpl. by apply IH, pending_ok_run_op.
Qed.

Lemma pending_ok_restart saved : pending_ok (restart saved).
Proof.
  change (pending_ok (run_op true OpRecover (ConversionQueue_new saved))).
  by apply pending_ok_run_op.
Qed.

Lemma drain_tasks_some fuel convert q task :
  next_task q = Some task →
  drain_tasks (S fuel) convert q =
    ('(q', tasks) ← drain_tasks fuel convert (finish_task true task (convert task) q).1;
     Some (q', task :: tasks)).
Proof. intros H. simpl. rewrite H. by destruct (finish_task _ _ _ _). Qed.

Lemma drain_tasks_none fuel convert q :
  next_task q = None → drain_tasks fuel convert q = Some (q, []).
Proof. destruct fuel; simpl; by intros ->. Qed.

(** The end of a drain: the other task is processed if no payment is deferred. *)
Lemma drain_tasks_last fuel convert q :
  pending_ok q → List.filter is_ready (q_per_receive q) = [] →
  ∃ q', drain_tasks (S fuel) convert q =
          Some (q', option_list (match q_per_receive q with [] => q_pending q | _ => None end)) ∧
    q_per_receive q' = q_per_receive q ∧ next_task q' = None.
Proof.
  intros Hok Hnr. assert (List.find is_ready (q_per_receive q) = None) as Hf.
  { destruct (List.find _ _) eqn:Hf; [|done]. apply find_some in Hf as [Hin Hr].
    apply list_elem_of_In in Hin. assert (p ∈ List.filter is_ready (q_per_receive q)) as Hp
      by by apply elem_of_bfilter.
    rewrite Hnr in Hp. by apply elem_of_nil in Hp. }
  destruct (next_task q) as [t|] eqn:Ht.
  - pose proof Ht as Ht'. unfold next_task in Ht'. rewrite Hf in Ht'. case_bool_decide as Hz; [|done].
    apply nil_length_inv in Hz. rewrite Hz, Ht'. rewrite (drain_tasks_some _ _ _ t) by done.
    assert (∃ q', (finish_task true t (convert t) q).1 = q' ∧ q_per_receive q' = [] ∧
                  q_pending q' = None) as (q' & -> & Hq' & Hp').
    { destruct t as [id| |]; [by destruct (Hok id)|by eexists..]. }
    assert (next_task q' = None) as Hn by (apply next_task_none_iff; by rewrite Hq').
    exists q'. by rewrite drain_tasks_none.
  - exists q. rewrite drain_tasks_none by done. split_and!; [|done..].
    apply next_task_none_iff in Ht as [_ Ht]. destruct (q_per_receive q); [|done]. by rewrite Ht.
Qed.

(** The drain, with the ready payments counted. *)
Lemma drain_tasks_spec convert q fuel :
  NoDup (queue_ids (q_per_receive q)) → pending_ok q →
  (length (List.filter is_ready (q_per_receive q)) < fuel)%nat →
  ∃ q', drain_tasks fuel convert q =
          Some (q', map (λ p, PerReceive (payment_id p)) (List.filter is_ready (q_per_receive q))
                    ++ option_list (remaining_task convert (q_per_receive q) (q_pending q))) ∧
    q_per_receive q' = omap (settled convert) (q_per_receive q) ∧ next_task q' = None.
Proof.
  revert q. induction fuel as [|fuel IH]; intros q Hn Hok Hlen; [lia|].
  destruct (List.find is_ready (q_per_receive q)) as [p|] eqn:Hf.
  - destruct (find_is_ready_split _ _ Hf) as (l1 & l2 & Hl & Hl1 & Hr).
    destruct (finish_first_ready convert q p l1 l2 Hn Hl Hr) as [Hpr Hpe].
    rewrite drain_tasks_some with (task := PerReceive (payment_id p))
      by (unfold next_task; by rewrite Hf).
    set (q1 := (finish_task _ _ _ q).1) in *.
    destruct (settled_idem convert p) as (_ & Hs2 & _).
    rewrite Hl in Hn, Hlen |- *. rewrite bfilter_app, Hl1 in Hlen. simpl in Hlen. rewrite Hr in Hlen.
    destruct (IH q1) as (q' & -> & Hq' & Hnone).
    { rewrite Hpr. apply (ids_replace_NoDup l1 p); [|exact Hn].
      intros x. unfold settled. repeat case_match; naive_solver. }
    { intros id. rewrite Hpe. destruct (converts convert p); [|done].
      apply (pending_ok_run_op true OpClearPendingAutoConvert q Hok). }
    { rewrite Hpr, !bfilter_app, Hl1, Hs2. simpl in *. lia. }
    exists q'. rewrite Hq', Hpr, Hpe, omap_settled_once, remaining_task_once by done.
    split_and!; [|done..]. rewrite !bfilter_app, Hl1, Hs2. simpl. by rewrite Hr.
  - apply find_none_not_ready in Hf as Hnr. destruct (not_ready_settled convert _ Hnr) as [Ho He].
    destruct (drain_tasks_last fuel convert q Hok Hnr) as (q' & -> & Hq').
    exists q'. rewrite Ho. split; [|done]. unfold remaining_task. rewrite Hnr, Ho, He. simpl.
    by destruct (q_per_receive q), (q_pending q) as [[]|].
Qed.

(** the worker drains the queue: from any queue that recovery and further
    operations lead to, the loop ends; it tries each ready payment once, oldest first,
    then -- if no payment is left deferred -- the pending auto-convert or deactivation,
    an auto-convert only if no payment was converted; converted payments are gone,
    failed ones are deferred, and nothing is left to do. *)
Theorem worker_drains_queue saved ops convert :
  NoDup (queue_ids (default [] saved)) → saved ≠ Some [] →
  let q := run_ops ops (restart saved) in
  ∃ q', drain_tasks (S (length (q_per_receive q))) convert q =
          Some (q', map (λ p, PerReceive (payment_id p)) (List.filter is_ready (q_per_receive q))
                    ++ option_list (remaining_task convert (q_per_receive q) (q_pending q))) ∧
    q_per_receive q' = omap (settled convert) (q_per_receive q) ∧ next_task q' = None.
Proof.
  intros Hn Hne q. destruct (restart_spec saved Hn Hne) as [_ Hinv].
  destruct (inv_run_ops ops _ Hinv) as [Hnd _]. apply drain_tasks_spec; [done| |].
  - apply pending_ok_run_ops, pending_ok_restart.
  - pose proof (sublist_length _ _ (sublist_bfilter is_ready (q_per_receive q))). lia.
Qed.
End queue.

(** ** Witnesses *)

Lemma queue_never_misses_wakeup_witness :
  let f := λ id, id in
  let q := defer_task true "a" (push_per_receive 10 true "a" (ConversionQueue_new None)) in
  let ops := [(true, OpPushAutoConvert); (false, OpClearExpired 500)] in
  next_task q = None ∧ next_task (run_external f ops (take_permit q)) = Some AutoConvert ∧
  (next_task (run_external f ops (take_permit q)) = None ∨
   q_notified (run_external f ops (take_permit q)) = true).
Proof.
  split_and!; [reflexivity..|]. apply queue_never_misses_wakeup; reflexivity.
Defined.

Lemma queue_survives_restart_witness :
  let f := λ id, id in
  let saved := Some [{| payment_id := "a"; pc_state := Deferred; created_at := 5 |}] in
  let q := run_ops f [OpPushPerReceive 9 "b"; OpResolve "a"; OpDefer "b"] (restart saved) in
  q_per_receive q = [{| payment_id := "b"; pc_state := Deferred; created_at := 9 |}] ∧
  NoDup (queue_ids (q_per_receive q)) ∧
  q_per_receive (restart (q_saved q)) = q_per_receive q.
Proof.
  split; [reflexivity|]. apply queue_survives_restart; [|done].
  apply (bool_decide_unpack _). vm_compute. exact I.
Defined.

Lemma worker_drains_queue_witness :
  let f := λ id, id in
  let saved := Some [{| payment_id := "a"; pc_state := Ready; created_at := 5 |};
                     {| payment_id := "b"; pc_state := Ready; created_at := 6 |}] in
  let convert := λ t, if bool_decide (next_task (restart saved) = Some t) then Ok false else Err true in
  let q := run_ops f [OpPushAutoConvert] (restart saved) in
  ∃ q', drain_tasks 3 convert q =
          Some (q', [PerReceive "a"; PerReceive "b"; AutoConvert]) ∧ q_per_receive q' = [] ∧
        next_task q' = None.
Proof.
  apply (worker_drains_queue (λ id, id)
    (Some [{| payment_id := "a"; pc_state := Ready; created_at := 5 |};
           {| payment_id := "b"; pc_state := Ready; created_at := 6 |}]) [OpPushAutoConvert]);
    [|done]. apply (bool_decide_unpack _). vm_compute. exact I.
Defined.
