(* ===== verification/SyncCoordinator.v ===== *)
(** The coordinator of wallet syncs and the sync it runs:
    [crates/breez-sdk/core/src/sdk/sync_coordinator.rs], [SyncType] of
    [core/src/sdk/mod.rs] and [sync_wallet_internal] of [core/src/sdk/sync.rs].

    Calls of many tasks interleave: each critical section under the coordinator's
    mutex is one step of a labelled transition system, and so is the end of a sync.
    The system counts the calls and the syncs started, so that "a sync that started
    after this call" can be stated. *)
From S2P Require Import Prelude.

(** ** The flags of a sync *)

Definition SyncType : Type := Z.

Definition Wallet : SyncType := Z.shiftl 1 0.
Definition WalletState : SyncType := Z.shiftl 1 1.
Definition Deposits : SyncType := Z.shiftl 1 2.
Definition LnurlMetadata : SyncType := Z.shiftl 1 3.
Definition Full : SyncType :=
  Z.lor (Z.lor (Z.lor Wallet WalletState) Deposits) LnurlMetadata.

(** [bitflags]' [contains]. *)
Definition contains (t flag : SyncType) : bool := Z.land t flag =? flag.

(** ** The sync itself *)

Section sync.
Context {SdkError : Type}.

(** What the world answers to one sync: the reading of the last sync time, the clock,
    whether the time could be written, and whether each part succeeds. *)
Record SyncEnv : Type := {
  env_last : result (option Z) SdkError;
  env_now : Z;
  env_set_ok : bool;
  env_wallet : bool;
  env_wallet_state : bool;
  env_lnurl : bool;
  env_deposits : bool
}.

Record InternalSyncedEvent : Type := {
  wallet : bool;
  wallet_state : bool;
  lnurl_metadata : bool;
  deposits : bool
}.

(** What a sync did: its result, the parts it ran, the last sync time it wrote and
    the event it emitted. *)
Record SyncEffect : Type := {
  eff_result : result unit SdkError;
  eff_parts : list SyncType;
  eff_last_written : option Z;
  eff_event : option InternalSyncedEvent
}.

Definition run_part (t flag : SyncType) (outcome : bool) : bool * list SyncType :=
  if contains t flag then (outcome, [flag]) else (false, []).

(** [sync_wallet_internal]; the three groups run concurrently, their parts are listed
    group by group. *)
Definition sync_wallet_internal (sync_interval_secs : Z) (t : SyncType) (force : bool)
    (env : SyncEnv) : SyncEffect :=
  let sync_all (u : unit) :=
    let written :=
      if contains t Full && env_set_ok env then Some (env_now env) else None in
    let '(w, ps1) := run_part t Wallet (env_wallet env) in
    let '(ws, ps2) := run_part t WalletState (env_wallet_state env) in
    let '(l, ps3) := run_part t LnurlMetadata (env_lnurl env) in
    let '(d, ps4) := run_part t Deposits (env_deposits env) in
    {| eff_result := Ok tt; eff_parts := ps1 ++ ps2 ++ ps3 ++ ps4; eff_last_written := written;
       eff_event := Some {| wallet := w; wallet_state := ws; lnurl_metadata := l; deposits := d |} |} in
  let nothing r := {| eff_result := r; eff_parts := []; eff_last_written := None; eff_event := None |} in
  if force then sync_all tt else
  match env_last env with
  | Err e => nothing (Err e)
  | Ok (Some last) =>
      if saturating_sub (env_now env) last <? sync_interval_secs then nothing (Ok tt) else sync_all tt
  | Ok None => sync_all tt
  end.

(** ** The coordinator *)

Record Waiter : Type := {
  w_sync_type : SyncType;
  w_force : bool;
  (** [None] for fire-and-forget requests; a sender is known by its call *)
  w_sender : option nat
}.

(** [Inner]. *)
Record Inner : Type := {
  sync_running : bool;
  waiters : list Waiter
}.

Definition add_waiter (t : SyncType) (force : bool) (sender : option nat) (inner : Inner)
    : Inner * bool :=
  let ws := waiters inner ++ [{| w_sync_type := t; w_force := force; w_sender := sender |}] in
  if sync_running inner then ({| sync_running := sync_running inner; waiters := ws |}, false)
  else ({| sync_running := true; waiters := ws |}, true).

Record Batch : Type := {
  batch_type : SyncType;
  batch_force : bool;
  batch_senders : list nat
}.

(** One turn of [for waiter in inner.waiters.drain(..)]. *)
Definition drain_waiter (acc : Batch * list Waiter) (waiter : Waiter) : Batch * list Waiter :=
  let '(b, remaining) := acc in
  if w_sync_type waiter =? batch_type b then
    ({| batch_type := batch_type b;
        batch_force := batch_force b || w_force waiter;
        batch_senders := match w_sender waiter with
                         | Some sender => batch_senders b ++ [sender]
                         | None => batch_senders b end |}, remaining)
  else (b, remaining ++ [waiter]).

(** The critical section of [run_sync_loop]: the next batch, or none. *)
Definition take_batch (inner : Inner) : Inner * option Batch :=
  match waiters inner with
  | [] => ({| sync_running := false; waiters := waiters inner |}, None)
  | first :: _ =>
      let b := {| batch_type := w_sync_type first; batch_force := false; batch_senders := [] |} in
      let '(b, remaining) := foldl drain_waiter (b, []) (waiters inner) in
      ({| sync_running := sync_running inner; waiters := remaining |}, Some b)
  end.

(** How the request of [run_single_sync] ends: served by the sync loop of the wallet,
    refused because nobody listens, or dropped. *)
Inductive Reply : Type :=
| Served (env : SyncEnv)
| SendFailed (e : SdkError)
| ReplyClosed (e : SdkError).

Definition run_single_sync (sync_interval_secs : Z) (b : Batch) (reply : Reply)
    : result unit SdkError * list SyncType :=
  match reply with
  | Served env =>
      let eff := sync_wallet_internal sync_interval_secs (batch_type b) (batch_force b) env in
      (eff_result eff, eff_parts eff)
  | SendFailed e | ReplyClosed e => (Err e, [])
  end.

(** ** The transition system *)

(** Where a running loop is: before its critical section, or syncing batch number [n]. *)
Inductive Phase : Type := Taking | Syncing (n : nat) (b : Batch).

(** A call of [trigger_sync_and_wait] and the syncs started before it. *)
Record Call : Type := { c_type : SyncType; c_force : bool; c_born : nat }.

(** The result a caller was sent, and the sync it came from. *)
Record Answer : Type := {
  a_sync : nat;
  a_type : SyncType;
  a_force : bool;
  a_result : result unit SdkError;
  a_parts : list SyncType
}.

Record CoordState : Type := {
  inner : Inner;
  loops : list Phase;
  calls : list Call;
  syncs_started : nat;
  answers : list (nat * Answer)
}.

Definition coord_new : CoordState :=
  {| inner := {| sync_running := false; waiters := [] |};
     loops := []; calls := []; syncs_started := 0; answers := [] |}.

Inductive Label : Type :=
| TriggerAndWait (t : SyncType) (force : bool)
| TriggerNoWait (t : SyncType) (force : bool)
| LoopTakes (i : nat)
| SyncEnds (i : nat) (reply : Reply).

Context (sync_interval_secs : Z).

Definition start_loop (should_run : bool) (ls : list Phase) : list Phase :=
  if should_run then ls ++ [Taking] else ls.

Definition coord_step (l : Label) (s : CoordState) : option CoordState :=
  match l with
  | TriggerAndWait t force =>
      let '(inn, should_run) := add_waiter t force (Some (length (calls s))) (inner s) in
      Some {| inner := inn; loops := start_loop should_run (loops s);
              calls := calls s ++ [{| c_type := t; c_force := force; c_born := syncs_started s |}];
              syncs_started := syncs_started s; answers := answers s |}
  | TriggerNoWait t force =>
      let '(inn, should_run) := add_waiter t force None (inner s) in
      Some {| inner := inn; loops := start_loop should_run (loops s); calls := calls s;
              syncs_started := syncs_started s; answers := answers s |}
  | LoopTakes i =>
      match loops s !! i with
      | Some Taking =>
          match take_batch (inner s) with
          | (inn, None) =>
              Some {| inner := inn; loops := delete i (loops s); calls := calls s;
                      syncs_started := syncs_started s; answers := answers s |}
          | (inn, Some b) =>
              Some {| inner := inn; loops := <[i := Syncing (syncs_started s) b]> (loops s);
                      calls := calls s; syncs_started := S (syncs_started s);
                      answers := answers s |}
          end
      | _ => None
      end
  | SyncEnds i reply =>
      match loops s !! i with
      | Some (Syncing n b) =>
          let '(r, parts) := run_single_sync sync_interval_secs b reply in
          let a := {| a_sync := n; a_type := batch_type b; a_force := batch_force b;
                      a_result := r; a_parts := parts |} in
          Some {| inner := inner s; loops := <[i := Taking]> (loops s); calls := calls s;
                  syncs_started := syncs_started s;
                  answers := answers s ++ ((λ id, (id, a)) <$> batch_senders b) |}
      | _ => None
      end
  end.

Definition coord_steps (ls : list Label) (s : CoordState) : option CoordState :=
  foldl (λ os l, s ← os; coord_step l s) (Some s) ls.

Definition coord_reachable (s : CoordState) : Prop := ∃ ls, coord_steps ls coord_new = Some s.

(** ** The invariant *)

Definition senders_of (ws : list Waiter) : list nat := omap w_sender ws.

Definition batch_of (ph : Phase) : list nat :=
  match ph with Taking => [] | Syncing _ b => batch_senders b end.

(** Call [id] is served by a sync of its own type, started after it, forced if it asked so. *)
Definition serves (cs : list Call) (id : nat) (n : nat) (t : SyncType) (force : bool) : Prop :=
  ∃ c, cs !! id = Some c ∧ c_type c = t ∧ (c_force c = true → force = true) ∧ (c_born c ≤ n)%nat.

Definition waiter_ok (cs : list Call) (started : nat) (w : Waiter) : Prop :=
  ∀ id, w_sender w = Some id → serves cs id started (w_sync_type w) (w_force w).

Definition phase_ok (cs : list Call) (started : nat) (ph : Phase) : Prop :=
  match ph with
  | Taking => True
  | Syncing n b => (n < started)%nat ∧
      ∀ id, id ∈ batch_senders b → serves cs id n (batch_type b) (batch_force b)
  end.

(** A forced sync that the wallet served ran every part of its type. *)
Definition parts_of (t : SyncType) : list SyncType :=
  List.filter (contains t) [Wallet; WalletState; LnurlMetadata; Deposits].

Definition answer_ok (cs : list Call) (started : nat) (p : nat * Answer) : Prop :=
  let '(id, a) := p in
  (a_sync a < started)%nat ∧ serves cs id (a_sync a) (a_type a) (a_force a) ∧
  (a_force a = true → a_result a = Ok tt → a_parts a = parts_of (a_type a)).

Record coord_inv (s : CoordState) : Prop := {
  ci_loop : (loops s = [] ∧ sync_running (inner s) = false ∧ waiters (inner s) = []) ∨
            (∃ ph, loops s = [ph] ∧ sync_running (inner s) = true);
  ci_once : senders_of (waiters (inner s)) ++ (loops s ≫= batch_of) ++ (answers s).*1
              ≡ₚ seq 0 (length (calls s));
  ci_waiters : Forall (waiter_ok (calls s) (syncs_started s)) (waiters (inner s));
  ci_loops : Forall (phase_ok (calls s) (syncs_started s)) (loops s);
  ci_answers : Forall (answer_ok (calls s) (syncs_started s)) (answers s)
}.

Lemma serves_extend cs cs' n n' id t force :
  (n ≤ n')%nat → serves cs id n t force → serves (cs ++ cs') id n' t force.
Proof.
  intros Hn (c & Hc & Ht & Hf & Hb). exists c. split_and!; [by apply lookup_app_l_Some|done..|lia].
Qed.

Lemma waiter_ok_extend cs cs' n n' w :
  (n ≤ n')%nat → waiter_ok cs n w → waiter_ok (cs ++ cs') n' w.
Proof. intros Hn H id Hid. eapply serves_extend; eauto. Qed.

Lemma phase_ok_extend cs cs' n n' ph :
  (n ≤ n')%nat → phase_ok cs n ph → phase_ok (cs ++ cs') n' ph.
Proof.
  intros Hn. destruct ph as [|m b]; [done|]. intros [Hm H]. split; [lia|].
  intros id Hid. eapply serves_extend; eauto.
Qed.

Lemma answer_ok_extend cs cs' n n' p :
  (n ≤ n')%nat → answer_ok cs n p → answer_ok (cs ++ cs') n' p.
Proof.
  intros Hn. destruct p as [id a]. intros (Ha & Hs & Hp). split_and!; [lia| |done].
  eapply serves_extend; eauto.
Qed.

(** ** Batches *)

Lemma drain_waiters_spec b0 rem0 ws :
  let '(b, rem) := foldl drain_waiter (b0, rem0) ws in
  let mine := List.filter (λ w, w_sync_type w =? batch_type b0) ws in
  batch_type b = batch_type b0 ∧
  batch_force b = batch_force b0 || existsb w_force mine ∧
  batch_senders b = batch_senders b0 ++ senders_of mine ∧
  rem = rem0 ++ List.filter (λ w, negb (w_sync_type w =? batch_type b0)) ws.
Proof.
  revert b0 rem0. induction ws as [|w ws IH]; intros b0 rem0; simpl.
  { by rewrite orb_false_r, !app_nil_r. }
  destruct (w_sync_type w =? batch_type b0) eqn:E; simpl.
  - specialize (IH {| batch_type := batch_type b0; batch_force := batch_force b0 || w_force w;
      batch_senders := match w_sender w with
        | Some sender => batch_senders b0 ++ [sender] | None => batch_senders b0 end |} rem0).
    destruct (foldl _ _ ws) as [b rem]. simpl in IH. destruct IH as (-> & -> & -> & ->).
    split_and!; [done|by rewrite orb_assoc| |done].
    destruct (w_sender w); [by rewrite <- app_assoc|done].
  - specialize (IH b0 (rem0 ++ [w])). destruct (foldl _ _ ws) as [b rem].
    destruct IH as (-> & -> & -> & ->). by rewrite <- app_assoc.
Qed.

(** A batch takes exactly the waiters of the first waiter's type. *)
Lemma take_batch_some inn inn' b :
  take_batch inn = (inn', Some b) →
  let mine := List.filter (λ w, w_sync_type w =? batch_type b) (waiters inn) in
  (∃ w ws, waiters inn = w :: ws ∧ batch_type b = w_sync_type w) ∧
  sync_running inn' = sync_running inn ∧
  batch_force b = existsb w_force mine ∧ batch_senders b = senders_of mine ∧
  waiters inn' = List.filter (λ w, negb (w_sync_type w =? batch_type b)) (waiters inn).
Proof.
  unfold take_batch. destruct (waiters inn) as [|w ws] eqn:Hw; [done|].
  pose proof (drain_waiters_spec
    {| batch_type := w_sync_type w; batch_force := false; batch_senders := [] |} [] (w :: ws)) as H.
  destruct (foldl _ _ _) as [b' rem]. destruct H as (Ht & Hf & Hs & Hr). intros [= <- <-].
  rewrite Ht. simpl batch_type in *. split_and!; [by eauto|done|exact Hf|exact Hs|exact Hr].
Qed.

Lemma take_batch_none inn inn' :
  take_batch inn = (inn', None) →
  waiters inn = [] ∧ inn' = {| sync_running := false; waiters := [] |}.
Proof.
  unfold take_batch. destruct (waiters inn) as [|w ws] eqn:Hw; [by intros [= <-]|].
  by destruct (foldl _ _ _).
Qed.

Lemma senders_partition f ws :
  senders_of ws ≡ₚ senders_of (List.filter f ws) ++ senders_of (List.filter (λ w, negb (f w)) ws).
Proof.
  unfold senders_of. rewrite <- omap_app. apply omap_Permutation, bfilter_partition.
Qed.

Lemma elem_of_senders id ws : id ∈ senders_of ws ↔ ∃ w, w ∈ ws ∧ w_sender w = Some id.
Proof. unfold senders_of. by rewrite list_elem_of_omap. Qed.

Lemma forced_sync_runs_parts (b : Batch) (reply : Reply) :
  batch_force b = true → (run_single_sync sync_interval_secs b reply).1 = Ok tt →
  (run_single_sync sync_interval_secs b reply).2 = parts_of (batch_type b).
Proof.
  intros Hf. unfold run_single_sync. destruct reply as [env|e|e]; [|done|done].
  unfold sync_wallet_internal. rewrite Hf. unfold run_part, parts_of. cbn [List.filter].
  intros _. by destruct (contains _ Wallet), (contains _ WalletState),
    (contains _ LnurlMetadata), (contains _ Deposits).
Qed.

(** ** The steps preserve the invariant *)

Lemma fst_tag {B} (b : B) (l : list nat) : ((λ id, (id, b)) <$> l).*1 = l.
Proof. induction l as [|x l IH]; simpl; by f_equal. Qed.

Lemma coord_inv_new : coord_inv coord_new.
Proof. split; simpl; [by left|done|constructor..]. Qed.

(** Both triggers: a waiter is added, with or without a call of its own. *)
Lemma coord_inv_trigger t force sender cs' s :
  coord_inv s →
  (match sender with
   | Some id => id = length (calls s) ∧
       cs' = [{| c_type := t; c_force := force; c_born := syncs_started s |}]
   | None => cs' = [] end) →
  let '(inn, should_run) := add_waiter t force sender (inner s) in
  coord_inv {| inner := inn; loops := start_loop should_run (loops s); calls := calls s ++ cs';
               syncs_started := syncs_started s; answers := answers s |}.
Proof.
  intros [Hl Ho Hw Hp Ha] Hcs. unfold add_waiter.
  set (w := {| w_sync_type := t; w_force := force; w_sender := sender |}).
  assert (∃ lp, start_loop (negb (sync_running (inner s))) (loops s) = [lp] ∧
          [lp] ≫= batch_of = loops s ≫= batch_of ∧ phase_ok (calls s) (syncs_started s) lp)
    as (lp & Hlp & Hb & Hlpok).
  { destruct Hl as [(-> & -> & _)|(ph & E & ->)]; [exists Taking; split_and!; [done|done|exact I]|].
    rewrite E in Hp |- *. exists ph. rewrite Forall_singleton in Hp. by split_and!. }
  assert (coord_inv {| inner := {| sync_running := true; waiters := waiters (inner s) ++ [w] |};
            loops := [lp]; calls := calls s ++ cs'; syncs_started := syncs_started s;
            answers := answers s |}) as H.
  { split; simpl.
    - right. by exists lp.
    - unfold senders_of. rewrite omap_app. fold (senders_of (waiters (inner s))). simpl in Hb. rewrite Hb.
      rewrite length_app, seq_app, <- Ho. simpl. destruct sender as [id|]; simpl.
      + destruct Hcs as [-> ->]. simpl. rewrite <- !app_assoc. simpl. solve_Permutation.
      + rewrite Hcs, !app_nil_r. done.
    - apply Forall_app. split.
      + eapply Forall_impl; [exact Hw|]. intros x. by apply waiter_ok_extend.
      + apply Forall_singleton. intros id Hid. simpl in Hid. subst sender. destruct Hcs as [-> ->].
        eexists. split; [by apply list_lookup_middle|]. by split_and!.
    - apply Forall_singleton. by eapply phase_ok_extend.
    - eapply Forall_impl; [exact Ha|]. intros x. by apply answer_ok_extend. }
  destruct (sync_running (inner s)); simpl in Hlp |- *; by rewrite Hlp.
Qed.

Lemma coord_inv_take s inn b :
  coord_inv s → loops s = [Taking] → take_batch (inner s) = (inn, Some b) →
  coord_inv {| inner := inn; loops := [Syncing (syncs_started s) b]; calls := calls s;
               syncs_started := S (syncs_started s); answers := answers s |}.
Proof.
  intros [Hl Ho Hw Hp Ha] Hlp (Hfirst & Hrun & Hf & Hs & Hrest)%take_batch_some.
  rewrite Hlp in *. split; simpl.
  - right. eexists. split; [done|]. rewrite Hrun. destruct Hl as [[? _]|(? & _ & ?)]; done.
  - rewrite app_nil_r, Hs, Hrest, <- Ho. simpl.
    rewrite (senders_partition (λ w, w_sync_type w =? batch_type b) (waiters (inner s))).
    solve_Permutation.
  - rewrite Hrest. eapply Forall_sublist; [apply sublist_bfilter|].
    eapply Forall_impl; [exact Hw|]. intros w Hok id Hid. rewrite <- (app_nil_r (calls s)).
    eapply serves_extend; [|by apply Hok]. lia.
  - apply Forall_singleton. split; [lia|]. rewrite Hs. intros id Hid.
    apply elem_of_senders in Hid as (w & Hin & Hid). apply elem_of_bfilter in Hin as [Hin Ht].
    rewrite Forall_forall in Hw. destruct (Hw w Hin id Hid) as (c & Hc & Hct & Hcf & Hcb).
    exists c. split_and!; [done|lia| |done]. intros Hforce. rewrite Hf. apply existsb_elem.
    exists w. rewrite elem_of_bfilter. auto.
  - eapply Forall_impl; [exact Ha|]. intros x Hx. rewrite <- (app_nil_r (calls s)).
    eapply answer_ok_extend; [|done]. lia.
Qed.

Lemma coord_inv_end s n b r parts (a : Answer) :
  coord_inv s → loops s = [Syncing n b] →
  a = {| a_sync := n; a_type := batch_type b; a_force := batch_force b; a_result := r; a_parts := parts |} →
  (batch_force b = true → r = Ok tt → parts = parts_of (batch_type b)) →
  coord_inv {| inner := inner s; loops := [Taking]; calls := calls s;
               syncs_started := syncs_started s;
               answers := answers s ++ ((λ id, (id, a)) <$> batch_senders b) |}.
Proof.
  intros [Hl Ho Hw Hp Ha] Hlp -> Hparts. rewrite Hlp in *.
  rewrite Forall_singleton in Hp. destruct Hp as [Hn Hserves]. split; simpl.
  - right. eexists. split; [done|]. destruct Hl as [[? _]|(? & _ & ?)]; done.
  - rewrite <- Ho. simpl. rewrite fmap_app, fst_tag, app_nil_r. solve_Permutation.
  - done.
  - by repeat constructor.
  - apply Forall_app. split; [done|]. apply Forall_fmap, Forall_forall. intros id Hid.
    split_and!; [done|by apply Hserves|done].
Qed.

Lemma coord_inv_step l s s' : coord_inv s → coord_step l s = Some s' → coord_inv s'.
Proof.
  intros Hinv. destruct l as [t force|t force|i|i reply]; simpl.
  - pose proof (coord_inv_trigger t force (Some (length (calls s))) _ s Hinv (conj eq_refl eq_refl)) as H.
    destruct (add_waiter _ _ _ _) as [inn run]. by intros [= <-].
  - pose proof (coord_inv_trigger t force None [] s Hinv eq_refl) as H.
    destruct (add_waiter _ _ _ _) as [inn run]. rewrite app_nil_r in H. by intros [= <-].
  - destruct (loops s !! i) as [[|]|] eqn:Hi; [|done..].
    pose proof Hinv as [Hl _ _ _ _]. destruct Hl as [(Hl & _)|(ph & Hl & _)]; rewrite Hl in Hi |- *; [done|].
    destruct i; [|done]. injection Hi as ->.
    destruct (take_batch (inner s)) as [inn [b|]] eqn:Ht; intros [= <-]; simpl.
    + by apply coord_inv_take.
    + apply take_batch_none in Ht as [Hw ->]. destruct Hinv as [_ Ho _ _ Ha]. rewrite Hw, Hl in Ho.
      split; simpl; [by left|done|constructor..|done].
  - destruct (loops s !! i) as [[|n b]|] eqn:Hi; [done| |done].
    destruct (run_single_sync sync_interval_secs b reply) as [r parts] eqn:Hr. intros [= <-].
    pose proof Hinv as [Hl _ _ _ _]. destruct Hl as [(Hl & _)|(ph & Hl & _)]; rewrite Hl in Hi |- *; [done|].
    destruct i; [|done]. injection Hi as ->. simpl.
    eapply coord_inv_end; [done|done|done|]. intros Hf ->.
    pose proof (forced_sync_runs_parts b reply Hf) as Hparts. rewrite Hr in Hparts. by apply Hparts.
Qed.

Lemma coord_steps_app ls1 ls2 s :
  coord_steps (ls1 ++ ls2) s =
  (s' ← coord_steps ls1 s; coord_steps ls2 s').
Proof.
  unfold coord_steps. rewrite foldl_app. destruct (foldl _ (Some s) ls1); [done|].
  simpl. by induction ls2.
Qed.

Lemma coord_inv_steps ls s s' : coord_inv s → coord_steps ls s = Some s' → coord_inv s'.
Proof.
  revert s'. induction ls as [|l ls IH] using rev_ind; intros s' Hs; [by intros [= <-]|].
  rewrite coord_steps_app. destruct (coord_steps ls s) as [s1|] eqn:E; [|done]. simpl.
  intros Hl. eapply coord_inv_step; [by apply IH|exact Hl].
Qed.

Lemma coord_inv_reachable s : coord_reachable s → coord_inv s.
Proof. intros [ls Hls]. eapply coord_inv_steps; [apply coord_inv_new|done]. Qed.

(** C6: in every state the coordinator can reach, at most one loop runs, and it runs
    whenever somebody waits; every call of [trigger_sync_and_wait] is exactly once
    waiting, in the running batch, or answered; and an answer comes from a sync of the
    call's type that started after the call, was forced if the call asked for it, and
    -- if it was forced and succeeded -- ran every part of its type. *)
Theorem sync_coordinator_guarantee s :
  coord_reachable s →
  (length (loops s) ≤ 1)%nat ∧ (waiters (inner s) ≠ [] → length (loops s) = 1%nat) ∧
  senders_of (waiters (inner s)) ++ (loops s ≫= batch_of) ++ (answers s).*1
    ≡ₚ seq 0 (length (calls s)) ∧
  ∀ id a, (id, a) ∈ answers s →
    ∃ c, calls s !! id = Some c ∧ a_type a = c_type c ∧ (c_born c ≤ a_sync a < syncs_started s)%nat ∧
         (c_force c = true → a_force a = true ∧ (a_result a = Ok tt → a_parts a = parts_of (c_type c))).
Proof.
  intros [Hl Ho Hw Hp Ha]%coord_inv_reachable. split_and!; [| |done|].
  - destruct Hl as [(-> & _)|(ph & -> & _)]; simpl; lia.
  - destruct Hl as [(_ & _ & ->)|(ph & -> & _)]; done.
  - intros id a Hin. rewrite Forall_forall in Ha.
    destruct (Ha _ Hin) as (Hn & (c & Hc & Ht & Hf & Hb) & Hparts).
    exists c. split_and!; [done|done|done|done|]. intros Hforce.
    specialize (Hf Hforce). split; [done|]. intros Hok. rewrite Ht. by apply Hparts.
Qed.

(** ** The loop answers everybody *)

(** [run_sync_loop] of the loop that runs, alone, sync number [n] ending with [reply n]. *)
Fixpoint run_sync_loop (fuel : nat) (reply : nat → Reply) (s : CoordState) : option CoordState :=
  match fuel with
  | O => None
  | S fuel =>
      match loops s with
      | [] => Some s
      | Taking :: _ => s ← coord_step (LoopTakes 0) s; run_sync_loop fuel reply s
      | Syncing n _ :: _ => s ← coord_step (SyncEnds 0 (reply n)) s; run_sync_loop fuel reply s
      end
  end.

Definition types_of (ws : list Waiter) : list SyncType := remove_dups (w_sync_type <$> ws).

Definition loop_measure (s : CoordState) : nat :=
  2 * length (waiters (inner s)) +
  match loops s with [] => 0 | Taking :: _ => 1 | Syncing _ _ :: _ => 2 end.

(** Taking a batch leaves one type fewer. *)
Lemma types_of_rest t w ws :
  t = w_sync_type w →
  length (types_of (w :: ws)) =
    S (length (types_of (List.filter (λ x, negb (w_sync_type x =? t)) (w :: ws)))).
Proof.
  intros ->. set (rest := List.filter _ _).
  assert (types_of (w :: ws) ≡ₚ w_sync_type w :: types_of rest) as ->; [|done].
  apply NoDup_Permutation; [apply NoDup_remove_dups|constructor; [|apply NoDup_remove_dups]|].
  - unfold types_of. rewrite elem_of_remove_dups, list_elem_of_fmap.
    intros (x & Hx & Hin). apply elem_of_bfilter in Hin as [_ Hne]. lia.
  - intros t. unfold types_of. rewrite elem_of_cons, !elem_of_remove_dups, !list_elem_of_fmap. split.
    + intros (x & -> & Hx). destruct (Z.eq_dec (w_sync_type x) (w_sync_type w)); [by left|right].
      exists x. split; [done|]. apply elem_of_bfilter. split; [done|lia].
    + intros [->|(x & -> & Hx)].
      * exists w. split; [done|by left].
      * exists x. split; [done|]. by apply elem_of_bfilter in Hx as [? _].
Qed.

Lemma run_sync_loop_spec fuel reply s :
  coord_inv s → (loop_measure s < fuel)%nat →
  ∃ s', run_sync_loop fuel reply s = Some s' ∧ coord_inv s' ∧ loops s' = [] ∧
    calls s' = calls s ∧ answers s `prefix_of` answers s' ∧
    syncs_started s' = (syncs_started s + length (types_of (waiters (inner s))))%nat.
Proof.
  revert s. induction fuel as [|fuel IH]; intros s Hinv Hm; [lia|]. cbn [run_sync_loop].
  pose proof Hinv as [Hl _ _ _ _]. destruct Hl as [(Hl & _ & Hw)|(ph & Hl & Hrun)]; rewrite Hl.
  { exists s. rewrite Hw. split_and!; auto with lia. }
  unfold loop_measure in Hm. rewrite Hl in Hm. destruct ph as [|n b].
  - destruct (coord_step (LoopTakes 0) s) as [s1|] eqn:Hs1; pose proof Hs1 as Hs1'; cbn in Hs1';
      rewrite Hl in Hs1'; cbn in Hs1'; destruct (take_batch (inner s)) as [inn [b|]] eqn:Ht;
      [| |done..]; injection Hs1' as <-; eapply coord_inv_step in Hs1 as Hinv1; try exact Hinv; cbn [mbind option_bind].
    + apply take_batch_some in Ht as ((w & ws & Hw & Hbt) & Hr & _ & _ & Hrest).
      pose proof (types_of_rest (batch_type b) w ws Hbt) as Htypes.
      destruct (IH _ Hinv1) as (s' & Hs' & Hi & Hlp & Hc & Ha & Hn).
      { unfold loop_measure. simpl. rewrite Hrest, Hw. simpl. rewrite Hbt, Z.eqb_refl. simpl.
        pose proof (sublist_length _ _ (sublist_bfilter
          (λ x, negb (w_sync_type x =? w_sync_type w)) ws)). rewrite Hw in Hm. simpl in Hm. lia. }
      exists s'. split_and!; try done. rewrite Hn. simpl. rewrite Hrest, Hw, Htypes. lia.
    + apply take_batch_none in Ht as [Hw ->].
      destruct (IH _ Hinv1) as (s' & Hs' & Hi & Hlp & Hc & Ha & Hn).
      { unfold loop_measure. simpl. lia. }
      exists s'. split_and!; try done. rewrite Hn. simpl. by rewrite Hw.
  - destruct (coord_step (SyncEnds 0 (reply n)) s) as [s1|] eqn:Hs1; pose proof Hs1 as Hs1'; cbn in Hs1';
      rewrite Hl in Hs1'; cbn in Hs1'; destruct (run_single_sync _ _ _) as [r parts]; [|done].
    injection Hs1' as <-. eapply coord_inv_step in Hs1 as Hinv1; [|exact Hinv]. cbn [mbind option_bind].
    destruct (IH _ Hinv1) as (s' & Hs' & Hi & Hlp & Hc & Ha & Hn).
    { unfold loop_measure. simpl. lia. }
    exists s'. split_and!; try done. etrans; [|exact Ha]. by apply prefix_app_r.
Qed.

(** C9: nobody waits for ever: from every reachable state, if each sync ends -- with
    any result -- the loop stops after at most two steps per waiter, having started one
    sync per distinct type that was waiting, and then every call made so far is
    answered exactly once and the coordinator is idle, ready to start again. *)
Theorem sync_loop_answers_everybody s reply :
  coord_reachable s →
  ∃ s', run_sync_loop (2 * length (waiters (inner s)) + 3) reply s = Some s' ∧
    loops s' = [] ∧ inner s' = {| sync_running := false; waiters := [] |} ∧
    (answers s').*1 ≡ₚ seq 0 (length (calls s)) ∧ answers s `prefix_of` answers s' ∧
    syncs_started s' = (syncs_started s + length (types_of (waiters (inner s))))%nat.
Proof.
  intros Hinv%coord_inv_reachable. destruct (run_sync_loop_spec (2 * length (waiters (inner s)) + 3) reply s Hinv)
    as (s' & Hs' & [Hl Ho _ _ _] & Hlp & Hc & Ha & Hn).
  { unfold loop_measure. destruct (loops s) as [|[]]; lia. }
  exists s'. destruct Hl as [(_ & Hr & Hw)|(ph & E & _)]; [|by rewrite Hlp in E].
  rewrite Hlp, Hw, Hc in Ho. destruct (inner s') as [r w]. simpl in *. subst. by split_and!.
Qed.

(** ** A cancelled loop *)

(** The future that runs the loop is dropped, and the senders of its batch with it. *)
Definition drop_loop (i : nat) (s : CoordState) : CoordState :=
  {| inner := inner s; loops := delete i (loops s); calls := calls s;
     syncs_started := syncs_started s; answers := answers s |}.

(** A coordinator whose flag is set without a loop never syncs again. *)
Lemma dropped_loop_blocks ls s s' :
  loops s = [] → sync_running (inner s) = true → coord_steps ls s = Some s' →
  loops s' = [] ∧ sync_running (inner s') = true ∧ syncs_started s' = syncs_started s ∧
  answers s' = answers s.
Proof.
  revert s'. induction ls as [|l ls IH] using rev_ind; intros s' Hl Hr; [by intros [= <-]|].
  rewrite coord_steps_app. destruct (coord_steps ls s) as [s1|]; [|done].
  destruct (IH s1 Hl Hr eq_refl) as (Hl1 & Hr1 & Hn1 & Ha1).
  unfold coord_steps. simpl. destruct l; simpl; unfold add_waiter; rewrite ?Hl1, ?Hr1; simpl;
    [by intros [= <-]..|done|done].
Qed.
End sync.

(** ** Witnesses *)

(** Two unforced calls, one of them while the first sync runs, and a forced one. *)
Definition demo_labels : list (@Label unit) :=
  [TriggerAndWait Full false; LoopTakes 0; TriggerAndWait WalletState true; TriggerNoWait Full false;
   TriggerAndWait Full false].

Definition demo_reply (n : nat) : @Reply unit :=
  Served {| env_last := Ok (Some 95); env_now := 100; env_set_ok := true; env_wallet := true;
            env_wallet_state := true; env_lnurl := false; env_deposits := true |}.

Lemma sync_coordinator_guarantee_witness :
  let s := default coord_new (coord_steps 60 (demo_labels ++ [SyncEnds 0 (demo_reply 0); LoopTakes 0;
             SyncEnds 0 (demo_reply 1)]) coord_new) in
  (answers s).*1 = [0%nat; 1%nat] ∧
  (length (loops s) ≤ 1)%nat ∧ (waiters (inner s) ≠ [] → length (loops s) = 1%nat) ∧
  senders_of (waiters (inner s)) ++ (loops s ≫= batch_of) ++ (answers s).*1
    ≡ₚ seq 0 (length (calls s)) ∧
  ∀ id a, (id, a) ∈ answers s →
    ∃ c, calls s !! id = Some c ∧ a_type a = c_type c ∧ (c_born c ≤ a_sync a < syncs_started s)%nat ∧
         (c_force c = true → a_force a = true ∧ (a_result a = Ok tt → a_parts a = parts_of (c_type c))).
Proof.
  split; [vm_compute; reflexivity|]. apply (sync_coordinator_guarantee 60).
  exists (demo_labels ++ [SyncEnds 0 (demo_reply 0); LoopTakes 0; SyncEnds 0 (demo_reply 1)]).
  vm_compute. reflexivity.
Defined.

Lemma sync_loop_answers_everybody_witness :
  let s := default coord_new (coord_steps 60 demo_labels coord_new) in
  ∃ s', run_sync_loop 60 (2 * length (waiters (inner s)) + 3) demo_reply s = Some s' ∧
    loops s' = [] ∧ inner s' = {| sync_running := false; waiters := [] |} ∧
    (answers s').*1 ≡ₚ seq 0 (length (calls s)) ∧ answers s `prefix_of` answers s' ∧
    syncs_started s' = (syncs_started s + length (types_of (waiters (inner s))))%nat.
Proof.
  apply sync_loop_answers_everybody. exists demo_labels. vm_compute. reflexivity.
Defined.
