(* ===== verification/SecretSharing.v ===== *)
(** Shamir secret sharing with proofs: [crates/spark/src/signer/secret_sharing.rs] and
    the shares of [signer/models.rs].

    The scalars are a field and the points of the curve a vector space over it with a
    chosen generator; both are parameters, as is the decoding of 32 bytes to a scalar.
    [reconstruct_secret] is the reconstruction of the file's own tests. *)
From HB Require Import structures.
From mathcomp Require Import ssreflect ssrfun ssrbool eqtype ssrnat seq choice fintype.
From mathcomp Require Import div prime bigop ssralg poly zmodp.

Set Implicit Arguments.
Unset Strict Implicit.
Unset Printing Implicit Defensive.

Import GRing.Theory.
Local Open Scope ring_scope.

(** ** Errors *)

(** The texts of [SignerError::SecretSharingError], with their arguments. *)
Inductive SharingError : Type :=
| InvalidByteLength (got : nat)
| ScalarConversion
| InvalidThreshold (threshold number_of_shares : nat)
| PubkeyConversion
| NoShares
| NotEnoughShares (need got : nat).

Inductive outcome (A : Type) : Type :=
| Success (a : A)
| Failure (e : SharingError).
Arguments Success {A} a.
Arguments Failure {A} e.

Definition obind {A B : Type} (r : outcome A) (f : A -> outcome B) : outcome B :=
  match r with Success a => f a | Failure e => Failure e end.

Notation "'let?' x ':=' r 'in' k" := (obind r (fun x => k))
  (at level 200, x binder, r at level 100, k at level 200).

Section sharing.
Variable (Scalar : fieldType) (Point : lmodType Scalar).
(** [ProjectivePoint::GENERATOR]. *)
Variable GENERATOR : Point.
(** [Scalar::from_repr_vartime]. *)
Variable from_repr_vartime : seq Byte.byte -> option Scalar.

(** ** Data *)

Record Polynomial : Type := { coefficients : seq Scalar; poly_proofs : seq Point }.

Record SecretShare : Type := { threshold : nat; index : Scalar; share : Scalar }.

Record VerifiableSecretShare : Type := { secret_share : SecretShare; proofs : seq Point }.

(** ** The code *)

(** [for coeff in self.coefficients.iter().rev() { result = result * x + coeff }]. *)
Definition evaluate (p : Polynomial) (x : Scalar) : Scalar :=
  foldl (fun result coeff => result * x + coeff) 0 (rev (coefficients p)).

Definition from_bytes_to_scalar (bytes : seq Byte.byte) : outcome Scalar :=
  if size bytes != 32%N then Failure (InvalidByteLength (size bytes))
  else match from_repr_vartime bytes with
       | Some s => Success s
       | None => Failure ScalarConversion
       end.

(** [PublicKey::from_affine] refuses the point at infinity. *)
Definition scalar_to_pubkey (secret : Scalar) : outcome Point :=
  let point := secret *: GENERATOR in
  if point == 0 then Failure PubkeyConversion else Success point.

(** The random coefficients; the generator draws [random i] in turn [i]. *)
Fixpoint random_coefficients (random : nat -> seq Byte.byte) (turns : seq nat) (p : Polynomial)
    : outcome Polynomial :=
  match turns with
  | [::] => Success p
  | i :: turns =>
      let? random_scalar := from_bytes_to_scalar (random i) in
      let? proof := scalar_to_pubkey random_scalar in
      random_coefficients random turns
        {| coefficients := rcons (coefficients p) random_scalar;
           poly_proofs := rcons (poly_proofs p) proof |}
  end.

Definition generate_polynomial_for_secret_sharing (random : nat -> seq Byte.byte)
    (secret : Scalar) (threshold : nat) : outcome Polynomial :=
  let degree := threshold.-1 in
  let? proof := scalar_to_pubkey secret in
  random_coefficients random (iota 1 degree)
    {| coefficients := [:: secret]; poly_proofs := [:: proof] |}.

Definition share_at (p : Polynomial) (threshold i : nat) : VerifiableSecretShare :=
  let index := i%:R in
  {| secret_share := {| threshold := threshold; index := index; share := evaluate p index |};
     proofs := poly_proofs p |}.

Definition split_secret_with_proofs (random : nat -> seq Byte.byte) (secret_scalar : Scalar)
    (threshold number_of_shares : nat) : outcome (seq VerifiableSecretShare) :=
  if (threshold == 0)%N || (number_of_shares < threshold)%N
  then Failure (InvalidThreshold threshold number_of_shares)
  else
    let? polynomial := generate_polynomial_for_secret_sharing random secret_scalar threshold in
    Success [seq share_at polynomial threshold i | i <- iota 1 number_of_shares].

(** ** Reconstruction *)

(** [yi * numerator * denominator.invert().unwrap_or(ZERO)]; the inverse of zero is zero. *)
Definition lagrange_term (xs : seq Scalar) (yi xi : Scalar) (i : nat) : Scalar :=
  let '(numerator, denominator) :=
    foldl (fun '(n, d) j => if i == j then (n, d) else (n * xs`_j, d * (xs`_j - xi)))
          (1, 1) (iota 0 (size xs)) in
  yi * numerator * denominator^-1.

Definition reconstruct_secret (shares : seq VerifiableSecretShare) : outcome Scalar :=
  match shares with
  | [::] => Failure NoShares
  | first :: _ =>
      let t := threshold (secret_share first) in
      if (size shares < t)%N then Failure (NotEnoughShares t (size shares))
      else
        let used := take t shares in
        let xs := [seq index (secret_share s) | s <- used] in
        let ys := [seq share (secret_share s) | s <- used] in
        Success (foldl (fun result i => result + lagrange_term xs ys`_i xs`_i i) 0 (iota 0 t))
  end.

(** ** Evaluation is the polynomial's *)

Lemma evaluateE (p : Polynomial) (x : Scalar) : evaluate p x = (Poly (coefficients p)).[x].
Proof.
rewrite /evaluate foldl_rev horner_Poly.
by elim: (coefficients p) => //= c cs ->.
Qed.

(** ** Interpolation at zero *)

Section interpolation.
Variables (xs : seq Scalar) (q : {poly Scalar}).
Hypothesis xs_uniq : uniq xs.
Hypothesis q_small : (size q <= size xs)%N.

(** The denominator and the numerator of the basis polynomial of point [i]. *)
Definition basis_den (i : nat) : Scalar :=
  \prod_(j <- iota 0 (size xs) | i != j) (xs`_j - xs`_i).
Definition basis_num (i : nat) : {poly Scalar} :=
  \prod_(j <- iota 0 (size xs) | i != j) ((xs`_j)%:P - 'X).

Definition interpolant : {poly Scalar} :=
  \sum_(i <- iota 0 (size xs)) (q.[xs`_i] / basis_den i) *: basis_num i.

Lemma basis_num_horner i x :
  (basis_num i).[x] = \prod_(j <- iota 0 (size xs) | i != j) (xs`_j - x).
Proof.
rewrite /basis_num horner_prod; apply: eq_bigr => j _.
by rewrite hornerD hornerN hornerC hornerX.
Qed.

Lemma basis_num_other i k :
  (k < size xs)%N -> i != k -> (basis_num i).[xs`_k] = 0.
Proof.
move=> Hk Hik; rewrite basis_num_horner big_mkcond (big_rem k) ?mem_iota ?add0n //= Hik.
by rewrite subrr mul0r.
Qed.

Lemma basis_den_neq0 i : (i < size xs)%N -> basis_den i != 0.
Proof.
move=> Hi; rewrite /basis_den prodf_seq_neq0; apply/allP => j; rewrite mem_iota add0n => Hj.
by apply/implyP => Hij; rewrite subr_eq0 nth_uniq // eq_sym.
Qed.

Lemma size_linear (c : Scalar) : (size (c%:P - 'X)%R <= 2)%N.
Proof. by rewrite -opprB size_polyN size_XsubC. Qed.

Lemma size_prod_linear (P : pred nat) (l : seq nat) :
  (size (\prod_(j <- l | P j) ((xs`_j)%:P - 'X))%R <= (count P l).+1)%N.
Proof.
elim: l => [|j l IH]; first by rewrite big_nil size_poly1.
rewrite big_cons /=; case: (P j) => //=.
apply: leq_trans (size_polyMleq _ _) _.
by rewrite -subn1 leq_subLR add1n -add2n leq_add // size_linear.
Qed.

Lemma size_basis_num i : (i < size xs)%N -> (size (basis_num i) <= size xs)%N.
Proof.
move=> Hi; apply: leq_trans (size_prod_linear _ _) _.
have Hc := count_predC (pred1 i) (iota 0 (size xs)).
rewrite size_iota count_uniq_mem ?iota_uniq // mem_iota add0n Hi add1n in Hc.
by rewrite -[X in (_ <= X)%N]Hc ltnS leq_eqVlt; apply/orP; left; apply/eqP; apply: eq_count => j /=;
  rewrite eq_sym.
Qed.

Lemma size_interpolant : (size interpolant <= size xs)%N.
Proof.
apply: (leq_trans (size_sum _ _ _)); apply/bigmax_leqP_seq => i; rewrite mem_iota add0n => Hi _.
exact: leq_trans (size_scale_leq _ _) (size_basis_num Hi).
Qed.

Lemma interpolant_at k : (k < size xs)%N -> interpolant.[xs`_k] = q.[xs`_k].
Proof.
move=> Hk; rewrite /interpolant horner_sum (bigD1_seq k) ?mem_iota ?add0n ?iota_uniq //=.
rewrite big1 ?addr0 => [i Hik|]; first by rewrite hornerZ basis_num_other ?mulr0.
by rewrite hornerZ basis_num_horner -/(basis_den k) mulfVK // basis_den_neq0.
Qed.

Lemma interpolant_eq : interpolant = q.
Proof.
apply/eqP; rewrite -subr_eq0; apply/eqP; apply: (@roots_geq_poly_eq0 _ _ xs) => //.
- apply/allP => x /(nthP 0) [k Hk <-].
  by rewrite rootE hornerD hornerN interpolant_at // subrr.
- by apply: leq_trans (size_polyD _ _) _; rewrite geq_max size_polyN q_small size_interpolant.
Qed.

(** The terms of [reconstruct_secret] are the basis polynomials at zero. *)
Lemma lagrange_term_basis i :
  lagrange_term xs q.[xs`_i] xs`_i i = ((q.[xs`_i] / basis_den i) *: basis_num i).[0].
Proof.
have Hfold : forall l n d,
  foldl (fun '(n, d) j => if i == j then (n, d) else (n * xs`_j, d * (xs`_j - xs`_i))) (n, d) l =
  (n * \prod_(j <- l | i != j) xs`_j, d * \prod_(j <- l | i != j) (xs`_j - xs`_i)).
  elim=> [|j l IH] n d /=; first by rewrite !big_nil !mulr1.
  by rewrite !big_cons; case: (i == j); rewrite IH //= !mulrA.
rewrite /lagrange_term Hfold !mul1r hornerZ basis_num_horner -/(basis_den i) mulrAC.
by congr (_ * _); apply: eq_bigr => j _; rewrite subr0.
Qed.

Lemma interpolation_at_zero :
  foldl (fun result i => result + lagrange_term xs q.[xs`_i] xs`_i i) 0 (iota 0 (size xs)) = q.[0].
Proof.
rewrite -[RHS]/(horner q 0) -[in RHS]interpolant_eq /interpolant horner_sum.
elim/last_ind: (iota 0 (size xs)) => [|l i IH]; first by rewrite big_nil.
by rewrite -cats1 foldl_cat big_cat big_seq1 /= IH lagrange_term_basis.
Qed.
End interpolation.

(** ** What a split returns *)

Lemma scalar_to_pubkey_ok secret point :
  scalar_to_pubkey secret = Success point -> point = secret *: GENERATOR.
Proof. by rewrite /scalar_to_pubkey; case: ifP => // _ [<-]. Qed.

Lemma random_coefficients_ok random turns p p' :
  random_coefficients random turns p = Success p' ->
  poly_proofs p = [seq c *: GENERATOR | c <- coefficients p] ->
  exists cs, [/\ size cs = size turns, coefficients p' = coefficients p ++ cs &
                 poly_proofs p' = [seq c *: GENERATOR | c <- coefficients p']].
Proof.
elim: turns p => [|i turns IH] p /=; first by case=> <-; exists [::]; rewrite cats0.
case: (from_bytes_to_scalar _) => //= c.
case Hpub: (scalar_to_pubkey c) => [point|] //=.
move/scalar_to_pubkey_ok: Hpub => -> /IH {}IH Hp.
case: IH => [|cs [Hs Hc Hproofs]]; first by rewrite /= Hp map_rcons.
by exists (c :: cs); split; rewrite //= ?Hs // Hc /= cat_rcons.
Qed.

Lemma split_ok random secret t n shares :
  split_secret_with_proofs random secret t n = Success shares ->
  [/\ (0 < t)%N, (t <= n)%N &
      exists p, [/\ size (coefficients p) = t, nth 0 (coefficients p) 0 = secret,
                    poly_proofs p = [seq c *: GENERATOR | c <- coefficients p] &
                    shares = [seq share_at p t i | i <- iota 1 n]]].
Proof.
rewrite /split_secret_with_proofs; case: ifP => // /negbT; rewrite negb_or -lt0n -leqNgt.
case/andP=> Ht Hn; rewrite /generate_polynomial_for_secret_sharing.
case Hpub: (scalar_to_pubkey secret) => [point|] //=.
move/scalar_to_pubkey_ok: Hpub => ->.
case Hr: (random_coefficients _ _ _) => [p|] //= [<-]; split=> //; exists p.
case: (random_coefficients_ok Hr) => // cs [Hs Hc Hproofs].
by split; rewrite // Hc //= Hs size_iota prednK.
Qed.

Lemma nth_share d p t n k :
  (k < n)%N -> nth d [seq share_at p t i | i <- iota 1 n] k = share_at p t k.+1.
Proof. by move=> Hk; rewrite (nth_map 0%N) ?size_iota // nth_iota // add1n. Qed.

(** Indices below the characteristic are different scalars. *)
Lemma index_inj p i j :
  p \in [pchar Scalar] -> (i < p)%N -> (j < p)%N -> i%:R = j%:R :> Scalar -> i = j.
Proof.
move=> Hp; wlog Hij : i j / (i <= j)%N => [H|Hi Hj E].
  by case/orP: (leq_total i j) => Hij Hi Hj E; [|symmetry]; apply: H.
have : (j - i)%:R == 0 :> Scalar by rewrite natrB // E subrr.
rewrite -(dvdn_pcharf Hp) => /dvdnP [q Hq].
have : (j - i < p)%N by apply: leq_ltn_trans Hj; apply: leq_subr.
rewrite Hq; case: q Hq => [|q] Hq; last by rewrite mulSn ltnNge leq_addr.
by move=> _; apply/eqP; rewrite eqn_leq Hij -subn_eq0 Hq.
Qed.

(** a split returns the requested number of shares, numbered from one; each carries
    the commitments to the coefficients -- the first to the secret itself -- and
    verifies against them: the generator times the share is the polynomial of the
    commitments at the share's index. *)
Theorem split_shares_verify random secret t n shares d :
  split_secret_with_proofs random secret t n = Success shares ->
  size shares = n /\
  forall k, (k < n)%N ->
    let s := nth d shares k in
    [/\ threshold (secret_share s) = t, index (secret_share s) = k.+1%:R,
        size (proofs s) = t, nth 0 (proofs s) 0 = secret *: GENERATOR &
        share (secret_share s) *: GENERATOR =
          \sum_(j < t) index (secret_share s) ^+ j *: nth 0 (proofs s) j].
Proof.
move=> split_success; case: (split_ok split_success) => Ht Hn [p [Hs H0 Hp ->]].
split=> [|k Hk]; first by rewrite size_map size_iota.
rewrite nth_share //=; split=> //; first by rewrite Hp size_map.
  by rewrite Hp (nth_map 0) ?Hs // H0.
rewrite evaluateE (horner_coef_wide _ (size_Poly _)) Hs scaler_suml.
apply: eq_bigr => j _; rewrite coef_Poly Hp (nth_map 0) ?Hs // scalerA.
by rewrite mulrC.
Qed.

Section split.
Variables (random : nat -> seq Byte.byte) (secret : Scalar) (t n : nat).
Variables (shares : seq (VerifiableSecretShare)) (d : VerifiableSecretShare).
Hypothesis split_success :
  split_secret_with_proofs random secret t n = Success shares.

Variable p : nat.
Hypothesis Hchar : p \in [pchar Scalar].
Hypothesis Hn : (n < p)%N.

Variable picks : seq nat.
Hypothesis picks_uniq : uniq picks.
Hypothesis picks_valid : all (fun k => (k < n)%N) picks.

Lemma picked_points :
  exists q, [/\ size (coefficients q) = t, nth 0 (coefficients q) 0 = secret,
    [seq nth d shares k | k <- picks] = [seq share_at q t k.+1 | k <- picks] &
    uniq [seq k.+1%:R : Scalar | k <- picks] ].
Proof.
case: (split_ok split_success) => _ _ [q [Hs H0 _ Hq]]; exists q; split=> //.
  by apply/eq_in_map => k Hk; rewrite Hq nth_share //; apply: (allP picks_valid).
rewrite map_inj_in_uniq // => i j Hi Hj E.
have Hlt m : m \in picks -> (m.+1 < p)%N.
  by move=> Hm; apply: leq_ltn_trans Hn; apply: (allP picks_valid).
by case: (index_inj Hchar (Hlt _ Hi) (Hlt _ Hj) E).
Qed.

(** C36: any [threshold] different shares reconstruct the secret, whichever they are and
    in whatever order, and fewer are refused. *)
Theorem shares_reconstruct_secret :
  reconstruct_secret [seq nth d shares k | k <- picks] =
  if picks is [::] then Failure NoShares
  else if (size picks < t)%N then Failure (NotEnoughShares t (size picks))
  else Success secret.
Proof.
case: picked_points => q [Hs H0 Hpick Huniq]; rewrite Hpick.
case: picks Huniq => [//|k ks]; rewrite [map]lock /= -lock => Huniq.
rewrite /= size_map; case: ltnP => //= Hsize; congr Success.
set l := k :: ks in Huniq Hsize *.
rewrite -[share_at q t k.+1 :: _]/([seq share_at q t i.+1 | i <- l]) -map_take -!map_comp /=.
set xs := map _ (take t l); set ys := map _ (take t l).
have Hxs : size xs = t by rewrite size_map size_take_min; apply/minn_idPl.
have Hx : uniq xs by rewrite /xs map_take take_uniq.
have Hq : (size (Poly (coefficients q)) <= size xs)%N by rewrite Hxs -Hs size_Poly.
transitivity (Poly (coefficients q)).[0]; last by rewrite horner_coef0 coef_Poly H0.
rewrite -(interpolation_at_zero Hx Hq) Hxs.
have Hys i : (i < t)%N -> ys`_i = (Poly (coefficients q)).[xs`_i].
  move=> Hi; rewrite /ys /xs !(nth_map 0%N) ?size_take_min ?leq_min ?Hi //=.
  1,2: by apply: leq_trans Hsize.
  by rewrite evaluateE.
have : {subset iota 0 t <= fun i => (i < t)%N} by move=> i; rewrite mem_iota.
elim/last_ind: (iota 0 t) => [//|r i IH] Hr; rewrite -cats1 !foldl_cat /= IH.
  by move=> j Hj; apply: Hr; rewrite mem_rcons in_cons Hj orbT.
by rewrite Hys //; apply: Hr; rewrite mem_rcons mem_head.
Qed.

(** The polynomial with given coefficients, its commitments aside. *)
Definition of_coefficients (cs : seq Scalar) : Polynomial :=
  {| coefficients := cs; poly_proofs := [::] |}.

(** A sharing of [secret'] that a holder of the picked shares cannot rule out. *)
Definition explains (secret' : Scalar) (cs : seq Scalar) : Prop :=
  [/\ size cs = t, nth 0 cs 0 = secret' &
      forall k, k \in picks ->
        let s := secret_share (nth d shares k) in
        evaluate (of_coefficients cs) (index s) = share s].

Lemma picked_index_neq0 k : k \in picks -> k.+1%:R != 0 :> Scalar.
Proof.
move=> Hk; apply/eqP => E; have Hlt : (k.+1 < p)%N.
  by apply: leq_ltn_trans Hn; apply: (allP picks_valid).
by have := @index_inj p k.+1 0 Hchar Hlt (leq_ltn_trans (leq0n _) Hlt) E.
Qed.

Lemma Poly_mkseq (q : {poly Scalar}) m : (size q <= m)%N -> Poly (mkseq (fun i => q`_i) m) = q.
Proof.
move=> Hq; apply/polyP => i; rewrite coef_Poly; case: (ltnP i m) => Hi.
  by rewrite nth_mkseq.
by rewrite !nth_default ?size_mkseq //; apply: leq_trans Hi.
Qed.

(** fewer shares than the threshold tell nothing about the secret: for every other
    secret there are coefficients that explain the same shares, and with one share less
    than the threshold exactly one choice of them, so all secrets are equally likely.
    (The commitments of a share do determine the secret's public key.) *)
Theorem few_shares_hide_secret secret' :
  (size picks < t)%N ->
  exists cs, explains secret' cs /\
    ((size picks).+1 = t -> forall cs', explains secret' cs' -> cs' = cs).
Proof.
move=> Hfew; case: picked_points => q [Hs H0 Hpick Huniq].
have Hnth k : k \in picks -> nth d shares k = share_at q t k.+1.
  by move=> Hk; move/eq_in_map: Hpick; apply.
pose xs := [seq k.+1%:R : Scalar | k <- picks].
pose V := \prod_(x <- xs) ('X - x%:P).
have Hsize : (size V <= t)%N by rewrite /V size_prod_XsubC size_map.
have HV0 : V.[0] != 0.
  rewrite -[_ == 0]/(root V 0) root_prod_XsubC; apply/negP => /mapP [k Hk E].
  by move/negP: (picked_index_neq0 Hk); apply; rewrite -E.
pose Q := Poly (coefficients q) + ((secret' - secret) / V.[0]) *: V.
have HQ : (size Q <= t)%N.
  apply: leq_trans (size_polyD _ _) _; rewrite geq_max -{1}Hs size_Poly /=.
  exact: leq_trans (size_scale_leq _ _) Hsize.
have HQ0 : Q.[0] = secret'.
  by rewrite /Q hornerD hornerZ mulfVK // horner_coef0 coef_Poly H0 addrC subrK.
have Hroot k : k \in picks -> V.[k.+1%:R] = 0.
  by move=> Hk; apply/rootP; rewrite root_prod_XsubC; apply: map_f.
have Ht : (0 < t)%N by apply: leq_ltn_trans Hfew.
exists (mkseq (fun i => Q`_i) t); split.
  split; rewrite ?size_mkseq // ?nth_mkseq // -?horner_coef0 // => k Hk /=.
  rewrite evaluateE /= Poly_mkseq // Hnth //= evaluateE /Q hornerD hornerZ Hroot //.
  by rewrite mulr0 addr0.
move=> Hone cs' [Hs' H0' Hex]; apply: (@eq_from_nth _ 0); rewrite ?size_mkseq Hs' // => i Hi.
rewrite nth_mkseq //; suff -> : Q = Poly cs' by rewrite coef_Poly.
apply/eqP; rewrite -subr_eq0; apply/eqP; apply: (@roots_geq_poly_eq0 _ _ (0 :: xs)).
- apply/allP => x; rewrite in_cons => /orP [/eqP ->|/mapP [k Hk ->]].
    by rewrite rootE hornerD hornerN HQ0 horner_coef0 coef_Poly H0' subrr.
  have := Hex k Hk; rewrite Hnth //= !evaluateE /= => E.
  by rewrite rootE hornerD hornerN E /Q hornerD hornerZ Hroot // mulr0 addr0 subrr.
- rewrite /= Huniq andbT; apply/negP => /mapP [k Hk E].
  by move/negP: (picked_index_neq0 Hk); apply; rewrite -E.
- rewrite /= size_map Hone; apply: leq_trans (size_polyD _ _) _.
  by rewrite geq_max HQ size_polyN -Hs' size_Poly.
Qed.
End split.
End sharing.

(** ** Witnesses: scalars and points are the integers modulo seven *)

Definition F7 : fieldType := 'F_7.

Definition demo_generator : F7^o := 1.
Definition demo_secret : F7 := 3%:R.
Definition demo_coefficient : F7 := 2%:R.

Definition demo_random (i : nat) : seq Byte.byte := nseq 32 Byte.x02.

Definition demo_decode (bytes : seq Byte.byte) : option F7 :=
  if bytes is Byte.x02 :: _ then Some demo_coefficient else None.

Definition demo_split : outcome (seq (VerifiableSecretShare F7^o)) :=
  split_secret_with_proofs demo_generator demo_decode demo_random demo_secret 2 3.

Definition demo_shares : seq (VerifiableSecretShare F7^o) :=
  if demo_split is Success s then s else [::].

Definition demo_share : VerifiableSecretShare F7^o :=
  {| secret_share := {| threshold := 0; index := 0; share := 0 |}; proofs := [::] |}.

Lemma demo_char : 7 \in [pchar F7].
Proof. exact: pchar_Fp. Qed.

Lemma demo_split_ok : demo_split = Success demo_shares.
Proof. by rewrite /demo_shares /demo_split /split_secret_with_proofs /=. Qed.

Definition demo_picks : seq nat := [:: 2; 0]%N.

Lemma split_shares_verify_witness :
  size demo_shares = 3%N /\
  forall k, (k < 3)%N ->
    let s := nth demo_share demo_shares k in
    [/\ threshold (secret_share s) = 2%N, index (secret_share s) = k.+1%:R,
        size (proofs s) = 2%N, nth 0 (proofs s) 0 = demo_secret *: demo_generator &
        share (secret_share s) *: demo_generator =
          \sum_(j < 2) index (secret_share s) ^+ j *: nth 0 (proofs s) j].
Proof. exact: (split_shares_verify demo_share demo_split_ok). Defined.

Lemma shares_reconstruct_secret_witness :
  reconstruct_secret [seq nth demo_share demo_shares k | k <- demo_picks] = Success demo_secret.
Proof. exact: (shares_reconstruct_secret demo_share demo_split_ok demo_char). Defined.

Lemma few_shares_hide_secret_witness :
  exists cs, explains 2%N demo_shares demo_share [:: 2]%N (5%:R : F7) cs /\
    (2%N = 2%N -> forall cs', explains 2%N demo_shares demo_share [:: 2]%N (5%:R : F7) cs' -> cs' = cs).
Proof. exact: (few_shares_hide_secret demo_share demo_split_ok demo_char). Defined.
