(* ===== verification/FlashnetPools.v ===== *)
(** Swap pools and their selection: [Pool::calculate_amount_in] of
    [crates/flashnet/src/models.rs], [select_best_pool] of [pool_selection.rs] and
    [decode_token_identifier] of [utils.rs].

    Amounts are [u128] and [u64] values, prices binary64 numbers as [SpecFloat] computes
    them.  A function that can panic (a division by zero) returns an [option]. *)
From S2P Require Import Prelude.
From Stdlib Require Import SpecFloat.

(** ** binary64 *)

Definition f64 : Type := spec_float.
Definition f64_mul (x y : f64) : f64 := SFmul 53 1024 x y.
Definition f64_div (x y : f64) : f64 := SFdiv 53 1024 x y.
Definition f64_of_Z (x : Z) : f64 := binary_normalize 53 1024 x 0 false.

(** [x as uN]: truncation, saturating at both ends; not-a-number is zero. *)
Definition f64_to_u (w : Z) (x : f64) : Z :=
  match x with
  | S754_zero _ | S754_nan => 0
  | S754_infinity s => if s then 0 else umax w
  | S754_finite s m e => if s then 0 else Z.min (Z.shiftl (Zpos m) e) (umax w)
  end.

(** ** Data *)

Inductive CurveType : Type := ConstantProduct | SingleSided | V3Concentrated | UnknownCurve.

#[export] Instance CurveType_eq_dec : EqDecision CurveType.
Proof. solve_decision. Defined.

Definition CurveType_fmt (c : CurveType) : string :=
  match c with
  | ConstantProduct => "CONSTANT_PRODUCT"
  | SingleSided => "SINGLE_SIDED"
  | V3Concentrated => "V3_CONCENTRATED"
  | UnknownCurve => "UNKNOWN"
  end.

Section flashnet.
(** Public keys, networks, and the errors of other crates. *)
Context {PublicKey Network ForeignError : Type}.

Inductive FlashnetError : Type :=
| NetworkError (reason : string) (code : option Z)
| Execution (source : FlashnetError) (transaction_identifier : option string)
| Session (e : ForeignError)
| Signer (e : ForeignError)
| Wallet (e : ForeignError)
| Generic (s : string).

Record Pool : Type := {
  lp_public_key : PublicKey;
  host_name : string;
  host_fee_bps : Z;
  lp_fee_bps : Z;
  asset_a_address : string;
  asset_b_address : string;
  asset_a_reserve : option Z;
  asset_b_reserve : option Z;
  virtual_reserve_a : option Z;
  virtual_reserve_b : option Z;
  threshold_pct : option Z;
  current_price_a_in_b : option f64;
  tvl_asset_b : option Z;
  volume_24h_asset_b : option Z;
  price_change_percent_24h : option f64;
  curve_type : option CurveType;
  initial_reserve_a : option Z;
  bonding_progress_percent : option f64;
  graduation_threshold_amount : option Z;
  created_at : string;
  updated_at : string
}.

(** [BTC_ASSET_ADDRESS], [bech32m_decode_token_id] with the text of its error, and
    [hex::encode]. *)
Context (BTC_ASSET_ADDRESS : string).
Context (bech32m_decode_token_id : string → Network → result (list Z) string).
Context (hex_encode : list Z → string).

Definition decode_token_identifier (token_id : string) (network : Network)
    : result string FlashnetError :=
  if String.prefix "btkn" token_id then
    let* bytes :=
      map_err (λ e, Generic ("Invalid token identifier: " +:+ e))
        (bech32m_decode_token_id token_id network) in
    Ok (hex_encode bytes)
  else Ok token_id.

(** ** The amount to pay *)

Definition overflow_err : FlashnetError := Generic "Amount overflow calculating amount in".

(** [a.checked_mul(b).ok_or(overflow_err)?]. *)
Definition mul_or_err (a b : Z) : result Z FlashnetError := ok_or (checked_mul 128 a b) overflow_err.

Definition is_v3 (p : Pool) : bool := bool_decide (curve_type p = Some V3Concentrated).

Definition div_ceil (numerator denominator : Z) : option Z :=
  if denominator =? 0 then None
  else Some (saturating_add 128 numerator (saturating_sub denominator 1) / denominator).

(** [amount_out.saturating_add(63) & !63]. *)
Definition round_up_64 (amount_out : Z) : Z :=
  Z.land (saturating_add 128 amount_out 63) (umax 128 - 63).

Definition PRICE_SCALE : Z := 1000000000.
Definition LARGE_PRICE_SCALE : Z := 1000000.
Definition LARGE_PRICE_THRESHOLD : f64 := f64_of_Z 100.

(** The numerator and denominator of the price-based amount. *)
Definition price_fraction (is_a_to_b : bool) (price : f64) (out : Z)
    : result (Z * Z) FlashnetError :=
  if is_a_to_b then
    if SFltb LARGE_PRICE_THRESHOLD price then
      let price_scaled := f64_to_u 128 (f64_mul price (f64_of_Z LARGE_PRICE_SCALE)) in
      let* n := mul_or_err out LARGE_PRICE_SCALE in Ok (n, price_scaled)
    else
      let price_scaled := f64_to_u 128 (f64_div (f64_of_Z PRICE_SCALE) price) in
      let* n := mul_or_err out price_scaled in Ok (n, PRICE_SCALE)
  else
    let price_scaled := f64_to_u 128 (f64_mul price (f64_of_Z PRICE_SCALE)) in
    let* n := mul_or_err out price_scaled in Ok (n, PRICE_SCALE).

(** The numerator and denominator of the reserve-based amount. *)
Definition reserve_fraction (is_a_to_b : bool) (reserve_a reserve_b out : Z)
    : result (Z * Z) FlashnetError :=
  let '(reserve_in, reserve_out) :=
    if is_a_to_b then (reserve_a, reserve_b) else (reserve_b, reserve_a) in
  if reserve_out <=? out then Err (Generic "Amount out exceeds reserve out")
  else
    let* numerator := mul_or_err reserve_in out in
    Ok (numerator, saturating_sub reserve_out out).

Definition amount_fraction (p : Pool) (is_a_to_b : bool) (out : Z) : result (Z * Z) FlashnetError :=
  match (if is_v3 p then None else
         match asset_a_reserve p, asset_b_reserve p with
         | Some a, Some b => Some (a, b) | _, _ => None end), current_price_a_in_b p with
  | Some (reserve_a, reserve_b), _ => reserve_fraction is_a_to_b reserve_a reserve_b out
  | None, Some price => price_fraction is_a_to_b price out
  | None, None => Err (Generic "Insufficient pool data to calculate amount_in")
  end.

(** The output the pool has to pay, with slippage and -- from A to B -- output fees. *)
Definition effective_out (p : Pool) (is_a_to_b : bool) (amount_out max_slippage_bps integrator_fee_bps : Z)
    : result Z FlashnetError :=
  if 10000 <? max_slippage_bps
  then Err (Generic "Max slippage basis points cannot exceed 10000")
  else
    let* product := mul_or_err amount_out (saturating_add 128 max_slippage_bps 10000) in
    let with_slippage := product / 10000 in
    if is_a_to_b then
      let output_fee_bps := saturating_add 32 (host_fee_bps p) integrator_fee_bps in
      let* product := mul_or_err with_slippage (saturating_add 128 output_fee_bps 10000) in
      Ok (product / 10000)
    else Ok with_slippage.

Definition input_fee_bps (p : Pool) (is_a_to_b : bool) (integrator_fee_bps : Z) : Z :=
  if is_a_to_b then lp_fee_bps p
  else saturating_add 32 (saturating_add 32 (host_fee_bps p) (lp_fee_bps p)) integrator_fee_bps.

(** [Pool::calculate_amount_in]; [None] is the panic of a division by zero. *)
Definition calculate_amount_in (p : Pool) (asset_in_address : string) (amount_out max_slippage_bps
    integrator_fee_bps : Z) (network : Network) : option (result Z FlashnetError) :=
  match decode_token_identifier asset_in_address network with
  | Err e => Some (Err e)
  | Ok asset_in =>
      let is_a_to_b := bool_decide (asset_in = asset_a_address p) in
      let asset_out := if is_a_to_b then asset_b_address p else asset_a_address p in
      let amount_out :=
        if bool_decide (asset_out = BTC_ASSET_ADDRESS) && negb (is_v3 p)
        then round_up_64 amount_out else amount_out in
      match (let* out := effective_out p is_a_to_b amount_out max_slippage_bps integrator_fee_bps in
             amount_fraction p is_a_to_b out) with
      | Err e => Some (Err e)
      | Ok (numerator, denominator) =>
          before ← div_ceil numerator denominator;
          Some (let* product :=
                  mul_or_err before
                    (saturating_add 128 (input_fee_bps p is_a_to_b integrator_fee_bps) 10000) in
                Ok (product / 10000))
      end
  end.

(** ** Scores *)

Record PoolScore : Type := {
  ps_pool : Pool;
  amount_in_required : Z;
  total_score_bps : Z;
  fee_efficiency_score_bps : Z;
  liquidity_score_bps : Z;
  stability_score_bps : Z
}.

Definition FEE_WEIGHT_BPS : Z := 5000.
Definition LIQUIDITY_WEIGHT_BPS : Z := 3000.
Definition STABILITY_WEIGHT_BPS : Z := 2000.

(** [a.saturating_div(b)]. *)
Definition div_or_panic (a b : Z) : option Z := if b =? 0 then None else Some (a / b).

(** [pool.tvl_asset_b.map_or(pool.asset_b_reserve, |v| Some(v.into()))]. *)
Definition pool_tvl (p : Pool) : option Z :=
  match tvl_asset_b p with Some v => Some v | None => asset_b_reserve p end.

Definition fee_efficiency (amount_in min_amount_in max_amount_in : Z) : option Z :=
  if min_amount_in <? max_amount_in then
    wrap 64 <$> div_or_panic (saturating_mul 128 (saturating_sub max_amount_in amount_in) 10000)
                  (saturating_sub max_amount_in min_amount_in)
  else Some 10000.

Definition liquidity (p : Pool) (max_tvl : option Z) : option Z :=
  match max_tvl with
  | Some max =>
      let pool_liquidity := default 0 (pool_tvl p) in
      if pool_liquidity =? 0 then Some 1000
      else wrap 64 <$> div_or_panic (saturating_mul 128 pool_liquidity 10000) max
  | None => Some 5000
  end.

(** [(pct.abs() * 100.0) as u64]. *)
Definition pct_bps (pct : f64) : Z := f64_to_u 64 (f64_mul (SFabs pct) (f64_of_Z 100)).

(** The sum [10_000 + pct_bps] is not a saturating one. *)
Definition stability (p : Pool) : option Z :=
  match price_change_percent_24h p with
  | None => Some 5000
  | Some pct => div_or_panic (saturating_mul 64 10000 10000) (wadd 64 10000 (pct_bps pct))
  end.

Definition score_pool (p : Pool) (amount_in min_amount_in max_amount_in : Z) (max_tvl : option Z)
    : option PoolScore :=
  fee ← fee_efficiency amount_in min_amount_in max_amount_in;
  liq ← liquidity p max_tvl;
  stab ← stability p;
  let total :=
    saturating_add 64
      (saturating_add 64 (saturating_mul 64 fee FEE_WEIGHT_BPS)
         (saturating_mul 64 liq LIQUIDITY_WEIGHT_BPS))
      (saturating_mul 64 stab STABILITY_WEIGHT_BPS) / 10000 in
  Some {| ps_pool := p; amount_in_required := amount_in; total_score_bps := total;
          fee_efficiency_score_bps := fee; liquidity_score_bps := liq;
          stability_score_bps := stab |}.

(** ** Selection *)

(** Whether [a] does not come after [b] in the order of [max_by]. *)
Definition score_le (a b : PoolScore) : bool :=
  (total_score_bps a <? total_score_bps b)
  || ((total_score_bps a =? total_score_bps b)
      && (default 0 (volume_24h_asset_b (ps_pool a)) <=? default 0 (volume_24h_asset_b (ps_pool b)))).

(** [Iterator::max_by]: the last of the greatest elements. *)
Definition max_by_score (l : list PoolScore) : option PoolScore :=
  match l with
  | [] => None
  | x :: l => Some (foldl (λ best y, if score_le best y then y else best) x l)
  end.

(** The pools that can deliver, with the amount each asks for. *)
Definition viable_pools (pools : list Pool) (asset_in_address : string)
    (amount_out max_slippage_bps integrator_fee_bps : Z) (network : Network)
    : option (list (Pool * Z)) :=
  foldr (λ p acc,
    viable ← acc;
    r ← calculate_amount_in p asset_in_address amount_out max_slippage_bps integrator_fee_bps network;
    Some match r with Ok amount_in => (p, amount_in) :: viable | Err _ => viable end)
    (Some []) pools.

Definition prefer_v3 (viable : list (Pool * Z)) : list (Pool * Z) :=
  if existsb (λ v, is_v3 v.1) viable then List.filter (λ v, is_v3 v.1) viable else viable.

Definition no_pool_err : FlashnetError :=
  Generic "No pool can provide the requested output amount".

Definition minimum (l : list Z) : Z := match l with [] => 0 | x :: l => foldl Z.min x l end.
Definition maximum (l : list Z) : option Z := match l with [] => None | x :: l => Some (foldl Z.max x l) end.

Definition select_best_pool (pools : list Pool) (asset_in_address : string)
    (amount_out max_slippage_bps integrator_fee_bps : Z) (network : Network)
    : option (result Pool FlashnetError) :=
  viable ← viable_pools pools asset_in_address amount_out max_slippage_bps integrator_fee_bps network;
  if bool_decide (viable = []) then Some (Err no_pool_err)
  else
    let viable := prefer_v3 viable in
    match viable with
    | [(p, _)] => Some (Ok p)
    | _ =>
        let amounts := viable.*2 in
        let min_amount_in := minimum amounts in
        let max_amount_in := default 0 (maximum amounts) in
        let max_tvl := maximum (omap (λ v, pool_tvl v.1) viable) in
        scores ← mapM (λ v, score_pool v.1 v.2 min_amount_in max_amount_in max_tvl) viable;
        Some (match max_by_score scores with
              | Some best => Ok (ps_pool best)
              | None => Err no_pool_err
              end)
    end.

(** ** The amount covers the output *)

Lemma mul_or_err_ok a b c : mul_or_err a b = Ok c ↔ c = a * b ∧ a * b ≤ umax 128.
Proof.
  unfold mul_or_err, checked_mul. destruct (Z.leb_spec (a * b) (umax 128)); simpl; split.
  - intros [= <-]. done.
  - by intros [-> _].
  - done.
  - lia.
Qed.

Lemma div_ge_factor a b : 0 ≤ a → 10000 ≤ b → a ≤ a * b / 10000.
Proof. intros. apply Z.div_le_lower_bound; nia. Qed.

Lemma fee_factor_ge w f : 0 ≤ f → 14 ≤ w → 10000 ≤ saturating_add w f 10000.
Proof.
  intros Hf Hw. unfold saturating_add, umax.
  pose proof (Z.pow_le_mono_r 2 14 w). lia.
Qed.

Lemma round_up_64_spec a :
  in_u 128 a → round_up_64 a = saturating_add 128 a 63 / 64 * 64.
Proof.
  intros Ha. unfold round_up_64.
  assert (in_u 128 (saturating_add 128 a 63)) as Hx by (unfold in_u, saturating_add, umax in *; lia).
  set (x := saturating_add 128 a 63) in *. change 64 with (2 ^ 6).
  rewrite <- Z.shiftr_div_pow2, <- Z.shiftl_mul_pow2 by lia.
  apply Z.bits_inj_iff'. intros n Hn. rewrite Z.land_spec.
  destruct (Z.lt_ge_cases n 6) as [Hlow|Hhigh].
  - rewrite Z.shiftl_spec_low by lia. replace (umax 128 - 63) with (Z.shiftl (2 ^ 122 - 1) 6) by done.
    by rewrite (Z.shiftl_spec_low _ 6 n) by lia; rewrite andb_false_r.
  - rewrite Z.shiftl_spec_high, Z.shiftr_spec by lia. replace (n - 6 + 6) with n by lia.
    destruct (Z.lt_ge_cases n 128) as [Hn'|Hn'].
    + replace (umax 128 - 63) with (Z.shiftl (Z.ones 122) 6) by done.
      rewrite (Z.shiftl_spec_high _ 6 n), Z.ones_spec_low by lia. by rewrite andb_true_r.
    + rewrite (Z.bits_above_log2 x n); [done|apply Hx|].
      destruct (Z.eq_dec x 0) as [->|]; [simpl; lia|]. apply Z.log2_lt_pow2; [unfold in_u in Hx; lia|].
      pose proof (Z.pow_le_mono_r 2 128 n). unfold in_u in Hx. lia.
Qed.

(** Rounding up, unless the amount is so large that the next multiplication overflows. *)
Lemma round_up_64_ge a :
  in_u 128 a → a ≤ round_up_64 a ∨ umax 128 < round_up_64 a * 10000.
Proof.
  intros Ha. rewrite round_up_64_spec by done. unfold saturating_add, umax, in_u in *.
  destruct (Z.lt_ge_cases (a + 63) (2 ^ 128)).
  - left. rewrite Z.min_l by lia. pose proof (Z.div_mod (a + 63) 64). pose proof (Z.mod_pos_bound (a + 63) 64). lia.
  - right. rewrite Z.min_r by lia. vm_compute. done.
Qed.

Lemma effective_out_ge p ab amount_out slip fee out :
  0 ≤ amount_out → 0 ≤ slip → 0 ≤ host_fee_bps p → 0 ≤ fee →
  effective_out p ab amount_out slip fee = Ok out →
  amount_out * 10000 ≤ umax 128 ∧ slip ≤ 10000 ∧ amount_out * (10000 + slip) / 10000 ≤ out.
Proof.
  intros Ha Hs Hh Hf. unfold effective_out. destruct (Z.ltb_spec 10000 slip) as [|Hle]; [done|].
  intros (pr & [-> Hpr]%mul_or_err_ok & Hout)%rbind_ok.
  assert (saturating_add 128 slip 10000 = 10000 + slip) as Hsl
    by (unfold saturating_add, umax; lia). rewrite Hsl in *.
  split_and!; [nia|done|]. destruct ab; [|injection Hout as <-; lia].
  apply rbind_ok in Hout as (pr & [-> Hpr']%mul_or_err_ok & [= <-]).
  apply div_ge_factor; [apply Z.div_pos; nia|]. apply fee_factor_ge; [|lia].
  unfold saturating_add. unfold umax. lia.
Qed.

Lemma div_ceil_spec n d q :
  in_u 128 n → in_u 128 d → 0 < d → div_ceil n d = Some q →
  0 ≤ q ∧ n ≤ (q + 1) * d ∧ (n + d ≤ 2 ^ 128 → n ≤ q * d ∧ ∀ x, n ≤ x * d → q ≤ x).
Proof.
  unfold in_u. intros Hn Hd Hpos. unfold div_ceil. destruct (Z.eqb_spec d 0); [lia|]. intros [= <-].
  unfold saturating_add, saturating_sub, umax. rewrite Z.max_r by lia.
  set (m := Z.min (n + (d - 1)) (2 ^ 128 - 1)).
  pose proof (Z.div_mod m d ltac:(lia)). pose proof (Z.mod_pos_bound m d Hpos).
  split_and!; [apply Z.div_pos; lia|nia|]. intros Hnd. assert (m = n + (d - 1)) as Hm by lia.
  split; [nia|]. intros x Hx. apply Z.lt_succ_r. apply Z.div_lt_upper_bound; nia.
Qed.

(** The amount a reserve-based pool asks for an effective output [out]. *)
Lemma reserve_fraction_ok ab ra rb out n d :
  reserve_fraction ab ra rb out = Ok (n, d) →
  let '(ri, ro) := if ab then (ra, rb) else (rb, ra) in
  out < ro ∧ n = ri * out ∧ n ≤ umax 128 ∧ d = saturating_sub ro out.
Proof.
  unfold reserve_fraction. destruct ab;
    [destruct (Z.leb_spec rb out)|destruct (Z.leb_spec ra out)]; try done;
    intros (m & [-> Hm]%mul_or_err_ok & [= <- <-])%rbind_ok; done.
Qed.

(** C38: the quote of a reserve-based pool pays for the output: it never panics, and a quoted
    amount covers an input before fees, [before], that keeps the constant product when the
    pool hands out the requested amount with the slippage on top -- and no smaller input would,
    as long as the division that rounds up stays within 128 bits: the product of the input
    reserve and the output handed out, plus what is left of the output reserve, is at most 2^128,
    as always for reserves of 64 bits. For larger reserves of 128 bits the division saturates and
    rounds down, so the input can be short, but by one unit at most (saturated_quote_is_short). *)
Theorem amount_in_pays_for_output p asset_in id amount_out slip fee network ra rb :
  decode_token_identifier asset_in network = Ok id →
  is_v3 p = false → asset_a_reserve p = Some ra → asset_b_reserve p = Some rb →
  in_u 128 ra → in_u 128 rb → in_u 128 amount_out →
  0 ≤ slip → 0 ≤ fee → 0 ≤ host_fee_bps p → 0 ≤ lp_fee_bps p →
  match calculate_amount_in p asset_in amount_out slip fee network with
  | None => False
  | Some (Err _) => True
  | Some (Ok a) =>
      let '(ri, ro) := if bool_decide (id = asset_a_address p) then (ra, rb) else (rb, ra) in
      ∃ out before, amount_out * (10000 + slip) / 10000 ≤ out < ro ∧ before ≤ a ∧
        ri * ro ≤ (ri + (before + 1)) * (ro - out) ∧
        ((in_u 64 ra ∧ in_u 64 rb) ∨ ri * out + (ro - out) ≤ 2 ^ 128 →
         ri * ro ≤ (ri + before) * (ro - out) ∧
         ∀ x, ri * ro ≤ (ri + x) * (ro - out) → before ≤ x)
  end.
Proof.
  intros Hid Hv3 Ha Hb Hra Hrb Hout Hslip Hfee Hhost Hlp.
  unfold calculate_amount_in. rewrite Hid. set (ab := bool_decide (id = asset_a_address p)).
  rewrite Hv3. simpl negb. rewrite andb_true_r.
  set (amt := if bool_decide _ then round_up_64 amount_out else amount_out).
  destruct (let* out := effective_out p ab amt slip fee in amount_fraction p ab out)
    as [[n d]|e] eqn:Heff; [|done].
  apply rbind_ok in Heff as (out & Heff & Hfrac). unfold amount_fraction in Hfrac.
  rewrite Hv3, Ha, Hb in Hfrac. apply reserve_fraction_ok in Hfrac.
  set (rr := if ab then (ra, rb) else (rb, ra)) in *.
  assert (in_u 128 rr.1 ∧ in_u 128 rr.2) as [Hri Hro] by (by unfold rr; destruct ab).
  assert (in_u 64 ra ∧ in_u 64 rb → in_u 64 rr.1 ∧ in_u 64 rr.2) as H64 by (by unfold rr; destruct ab; intros []).
  destruct rr as [ri ro]. simpl in Hri, Hro, H64. destruct Hfrac as (Hlt & -> & Hn & ->).
  assert (0 ≤ amt ∧ (amount_out ≤ amt ∨ umax 128 < amt * 10000)) as [Hamt Hge].
  { unfold amt. case_bool_decide; [|unfold in_u in Hout; lia].
    split; [|by apply round_up_64_ge]. rewrite round_up_64_spec by done.
    unfold in_u, saturating_add, umax in *. pose proof (Z.div_pos (Z.min (amount_out + 63) (2 ^ 128 - 1)) 64). lia. }
  destruct (effective_out_ge _ _ _ _ _ _ Hamt Hslip Hhost Hfee Heff) as (Hsmall & Hsl & Hle).
  assert (amount_out * (10000 + slip) / 10000 ≤ out) as Hcover.
  { etrans; [|exact Hle]. apply Z.div_le_mono; [lia|]. destruct Hge; [nia|lia]. }
  assert (0 ≤ out) as Hout0.
  { etrans; [|exact Hcover]. apply Z.div_pos; unfold in_u in Hout; nia. }
  unfold saturating_sub. rewrite Z.max_r by (unfold in_u in *; lia).
  destruct (div_ceil (ri * out) (ro - out)) as [before|] eqn:Hdiv; simpl.
  2:{ unfold div_ceil in Hdiv. destruct (Z.eqb_spec (ro - out) 0); [lia|done]. }
  assert (in_u 128 (ri * out)) as Hnum by (unfold in_u, umax in *; split; [apply Z.mul_nonneg_nonneg|]; lia).
  assert (in_u 128 (ro - out)) as Hden by (unfold in_u in *; lia).
  destruct (div_ceil_spec (ri * out) (ro - out) before Hnum Hden ltac:(lia) Hdiv) as (Hbefore & Hshort & Hexact).
  destruct (mul_or_err before _) as [pr|e] eqn:Hpr; simpl; [|done].
  apply mul_or_err_ok in Hpr as [-> _]. exists out, before. split_and!; [done|done| |nia|].
  - apply div_ge_factor; [done|]. apply fee_factor_ge; [|lia].
    unfold input_fee_bps, saturating_add, umax. destruct ab; lia.
  - intros Hfit. assert (ri * out + (ro - out) ≤ 2 ^ 128) as Hbig.
    { destruct Hfit as [[Hi Ho]%H64|Hfit]; [|exact Hfit]. unfold in_u in Hi, Ho.
      pose proof (Z.mul_le_mono_nonneg_r ri (2 ^ 64 - 1) out Hout0 ltac:(lia)). lia. }
    destruct (Hexact Hbig) as [Hpay Hmin]. split; [nia|]. intros x Hx. apply Hmin. nia.
Qed.

(** ** The selected pool is the best *)

Lemma foldl_Zmin_le l x y : y = x ∨ y ∈ l → foldl Z.min x l ≤ y.
Proof.
  revert x y. induction l as [|z l IH]; intros x y; simpl; [intros [->|[]%elem_of_nil]; lia|].
  intros [->|[->|H]%elem_of_cons].
  - etrans; [apply IH; left; reflexivity|]. lia.
  - etrans; [apply IH; left; reflexivity|]. lia.
  - apply IH. by right.
Qed.

Lemma foldl_Zmax_ge l x y : y = x ∨ y ∈ l → y ≤ foldl Z.max x l.
Proof.
  revert x y. induction l as [|z l IH]; intros x y; simpl; [intros [->|[]%elem_of_nil]; lia|].
  intros [->|[->|H]%elem_of_cons].
  - etrans; [|apply IH; left; reflexivity]. lia.
  - etrans; [|apply IH; left; reflexivity]. lia.
  - apply IH. by right.
Qed.

Lemma minimum_le l y : y ∈ l → minimum l ≤ y.
Proof. destruct l as [|x l]; [set_solver|]. intros H%elem_of_cons. by apply foldl_Zmin_le. Qed.

Lemma maximum_ge l y : y ∈ l → ∃ m, maximum l = Some m ∧ y ≤ m.
Proof.
  destruct l as [|x l]; [set_solver|]. intros H%elem_of_cons.
  eexists. split; [done|]. by apply foldl_Zmax_ge.
Qed.

(** A saturating fraction, scaled to basis points. *)
Lemma scaled_div_bounds a b :
  0 ≤ a ≤ b → 0 < b → 0 ≤ wrap 64 (saturating_mul 128 a 10000 / b) ≤ 10000.
Proof.
  intros Ha Hb. set (q := saturating_mul 128 a 10000 / b).
  assert (0 ≤ q ≤ 10000) as Hq.
  { unfold q, saturating_mul, umax. split; [apply Z.div_pos; lia|].
    apply Z.div_le_upper_bound; nia. }
  rewrite wrap_small; [done|]. unfold in_u. lia.
Qed.

Lemma fee_efficiency_bounds a lo hi :
  lo ≤ a ≤ hi → ∃ f, fee_efficiency a lo hi = Some f ∧ 0 ≤ f ≤ 10000.
Proof.
  intros Ha. unfold fee_efficiency. destruct (Z.ltb_spec lo hi).
  - unfold saturating_sub. rewrite !Z.max_r by lia. unfold div_or_panic.
    destruct (Z.eqb_spec (hi - lo) 0); [lia|]. simpl.
    eexists. split; [done|]. apply scaled_div_bounds; lia.
  - exists 10000. split; [done|lia].
Qed.

Lemma liquidity_bounds p max_tvl :
  0 ≤ default 0 (pool_tvl p) →
  (∀ v, pool_tvl p = Some v → ∃ m, max_tvl = Some m ∧ v ≤ m) →
  ∃ f, liquidity p max_tvl = Some f ∧ 0 ≤ f ≤ 10000.
Proof.
  intros Hp Hmax. unfold liquidity. destruct max_tvl as [m|]; [|exists 5000; split; [done|lia]].
  destruct (pool_tvl p) as [v|]; simpl in *; [|exists 1000; split; [done|lia]].
  destruct (Hmax v eq_refl) as (? & [= <-] & Hle). destruct (Z.eqb_spec v 0).
  - exists 1000. split; [done|lia].
  - unfold div_or_panic. destruct (Z.eqb_spec m 0); [lia|]. simpl.
    eexists. split; [done|]. apply scaled_div_bounds; lia.
Qed.

(** The volatility keeps the sum in [score_pool] below [2^64]. *)
Definition volatility_in_range (p : Pool) : Prop :=
  match price_change_percent_24h p with
  | Some pct => 10000 + pct_bps pct < 2 ^ 64
  | None => True
  end.

Lemma f64_to_u_nonneg w x : 0 ≤ w → 0 ≤ f64_to_u w x.
Proof.
  intros. pose proof (Z.pow_pos_nonneg 2 w).
  destruct x as [| |  |[] m e]; simpl; unfold umax; try lia.
  - destruct s; lia.
  - pose proof (Z.shiftl_nonneg (Zpos m) e) as [_ ?]. lia.
Qed.

Lemma stability_bounds p :
  volatility_in_range p → ∃ f, stability p = Some f ∧ 0 ≤ f ≤ 10000.
Proof.
  unfold volatility_in_range, stability. destruct (price_change_percent_24h p) as [pct|];
    [|exists 5000; split; [done|lia]].
  intros H. pose proof (f64_to_u_nonneg 64 (f64_mul (SFabs pct) (f64_of_Z 100)) ltac:(lia)) as Hp.
  fold (pct_bps pct) in Hp. unfold wadd. rewrite wrap_small by (unfold in_u; lia).
  unfold div_or_panic. destruct (Z.eqb_spec (10000 + pct_bps pct) 0); [lia|].
  eexists. split; [done|]. change (saturating_mul 64 10000 10000) with (10000 * 10000).
  split; [apply Z.div_pos; lia|]. apply Z.div_le_upper_bound; lia.
Qed.

(** Every component of a score, and the score, is a number of basis points. *)
Definition score_in_bps (s : PoolScore) : Prop :=
  0 ≤ fee_efficiency_score_bps s ≤ 10000 ∧ 0 ≤ liquidity_score_bps s ≤ 10000 ∧
  0 ≤ stability_score_bps s ≤ 10000 ∧ 0 ≤ total_score_bps s ≤ 10000.

Lemma score_pool_bounds p a lo hi max_tvl :
  lo ≤ a ≤ hi → 0 ≤ default 0 (pool_tvl p) → volatility_in_range p →
  (∀ v, pool_tvl p = Some v → ∃ m, max_tvl = Some m ∧ v ≤ m) →
  ∃ s, score_pool p a lo hi max_tvl = Some s ∧ ps_pool s = p ∧ score_in_bps s.
Proof.
  intros Ha Hp Hq Hm. unfold score_pool.
  destruct (fee_efficiency_bounds a lo hi Ha) as (f & -> & Hf).
  destruct (liquidity_bounds p max_tvl Hp Hm) as (l & -> & Hl).
  destruct (stability_bounds p Hq) as (t & -> & Ht).
  simpl. eexists. split_and!; [done|done|]. unfold score_in_bps. simpl. split_and!; try lia.
  - apply Z.div_pos; [|lia]. unfold saturating_add, saturating_mul, umax,
      FEE_WEIGHT_BPS, LIQUIDITY_WEIGHT_BPS, STABILITY_WEIGHT_BPS. lia.
  - apply Z.div_le_upper_bound; [lia|]. unfold saturating_add, saturating_mul, umax,
      FEE_WEIGHT_BPS, LIQUIDITY_WEIGHT_BPS, STABILITY_WEIGHT_BPS. lia.
Qed.

Lemma score_le_spec a b :
  score_le a b = true ↔
    total_score_bps a < total_score_bps b ∨
    (total_score_bps a = total_score_bps b ∧
     default 0 (volume_24h_asset_b (ps_pool a)) ≤ default 0 (volume_24h_asset_b (ps_pool b))).
Proof. unfold score_le. rewrite orb_true_iff, andb_true_iff, Z.ltb_lt, Z.eqb_eq, Z.leb_le. done. Qed.

Lemma score_le_refl a : score_le a a = true.
Proof. apply score_le_spec. lia. Qed.

Lemma score_le_trans a b c : score_le a b = true → score_le b c = true → score_le a c = true.
Proof. rewrite !score_le_spec. lia. Qed.

Lemma score_le_total a b : score_le a b = false → score_le b a = true.
Proof. rewrite <- not_true_iff_false, !score_le_spec. lia. Qed.

Lemma foldl_best x l :
  let best := foldl (λ best y, if score_le best y then y else best) x l in
  (best = x ∨ best ∈ l) ∧ score_le x best = true ∧ Forall (λ s, score_le s best = true) l.
Proof.
  revert x. induction l as [|y l IH]; intros x; simpl.
  { split_and!; [by left|apply score_le_refl|done]. }
  destruct (IH (if score_le x y then y else x)) as (Hin & Hle & Hall).
  split_and!; [destruct (score_le x y); set_solver| |constructor; [|done]];
    (eapply score_le_trans; [|exact Hle]);
    destruct (score_le x y) eqn:Hxy; auto using score_le_refl, score_le_total.
Qed.

Lemma max_by_score_best l :
  l ≠ [] → ∃ best, max_by_score l = Some best ∧ best ∈ l ∧ Forall (λ s, score_le s best = true) l.
Proof.
  destruct l as [|x l]; [done|]. intros _. destruct (foldl_best x l) as (Hin & Hle & Hall).
  eexists. split_and!; [done|set_solver|by constructor].
Qed.

Lemma prefer_v3_nonempty viable : viable ≠ [] → prefer_v3 viable ≠ [].
Proof.
  intros Hne. unfold prefer_v3. destruct (existsb _ viable) eqn:H; [|done].
  apply existsb_exists in H as (v & Hin & Hv). intros Hnil.
  assert (In v []) as []; rewrite <- Hnil. by apply filter_In.
Qed.

(** Scoring the candidates: with the normalisers the code computes every score exists. *)
Definition score_candidates (cands : list (Pool * Z)) : option (list PoolScore) :=
  mapM (λ v, score_pool v.1 v.2 (minimum cands.*2) (default 0 (maximum cands.*2))
               (maximum (omap (λ v, pool_tvl v.1) cands))) cands.

Lemma score_candidates_total cands :
  Forall (λ v, 0 ≤ default 0 (pool_tvl v.1) ∧ volatility_in_range v.1) cands →
  ∃ scores, score_candidates cands = Some scores ∧ ps_pool <$> scores = cands.*1 ∧
    Forall score_in_bps scores.
Proof.
  intros Hall. unfold score_candidates.
  assert (∀ l, l ⊆ cands → ∃ scores,
    mapM (λ v, score_pool v.1 v.2 (minimum cands.*2) (default 0 (maximum cands.*2))
               (maximum (omap (λ v, pool_tvl v.1) cands))) l = Some scores ∧
    ps_pool <$> scores = l.*1 ∧ Forall score_in_bps scores) as Hgen; [|by apply Hgen].
  induction l as [|[p a] l IH]; intros Hsub.
  { exists []. done. }
  destruct IH as (scores & Hs & Hmap & Hbps); [set_solver|].
  assert ((p, a) ∈ cands) as Hin by set_solver.
  rewrite Forall_forall in Hall. destruct (Hall _ Hin) as [Htvl Hvol].
  assert (a ∈ cands.*2) as Ha by (apply list_elem_of_fmap; by exists (p, a)).
  destruct (maximum_ge _ _ Ha) as (m & Hm & Hle).
  destruct (score_pool_bounds p a (minimum cands.*2) m (maximum (omap (λ v, pool_tvl v.1) cands)))
    as (s & Hscore & <- & Hin_bps); auto.
  { split; [by apply minimum_le|done]. }
  { intros v Hv. apply maximum_ge. apply list_elem_of_omap. by exists (p, a). }
  exists (s :: scores). simpl. rewrite Hm in *. simpl in *. rewrite Hscore, Hs. simpl.
  split_and!; [done|simpl; f_equal; exact Hmap|by constructor].
Qed.

Lemma viable_pools_elem pools asset_in out slip fee network viable p a :
  viable_pools pools asset_in out slip fee network = Some viable →
  (p, a) ∈ viable ↔
    p ∈ pools ∧ calculate_amount_in p asset_in out slip fee network = Some (Ok a).
Proof.
  revert viable. induction pools as [|q pools IH]; intros viable; simpl.
  { intros [= <-]. set_solver. }
  fold (viable_pools pools asset_in out slip fee network).
  destruct (viable_pools pools asset_in out slip fee network) as [v|] eqn:Hv; [|done]. simpl.
  destruct (calculate_amount_in q asset_in out slip fee network) as [[b|e]|] eqn:Hq; [| |done];
    intros [= <-]; rewrite ?elem_of_cons, (IH v) by done; naive_solver congruence.
Qed.

Lemma prefer_v3_elem viable v :
  v ∈ prefer_v3 viable → v ∈ viable ∧ (is_v3 v.1 = true ∨ ∀ w, w ∈ viable → is_v3 w.1 = false).
Proof.
  unfold prefer_v3. destruct (existsb _ viable) eqn:H.
  - rewrite list_elem_of_In, filter_In, <- list_elem_of_In. naive_solver.
  - intros Hv. split; [done|]. right. intros w Hw. apply not_true_iff_false. intros Hw3.
    apply not_true_iff_false in H. apply H, existsb_exists. exists w. by rewrite <- list_elem_of_In.
Qed.

Lemma viable_pools_total pools asset_in out slip fee network viable p :
  viable_pools pools asset_in out slip fee network = Some viable → p ∈ pools →
  ∃ r, calculate_amount_in p asset_in out slip fee network = Some r.
Proof.
  revert viable. induction pools as [|q pools IH]; intros viable; simpl; [set_solver|].
  fold (viable_pools pools asset_in out slip fee network).
  destruct (viable_pools pools asset_in out slip fee network) as [v|] eqn:Hv; [|done]. simpl.
  destruct (calculate_amount_in q asset_in out slip fee network) as [r|] eqn:Hq; [|done].
  intros _ [->|Hp]%elem_of_cons; eauto.
Qed.

(** [select_best_pool] with at least one viable pool, in one piece: a single candidate
    has the best score among the candidates. *)
Lemma select_best_pool_candidates pools asset_in out slip fee network viable scores :
  viable_pools pools asset_in out slip fee network = Some viable → viable ≠ [] →
  score_candidates (prefer_v3 viable) = Some scores → ps_pool <$> scores = (prefer_v3 viable).*1 →
  ∃ best, select_best_pool pools asset_in out slip fee network = Some (Ok (ps_pool best)) ∧
    best ∈ scores ∧ Forall (λ s, score_le s best = true) scores.
Proof.
  intros Hv Hne Hs Hmap. unfold select_best_pool. rewrite Hv. simpl.
  rewrite bool_decide_eq_false_2 by done.
  pose proof (prefer_v3_nonempty _ Hne) as Hpne. unfold score_candidates in Hs.
  assert (scores ≠ []) as Hsne.
  { intros ->. apply Hpne. destruct (prefer_v3 viable); [done|]. simpl in Hmap. done. }
  destruct (max_by_score_best scores Hsne) as (best & Hbest & Hin & Hall).
  destruct (prefer_v3 viable) as [|[p a] [|v' cands]] eqn:Hpref; [done| |].
  - exists best. destruct scores as [|s [|]]; simpl in Hmap; [done| |done]. injection Hmap as Hp.
    apply list_elem_of_singleton in Hin as ->.
    rewrite Hp. split_and!; [done|set_solver|done].
  - exists best. rewrite <- Hpref in *. rewrite Hs. simpl. by rewrite Hbest.
Qed.

(** pool selection returns the best pool: it fails exactly when no pool can deliver;
    otherwise it picks a pool that can, of concentrated liquidity if any such pool can,
    and no other candidate has a greater score -- or, with the same score, a greater
    volume.  Every score and its parts are between 0 and 10000 basis points, provided no
    volatility is so large that the one unsaturated sum overflows. *)
Theorem select_best_pool_best pools asset_in out slip fee network viable :
  viable_pools pools asset_in out slip fee network = Some viable →
  Forall (λ p, 0 ≤ default 0 (pool_tvl p) ∧ volatility_in_range p) pools →
  match select_best_pool pools asset_in out slip fee network with
  | None => False
  | Some (Err e) =>
      e = no_pool_err ∧
      ∀ p, p ∈ pools → ∃ e, calculate_amount_in p asset_in out slip fee network = Some (Err e)
  | Some (Ok p) =>
      p ∈ pools ∧ (∃ a, calculate_amount_in p asset_in out slip fee network = Some (Ok a)) ∧
      (is_v3 p = true ∨ ∀ v, v ∈ viable → is_v3 v.1 = false) ∧
      ∃ scores best, score_candidates (prefer_v3 viable) = Some scores ∧ best ∈ scores ∧
        ps_pool best = p ∧
        Forall (λ s, score_in_bps s ∧ score_le s best = true) scores
  end.
Proof.
  intros Hv Hwf. rewrite Forall_forall in Hwf.
  destruct (decide (viable = [])) as [->|Hne].
  - unfold select_best_pool. rewrite Hv. simpl. split; [done|]. intros p Hp.
    destruct (viable_pools_total _ _ _ _ _ _ _ p Hv Hp) as [[a|e] Hr]; [|by exists e].
    assert ((p, a) ∈ []) as []%elem_of_nil. by apply (viable_pools_elem _ _ _ _ _ _ _ p a Hv).
  - destruct (score_candidates_total (prefer_v3 viable)) as (scores & Hs & Hmap & Hbps).
    { apply Forall_forall. intros [p a] [Hin _]%prefer_v3_elem.
      apply (viable_pools_elem _ _ _ _ _ _ _ p a Hv) in Hin as [Hin _]. by apply Hwf. }
    destruct (select_best_pool_candidates _ _ _ _ _ _ _ _ Hv Hne Hs Hmap)
      as (best & -> & Hin & Hall).
    assert (ps_pool best ∈ (prefer_v3 viable).*1) as ([p a] & Hp & [Hpa Hv3]%prefer_v3_elem)%list_elem_of_fmap
      by (rewrite <- Hmap; by apply list_elem_of_fmap_2).
    simpl in Hp, Hv3. rewrite Hp.
    apply (viable_pools_elem _ _ _ _ _ _ _ p a Hv) in Hpa as [Hpin Hcalc].
    split_and!; [done|by exists a|done|]. exists scores, best. split_and!; [done..|].
    rewrite Forall_and. done.
Qed.
End flashnet.

(** ** Examples *)

Definition ex_decode (s : string) (n : unit) : result (list Z) string := Err "not a token".
Definition ex_hex (l : list Z) : string := "".

Definition ex_pool (key host lp ra rb : Z) (tvl : option Z) (pct : option f64) (c : CurveType)
    : Pool (PublicKey := Z) :=
  {| lp_public_key := key; host_name := "host"; host_fee_bps := host; lp_fee_bps := lp;
     asset_a_address := "btc"; asset_b_address := "token";
     asset_a_reserve := Some ra; asset_b_reserve := Some rb;
     virtual_reserve_a := None; virtual_reserve_b := None; threshold_pct := None;
     current_price_a_in_b := None; tvl_asset_b := tvl; volume_24h_asset_b := Some 7;
     price_change_percent_24h := pct; curve_type := Some c; initial_reserve_a := None;
     bonding_progress_percent := None; graduation_threshold_amount := None;
     created_at := ""; updated_at := "" |}.

Definition ex_pools : list (Pool (PublicKey := Z)) :=
  [ ex_pool 1 10 30 1000000 5000000 (Some 4000000) (Some (f64_of_Z 3)) ConstantProduct;
    ex_pool 2 10 5 1000000 5000000 None None ConstantProduct;
    ex_pool 3 10 5 100 200 None None SingleSided ].

Lemma amount_in_pays_for_output_witness :
  let p := ex_pool 1 10 30 1000000 5000000 None None ConstantProduct in
  calculate_amount_in (ForeignError := unit) "btc" ex_decode ex_hex p "token" 10000 100 20 tt = Some (Ok 51568) ∧
  match calculate_amount_in (ForeignError := unit) "btc" ex_decode ex_hex p "token" 10000 100 20 tt with
  | None => False
  | Some (Err _) => True
  | Some (Ok a) =>
      let '(ri, ro) := if bool_decide ("token" = asset_a_address p)
                       then (1000000, 5000000) else (5000000, 1000000) in
      ∃ out before, 10000 * (10000 + 100) / 10000 ≤ out < ro ∧ before ≤ a ∧
        ri * ro ≤ (ri + (before + 1)) * (ro - out) ∧
        ((in_u 64 1000000 ∧ in_u 64 5000000) ∨ ri * out + (ro - out) ≤ 2 ^ 128 →
         ri * ro ≤ (ri + before) * (ro - out) ∧
         ∀ x, ri * ro ≤ (ri + x) * (ro - out) → before ≤ x)
  end.
Proof.
  split; [vm_compute; reflexivity|].
  apply (amount_in_pays_for_output (ForeignError := unit) "btc" ex_decode ex_hex
           (ex_pool 1 10 30 1000000 5000000 None None ConstantProduct) "token" "token"
           10000 100 20 tt 1000000 5000000); try reflexivity; try (by apply bool_decide_unpack);
    by vm_compute.
Defined.

(** A reserve near [2^128]: the sum in the division saturates, and the quote for 64, without any
    fee, is one unit less than what keeps the constant product. *)
Example saturated_quote_is_short :
  let ri := (2 ^ 128 - 1) / 64 in let ro := 64 + 2 ^ 20 + 7 in
  let p := ex_pool 1 0 0 ro ri None None ConstantProduct in
  ∃ a, calculate_amount_in (ForeignError := unit) "btc" ex_decode ex_hex p "token" 64 0 0 tt = Some (Ok a) ∧
    (ri + a) * (ro - 64) < ri * ro ≤ (ri + (a + 1)) * (ro - 64).
Proof. eexists. split; [vm_compute; reflexivity|]. split; vm_compute; [reflexivity|]. intros H. discriminate H. Qed.

Definition ex_select : option (result (Pool (PublicKey := Z)) (FlashnetError (ForeignError := unit))) :=
  select_best_pool "btc" ex_decode ex_hex ex_pools "token" 10000 100 20 tt.

Lemma select_best_pool_best_witness :
  ∃ p, ex_select = Some (Ok p) ∧ lp_public_key p = 2 ∧ p ∈ ex_pools ∧
    ∃ a, calculate_amount_in (ForeignError := unit) "btc" ex_decode ex_hex p "token" 10000 100 20 tt
         = Some (Ok a).
Proof.
  pose proof (select_best_pool_best (ForeignError := unit) "btc" ex_decode ex_hex ex_pools
                "token" 10000 100 20 tt _ ltac:(vm_compute; reflexivity)) as H.
  fold ex_select in H.
  destruct ex_select as [[p|e]|] eqn:Hp; [|vm_compute in Hp; discriminate Hp..].
  exists p. split; [reflexivity|]. split.
  - vm_compute in Hp. injection Hp as <-. vm_compute. reflexivity.
  - destruct H as (Hin & Ha & _); [|split; [exact Hin|exact Ha]].
    repeat constructor; vm_compute; discriminate.
Defined.

(** The unsaturated sum of [score_pool]: a volatility of about 1.8e17 percent makes it
    wrap around (or panic, with overflow checks), and the stability is then 55309 basis
    points instead of 0. *)
Lemma stability_wraps :
  stability (ex_pool 1 10 30 1 1 None (Some (S754_finite false 5764607523034232 5)) ConstantProduct)
  = Some 55309.
Proof. vm_compute. reflexivity. Qed.
