(* ===== verification/Transactions.v ===== *)
(** Bitcoin transactions of the tree: [crates/spark/src/utils/transactions.rs],
    [utils/htlc_transactions.rs] and the networks of [core/network.rs].

    The data of rust-bitcoin (outpoints, inputs, outputs, transactions) are records; its
    functions (transaction ids, addresses, script and taproot builders) are the class
    [BitcoinOps].  [bitcoin_externals] instantiates the types of other crates of
    [TreeTypes] with them, so tree nodes carry these transactions. *)
From S2P Require Import Prelude Timelocks TreeTypes.

Inductive Network : Type := Mainnet | Regtest | Testnet | Signet.

#[export] Instance Network_eq_dec : EqDecision Network.
Proof. solve_decision. Defined.

Definition Network_fmt (n : Network) : string :=
  match n with
  | Mainnet => "mainnet" | Regtest => "regtest" | Testnet => "testnet" | Signet => "signet"
  end.

Definition Network_from_str (s : string) : result Network string :=
  if bool_decide (s = "mainnet") then Ok Mainnet
  else if bool_decide (s = "regtest") then Ok Regtest
  else if bool_decide (s = "testnet") then Ok Testnet
  else if bool_decide (s = "signet") then Ok Signet
  else Err "Invalid network".

(** The numbers of [spark.proto]. *)
Definition to_proto_network (n : Network) : Z :=
  match n with
  | Mainnet => 1 | Regtest => 2 | Testnet => 3 | Signet => 4
  end.

(** ** Data of rust-bitcoin *)

Class BitcoinTypes := {
  Txid : Type;
  SecpPublicKey : Type;
  FrostIdentifier : Type;
  OtherError : Type;
  Txid_eq_dec :: EqDecision Txid;
  Txid_countable :: Countable Txid;
  SecpPublicKey_eq_dec :: EqDecision SecpPublicKey;
  FrostIdentifier_eq_dec :: EqDecision FrostIdentifier;
}.

Abbreviation ScriptBuf := (list Z).

Section data.
Context {bt : BitcoinTypes}.

Record OutPoint : Type := { op_txid : Txid; op_vout : Z }.

(** Values are in satoshis, sequences consensus [u32] values. *)
Record TxIn : Type := {
  previous_output : OutPoint;
  script_sig : ScriptBuf;
  txin_sequence : Z;
  witness : list (list Z)
}.

Record TxOut : Type := { txo_value : Z; script_pubkey : ScriptBuf }.

Record Tx : Type := {
  version : Z;
  lock_time : Z;
  input : list TxIn;
  output : list TxOut
}.

#[export] Instance OutPoint_eq_dec : EqDecision OutPoint.
Proof. solve_decision. Defined.
#[export] Instance TxIn_eq_dec : EqDecision TxIn.
Proof. solve_decision. Defined.
#[export] Instance TxOut_eq_dec : EqDecision TxOut.
Proof. solve_decision. Defined.
#[export] Instance Tx_eq_dec : EqDecision Tx.
Proof. solve_decision. Defined.

(** [TxIn { previous_output, ..Default::default() }]: [Sequence::MAX], nothing signed. *)
Definition default_txin (o : OutPoint) : TxIn :=
  {| previous_output := o; script_sig := []; txin_sequence := umax 32; witness := [] |}.

Definition input0_sequence (tx : Tx) : option Z := txin_sequence <$> head (input tx).
End data.

#[export] Instance bitcoin_externals `{BitcoinTypes} : Externals := {|
  PublicKey := SecpPublicKey; Transaction := Tx; Identifier := FrostIdentifier;
  ForeignError := OtherError; tx_input0_sequence := input0_sequence
|}.

(** ** Functions of rust-bitcoin *)

Inductive ScriptItem {XOnlyKey : Type} : Type :=
| PushOpcode (name : string)
| PushSlice (bytes : list Z)
| PushXOnlyKey (k : XOnlyKey)
| PushInt (i : Z).
Arguments ScriptItem : clear implicits.

Class BitcoinOps {bt : BitcoinTypes} := {
  XOnlyKey : Type;
  TapNodeHash : Type;
  TaprootBuilder : Type;
  TaprootSpendInfo : Type;
  compute_txid : Tx → Txid;
  x_only_public_key : SecpPublicKey → XOnlyKey;
  (** [PublicKey::from_str]. *)
  PublicKey_from_str : string → option SecpPublicKey;
  (** [Address::p2tr(secp, key, root, network).script_pubkey()]. *)
  p2tr_script : XOnlyKey → option TapNodeHash → Network → ScriptBuf;
  (** [Address::p2wpkh(CompressedPublicKey(key), network).script_pubkey()]. *)
  p2wpkh_script : SecpPublicKey → Network → ScriptBuf;
  (** [Builder::new().push..().into_script()]. *)
  into_script : list (ScriptItem XOnlyKey) → ScriptBuf;
  (** [TaprootBuilder]; the errors are given by their text. *)
  taproot_new : TaprootBuilder;
  taproot_add_leaf : TaprootBuilder → Z → ScriptBuf → result TaprootBuilder string;
  taproot_finalize : TaprootBuilder → XOnlyKey → option TaprootSpendInfo;
  merkle_root : TaprootSpendInfo → option TapNodeHash;
  (** [LockTime::Blocks(..).to_consensus_u32()] of a height, used by the sequences. *)
  blocks_to_consensus : Z → Z;
  (** [Sequence::from_height(..).to_consensus_u32()]. *)
  sequence_from_height : Z → Z
}.

(** ** Fees and anchors *)

Definition ESTIMATED_TX_SIZE : Z := 191.
Definition DEFAULT_FEE_RATE : Z := 5.
Definition DEFAULT_FEE_SATS : Z := ESTIMATED_TX_SIZE * DEFAULT_FEE_RATE.

Definition maybe_apply_fee (amount_sats : Z) : Z :=
  if DEFAULT_FEE_SATS <? amount_sats then saturating_sub amount_sats DEFAULT_FEE_SATS
  else amount_sats.

(** The pay-to-anchor script. *)
Definition P2A : ScriptBuf := [81; 2; 78; 115].

Definition ephemeral_anchor_output : TxOut := {| script_pubkey := P2A; txo_value := 0 |}.

Definition is_ephemeral_anchor_output (tx_out : TxOut) : bool :=
  (txo_value tx_out =? 0) && bool_decide (script_pubkey tx_out = P2A).

(** ** Errors of the signer *)

Inductive SignerError : Type :=
| FrostError (s : string) | IdentifierError | InvalidHash | KeyDerivationError (s : string)
| NonceCreationError (s : string) | SecretSharingError (s : string)
| SerializationError (s : string) | TaprootBuilderError (s : string)
| UnknownKey | UnknownNonceCommitment | SignerGeneric (s : string).

Section transactions.
Context {bt : BitcoinTypes} {bo : BitcoinOps}.

(** ** Node transactions *)

Record NodeTransactions : Type := { ntx_cpfp_tx : Tx; ntx_direct_tx : Tx }.

Record RefundTransactions : Type := {
  rtx_cpfp_tx : Tx;
  rtx_direct_tx : option Tx;
  rtx_direct_from_cpfp_tx : option Tx
}.

Definition create_spark_tx (prev : OutPoint) (sequence value : Z) (script : ScriptBuf)
    (apply_fee include_anchor : bool) : Tx :=
  let value := if apply_fee then maybe_apply_fee value else value in
  {| version := 3; lock_time := 0;
     input := [ {| previous_output := prev; script_sig := []; txin_sequence := sequence; witness := [] |} ];
     output := [ {| txo_value := value; script_pubkey := script |} ]
               ++ (if include_anchor then [ephemeral_anchor_output] else []) |}.

Definition create_node_txs (parent_tx : Tx) (cpfp_sequence direct_sequence vout : Z)
    : result NodeTransactions ServiceError :=
  let* parent_tx_out := ok_or (output parent_tx !! Z.to_nat vout) InvalidOutputIndex in
  let parent_outpoint := {| op_txid := compute_txid parent_tx; op_vout := vout |} in
  Ok {| ntx_cpfp_tx := create_spark_tx parent_outpoint cpfp_sequence (txo_value parent_tx_out)
                         (script_pubkey parent_tx_out) false true;
        ntx_direct_tx := create_spark_tx parent_outpoint direct_sequence (txo_value parent_tx_out)
                           (script_pubkey parent_tx_out) true false |}.

Definition create_root_node_txs (parent_tx : Tx) (vout : Z) : result NodeTransactions ServiceError :=
  let '(cpfp_sequence, direct_sequence) := initial_root_timelock_sequence blocks_to_consensus in
  create_node_txs parent_tx cpfp_sequence direct_sequence vout.

Definition create_initial_timelock_node_txs (parent_tx : Tx) : result NodeTransactions ServiceError :=
  let '(cpfp_sequence, direct_sequence) := initial_timelock_sequence blocks_to_consensus in
  create_node_txs parent_tx cpfp_sequence direct_sequence 0.

(** [node_tx.input[0]] panics without inputs. *)
Definition create_decremented_timelock_node_txs (parent_tx node_tx : Tx)
    : result NodeTransactions (exn ServiceError) :=
  let* old_sequence := or_panic (input0_sequence node_tx) in
  let* (cpfp_sequence, direct_sequence) :=
    throws (ok_or (next_sequence blocks_to_consensus old_sequence)
              (SE_Generic "Failed to get next sequence")) in
  throws (create_node_txs parent_tx cpfp_sequence direct_sequence 0).

Definition create_zero_timelock_node_txs (parent_tx : Tx) : result NodeTransactions ServiceError :=
  let '(cpfp_sequence, direct_sequence) := initial_zero_timelock_sequence blocks_to_consensus in
  create_node_txs parent_tx cpfp_sequence direct_sequence 0.

(** ** Refund transactions *)

(** [OutPoint { txid: tx.compute_txid(), vout: 0 }] and [tx.output[0].value]. *)
Definition first_outpoint (tx : Tx) : OutPoint := {| op_txid := compute_txid tx; op_vout := 0 |}.
Definition first_value {E} (tx : Tx) : result Z (exn E) := or_panic (txo_value <$> head (output tx)).

(** [tx.map(|tx| f(tx))] with a function that can fail. *)
Definition map_opt {A B E} (f : A → result B E) (o : option A) : result (option B) E :=
  match o with
  | Some a => let* b := f a in Ok (Some b)
  | None => Ok None
  end.

Definition create_refund_txs {E} (node_tx : Tx) (direct_tx : option Tx)
    (cpfp_sequence direct_sequence : Z) (receiving_pubkey : SecpPublicKey) (network : Network)
    : result RefundTransactions (exn E) :=
  let* node_value := first_value node_tx in
  let cpfp_outpoint := first_outpoint node_tx in
  let addr := p2tr_script (x_only_public_key receiving_pubkey) None network in
  let cpfp_tx := create_spark_tx cpfp_outpoint cpfp_sequence node_value addr false true in
  let* direct_tx :=
    map_opt (λ tx, let* direct_value := first_value tx in
                   Ok (create_spark_tx (first_outpoint tx) direct_sequence direct_value addr true false))
      direct_tx in
  Ok {| rtx_cpfp_tx := cpfp_tx;
        rtx_direct_tx := direct_tx;
        rtx_direct_from_cpfp_tx :=
          Some (create_spark_tx cpfp_outpoint direct_sequence node_value addr true false) |}.

Definition create_initial_timelock_refund_txs {E} (node_tx : Tx) (direct_tx : option Tx)
    (receiving_pubkey : SecpPublicKey) (network : Network) : result RefundTransactions (exn E) :=
  let '(cpfp_sequence, direct_sequence) := initial_timelock_sequence blocks_to_consensus in
  create_refund_txs node_tx direct_tx cpfp_sequence direct_sequence receiving_pubkey network.

Record ConnectorRefundTxsParams : Type := {
  cr_cpfp_sequence : Z;
  cr_direct_sequence : Z;
  cr_node_tx : Tx;
  cr_direct_tx : option Tx;
  connector_outpoint : OutPoint;
  cr_receiving_pubkey : SecpPublicKey;
  cr_network : Network
}.

(** [tx.input.push(TxIn { previous_output, ..Default::default() })]. *)
Definition push_input (o : OutPoint) (tx : Tx) : Tx :=
  {| version := version tx; lock_time := lock_time tx;
     input := input tx ++ [default_txin o]; output := output tx |}.

Definition create_connector_refund_txs {E} (params : ConnectorRefundTxsParams)
    : result RefundTransactions (exn E) :=
  let network := cr_network params in
  let* node_value := first_value (cr_node_tx params) in
  let cpfp_outpoint := first_outpoint (cr_node_tx params) in
  let addr := p2tr_script (x_only_public_key (cr_receiving_pubkey params)) None network in
  let connect := push_input (connector_outpoint params) in
  let cpfp_tx :=
    connect (create_spark_tx cpfp_outpoint (cr_cpfp_sequence params) node_value addr false true) in
  let* direct_tx :=
    map_opt (λ tx, let* direct_value := first_value tx in
                   Ok (connect (create_spark_tx (first_outpoint tx) (cr_direct_sequence params)
                                  direct_value addr true false)))
      (cr_direct_tx params) in
  Ok {| rtx_cpfp_tx := cpfp_tx;
        rtx_direct_tx := direct_tx;
        rtx_direct_from_cpfp_tx :=
          Some (connect (create_spark_tx cpfp_outpoint (cr_direct_sequence params) node_value addr
                           true false)) |}.

Definition create_static_deposit_refund_tx (deposit_outpoint : OutPoint) (amount_sat : Z)
    (refund_script : ScriptBuf) : Tx :=
  {| version := 3; lock_time := 0; input := [default_txin deposit_outpoint];
     output := [ {| txo_value := amount_sat; script_pubkey := refund_script |} ] |}.

(** ** Lightning HTLCs: [utils/htlc_transactions.rs] *)

Definition LIGHTNING_HTLC_TIME_LOCK : Z := 2160.
Definition UNSPENDABLE_PUBKEY : string :=
  "0250929b74c1a04954b78b4b6035e97a5e078a5a0f28ec96d547bfee9ace803ac0".

(** [hash] is the payment hash, its 32 bytes. *)
Definition create_hash_lock_script (hash : list Z) (hash_lock_pubkey : SecpPublicKey) : ScriptBuf :=
  into_script [PushOpcode "OP_SHA256"; PushSlice hash; PushOpcode "OP_EQUALVERIFY";
               PushXOnlyKey (x_only_public_key hash_lock_pubkey); PushOpcode "OP_CHECKSIG"].

Definition create_sequence_lock_script (sequence : Z) (sequence_lock_pubkey : SecpPublicKey)
    : ScriptBuf :=
  into_script [PushInt sequence; PushOpcode "OP_CSV"; PushOpcode "OP_DROP";
               PushXOnlyKey (x_only_public_key sequence_lock_pubkey); PushOpcode "OP_CHECKSIG"].

Definition create_htlc_taproot_address (hash : list Z) (hash_lock_pubkey : SecpPublicKey)
    (sequence : Z) (sequence_lock_pubkey : SecpPublicKey) (network : Network)
    : result ScriptBuf SignerError :=
  let* key := ok_or (PublicKey_from_str UNSPENDABLE_PUBKEY) UnknownKey in
  let unspendable_pubkey := x_only_public_key key in
  let hash_lock_script := create_hash_lock_script hash hash_lock_pubkey in
  let sequence_lock_script := create_sequence_lock_script sequence sequence_lock_pubkey in
  let* b := map_err (λ e, TaprootBuilderError ("Error adding hash lock leaf: " +:+ e))
              (taproot_add_leaf taproot_new 1 hash_lock_script) in
  let* b := map_err (λ e, TaprootBuilderError ("Error adding sequence lock leaf: " +:+ e))
              (taproot_add_leaf b 1 sequence_lock_script) in
  let* info := ok_or (taproot_finalize b unspendable_pubkey)
                 (TaprootBuilderError "Error finalizing taproot tree") in
  Ok (p2tr_script unspendable_pubkey (merkle_root info) network).

Record CreateLightningHtlcTxsParams : Type := {
  h_previous_output : OutPoint;
  h_sequence : Z;
  h_value : Z;
  h_hash : list Z;
  h_hash_lock_pubkey : SecpPublicKey;
  h_sequence_lock_pubkey : SecpPublicKey;
  h_network : Network;
  h_apply_fee : bool;
  h_include_anchor : bool
}.

Definition create_lightning_htlc_tx (params : CreateLightningHtlcTxsParams) : result Tx SignerError :=
  let* script_pubkey :=
    create_htlc_taproot_address (h_hash params) (h_hash_lock_pubkey params)
      (sequence_from_height LIGHTNING_HTLC_TIME_LOCK) (h_sequence_lock_pubkey params)
      (h_network params) in
  Ok (create_spark_tx (h_previous_output params) (h_sequence params) (h_value params) script_pubkey
        (h_apply_fee params) (h_include_anchor params)).

Record CreateLightningHtlcRefundTxsParams : Type := {
  hr_node_tx : Tx;
  hr_direct_tx : option Tx;
  hr_cpfp_sequence : Z;
  hr_direct_sequence : Z;
  hr_hash : list Z;
  hr_hash_lock_pubkey : SecpPublicKey;
  hr_sequence_lock_pubkey : SecpPublicKey;
  hr_network : Network
}.

Definition create_lightning_htlc_refund_txs (params : CreateLightningHtlcRefundTxsParams)
    : result RefundTransactions (exn SignerError) :=
  let htlc_tx o sequence value apply_fee include_anchor :=
    throws (create_lightning_htlc_tx
      {| h_previous_output := o; h_sequence := sequence; h_value := value; h_hash := hr_hash params;
         h_hash_lock_pubkey := hr_hash_lock_pubkey params;
         h_sequence_lock_pubkey := hr_sequence_lock_pubkey params;
         h_network := hr_network params; h_apply_fee := apply_fee;
         h_include_anchor := include_anchor |}) in
  let* node_value := first_value (hr_node_tx params) in
  let cpfp_outpoint := first_outpoint (hr_node_tx params) in
  let* cpfp_tx := htlc_tx cpfp_outpoint (hr_cpfp_sequence params) node_value false true in
  let* direct_tx :=
    map_opt (λ tx, let* direct_value := first_value tx in
                   htlc_tx (first_outpoint tx) (hr_direct_sequence params) direct_value true false)
      (hr_direct_tx params) in
  let* direct_from_cpfp_tx :=
    htlc_tx cpfp_outpoint (hr_direct_sequence params) node_value true false in
  Ok {| rtx_cpfp_tx := cpfp_tx; rtx_direct_tx := direct_tx;
        rtx_direct_from_cpfp_tx := Some direct_from_cpfp_tx |}.

(** ** What a transaction spends and pays

    [spends child parent out seq]: the only input of [child] is output 0 of [parent], which
    is [out], with the sequence [seq]. *)
Definition spends (child parent : Tx) (out : TxOut) (seq : Z) : Prop :=
  head (output parent) = Some out ∧
  input child = [ {| previous_output := first_outpoint parent; script_sig := [];
                     txin_sequence := seq; witness := [] |} ].

(** The outputs of a transaction that pays [amount]: whole, with an anchor for a child that
    pays the fees, or less the fee. *)
Definition pays (child : Tx) (cpfp : bool) (amount : Z) : Prop :=
  ∃ script, output child
    = if cpfp then [ {| txo_value := amount; script_pubkey := script |}; ephemeral_anchor_output ]
      else [ {| txo_value := maybe_apply_fee amount; script_pubkey := script |} ].

Lemma maybe_apply_fee_bounds a : 0 ≤ a → 0 ≤ maybe_apply_fee a ≤ a.
Proof.
  intros Ha. unfold maybe_apply_fee, saturating_sub, DEFAULT_FEE_SATS, ESTIMATED_TX_SIZE,
    DEFAULT_FEE_RATE. destruct (Z.ltb_spec (191 * 5) a); lia.
Qed.

Lemma is_ephemeral_anchor_output_spec o :
  is_ephemeral_anchor_output o = true ↔ o = ephemeral_anchor_output.
Proof.
  unfold is_ephemeral_anchor_output, ephemeral_anchor_output.
  rewrite andb_true_iff, Z.eqb_eq, bool_decide_eq_true. destruct o; simpl. naive_solver.
Qed.

Lemma map_opt_ok {A B E} (f : A → result B E) o r :
  map_opt f o = Ok r ↔
    match o, r with
    | Some a, Some b => f a = Ok b
    | None, None => True
    | _, _ => False
    end.
Proof. destruct o as [a|]; simpl; [destruct (f a); simpl|]; destruct r; naive_solver. Qed.

Lemma first_value_ok {E} tx v :
  @first_value E tx = Ok v → ∃ o, head (output tx) = Some o ∧ txo_value o = v.
Proof.
  unfold first_value. intros H%or_panic_ok. destruct (head (output tx)); simpl in H; naive_solver.
Qed.

Lemma spends_sequence child parent out seq : spends child parent out seq → input0_sequence child = Some seq.
Proof. intros [_ H]. unfold input0_sequence. by rewrite H. Qed.

Lemma create_spark_tx_spends parent out seq v script fee anchor :
  head (output parent) = Some out →
  spends (create_spark_tx (first_outpoint parent) seq v script fee anchor) parent out seq.
Proof. done. Qed.

Lemma create_spark_tx_pays o seq v script (cpfp : bool) :
  pays (create_spark_tx o seq v script (negb cpfp) cpfp) cpfp v.
Proof. exists script. by destruct cpfp. Qed.

(** The transactions of a node: both spend output 0 of the parent; the one for the user
    keeps the value and has an anchor, the other pays a fee. *)
Lemma create_node_txs_ok parent cpfp direct ntx :
  create_node_txs parent cpfp direct 0 = Ok ntx →
  ∃ out, spends (ntx_cpfp_tx ntx) parent out cpfp ∧ pays (ntx_cpfp_tx ntx) true (txo_value out) ∧
    spends (ntx_direct_tx ntx) parent out direct ∧ pays (ntx_direct_tx ntx) false (txo_value out).
Proof.
  unfold create_node_txs. intros (out & Hout%ok_or_ok & [= <-])%rbind_ok.
  rewrite <- head_lookup in Hout. exists out. simpl. split_and!;
    by (apply create_spark_tx_spends || apply (create_spark_tx_pays _ _ _ _ true)
        || apply (create_spark_tx_pays _ _ _ _ false)).
Qed.

Lemma create_node_txs_total parent out cpfp direct :
  head (output parent) = Some out → ∃ ntx, create_node_txs parent cpfp direct 0 = Ok ntx.
Proof. intros H. unfold create_node_txs. rewrite <- head_lookup, H. by eexists. Qed.

(** The refund transactions of a node, in the three shapes the code makes. *)
Definition refunds (node : Tx) (direct : option Tx) (cpfp_seq direct_seq : Z)
    (rtx : RefundTransactions) : Prop :=
  (∃ out, spends (rtx_cpfp_tx rtx) node out cpfp_seq ∧ pays (rtx_cpfp_tx rtx) true (txo_value out) ∧
     ∃ tx, rtx_direct_from_cpfp_tx rtx = Some tx ∧ spends tx node out direct_seq ∧
       pays tx false (txo_value out)) ∧
  match direct, rtx_direct_tx rtx with
  | Some dtx, Some tx => ∃ out, spends tx dtx out direct_seq ∧ pays tx false (txo_value out)
  | None, None => True
  | _, _ => False
  end.

Lemma create_refund_txs_ok {E} node direct cpfp_seq direct_seq key net rtx :
  @create_refund_txs E node direct cpfp_seq direct_seq key net = Ok rtx →
  refunds node direct cpfp_seq direct_seq rtx.
Proof.
  unfold create_refund_txs. intros (v & (out & Hout & <-)%first_value_ok & H)%rbind_ok.
  apply rbind_ok in H as (d & Hd%map_opt_ok & [= <-]). split; simpl.
  - exists out. split_and!; [done|apply (create_spark_tx_pays _ _ _ _ true)|].
    eexists. split_and!; [done..|apply (create_spark_tx_pays _ _ _ _ false)].
  - destruct direct as [dtx|], d as [tx|]; try done.
    apply rbind_ok in Hd as (dv & (dout & Hdout & <-)%first_value_ok & [= <-]).
    exists dout. split; [done|apply (create_spark_tx_pays _ _ _ _ false)].
Qed.

Lemma create_lightning_htlc_tx_ok p tx :
  create_lightning_htlc_tx p = Ok tx →
  ∃ script, tx = create_spark_tx (h_previous_output p) (h_sequence p) (h_value p) script
                   (h_apply_fee p) (h_include_anchor p).
Proof. unfold create_lightning_htlc_tx. intros (script & _ & [= <-])%rbind_ok. by exists script. Qed.

Lemma create_lightning_htlc_refund_txs_ok p rtx :
  create_lightning_htlc_refund_txs p = Ok rtx →
  refunds (hr_node_tx p) (hr_direct_tx p) (hr_cpfp_sequence p) (hr_direct_sequence p) rtx.
Proof.
  unfold create_lightning_htlc_refund_txs.
  intros (v & (out & Hout & <-)%first_value_ok & H)%rbind_ok.
  apply rbind_ok in H as (cpfp & (s1 & ->)%throws_ok%create_lightning_htlc_tx_ok & H).
  apply rbind_ok in H as (d & Hd%map_opt_ok & H).
  apply rbind_ok in H as (f & (s2 & ->)%throws_ok%create_lightning_htlc_tx_ok & [= <-]).
  split; simpl.
  - exists out. split_and!; [done|apply (create_spark_tx_pays _ _ _ _ true)|].
    eexists. split_and!; [done..|apply (create_spark_tx_pays _ _ _ _ false)].
  - destruct (hr_direct_tx p) as [dtx|], d as [tx|]; try done.
    apply rbind_ok in Hd as (dv & (dout & Hdout & <-)%first_value_ok & Hd).
    apply throws_ok, create_lightning_htlc_tx_ok in Hd as (s & ->).
    exists dout. split; [done|apply (create_spark_tx_pays _ _ _ _ false)].
Qed.
End transactions.

(** ** Example instances: identifiers and keys are numbers *)

Definition example_bitcoin : BitcoinTypes := {|
  Txid := Z; SecpPublicKey := Z; FrostIdentifier := Z; OtherError := string
|}.

Definition mix (l : list Z) : Z := foldl (λ acc x, acc * 1000003 + x) 7 l.

Definition example_txid (tx : Tx (bt := example_bitcoin)) : Z :=
  mix (flat_map (λ i : TxIn (bt := example_bitcoin), [(op_txid (previous_output i) : Z); op_vout (previous_output i); txin_sequence i])
         (input tx)
       ++ flat_map (λ o, txo_value o :: script_pubkey o) (output tx)).

Definition example_bitcoin_ops : BitcoinOps (bt := example_bitcoin) := {|
  XOnlyKey := Z; TapNodeHash := Z; TaprootBuilder := list (Z * ScriptBuf); TaprootSpendInfo := Z;
  compute_txid := example_txid;
  x_only_public_key := λ k, k;
  PublicKey_from_str := λ _, Some 1;
  p2tr_script := λ k root _, [81; k; default 0 root];
  p2wpkh_script := λ k _, [0; k];
  into_script := flat_map (λ i, match i with
    | PushOpcode _ => [1] | PushSlice b => b | PushXOnlyKey k => [k] | PushInt n => [n] end);
  taproot_new := [];
  taproot_add_leaf := λ b d s, Ok (b ++ [(d, s)]);
  taproot_finalize := λ b k, Some (k + Z.of_nat (length b));
  merkle_root := λ i, Some i;
  blocks_to_consensus := λ b, b;
  sequence_from_height := λ h, h
|}.

(** A transaction with one input, which spends output 0 of the transaction [prev], and one
    output with an anchor. *)
Definition example_tx (prev seq amount : Z) : Tx (bt := example_bitcoin) :=
  create_spark_tx (bt := example_bitcoin) {| op_txid := (prev : Txid (BitcoinTypes := example_bitcoin)); op_vout := 0 |} seq amount [5] false true.

Definition example_node (id : string) (parent : option string) (tx : Tx (bt := example_bitcoin))
    (refund : option (Tx (bt := example_bitcoin))) (direct : option (Tx (bt := example_bitcoin)))
    : TreeNode (ext := @bitcoin_externals example_bitcoin) :=
  {| tn_id := id; tree_id := "tree"; value := 1000; parent_node_id := parent;
     node_tx := (tx : @Transaction (@bitcoin_externals example_bitcoin));
     refund_tx := refund; direct_tx := direct;
     direct_refund_tx := None; direct_from_cpfp_refund_tx := None; vout := 0;
     verifying_public_key := (5 : @PublicKey (@bitcoin_externals example_bitcoin));
     owner_identity_public_key := None;
     signing_keyshare := {| owner_identifiers := []; threshold := 2;
                            keyshare_public_key := (2 : @PublicKey (@bitcoin_externals example_bitcoin)) |};
     status := Available |}.
