(* ===== verification/Signing.v ===== *)
(** Signing transactions with the operators: [crates/spark/src/utils/signing_job.rs],
    [utils/refund.rs], [utils/frost.rs], the sighashes of [bitcoin/service.rs] and the data
    of [signer/models.rs] and [services/models.rs] they use.

    The signer (key derivation, FROST) and the wire formats are the class [SignerEnv]; a
    method that calls the signer is a program over its world.  Errors include the panics
    of indexing ([exn]). *)
From S2P Require Import Prelude Timelocks TreeTypes Transactions.

Inductive SecretSource : Type :=
| Derived (id : TreeNodeId)
| Encrypted (ciphertext : list Z).

(** [services::ServiceError::from]: the payload of a signer error. *)
Class SignerEnv {bt : BitcoinTypes} (W : Type) := {
  Commitments : Type;           (* frost round-one commitments *)
  OperatorCommitments : Type;   (* BTreeMap<Identifier, SigningCommitments> *)
  SignatureShare : Type;
  FrostSignature : Type;
  Sighash : Type;
  ProtoCommitment : Type;
  ProtoOperatorCommitments : Type;
  ProtoSigningResult : Type;
  SigningResultData : Type;     (* services::SigningResult *)
  signer_error : SignerError → OtherError;
  public_key_from_secret : SecretSource → SE W SignerError SecpPublicKey;
  get_identity_public_key : SE W SignerError SecpPublicKey;
  generate_random_signing_commitment : SE W SignerError (Commitments * list Z);
  (** [SighashCache::taproot_key_spend_signature_hash] over all prevouts; errors as text. *)
  taproot_sighash : Tx → nat → list TxOut → result Sighash string;
  key_from_slice : list Z → option SecpPublicKey;
  key_serialize : SecpPublicKey → list Z;
  tx_serialize : Tx → list Z;
  share_serialize : SignatureShare → list Z;
  signature_serialize : FrostSignature → result (list Z) ServiceError;
  commitment_to_proto : Commitments → result ProtoCommitment ServiceError;
  operator_commitments_to_proto : OperatorCommitments → result ProtoOperatorCommitments ServiceError;
  signing_result_from_proto : ProtoSigningResult → result SigningResultData ServiceError;
  sr_commitments : SigningResultData → OperatorCommitments
}.

Section data.
Context {bt : BitcoinTypes} {W : Type} {se : SignerEnv W}.

Record FrostSigningCommitmentsWithNonces : Type := {
  commitments : Commitments;
  nonces_ciphertext : list Z
}.

Record SignFrostRequest : Type := {
  sf_message : Sighash;
  sf_public_key : SecpPublicKey;
  sf_private_key : SecretSource;
  sf_verifying_key : SecpPublicKey;
  sf_self_nonce_commitment : FrostSigningCommitmentsWithNonces;
  sf_statechain_commitments : OperatorCommitments;
  sf_adaptor_public_key : option SecpPublicKey
}.

Record AggregateFrostRequest : Type := {
  af_message : Sighash;
  af_signing_result : SigningResultData;
  af_verifying_key : SecpPublicKey;
  af_self_commitment : Commitments;
  af_public_key : SecpPublicKey;
  af_self_signature : SignatureShare;
  af_adaptor_public_key : option SecpPublicKey
}.

Inductive SigningJobType : Type :=
| CpfpNode | CpfpSplitNode | CpfpRefund | DirectNode | DirectSplitNode | DirectRefund
| DirectFromCpfpRefund.

#[export] Instance SigningJobType_eq_dec : EqDecision SigningJobType.
Proof. solve_decision. Defined.

Record SigningJob : Type := {
  job_type : SigningJobType;
  sj_node_id : TreeNodeId;
  sj_tx : Tx;
  parent_tx_out : TxOut;
  sj_signing_public_key : SecpPublicKey;
  sj_signing_commitments : FrostSigningCommitmentsWithNonces;
  sj_verifying_public_key : SecpPublicKey
}.

Record SignedTx : Type := {
  st_node_id : TreeNodeId;
  st_signing_public_key : SecpPublicKey;
  st_tx : Tx;
  user_signature : SignatureShare;
  st_signing_commitments : OperatorCommitments;
  self_nonce_commitment : FrostSigningCommitmentsWithNonces;
  st_network : Network
}.

Record SignedJob : Type := { sgj_job_type : SigningJobType; signed_tx : SignedTx }.

Record UserSignedTxSigningJob : Type := {
  us_leaf_id : string;
  us_signing_public_key : list Z;
  us_raw_tx : list Z;
  us_signing_nonce_commitment : option ProtoCommitment;
  us_signing_commitments : option ProtoOperatorCommitments;
  us_user_signature : list Z
}.

Record LeafKeyTweak : Type := {
  lk_node : TreeNode;
  signing_key : SecretSource;
  new_signing_key : SecretSource
}.

Record LeafRefundSigningData : Type := {
  rd_signing_private_key : SecretSource;
  rd_signing_public_key : SecpPublicKey;
  rd_receiving_public_key : SecpPublicKey;
  rd_tx : Tx;
  rd_direct_tx : option Tx;
  rd_refund_tx : option Tx;
  rd_direct_refund_tx : option Tx;
  rd_direct_from_cpfp_refund_tx : option Tx;
  rd_signing_nonce_commitment : FrostSigningCommitmentsWithNonces;
  rd_direct_signing_nonce_commitment : FrostSigningCommitmentsWithNonces;
  rd_direct_from_cpfp_signing_nonce_commitment : FrostSigningCommitmentsWithNonces;
  rd_vout : Z;
  connector_prev_out : option TxOut
}.

(** [operator_rpc::spark::SigningJob] and [LeafRefundTxSigningJob]. *)
Record ProtoSigningJob : Type := {
  pj_signing_public_key : list Z;
  pj_raw_tx : list Z;
  pj_signing_nonce_commitment : option ProtoCommitment
}.

Record LeafRefundTxSigningJob : Type := {
  lj_leaf_id : string;
  lj_refund_tx_signing_job : option ProtoSigningJob;
  lj_direct_refund_tx_signing_job : option ProtoSigningJob;
  lj_direct_from_cpfp_refund_tx_signing_job : option ProtoSigningJob
}.

(** [LeafRefundTxSigningResult] and [NodeSignatures]. *)
Record LeafRefundTxSigningResult : Type := {
  lr_leaf_id : string;
  lr_refund_tx_signing_result : option ProtoSigningResult;
  lr_direct_refund_tx_signing_result : option ProtoSigningResult;
  lr_direct_from_cpfp_refund_tx_signing_result : option ProtoSigningResult;
  lr_verifying_key : list Z
}.

Record NodeSignatures : Type := {
  ns_node_id : string;
  ns_node_tx_signature : list Z;
  ns_refund_tx_signature : list Z;
  ns_direct_node_tx_signature : list Z;
  ns_direct_refund_tx_signature : list Z;
  ns_direct_from_cpfp_refund_tx_signature : list Z
}.
End data.

(** The two FROST calls of the signer. *)
Class FrostSigner {bt : BitcoinTypes} (W : Type) {se : SignerEnv W} := {
  sign_frost : SignFrostRequest → SE W SignerError SignatureShare;
  aggregate_frost : AggregateFrostRequest → SE W SignerError FrostSignature
}.

Section signing.
Context {bt : BitcoinTypes} {bo : BitcoinOps} {W : Type} {se : SignerEnv W} {fs : FrostSigner W}.

(** [generate_random_signing_commitment]. *)
Definition random_commitment : SE W SignerError FrostSigningCommitmentsWithNonces :=
  do* (c, n) := generate_random_signing_commitment in
  se_ret {| commitments := c; nonces_ciphertext := n |}.

(** ** Sighashes *)

Definition sighash_from_tx (tx : Tx) (input_index : nat) (prev_output : TxOut)
    : result Sighash string :=
  taproot_sighash tx input_index (replicate (length (input tx)) prev_output).

Definition sighash_from_multi_input_tx (tx : Tx) (input_index : nat) (prev_outputs : list TxOut)
    : result Sighash string :=
  if bool_decide (length prev_outputs ≠ length (input tx)) then Err "invalid transaction"
  else taproot_sighash tx input_index prev_outputs.

(** ** [sign_signing_jobs] *)

Definition sign_signing_job (network : Network) (signing_job : SigningJob)
    (signing_commitments : option OperatorCommitments) : SE W (exn SignerError) SignedJob :=
  do* sighash := se_lift (throws (map_err SignerGeneric
                   (sighash_from_tx (sj_tx signing_job) 0 (parent_tx_out signing_job)))) in
  let private_key := Derived (sj_node_id signing_job) in
  do* operator_commitments := se_lift (or_panic signing_commitments) in
  do* user_signature :=
    se_map_err Throw (sign_frost
      {| sf_message := sighash;
         sf_public_key := sj_signing_public_key signing_job;
         sf_private_key := private_key;
         sf_verifying_key := sj_verifying_public_key signing_job;
         sf_self_nonce_commitment := sj_signing_commitments signing_job;
         sf_statechain_commitments := operator_commitments;
         sf_adaptor_public_key := None |}) in
  se_ret {| sgj_job_type := job_type signing_job;
            signed_tx :=
              {| st_node_id := sj_node_id signing_job;
                 st_signing_public_key := sj_signing_public_key signing_job;
                 st_tx := sj_tx signing_job;
                 user_signature := user_signature;
                 self_nonce_commitment := sj_signing_commitments signing_job;
                 st_signing_commitments := operator_commitments;
                 st_network := network |} |}.

Fixpoint sign_signing_jobs (network : Network) (signing_jobs : list SigningJob)
    (signing_commitments : list OperatorCommitments) : SE W (exn SignerError) (list SignedJob) :=
  match signing_jobs with
  | [] => se_ret []
  | job :: jobs =>
      do* signed := sign_signing_job network job (head signing_commitments) in
      do* rest := sign_signing_jobs network jobs (tail signing_commitments) in
      se_ret (signed :: rest)
  end.

(** [impl TryFrom<&SignedTx> for UserSignedTxSigningJob]. *)
Definition UserSignedTxSigningJob_try_from (t : SignedTx) : result UserSignedTxSigningJob ServiceError :=
  let* nonce := commitment_to_proto (commitments (self_nonce_commitment t)) in
  let* cs := operator_commitments_to_proto (st_signing_commitments t) in
  Ok {| us_leaf_id := st_node_id t;
        us_signing_public_key := key_serialize (st_signing_public_key t);
        us_raw_tx := tx_serialize (st_tx t);
        us_signing_nonce_commitment := Some nonce;
        us_signing_commitments := Some cs;
        us_user_signature := share_serialize (user_signature t) |}.

(** ** [sign_refunds] *)

Definition sign_refund (leaf : LeafKeyTweak) (tx refund_tx : Tx) (signing_public_key : SecpPublicKey)
    (spark_commitments : OperatorCommitments) (network : Network)
    (adaptor_public_key : option SecpPublicKey) : SE W (exn SignerError) SignedTx :=
  do* prev := se_lift (or_panic (head (output tx))) in
  do* sighash := se_lift (throws (map_err SignerGeneric (sighash_from_tx refund_tx 0 prev))) in
  do* nonces := se_map_err Throw random_commitment in
  do* signature :=
    se_map_err Throw (sign_frost
      {| sf_message := sighash;
         sf_public_key := signing_public_key;
         sf_private_key := signing_key leaf;
         sf_verifying_key := verifying_public_key (lk_node leaf);
         sf_self_nonce_commitment := nonces;
         sf_statechain_commitments := spark_commitments;
         sf_adaptor_public_key := adaptor_public_key |}) in
  se_ret {| st_node_id := tn_id (lk_node leaf);
            st_signing_public_key := signing_public_key;
            st_tx := refund_tx;
            user_signature := signature;
            self_nonce_commitment := nonces;
            st_signing_commitments := spark_commitments;
            st_network := network |}.

Record SignRefundsParams : Type := {
  cpfp_signing_commitments : list OperatorCommitments;
  direct_signing_commitments : list OperatorCommitments;
  direct_from_cpfp_signing_commitments : list OperatorCommitments;
  receiver_pubkey : SecpPublicKey;
  payment_hash : option (list Z);
  sr_network : Network;
  cpfp_adaptor_public_key : option SecpPublicKey
}.

Record SignedRefundTransactions : Type := {
  cpfp_signed_tx : list SignedTx;
  direct_signed_tx : list SignedTx;
  direct_from_cpfp_signed_tx : list SignedTx
}.

(** The refund transactions of one leaf: an HTLC for a lightning payment. *)
Definition leaf_refund_txs (p : SignRefundsParams) (identity_pubkey : SecpPublicKey) (leaf : TreeNode)
    : result RefundTransactions (exn SignerError) :=
  let* refund := throws (ok_or (refund_tx leaf) (SignerGeneric "No refund transaction")) in
  let* old_sequence := or_panic (input0_sequence refund) in
  match payment_hash p with
  | Some payment_hash =>
      let* (cpfp_sequence, direct_sequence) :=
        throws (ok_or (next_lightning_htlc_sequence blocks_to_consensus old_sequence)
                  (SignerGeneric "Failed to get next lightning HTLC sequences")) in
      create_lightning_htlc_refund_txs
        {| hr_node_tx := node_tx leaf; hr_direct_tx := direct_tx leaf;
           hr_cpfp_sequence := cpfp_sequence; hr_direct_sequence := direct_sequence;
           hr_hash := payment_hash; hr_hash_lock_pubkey := receiver_pubkey p;
           hr_sequence_lock_pubkey := identity_pubkey; hr_network := sr_network p |}
  | None =>
      let* (cpfp_sequence, direct_sequence) :=
        throws (ok_or (next_sequence blocks_to_consensus old_sequence)
                  (SignerGeneric "Failed to get next sequence")) in
      create_refund_txs (node_tx leaf) (direct_tx leaf) cpfp_sequence direct_sequence
        (receiver_pubkey p) (sr_network p)
  end.

(** One round of the loop of [sign_refunds]: the commitments are those of index [i]. *)
Definition sign_leaf_refunds (p : SignRefundsParams) (identity_pubkey : SecpPublicKey)
    (i : nat) (leaf : LeafKeyTweak)
    : SE W (exn SignerError) (SignedTx * option SignedTx * option SignedTx) :=
  let node := lk_node leaf in
  do* txs := se_lift (leaf_refund_txs p identity_pubkey node) in
  do* signing_public_key := se_map_err Throw (public_key_from_secret (signing_key leaf)) in
  do* cs := se_lift (or_panic (cpfp_signing_commitments p !! i)) in
  do* cpfp := sign_refund leaf (node_tx node) (rtx_cpfp_tx txs) signing_public_key cs
                (sr_network p) (cpfp_adaptor_public_key p) in
  do* direct :=
    match direct_tx node with
    | Some direct_tx =>
        match rtx_direct_tx txs with
        | None => se_fail (Throw (SignerGeneric "Direct refund transaction is missing"))
        | Some direct_refund_tx =>
            do* cs := se_lift (or_panic (direct_signing_commitments p !! i)) in
            do* t := sign_refund leaf direct_tx direct_refund_tx signing_public_key cs
                       (sr_network p) None in
            se_ret (Some t)
        end
    | None => se_ret None
    end in
  do* direct_from_cpfp :=
    match rtx_direct_from_cpfp_tx txs with
    | Some tx =>
        do* cs := se_lift (or_panic (direct_from_cpfp_signing_commitments p !! i)) in
        do* t := sign_refund leaf (node_tx node) tx signing_public_key cs (sr_network p) None in
        se_ret (Some t)
    | None => se_ret None
    end in
  se_ret (cpfp, direct, direct_from_cpfp).

Definition opt_list {A} (o : option A) : list A := match o with Some a => [a] | None => [] end.

Fixpoint sign_refunds_loop (p : SignRefundsParams) (identity_pubkey : SecpPublicKey) (i : nat)
    (leaves : list LeafKeyTweak) : SE W (exn SignerError) SignedRefundTransactions :=
  match leaves with
  | [] => se_ret {| cpfp_signed_tx := []; direct_signed_tx := []; direct_from_cpfp_signed_tx := [] |}
  | leaf :: leaves =>
      do* (cpfp, direct, direct_from_cpfp) := sign_leaf_refunds p identity_pubkey i leaf in
      do* rest := sign_refunds_loop p identity_pubkey (S i) leaves in
      se_ret {| cpfp_signed_tx := cpfp :: cpfp_signed_tx rest;
                direct_signed_tx := opt_list direct ++ direct_signed_tx rest;
                direct_from_cpfp_signed_tx :=
                  opt_list direct_from_cpfp ++ direct_from_cpfp_signed_tx rest |}
  end.

Definition sign_refunds (p : SignRefundsParams) (leaves : list LeafKeyTweak)
    : SE W (exn SignerError) SignedRefundTransactions :=
  do* identity_pubkey := se_map_err Throw get_identity_public_key in
  sign_refunds_loop p identity_pubkey 0 leaves.

(** ** Claims: the data of a leaf, the jobs sent to the operators, the final signatures *)

Definition of_signer_error (e : SignerError) : ServiceError := SE_SignerError (signer_error e).

Definition leaf_refund_signing_data (receiving_public_key : SecpPublicKey) (leaf_key : LeafKeyTweak)
    : SE W SignerError LeafRefundSigningData :=
  let node := lk_node leaf_key in
  do* nonce := random_commitment in
  do* direct_nonce := random_commitment in
  do* direct_from_cpfp_nonce := random_commitment in
  do* signing_public_key := public_key_from_secret (signing_key leaf_key) in
  se_ret {| rd_signing_private_key := signing_key leaf_key;
            rd_signing_public_key := signing_public_key;
            rd_receiving_public_key := receiving_public_key;
            rd_tx := node_tx node;
            rd_direct_tx := direct_tx node;
            rd_refund_tx := refund_tx node;
            rd_direct_refund_tx := direct_refund_tx node;
            rd_direct_from_cpfp_refund_tx := direct_from_cpfp_refund_tx node;
            rd_signing_nonce_commitment := nonce;
            rd_direct_signing_nonce_commitment := direct_nonce;
            rd_direct_from_cpfp_signing_nonce_commitment := direct_from_cpfp_nonce;
            rd_vout := vout node;
            connector_prev_out := None |}.

Fixpoint prepare_leaf_refund_signing_data (leaf_key_tweaks : list LeafKeyTweak)
    (receiving_public_key : SecpPublicKey) (leaf_data_map : gmap TreeNodeId LeafRefundSigningData)
    : SE W SignerError (gmap TreeNodeId LeafRefundSigningData) :=
  match leaf_key_tweaks with
  | [] => se_ret leaf_data_map
  | leaf_key :: rest =>
      do* data := leaf_refund_signing_data receiving_public_key leaf_key in
      prepare_leaf_refund_signing_data rest receiving_public_key
        (<[tn_id (lk_node leaf_key) := data]> leaf_data_map)
  end.

Record RefundTxConstructor : Type := {
  rc_node : TreeNode;
  rc_vout : Z;
  rc_cpfp_sequence : Z;
  rc_direct_sequence : Z;
  rc_receiving_pubkey : SecpPublicKey
}.

Definition refund_sequences (is_for_claim : bool) (old_sequence : Z) : result (Z * Z) ServiceError :=
  if is_for_claim then
    Ok (current_sequence blocks_to_consensus (enforce_timelock blocks_to_consensus old_sequence))
  else
    ok_or (next_sequence blocks_to_consensus old_sequence)
      (SE_Generic "Failed to get next sequence").

(** [operator_rpc::spark::SigningJob] of a transaction. *)
Definition proto_signing_job (data : LeafRefundSigningData) (tx : Tx)
    (nonce : FrostSigningCommitmentsWithNonces) : result ProtoSigningJob ServiceError :=
  let* c := commitment_to_proto (commitments nonce) in
  Ok {| pj_signing_public_key := key_serialize (rd_signing_public_key data);
        pj_raw_tx := tx_serialize tx;
        pj_signing_nonce_commitment := Some c |}.

(** The three refund transactions in the data of the leaf. *)
Definition set_refund_txs (txs : RefundTransactions) (d : LeafRefundSigningData)
    : LeafRefundSigningData :=
  {| rd_signing_private_key := rd_signing_private_key d;
     rd_signing_public_key := rd_signing_public_key d;
     rd_receiving_public_key := rd_receiving_public_key d;
     rd_tx := rd_tx d;
     rd_direct_tx := rd_direct_tx d;
     rd_refund_tx := Some (rtx_cpfp_tx txs);
     rd_direct_refund_tx := rtx_direct_tx txs;
     rd_direct_from_cpfp_refund_tx := rtx_direct_from_cpfp_tx txs;
     rd_signing_nonce_commitment := rd_signing_nonce_commitment d;
     rd_direct_signing_nonce_commitment := rd_direct_signing_nonce_commitment d;
     rd_direct_from_cpfp_signing_nonce_commitment := rd_direct_from_cpfp_signing_nonce_commitment d;
     rd_vout := rd_vout d;
     connector_prev_out := connector_prev_out d |}.

(** One round of the loop: the job, and the data with its transactions. *)
Definition refund_so_signing_job (constructor : RefundTxConstructor → result RefundTransactions (exn ServiceError))
    (is_for_claim : bool) (i : nat) (leaf : TreeNode) (data : LeafRefundSigningData)
    : result (LeafRefundTxSigningJob * LeafRefundSigningData) (exn ServiceError) :=
  let* refund := throws (ok_or (refund_tx leaf) (SE_Generic "No refund tx")) in
  let* old_sequence := or_panic (input0_sequence refund) in
  let* (cpfp_sequence, direct_sequence) := throws (refund_sequences is_for_claim old_sequence) in
  let* txs := constructor
    {| rc_node := leaf; rc_vout := wrap 32 (Z.of_nat i); rc_cpfp_sequence := cpfp_sequence;
       rc_direct_sequence := direct_sequence;
       rc_receiving_pubkey := rd_receiving_public_key data |} in
  let* direct_job := throws (map_opt (λ tx, proto_signing_job data tx
                       (rd_direct_signing_nonce_commitment data)) (rtx_direct_tx txs)) in
  let* direct_from_cpfp_job := throws (map_opt (λ tx, proto_signing_job data tx
                       (rd_direct_from_cpfp_signing_nonce_commitment data)) (rtx_direct_from_cpfp_tx txs)) in
  let* cpfp_job := throws (proto_signing_job data (rtx_cpfp_tx txs) (rd_signing_nonce_commitment data)) in
  Ok ({| lj_leaf_id := tn_id leaf;
         lj_refund_tx_signing_job := Some cpfp_job;
         lj_direct_refund_tx_signing_job := direct_job;
         lj_direct_from_cpfp_refund_tx_signing_job := direct_from_cpfp_job |},
      set_refund_txs txs data).

Fixpoint prepare_refund_jobs_loop
    (constructor : RefundTxConstructor → result RefundTransactions (exn ServiceError))
    (is_for_claim : bool) (i : nat) (leaves : list LeafKeyTweak)
    : SE (gmap TreeNodeId LeafRefundSigningData) (exn ServiceError) (list LeafRefundTxSigningJob) :=
  match leaves with
  | [] => se_ret []
  | leaf :: leaves => λ m,
      let id := tn_id (lk_node leaf) in
      match m !! id with
      | None => (m, Err (Throw (SE_Generic ("Leaf data not found for leaf " +:+ id))))
      | Some data =>
          match refund_so_signing_job constructor is_for_claim i (lk_node leaf) data with
          | Err e => (m, Err e)
          | Ok (job, data) =>
              (do* jobs := prepare_refund_jobs_loop constructor is_for_claim (S i) leaves in
               se_ret (job :: jobs)) (<[id := data]> m)
          end
      end
  end.

Definition prepare_refund_so_signing_jobs_with_tx_constructor
    (leaves : list LeafKeyTweak) (is_for_claim : bool)
    (constructor : RefundTxConstructor → result RefundTransactions (exn ServiceError)) :=
  prepare_refund_jobs_loop constructor is_for_claim 0 leaves.

Definition prepare_refund_so_signing_jobs (network : Network) (leaves : list LeafKeyTweak)
    (is_for_claim : bool) :=
  prepare_refund_so_signing_jobs_with_tx_constructor leaves is_for_claim
    (λ c, create_refund_txs (node_tx (rc_node c)) (direct_tx (rc_node c)) (rc_cpfp_sequence c)
            (rc_direct_sequence c) (rc_receiving_pubkey c) network).

Record SignAggregateFrostParams : Type := {
  sa_sighash : Sighash;
  sa_signing_public_key : SecpPublicKey;
  sa_aggregating_public_key : SecpPublicKey;
  sa_signing_private_key : SecretSource;
  sa_self_nonce_commitment : FrostSigningCommitmentsWithNonces;
  sa_adaptor_public_key : option SecpPublicKey;
  sa_verifying_key : SecpPublicKey;
  sa_signing_result : SigningResultData
}.

Definition sign_aggregate_frost (p : SignAggregateFrostParams) : SE W SignerError FrostSignature :=
  do* user_signature := sign_frost
    {| sf_message := sa_sighash p; sf_public_key := sa_signing_public_key p;
       sf_private_key := sa_signing_private_key p; sf_verifying_key := sa_verifying_key p;
       sf_self_nonce_commitment := sa_self_nonce_commitment p;
       sf_statechain_commitments := sr_commitments (sa_signing_result p);
       sf_adaptor_public_key := sa_adaptor_public_key p |} in
  aggregate_frost
    {| af_message := sa_sighash p; af_signing_result := sa_signing_result p;
       af_verifying_key := sa_verifying_key p;
       af_self_commitment := commitments (sa_self_nonce_commitment p);
       af_public_key := sa_aggregating_public_key p; af_self_signature := user_signature;
       af_adaptor_public_key := sa_adaptor_public_key p |}.

(** The sighash of a refund of [parent]: over all inputs when there is a connector and the
    refund has several inputs. *)
Definition refund_sighash (data : LeafRefundSigningData) (parent refund : Tx)
    : result Sighash (exn ServiceError) :=
  let* out := or_panic (head (output parent)) in
  throws (map_err SE_Generic
    (match connector_prev_out data with
     | Some connector_out =>
         if (1 <? Z.of_nat (length (input refund)))
         then sighash_from_multi_input_tx refund 0 [out; connector_out]
         else sighash_from_tx refund 0 out
     | None => sighash_from_tx refund 0 out
     end)).

(** Signs one refund transaction and serializes the signature. *)
Definition aggregate_refund (data : LeafRefundSigningData) (parent refund : Tx)
    (nonce : FrostSigningCommitmentsWithNonces) (adaptor : option SecpPublicKey)
    (verifying_key : SecpPublicKey) (signing_result : SigningResultData)
    : SE W (exn ServiceError) FrostSignature :=
  do* sighash := se_lift (refund_sighash data parent refund) in
  se_map_err (λ e, Throw (of_signer_error e)) (sign_aggregate_frost
    {| sa_sighash := sighash; sa_signing_public_key := rd_signing_public_key data;
       sa_aggregating_public_key := rd_signing_public_key data;
       sa_signing_private_key := rd_signing_private_key data;
       sa_self_nonce_commitment := nonce; sa_adaptor_public_key := adaptor;
       sa_verifying_key := verifying_key; sa_signing_result := signing_result |}).

(** [result.as_ref().map(|sr| sr.try_into()).transpose()?.ok_or(..)?]. *)
Definition required_result (r : option ProtoSigningResult) (missing : string)
    : result SigningResultData (exn ServiceError) :=
  let* o := throws (map_opt signing_result_from_proto r) in
  throws (ok_or o (ValidationError missing)).

Definition sign_aggregate_refund (leaf_data_map : gmap TreeNodeId LeafRefundSigningData)
    (cpfp_adaptor_pubkey direct_adaptor_pubkey direct_from_cpfp_adaptor_pubkey : option SecpPublicKey)
    (r : LeafRefundTxSigningResult) : SE W (exn ServiceError) NodeSignatures :=
  do* leaf_id := se_lift (throws (map_err ValidationError (TreeNodeId_from_str (lr_leaf_id r)))) in
  do* data := se_lift (throws (ok_or (leaf_data_map !! leaf_id)
                (SE_Generic ("Leaf data not found for leaf " +:+ lr_leaf_id r)))) in
  do* refund := se_lift (throws (ok_or (rd_refund_tx data) (SE_Generic "Missing refund transaction"))) in
  do* verifying_key := se_lift (throws (ok_or (key_from_slice (lr_verifying_key r))
                         (ValidationError "Invalid verifying key"))) in
  do* result := se_lift (required_result (lr_refund_tx_signing_result r)
                  "Missing refund tx signing result") in
  do* refund_signature :=
    aggregate_refund data (rd_tx data) refund (rd_signing_nonce_commitment data)
      cpfp_adaptor_pubkey verifying_key result in
  do* direct_signature :=
    match rd_direct_tx data, rd_direct_refund_tx data with
    | Some direct_tx, Some direct_refund_tx =>
        do* result := se_lift (required_result (lr_direct_refund_tx_signing_result r)
                        "Missing direct refund tx signing result") in
        do* signature := aggregate_refund data direct_tx direct_refund_tx
                           (rd_direct_signing_nonce_commitment data) direct_adaptor_pubkey
                           verifying_key result in
        se_lift (throws (signature_serialize signature))
    | _, _ => se_ret []
    end in
  do* direct_from_cpfp_signature :=
    match rd_direct_from_cpfp_refund_tx data with
    | Some tx =>
        do* result := se_lift (required_result (lr_direct_from_cpfp_refund_tx_signing_result r)
                        "Missing direct from CPFP refund tx signing result") in
        do* signature := aggregate_refund data (rd_tx data) tx
                           (rd_direct_from_cpfp_signing_nonce_commitment data)
                           direct_from_cpfp_adaptor_pubkey verifying_key result in
        se_lift (throws (signature_serialize signature))
    | None => se_ret []
    end in
  do* refund_bytes := se_lift (throws (signature_serialize refund_signature)) in
  se_ret {| ns_node_id := lr_leaf_id r; ns_node_tx_signature := [];
            ns_refund_tx_signature := refund_bytes; ns_direct_node_tx_signature := [];
            ns_direct_refund_tx_signature := direct_signature;
            ns_direct_from_cpfp_refund_tx_signature := direct_from_cpfp_signature |}.

Fixpoint sign_aggregate_refunds (leaf_data_map : gmap TreeNodeId LeafRefundSigningData)
    (operator_signing_results : list LeafRefundTxSigningResult)
    (cpfp_adaptor_pubkey direct_adaptor_pubkey direct_from_cpfp_adaptor_pubkey : option SecpPublicKey)
    : SE W (exn ServiceError) (list NodeSignatures) :=
  match operator_signing_results with
  | [] => se_ret []
  | r :: rest =>
      do* signatures := sign_aggregate_refund leaf_data_map cpfp_adaptor_pubkey
                          direct_adaptor_pubkey direct_from_cpfp_adaptor_pubkey r in
      do* more := sign_aggregate_refunds leaf_data_map rest cpfp_adaptor_pubkey
                    direct_adaptor_pubkey direct_from_cpfp_adaptor_pubkey in
      se_ret (signatures :: more)
  end.

(** ** Every signed refund is over the output it spends and outdates the previous one *)

(** The transaction of [t] spends output 0 of [parent], and its signature was asked from
    the signer for the sighash over that output, with the key of the leaf. *)
Definition signs_spend (leaf : LeafKeyTweak) (parent : Tx) (t : SignedTx) : Prop :=
  ∃ out seq h req w1 w2,
    spends (st_tx t) parent out seq ∧ taproot_sighash (st_tx t) 0 [out] = Ok h ∧
    sf_message req = h ∧ sf_private_key req = signing_key leaf ∧
    sf_verifying_key req = verifying_public_key (lk_node leaf) ∧
    sign_frost req w1 = (w2, Ok (user_signature t)).

(** The transaction of [t] unlocks before the refund the leaf has now. *)
Definition outdates (t : SignedTx) (leaf : TreeNode) : Prop :=
  ∃ refund old s, refund_tx leaf = Some refund ∧ input0_sequence refund = Some old ∧
    input0_sequence (st_tx t) = Some s ∧ timelock s < timelock old ∧ has_flag s = has_flag old.

Lemma sign_refund_ok leaf tx refund key cs net adaptor w w' t :
  sign_refund leaf tx refund key cs net adaptor w = (w', Ok t) →
  st_tx t = refund ∧ ∀ out seq, spends refund tx out seq → signs_spend leaf tx t.
Proof.
  unfold sign_refund, se_lift, se_ret. intros H.
  apply se_bind_ok in H as (w1 & prev & [= <- Hprev%or_panic_ok] & H).
  apply se_bind_ok in H as (w2 & h & [= <- Hh%throws_ok] & H).
  apply se_bind_ok in H as (w3 & nonces & Hn & H).
  apply se_bind_ok in H as (w4 & sig & Hsig%se_map_err_ok & [= <- <-]).
  split; [done|]. intros out seq [Hout Hin]. rewrite Hprev in Hout. injection Hout as ->.
  destruct (sighash_from_tx refund 0 out) eqn:Hs; simpl in Hh; [|done]. injection Hh as ->.
  unfold sighash_from_tx in Hs. rewrite Hin in Hs. simpl in Hs.
  exists out, seq, h. eexists _, w3, w4. split_and!; [by split|done| | | |exact Hsig]; done.
Qed.

Context (blocks_encoding : ∀ b, in_u 16 b → blocks_to_consensus b = b).

(** The refunds of a leaf, by the sequences they carry. *)
Lemma leaf_refund_txs_ok p identity leaf rtx :
  leaf_refund_txs p identity leaf = Ok rtx →
  ∃ refund old cpfp direct, refund_tx leaf = Some refund ∧ input0_sequence refund = Some old ∧
    timelock cpfp < timelock direct < timelock old ∧
    has_flag cpfp = has_flag old ∧ has_flag direct = has_flag old ∧
    refunds (node_tx leaf) (direct_tx leaf) cpfp direct rtx.
Proof.
  unfold leaf_refund_txs. intros (refund & Hrefund%throws_ok%ok_or_ok & H)%rbind_ok.
  apply rbind_ok in H as (old & Hold%or_panic_ok & H). exists refund, old.
  destruct (payment_hash p) as [hash|]; apply rbind_ok in H as ([cpfp direct] & Hseq & H);
    apply throws_ok, ok_or_ok in Hseq; exists cpfp, direct;
    destruct (next_sequence_lower _ blocks_encoding old cpfp direct) as (Hlt & Hf1 & Hf2);
    auto; split_and!; try done; try lia.
  - by apply create_lightning_htlc_refund_txs_ok in H.
  - by apply create_refund_txs_ok in H.
Qed.

(** What one round of [sign_refunds] signs. *)
Definition leaf_signed (leaf : LeafKeyTweak) (cpfp : SignedTx) (direct direct_from_cpfp : option SignedTx)
    : Prop :=
  let node := lk_node leaf in
  (signs_spend leaf (node_tx node) cpfp ∧ outdates cpfp node ∧
   ∃ v, pays (st_tx cpfp) true v) ∧
  match direct_tx node, direct with
  | Some dtx, Some t => signs_spend leaf dtx t ∧ outdates t node
  | None, None => True
  | _, _ => False
  end ∧
  (∃ t, direct_from_cpfp = Some t ∧ signs_spend leaf (node_tx node) t ∧ outdates t node).

Lemma sign_leaf_refunds_ok p identity i leaf w w' cpfp direct direct_from_cpfp :
  sign_leaf_refunds p identity i leaf w = (w', Ok (cpfp, direct, direct_from_cpfp)) →
  leaf_signed leaf cpfp direct direct_from_cpfp.
Proof.
  unfold sign_leaf_refunds, se_lift, se_ret. intros H.
  apply se_bind_ok in H as (w1 & rtx & [= <- Hrtx] & H).
  apply leaf_refund_txs_ok in Hrtx as (refund & old & cs & ds & Href & Hold & Hlt & Hfc & Hfd & Hr).
  destruct Hr as [(out & Hsp & Hpay & dfc & Hdfc & Hspd & _) Hdir].
  apply se_bind_ok in H as (w2 & key & _ & H).
  apply se_bind_ok in H as (w3 & c & _ & H).
  apply se_bind_ok in H as (w4 & t & [Ht Hsign]%sign_refund_ok & H).
  assert (∀ t s, input0_sequence (st_tx t) = Some s → timelock s < timelock old →
            has_flag s = has_flag old → outdates t (lk_node leaf)) as Hout.
  { intros t' s ???. by exists refund, old, s. }
  apply se_bind_ok in H as (w5 & d & Hd & H). rewrite Hdfc in H.
  apply se_bind_ok in H as (w6 & f & Hf & H).
  apply se_bind_ok in Hf as (w7 & ? & _ & Hf).
  apply se_bind_ok in Hf as (w8 & u & [Hu Hsignu]%sign_refund_ok & [= <- <-]).
  injection H as <- <- <- <-. unfold leaf_signed. split_and!.
  - by eapply Hsign.
  - eapply Hout; [rewrite Ht; by eapply spends_sequence|lia|done].
  - rewrite Ht. eauto.
  - destruct (direct_tx (lk_node leaf)) as [dtx|]; [|by injection Hd as <- <-].
    destruct (rtx_direct_tx rtx) as [dr|]; [|done]. destruct Hdir as (dout & Hds & _).
    apply se_bind_ok in Hd as (? & ? & _ & Hd).
    apply se_bind_ok in Hd as (? & v & [Hv Hsignv]%sign_refund_ok & [= <- <-]).
    split; [by eapply Hsignv|]. eapply Hout; [rewrite Hv; by eapply spends_sequence|lia|done].
  - exists u. split_and!; [done|by eapply Hsignu|].
    eapply Hout; [rewrite Hu; by eapply spends_sequence|lia|done].
Qed.

Lemma sign_refunds_loop_ok p identity i leaves w w' r :
  sign_refunds_loop p identity i leaves w = (w', Ok r) →
  ∃ directs froms,
    Forall2 (λ leaf '(c, d, f), leaf_signed leaf c d f) leaves
      (zip (zip (cpfp_signed_tx r) directs) froms) ∧
    length (cpfp_signed_tx r) = length leaves ∧ length directs = length leaves ∧
    length froms = length leaves ∧
    direct_signed_tx r = omap id directs ∧ direct_from_cpfp_signed_tx r = omap id froms.
Proof.
  revert i w r. induction leaves as [|leaf leaves IH]; intros i w r; simpl.
  { intros [= <- <-]. exists [], []. repeat split; constructor. }
  intros (w1 & [[c d] f] & H1 & H)%se_bind_ok. apply se_bind_ok in H as (w2 & rest & H2 & [= <- <-]).
  apply sign_leaf_refunds_ok in H1.
  apply IH in H2 as (ds & froms & Hall & Hl1 & Hl2 & Hl3 & Hd & Hf).
  exists (d :: ds), (f :: froms). simpl. split_and!; try (by f_equal).
  - by constructor.
  - rewrite Hd. by destruct d.
  - rewrite Hf. by destruct f.
Qed.

(** C17: every refund that [sign_refunds] signs for a transfer spends output 0 of the leaf's
    transaction (of its direct transaction for the direct refund), is signed with the key
    of that leaf for the sighash over exactly that output, and unlocks strictly before the
    refund the sender holds, whether it is a plain refund or a lightning HTLC; there is
    one refund of each kind per leaf, a direct one exactly when the leaf has a direct
    transaction. *)
Theorem signed_refunds_outdate_previous p leaves w w' r :
  sign_refunds p leaves w = (w', Ok r) →
  ∃ directs froms,
    Forall2 (λ leaf '(c, d, f), leaf_signed leaf c d f) leaves
      (zip (zip (cpfp_signed_tx r) directs) froms) ∧
    length (cpfp_signed_tx r) = length leaves ∧
    direct_signed_tx r = omap id directs ∧ direct_from_cpfp_signed_tx r = omap id froms.
Proof.
  unfold sign_refunds. intros (w1 & identity & _ & H)%se_bind_ok.
  apply sign_refunds_loop_ok in H as (ds & froms & Hall & Hl1 & _ & _ & Hd & Hf). by exists ds, froms.
Qed.

(** ** What is sent to the operators is what is signed

    [key_of] is the key a service signs the refunds of a leaf with. *)
Section jobs.
Context (key_of : LeafKeyTweak → SecretSource).

Definition leaf_id (leaf : LeafKeyTweak) : TreeNodeId := tn_id (lk_node leaf).

(** The data prepared for a leaf. *)
Definition data_for (leaf : LeafKeyTweak) (data : LeafRefundSigningData) : Prop :=
  rd_tx data = node_tx (lk_node leaf) ∧ rd_direct_tx data = direct_tx (lk_node leaf) ∧
  connector_prev_out data = None ∧ rd_signing_private_key data = key_of leaf.

(** The transactions of the data are those of the job sent for the leaf. *)
Definition job_matches (is_for_claim : bool) (leaf : LeafKeyTweak) (data : LeafRefundSigningData)
    (job : LeafRefundTxSigningJob) : Prop :=
  lj_leaf_id job = leaf_id leaf ∧ data_for leaf data ∧
  ∃ old refund cs ds rtx, refund_tx (lk_node leaf) = Some refund ∧
    input0_sequence refund = Some old ∧ refund_sequences is_for_claim old = Ok (cs, ds) ∧
    refunds (node_tx (lk_node leaf)) (direct_tx (lk_node leaf)) cs ds rtx ∧
    rd_refund_tx data = Some (rtx_cpfp_tx rtx) ∧
    rd_direct_refund_tx data = rtx_direct_tx rtx ∧
    rd_direct_from_cpfp_refund_tx data = rtx_direct_from_cpfp_tx rtx ∧
    pj_raw_tx <$> lj_refund_tx_signing_job job = Some (tx_serialize (rtx_cpfp_tx rtx)) ∧
    pj_raw_tx <$> lj_direct_refund_tx_signing_job job = tx_serialize <$> rtx_direct_tx rtx ∧
    pj_raw_tx <$> lj_direct_from_cpfp_refund_tx_signing_job job
      = tx_serialize <$> rtx_direct_from_cpfp_tx rtx.

Lemma proto_signing_job_ok data tx nonce pj :
  proto_signing_job data tx nonce = Ok pj → pj_raw_tx pj = tx_serialize tx.
Proof. unfold proto_signing_job. by intros (c & _ & [= <-])%rbind_ok. Qed.

Lemma map_opt_proto data nonce o r :
  map_opt (λ tx, proto_signing_job data tx nonce) o = Ok r → pj_raw_tx <$> r = tx_serialize <$> o.
Proof.
  intros H%map_opt_ok. destruct o, r; try done. simpl. f_equal. by eapply proto_signing_job_ok.
Qed.

(** The constructor of [prepare_refund_so_signing_jobs]. *)
Definition plain_refunds (network : Network) (c : RefundTxConstructor)
    : result RefundTransactions (exn ServiceError) :=
  create_refund_txs (node_tx (rc_node c)) (direct_tx (rc_node c)) (rc_cpfp_sequence c)
    (rc_direct_sequence c) (rc_receiving_pubkey c) network.

Lemma refund_so_signing_job_ok net claim i leaf data job data' :
  refund_so_signing_job (plain_refunds net) claim i (lk_node leaf) data = Ok (job, data') →
  data_for leaf data → job_matches claim leaf data' job.
Proof.
  unfold refund_so_signing_job. intros (refund & Hrefund%throws_ok%ok_or_ok & H)%rbind_ok Hdata.
  apply rbind_ok in H as (old & Hold%or_panic_ok & H).
  apply rbind_ok in H as ([cs ds] & Hseq%throws_ok & H).
  apply rbind_ok in H as (rtx & Hrtx%create_refund_txs_ok & H).
  apply rbind_ok in H as (dj & Hdj%throws_ok%map_opt_proto & H).
  apply rbind_ok in H as (fj & Hfj%throws_ok%map_opt_proto & H).
  apply rbind_ok in H as (cj & Hcj%throws_ok%proto_signing_job_ok & [= <- <-]).
  split; [done|split; [done|]]. exists old, refund, cs, ds, rtx. simpl.
  do 7 (split; [done|]). split; [by rewrite Hcj|done].
Qed.

(** The loop over the leaves, for any constructor: what holds of the data of each leaf ([P]) gives
    what holds of its data and its job afterwards ([Q]). *)
Lemma prepare_refund_jobs_each constructor claim
    (P : nat → LeafKeyTweak → LeafRefundSigningData → Prop)
    (Q : nat → LeafKeyTweak → LeafRefundSigningData → LeafRefundTxSigningJob → Prop) i leaves m m' jobs :
  (∀ i leaf data job data',
     refund_so_signing_job constructor claim i (lk_node leaf) data = Ok (job, data') →
     P i leaf data → Q i leaf data' job) →
  prepare_refund_jobs_loop constructor claim i leaves m = (m', Ok jobs) →
  NoDup (leaf_id <$> leaves) →
  (∀ k leaf, leaves !! k = Some leaf → ∃ data, m !! leaf_id leaf = Some data ∧ P (i + k)%nat leaf data) →
  (∀ id, id ∉ leaf_id <$> leaves → m' !! id = m !! id) ∧
  length jobs = length leaves ∧
  ∀ k leaf job, leaves !! k = Some leaf → jobs !! k = Some job →
    ∃ data, m' !! leaf_id leaf = Some data ∧ Q (i + k)%nat leaf data job.
Proof.
  intros HPQ. revert i m jobs. induction leaves as [|leaf leaves IH]; intros i m jobs;
    cbn [prepare_refund_jobs_loop].
  { intros [= <- <-] _ _. split_and!; [done|done|]. intros [|k] ? ? [=]. }
  rewrite fmap_cons, NoDup_cons. intros H [Hnin Hnd] Hm.
  destruct (Hm 0%nat leaf eq_refl) as (data & Hl & Hdata). fold (leaf_id leaf) in H.
  rewrite Hl in H. rewrite Nat.add_0_r in Hdata.
  destruct (refund_so_signing_job _ _ _ _ _) as [[job data']|e] eqn:Hjob; [|done].
  apply se_bind_ok in H as (m1 & rest & H & [= <- <-]).
  apply IH in H as (Hother & Hlen & Hall); [|done|].
  - split_and!; [|by simpl; f_equal|].
    + intros id Hid. rewrite Hother by set_solver. apply lookup_insert_ne. set_solver.
    + intros [|k] l j Hlk Hjk.
      * injection Hlk as <-. injection Hjk as <-. exists data'. rewrite Nat.add_0_r. split; [|by eapply HPQ].
        rewrite Hother by done. apply lookup_insert_eq.
      * rewrite Nat.add_succ_r. by apply Hall.
  - intros k l Hlk. destruct (Hm (S k) l Hlk) as (d & Hd & Hfor). exists d.
    rewrite Nat.add_succ_r in Hfor. split; [|done]. rewrite lookup_insert_ne; [done|].
    intros Heq. apply Hnin. rewrite Heq. by apply list_elem_of_fmap_2, (list_elem_of_lookup_2 _ k).
Qed.

Lemma prepare_refund_jobs_ok net claim i leaves m m' jobs :
  prepare_refund_jobs_loop (plain_refunds net) claim i leaves m = (m', Ok jobs) →
  NoDup (leaf_id <$> leaves) →
  (∀ leaf, leaf ∈ leaves → ∃ data, m !! leaf_id leaf = Some data ∧ data_for leaf data) →
  (∀ id, id ∉ leaf_id <$> leaves → m' !! id = m !! id) ∧
  Forall2 (λ leaf job, ∃ data, m' !! leaf_id leaf = Some data ∧ job_matches claim leaf data job)
    leaves jobs.
Proof.
  intros H Hnd Hm.
  apply (prepare_refund_jobs_each _ _ (λ _, data_for) (λ _, job_matches claim)) in H as (Hother & Hlen & Hall).
  - split; [done|]. apply Forall2_same_length_lookup. split; [done|]. intros k leaf job. apply Hall.
  - intros ? leaf ? ? ?. by apply refund_so_signing_job_ok.
  - done.
  - intros k leaf Hk%list_elem_of_lookup_2. by apply Hm.
Qed.

(** The signer was asked to sign [tx], a spend of output 0 of [parent], and the job sent to
    the operators carried the bytes of [tx]. *)
Definition sent_and_signed (leaf : LeafKeyTweak) (parent : Tx) (job : option ProtoSigningJob) : Prop :=
  ∃ tx out seq h req share w1 w2,
    pj_raw_tx <$> job = Some (tx_serialize tx) ∧ spends tx parent out seq ∧
    taproot_sighash tx 0 [out] = Ok h ∧ sf_message req = h ∧
    sf_private_key req = key_of leaf ∧ sign_frost req w1 = (w2, Ok share).

Lemma aggregate_refund_ok leaf data parent tx out seq nonce adaptor key result w w' sig job :
  aggregate_refund data parent tx nonce adaptor key result w = (w', Ok sig) →
  data_for leaf data → spends tx parent out seq → pj_raw_tx <$> job = Some (tx_serialize tx) →
  sent_and_signed leaf parent job.
Proof.
  intros H (_ & _ & Hconn & Hkey) Hsp Hjob. unfold aggregate_refund, se_lift in H.
  apply se_bind_ok in H as (w1 & h & [= <- Hh] & H%se_map_err_ok).
  unfold sign_aggregate_frost in H. apply se_bind_ok in H as (w2 & share & Hshare & _).
  unfold refund_sighash in Hh. rewrite Hconn in Hh.
  apply rbind_ok in Hh as (o & Ho%or_panic_ok & Hh%throws_ok).
  destruct Hsp as [Hout Hin]. rewrite Hout in Ho. injection Ho as <-.
  unfold sighash_from_tx in Hh. rewrite Hin in Hh. simpl in Hh.
  destruct (taproot_sighash tx 0 [out]) eqn:Hs; [|done]. injection Hh as ->.
  exists tx, out, seq, h. eexists _, share, w, w2. split_and!; [done|by split|done| | |exact Hshare]; done.
Qed.

(** The new refunds of a claim keep the timelock, rounded down to the transfer interval. *)
Definition claim_timelock (leaf : LeafKeyTweak) (job : LeafRefundTxSigningJob) : Prop :=
  ∃ refund old tx s, refund_tx (lk_node leaf) = Some refund ∧ input0_sequence refund = Some old ∧
    pj_raw_tx <$> lj_refund_tx_signing_job job = Some (tx_serialize tx) ∧
    input0_sequence tx = Some s ∧
    timelock s = timelock old - timelock old mod TIME_LOCK_INTERVAL.

Lemma job_matches_timelock leaf data job : job_matches true leaf data job → claim_timelock leaf job.
Proof.
  intros (_ & _ & old & refund & cs & ds & rtx & Href & Hold & Hseq & Hr & _ & _ & _ & Hj1 & _).
  destruct Hr as [(out & Hsp & _) _].
  exists refund, old, (rtx_cpfp_tx rtx), cs. split_and!; try done; [by eapply spends_sequence|].
  injection Hseq as <- _. by destruct (enforce_timelock_spec _ blocks_encoding old) as [? _].
Qed.

(** Every transaction of the job was signed. *)
Definition job_signed (leaf : LeafKeyTweak) (job : LeafRefundTxSigningJob) : Prop :=
  sent_and_signed leaf (node_tx (lk_node leaf)) (lj_refund_tx_signing_job job) ∧
  sent_and_signed leaf (node_tx (lk_node leaf)) (lj_direct_from_cpfp_refund_tx_signing_job job) ∧
  match direct_tx (lk_node leaf) with
  | Some dtx => sent_and_signed leaf dtx (lj_direct_refund_tx_signing_job job)
  | None => lj_direct_refund_tx_signing_job job = None
  end.

(** A signature was aggregated for [tx], a refund of [parent]. *)
Definition aggregated (data : LeafRefundSigningData) (parent tx : Tx) : Prop :=
  ∃ nonce adaptor key result w w' sig, aggregate_refund data parent tx nonce adaptor key result w = (w', Ok sig).

(** Every refund of the data of the leaf is aggregated. *)
Lemma sign_aggregate_refund_calls leaf data m r a1 a2 a3 w w' signatures :
  m !! leaf_id leaf = Some data → lr_leaf_id r = leaf_id leaf →
  sign_aggregate_refund m a1 a2 a3 r w = (w', Ok signatures) →
  (∃ tx, rd_refund_tx data = Some tx ∧ aggregated data (rd_tx data) tx) ∧
  (∀ parent tx, rd_direct_tx data = Some parent → rd_direct_refund_tx data = Some tx →
     aggregated data parent tx) ∧
  (∀ tx, rd_direct_from_cpfp_refund_tx data = Some tx → aggregated data (rd_tx data) tx).
Proof.
  intros Hl Hlr H. unfold sign_aggregate_refund, se_lift in H.
  apply se_bind_ok in H as (? & lid & [= <- Hlid%throws_ok] & H).
  unfold TreeNodeId_from_str in Hlid. case_bool_decide; [done|]. injection Hlid as <-.
  apply se_bind_ok in H as (? & d & [= <- Hd%throws_ok%ok_or_ok] & H).
  rewrite Hlr, Hl in Hd. injection Hd as <-.
  apply se_bind_ok in H as (? & tx & [= <- Htx%throws_ok%ok_or_ok] & H).
  apply se_bind_ok in H as (? & vk & _ & H). apply se_bind_ok in H as (? & sr & _ & H).
  apply se_bind_ok in H as (? & sig & Hsig & H).
  apply se_bind_ok in H as (? & dsig & Hdsig & H).
  apply se_bind_ok in H as (? & fsig & Hfsig & _).
  split_and!.
  - exists tx. split; [done|]. unfold aggregated. eauto 10.
  - intros parent dtx Hp Hdtx. rewrite Hp, Hdtx in Hdsig.
    apply se_bind_ok in Hdsig as (? & ? & _ & Hdsig).
    apply se_bind_ok in Hdsig as (? & ? & Hdsig & _). unfold aggregated. eauto 10.
  - intros ftx Hftx. rewrite Hftx in Hfsig. apply se_bind_ok in Hfsig as (? & ? & _ & Hfsig).
    apply se_bind_ok in Hfsig as (? & ? & Hfsig & _). unfold aggregated. eauto 10.
Qed.

Lemma sign_aggregate_refund_ok claim leaf data job m r a1 a2 a3 w w' signatures :
  m !! leaf_id leaf = Some data → job_matches claim leaf data job → lr_leaf_id r = leaf_id leaf →
  sign_aggregate_refund m a1 a2 a3 r w = (w', Ok signatures) → job_signed leaf job.
Proof.
  intros Hl (Hid & Hdata & old & refund & cs & ds & rtx & Href & Hold & Hseq & Hr &
    Hd1 & Hd2 & Hd3 & Hj1 & Hj2 & Hj3) Hlr H.
  destruct Hr as [(out & Hsp & _ & dfc & Hdfc & Hspf & _) Hdir].
  destruct (sign_aggregate_refund_calls _ _ _ _ _ _ _ _ _ _ Hl Hlr H) as ((tx & Htx & Hagg) & Hdirect & Hfrom).
  destruct Hdata as (Hrd & Hrdd & Hdata'). assert (data_for leaf data) as Hdata by done.
  rewrite Hd1 in Htx. injection Htx as <-. rewrite Hrd in Hagg.
  specialize (Hfrom dfc ltac:(by rewrite Hd3)). rewrite Hrd in Hfrom.
  destruct Hagg as (?&?&?&?&?&?&?&Hagg), Hfrom as (?&?&?&?&?&?&?&Hfrom).
  split_and!.
  - eapply aggregate_refund_ok; [exact Hagg|exact Hdata|exact Hsp|exact Hj1].
  - eapply aggregate_refund_ok; [exact Hfrom|exact Hdata|exact Hspf|]. by rewrite Hj3, Hdfc.
  - destruct (direct_tx (lk_node leaf)) as [dtx|], (rtx_direct_tx rtx) as [dr|]; try done.
    + destruct Hdir as (dout & Hds & _), (Hdirect dtx dr Hrdd Hd2) as (?&?&?&?&?&?&?&Hd).
      eapply aggregate_refund_ok; [exact Hd|exact Hdata|exact Hds|exact Hj2].
    + by destruct (lj_direct_refund_tx_signing_job job).
Qed.

Lemma sign_aggregate_refund_leaf m r a1 a2 a3 w w' signatures :
  sign_aggregate_refund m a1 a2 a3 r w = (w', Ok signatures) → is_Some (m !! lr_leaf_id r).
Proof.
  unfold sign_aggregate_refund, se_lift. intros H.
  apply se_bind_ok in H as (? & lid & [= <- Hlid%throws_ok] & H).
  unfold TreeNodeId_from_str in Hlid. case_bool_decide; [done|]. injection Hlid as <-.
  apply se_bind_ok in H as (? & d & [= <- Hd%throws_ok%ok_or_ok] & _). by exists d.
Qed.

Lemma sign_aggregate_refunds_each m rs a1 a2 a3 w w' sigs :
  sign_aggregate_refunds m rs a1 a2 a3 w = (w', Ok sigs) →
  Forall2 (λ r sig, ∃ w1 w2, sign_aggregate_refund m a1 a2 a3 r w1 = (w2, Ok sig)) rs sigs.
Proof.
  revert w sigs. induction rs as [|r rs IH]; intros w sigs; simpl; [intros [= <- <-]; constructor|].
  intros (w1 & s & H1 & H)%se_bind_ok. apply se_bind_ok in H as (w2 & more & H2 & [= <- <-]).
  constructor; [by exists w, w1|by eapply IH].
Qed.
End jobs.
End signing.

(** ** Examples: the world is a counter of commitments *)

Definition example_signer_env : SignerEnv (bt := example_bitcoin) Z := {|
  Commitments := Z; OperatorCommitments := list Z; SignatureShare := Z; FrostSignature := Z;
  Sighash := Z; ProtoCommitment := Z; ProtoOperatorCommitments := list Z;
  ProtoSigningResult := Z; SigningResultData := list Z;
  signer_error := λ _, ("signer" : OtherError (BitcoinTypes := example_bitcoin));
  public_key_from_secret := λ _, se_ret (9 : SecpPublicKey (BitcoinTypes := example_bitcoin));
  get_identity_public_key := se_ret (8 : SecpPublicKey (BitcoinTypes := example_bitcoin));
  generate_random_signing_commitment := λ w, (w + 1, Ok (w, []));
  taproot_sighash := λ tx i outs, Ok (mix (example_txid tx :: (txo_value <$> outs)));
  key_from_slice := λ l, head l;
  key_serialize := λ k, [k];
  tx_serialize := λ tx, [example_txid tx];
  share_serialize := λ s, [s];
  signature_serialize := λ s, Ok [s];
  commitment_to_proto := λ c, Ok c;
  operator_commitments_to_proto := λ c, Ok c;
  signing_result_from_proto := λ r, Ok [r];
  sr_commitments := λ r, r
|}.

Definition example_frost : FrostSigner (bt := example_bitcoin) Z (se := example_signer_env) := {|
  sign_frost := λ r, se_ret (sf_message (se := example_signer_env) r + 1
                               : SignatureShare (SignerEnv := example_signer_env));
  aggregate_frost := λ r, se_ret (af_message (se := example_signer_env) r + 2
                               : FrostSignature (SignerEnv := example_signer_env))
|}.

Definition example_leaf_key : LeafKeyTweak (bt := example_bitcoin) :=
  {| lk_node := example_node "leaf" None (example_tx 1 1073743824 1000)
                  (Some (example_tx 2 1073743774 1000)) (Some (example_tx 3 1073743874 900));
     signing_key := Derived "leaf"; new_signing_key := Encrypted [1] |}.

Definition example_commitments : list (OperatorCommitments (SignerEnv := example_signer_env)) :=
  [([1] : list Z)].

Definition example_refund_params (hash : option (list Z))
    : SignRefundsParams (bt := example_bitcoin) (se := example_signer_env) :=
  {| cpfp_signing_commitments := example_commitments; direct_signing_commitments := example_commitments;
     direct_from_cpfp_signing_commitments := example_commitments;
     receiver_pubkey := (4 : SecpPublicKey (BitcoinTypes := example_bitcoin));
     payment_hash := hash; sr_network := Regtest; cpfp_adaptor_public_key := None |}.

Definition example_sign_refunds :=
  sign_refunds (bo := example_bitcoin_ops) (se := example_signer_env) (fs := example_frost)
    (example_refund_params (Some [7])) [example_leaf_key] 0.

Lemma signed_refunds_outdate_previous_witness :
  ∃ w r, example_sign_refunds = (w, Ok r) ∧ length (direct_signed_tx r) = 1%nat ∧
    ∃ directs froms,
      Forall2 (λ leaf '(c, d, f),
          leaf_signed (bo := example_bitcoin_ops) (fs := example_frost) leaf c d f)
        [example_leaf_key] (zip (zip (cpfp_signed_tx r) directs) froms) ∧
      length (cpfp_signed_tx r) = 1%nat ∧
      direct_signed_tx r = omap id directs ∧ direct_from_cpfp_signed_tx r = omap id froms.
Proof.
  assert (match example_sign_refunds with (_, Ok r) => length (direct_signed_tx r) | _ => O end = 1%nat)
    as Hlen by (vm_compute; reflexivity).
  destruct example_sign_refunds as [w [r|e]] eqn:H; [|discriminate Hlen].
  exists w, r. split; [reflexivity|]. split; [exact Hlen|].
  apply (signed_refunds_outdate_previous (bo := example_bitcoin_ops) (fs := example_frost)
           (λ b _, eq_refl) (example_refund_params (Some [7])) [example_leaf_key] 0 w r H).
Defined.
