(* ===== verification/TimelockManager.v ===== *)
(** Renewing leaves whose timelocks run out: [crates/spark/src/services/timelock_manager.rs].

    [check_renew_nodes] sorts the nodes by what they need, fetches their parents and renews
    each: it builds the new transactions ([Transactions]), signs them ([Signing]) and sends
    them to the coordinator.  The operators' calls are the class [RenewRpc].  The renewals,
    which the code runs concurrently, run one after the other. *)
From S2P Require Import Prelude Timelocks TreeTypes Transactions Signing.

Class RenewTypes {bt : BitcoinTypes} := {
  ProtoNode : Type;
  ProtoNonces : Type;
  proto_node_id : ProtoNode → string;
  node_try_from : ProtoNode → result TreeNode ServiceError
}.

Section data.
Context {bt : BitcoinTypes} {rt : RenewTypes} {W : Type} {se : SignerEnv W}.

Inductive RenewType : Type :=
| RenewNode (parent_node : TreeNode)
| RenewRefund (parent_node : TreeNode)
| RenewZeroTimelock.

(** The signing jobs of [RenewLeafRequest]. *)
Record RenewNodeTimelockSigningJob : Type := {
  rn_split_node_tx_signing_job : option UserSignedTxSigningJob;
  rn_split_node_direct_tx_signing_job : option UserSignedTxSigningJob;
  rn_node_tx_signing_job : option UserSignedTxSigningJob;
  rn_refund_tx_signing_job : option UserSignedTxSigningJob;
  rn_direct_node_tx_signing_job : option UserSignedTxSigningJob;
  rn_direct_refund_tx_signing_job : option UserSignedTxSigningJob;
  rn_direct_from_cpfp_refund_tx_signing_job : option UserSignedTxSigningJob
}.

Record RenewRefundTimelockSigningJob : Type := {
  rr_node_tx_signing_job : option UserSignedTxSigningJob;
  rr_refund_tx_signing_job : option UserSignedTxSigningJob;
  rr_direct_node_tx_signing_job : option UserSignedTxSigningJob;
  rr_direct_refund_tx_signing_job : option UserSignedTxSigningJob;
  rr_direct_from_cpfp_refund_tx_signing_job : option UserSignedTxSigningJob
}.

Record RenewNodeZeroTimelockSigningJob : Type := {
  rz_node_tx_signing_job : option UserSignedTxSigningJob;
  rz_refund_tx_signing_job : option UserSignedTxSigningJob;
  rz_direct_node_tx_signing_job : option UserSignedTxSigningJob;
  rz_direct_from_cpfp_refund_tx_signing_job : option UserSignedTxSigningJob
}.

Inductive SigningJobs : Type :=
| RenewNodeJobs (j : RenewNodeTimelockSigningJob)
| RenewRefundJobs (j : RenewRefundTimelockSigningJob)
| RenewNodeZeroJobs (j : RenewNodeZeroTimelockSigningJob).

Record RenewLeafRequest : Type := { leaf_id : string; signing_jobs : option SigningJobs }.

Inductive RenewResult : Type :=
| RenewNodeTimelockResult (node : option ProtoNode)
| RenewRefundTimelockResult (node : option ProtoNode)
| RenewNodeZeroTimelockResult (node : option ProtoNode).
End data.

(** What a node needs. *)
Inductive Need : Type := NeedNode | NeedRefund | NeedZero.

#[export] Instance Need_eq_dec : EqDecision Need.
Proof. solve_decision. Defined.

Definition need_is (a b : option Need) : bool := bool_decide (a = b).

Class RenewRpc {bt : BitcoinTypes} {rt : RenewTypes} (W : Type) {se : SignerEnv W} := {
  rpc_get_signing_commitments : list string → Z → SE W OtherError (list ProtoNonces);
  map_signing_nonce_commitments : ProtoNonces → result OperatorCommitments ServiceError;
  rpc_query_nodes_paginated : list string → SE W OtherError (list (string * ProtoNode));
  rpc_renew_leaf : RenewLeafRequest → option Txid → SE W OtherError (option RenewResult)
}.

Section manager.
Context {bt : BitcoinTypes} {bo : BitcoinOps} {rt : RenewTypes} {W : Type} {se : SignerEnv W}
  {fs : FrostSigner W} {rpc : RenewRpc W}.
(** [TimelockManager::network]. *)
Context (network : Network).

Abbreviation M := (SE W (exn ServiceError)).

Definition of_rpc {A} (m : SE W OtherError A) : M A := se_map_err (λ e, Throw (ServiceConnectionError e)) m.
Definition of_signer {A} (m : SE W SignerError A) : M A := se_map_err (λ e, Throw (of_signer_error e)) m.
Definition of_signer_exn {A} (m : SE W (exn SignerError) A) : M A :=
  se_map_err (λ e, match e with Panic => Panic | Throw e => Throw (of_signer_error e) end) m.

Fixpoint collect {A B E} (f : A → result B E) (l : list A) : result (list B) E :=
  match l with
  | [] => Ok []
  | x :: l => let* y := f x in let* ys := collect f l in Ok (y :: ys)
  end.

Definition get_signing_commitments_for_jobs (node_id : TreeNodeId) (count : Z)
    : M (list OperatorCommitments) :=
  do* raw := of_rpc (rpc_get_signing_commitments [node_id] (wrap 32 count)) in
  se_lift (throws (collect map_signing_nonce_commitments raw)).

(** ** The jobs of a renewal *)

(** [SigningJob { .., signing_commitments: generate_random_signing_commitment().await?, .. }]. *)
Definition make_job (jt : SigningJobType) (node : TreeNode) (tx : Tx) (parent : Tx)
    (key : SecpPublicKey) : M SigningJob :=
  do* out := se_lift (or_panic (head (output parent))) in
  do* nonces := of_signer random_commitment in
  se_ret {| job_type := jt; sj_node_id := tn_id node; sj_tx := tx; parent_tx_out := out;
            sj_signing_public_key := key; sj_signing_commitments := nonces;
            sj_verifying_public_key := verifying_public_key node |}.

(** [if let Some(tx) = tx { signing_jobs.push(..) }]. *)
Definition make_job_opt (jt : SigningJobType) (node : TreeNode) (tx : option Tx) (parent : Tx)
    (key : SecpPublicKey) : M (list SigningJob) :=
  match tx with
  | Some tx => do* j := make_job jt node tx parent key in se_ret [j]
  | None => se_ret []
  end.

Definition renew_node_jobs (node parent_node : TreeNode) (key : SecpPublicKey) : M (list SigningJob) :=
  let parent_node_tx := node_tx parent_node in
  do* split := se_lift (throws (create_zero_timelock_node_txs parent_node_tx)) in
  do* j1 := make_job CpfpSplitNode node (ntx_cpfp_tx split) parent_node_tx key in
  do* j2 := make_job DirectSplitNode node (ntx_direct_tx split) parent_node_tx key in
  do* ntx := se_lift (throws (create_initial_timelock_node_txs (ntx_cpfp_tx split))) in
  do* j3 := make_job CpfpNode node (ntx_cpfp_tx ntx) (ntx_cpfp_tx split) key in
  do* j4 := make_job DirectNode node (ntx_direct_tx ntx) (ntx_cpfp_tx split) key in
  do* rtx := se_lift (create_initial_timelock_refund_txs (ntx_cpfp_tx ntx) (Some (ntx_direct_tx ntx))
                        key network) in
  do* j5 := make_job CpfpRefund node (rtx_cpfp_tx rtx) (ntx_cpfp_tx ntx) key in
  do* j6 := make_job_opt DirectRefund node (rtx_direct_tx rtx) (ntx_direct_tx ntx) key in
  do* j7 := make_job_opt DirectFromCpfpRefund node (rtx_direct_from_cpfp_tx rtx) (ntx_cpfp_tx ntx) key in
  se_ret ([j1; j2; j3; j4; j5] ++ j6 ++ j7).

Definition renew_refund_jobs (node parent_node : TreeNode) (key : SecpPublicKey) : M (list SigningJob) :=
  let parent_node_tx := node_tx parent_node in
  do* ntx := se_lift (create_decremented_timelock_node_txs parent_node_tx (node_tx node)) in
  do* j1 := make_job CpfpNode node (ntx_cpfp_tx ntx) parent_node_tx key in
  do* j2 := make_job DirectNode node (ntx_direct_tx ntx) parent_node_tx key in
  do* rtx := se_lift (create_initial_timelock_refund_txs (ntx_cpfp_tx ntx) (Some (ntx_direct_tx ntx))
                        key network) in
  do* j3 := make_job CpfpRefund node (rtx_cpfp_tx rtx) (ntx_cpfp_tx ntx) key in
  do* j4 := make_job_opt DirectRefund node (rtx_direct_tx rtx) (ntx_direct_tx ntx) key in
  do* j5 := make_job_opt DirectFromCpfpRefund node (rtx_direct_from_cpfp_tx rtx) (ntx_cpfp_tx ntx) key in
  se_ret ([j1; j2; j3] ++ j4 ++ j5).

Definition renew_zero_timelock_jobs (node : TreeNode) (key : SecpPublicKey) : M (list SigningJob) :=
  do* ntx := se_lift (throws (create_zero_timelock_node_txs (node_tx node))) in
  do* j1 := make_job CpfpNode node (ntx_cpfp_tx ntx) (node_tx node) key in
  do* j2 := make_job DirectNode node (ntx_direct_tx ntx) (node_tx node) key in
  do* rtx := se_lift (create_initial_timelock_refund_txs (ntx_cpfp_tx ntx) (Some (ntx_direct_tx ntx))
                        key network) in
  do* j3 := make_job CpfpRefund node (rtx_cpfp_tx rtx) (ntx_cpfp_tx ntx) key in
  do* j4 := make_job_opt DirectFromCpfpRefund node (rtx_direct_from_cpfp_tx rtx) (ntx_cpfp_tx ntx) key in
  se_ret ([j1; j2; j3] ++ j4).

(** ** Renewals *)

(** The commitments of the operators and the signatures. *)
Definition sign_jobs (node : TreeNode) (jobs : list SigningJob) : M (list SignedJob) :=
  do* cs := get_signing_commitments_for_jobs (tn_id node) (Z.of_nat (length jobs)) in
  of_signer_exn (sign_signing_jobs network jobs cs).

(** [signed_jobs.iter().find(..).map(|j| j.signed_tx.as_ref().try_into()).transpose()?]. *)
Definition find_job (jt : SigningJobType) (signed : list SignedJob)
    : M (option UserSignedTxSigningJob) :=
  se_lift (throws (map_opt (λ j, UserSignedTxSigningJob_try_from (signed_tx j))
    (List.find (λ j, bool_decide (sgj_job_type j = jt)) signed))).

(** [renew_result.node.ok_or(..)?.try_into()]. *)
Definition renewed_node (node : option ProtoNode) : M TreeNode :=
  do* n := se_lift (throws (ok_or node (SE_Generic "Expected a node in response"))) in
  se_lift (throws (node_try_from n)).

Definition send_renewal (node : TreeNode) (jobs : SigningJobs) : M (option RenewResult) :=
  let idempotency_key := compute_txid <$> refund_tx node in
  of_rpc (rpc_renew_leaf {| leaf_id := tn_id node; signing_jobs := Some jobs |} idempotency_key).

Definition unexpected_response : exn ServiceError :=
  Throw (SE_Generic "Expected renew node timelock reponse").

Definition derived_key (node : TreeNode) : M SecpPublicKey :=
  of_signer (public_key_from_secret (Derived (tn_id node))).

Definition renew_node (node parent_node : TreeNode) : M TreeNode :=
  do* key := derived_key node in
  do* jobs := renew_node_jobs node parent_node key in
  do* signed := sign_jobs node jobs in
  do* a := find_job CpfpSplitNode signed in
  do* b := find_job DirectSplitNode signed in
  do* c := find_job CpfpNode signed in
  do* d := find_job CpfpRefund signed in
  do* e := find_job DirectNode signed in
  do* f := find_job DirectRefund signed in
  do* g := find_job DirectFromCpfpRefund signed in
  do* response := send_renewal node (RenewNodeJobs
    {| rn_split_node_tx_signing_job := a; rn_split_node_direct_tx_signing_job := b;
       rn_node_tx_signing_job := c; rn_refund_tx_signing_job := d;
       rn_direct_node_tx_signing_job := e; rn_direct_refund_tx_signing_job := f;
       rn_direct_from_cpfp_refund_tx_signing_job := g |}) in
  match response with
  | Some (RenewNodeTimelockResult n) => renewed_node n
  | _ => se_fail unexpected_response
  end.

Definition renew_refund (node parent_node : TreeNode) : M TreeNode :=
  do* key := derived_key node in
  do* jobs := renew_refund_jobs node parent_node key in
  do* signed := sign_jobs node jobs in
  do* a := find_job CpfpNode signed in
  do* b := find_job CpfpRefund signed in
  do* c := find_job DirectNode signed in
  do* d := find_job DirectRefund signed in
  do* e := find_job DirectFromCpfpRefund signed in
  do* response := send_renewal node (RenewRefundJobs
    {| rr_node_tx_signing_job := a; rr_refund_tx_signing_job := b;
       rr_direct_node_tx_signing_job := c; rr_direct_refund_tx_signing_job := d;
       rr_direct_from_cpfp_refund_tx_signing_job := e |}) in
  match response with
  | Some (RenewRefundTimelockResult n) => renewed_node n
  | _ => se_fail unexpected_response
  end.

Definition renew_zero_timelock (node : TreeNode) : M TreeNode :=
  do* key := derived_key node in
  do* jobs := renew_zero_timelock_jobs node key in
  do* signed := sign_jobs node jobs in
  do* a := find_job CpfpNode signed in
  do* b := find_job CpfpRefund signed in
  do* c := find_job DirectNode signed in
  do* d := find_job DirectFromCpfpRefund signed in
  do* response := send_renewal node (RenewNodeZeroJobs
    {| rz_node_tx_signing_job := a; rz_refund_tx_signing_job := b;
       rz_direct_node_tx_signing_job := c; rz_direct_from_cpfp_refund_tx_signing_job := d |}) in
  match response with
  | Some (RenewNodeZeroTimelockResult n) => renewed_node n
  | _ => se_fail unexpected_response
  end.

Definition renew (renew_type : RenewType) (node : TreeNode) : M TreeNode :=
  match renew_type with
  | RenewNode parent_node => renew_node node parent_node
  | RenewRefund parent_node => renew_refund node parent_node
  | RenewZeroTimelock => renew_zero_timelock node
  end.

(** ** [check_renew_nodes] *)

Record Renewables : Type := {
  renewable_nodes : list TreeNode;
  renewable_refunds : list TreeNode;
  renewable_zero_timelock_nodes : list TreeNode;
  ready_nodes : list TreeNode;
  node_ids : list string
}.

Definition tse_exn {A} (o : option (result A TreeServiceError)) : result A (exn ServiceError) :=
  let* r := or_panic o in throws (map_err SE_TreeServiceError r).

Definition node_need (node : TreeNode) : result (option Need) (exn ServiceError) :=
  let* needs_refund := tse_exn (needs_refund_tx_renewed node) in
  if (needs_refund : bool) then
    let* zero := or_panic (is_zero_timelock node) in
    if (zero : bool) then Ok (Some NeedZero)
    else
      let* needs_node := or_panic (needs_node_tx_renewed node) in
      Ok (Some (if (needs_node : bool) then NeedNode else NeedRefund))
  else Ok None.

Fixpoint sort_nodes (nodes : list TreeNode) : result Renewables (exn ServiceError) :=
  match nodes with
  | [] => Ok {| renewable_nodes := []; renewable_refunds := []; renewable_zero_timelock_nodes := [];
                ready_nodes := []; node_ids := [] |}
  | node :: nodes =>
      let* need := node_need node in
      let* r := sort_nodes nodes in
      Ok {| renewable_nodes :=
              if need_is need (Some NeedNode) then node :: renewable_nodes r else renewable_nodes r;
            renewable_refunds :=
              if need_is need (Some NeedRefund) then node :: renewable_refunds r
              else renewable_refunds r;
            renewable_zero_timelock_nodes :=
              if need_is need (Some NeedZero) then node :: renewable_zero_timelock_nodes r
              else renewable_zero_timelock_nodes r;
            ready_nodes :=
              if need_is need None then node :: ready_nodes r else ready_nodes r;
            node_ids :=
              if need_is need None then node_ids r else tn_id node :: node_ids r |}
  end.

(** [node_ids_to_nodes_map]: later nodes replace earlier ones. *)
Fixpoint nodes_by_id (items : list (string * ProtoNode)) (m : gmap TreeNodeId TreeNode)
    : result (gmap TreeNodeId TreeNode) ServiceError :=
  match items with
  | [] => Ok m
  | (_, node) :: items =>
      let* id := map_err ValidationError (TreeNodeId_from_str (proto_node_id node)) in
      let* n := node_try_from node in
      nodes_by_id items (<[id := n]> m)
  end.

Definition get_parent_node (m : gmap TreeNodeId TreeNode) (node : TreeNode)
    : result TreeNode ServiceError :=
  let* parent_id := ok_or (parent_node_id node)
                      (SE_Generic ("Node " +:+ tn_id node +:+ " has no parent node")) in
  ok_or (m !! parent_id) (SE_Generic ("Parent node not found for node " +:+ tn_id node)).

(** The renewals to run, in the order of [renew_futures]. *)
Definition renewals (m : gmap TreeNodeId TreeNode) (r : Renewables)
    : result (list (RenewType * TreeNode)) ServiceError :=
  let* a := collect (λ n, let* p := get_parent_node m n in Ok (RenewNode p, n)) (renewable_nodes r) in
  let* b := collect (λ n, let* p := get_parent_node m n in Ok (RenewRefund p, n)) (renewable_refunds r) in
  Ok (a ++ b ++ ((λ n, (RenewZeroTimelock, n)) <$> renewable_zero_timelock_nodes r)).

(** [try_join_all]. *)
Fixpoint renew_all (l : list (RenewType * TreeNode)) : M (list TreeNode) :=
  match l with
  | [] => se_ret []
  | (t, node) :: l =>
      do* n := renew t node in
      do* ns := renew_all l in
      se_ret (n :: ns)
  end.

Definition check_renew_nodes (nodes : list TreeNode) : M (list TreeNode) :=
  do* r := se_lift (sort_nodes nodes) in
  if bool_decide (renewable_nodes r = []) && bool_decide (renewable_refunds r = [])
     && bool_decide (renewable_zero_timelock_nodes r = [])
  then se_ret (ready_nodes r)
  else
    do* items := of_rpc (rpc_query_nodes_paginated (node_ids r)) in
    do* m := se_lift (throws (nodes_by_id items ∅)) in
    do* todo := se_lift (throws (renewals m r)) in
    do* renewed_nodes := renew_all todo in
    se_ret (ready_nodes r ++ renewed_nodes).

(** ** The jobs sign what they spend *)

(** The transaction of the job spends the output the sighash is computed over. *)
Definition job_over_prevout (j : SigningJob) : Prop :=
  ∃ parent seq, spends (sj_tx j) parent (parent_tx_out j) seq.

Lemma make_job_ok jt node tx parent key w w' j :
  make_job jt node tx parent key w = (w', Ok j) →
  job_type j = jt ∧ sj_tx j = tx ∧ head (output parent) = Some (parent_tx_out j).
Proof.
  unfold make_job, se_lift. intros (w1 & out & [= <- Hout%or_panic_ok] & H)%se_bind_ok.
  apply se_bind_ok in H as (w2 & n & _ & [= <- <-]). done.
Qed.

Lemma make_job_prevout jt node tx parent key w w' j out seq :
  make_job jt node tx parent key w = (w', Ok j) → spends tx parent out seq → job_over_prevout j.
Proof.
  intros (_ & Htx & Hout)%make_job_ok [Hp Hin]. exists parent, seq. rewrite Htx. by split.
Qed.

Lemma make_job_opt_ok jt node tx parent key w w' l out seq :
  make_job_opt jt node tx parent key w = (w', Ok l) →
  (∀ t, tx = Some t → spends t parent out seq) →
  Forall job_over_prevout l ∧ (job_type <$> l) = match tx with Some _ => [jt] | None => [] end.
Proof.
  unfold make_job_opt. destruct tx as [t|]; [|by intros [= <- <-]; split].
  intros (w1 & j & Hj & [= <- <-])%se_bind_ok Hsp. split.
  - constructor; [by eapply make_job_prevout; eauto|constructor].
  - apply make_job_ok in Hj as (Hj & _). simpl. by rewrite Hj.
Qed.

Context (blocks_encoding : ∀ b, in_u 16 b → blocks_to_consensus b = b).

(** The transactions from [base] on: each spends the one before and keeps its value. *)
Fixpoint chain (base : Tx) (txs : list Tx) : Prop :=
  match txs with
  | [] => True
  | tx :: txs => (∃ out seq, spends tx base out seq ∧ pays tx true (txo_value out)) ∧ chain tx txs
  end.

Definition is_cpfp (j : SigningJob) : bool :=
  match job_type j with CpfpNode | CpfpSplitNode | CpfpRefund => true | _ => false end.

(** The timelock of the job of a type. *)
Definition job_timelock (jt : SigningJobType) (jobs : list SigningJob) : option (Z * bool) :=
  match List.find (λ j, bool_decide (job_type j = jt)) jobs with
  | Some j => (λ s, (timelock s, has_flag s)) <$> input0_sequence (sj_tx j)
  | None => None
  end.

(** The jobs of a renewal. *)
Definition renewal_jobs (t : RenewType) (node : TreeNode) (key : SecpPublicKey) : M (list SigningJob) :=
  match t with
  | RenewNode parent => renew_node_jobs node parent key
  | RenewRefund parent => renew_refund_jobs node parent key
  | RenewZeroTimelock => renew_zero_timelock_jobs node key
  end.

Definition renewal_base (t : RenewType) (node : TreeNode) : Tx :=
  match t with
  | RenewNode parent | RenewRefund parent => node_tx parent
  | RenewZeroTimelock => node_tx node
  end.

Lemma initial_timelock cpfp direct :
  initial_timelock_sequence blocks_to_consensus = (cpfp, direct) →
  timelock cpfp = INITIAL_TIME_LOCK ∧ has_flag cpfp = true.
Proof.
  intros [= <- _]. destruct (to_sequence_spec _ blocks_encoding INITIAL_TIME_LOCK SPARK_SEQUENCE_FLAG)
    as (? & ? & _); done.
Qed.

Lemma zero_timelock cpfp direct :
  initial_zero_timelock_sequence blocks_to_consensus = (cpfp, direct) →
  timelock cpfp = 0 ∧ has_flag cpfp = true.
Proof.
  intros [= <- _]. destruct (to_sequence_spec _ blocks_encoding 0 SPARK_SEQUENCE_FLAG)
    as (? & ? & _); done.
Qed.

(** The last part of every renewal: the refunds of the new node. *)
Lemma initial_refunds {E} node direct key rtx :
  @create_initial_timelock_refund_txs _ _ E node (Some direct) key network = Ok rtx →
  ∃ out s dout ds, spends (rtx_cpfp_tx rtx) node out s ∧ pays (rtx_cpfp_tx rtx) true (txo_value out) ∧
    timelock s = INITIAL_TIME_LOCK ∧ has_flag s = true ∧
    (∃ t, rtx_direct_tx rtx = Some t ∧ spends t direct dout ds) ∧
    (∃ t, rtx_direct_from_cpfp_tx rtx = Some t ∧ spends t node out ds).
Proof.
  unfold create_initial_timelock_refund_txs.
  destruct (initial_timelock_sequence blocks_to_consensus) as [s ds] eqn:Hs.
  apply initial_timelock in Hs as [Ht Hf].
  intros [(out & Hsp & Hpay & t & Hdf & Hspf & _) Hd]%create_refund_txs_ok.
  destruct (rtx_direct_tx rtx) as [d|]; [|done]. destruct Hd as (dout & Hdsp & _).
  exists out, s, dout, ds. naive_solver.
Qed.

(** The two new transactions of a node, and the jobs for them. *)
Lemma node_jobs c d ct dt node base ntx key w1 w2 w3 w4 j1 j2 :
  create_node_txs base c d 0 = Ok ntx →
  make_job ct node (ntx_cpfp_tx ntx) base key w1 = (w2, Ok j1) →
  make_job dt node (ntx_direct_tx ntx) base key w3 = (w4, Ok j2) →
  (∃ out, spends (sj_tx j1) base out c ∧ pays (sj_tx j1) true (txo_value out)) ∧
  sj_tx j1 = ntx_cpfp_tx ntx ∧ job_type j1 = ct ∧ job_type j2 = dt ∧
  Forall job_over_prevout [j1; j2].
Proof.
  intros (out & Hc & Hpc & Hd & _)%create_node_txs_ok H1 H2.
  pose proof (make_job_prevout _ _ _ _ _ _ _ _ _ _ H1 Hc).
  pose proof (make_job_prevout _ _ _ _ _ _ _ _ _ _ H2 Hd).
  apply make_job_ok in H1 as (? & Htx & _), H2 as (? & _ & _).
  split_and!; [exists out; by rewrite Htx|done..|]. by repeat constructor.
Qed.

(** The jobs for the refunds of the new node [ntx]. *)
Lemma refund_jobs node ntx rtx key w1 w2 w3 w4 j l :
  @create_initial_timelock_refund_txs _ _ ServiceError (ntx_cpfp_tx ntx) (Some (ntx_direct_tx ntx)) key network = Ok rtx →
  make_job CpfpRefund node (rtx_cpfp_tx rtx) (ntx_cpfp_tx ntx) key w1 = (w2, Ok j) →
  make_job_opt DirectFromCpfpRefund node (rtx_direct_from_cpfp_tx rtx) (ntx_cpfp_tx ntx) key w3
    = (w4, Ok l) →
  (∃ out s, spends (sj_tx j) (ntx_cpfp_tx ntx) out s ∧ pays (sj_tx j) true (txo_value out) ∧
     timelock s = INITIAL_TIME_LOCK ∧ has_flag s = true) ∧
  job_type j = CpfpRefund ∧ job_over_prevout j ∧ Forall job_over_prevout l ∧
  job_type <$> l = [DirectFromCpfpRefund] ∧
  ∀ w5 w6 l', make_job_opt DirectRefund node (rtx_direct_tx rtx) (ntx_direct_tx ntx) key w5
      = (w6, Ok l') → Forall job_over_prevout l' ∧ job_type <$> l' = [DirectRefund].
Proof.
  intros (out & s & dout & ds & Hsp & Hpay & Ht & Hf & (d & Hd & Hdsp) & (f & Hdf & Hfsp))%initial_refunds.
  rewrite Hd, Hdf. intros Hj Hl.
  pose proof (make_job_prevout _ _ _ _ _ _ _ _ _ _ Hj Hsp).
  apply (make_job_opt_ok _ _ _ _ _ _ _ _ out ds) in Hl as [Hl Hlt]; [|by intros ? [= <-]].
  apply make_job_ok in Hj as (Hjt & Htx & _).
  split_and!; try done.
  - exists out, s. rewrite Htx. by split_and!.
  - intros w5 w6 l' Hl'. eapply make_job_opt_ok in Hl' as [? ?]; [by split|].
    by intros ? [= <-].
Qed.

(** A list of jobs from its head: what a list with one known type is. *)
Lemma fmap_singleton_inv {A B} (f : A → B) l b : f <$> l = [b] → ∃ a, l = [a] ∧ f a = b.
Proof. destruct l as [|a [|]]; try done. intros [= <-]. by exists a. Qed.

#[local] Arguments input0_sequence : simpl never.
#[local] Arguments timelock : simpl never.
#[local] Arguments has_flag : simpl never.

Ltac decide_types :=
  repeat first [rewrite bool_decide_eq_true_2 by done | rewrite bool_decide_eq_false_2 by done].

(** What a renewal has to satisfy. *)
Definition renewal_ok (base : Tx) (node_timelock : Z) (node_flag : bool) (jobs : list SigningJob) : Prop :=
  Forall job_over_prevout jobs ∧ NoDup (job_type <$> jobs) ∧
  chain base (sj_tx <$> List.filter is_cpfp jobs) ∧
  job_timelock CpfpNode jobs = Some (node_timelock, node_flag) ∧
  job_timelock CpfpRefund jobs = Some (INITIAL_TIME_LOCK, true).

Lemma renew_node_jobs_ok node parent key w w' jobs :
  renew_node_jobs node parent key w = (w', Ok jobs) →
  renewal_ok (node_tx parent) INITIAL_TIME_LOCK true jobs.
Proof.
  unfold renew_node_jobs, se_lift. intros H.
  apply se_bind_ok in H as (? & split & [= <- Hsplit%throws_ok] & H).
  apply se_bind_ok in H as (? & j1 & H1 & H). apply se_bind_ok in H as (? & j2 & H2 & H).
  apply se_bind_ok in H as (? & ntx & [= <- Hntx%throws_ok] & H).
  apply se_bind_ok in H as (? & j3 & H3 & H). apply se_bind_ok in H as (? & j4 & H4 & H).
  apply se_bind_ok in H as (? & rtx & [= <- Hrtx] & H).
  apply se_bind_ok in H as (? & j5 & H5 & H). apply se_bind_ok in H as (? & l6 & H6 & H).
  apply se_bind_ok in H as (? & l7 & H7 & [= <- <-]).
  unfold create_zero_timelock_node_txs in Hsplit. unfold create_initial_timelock_node_txs in Hntx.
  destruct (initial_zero_timelock_sequence _) as [zc zd], (initial_timelock_sequence _) as [ic id] eqn:Hi.
  apply initial_timelock in Hi as [Ht Hf].
  destruct (node_jobs _ _ _ _ _ _ _ _ _ _ _ _ _ _ Hsplit H1 H2) as ((o1 & Hs1 & Hp1) & E1 & T1 & T2 & F1).
  destruct (node_jobs _ _ _ _ _ _ _ _ _ _ _ _ _ _ Hntx H3 H4) as ((o3 & Hs3 & Hp3) & E3 & T3 & T4 & F3).
  destruct (refund_jobs _ _ _ _ _ _ _ _ _ _ Hrtx H5 H7) as ((o5 & s5 & Hs5 & Hp5 & Ht5 & Hf5) & T5 & F5 & F7 & T7 & Hd).
  destruct (Hd _ _ _ H6) as [F6 T6].
  apply fmap_singleton_inv in T6 as (j6 & -> & T6), T7 as (j7 & -> & T7).
  unfold renewal_ok, job_timelock, is_cpfp. cbn. rewrite T1, T2, T3, T4, T5, T6, T7. decide_types. cbn.
  rewrite (spends_sequence _ _ _ _ Hs3), (spends_sequence _ _ _ _ Hs5). cbn.
  rewrite Ht, Hf, Ht5, Hf5. rewrite <- E1 in Hs3. rewrite <- E3 in Hs5.
  rewrite !Forall_cons in *. split_and!; try naive_solver; try done; eauto.
  by apply (bool_decide_unpack _).
Qed.

Lemma renew_refund_jobs_ok node parent key w w' jobs :
  renew_refund_jobs node parent key w = (w', Ok jobs) →
  ∃ s, input0_sequence (node_tx node) = Some s ∧
    renewal_ok (node_tx parent) (timelock s - TIME_LOCK_INTERVAL) (has_flag s) jobs.
Proof.
  unfold renew_refund_jobs, se_lift. intros H.
  apply se_bind_ok in H as (? & ntx & [= <- Hntx] & H).
  apply se_bind_ok in H as (? & j3 & H3 & H). apply se_bind_ok in H as (? & j4 & H4 & H).
  apply se_bind_ok in H as (? & rtx & [= <- Hrtx] & H).
  apply se_bind_ok in H as (? & j5 & H5 & H). apply se_bind_ok in H as (? & l6 & H6 & H).
  apply se_bind_ok in H as (? & l7 & H7 & [= <- <-]).
  unfold create_decremented_timelock_node_txs in Hntx.
  apply rbind_ok in Hntx as (s & Hs%or_panic_ok & Hntx).
  apply rbind_ok in Hntx as ([c d] & Hseq%throws_ok%ok_or_ok & Hntx%throws_ok).
  pose proof (next_sequence_decrements _ blocks_encoding s) as Hnext. rewrite Hseq in Hnext.
  destruct (next_lightning_htlc_sequence _ s) as [[? ?]|]; [|done].
  destruct Hnext as (_ & Ht & _ & _ & _ & [[Hf _] _]%Forall_cons).
  destruct (node_jobs _ _ _ _ _ _ _ _ _ _ _ _ _ _ Hntx H3 H4) as ((o3 & Hs3 & Hp3) & E3 & T3 & T4 & F3).
  destruct (refund_jobs _ _ _ _ _ _ _ _ _ _ Hrtx H5 H7) as ((o5 & s5 & Hs5 & Hp5 & Ht5 & Hf5) & T5 & F5 & F7 & T7 & Hd).
  destruct (Hd _ _ _ H6) as [F6 T6].
  apply fmap_singleton_inv in T6 as (j6 & -> & T6), T7 as (j7 & -> & T7).
  exists s. split; [done|].
  unfold renewal_ok, job_timelock, is_cpfp. cbn. rewrite T3, T4, T5, T6, T7. decide_types. cbn.
  rewrite (spends_sequence _ _ _ _ Hs3), (spends_sequence _ _ _ _ Hs5). cbn.
  rewrite Ht, Hf, Ht5, Hf5. rewrite <- E3 in Hs5.
  rewrite !Forall_cons in *. split_and!; try naive_solver; try done; eauto.
  by apply (bool_decide_unpack _).
Qed.

Lemma renew_zero_timelock_jobs_ok node key w w' jobs :
  renew_zero_timelock_jobs node key w = (w', Ok jobs) → renewal_ok (node_tx node) 0 true jobs.
Proof.
  unfold renew_zero_timelock_jobs, se_lift. intros H.
  apply se_bind_ok in H as (? & ntx & [= <- Hntx%throws_ok] & H).
  apply se_bind_ok in H as (? & j3 & H3 & H). apply se_bind_ok in H as (? & j4 & H4 & H).
  apply se_bind_ok in H as (? & rtx & [= <- Hrtx] & H).
  apply se_bind_ok in H as (? & j5 & H5 & H).
  apply se_bind_ok in H as (? & l7 & H7 & [= <- <-]).
  unfold create_zero_timelock_node_txs in Hntx.
  destruct (initial_zero_timelock_sequence _) as [zc zd] eqn:Hz. apply zero_timelock in Hz as [Ht Hf].
  destruct (node_jobs _ _ _ _ _ _ _ _ _ _ _ _ _ _ Hntx H3 H4) as ((o3 & Hs3 & Hp3) & E3 & T3 & T4 & F3).
  destruct (refund_jobs _ _ _ _ _ _ _ _ _ _ Hrtx H5 H7) as ((o5 & s5 & Hs5 & Hp5 & Ht5 & Hf5) & T5 & F5 & F7 & T7 & _).
  apply fmap_singleton_inv in T7 as (j7 & -> & T7).
  unfold renewal_ok, job_timelock, is_cpfp. cbn. rewrite T3, T4, T5, T7. decide_types. cbn.
  rewrite (spends_sequence _ _ _ _ Hs3), (spends_sequence _ _ _ _ Hs5). cbn.
  rewrite Ht, Hf, Ht5, Hf5. rewrite <- E3 in Hs5.
  rewrite !Forall_cons in *. split_and!; try naive_solver; try done; eauto.
  by apply (bool_decide_unpack _).
Qed.

(** ** What a renewal signs and sends *)

(** The raw transactions of a request, by the type of their job. *)
Definition raw (o : option UserSignedTxSigningJob) : option (list Z) := us_raw_tx <$> o.

Definition request_txs (jobs : SigningJobs) : list (SigningJobType * option (list Z)) :=
  match jobs with
  | RenewNodeJobs j =>
      [(CpfpSplitNode, raw (rn_split_node_tx_signing_job j));
       (DirectSplitNode, raw (rn_split_node_direct_tx_signing_job j));
       (CpfpNode, raw (rn_node_tx_signing_job j)); (CpfpRefund, raw (rn_refund_tx_signing_job j));
       (DirectNode, raw (rn_direct_node_tx_signing_job j));
       (DirectRefund, raw (rn_direct_refund_tx_signing_job j));
       (DirectFromCpfpRefund, raw (rn_direct_from_cpfp_refund_tx_signing_job j))]
  | RenewRefundJobs j =>
      [(CpfpNode, raw (rr_node_tx_signing_job j)); (CpfpRefund, raw (rr_refund_tx_signing_job j));
       (DirectNode, raw (rr_direct_node_tx_signing_job j));
       (DirectRefund, raw (rr_direct_refund_tx_signing_job j));
       (DirectFromCpfpRefund, raw (rr_direct_from_cpfp_refund_tx_signing_job j))]
  | RenewNodeZeroJobs j =>
      [(CpfpNode, raw (rz_node_tx_signing_job j)); (CpfpRefund, raw (rz_refund_tx_signing_job j));
       (DirectNode, raw (rz_direct_node_tx_signing_job j));
       (DirectFromCpfpRefund, raw (rz_direct_from_cpfp_refund_tx_signing_job j))]
  end.

(** The job of a type. *)
Definition find_type (jt : SigningJobType) (jobs : list SigningJob) : option SigningJob :=
  List.find (λ j, bool_decide (job_type j = jt)) jobs.

(** The signer signed the transaction of the job for the sighash over the spent output. *)
Definition job_signed (j : SigningJob) (g : SignedJob) : Prop :=
  sgj_job_type g = job_type j ∧ st_tx (signed_tx g) = sj_tx j ∧
  ∃ h req w1 w2, sighash_from_tx (sj_tx j) 0 (parent_tx_out j) = Ok h ∧ sf_message req = h ∧
    sf_private_key req = Derived (sj_node_id j) ∧
    sign_frost req w1 = (w2, Ok (user_signature (signed_tx g))).

Lemma sign_signing_jobs_ok jobs cs w w' signed :
  sign_signing_jobs network jobs cs w = (w', Ok signed) → Forall2 job_signed jobs signed.
Proof.
  revert cs w signed. induction jobs as [|j jobs IH]; intros cs w signed; cbn [sign_signing_jobs].
  { intros [= <- <-]. constructor. }
  intros (w1 & g & Hg & H)%se_bind_ok. apply se_bind_ok in H as (w2 & rest & H & [= <- <-]).
  constructor; [|by eapply IH]. unfold sign_signing_job, se_lift in Hg.
  apply se_bind_ok in Hg as (? & h & [= <- Hh%throws_ok] & Hg).
  apply se_bind_ok in Hg as (? & c & _ & Hg).
  apply se_bind_ok in Hg as (? & sig & Hsig%se_map_err_ok & [= <- <-]).
  split_and!; [done..|]. destruct (sighash_from_tx _ _ _) eqn:Hs; simpl in Hh; [|done].
  injection Hh as ->. exists h. eexists _, _, _.
  split; [done|split; [|split; [|exact Hsig]]]; done.
Qed.

Lemma sign_jobs_ok node jobs w w' signed :
  sign_jobs node jobs w = (w', Ok signed) → Forall2 job_signed jobs signed.
Proof.
  unfold sign_jobs. intros (w1 & cs & _ & H)%se_bind_ok.
  unfold of_signer_exn in H. apply se_map_err_ok in H. by eapply sign_signing_jobs_ok.
Qed.

Lemma find_job_ok jt jobs signed w w' o :
  Forall2 job_signed jobs signed → find_job jt signed w = (w', Ok o) →
  raw o = (λ j, tx_serialize (sj_tx j)) <$> find_type jt jobs.
Proof.
  unfold find_job, se_lift, find_type. intros Hall [= _ Ho%throws_ok%map_opt_ok].
  induction Hall as [|j g jobs signed (Ht & Htx & _) _ IH]; simpl in *.
  { by destruct o. }
  rewrite <- Ht. destruct (bool_decide (sgj_job_type g = jt)); [|by apply IH].
  destruct o as [u|]; [|done]. unfold UserSignedTxSigningJob_try_from in Ho.
  apply rbind_ok in Ho as (c & _ & Ho). apply rbind_ok in Ho as (cs & _ & [= <-]).
  simpl. by rewrite Htx.
Qed.

(** The coordinator was asked to renew the leaf with the transactions of [jobs]. *)
Definition renewal_requested (node : TreeNode) (jobs : list SigningJob) : Prop :=
  ∃ sj w1 w2 res,
    rpc_renew_leaf {| leaf_id := tn_id node; signing_jobs := Some sj |}
      (compute_txid <$> refund_tx node) w1 = (w2, Ok res) ∧
    Forall (λ '(jt, b), b = (λ j, tx_serialize (sj_tx j)) <$> find_type jt jobs) (request_txs sj).

(** The timelock of the new node transaction, by the kind of the renewal. *)
Definition renewed_timelock (t : RenewType) (node : TreeNode) : option (Z * bool) :=
  match t with
  | RenewNode _ => Some (INITIAL_TIME_LOCK, true)
  | RenewRefund _ =>
      (λ s, (timelock s - TIME_LOCK_INTERVAL, has_flag s)) <$> input0_sequence (node_tx node)
  | RenewZeroTimelock => Some (0, true)
  end.

(** C19: a renewal that succeeds has built a chain of transactions from the parent (or, for a
    node whose own timelock is zero, from its node transaction), each spending output 0 of
    the one before and keeping its value; has had every transaction signed for the sighash
    over the very output it spends; and has sent exactly these transactions to the
    coordinator, each in the field of its kind.  The new refund has the full initial
    timelock, the new node transaction a full one, one interval less, or none, by the kind
    of the renewal. *)
Theorem renewal_signs_fresh_chain t node w w' n :
  renew t node w = (w', Ok n) →
  ∃ jobs signed nt nf, renewed_timelock t node = Some (nt, nf) ∧
    renewal_ok (renewal_base t node) nt nf jobs ∧
    Forall2 job_signed jobs signed ∧ renewal_requested node jobs.
Proof.
  assert (∀ jt jobs signed w w' o, Forall2 job_signed jobs signed → find_job jt signed w = (w', Ok o) →
    raw o = (λ j, tx_serialize (sj_tx j)) <$> find_type jt jobs) as Hfind by (intros; by eapply find_job_ok).
  destruct t as [p|p|]; simpl; unfold renew_node, renew_refund, renew_zero_timelock; intros H;
    apply se_bind_ok in H as (? & key & _ & H); apply se_bind_ok in H as (? & jobs & Hjobs & H);
    apply se_bind_ok in H as (? & signed & Hsigned%sign_jobs_ok & H);
    repeat (apply se_bind_ok in H as (? & ? & ?Hf%(Hfind _ _ _ _ _ _ Hsigned) & H));
    apply se_bind_ok in H as (? & res & Hsend & _);
    unfold send_renewal, of_rpc in Hsend; apply se_map_err_ok in Hsend.
  - exists jobs, signed. eexists _, _.
    split; [done|split; [by eapply renew_node_jobs_ok|split; [done|]]].
    eexists _, _, _, _. split; [exact Hsend|]. simpl. by repeat constructor.
  - apply renew_refund_jobs_ok in Hjobs as (s & Hs & Hok).
    exists jobs, signed, (timelock s - TIME_LOCK_INTERVAL), (has_flag s).
    split; [simpl; by rewrite Hs|split; [exact Hok|split; [done|]]].
    eexists _, _, _, _. split; [exact Hsend|]. simpl. by repeat constructor.
  - exists jobs, signed. eexists _, _.
    split; [done|split; [by eapply renew_zero_timelock_jobs_ok|split; [done|]]].
    eexists _, _, _, _. split; [exact Hsend|]. simpl. by repeat constructor.
Qed.

(** ** Every node that needs it is renewed, every other is returned as it is *)

Definition has_need (need : option Need) (n : TreeNode) : bool :=
  match node_need n with Ok o => need_is o need | Err _ => false end.

(** The nodes with a need, in their order. *)
Definition with_need (need : option Need) (nodes : list TreeNode) : list TreeNode :=
  List.filter (has_need need) nodes.

(** The nodes to renew, in the order of their renewals. *)
Definition to_renew (nodes : list TreeNode) : list TreeNode :=
  with_need (Some NeedNode) nodes ++ with_need (Some NeedRefund) nodes ++ with_need (Some NeedZero) nodes.

Lemma sort_nodes_ok nodes r :
  sort_nodes nodes = Ok r →
  renewable_nodes r = with_need (Some NeedNode) nodes ∧
  renewable_refunds r = with_need (Some NeedRefund) nodes ∧
  renewable_zero_timelock_nodes r = with_need (Some NeedZero) nodes ∧
  ready_nodes r = with_need None nodes ∧
  nodes ≡ₚ ready_nodes r ++ to_renew nodes.
Proof.
  revert r. induction nodes as [|n nodes IH]; intros r; cbn [sort_nodes].
  { intros [= <-]. done. }
  intros (need & Hneed & H)%rbind_ok. apply rbind_ok in H as (r' & Hr & [= <-]).
  destruct (IH _ Hr) as (H1 & H2 & H3 & H4 & H5).
  assert (∀ need', has_need need' n = need_is need need') as Hhas.
  { intros need'. unfold has_need. by rewrite Hneed. }
  unfold to_renew, with_need in *. simpl. rewrite !Hhas, H1, H2, H3, H4.
  split_and!; try done. rewrite H4 in H5.
  destruct need as [[]|]; simpl; rewrite H5 at 1; solve_Permutation.
Qed.

Lemma collect_ok {A B E} (f : A → result B E) l r :
  collect f l = Ok r → Forall2 (λ x y, f x = Ok y) l r.
Proof.
  revert r. induction l as [|x l IH]; intros r; simpl; [intros [= <-]; constructor|].
  intros (y & Hy & H)%rbind_ok. apply rbind_ok in H as (ys & Hys & [= <-]). constructor; auto.
Qed.

Lemma with_need_elem need nodes n : n ∈ with_need need nodes → node_need n = Ok need.
Proof.
  unfold with_need, has_need. rewrite list_elem_of_In, filter_In. intros [_ H].
  destruct (node_need n); [|done]. by apply bool_decide_eq_true in H as ->.
Qed.

(** A node whose refund is renewed has an interval of its own timelock left. *)
Lemma need_refund_has_interval n :
  node_need n = Ok (Some NeedRefund) →
  ∃ s, input0_sequence (node_tx n) = Some s ∧ is_Some (next_sequence blocks_to_consensus s).
Proof.
  unfold node_need. intros (b & _ & H)%rbind_ok. destruct b; [|done].
  apply rbind_ok in H as (z & _ & H). destruct z; [done|].
  apply rbind_ok in H as (nn & Hn%or_panic_ok & H). destruct nn; [done|].
  unfold needs_node_tx_renewed, node_sequence in Hn.
  destruct (tx_input0_sequence (node_tx n)) as [s|] eqn:Hs; simpl in Hn; [|done].
  exists s. split; [exact Hs|]. apply (next_sequence_is_Some _ blocks_encoding).
  injection Hn as Hn. apply Z.leb_gt in Hn. unfold as_u16 in Hn. change 65535 with TIMELOCK_MASK in Hn.
  rewrite land_mask in Hn. unfold TIME_LOCK_INTERVAL. lia.
Qed.

(** The renewal of [n] is of the kind it needs, with the parent the operators reported. *)
Definition right_renewal (m : gmap TreeNodeId TreeNode) (task : RenewType * TreeNode) : Prop :=
  let '(t, n) := task in
  match t with
  | RenewNode p => node_need n = Ok (Some NeedNode) ∧ get_parent_node m n = Ok p
  | RenewRefund p => node_need n = Ok (Some NeedRefund) ∧ get_parent_node m n = Ok p ∧
      ∃ s, input0_sequence (node_tx n) = Some s ∧ is_Some (next_sequence blocks_to_consensus s)
  | RenewZeroTimelock => node_need n = Ok (Some NeedZero)
  end.

Lemma parents_collected (mk : TreeNode → RenewType) need m nodes tasks :
  collect (λ n, let* p := get_parent_node m n in Ok (mk p, n)) (with_need need nodes) = Ok tasks →
  tasks.*2 = with_need need nodes ∧
  Forall (λ '(t, n), node_need n = Ok need ∧ ∃ p, t = mk p ∧ get_parent_node m n = Ok p) tasks.
Proof.
  intros H%collect_ok. pose proof (with_need_elem need nodes) as Hneed.
  revert Hneed H. generalize (with_need need nodes). intros l Hneed H.
  induction H as [|n [t n'] l l' Hn _ IH]; [done|].
  apply rbind_ok in Hn as (p & Hp & [= <- <-]). destruct IH as [Hl Hall]; [set_solver|].
  rewrite fmap_cons, Hl. split; [done|]. constructor; [|done].
  split; [apply Hneed; by left|by exists p].
Qed.

Lemma renewals_ok m nodes r tasks :
  sort_nodes nodes = Ok r → renewals m r = Ok tasks →
  tasks.*2 = to_renew nodes ∧ Forall (right_renewal m) tasks.
Proof.
  intros (H1 & H2 & H3 & _)%sort_nodes_ok. unfold renewals. rewrite H1, H2, H3.
  intros (a & [Ha1 Ha2]%parents_collected & H)%rbind_ok.
  apply rbind_ok in H as (b & [Hb1 Hb2]%parents_collected & [= <-]). split.
  - rewrite !fmap_app, Ha1, Hb1, <- list_fmap_compose. unfold to_renew. f_equal. f_equal.
    apply list_fmap_id.
  - rewrite !Forall_app. split_and!.
    + eapply Forall_impl; [exact Ha2|]. intros [t n] [? (p & -> & ?)]. done.
    + eapply Forall_impl; [exact Hb2|]. intros [t n] [? (p & -> & ?)].
      split_and!; [done..|by apply need_refund_has_interval].
    + apply Forall_fmap, Forall_forall. intros n Hn. by apply with_need_elem in Hn.
Qed.

Lemma renew_all_ok tasks w w' renewed :
  renew_all tasks w = (w', Ok renewed) →
  Forall2 (λ task n', ∃ w1 w2, renew task.1 task.2 w1 = (w2, Ok n')) tasks renewed.
Proof.
  revert w renewed. induction tasks as [|[t n] tasks IH]; intros w renewed; cbn [renew_all].
  { intros [= <- <-]. constructor. }
  intros (w1 & n' & Hn & H)%se_bind_ok. apply se_bind_ok in H as (w2 & ns & Hns & [= <- <-]).
  constructor; [by exists w, w1|by eapply IH].
Qed.

(** [check_renew_nodes] renews every node whose refund timelock runs out, exactly once
    and in the way it needs (with the parent the operators reported), and returns every
    other node as it is; the nodes it returns are the ready ones and the renewals, in that
    order.  A node whose refund alone is renewed always has an interval left, so the new
    node transaction can be made. *)
Theorem check_renew_nodes_renews_each nodes w w' res :
  check_renew_nodes nodes w = (w', Ok res) →
  ∃ m tasks renewed, res = with_need None nodes ++ renewed ∧ tasks.*2 = to_renew nodes ∧
    nodes ≡ₚ with_need None nodes ++ to_renew nodes ∧ Forall (right_renewal m) tasks ∧
    Forall2 (λ task n', ∃ w1 w2, renew task.1 task.2 w1 = (w2, Ok n')) tasks renewed.
Proof.
  unfold check_renew_nodes, se_lift. intros (w1 & r & [= <- Hr] & H)%se_bind_ok.
  destruct (sort_nodes_ok _ _ Hr) as (H1 & H2 & H3 & H4 & Hperm). rewrite H4 in Hperm.
  destruct (bool_decide (renewable_nodes r = []) && bool_decide (renewable_refunds r = [])
    && bool_decide (renewable_zero_timelock_nodes r = [])) eqn:Hempty.
  - injection H as <- <-. rewrite !andb_true_iff, !bool_decide_eq_true in Hempty.
    destruct Hempty as [[He1 He2] He3]. exists ∅, [], []. rewrite app_nil_r.
    split_and!; [done| |done|constructor..]. unfold to_renew.
    by rewrite <- H1, <- H2, <- H3, He1, He2, He3.
  - apply se_bind_ok in H as (w2 & items & _ & H).
    apply se_bind_ok in H as (w3 & m & _ & H).
    apply se_bind_ok in H as (w4 & tasks & [= <- Htasks%throws_ok] & H).
    apply se_bind_ok in H as (w5 & renewed & Hall%renew_all_ok & [= <- <-]).
    apply (renewals_ok _ nodes) in Htasks as [Htasks Hright]; [|done].
    exists m, tasks, renewed. rewrite H4. by split_and!.
Qed.
End manager.

(** ** Examples *)

Definition example_parent := example_node "parent" None (example_tx 1 1073743824 1000) None None.

(** A node with 300 blocks of its own timelock left and a refund with 100. *)
Definition example_expiring :=
  example_node "leaf" (Some "parent") (example_tx 2 1073742124 1000)
    (Some (example_tx 3 1073741924 1000)) None.

Definition example_renewed :=
  example_node "leaf" (Some "parent") (example_tx 2 1073742024 1000)
    (Some (example_tx 3 1073743824 1000)) None.

Definition example_ready :=
  example_node "ready" (Some "parent") (example_tx 2 1073743824 1000)
    (Some (example_tx 4 1073743824 1000)) None.

Definition example_renew_types : RenewTypes (bt := example_bitcoin) := {|
  ProtoNode := TreeNode (ext := @bitcoin_externals example_bitcoin); ProtoNonces := list Z;
  proto_node_id := tn_id; node_try_from := λ n, Ok n
|}.

Definition example_rpc : RenewRpc (rt := example_renew_types) (se := example_signer_env) Z := {|
  rpc_get_signing_commitments := λ _ n,
    se_ret (replicate (Z.to_nat n) ([1] : ProtoNonces (RenewTypes := example_renew_types)));
  map_signing_nonce_commitments := λ c : list Z, Ok (c : OperatorCommitments (SignerEnv := example_signer_env));
  rpc_query_nodes_paginated := λ _,
    se_ret [("parent", (example_parent : ProtoNode (RenewTypes := example_renew_types)))];
  rpc_renew_leaf := λ _ _,
    se_ret (Some (RenewRefundTimelockResult (rt := example_renew_types)
      (Some (example_renewed : ProtoNode (RenewTypes := example_renew_types)))))
|}.

Definition example_check :=
  check_renew_nodes (bo := example_bitcoin_ops) (fs := example_frost) (rpc := example_rpc) Regtest
    [example_expiring; example_ready] 0.

Lemma check_renew_nodes_renews_each_witness :
  ∃ w' res m tasks renewed, example_check = (w', Ok res) ∧ length res = 2%nat ∧
    res = with_need None [example_expiring; example_ready] ++ renewed ∧
    tasks.*2 = to_renew [example_expiring; example_ready] ∧
    [example_expiring; example_ready]
      ≡ₚ with_need None [example_expiring; example_ready] ++ to_renew [example_expiring; example_ready] ∧
    Forall (right_renewal (bo := example_bitcoin_ops) m) tasks.
Proof.
  assert (match example_check with (_, Ok r) => length r | _ => O end = 2%nat) as Hlen
    by (vm_compute; reflexivity).
  destruct example_check as [w' [res|e]] eqn:H; [|discriminate Hlen].
  destruct (check_renew_nodes_renews_each (bo := example_bitcoin_ops) (fs := example_frost)
    (rpc := example_rpc) Regtest (λ b _, eq_refl) _ _ _ _ H)
    as (m & tasks & renewed & Hres & Htasks & Hperm & Hright & _).
  exists w', res, m, tasks, renewed.
  exact (conj eq_refl (conj Hlen (conj Hres (conj Htasks (conj Hperm Hright))))).
Defined.

Definition example_renewal :=
  renew (bo := example_bitcoin_ops) (fs := example_frost) (rpc := example_rpc) Regtest
    (RenewRefund example_parent) example_expiring 0.

Lemma renewal_signs_fresh_chain_witness :
  ∃ w' n jobs signed nt nf, example_renewal = (w', Ok n) ∧
    renewed_timelock (RenewRefund example_parent) example_expiring = Some (nt, nf) ∧
    renewal_ok (bo := example_bitcoin_ops) (se := example_signer_env) (node_tx example_parent) nt nf jobs ∧
    Forall2 (job_signed (fs := example_frost)) jobs signed.
Proof.
  assert (is_ok example_renewal.2 = true) as Hok by (vm_compute; reflexivity).
  destruct example_renewal as [w' [n|e]] eqn:H; [|discriminate Hok].
  destruct (renewal_signs_fresh_chain (bo := example_bitcoin_ops) (fs := example_frost)
    (rpc := example_rpc) Regtest (λ b _, eq_refl) _ _ _ _ _ H)
    as (jobs & signed & nt & nf & Ht & Hr & Hs & _).
  exists w', n, jobs, signed, nt, nf.
  exact (conj eq_refl (conj Ht (conj Hr Hs))).
Defined.
