(* ===== verification/UnilateralExit.v ===== *)
(** Unilateral exits: [crates/spark/src/services/unilateral_exit.rs].

    For every leaf the service walks up to the root of its tree and builds, from the root
    down, a child transaction that pays the fees of each node transaction and of the leaf's
    refund, through their anchors.  PSBTs are the records the code fills in; creating one
    from a transaction is rust-bitcoin's and a parameter.  The walk takes fuel, since a
    reply of the operators with a cycle keeps it going. *)
From S2P Require Import Prelude TreeTypes Transactions Paging.

Section exit.
Context {bt : BitcoinTypes} {bo : BitcoinOps}.

Record CpfpUtxo : Type := {
  cu_txid : Txid;
  cu_vout : Z;
  cu_value : Z;
  cu_pubkey : SecpPublicKey
}.

(** [psbt::Input] with the one field the code sets; [psbt::Output] has none. *)
Record PsbtInput : Type := { witness_utxo : option TxOut }.
Definition PsbtInput_default : PsbtInput := {| witness_utxo := None |}.

Record Psbt : Type := {
  unsigned_tx : Tx;
  psbt_inputs : list PsbtInput;
  psbt_outputs : list unit
}.

Record TxCpfpPsbt : Type := { parent_tx : Tx; child_psbt : Psbt }.

Record LeafTxCpfpPsbts : Type := {
  lp_leaf_id : TreeNodeId;
  tx_cpfp_psbts : list TxCpfpPsbt
}.

(** [Psbt::from_unsigned_tx], with the text of its error. *)
Context (from_unsigned_tx : Tx → result Psbt string).
Context (network : Network).

(** ** [create_tx_cpfp_psbt] *)

(** [tx.output.iter().enumerate().find(|(_, o)| is_ephemeral_anchor_output(o))]. *)
Fixpoint find_anchor (i : nat) (outs : list TxOut) : option (nat * TxOut) :=
  match outs with
  | [] => None
  | o :: outs => if is_ephemeral_anchor_output o then Some (i, o) else find_anchor (S i) outs
  end.

(** [psbt.inputs[i] = input]. *)
Definition set_psbt_input (i : nat) (input : PsbtInput) (p : Psbt) : result Psbt (exn ServiceError) :=
  if bool_decide (i < length (psbt_inputs p))%nat
  then Ok {| unsigned_tx := unsigned_tx p; psbt_inputs := <[i := input]> (psbt_inputs p);
             psbt_outputs := psbt_outputs p |}
  else Err Panic.

(** [psbt.outputs[0] = PsbtOutput::default()]. *)
Definition reset_psbt_output (p : Psbt) : result Psbt (exn ServiceError) :=
  if bool_decide (psbt_outputs p = []) then Err Panic
  else Ok {| unsigned_tx := unsigned_tx p; psbt_inputs := psbt_inputs p;
             psbt_outputs := <[0%nat := tt]> (psbt_outputs p) |}.

Definition utxo_outpoint (u : CpfpUtxo) : OutPoint := {| op_txid := cu_txid u; op_vout := cu_vout u |}.

Definition utxo_input (u : CpfpUtxo) : PsbtInput :=
  {| witness_utxo := Some {| txo_value := cu_value u;
                             script_pubkey := p2wpkh_script (cu_pubkey u) network |} |}.

(** The loop over the inputs of the PSBT. *)
Fixpoint set_utxo_inputs (i : nat) (utxos : list CpfpUtxo) (p : Psbt) : result Psbt (exn ServiceError) :=
  match utxos with
  | [] => Ok p
  | u :: utxos => let* p := set_psbt_input i (utxo_input u) p in set_utxo_inputs (S i) utxos p
  end.

(** The estimated size of the child in vbytes. *)
Definition tx_size_vbytes (utxos : list CpfpUtxo) : Z :=
  wadd 64 (wadd 64 (wadd 64 (wrap 64 (Z.of_nat (length utxos) * 68)) 41) 31) 10.

(** The PSBT and what is left of the UTXOs: the change. *)
Definition create_tx_cpfp_psbt (tx : Tx) (utxos : list CpfpUtxo) (fee_rate : Z)
    : result (Psbt * list CpfpUtxo) (exn ServiceError) :=
  let* (vout, anchor_tx_out) :=
    throws (ok_or (find_anchor 0 (output tx)) (ValidationError "Ephemeral anchor output not found")) in
  let* first := throws (ok_or (head utxos)
                  (ValidationError "At least one UTXO is required for fee bumping")) in
  let total_utxo_value := sum_u 64 (cu_value <$> utxos) in
  let first_pubkey := cu_pubkey first in
  let output_script_pubkey := p2wpkh_script first_pubkey network in
  let inputs := (λ u, default_txin (utxo_outpoint u)) <$> utxos in
  let inputs := inputs ++ [default_txin {| op_txid := compute_txid tx; op_vout := wrap 32 (Z.of_nat vout) |}] in
  let fee_amount := wrap 64 (fee_rate * tx_size_vbytes utxos) in
  let adjusted_output_value := saturating_sub total_utxo_value fee_amount in
  if adjusted_output_value =? 0
  then Err (Throw (ValidationError "UTXOs value is too low to cover the fee"))
  else
    let fee_bump_tx :=
      {| version := 3; lock_time := 0; input := inputs;
         output := [ {| txo_value := adjusted_output_value; script_pubkey := output_script_pubkey |} ] |} in
    let* psbt := throws (map_err (λ e, ValidationError ("Failed to create PSBT: " +:+ e))
                   (from_unsigned_tx fee_bump_tx)) in
    let* psbt := set_utxo_inputs 0 utxos psbt in
    let* psbt := set_psbt_input (length utxos) {| witness_utxo := Some anchor_tx_out |} psbt in
    let* psbt := reset_psbt_output psbt in
    Ok (psbt, [ {| cu_txid := compute_txid fee_bump_tx; cu_vout := 0;
                   cu_value := adjusted_output_value; cu_pubkey := first_pubkey |} ]).

(** ** The walk to the root *)

(** [nodes.insert(0, node)] until a node without a parent; [None] when the fuel runs out. *)
Fixpoint ancestors (fuel : nat) (tree_nodes : gmap TreeNodeId TreeNode) (node : TreeNode)
    (nodes : list TreeNode) : option (result (list TreeNode) ServiceError) :=
  match fuel with
  | O => None
  | S fuel =>
      let nodes := node :: nodes in
      match parent_node_id node with
      | None => Some (Ok nodes)
      | Some parent_id =>
          match tree_nodes !! parent_id with
          | None => Some (Err (ValidationError ("Parent ID " +:+ parent_id +:+ " not found in the tree")))
          | Some parent => ancestors fuel tree_nodes parent nodes
          end
      end
  end.

(** ** The exit *)

(** What the loops carry: the UTXOs left and the transactions already processed. *)
Record ExitState : Type := { utxos : list CpfpUtxo; checked_txs : gset Txid }.

(** One node of the path of [leaf_id]. *)
Definition exit_node (fee_rate : Z) (leaf_id : TreeNodeId) (refund : Tx) (node : TreeNode)
    (st : ExitState) : result (list TxCpfpPsbt * ExitState) (exn ServiceError) :=
  let txid := compute_txid (node_tx node) in
  if bool_decide (txid ∈ checked_txs st) then Ok ([], st)
  else
    let* (psbt, us) := create_tx_cpfp_psbt (node_tx node) (utxos st) fee_rate in
    let entry := {| parent_tx := node_tx node; child_psbt := psbt |} in
    let* (entries, us) :=
      (if bool_decide (tn_id node = leaf_id) then
         let* (psbt, us) := create_tx_cpfp_psbt refund us fee_rate in
         Ok ([entry; {| parent_tx := refund; child_psbt := psbt |}], us)
       else Ok ([entry], us)) in
    Ok (entries, {| utxos := us; checked_txs := {[txid]} ∪ checked_txs st |}).

Fixpoint exit_nodes (fee_rate : Z) (leaf_id : TreeNodeId) (refund : Tx) (nodes : list TreeNode)
    (st : ExitState) : result (list TxCpfpPsbt * ExitState) (exn ServiceError) :=
  match nodes with
  | [] => Ok ([], st)
  | node :: nodes =>
      let* (l, st) := exit_node fee_rate leaf_id refund node st in
      let* (l', st) := exit_nodes fee_rate leaf_id refund nodes st in
      Ok (l ++ l', st)
  end.

Definition exit_leaf (fuel : nat) (tree_nodes : gmap TreeNodeId TreeNode) (fee_rate : Z)
    (leaf_id : TreeNodeId) (st : ExitState)
    : option (result (LeafTxCpfpPsbts * ExitState) (exn ServiceError)) :=
  match tree_nodes !! leaf_id with
  | None => Some (Err (Throw (ValidationError ("Leaf ID " +:+ leaf_id +:+ " not found in the tree"))))
  | Some node =>
      match refund_tx node with
      | None => Some (Err (Throw (ValidationError
                  ("Leaf ID " +:+ leaf_id +:+ " does not have a refund transaction"))))
      | Some refund =>
          nodes ← ancestors fuel tree_nodes node [];
          Some (let* nodes := throws nodes in
                let* (l, st) := exit_nodes fee_rate leaf_id refund nodes st in
                Ok ({| lp_leaf_id := leaf_id; tx_cpfp_psbts := l |}, st))
      end
  end.

Fixpoint exit_leaves (fuel : nat) (tree_nodes : gmap TreeNodeId TreeNode) (fee_rate : Z)
    (leaf_ids : list TreeNodeId) (st : ExitState)
    : option (result (list LeafTxCpfpPsbts * ExitState) (exn ServiceError)) :=
  match leaf_ids with
  | [] => Some (Ok ([], st))
  | leaf_id :: leaf_ids =>
      r ← exit_leaf fuel tree_nodes fee_rate leaf_id st;
      match r with
      | Err e => Some (Err e)
      | Ok (package, st) =>
          rest ← exit_leaves fuel tree_nodes fee_rate leaf_ids st;
          Some (let* (packages, st) := rest in Ok (package :: packages, st))
      end
  end.

(** ** The nodes of the leaves and their parents *)

Section service.
Context {W ProtoNode : Type}.
(** The query of the coordinator, by leaf ids, limit and offset: the nodes of the page, in
    the order of the reply's map, and the next offset. *)
Context (query_nodes : list string → Z → Z → SE W OtherError (list ProtoNode * Z)).
Context (node_try_from : ProtoNode → result TreeNode ServiceError) (debug_error : ServiceError → string).

Fixpoint convert_nodes (l : list ProtoNode) : result (list TreeNode) ServiceError :=
  match l with
  | [] => Ok []
  | n :: l => let* t := node_try_from n in let* ts := convert_nodes l in Ok (t :: ts)
  end.

Definition fetch_leaves_parents_inner (leaf_ids : list TreeNodeId) (paging : PagingFilter)
    : SE W ServiceError (@PagingResult TreeNode) :=
  do* (nodes, next_offset) :=
    se_map_err ServiceConnectionError (query_nodes leaf_ids (limit paging) (offset paging)) in
  do* ts := se_lift (map_err (λ e, SE_Generic ("Failed to deserialize leaves: " +:+ debug_error e))
              (convert_nodes nodes)) in
  se_ret {| items := ts; next := next_from_offset paging next_offset |}.

Definition fetch_leaves_parents (page_fuel : nat) (leaf_ids : list TreeNodeId) (w : W)
    : W * option (result (list TreeNode) ServiceError) :=
  if bool_decide (leaf_ids = []) then (w, Some (Ok []))
  else
    let '(w, r) := pager page_fuel (fetch_leaves_parents_inner leaf_ids)
                     PagingFilter_default w in
    (w, (λ r, let* page := r in Ok (items page)) <$> r).

(** [.into_iter().map(|node| (node.id.clone(), node)).collect()]: later nodes replace
    earlier ones. *)
Definition index_nodes (nodes : list TreeNode) : gmap TreeNodeId TreeNode :=
  foldl (λ m n, <[tn_id n := n]> m) ∅ nodes.

Definition unilateral_exit (page_fuel fuel : nat) (fee_rate : Z) (leaf_ids : list TreeNodeId)
    (us : list CpfpUtxo) (w : W) : W * option (result (list LeafTxCpfpPsbts) (exn ServiceError)) :=
  if bool_decide (leaf_ids = []) then
    (w, Some (Err (Throw (ValidationError "At least one leaf ID is required"))))
  else if bool_decide (us = []) then
    (w, Some (Err (Throw (ValidationError "At least one UTXO is required"))))
  else
    match fetch_leaves_parents page_fuel leaf_ids w with
    | (w, None) => (w, None)
    | (w, Some (Err e)) => (w, Some (Err (Throw e)))
    | (w, Some (Ok nodes)) =>
        (w, (λ r, let* (packages, _) := r in Ok packages) <$>
            exit_leaves fuel (index_nodes nodes) fee_rate leaf_ids
              {| utxos := us; checked_txs := ∅ |})
    end.
End service.

(** ** What a child transaction pays *)

(** The PSBT of a transaction has an empty entry per input and per output. *)
Context (psbt_of_tx : ∀ tx p, from_unsigned_tx tx = Ok p →
  unsigned_tx p = tx ∧ psbt_inputs p = replicate (length (input tx)) PsbtInput_default ∧
  psbt_outputs p = replicate (length (output tx)) tt).

Definition child_size (n : nat) : Z := 68 * Z.of_nat n + 82.

Definition utxo_total (us : list CpfpUtxo) : Z := sumZ (cu_value <$> us).

Definition child (e : TxCpfpPsbt) : Tx := unsigned_tx (child_psbt e).

(** The child of the entry spends exactly [us] and the anchor of the parent, knows the
    outputs it spends, and pays everything but the fee for its size to the key of the first
    UTXO. *)
Definition pays_for (fee_rate : Z) (us : list CpfpUtxo) (pubkey : SecpPublicKey) (e : TxCpfpPsbt) : Prop :=
  let change := utxo_total us - fee_rate * child_size (length us) in
  ∃ vout, output (parent_tx e) !! vout = Some ephemeral_anchor_output ∧
    previous_output <$> input (child e)
      = (utxo_outpoint <$> us)
        ++ [ {| op_txid := compute_txid (parent_tx e); op_vout := wrap 32 (Z.of_nat vout) |} ] ∧
    psbt_inputs (child_psbt e)
      = (utxo_input <$> us) ++ [ {| witness_utxo := Some ephemeral_anchor_output |} ] ∧
    output (child e) = [ {| txo_value := change; script_pubkey := p2wpkh_script pubkey network |} ] ∧
    0 < change.

(** The change of an entry. *)
Definition change_of (pubkey : SecpPublicKey) (e : TxCpfpPsbt) : CpfpUtxo :=
  {| cu_txid := compute_txid (child e); cu_vout := 0;
     cu_value := default 0 (txo_value <$> head (output (child e))); cu_pubkey := pubkey |}.

(** The first entry spends [us], every further one the change of the one before. *)
Fixpoint funded (fee_rate : Z) (us : list CpfpUtxo) (pubkey : SecpPublicKey) (l : list TxCpfpPsbt) : Prop :=
  match l with
  | [] => True
  | e :: l => pays_for fee_rate us pubkey e ∧ funded fee_rate [change_of pubkey e] pubkey l
  end.

(** Nothing overflows: the values and the fee of the first child fit. *)
Definition affordable (fee_rate : Z) (us : list CpfpUtxo) : Prop :=
  Forall (λ u, 0 ≤ cu_value u) us ∧ utxo_total us < 2 ^ 64 ∧ 0 ≤ fee_rate ∧
  child_size (length us) < 2 ^ 64 ∧ fee_rate * child_size (length us) < 2 ^ 64 ∧ us ≠ [].

Lemma find_anchor_ok i outs v o :
  find_anchor i outs = Some (v, o) → ∃ j, v = (i + j)%nat ∧ outs !! j = Some o ∧ o = ephemeral_anchor_output.
Proof.
  revert i. induction outs as [|x outs IH]; intros i; simpl; [done|].
  destruct (is_ephemeral_anchor_output x) eqn:Ha.
  - intros [= <- <-]. exists O. split_and!; [lia|done|]. by apply is_ephemeral_anchor_output_spec.
  - intros (j & -> & Hj & Ho)%IH. exists (S j). split_and!; [lia|done|done].
Qed.

Lemma insert_middle {A} i (pre rest : list A) x y :
  length pre = i → <[i := x]> (pre ++ y :: rest) = pre ++ x :: rest.
Proof. intros <-. rewrite insert_app_r_alt by lia. by rewrite Nat.sub_diag. Qed.

Lemma set_utxo_inputs_ok us i p pre rest :
  psbt_inputs p = pre ++ rest → length pre = i → (length us ≤ length rest)%nat →
  ∃ p', set_utxo_inputs i us p = Ok p' ∧ unsigned_tx p' = unsigned_tx p ∧
    psbt_outputs p' = psbt_outputs p ∧
    psbt_inputs p' = pre ++ (utxo_input <$> us) ++ drop (length us) rest.
Proof.
  revert i p pre rest. induction us as [|u us IH]; intros i p pre rest Hp Hi Hlen.
  { exists p. simpl. by rewrite drop_0. }
  destruct rest as [|r rest]; simpl in Hlen; [lia|]. simpl. unfold set_psbt_input at 1.
  rewrite Hp, bool_decide_eq_true_2 by (rewrite length_app; simpl; lia). simpl.
  rewrite insert_middle by done.
  edestruct (IH (S i) {| unsigned_tx := unsigned_tx p; psbt_inputs := pre ++ utxo_input u :: rest;
                         psbt_outputs := psbt_outputs p |} (pre ++ [utxo_input u]) rest)
    as (p' & Hp' & Htx & Hout & Hin); simpl.
  - by rewrite <- app_assoc.
  - rewrite length_app. simpl. lia.
  - lia.
  - exists p'. split_and!; try done. by rewrite Hin, <- app_assoc.
Qed.

Lemma tx_size_exact us : child_size (length us) < 2 ^ 64 → tx_size_vbytes us = child_size (length us).
Proof.
  unfold child_size, tx_size_vbytes, wadd. intros H.
  rewrite (wrap_small 64 (Z.of_nat (length us) * 68)) by (unfold in_u; lia).
  rewrite (wrap_small 64 (Z.of_nat (length us) * 68 + 41)) by (unfold in_u; lia).
  rewrite (wrap_small 64 (Z.of_nat (length us) * 68 + 41 + 31)) by (unfold in_u; lia).
  rewrite wrap_small by (unfold in_u; lia). lia.
Qed.

Lemma create_tx_cpfp_psbt_ok tx us fee_rate psbt us' first :
  create_tx_cpfp_psbt tx us fee_rate = Ok (psbt, us') → affordable fee_rate us →
  head us = Some first →
  let e := {| parent_tx := tx; child_psbt := psbt |} in
  pays_for fee_rate us (cu_pubkey first) e ∧ us' = [change_of (cu_pubkey first) e] ∧
  affordable fee_rate us'.
Proof.
  unfold create_tx_cpfp_psbt. intros H (Hnn & Htot & Hrate & Hsz & Hfee & Hne) Hfirst.
  apply rbind_ok in H as ([v o] & (v' & -> & Hv & ->)%throws_ok%ok_or_ok%find_anchor_ok & H).
  rewrite Hfirst in H. simpl in H. rewrite tx_size_exact in H by done.
  rewrite wrap_small in H by (unfold in_u, child_size in *; nia).
  assert (sum_u 64 (cu_value <$> us) = utxo_total us) as Hsum.
  { apply sum_u_exact; [done|by apply Forall_fmap|done]. }
  rewrite Hsum in H. unfold saturating_sub in H.
  set (change := utxo_total us - fee_rate * child_size (length us)) in *.
  destruct (Z.eqb_spec (Z.max 0 change) 0) as [|Hpos]; [done|].
  assert (0 < change) as Hchange by lia. rewrite Z.max_r in H by lia.
  apply rbind_ok in H as (p0 & Hp0%throws_ok & H).
  destruct (from_unsigned_tx _) as [p|] eqn:Hfrom; simpl in Hp0; [|done]. injection Hp0 as ->.
  apply psbt_of_tx in Hfrom as (Htx & Hins & Houts).
  simpl in Hins. rewrite length_app, length_fmap in Hins. simpl in Hins.
  rewrite replicate_add in Hins.
  destruct (set_utxo_inputs_ok us 0 p0 [] _ Hins eq_refl) as (p1 & Hp1 & Htx1 & Hout1 & Hin1).
  { rewrite length_app, length_replicate. lia. }
  simpl in Hin1. rewrite drop_app_length' in Hin1 by by rewrite length_replicate.
  rewrite Hp1 in H. simpl in H. unfold set_psbt_input in H.
  rewrite Hin1, bool_decide_eq_true_2 in H by (rewrite length_app, length_fmap; simpl; lia).
  simpl in H. unfold reset_psbt_output in H. simpl in H. rewrite Hout1, Houts in H. simpl in H.
  injection H as <- <-. simpl.
  rewrite insert_middle by by rewrite length_fmap.
  unfold pays_for, change_of, child. simpl. rewrite Htx1, Htx. simpl. fold change.
  split_and!; [|done|].
  - exists v'. split_and!; try done. by rewrite fmap_app, <- list_fmap_compose.
  - assert (0 ≤ fee_rate * child_size (length us)) by (unfold child_size; nia).
    unfold affordable. split_and!; try done.
    + apply Forall_singleton. simpl. lia.
    + unfold utxo_total. simpl. lia.
    + simpl. destruct us; [done|]. simpl length in *. unfold child_size in *. nia.
Qed.

(** ** The entries of a path *)

(** The UTXOs left after the entries. *)
Definition left_over (us : list CpfpUtxo) (pubkey : SecpPublicKey) (l : list TxCpfpPsbt) : list CpfpUtxo :=
  match last l with Some e => [change_of pubkey e] | None => us end.

Lemma left_over_app us pk l1 l2 : left_over us pk (l1 ++ l2) = left_over (left_over us pk l1) pk l2.
Proof. unfold left_over. rewrite last_app. by destruct (last l2). Qed.

Lemma funded_app fee_rate us pk l1 l2 :
  funded fee_rate us pk (l1 ++ l2) ↔ funded fee_rate us pk l1 ∧ funded fee_rate (left_over us pk l1) pk l2.
Proof.
  revert us. induction l1 as [|e l1 IH]; intros us; simpl; [naive_solver|].
  rewrite IH. unfold left_over. destruct l1 as [|e' l1]; simpl; [naive_solver|].
  destruct (last (e' :: l1)) eqn:Hl; [naive_solver|]. by apply last_None in Hl.
Qed.

(** The transactions bumped along a path: the new ones, and the refund after the leaf. *)
Fixpoint exit_txs (leaf_id : TreeNodeId) (refund : Tx) (checked : gset Txid) (nodes : list TreeNode)
    : list Tx :=
  match nodes with
  | [] => []
  | n :: nodes =>
      let txid := compute_txid (node_tx n) in
      (if bool_decide (txid ∈ checked) then []
       else node_tx n :: (if bool_decide (tn_id n = leaf_id) then [refund] else []))
      ++ exit_txs leaf_id refund ({[txid]} ∪ checked) nodes
  end.

Definition node_txid (n : TreeNode) : Txid := compute_txid (node_tx n).

(** The state can pay: its UTXOs belong to [pubkey] and suffice so far. *)
Definition can_pay (fee_rate : Z) (pubkey : SecpPublicKey) (st : ExitState) : Prop :=
  affordable fee_rate (utxos st) ∧ cu_pubkey <$> head (utxos st) = Some pubkey.

(** The entries are funded from the UTXOs, as far as those can pay. *)
Definition paid_for (fee_rate : Z) (pubkey : SecpPublicKey) (st : ExitState) (l : list TxCpfpPsbt)
    (st' : ExitState) : Prop :=
  can_pay fee_rate pubkey st →
  funded fee_rate (utxos st) pubkey l ∧ utxos st' = left_over (utxos st) pubkey l ∧ can_pay fee_rate pubkey st'.

Lemma paid_for_nil fee_rate pk st st' : utxos st' = utxos st → paid_for fee_rate pk st [] st'.
Proof. unfold paid_for, can_pay. by intros ->. Qed.

Lemma paid_for_trans fee_rate pk st1 l1 st2 l2 st3 :
  paid_for fee_rate pk st1 l1 st2 → paid_for fee_rate pk st2 l2 st3 → paid_for fee_rate pk st1 (l1 ++ l2) st3.
Proof.
  intros H1 H2 Hp. destruct (H1 Hp) as (F1 & U1 & P1). destruct (H2 P1) as (F2 & U2 & P2).
  rewrite funded_app, left_over_app, <- U1. by split_and!.
Qed.

(** What a part of the exit has done: funded its entries from the UTXOs, bumped [txs] and
    processed the transaction ids [ids]. *)
Definition exited (fee_rate : Z) (pubkey : SecpPublicKey) (st : ExitState) (l : list TxCpfpPsbt)
    (txs : list Tx) (ids : gset Txid) (st' : ExitState) : Prop :=
  paid_for fee_rate pubkey st l st' ∧ parent_tx <$> l = txs ∧ checked_txs st' = ids ∪ checked_txs st.

Lemma exited_trans fee_rate pk st1 l1 txs1 ids1 st2 l2 txs2 ids2 st3 :
  exited fee_rate pk st1 l1 txs1 ids1 st2 → exited fee_rate pk st2 l2 txs2 ids2 st3 →
  exited fee_rate pk st1 (l1 ++ l2) (txs1 ++ txs2) (ids1 ∪ ids2) st3.
Proof.
  intros (P1 & <- & C1) (P2 & <- & C2). unfold exited.
  rewrite fmap_app. split_and!; [by eapply paid_for_trans|done|]. rewrite C2, C1. set_solver.
Qed.

Lemma create_exited fee_rate pk tx psbt us us' :
  create_tx_cpfp_psbt tx us fee_rate = Ok (psbt, us') →
  affordable fee_rate us → cu_pubkey <$> head us = Some pk →
  let e := {| parent_tx := tx; child_psbt := psbt |} in
  pays_for fee_rate us pk e ∧ us' = [change_of pk e] ∧ affordable fee_rate us'.
Proof.
  intros H Ha Hpk. destruct (head us) as [first|] eqn:Hf; [|done]. injection Hpk as <-.
  by eapply create_tx_cpfp_psbt_ok.
Qed.

Lemma create_paid_for fee_rate pk tx psbt st st' :
  create_tx_cpfp_psbt tx (utxos st) fee_rate = Ok (psbt, utxos st') →
  paid_for fee_rate pk st [ {| parent_tx := tx; child_psbt := psbt |} ] st'.
Proof.
  intros H [Ha Hpk]. destruct (create_exited _ _ _ _ _ _ H Ha Hpk) as (Hpay & Hus & Ha').
  unfold can_pay. by rewrite Hus in *.
Qed.

Lemma exit_node_ok fee_rate pk leaf_id refund n st l st' :
  exit_node fee_rate leaf_id refund n st = Ok (l, st') →
  exited fee_rate pk st l (exit_txs leaf_id refund (checked_txs st) [n]) {[node_txid n]} st'.
Proof.
  unfold exit_node. intros H. simpl. rewrite app_nil_r. fold (node_txid n) in *.
  case_bool_decide as Hin.
  { injection H as <- <-. split_and!; [by apply paid_for_nil|done|set_solver]. }
  apply rbind_ok in H as ([psbt us] & H1 & H). set (checked := {[node_txid n]} ∪ checked_txs st) in *.
  pose proof (create_paid_for fee_rate pk (node_tx n) psbt st {| utxos := us; checked_txs := checked |} H1) as P1.
  case_bool_decide as Hleaf; simpl in H.
  - destruct (create_tx_cpfp_psbt refund _ fee_rate) as [[psbt2 us2]|] eqn:H2; [|done].
    simpl in H. injection H as <- <-. split_and!; [|done|done].
    by apply (paid_for_trans _ _ _ _ _ _ _ P1), create_paid_for.
  - injection H as <- <-. by split_and!.
Qed.

Lemma exit_txs_cons leaf_id refund checked n nodes :
  exit_txs leaf_id refund checked (n :: nodes)
  = exit_txs leaf_id refund checked [n] ++ exit_txs leaf_id refund ({[node_txid n]} ∪ checked) nodes.
Proof. simpl. by rewrite app_nil_r. Qed.

Lemma exit_nodes_ok fee_rate pk leaf_id refund nodes st l st' :
  exit_nodes fee_rate leaf_id refund nodes st = Ok (l, st') →
  exited fee_rate pk st l (exit_txs leaf_id refund (checked_txs st) nodes)
    (list_to_set (node_txid <$> nodes)) st'.
Proof.
  revert st l. induction nodes as [|n nodes IH]; intros st l; cbn [exit_nodes].
  { intros [= <- <-]. split_and!; [by apply paid_for_nil|done|set_solver]. }
  intros ([l1 st1] & H1 & H)%rbind_ok. apply rbind_ok in H as ([l2 st2] & H2 & [= <- <-]).
  apply (exit_node_ok _ pk) in H1. apply IH in H2. rewrite exit_txs_cons.
  replace ({[node_txid n]} ∪ checked_txs st) with (checked_txs st1) by apply H1.
  by eapply exited_trans.
Qed.

(** ** The walk *)

(** A path from a root down: the first node is a child of [above], or a root. *)
Fixpoint descent (tree : gmap TreeNodeId TreeNode) (above : option TreeNode) (nodes : list TreeNode)
    : Prop :=
  match nodes with
  | [] => True
  | n :: nodes =>
      match above with
      | None => parent_node_id n = None
      | Some p => ∃ id, parent_node_id n = Some id ∧ tree !! id = Some p
      end ∧ descent tree (Some n) nodes
  end.

Lemma ancestors_ok fuel tree node acc nodes :
  ancestors fuel tree node acc = Some (Ok nodes) → descent tree (Some node) acc →
  ∃ up, nodes = up ++ node :: acc ∧ descent tree None nodes.
Proof.
  revert node acc. induction fuel as [|fuel IH]; intros node acc; cbn [ancestors]; [done|].
  destruct (parent_node_id node) as [pid|] eqn:Hp.
  - destruct (tree !! pid) as [parent|] eqn:Hl; [|done]. intros H Hd.
    apply IH in H as (up & -> & Hd'); [|simpl; eauto].
    exists (up ++ [parent]). by rewrite <- app_assoc.
  - intros [= <-] Hd. by exists [].
Qed.

Lemma descent_in_tree tree above nodes n :
  descent tree above nodes → n ∈ nodes → last nodes = Some n ∨
  ∃ c id, c ∈ nodes ∧ parent_node_id c = Some id ∧ tree !! id = Some n.
Proof.
  revert above. induction nodes as [|x nodes IH]; intros above; [set_solver|].
  intros [_ Hd] [->|Hn]%elem_of_cons.
  - destruct nodes as [|y nodes]; [by left|]. right. destruct Hd as [(id & Hid & Hl) _].
    exists y, id. split_and!; [set_solver|done|done].
  - destruct (IH _ Hd Hn) as [Hlast|(c & id & Hc & Hid & Hl)].
    + left. destruct nodes; [done|]. by rewrite last_cons_cons.
    + right. exists c, id. split_and!; [set_solver|done|done].
Qed.

(** ** Parents first *)

(** [t] can follow the transactions [pre]: it is the transaction of a node of the tree that is a
    root, or whose parent is a node of the tree whose transaction is among them; or it is the
    refund of the node of the tree that was just exited. *)
Definition follows (tree : gmap TreeNodeId TreeNode) (pre : list Tx) (t : Tx) : Prop :=
  ∃ n, tree !! tn_id n = Some n ∧
    ((t = node_tx n ∧ ∀ id, parent_node_id n = Some id →
        ∃ p, tree !! id = Some p ∧ node_txid p ∈ compute_txid <$> pre) ∨
     (refund_tx n = Some t ∧ last pre = Some (node_tx n))).

Fixpoint parents_first (tree : gmap TreeNodeId TreeNode) (pre txs : list Tx) : Prop :=
  match txs with
  | [] => True
  | t :: txs => follows tree pre t ∧ parents_first tree (pre ++ [t]) txs
  end.

Lemma parents_first_app tree pre l1 l2 :
  parents_first tree pre (l1 ++ l2) ↔ parents_first tree pre l1 ∧ parents_first tree (pre ++ l1) l2.
Proof.
  revert pre. induction l1 as [|t l1 IH]; intros pre; simpl; [by rewrite app_nil_r; naive_solver|].
  rewrite IH, <- app_assoc. simpl. naive_solver.
Qed.

(** The transactions seen so far include all that are checked. *)
Definition seen (checked : gset Txid) (pre : list Tx) : Prop :=
  ∀ x, x ∈ checked → x ∈ compute_txid <$> pre.

Lemma exit_node_ordered tree above leaf_id refund n checked pre :
  descent tree above [n] → tree !! tn_id n = Some n → (tn_id n = leaf_id → refund_tx n = Some refund) →
  (∀ p, above = Some p → node_txid p ∈ checked) → seen checked pre →
  parents_first tree pre (exit_txs leaf_id refund checked [n]) ∧
  seen ({[node_txid n]} ∪ checked) (pre ++ exit_txs leaf_id refund checked [n]).
Proof.
  intros [Habove _] Htree Hleaf Hab Hseen. simpl. rewrite app_nil_r.
  assert (∀ l, node_txid n ∈ compute_txid <$> (pre ++ node_tx n :: l)) as Hn.
  { intros l. rewrite fmap_app. set_solver. }
  case_bool_decide as Hin.
  { split; [done|]. rewrite app_nil_r. intros x Hx. apply Hseen. unfold node_txid in Hx. set_solver. }
  assert (follows tree pre (node_tx n)) as Hf.
  { exists n. split; [done|]. left. split; [done|]. intros id Hid. destruct above as [p|]; [|congruence].
    destruct Habove as (id' & Hid' & Hl). exists p. split; [congruence|]. by apply Hseen, Hab. }
  split.
  - simpl. split; [done|]. case_bool_decide; simpl; [|done]. split; [|done].
    exists n. split; [done|]. right. split; [by apply Hleaf|]. by rewrite last_snoc.
  - intros x [->%elem_of_singleton|Hx]%elem_of_union; [apply Hn|].
    rewrite fmap_app. apply elem_of_app. left. by apply Hseen.
Qed.

Lemma exit_txs_ordered tree above leaf_id refund nodes checked pre :
  descent tree above nodes →
  (∀ n, n ∈ nodes → tree !! tn_id n = Some n ∧ (tn_id n = leaf_id → refund_tx n = Some refund)) →
  (∀ p, above = Some p → node_txid p ∈ checked) → seen checked pre →
  parents_first tree pre (exit_txs leaf_id refund checked nodes) ∧
  seen (list_to_set (node_txid <$> nodes) ∪ checked) (pre ++ exit_txs leaf_id refund checked nodes).
Proof.
  revert above checked pre. induction nodes as [|n nodes IH]; intros above checked pre Hd Hleaf Hab Hs.
  { split; [done|]. rewrite app_nil_r. intros x Hx. apply Hs. set_solver. }
  destruct Hd as [Hn Hd].
  destruct (exit_node_ordered tree above leaf_id refund n checked pre) as [Hp1 Hs1]; try done.
  { apply Hleaf. by left. }
  { apply Hleaf. by left. }
  destruct (IH (Some n) ({[node_txid n]} ∪ checked) (pre ++ exit_txs leaf_id refund checked [n]))
    as [Hp2 Hs2]; try done.
  { intros m Hm. apply Hleaf. by right. }
  { intros p [= <-]. set_solver. }
  rewrite exit_txs_cons, app_assoc. split.
  - by apply parents_first_app.
  - intros x Hx. apply Hs2. rewrite fmap_cons in Hx. set_solver.
Qed.

(** ** Every leaf exits with its refund *)

(** The refund of every requested leaf whose transaction is checked has been bumped. *)
Definition refunded (tree : gmap TreeNodeId TreeNode) (leaf_ids : list TreeNodeId)
    (checked : gset Txid) (pre : list Tx) : Prop :=
  ∀ n refund, tree !! tn_id n = Some n → tn_id n ∈ leaf_ids → node_txid n ∈ checked →
    refund_tx n = Some refund → refund ∈ pre.

(** The nodes have transactions of their own, and no requested leaf is a parent. *)
Definition separate (tree : gmap TreeNodeId TreeNode) (leaf_ids : list TreeNodeId) : Prop :=
  (∀ id n, tree !! id = Some n → tn_id n = id) ∧
  (∀ a b, tree !! tn_id a = Some a → tree !! tn_id b = Some b → node_txid a = node_txid b → a = b) ∧
  (∀ c id, tree !! tn_id c = Some c → parent_node_id c = Some id → id ∉ leaf_ids).

Lemma exit_txs_refunded tree leaf_ids leaf_id refund nodes checked pre :
  separate tree leaf_ids → refunded tree leaf_ids checked pre →
  (∀ n, n ∈ nodes → tree !! tn_id n = Some n ∧ (tn_id n ∈ leaf_ids → tn_id n = leaf_id) ∧
     (tn_id n = leaf_id → refund_tx n = Some refund)) →
  refunded tree leaf_ids (list_to_set (node_txid <$> nodes) ∪ checked)
    (pre ++ exit_txs leaf_id refund checked nodes).
Proof.
  intros (Hkey & Hinj & _) Hr. revert checked pre Hr.
  induction nodes as [|n nodes IH]; intros checked pre Hr Hn.
  { simpl. rewrite app_nil_r. by replace (∅ ∪ checked) with checked by set_solver. }
  rewrite exit_txs_cons, app_assoc.
  replace (list_to_set (node_txid <$> (n :: nodes)) ∪ checked)
    with (list_to_set (node_txid <$> nodes) ∪ ({[node_txid n]} ∪ checked)) by set_solver.
  apply IH; [|intros m Hm; apply Hn; by right].
  destruct (Hn n ltac:(by left)) as (Ht & Hl & Href).
  intros m r Hm Hmid Hx Hmr. apply elem_of_app. simpl. rewrite app_nil_r. fold (node_txid n).
  case_bool_decide as Hin.
  - left. apply (Hr m); try done.
    apply elem_of_union in Hx as [Heq%elem_of_singleton|]; [by rewrite Heq|done].
  - apply elem_of_union in Hx as [->%elem_of_singleton%(Hinj m n)|Hx]; [|done..|left; by eapply Hr].
    right. rewrite bool_decide_eq_true_2 by auto. rewrite Href in Hmr by auto. set_solver.
Qed.

Definition keyed (tree : gmap TreeNodeId TreeNode) : Prop := ∀ id n, tree !! id = Some n → tn_id n = id.

(** The nodes of a path are nodes of the tree, and only its last is a requested leaf. *)
Lemma path_nodes tree leaf_ids leaf_id node up :
  keyed tree → tree !! leaf_id = Some node → descent tree None (up ++ [node]) →
  ∀ n, n ∈ up ++ [node] → tree !! tn_id n = Some n ∧
    (separate tree leaf_ids → tn_id n ∈ leaf_ids → tn_id n = leaf_id) ∧
    (tn_id n = leaf_id → n = node).
Proof.
  intros Hkey Hl Hd n Hn.
  assert (∀ m, m ∈ up ++ [node] → tree !! tn_id m = Some m) as Hin.
  { intros m Hm. destruct (descent_in_tree _ _ _ _ Hd Hm) as [Hlast|(c & id & _ & _ & Hm')].
    - rewrite last_snoc in Hlast. injection Hlast as <-. by rewrite (Hkey _ _ Hl).
    - by rewrite (Hkey _ _ Hm'). }
  split_and!; [by apply Hin| |].
  - intros (_ & _ & Hsep) Hreq.
    destruct (descent_in_tree _ _ _ _ Hd Hn) as [Hlast|(c & id & Hc & Hid & Hn')].
    + rewrite last_snoc in Hlast. injection Hlast as <-. by apply Hkey.
    + apply Hkey in Hn' as <-. by destruct (Hsep c (tn_id n) (Hin c Hc) Hid).
  - intros Hid. specialize (Hin n Hn). rewrite Hid in Hin. congruence.
Qed.

(** What has been done for [ids], after the transactions [pre]. *)
Definition leaves_exited (tree : gmap TreeNodeId TreeNode) (leaf_ids ids : list TreeNodeId)
    (fee_rate : Z) (pk : SecpPublicKey) (st : ExitState) (pre : list Tx) (l : list TxCpfpPsbt)
    (st' : ExitState) : Prop :=
  let txs := parent_tx <$> l in
  paid_for fee_rate pk st l st' ∧ parents_first tree pre txs ∧
  checked_txs st ⊆ checked_txs st' ∧ seen (checked_txs st') (pre ++ txs) ∧
  (separate tree leaf_ids → refunded tree leaf_ids (checked_txs st') (pre ++ txs)) ∧
  ∀ id, id ∈ ids → ∃ n refund, tree !! id = Some n ∧ refund_tx n = Some refund ∧
    node_txid n ∈ checked_txs st'.

Lemma exit_leaf_ok fuel tree leaf_ids fee_rate pk leaf_id st pre package st' :
  exit_leaf fuel tree fee_rate leaf_id st = Some (Ok (package, st')) →
  keyed tree → seen (checked_txs st) pre →
  (separate tree leaf_ids → refunded tree leaf_ids (checked_txs st) pre) →
  lp_leaf_id package = leaf_id ∧
  leaves_exited tree leaf_ids [leaf_id] fee_rate pk st pre (tx_cpfp_psbts package) st'.
Proof.
  unfold exit_leaf. intros H Hkey Hseen Href.
  destruct (tree !! leaf_id) as [node|] eqn:Hl; [|done].
  destruct (refund_tx node) as [refund|] eqn:Hrefund; [|done].
  destruct (ancestors fuel tree node []) as [r|] eqn:Hanc; [|done]. simpl in H. injection H as H.
  apply rbind_ok in H as (nodes & ->%throws_ok & H).
  apply ancestors_ok in Hanc as (up & -> & Hd); [|done].
  apply rbind_ok in H as ([l st1] & H & [= <- <-]). simpl.
  apply (exit_nodes_ok _ pk) in H as (F & T & C).
  pose proof (path_nodes tree leaf_ids leaf_id node up Hkey Hl Hd) as Hpath.
  destruct (exit_txs_ordered tree None leaf_id refund (up ++ [node]) (checked_txs st) pre)
    as [Hord Hseen']; try done.
  { intros n Hn. destruct (Hpath n Hn) as (Htree & _ & Heq). split; [done|]. intros Hid. by rewrite (Heq Hid). }
  unfold leaves_exited. rewrite T, C. split_and!; try done; [set_solver| |].
  - intros Hsep. apply exit_txs_refunded; [done|by apply Href|].
    intros n Hn. destruct (Hpath n Hn) as (Hn1 & Hn2 & Hn3).
    split_and!; [done|by apply Hn2|]. intros Hid. by rewrite (Hn3 Hid).
  - intros id ->%list_elem_of_singleton. exists node, refund. split_and!; [done..|].
    apply elem_of_union. left. apply elem_of_list_to_set, list_elem_of_fmap_2. set_solver.
Qed.

Lemma exit_leaves_ok fuel tree leaf_ids fee_rate pk ids st pre packages st' :
  exit_leaves fuel tree fee_rate ids st = Some (Ok (packages, st')) →
  keyed tree → seen (checked_txs st) pre →
  (separate tree leaf_ids → refunded tree leaf_ids (checked_txs st) pre) →
  lp_leaf_id <$> packages = ids ∧
  leaves_exited tree leaf_ids ids fee_rate pk st pre (flat_map tx_cpfp_psbts packages) st'.
Proof.
  revert st pre packages. induction ids as [|id ids IH]; intros st pre packages; cbn [exit_leaves].
  { intros [= <- <-] Hkey Hs Hr. unfold leaves_exited. simpl. rewrite app_nil_r.
    split_and!; try done. set_solver. }
  intros H Hkey Hs Hr.
  destruct (exit_leaf fuel tree fee_rate id st) as [[[package st1]|e]|] eqn:H1; try done.
  simpl in H. destruct (exit_leaves fuel tree fee_rate ids st1) as [r|] eqn:H2; [|done].
  simpl in H. injection H as H. apply rbind_ok in H as ([rest st2] & -> & [= <- <-]).
  apply (exit_leaf_ok _ _ leaf_ids _ pk _ _ pre) in H1 as (<- & P1 & O1 & C1 & S1 & R1 & D1);
    try done.
  apply (IH _ (pre ++ (parent_tx <$> tx_cpfp_psbts package))) in H2
    as (<- & P2 & O2 & C2 & S2 & R2 & D2); try done.
  simpl. split; [done|]. unfold leaves_exited. simpl. rewrite fmap_app.
  rewrite parents_first_app, app_assoc. split_and!; try done; [by eapply paid_for_trans|by etrans|].
  intros i [->|Hi]%elem_of_cons; [|by apply D2].
  destruct (D1 (lp_leaf_id package)) as (n & refund & ? & ? & ?); [by left|].
  exists n, refund. split_and!; [done..|by apply C2].
Qed.

Lemma index_nodes_keyed nodes : keyed (index_nodes nodes).
Proof.
  unfold index_nodes. assert (∀ m, keyed m → keyed (foldl (λ m n, <[tn_id n := n]> m) m nodes)) as H.
  { induction nodes as [|n nodes IH]; intros m Hm; [done|]. simpl. apply IH.
    intros id x [[<- <-]|[_ Hx]]%lookup_insert_Some; [done|by apply Hm]. }
  apply H. done.
Qed.

(** The price of an exit. *)
Lemma funded_cost fee_rate us pk l e :
  funded fee_rate us pk l → last l = Some e →
  cu_value (change_of pk e)
  = utxo_total us - fee_rate * (child_size (length us) + 150 * (Z.of_nat (length l) - 1)).
Proof.
  revert us. induction l as [|x l IH]; intros us; [done|]. intros [Hx Hl].
  destruct Hx as (v & _ & _ & _ & Hout & _). destruct l as [|y l].
  - intros [= <-]. unfold change_of. simpl. rewrite Hout. simpl. lia.
  - rewrite last_cons_cons. intros Hlast. rewrite (IH _ Hl Hlast).
    unfold utxo_total at 1. unfold change_of. simpl. rewrite Hout. simpl.
    unfold child_size. simpl length. lia.
Qed.

(** ** Termination *)

(** The levels of a tree: a parent is on a lower level than its children. *)
Definition levelled (tree : gmap TreeNodeId TreeNode) (level : TreeNode → nat) : Prop :=
  ∀ k n id p, tree !! k = Some n → parent_node_id n = Some id → tree !! id = Some p →
    (level p < level n)%nat.

Lemma ancestors_terminates tree level fuel k node acc :
  levelled tree level → tree !! k = Some node → (level node < fuel)%nat →
  is_Some (ancestors fuel tree node acc).
Proof.
  intros Hlev. revert k node acc. induction fuel as [|fuel IH]; intros k node acc Hk Hf; [lia|].
  cbn [ancestors]. destruct (parent_node_id node) as [id|] eqn:Hid; [|by eexists].
  destruct (tree !! id) as [p|] eqn:Hp; [|by eexists]. eapply IH; [exact Hp|].
  specialize (Hlev _ _ _ _ Hk Hid Hp). lia.
Qed.

(** A node that is its own parent: the walk never ends. *)
Lemma cycle_never_ends tree node id fuel acc :
  parent_node_id node = Some id → tree !! id = Some node → ancestors fuel tree node acc = None.
Proof.
  intros Hid Hl. revert acc. induction fuel as [|fuel IH]; intros acc; cbn [ancestors]; [done|].
  by rewrite Hid, Hl.
Qed.

Lemma exit_leaves_terminates tree level fuel fee_rate ids st :
  levelled tree level → (∀ id n, tree !! id = Some n → (level n < fuel)%nat) →
  is_Some (exit_leaves fuel tree fee_rate ids st).
Proof.
  intros Hlev Hf. revert st. induction ids as [|id ids IH]; intros st; cbn [exit_leaves]; [by eexists|].
  assert (is_Some (exit_leaf fuel tree fee_rate id st)) as [r ->].
  { unfold exit_leaf. destruct (tree !! id) as [n|] eqn:Hn; [|by eexists].
    destruct (refund_tx n); [|by eexists].
    destruct (ancestors_terminates tree level fuel id n [] Hlev Hn) as [r ->];
      [by eapply Hf|by eexists]. }
  simpl. destruct r as [[package st1]|e]; [|by eexists]. destruct (IH st1) as [r ->]. by eexists.
Qed.

Section theorems.
Context {W ProtoNode : Type}.
Context (query_nodes : list string → Z → Z → SE W OtherError (list ProtoNode * Z)).
Context (node_try_from : ProtoNode → result TreeNode ServiceError) (debug_error : ServiceError → string).

(** C18: a unilateral exit that succeeds returns, for the leaves in their order, child
    transactions that can be broadcast one after the other. Each bumps the transaction of a node
    of the tree that the operators were queried for, a root or a node whose parent's transaction
    comes earlier, or the refund of the node right before; every leaf's transaction is there;
    its refund too, when the nodes have transactions of their own and no requested leaf is the
    parent of another node. When the values of the UTXOs and the fee of the first child fit in
    64 bits (affordable; beyond that the release build wraps and nothing is said), the first child
    spends the given UTXOs, every further one the change of the one before, each with the anchor
    of its parent transaction and for a fee of [fee_rate] per estimated vbyte, so the whole exit
    costs [fee_rate * (68 * n + 82 + 150 * (k - 1))] for [n] UTXOs and [k] transactions. *)
Theorem unilateral_exit_package page_fuel fuel fee_rate leaf_ids us w w' packages :
  unilateral_exit query_nodes node_try_from debug_error page_fuel fuel fee_rate leaf_ids us w
    = (w', Some (Ok packages)) →
  ∃ nodes pk,
    fetch_leaves_parents query_nodes node_try_from debug_error page_fuel leaf_ids w
      = (w', Some (Ok nodes)) ∧
    cu_pubkey <$> head us = Some pk ∧
    let tree := index_nodes nodes in
    let all := flat_map tx_cpfp_psbts packages in
    let txs := parent_tx <$> all in
    lp_leaf_id <$> packages = leaf_ids ∧ parents_first tree [] txs ∧
    (∀ id, id ∈ leaf_ids → ∃ n refund, tree !! id = Some n ∧ refund_tx n = Some refund ∧
       node_txid n ∈ compute_txid <$> txs ∧ (separate tree leaf_ids → refund ∈ txs)) ∧
    (affordable fee_rate us →
       funded fee_rate us pk all ∧
       ∀ e, last all = Some e → cu_value (change_of pk e)
         = utxo_total us - fee_rate * (child_size (length us) + 150 * (Z.of_nat (length all) - 1))).
Proof.
  unfold unilateral_exit. case_bool_decide; [done|]. case_bool_decide; [done|].
  destruct (fetch_leaves_parents _ _ _ _ _ _) as [w1 [[nodes|e]|]] eqn:Hfetch; try done.
  destruct (exit_leaves _ _ _ _ _) as [r|] eqn:Hexit; simpl; [|done].
  intros [= <- Hr]. apply rbind_ok in Hr as ([ps st'] & -> & [= <-]).
  destruct us as [|first rest] eqn:Hus; [done|]. rewrite <- Hus in *.
  assert (cu_pubkey <$> head us = Some (cu_pubkey first)) as Hpk by by rewrite Hus.
  exists nodes, (cu_pubkey first). split; [done|split; [done|]].
  pose proof (index_nodes_keyed nodes) as Hkey.
  apply (exit_leaves_ok _ _ leaf_ids _ (cu_pubkey first) _ _ []) in Hexit
    as (Hids & P & O & _ & S & R & D); try done.
  simpl in *. split_and!; try done.
  - intros id Hid. destruct (D id Hid) as (n & refund & Hn & Href & Hin).
    exists n, refund. split_and!; [done..|by apply S|]. intros Hsep.
    apply (R Hsep n); try done; by rewrite (Hkey _ _ Hn).
  - intros Haff. destruct P as (F & _ & _); [by split|]. split; [done|]. intros e He. by eapply funded_cost.
Qed.

(** a unilateral exit ends: with pages that increase, and parents on lower levels than
    their children, some fuel is enough -- as much as the tree has levels. *)
Theorem unilateral_exit_terminates fuel level fee_rate leaf_ids us w :
  (∀ f s s' r n, fetch_leaves_parents_inner query_nodes node_try_from debug_error leaf_ids f s
     = (s', Ok r) → next r = Some n → in_u 64 (offset n)) →
  (∀ nodes w', fetch_leaves_parents query_nodes node_try_from debug_error
       (pager_fuel PagingFilter_default) leaf_ids w = (w', Some (Ok nodes)) →
     levelled (index_nodes nodes) level ∧
     ∀ id n, index_nodes nodes !! id = Some n → (level n < fuel)%nat) →
  ∃ r, (unilateral_exit query_nodes node_try_from debug_error (pager_fuel PagingFilter_default) fuel
          fee_rate leaf_ids us w).2 = Some r.
Proof.
  intros Hpages Hlev. unfold unilateral_exit.
  case_bool_decide; [by eexists|]. case_bool_decide; [by eexists|].
  destruct (fetch_leaves_parents _ _ _ _ _ _) as [w1 [[nodes|e]|]] eqn:Hfetch; [|by eexists|].
  - destruct (Hlev _ _ eq_refl) as [Hl Hf].
    destruct (exit_leaves_terminates _ level fuel fee_rate leaf_ids
      {| utxos := us; checked_txs := ∅ |} Hl Hf) as [r ->]. by eexists.
  - exfalso. unfold fetch_leaves_parents in Hfetch. case_bool_decide; [done|].
    assert (in_u 64 (offset PagingFilter_default)) as Hoff by (split; [done|reflexivity]).
    destruct (pager_terminates _ PagingFilter_default w Hpages Hoff) as [r Hr].
    destruct (pager _ _ _ w) as [w2 o]. cbn [snd] in Hr. subst o. discriminate Hfetch.
Qed.
End theorems.
End exit.

(** ** Examples *)

Definition example_psbt (tx : Tx (bt := example_bitcoin)) : result (Psbt (bt := example_bitcoin)) string :=
  Ok {| unsigned_tx := tx; psbt_inputs := replicate (length (input tx)) PsbtInput_default;
        psbt_outputs := replicate (length (output tx)) tt |}.

Lemma example_psbt_spec tx p :
  example_psbt tx = Ok p →
  unsigned_tx p = tx ∧ psbt_inputs p = replicate (length (input tx)) PsbtInput_default ∧
  psbt_outputs p = replicate (length (output tx)) tt.
Proof. intros [= <-]. done. Qed.

Definition example_root := example_node "root" None (example_tx 1 5 1000) None None.
Definition example_leaf_node :=
  example_node "leaf" (Some "root") (example_tx 2 6 1000) (Some (example_tx 3 7 1000)) None.

Definition example_reply : list (TreeNode (ext := @bitcoin_externals example_bitcoin)) :=
  [example_leaf_node; example_root].

Definition example_utxo (amount : Z) : CpfpUtxo (bt := example_bitcoin) :=
  {| cu_txid := (77 : Txid (BitcoinTypes := example_bitcoin)); cu_vout := 1; cu_value := amount;
     cu_pubkey := (8 : SecpPublicKey (BitcoinTypes := example_bitcoin)) |}.

Definition example_query : list string → Z → Z →
    SE nat (OtherError (BitcoinTypes := example_bitcoin)) (list (TreeNode (ext := @bitcoin_externals example_bitcoin)) * Z) :=
  λ _ _ _, se_ret (example_reply, 0).

Definition example_unilateral_exit :=
  unilateral_exit (bo := example_bitcoin_ops) example_psbt Regtest example_query (λ n, Ok n) (λ _, "")
    2 3 10 ["leaf"] [example_utxo 3000; example_utxo 4000] O.

Lemma unilateral_exit_package_witness :
  ∃ w packages nodes pk, example_unilateral_exit = (w, Some (Ok packages)) ∧
    length (flat_map tx_cpfp_psbts packages) = 3%nat ∧
    parents_first (bo := example_bitcoin_ops) (index_nodes nodes) []
      (parent_tx <$> flat_map tx_cpfp_psbts packages) ∧
    funded (bo := example_bitcoin_ops) Regtest 10 [example_utxo 3000; example_utxo 4000] pk
      (flat_map tx_cpfp_psbts packages).
Proof.
  assert (match example_unilateral_exit with
          | (_, Some (Ok ps)) => length (flat_map tx_cpfp_psbts ps) | _ => O end = 3%nat)
    as Hlen by (vm_compute; reflexivity).
  destruct example_unilateral_exit as [w [[packages|e]|]] eqn:H; try discriminate Hlen.
  destruct (unilateral_exit_package (bo := example_bitcoin_ops) example_psbt Regtest example_psbt_spec
    _ _ _ _ _ _ _ _ _ _ _ H) as (nodes & pk & _ & _ & _ & Hfirst & _ & Hfunded).
  exists w, packages, nodes, pk. split; [reflexivity|]. split; [exact Hlen|]. split; [exact Hfirst|]. apply Hfunded.
  repeat split; try lia; try (vm_compute; reflexivity); [|discriminate].
  repeat constructor; vm_compute; discriminate.
Defined.

Definition example_level (n : TreeNode (ext := @bitcoin_externals example_bitcoin)) : nat :=
  match parent_node_id n with None => 0 | Some _ => 1 end.

Lemma unilateral_exit_terminates_witness :
  ∃ r, (unilateral_exit (bo := example_bitcoin_ops) example_psbt Regtest example_query (λ n, Ok n)
          (λ _, "") (pager_fuel PagingFilter_default) 2 10 ["leaf"] [example_utxo 3000] O).2 = Some r.
Proof.
  apply (unilateral_exit_terminates (bo := example_bitcoin_ops) example_psbt Regtest
           example_query (λ n, Ok n) (λ _, "") 2 example_level).
  - intros f s s' r n [= <- <-]. discriminate.
  - intros nodes w' H. unfold fetch_leaves_parents, pager in H.
    destruct (pager_fuel PagingFilter_default) as [|k]; [discriminate H|].
    cbn in H. injection H as _ <-.
    assert (∀ id n, index_nodes example_reply !! id = Some n →
              id = "leaf" ∧ n = example_leaf_node ∨ id = "root" ∧ n = example_root) as Hall.
    { intros id n Hn. change (index_nodes example_reply) with
        (<["root" := example_root]> (<["leaf" := example_leaf_node]> (∅ : gmap string _))) in Hn.
      apply lookup_insert_Some in Hn as [[<- <-]|[_ Hn]]; [by right|].
      apply lookup_insert_Some in Hn as [[<- <-]|[_ Hn]]; [by left|discriminate Hn]. }
    split.
    + intros k' n id p Hn Hid Hp. apply Hall in Hn as [[_ ->]|[_ ->]]; [|discriminate Hid].
      injection Hid as <-. apply Hall in Hp as [[? ->]|[_ ->]]; [discriminate|]. cbn. lia.
    + intros id n [[_ ->]|[_ ->]]%Hall; cbn; lia.
Defined.
