(* ===== verification/Payments.v ===== *)
(** The payments of the SDK: their data and texts ([crates/breez-sdk/core/src/models/mod.rs],
    [token_conversion/models.rs]), the conversion of a transfer of the wallet into a payment
    ([models/adaptors.rs]) and of a token transaction into payments ([utils/token.rs]).
    Invoice parsing, keys and LNURL contents are parameters. *)
From Stdlib Require Import Ascii.
From stdpp Require Import base list strings pretty sorting.
From S2P Require Import Prelude Timelocks TreeTypes Transactions TokenStore.

(** ** Texts

    [str::to_lowercase]: the texts compared here have no letter that a character outside
    ASCII lowers to, so the ASCII letters decide. *)
Definition to_lower_ascii (c : ascii) : ascii :=
  let n := Ascii.N_of_ascii c in
  if ((65 <=? n) && (n <=? 90))%N then Ascii.ascii_of_N (n + 32) else c.

Fixpoint to_lowercase (s : string) : string :=
  match s with
  | EmptyString => EmptyString
  | String c s => String (to_lower_ascii c) (to_lowercase s)
  end.

Inductive PaymentType : Type := Send | Receive.

Definition PaymentType_fmt (t : PaymentType) : string :=
  match t with Send => "send" | Receive => "receive" end.

Definition PaymentType_from_str (s : string) : result PaymentType string :=
  let l := to_lowercase s in
  if String.eqb l "receive" then Ok Receive
  else if String.eqb l "send" then Ok Send
  else Err ("invalid payment type '" +:+ s +:+ "'").

Inductive PaymentStatus : Type := Completed | Pending | Failed.

Definition is_final (s : PaymentStatus) : bool :=
  match s with Completed | Failed => true | Pending => false end.

Definition PaymentStatus_fmt (s : PaymentStatus) : string :=
  match s with Completed => "completed" | Pending => "pending" | Failed => "failed" end.

Definition PaymentStatus_from_str (s : string) : result PaymentStatus string :=
  let l := to_lowercase s in
  if String.eqb l "completed" then Ok Completed
  else if String.eqb l "pending" then Ok Pending
  else if String.eqb l "failed" then Ok Failed
  else Err ("Invalid payment status '" +:+ s +:+ "'").

Inductive PaymentMethod : Type :=
| Lightning | Spark | Token | Deposit | Withdraw | UnknownMethod.

Definition PaymentMethod_fmt (m : PaymentMethod) : string :=
  match m with
  | Lightning => "lightning" | Spark => "spark" | Token => "token"
  | Deposit => "deposit" | Withdraw => "withdraw" | UnknownMethod => "unknown"
  end.

Definition PaymentMethod_from_str (s : string) : result PaymentMethod () :=
  if String.eqb s "lightning" then Ok Lightning
  else if String.eqb s "spark" then Ok Spark
  else if String.eqb s "token" then Ok Token
  else if String.eqb s "deposit" then Ok Deposit
  else if String.eqb s "withdraw" then Ok Withdraw
  else if String.eqb s "unknown" then Ok UnknownMethod
  else Err ().

Inductive TokenTransactionType : Type := TransferTx | MintTx | BurnTx.

Definition TokenTransactionType_fmt (t : TokenTransactionType) : string :=
  match t with TransferTx => "transfer" | MintTx => "mint" | BurnTx => "burn" end.

Definition TokenTransactionType_from_str (s : string) : result TokenTransactionType string :=
  let l := to_lowercase s in
  if String.eqb l "transfer" then Ok TransferTx
  else if String.eqb l "mint" then Ok MintTx
  else if String.eqb l "burn" then Ok BurnTx
  else Err ("Invalid token transaction type '" +:+ s +:+ "'").

Inductive SparkHtlcStatus : Type := WaitingForPreimage | PreimageShared | HtlcReturned.

Definition SparkHtlcStatus_fmt (s : SparkHtlcStatus) : string :=
  match s with
  | WaitingForPreimage => "WaitingForPreimage" | PreimageShared => "PreimageShared"
  | HtlcReturned => "Returned"
  end.

Definition SparkHtlcStatus_from_str (s : string) : result SparkHtlcStatus string :=
  if String.eqb s "WaitingForPreimage" then Ok WaitingForPreimage
  else if String.eqb s "PreimageShared" then Ok PreimageShared
  else if String.eqb s "Returned" then Ok HtlcReturned
  else Err "Invalid Spark HTLC status".

Inductive ConversionStatus : Type :=
| ConversionPending | ConversionCompleted | ConversionFailed | RefundNeeded | Refunded.

Definition ConversionStatus_fmt (s : ConversionStatus) : string :=
  match s with
  | ConversionPending => "pending" | ConversionCompleted => "completed"
  | ConversionFailed => "failed" | RefundNeeded => "refund_needed" | Refunded => "refunded"
  end.

Definition ConversionStatus_from_str (s : string) : result ConversionStatus string :=
  if String.eqb s "pending" then Ok ConversionPending
  else if String.eqb s "completed" then Ok ConversionCompleted
  else if String.eqb s "failed" then Ok ConversionFailed
  else if String.eqb s "refund_needed" then Ok RefundNeeded
  else if String.eqb s "refunded" then Ok Refunded
  else Err ("Invalid conversion status '" +:+ s +:+ "'").

Inductive Network : Type := Mainnet | Regtest.

Definition Network_fmt (n : Network) : string :=
  match n with Mainnet => "Mainnet" | Regtest => "Regtest" end.

Definition Network_from_str (s : string) : result Network string :=
  if String.eqb s "mainnet" then Ok Mainnet
  else if String.eqb s "regtest" then Ok Regtest
  else Err "Invalid network".

#[export] Instance PaymentType_eq_dec : EqDecision PaymentType.
Proof. solve_decision. Defined.
#[export] Instance PaymentStatus_eq_dec : EqDecision PaymentStatus.
Proof. solve_decision. Defined.
#[export] Instance PaymentMethod_eq_dec : EqDecision PaymentMethod.
Proof. solve_decision. Defined.
#[export] Instance TokenTransactionType_eq_dec : EqDecision TokenTransactionType.
Proof. solve_decision. Defined.
#[export] Instance SparkHtlcStatus_eq_dec : EqDecision SparkHtlcStatus.
Proof. solve_decision. Defined.
#[export] Instance ConversionStatus_eq_dec : EqDecision ConversionStatus.
Proof. solve_decision. Defined.

(** ** Details *)

(** Keys, the LNURL contents of a payment, the leaves of a transfer. *)
Class PaymentTypes := {
  Key : Type;
  LnurlPayInfo : Type;
  WalletTransferLeaf : Type;
  TokenMintInput : Type;
  TokenCreateInput : Type;
  Key_eq_dec :: EqDecision Key
}.

Inductive ConversionPurpose : Type :=
| OngoingPayment (payment_request : string)
| SelfTransfer
| AutoConversion.

Inductive AmountAdjustmentReason : Type := FlooredToMinLimit | IncreasedToAvoidDust.

Record ConversionInfo : Type := {
  ci_pool_id : string;
  conversion_id : string;
  ci_status : ConversionStatus;
  ci_fee : option Z;
  purpose : option ConversionPurpose;
  ci_amount_adjustment : option AmountAdjustmentReason
}.

Record TokenMetadata : Type := {
  md_identifier : string;
  md_issuer_public_key : string;
  md_name : string;
  md_ticker : string;
  md_decimals : Z;
  md_max_supply : Z;
  md_is_freezable : bool
}.

Record SparkInvoicePaymentDetails : Type := {
  sip_description : option string;
  sip_invoice : string
}.

Record SparkHtlcDetails : Type := {
  payment_hash : string;
  preimage : option string;
  expiry_time : Z;
  htlc_status : SparkHtlcStatus
}.

Record LnurlWithdrawInfo : Type := { withdraw_url : string }.

Record LnurlReceiveMetadata : Type := {
  nostr_zap_request : option string;
  nostr_zap_receipt : option string;
  sender_comment : option string
}.

Section data.
Context {pt : PaymentTypes}.

Inductive PaymentDetails : Type :=
| SparkDetails (invoice_details : option SparkInvoicePaymentDetails)
    (htlc_details : option SparkHtlcDetails) (conversion_info : option ConversionInfo)
| TokenDetails (metadata : TokenMetadata) (tx_hash : string) (tx_type : TokenTransactionType)
    (invoice_details : option SparkInvoicePaymentDetails) (conversion_info : option ConversionInfo)
| LightningDetails (description : option string) (invoice destination_pubkey : string)
    (htlc_details : SparkHtlcDetails) (lnurl_pay_info : option LnurlPayInfo)
    (lnurl_withdraw_info : option LnurlWithdrawInfo)
    (lnurl_receive_metadata : option LnurlReceiveMetadata)
| WithdrawDetails (tx_id : string)
| DepositDetails (tx_id : string).

Record ConversionStep : Type := {
  cs_payment_id : string;
  cs_amount : Z;
  cs_fee : Z;
  cs_method : PaymentMethod;
  cs_token_metadata : option TokenMetadata;
  cs_amount_adjustment : option AmountAdjustmentReason
}.

Record ConversionDetails : Type := {
  cd_status : ConversionStatus;
  cd_from : option ConversionStep;
  cd_to : option ConversionStep
}.

(** Amounts and fees are [u128], the timestamp is in seconds. *)
Record Payment : Type := {
  p_id : string;
  payment_type : PaymentType;
  p_status : PaymentStatus;
  amount : Z;
  fees : Z;
  timestamp : Z;
  p_method : PaymentMethod;
  details : option PaymentDetails;
  conversion_details : option ConversionDetails
}.
End data.

Inductive Fee : Type := FixedFee (amount : Z) | RateFee (sat_per_vbyte : Z).

(** The errors of [error.rs] these parts make or pass on. *)
Inductive SdkError : Type :=
| SparkError (s : string)
| SdkInsufficientFunds
| InvalidUuid (s : string)
| InvalidInput (s : string)
| NetworkError (s : string)
| SdkStorageError (s : string)
| ChainServiceError (s : string)
| MaxDepositClaimFeeExceeded (tx : string) (vout : Z) (max_fee : option Fee)
    (required_fee_sats required_fee_rate_sat_per_vbyte : Z)
| MissingUtxo (tx : string) (vout : Z)
| LnurlError (s : string)
| SdkSigner (s : string)
| SdkGeneric (s : string).

(** ** Transfers of the wallet

    [spark-wallet/src/model.rs], [spark/src/services/models.rs] and the requests of
    [spark/src/ssp], of which the fields that become a payment are kept.  A
    [SystemTime] is in nanoseconds since the epoch, negative before it; an identifier of
    a transfer is the text of its UUID. *)

Inductive TransferStatus : Type :=
| SenderInitiated | SenderKeyTweakPending | SenderKeyTweaked | ReceiverKeyTweaked
| ReceiverRefundSigned | TransferCompleted | TransferExpired | TransferReturned
| SenderInitiatedCoordinator | ReceiverKeyTweakLocked | ReceiverKeyTweakApplied
| ApplyingSenderKeyTweak.

Inductive TransferType : Type :=
| PreimageSwap | CooperativeExit | PlainTransfer | UtxoSwap | Swap | CounterSwap
| PrimarySwapV3 | CounterSwapV3.

Inductive TransferDirection : Type := Incoming | Outgoing.

#[export] Instance TransferStatus_eq_dec : EqDecision TransferStatus.
Proof. solve_decision. Defined.
#[export] Instance TransferType_eq_dec : EqDecision TransferType.
Proof. solve_decision. Defined.
#[export] Instance TransferDirection_eq_dec : EqDecision TransferDirection.
Proof. solve_decision. Defined.

Inductive CurrencyUnit : Type :=
| Bitcoin | Satoshi | Millisatoshi | Usd | Mxn | Php | Eur | Gbp | Inr | Brl | Cad | Dkk | Hkd
| Idr | Myr | Sgd | Thb | Vnd | Ngn | Zar | Kes | Tzs | Ugx | Bwp | Xof | Xaf | Mwk | Rwf | Zmw
| Aed | Gtq | Usdt | Usdc | UnknownUnit.

Record CurrencyAmount : Type := { original_value : Z; original_unit : CurrencyUnit }.

(** [u64::div_ceil]. *)
Definition as_sats (a : CurrencyAmount) : result Z string :=
  match original_unit a with
  | Millisatoshi => Ok ((original_value a + 999) / 1000)
  | Satoshi => Ok (original_value a)
  | _ => Err "Unsupported currency unit"
  end.

Definition sats_or_zero (a : CurrencyAmount) : Z :=
  match as_sats a with Ok sats => sats | Err _ => 0 end.

Inductive BitcoinNetwork : Type := BitcoinMainnet | BitcoinTestnet | BitcoinSignet | BitcoinRegtest.

(** [From<BitcoinNetwork> for Network] and back. *)
Definition Network_from_bitcoin (n : BitcoinNetwork) : Transactions.Network :=
  match n with
  | BitcoinMainnet => Transactions.Mainnet | BitcoinTestnet => Testnet
  | BitcoinSignet => Signet | BitcoinRegtest => Transactions.Regtest
  end.

Definition BitcoinNetwork_from (n : Transactions.Network) : BitcoinNetwork :=
  match n with
  | Transactions.Mainnet => BitcoinMainnet | Testnet => BitcoinTestnet
  | Signet => BitcoinSignet | Transactions.Regtest => BitcoinRegtest
  end.

Inductive SparkCoopExitRequestStatus : Type :=
| ExitInitiated | CompleteRequestReceived | InboundTransferChecked | TxBroadcasted
| OnChainTxConfirmed | ExitInboundTransferClaimingFailed | ExitSucceeded | ExpiringScheduled
| ExpiringFailed | ExitExpired | FailingScheduled | FailingFailed | ExitFailed | ExitUnknown.

Inductive SparkLeavesSwapRequestStatus : Type :=
| SwapCreated | InboundTransferVerified | InboundTransferVerifyingFailed | OutboundTransferSent
| OutboundTransferSendingFailed | TransfersCompletingScheduled | OutboundTransferCompleted
| OutboundTransferCompletingFailed | InboundTransferClaimingFailed
| RequestFailingFromVerifyingScheduled | RequestFailingFromSendingScheduled
| RequestFailingFromVerifyingFailed | RequestFailingFromSendingFailed | SwapSucceeded | SwapUnknown.

Inductive LightningReceiveRequestStatus : Type :=
| InvoiceCreated | HtlcReceived | TransferCreated | TransferCreationFailed
| PaymentPreimagePending | PaymentPreimageRecovered | PaymentPreimageQueryingFailed
| PaymentPreimageRecoveringFailed | ReceiveTransferCanceled | HtlcFailed
| LightningPaymentReceived | ReceiveTransferFailed | ReceiveTransferCompleted
| RefundSigningCommitmentsQueryingFailed | RefundSigningFailed | ReceiveUnknown.

Inductive LightningSendRequestStatus : Type :=
| RequestCreated | RequestUserTransferValidationFailed | RequestLightningPaymentInitiated
| RequestLightningPaymentFailed | RequestLightningPaymentSucceeded | RequestPreimageProvided
| RequestPreimageProvidingFailed | RequestTransferCompleted | RequestTransferFailed
| RequestPendingUserSwapReturn | RequestUserSwapReturned | RequestUserSwapReturnFailed
| RequestRequestValidated | RequestUnknown.

(** A [DateTime<Utc>] is given by its [timestamp()]. *)
Record LightningInvoice : Type := {
  encoded_invoice : string;
  li_bitcoin_network : BitcoinNetwork;
  li_payment_hash : string;
  li_amount : CurrencyAmount;
  li_created_at : Z;
  invoice_expired_at : Z;
  li_memo : option string
}.

(** [ssp::graphql::models::Transfer]; the request of the user that it answers is not read. *)
Record GraphTransfer : Type := { total_amount : CurrencyAmount; spark_id : option string }.

Record ClaimStaticDepositInfo : Type := {
  deposit_amount : CurrencyAmount;
  credit_amount : CurrencyAmount;
  transaction_id : string
}.

Record CoopExitRequest : Type := {
  cx_id : string;
  cx_created_at : Z;
  cx_updated_at : Z;
  cx_network : BitcoinNetwork;
  cx_fee : CurrencyAmount;
  l1_broadcast_fee : CurrencyAmount;
  exit_status : SparkCoopExitRequestStatus;
  exit_expired_at : Z;
  raw_connector_transaction : string;
  raw_coop_exit_transaction : string;
  coop_exit_txid : string;
  cx_transfer : option GraphTransfer
}.

Record LightningReceiveRequest : Type := {
  lr_id : string;
  lr_created_at : Z;
  lr_updated_at : Z;
  lr_network : BitcoinNetwork;
  lightning_request_status : LightningReceiveRequestStatus;
  lr_invoice : LightningInvoice;
  lr_transfer : option GraphTransfer;
  lightning_receive_payment_preimage : option string
}.

Record LightningSendRequest : Type := {
  ls_id : string;
  ls_created_at : Z;
  ls_updated_at : Z;
  ls_network : BitcoinNetwork;
  ls_encoded_invoice : string;
  ls_fee : CurrencyAmount;
  ls_idempotency_key : string;
  ls_status : LightningSendRequestStatus;
  ls_transfer : option GraphTransfer;
  lightning_send_payment_preimage : option string
}.

Record SwapLeaf : Type := {
  sl_leaf_id : string;
  sl_raw_unsigned_refund_transaction : string;
  adaptor_signed_signature : string
}.

Record LeavesSwapRequest : Type := {
  sw_id : string;
  sw_created_at : Z;
  sw_updated_at : Z;
  sw_network : BitcoinNetwork;
  swap_status : SparkLeavesSwapRequestStatus;
  sw_total_amount : CurrencyAmount;
  target_amount : CurrencyAmount;
  sw_fee : CurrencyAmount;
  inbound_transfer : option GraphTransfer;
  swap_leaves : option (list SwapLeaf);
  outbound_transfer : option GraphTransfer;
  swap_expired_at : option Z
}.

Inductive SspUserRequest : Type :=
| ClaimStaticDeposit (request : ClaimStaticDepositInfo)
| CoopExit (request : CoopExitRequest)
| LeavesSwap (request : LeavesSwapRequest)
| LightningReceive (request : LightningReceiveRequest)
| LightningSend (request : LightningSendRequest).

Inductive PreimageRequestStatus : Type :=
| RequestWaiting | RequestPreimageShared | RequestReturned.

Definition SparkHtlcStatus_from (s : PreimageRequestStatus) : SparkHtlcStatus :=
  match s with
  | RequestWaiting => WaitingForPreimage
  | RequestPreimageShared => PreimageShared
  | RequestReturned => HtlcReturned
  end.

(** Hash and preimage in hexadecimal. *)
Record PreimageRequest : Type := {
  pr_payment_hash : string;
  pr_status : PreimageRequestStatus;
  pr_created_time : Z;
  pr_expiry_time : Z;
  pr_preimage : option string
}.

Section transfers.
Context {pt : PaymentTypes}.

Record WalletTransfer : Type := {
  wt_id : string;
  sender_id : Key;
  receiver_id : Key;
  wt_status : TransferStatus;
  total_value_sat : Z;
  wt_expiry_time : option Z;
  wt_leaves : list WalletTransferLeaf;
  created_at : option Z;
  updated_at : option Z;
  transfer_type : TransferType;
  direction : TransferDirection;
  user_request : option SspUserRequest;
  spark_invoice : option string;
  htlc_preimage_request : option PreimageRequest;
  is_ssp_transfer : bool
}.
End transfers.

(** Bolt11 and Spark invoices, as far as payments use them. *)
Record Bolt11InvoiceDetails : Type := {
  b11_description : option string;
  payee_pubkey : string;
  b11_payment_hash : string
}.

Record SparkInvoiceDetails : Type := {
  sid_invoice : string;
  identity_public_key : string;
  sid_amount : option Z;
  sid_token_identifier : option string;
  sid_expiry_time : option Z;
  sid_description : option string;
  sender_public_key : option string
}.

(** [input::parse_invoice]; [parse_spark_address] with the default source, when it gives a
    Spark invoice; [PublicKey::to_string] and [PublicKey::from_slice]. *)
Class InvoiceParsers {pt : PaymentTypes} := {
  parse_invoice : string → option Bolt11InvoiceDetails;
  parse_spark_invoice : string → option SparkInvoiceDetails;
  key_to_string : Key → string;
  key_from_slice : list Z → option Key
}.

Inductive LightningSendStatus : Type :=
| SendCreated | UserTransferValidationFailed | LightningPaymentInitiated | LightningPaymentFailed
| LightningPaymentSucceeded | PreimageProvided | PreimageProvidingFailed | SendTransferCompleted
| TransferFailed | PendingUserSwapReturn | UserSwapReturned | UserSwapReturnFailed
| RequestValidated | SendUnknown.

(** Times are [i64]s; [TransferId] is the type of the identifiers of transfers. *)
Record LightningSendPayment {TransferId : Type} : Type := {
  lsp_id : string;
  lsp_created_at : Z;
  lsp_updated_at : Z;
  lsp_network : Transactions.Network;
  lsp_encoded_invoice : string;
  fee_sat : Z;
  lsp_idempotency_key : string;
  lsp_status : LightningSendStatus;
  lsp_transfer_id : option TransferId;
  payment_preimage : option string
}.
Arguments LightningSendPayment : clear implicits.

Section adaptors.
Context {pt : PaymentTypes} {ip : InvoiceParsers}.

(** ** A transfer becomes a payment *)

(** [t.duration_since(UNIX_EPOCH)] and [Duration::as_secs]. *)
Definition duration_since_epoch (t : Z) : option Z := if 0 <=? t then Some t else None.
Definition as_secs (nanos : Z) : Z := nanos / 1000000000.

Definition HTLC_DATA_REQUIRED_SINCE : Z := 1769904000.

Definition derive_htlc_details_from_ssp (transfer : WalletTransfer) (hash : string)
    (preimage : option string) : result SparkHtlcDetails SdkError :=
  let cutoff := HTLC_DATA_REQUIRED_SINCE * 1000000000 in
  let is_old := match created_at transfer with None => true | Some t => t <? cutoff end in
  if negb is_old then
    Err (SdkGeneric ("Missing HTLC details for Lightning payment transfer " +:+ wt_id transfer))
  else
    let status :=
      match wt_status transfer with
      | TransferCompleted => PreimageShared
      | TransferExpired | TransferReturned => HtlcReturned
      | _ => WaitingForPreimage
      end in
    Ok {| payment_hash := hash;
          preimage := preimage;
          expiry_time := from_option as_secs 0
                           (t ← wt_expiry_time transfer; duration_since_epoch t);
          htlc_status := status |}.

Definition reconcile_htlc_preimage (details : SparkHtlcDetails) (fallback : option string)
    : SparkHtlcDetails :=
  let preimage := match preimage details with None => fallback | Some p => Some p end in
  {| payment_hash := payment_hash details;
     preimage := preimage;
     expiry_time := expiry_time details;
     htlc_status := match preimage with Some _ => PreimageShared | None => htlc_status details end |}.

Definition SparkHtlcDetails_try_from (value : PreimageRequest) : result SparkHtlcDetails SdkError :=
  let* expiry := ok_or (duration_since_epoch (pr_expiry_time value))
    (SdkGeneric "Invalid expiry time: second time provided was later than self") in
  Ok {| payment_hash := pr_payment_hash value;
        preimage := pr_preimage value;
        expiry_time := as_secs expiry;
        htlc_status := SparkHtlcStatus_from (pr_status value) |}.

Definition PaymentMethod_from_transfer (transfer : WalletTransfer) : PaymentMethod :=
  match transfer_type transfer with
  | PreimageSwap => if is_ssp_transfer transfer then Lightning else Spark
  | CooperativeExit => Withdraw
  | UtxoSwap => Deposit
  | PlainTransfer => Spark
  | _ => UnknownMethod
  end.

Definition SparkInvoicePaymentDetails_from (value : SparkInvoiceDetails)
    : SparkInvoicePaymentDetails :=
  {| sip_description := sid_description value; sip_invoice := sid_invoice value |}.

(** The HTLC of a lightning request: the one of the operator with the preimage of the
    request, or one made up from the request. *)
Definition request_htlc_details (transfer : WalletTransfer) (hash : string)
    (preimage : option string) : result SparkHtlcDetails SdkError :=
  match htlc_preimage_request transfer with
  | Some req =>
      let* details := SparkHtlcDetails_try_from req in
      Ok (reconcile_htlc_preimage details preimage)
  | None => derive_htlc_details_from_ssp transfer hash preimage
  end.

Definition lightning_details (invoice : string) (invoice_details : Bolt11InvoiceDetails)
    (htlc_details : SparkHtlcDetails) : PaymentDetails :=
  LightningDetails (b11_description invoice_details) invoice (payee_pubkey invoice_details)
    htlc_details None None None.

Definition PaymentDetails_from_transfer (transfer : WalletTransfer)
    : result (option PaymentDetails) SdkError :=
  if negb (is_ssp_transfer transfer) then
    match spark_invoice transfer with
    | Some invoice =>
        let* invoice_details := ok_or (parse_spark_invoice invoice)
                                  (SdkGeneric "Invalid spark invoice") in
        Ok (Some (SparkDetails (Some (SparkInvoicePaymentDetails_from invoice_details)) None None))
    | None =>
        match htlc_preimage_request transfer with
        | Some req =>
            let* htlc_details := SparkHtlcDetails_try_from req in
            Ok (Some (SparkDetails None (Some htlc_details) None))
        | None => Ok (Some (SparkDetails None None None))
        end
    end
  else
    match user_request transfer with
    | None => Ok None
    | Some (LightningReceive request) =>
        let* invoice_details := ok_or (parse_invoice (encoded_invoice (lr_invoice request)))
          (SdkGeneric "Invalid invoice in SspUserRequest::LightningReceiveRequest") in
        let* htlc_details := request_htlc_details transfer (li_payment_hash (lr_invoice request))
                               (lightning_receive_payment_preimage request) in
        Ok (Some (lightning_details (encoded_invoice (lr_invoice request)) invoice_details htlc_details))
    | Some (LightningSend request) =>
        let* invoice_details := ok_or (parse_invoice (ls_encoded_invoice request))
          (SdkGeneric "Invalid invoice in SspUserRequest::LightningSendRequest") in
        let* htlc_details := request_htlc_details transfer (b11_payment_hash invoice_details)
                               (lightning_send_payment_preimage request) in
        Ok (Some (lightning_details (ls_encoded_invoice request) invoice_details htlc_details))
    | Some (CoopExit request) => Ok (Some (WithdrawDetails (coop_exit_txid request)))
    | Some (LeavesSwap _) => Ok (Some (SparkDetails None None None))
    | Some (ClaimStaticDeposit request) => Ok (Some (DepositDetails (transaction_id request)))
    end.

(** The status a transfer has by itself. *)
Definition transfer_payment_status (transfer : WalletTransfer) : PaymentStatus :=
  match wt_status transfer with
  | TransferCompleted => Completed
  | SenderKeyTweaked => if bool_decide (direction transfer = Outgoing) then Completed else Pending
  | TransferExpired | TransferReturned => Failed
  | _ => Pending
  end.

(** Status, fee and amount with the request of the service provider. *)
Definition request_amounts (transfer : WalletTransfer) (status : PaymentStatus)
    : PaymentStatus * Z * Z :=
  let total := total_value_sat transfer in
  match user_request transfer with
  | Some (LightningSend r) =>
      let fee_sat := sats_or_zero (ls_fee r) in
      (match lightning_send_payment_preimage r with Some _ => Completed | None => status end,
       fee_sat, saturating_sub total fee_sat)
  | Some (CoopExit r) =>
      let fee_sat := saturating_add 64 (sats_or_zero (cx_fee r)) (sats_or_zero (l1_broadcast_fee r)) in
      (status, fee_sat, saturating_sub total fee_sat)
  | Some (ClaimStaticDeposit r) =>
      (status, saturating_sub (sats_or_zero (deposit_amount r)) (sats_or_zero (credit_amount r)), total)
  | Some _ | None => (status, 0, total)
  end.

Definition Payment_try_from (transfer : WalletTransfer) : result Payment SdkError :=
  if bool_decide (transfer_type transfer ∈ [CounterSwap; CounterSwapV3; Swap; PrimarySwapV3]) then
    Err (SdkGeneric "Swap-related transfers are not considered payments")
  else
    let payment_type := match direction transfer with Incoming => Receive | Outgoing => Send end in
    let status := transfer_payment_status transfer in
    let '(status, fees_sat, amount_sat) := request_amounts transfer status in
    let* details := PaymentDetails_from_transfer transfer in
    let '(status, amount_sat) :=
      match details with
      | Some _ => (status, amount_sat)
      | None =>
          (if bool_decide (status = Completed)
              && bool_decide (transfer_type transfer ∈ [CooperativeExit; PreimageSwap; UtxoSwap])
           then Pending else status,
           total_value_sat transfer)
      end in
    Ok {| p_id := wt_id transfer;
          payment_type := payment_type;
          p_status := status;
          amount := amount_sat;
          fees := fees_sat;
          timestamp := from_option as_secs 0 (t ← created_at transfer; duration_since_epoch t);
          p_method := PaymentMethod_from_transfer transfer;
          details := details;
          conversion_details := None |}.

Definition Payment_from_lightning {TransferId} (payment : LightningSendPayment TransferId) (amount_sat : Z)
    (transfer_id : string) (htlc_details : SparkHtlcDetails) : result Payment SdkError :=
  let status :=
    match lsp_status payment with
    | LightningPaymentSucceeded => Completed
    | LightningPaymentFailed | TransferFailed | PreimageProvidingFailed | UserSwapReturnFailed
    | UserSwapReturned => Failed
    | _ => Pending
    end in
  let status := match payment_preimage payment with Some _ => Completed | None => status end in
  let htlc_details := reconcile_htlc_preimage htlc_details (payment_preimage payment) in
  let* invoice_details := ok_or (parse_invoice (lsp_encoded_invoice payment))
    (SdkGeneric "Invalid invoice in LightnintSendPayment") in
  Ok {| p_id := transfer_id;
        payment_type := Send;
        p_status := status;
        amount := amount_sat;
        fees := fee_sat payment;
        timestamp := wrap 64 (lsp_created_at payment);
        p_method := Lightning;
        details := Some (lightning_details (lsp_encoded_invoice payment) invoice_details htlc_details);
        conversion_details := None |}.

(** ** Conversion steps *)

Definition is_conversion_child (payment : Payment) : bool :=
  match details payment with
  | Some (SparkDetails _ _ (Some _)) | Some (TokenDetails _ _ _ _ (Some _)) => true
  | _ => false
  end.

Definition ConversionStep_try_from (payment : Payment) : result ConversionStep SdkError :=
  let* (info, token_metadata) :=
    match details payment with
    | Some (SparkDetails _ _ (Some info)) => Ok (info, None)
    | Some (TokenDetails metadata _ _ _ (Some info)) => Ok (info, Some metadata)
    | _ => Err (SdkGeneric ("No conversion info available for payment " +:+ p_id payment))
    end in
  Ok {| cs_payment_id := p_id payment;
        cs_amount := amount payment;
        cs_fee := saturating_add 128 (fees payment) (default 0 (ci_fee info));
        cs_method := p_method payment;
        cs_token_metadata := token_metadata;
        cs_amount_adjustment := ci_amount_adjustment info |}.

(** [iter().find(..).map(TryInto::try_into).transpose()]. *)
Definition find_step (t : PaymentType) (payments : list Payment)
    : result (option ConversionStep) SdkError :=
  match List.find (λ p, bool_decide (payment_type p = t)) payments with
  | Some p => let* step := ConversionStep_try_from p in Ok (Some step)
  | None => Ok None
  end.

Definition conversion_steps_from_payments (payments : list Payment)
    : result (option ConversionStep * option ConversionStep) SdkError :=
  let* from := find_step Send payments in
  let* to := find_step Receive payments in
  Ok (from, to).
End adaptors.

(** ** Texts are read back *)

(** the text of a type, status or method is read back as the value it was written from. *)
Lemma payment_texts_roundtrip :
  (∀ t, PaymentType_from_str (PaymentType_fmt t) = Ok t) ∧
  (∀ s, PaymentStatus_from_str (PaymentStatus_fmt s) = Ok s) ∧
  (∀ m, PaymentMethod_from_str (PaymentMethod_fmt m) = Ok m) ∧
  (∀ t, TokenTransactionType_from_str (TokenTransactionType_fmt t) = Ok t) ∧
  (∀ s, SparkHtlcStatus_from_str (SparkHtlcStatus_fmt s) = Ok s) ∧
  (∀ s, ConversionStatus_from_str (ConversionStatus_fmt s) = Ok s).
Proof. split_and!; by intros []. Qed.

Section theorems.
Context {pt : PaymentTypes} {ip : InvoiceParsers}.

(** ** What a payment says of its transfer *)

(** The preimage of a sent lightning payment is known. *)
Definition preimage_known (t : WalletTransfer) : Prop :=
  match user_request t with
  | Some (LightningSend r) => lightning_send_payment_preimage r ≠ None
  | _ => False
  end.

Definition settled (t : WalletTransfer) : Prop :=
  wt_status t = TransferCompleted ∨ (wt_status t = SenderKeyTweaked ∧ direction t = Outgoing)
  ∨ preimage_known t.

Definition returned (t : WalletTransfer) : Prop :=
  wt_status t = TransferExpired ∨ wt_status t = TransferReturned.

(** The sender pays the fee of these on top of what arrives. *)
Definition fee_in_total (t : WalletTransfer) : bool :=
  match user_request t with Some (LightningSend _) | Some (CoopExit _) => true | _ => false end.

(** Amounts are unsigned. *)
Definition request_unsigned (t : WalletTransfer) : Prop :=
  match user_request t with
  | Some (LightningSend r) => 0 ≤ original_value (ls_fee r)
  | Some (CoopExit r) => 0 ≤ original_value (cx_fee r) ∧ 0 ≤ original_value (l1_broadcast_fee r)
  | _ => True
  end.

Lemma sats_or_zero_nonneg a : 0 ≤ original_value a → 0 ≤ sats_or_zero a.
Proof.
  unfold sats_or_zero, as_sats. intros H. destruct (original_unit a); try lia.
  apply Z.div_pos; lia.
Qed.

Lemma request_amounts_ok t status st fee amt :
  request_amounts t status = (st, fee, amt) → 0 ≤ total_value_sat t → request_unsigned t →
  0 ≤ amt ≤ total_value_sat t ∧
  (if fee_in_total t then fee ≤ total_value_sat t → amt + fee = total_value_sat t
   else amt = total_value_sat t) ∧
  (preimage_known t → st = Completed) ∧ (¬ preimage_known t → st = status).
Proof.
  unfold request_amounts, request_unsigned, fee_in_total, preimage_known, saturating_sub.
  pose proof (sats_or_zero_nonneg) as Hs.
  destruct (user_request t) as [[r|r| |r|r]|]; intros [= <- <- <-] Ht Hr; try (split_and!; try done; lia).
  - destruct Hr as [H1 H2]. apply Hs in H1, H2. unfold saturating_add.
    assert (0 ≤ umax 64) by done. split_and!; try done; lia.
  - apply Hs in Hr. split_and!; try lia;
      destruct (lightning_send_payment_preimage r); naive_solver.
Qed.

(** Without details there is no request, so no fee and no preimage. *)
Lemma details_none t : PaymentDetails_from_transfer t = Ok None → user_request t = None.
Proof.
  unfold PaymentDetails_from_transfer. destruct (is_ssp_transfer t); simpl.
  - destruct (user_request t) as [[r|r| |r|r]|]; intros H; try done;
      repeat (apply rbind_ok in H as (? & _ & H)); done.
  - destruct (spark_invoice t); [intros H; by apply rbind_ok in H as (? & _ & H)|].
    destruct (htlc_preimage_request t); [intros H; by apply rbind_ok in H as (? & _ & H)|done].
Qed.

Lemma transfer_status_ok t :
  (transfer_payment_status t = Completed ↔
     wt_status t = TransferCompleted ∨ (wt_status t = SenderKeyTweaked ∧ direction t = Outgoing)) ∧
  (transfer_payment_status t = Failed ↔ returned t).
Proof.
  unfold transfer_payment_status, returned.
  destruct (wt_status t), (direction t); simpl; naive_solver.
Qed.

(** a payment keeps the identifier and the direction of its transfer; with the fee a
    sender pays out of it, its amount is the value of the transfer, and it never exceeds
    it; it is completed only when the transfer is settled (completed, sent with the keys
    tweaked, or paid with a known preimage) and failed only when the transfer came back
    without a preimage; a settled transfer whose request is missing stays pending unless it
    is a plain transfer. *)
Theorem payment_of_transfer t p :
  Payment_try_from t = Ok p → in_u 64 (total_value_sat t) → request_unsigned t →
  p_id p = wt_id t ∧ (payment_type p = Send ↔ direction t = Outgoing) ∧
  0 ≤ amount p ≤ total_value_sat t ∧
  (if fee_in_total t
   then fees p ≤ total_value_sat t → amount p + fees p = total_value_sat t
   else amount p = total_value_sat t) ∧
  (p_status p = Completed ↔
     settled t ∧ (details p = None → transfer_type t = PlainTransfer)) ∧
  (p_status p = Failed ↔ returned t ∧ ¬ preimage_known t).
Proof.
  unfold Payment_try_from. case_bool_decide as Hswap; [done|].
  destruct (request_amounts t (transfer_payment_status t)) as [[st fee] amt] eqn:Hreq.
  intros Hok [Ht _] Hr. apply rbind_ok in Hok as (d & Hd & Hp).
  destruct (request_amounts_ok _ _ _ _ _ Hreq Ht Hr) as (Hamt & Hfee & Hpre & Hst).
  destruct (transfer_status_ok t) as [HC HF].
  assert (preimage_known t ∨ ¬ preimage_known t) as Hk.
  { unfold preimage_known. destruct (user_request t) as [[r|r| |r|r]|]; try (by right; intros []).
    destruct (lightning_send_payment_preimage r); [by left|right; naive_solver]. }
  assert (preimage_known t → d = None → False) as Hdn.
  { intros H ->. apply details_none in Hd. unfold preimage_known in H. by rewrite Hd in H. }
  assert (returned t → transfer_payment_status t ≠ Completed) as Hx
    by (intros ?%HF; congruence).
  assert ((st = Completed ↔ settled t) ∧ (st = Failed ↔ returned t ∧ ¬ preimage_known t))
    as [HC' HF'].
  { unfold settled. destruct Hk as [Hk|Hk]; [rewrite (Hpre Hk)|rewrite (Hst Hk)]; naive_solver. }
  assert ((match direction t with Incoming => Receive | Outgoing => Send end) = Send
          ↔ direction t = Outgoing) as Hdir by (destruct (direction t); naive_solver).
  destruct d as [d|]; injection Hp as <-; simpl; (split; [done|]; split; [done|]).
  - split_and!; [lia|lia|done| |done]. naive_solver.
  - assert (fee_in_total t = false) as Hf by (unfold fee_in_total; by rewrite (details_none t Hd)).
    rewrite Hf. clear Hx Hdn Hk HC HF Hpre Hst Hreq Hd. split_and!; [lia|lia|done| |].
    + case_bool_decide as Hc; simpl; [case_bool_decide as Hin; simpl|].
      * split; [done|]. intros [_ He]. specialize (He eq_refl). rewrite He in Hin. set_solver.
      * rewrite <- HC'. split; [|naive_solver]. intros _. split; [done|]. intros _.
        clear HC' HF'. destruct (transfer_type t); set_solver.
      * rewrite <- HC'. naive_solver.
    + rewrite <- HF'. case_bool_decide as Hc; simpl; [|done].
      case_bool_decide; simpl; [|done]. split; [done|]. by rewrite Hc.
Qed.
End theorems.

(** ** Example *)

Definition example_payment_types : PaymentTypes := {|
  Key := Z; LnurlPayInfo := (); WalletTransferLeaf := (); TokenMintInput := (); TokenCreateInput := ()
|}.

Definition example_key (k : Z) : @Key example_payment_types := k.
Definition example_key_text : @Key example_payment_types → string := λ k : Z, pretty k.
Definition example_key_slice : list Z → option (@Key example_payment_types) :=
  λ l, Some (foldl (λ acc x, acc * 256 + x) 0 l : Z).

Definition example_parsers : InvoiceParsers (pt := example_payment_types) := {|
  parse_invoice s :=
    Some {| b11_description := Some s; payee_pubkey := "payee"; b11_payment_hash := "hash" |};
  parse_spark_invoice s := None;
  key_to_string := example_key_text;
  key_from_slice := example_key_slice
|}.

Definition example_transfer (id : string) (status : TransferStatus) (t : TransferType)
    (request : option SspUserRequest) : WalletTransfer (pt := example_payment_types) :=
  {| wt_id := id; sender_id := example_key 1; receiver_id := example_key 2; wt_status := status; total_value_sat := 1010;
     wt_expiry_time := None; wt_leaves := ([] : list (@WalletTransferLeaf example_payment_types)); created_at := Some 1000000000; updated_at := None;
     transfer_type := t; direction := Outgoing; user_request := request; spark_invoice := None;
     htlc_preimage_request := None; is_ssp_transfer := true |}.

(** An invoice paid with a fee of 9,500 millisatoshis; the preimage is known. *)
Definition example_sent : WalletTransfer (pt := example_payment_types) :=
  example_transfer "paid" SenderInitiated PreimageSwap (Some (LightningSend
    {| ls_id := "send"; ls_created_at := 1; ls_updated_at := 2; ls_network := BitcoinRegtest;
       ls_idempotency_key := ""; ls_status := RequestTransferCompleted; ls_transfer := None;
       ls_encoded_invoice := "lnbc"; ls_fee := {| original_value := 9500; original_unit := Millisatoshi |};
       lightning_send_payment_preimage := Some "preimage" |})).

Definition payment_or_fail (t : WalletTransfer (pt := example_payment_types)) : option Payment :=
  match Payment_try_from (ip := example_parsers) t with Ok p => Some p | Err _ => None end.

Lemma payment_of_transfer_witness :
  ∃ p, Payment_try_from (ip := example_parsers) example_sent = Ok p ∧ p_status p = Completed ∧
    amount p = 1000 ∧ fees p = 10.
Proof.
  assert (payment_or_fail example_sent ≠ None) as Hsome by (vm_compute; discriminate).
  unfold payment_or_fail in Hsome.
  destruct (Payment_try_from example_sent) as [p|] eqn:Hp; [|by destruct Hsome].
  destruct (payment_of_transfer (ip := example_parsers) example_sent p Hp)
    as (_ & _ & _ & Hamt & Hc & _); [by vm_compute|by vm_compute|].
  exists p. split; [done|].
  assert (details p ≠ None) as Hd.
  { revert Hp. vm_compute. intros [= <-]. discriminate. }
  assert (fees p = 10) as Hfee by (revert Hp; vm_compute; by intros [= <-]).
  split_and!; [|change (fees p ≤ 1010 → amount p + fees p = 1010) in Hamt; lia|done].
  apply Hc. split; [|done]. right; right. vm_compute. discriminate.
Defined.
