(* ===== verification/ObjectCache.v ===== *)
(** The object cache: [ObjectCacheRepository] of [crates/breez-sdk/core/src/persist/mod.rs].
    Every object lives as a text under a key of the storage's cache; the storage is the
    class [CacheStorage] (three methods of the trait [Storage]) and [serde_json] the class
    [Serde].  The keys of different objects differ, so what is saved is read back whatever
    is saved or deleted for other objects. *)
From Stdlib Require Import Ascii.
From stdpp Require Import base gmap strings relations.
From S2P Require Import Prelude SyncModel ConversionQueue Payments.

Inductive StorageError : Type :=
| Connection (s : string)
| Implementation (s : string)
| InitializationError (s : string)
| Serialization (s : string)
| StorageNotFound.

Class CacheStorage (W : Type) := {
  get_cached_item : string → SE W StorageError (option string);
  set_cached_item : string → string → SE W StorageError ();
  delete_cached_item : string → SE W StorageError ()
}.

(** What a storage promises of its cache. *)
Class CacheStorageLaws (W : Type) {cs : CacheStorage W} := {
  cached : W → string → option string;
  get_cached_item_ok k w w' v :
    get_cached_item k w = (w', Ok v) → v = cached w k ∧ ∀ k', cached w' k' = cached w k';
  set_cached_item_ok k v w w' :
    set_cached_item k v w = (w', Ok ()) →
    cached w' k = Some v ∧ ∀ k', k' ≠ k → cached w' k' = cached w k';
  delete_cached_item_ok k w w' :
    delete_cached_item k w = (w', Ok ()) →
    cached w' k = None ∧ ∀ k', k' ≠ k → cached w' k' = cached w k'
}.

(** [serde_json::to_string] and [from_str] at a type, with the texts of their errors. *)
Class Serde (A : Type) := {
  to_json : A → result string string;
  from_json : string → result A string
}.

Class SerdeLaws (A : Type) {S : Serde A} : Prop :=
  serde_roundtrip : ∀ (a : A) s, to_json a = Ok s → from_json s = Ok a.

(** ** Cached objects *)

Record TokenBalance : Type := { tb_balance : Z; tb_token_metadata : TokenMetadata }.

Record CachedAccountInfo : Type := {
  balance_sats : Z;
  token_balances : gmap string TokenBalance
}.

Record CachedSyncInfo : Type := {
  offset : Z;
  last_synced_final_token_payment_id : option string
}.

Definition CachedSyncInfo_default : CachedSyncInfo :=
  {| offset := 0; last_synced_final_token_payment_id := None |}.

Record CachedTx : Type := { raw_tx : string }.

Record LnurlInfo : Type := { url : string; bech32 : string }.

Record LightningAddressInfo : Type := {
  la_description : string;
  lightning_address : string;
  lnurl : LnurlInfo;
  username : string
}.

Record CachedLightningAddress : Type := {
  address : option LightningAddressInfo;
  recovered : bool
}.

Section metadata.
Context {pt : PaymentTypes}.

Record PaymentMetadata : Type := {
  parent_payment_id : option string;
  pm_lnurl_pay_info : option LnurlPayInfo;
  pm_lnurl_withdraw_info : option LnurlWithdrawInfo;
  lnurl_description : option string;
  pm_conversion_info : option ConversionInfo;
  conversion_status : option ConversionStatus
}.
End metadata.

(** ** Numbers as text: [u64] and [i64] *)

Definition u64_to_string (n : Z) : string := String.string_of_list_ascii (show_u64 n).

Definition u64_from_str (s : string) : option Z := parse_u64 (String.list_ascii_of_string s).

Definition i64_to_string (n : Z) : string :=
  if n <? 0 then String "-" (u64_to_string (- n)) else u64_to_string n.

Definition i64_from_str (s : string) : option Z :=
  match String.list_ascii_of_string s with
  | [] => None
  | (c :: digits) as l =>
      if Ascii.eqb c "-" then
        match digits with
        | [] => None
        | _ => m ← parse_digits digits 0; if m <=? 2 ^ 63 then Some (- m) else None
        end
      else m ← parse_u64 l; if m <? 2 ^ 63 then Some m else None
  end.

(** ** Keys *)

Definition ACCOUNT_INFO_KEY : string := "account_info".
Definition LAST_SYNC_TIME_KEY : string := "last_sync_time".
Definition LIGHTNING_ADDRESS_KEY : string := "lightning_address".
Definition LNURL_METADATA_UPDATED_AFTER_KEY : string := "lnurl_metadata_updated_after".
Definition SYNC_OFFSET_KEY : string := "sync_offset".
Definition TX_CACHE_KEY : string := "tx_cache".
Definition TOKEN_METADATA_KEY_PREFIX : string := "token_metadata_".
Definition PAYMENT_METADATA_KEY_PREFIX : string := "payment_metadata".
Definition SPARK_PRIVATE_MODE_INITIALIZED_KEY : string := "spark_private_mode_initialized".
Definition STABLE_BALANCE_ACTIVE_LABEL_KEY : string := "stable_balance_active_label".
Definition PENDING_CONVERSIONS_KEY : string := "pending_conversions".

Definition tx_key (txid : string) : string := TX_CACHE_KEY +:+ "-" +:+ txid.
Definition token_metadata_key (identifier : string) : string :=
  TOKEN_METADATA_KEY_PREFIX +:+ identifier.
Definition payment_metadata_key (identifier : string) : string :=
  PAYMENT_METADATA_KEY_PREFIX +:+ "-" +:+ identifier.

Section repository.
Context {W : Type} {cs : CacheStorage W} {pt : PaymentTypes}.

(** [set_cached_item(key, serde_json::to_string(value)?)] and its inverse. *)
Definition save_json {A} `{Serde A} (key : string) (value : A) : SE W StorageError () :=
  do* json := se_lift (map_err Serialization (to_json value)) in
  set_cached_item key json.

Definition fetch_json {A} `{Serde A} (key : string) : SE W StorageError (option A) :=
  do* value := get_cached_item key in
  match value with
  | Some value => do* v := se_lift (map_err Serialization (from_json value)) in se_ret (Some v)
  | None => se_ret None
  end.

Context {s_account : Serde CachedAccountInfo} {s_sync : Serde CachedSyncInfo}
  {s_tx : Serde CachedTx} {s_address : Serde CachedLightningAddress}
  {s_token : Serde TokenMetadata} {s_payment : Serde PaymentMetadata}
  {s_pending : Serde (list PendingConversion)}.

Definition save_account_info (value : CachedAccountInfo) := save_json ACCOUNT_INFO_KEY value.
Definition fetch_account_info : SE W StorageError (option CachedAccountInfo) :=
  fetch_json ACCOUNT_INFO_KEY.

Definition save_sync_info (value : CachedSyncInfo) := save_json SYNC_OFFSET_KEY value.
Definition fetch_sync_info : SE W StorageError (option CachedSyncInfo) := fetch_json SYNC_OFFSET_KEY.

Definition save_tx (txid : string) (value : CachedTx) := save_json (tx_key txid) value.
Definition fetch_tx (txid : string) : SE W StorageError (option CachedTx) := fetch_json (tx_key txid).

Definition save_lightning_address (value : LightningAddressInfo) (recovered : bool) :=
  save_json LIGHTNING_ADDRESS_KEY {| address := Some value; recovered := recovered |}.
Definition delete_lightning_address (recovered : bool) :=
  save_json LIGHTNING_ADDRESS_KEY {| address := None; recovered := recovered |}.

Definition parse_cached_lightning_address (value : string)
    : result CachedLightningAddress StorageError := map_err Serialization (from_json value).

Definition fetch_lightning_address : SE W StorageError (option (option LightningAddressInfo)) :=
  do* value := get_cached_item LIGHTNING_ADDRESS_KEY in
  match value with
  | Some value =>
      do* cached := se_lift (parse_cached_lightning_address value) in
      se_ret (Some (address cached))
  | None => se_ret None
  end.

Definition save_token_metadata (value : TokenMetadata) :=
  save_json (token_metadata_key (md_identifier value)) value.
Definition fetch_token_metadata (identifier : string) : SE W StorageError (option TokenMetadata) :=
  fetch_json (token_metadata_key identifier).

Definition save_payment_metadata (identifier : string) (value : PaymentMetadata) :=
  save_json (payment_metadata_key identifier) value.
Definition fetch_payment_metadata (identifier : string)
    : SE W StorageError (option PaymentMetadata) := fetch_json (payment_metadata_key identifier).
Definition delete_payment_metadata (identifier : string) : SE W StorageError () :=
  delete_cached_item (payment_metadata_key identifier).

Definition save_spark_private_mode_initialized : SE W StorageError () :=
  set_cached_item SPARK_PRIVATE_MODE_INITIALIZED_KEY "true".
Definition fetch_spark_private_mode_initialized : SE W StorageError bool :=
  do* value := get_cached_item SPARK_PRIVATE_MODE_INITIALIZED_KEY in
  se_ret match value with Some value => String.eqb value "true" | None => false end.

Definition save_stable_balance_active_label (label : string) : SE W StorageError () :=
  set_cached_item STABLE_BALANCE_ACTIVE_LABEL_KEY label.
Definition fetch_stable_balance_active_label : SE W StorageError (option string) :=
  get_cached_item STABLE_BALANCE_ACTIVE_LABEL_KEY.
Definition delete_stable_balance_active_label : SE W StorageError () :=
  delete_cached_item STABLE_BALANCE_ACTIVE_LABEL_KEY.

Definition save_pending_conversions (pending : list PendingConversion) :=
  save_json PENDING_CONVERSIONS_KEY pending.
Definition fetch_pending_conversions : SE W StorageError (option (list PendingConversion)) :=
  fetch_json PENDING_CONVERSIONS_KEY.
Definition delete_pending_conversions : SE W StorageError () :=
  delete_cached_item PENDING_CONVERSIONS_KEY.

Definition save_lnurl_metadata_updated_after (offset : Z) : SE W StorageError () :=
  set_cached_item LNURL_METADATA_UPDATED_AFTER_KEY (i64_to_string offset).
Definition fetch_lnurl_metadata_updated_after : SE W StorageError Z :=
  do* value := get_cached_item LNURL_METADATA_UPDATED_AFTER_KEY in
  match value with
  | Some value => se_lift (ok_or (i64_from_str value)
                    (Serialization "invalid lnurl_metadata_updated_after"))
  | None => se_ret 0
  end.

Definition get_last_sync_time : SE W StorageError (option Z) :=
  do* value := get_cached_item LAST_SYNC_TIME_KEY in
  match value with
  | Some v => do* t := se_lift (ok_or (u64_from_str v) (Serialization "invalid last_sync_time")) in
              se_ret (Some t)
  | None => se_ret None
  end.
Definition set_last_sync_time (time : Z) : SE W StorageError () :=
  set_cached_item LAST_SYNC_TIME_KEY (u64_to_string time).
End repository.

(** ** Numbers are read back *)

Lemma u64_text_roundtrip n : in_u 64 n → u64_from_str (u64_to_string n) = Some n.
Proof.
  intros Hn. unfold u64_from_str, u64_to_string.
  rewrite String.list_ascii_of_string_of_list_ascii. by apply parse_show_u64.
Qed.

Lemma i64_text_roundtrip n : - 2 ^ 63 ≤ n < 2 ^ 63 → i64_from_str (i64_to_string n) = Some n.
Proof.
  intros Hn. assert (2 ^ 63 < 2 ^ 64) as Hlt by done.
  unfold i64_from_str, i64_to_string. destruct (Z.ltb_spec n 0) as [Hneg|Hpos].
  - assert (in_u 64 (- n)) as Hu by (split; lia). unfold u64_to_string. cbn [String.list_ascii_of_string].
    rewrite String.list_ascii_of_string_of_list_ascii.
    destruct (show_u64_spec (- n) Hu) as (ds & -> & Hne & Hds & Hnum).
    pose proof (parse_digits_spec ds 0 ltac:(done) Hds) as Hp. rewrite Hnum in Hp.
    specialize (Hp (proj2 Hu)). destruct ds as [|d ds]; [done|].
    change (Ascii.eqb "-" "-") with true. cbn [fmap list_fmap] in Hp |- *. cbv iota.
    rewrite Hp. cbn [mbind option_bind].
    rewrite (proj2 (Z.leb_le _ _)) by lia. f_equal. lia.
  - assert (in_u 64 n) as Hu by (split; lia). unfold u64_to_string.
    rewrite String.list_ascii_of_string_of_list_ascii.
    pose proof (parse_show_u64 n Hu) as Hp.
    destruct (show_u64_spec n Hu) as (ds & Hs & Hne & Hds & _).
    destruct (show_u64 n) as [|c l] eqn:Hshow; [by destruct ds|].
    cbv iota beta. assert (Ascii.eqb c "-" = false) as ->.
    { destruct ds as [|d ds]; [done|]. injection Hs as -> _. inv Hds. by apply digit_ascii_neq. }
    rewrite Hp. cbn [mbind option_bind]. by rewrite (proj2 (Z.ltb_lt _ _)) by lia.
Qed.

(** ** One slot per object *)

Inductive CacheSlot : Type :=
| AccountInfoSlot | SyncInfoSlot | TxSlot (txid : string) | LightningAddressSlot
| TokenMetadataSlot (identifier : string) | PaymentMetadataSlot (identifier : string)
| PrivateModeSlot | ActiveLabelSlot | PendingConversionsSlot | LnurlUpdatedAfterSlot
| LastSyncTimeSlot.

Definition slot_key (s : CacheSlot) : string :=
  match s with
  | AccountInfoSlot => ACCOUNT_INFO_KEY
  | SyncInfoSlot => SYNC_OFFSET_KEY
  | TxSlot txid => tx_key txid
  | LightningAddressSlot => LIGHTNING_ADDRESS_KEY
  | TokenMetadataSlot identifier => token_metadata_key identifier
  | PaymentMetadataSlot identifier => payment_metadata_key identifier
  | PrivateModeSlot => SPARK_PRIVATE_MODE_INITIALIZED_KEY
  | ActiveLabelSlot => STABLE_BALANCE_ACTIVE_LABEL_KEY
  | PendingConversionsSlot => PENDING_CONVERSIONS_KEY
  | LnurlUpdatedAfterSlot => LNURL_METADATA_UPDATED_AFTER_KEY
  | LastSyncTimeSlot => LAST_SYNC_TIME_KEY
  end.

#[export] Instance slot_key_inj : Inj (=) (=) slot_key.
Proof.
  intros [] [] H; try done; cbn in H; simplify_eq; done.
Qed.

Section laws.
Context {W : Type} {cs : CacheStorage W} {laws : CacheStorageLaws W} {pt : PaymentTypes}.
Context {s_account : Serde CachedAccountInfo} {s_sync : Serde CachedSyncInfo}
  {s_tx : Serde CachedTx} {s_address : Serde CachedLightningAddress}
  {s_token : Serde TokenMetadata} {s_payment : Serde PaymentMetadata}
  {s_pending : Serde (list PendingConversion)}.
Context {l_account : SerdeLaws CachedAccountInfo} {l_sync : SerdeLaws CachedSyncInfo}
  {l_tx : SerdeLaws CachedTx} {l_address : SerdeLaws CachedLightningAddress}
  {l_token : SerdeLaws TokenMetadata} {l_payment : SerdeLaws PaymentMetadata}
  {l_pending : SerdeLaws (list PendingConversion)}.

(** The successful operations of the repository that write a slot. *)
Inductive writes : CacheSlot → W → W → Prop :=
| W_account v w w' : save_account_info v w = (w', Ok ()) → writes AccountInfoSlot w w'
| W_sync v w w' : save_sync_info v w = (w', Ok ()) → writes SyncInfoSlot w w'
| W_tx id v w w' : save_tx id v w = (w', Ok ()) → writes (TxSlot id) w w'
| W_address v r w w' : save_lightning_address v r w = (w', Ok ()) → writes LightningAddressSlot w w'
| W_no_address r w w' : delete_lightning_address r w = (w', Ok ()) → writes LightningAddressSlot w w'
| W_token v w w' :
    save_token_metadata v w = (w', Ok ()) → writes (TokenMetadataSlot (md_identifier v)) w w'
| W_payment id v w w' :
    save_payment_metadata id v w = (w', Ok ()) → writes (PaymentMetadataSlot id) w w'
| W_no_payment id w w' :
    delete_payment_metadata id w = (w', Ok ()) → writes (PaymentMetadataSlot id) w w'
| W_private w w' : save_spark_private_mode_initialized w = (w', Ok ()) → writes PrivateModeSlot w w'
| W_label v w w' : save_stable_balance_active_label v w = (w', Ok ()) → writes ActiveLabelSlot w w'
| W_no_label w w' : delete_stable_balance_active_label w = (w', Ok ()) → writes ActiveLabelSlot w w'
| W_pending v w w' : save_pending_conversions v w = (w', Ok ()) → writes PendingConversionsSlot w w'
| W_no_pending w w' : delete_pending_conversions w = (w', Ok ()) → writes PendingConversionsSlot w w'
| W_lnurl v w w' :
    save_lnurl_metadata_updated_after v w = (w', Ok ()) → writes LnurlUpdatedAfterSlot w w'
| W_time v w w' : set_last_sync_time v w = (w', Ok ()) → writes LastSyncTimeSlot w w'.

(** Successful reads of any key, and writes to slots other than [s]. *)
Inductive elsewhere (s : CacheSlot) : W → W → Prop :=
| E_read k v w w' : get_cached_item k w = (w', Ok v) → elsewhere s w w'
| E_write s' w w' : s' ≠ s → writes s' w w' → elsewhere s w w'.

Lemma save_json_ok {A} `{Serde A} key (v : A) w w' :
  save_json key v w = (w', Ok ()) → ∃ json, to_json v = Ok json ∧ set_cached_item key json w = (w', Ok ()).
Proof.
  unfold save_json. intros (json & w1 & Hj & Hset)%se_bind_ok.
  injection Hj as <- Hj. destruct (to_json v) as [j|]; [|done]. injection Hj as ->. by eexists.
Qed.

Lemma fetch_json_ok {A} `{Serde A} key w w' (r : option A) :
  fetch_json key w = (w', Ok r) →
  match cached w key with
  | Some json => ∃ v, from_json json = Ok v ∧ r = Some v
  | None => r = None
  end.
Proof.
  unfold fetch_json. intros (value & w1 & Hg & Hr)%se_bind_ok.
  apply get_cached_item_ok in Hg as [-> _]. destruct (cached w key) as [json|].
  - apply se_bind_ok in Hr as (v & w2 & Hj & Hr). unfold se_lift, se_ret in *.
    simplify_eq. eexists. split; [|done]. by destruct (from_json json); simplify_eq/=.
  - unfold se_ret in Hr. by simplify_eq.
Qed.

Lemma writes_frame s w w' :
  writes s w w' → ∀ k, k ≠ slot_key s → cached w' k = cached w k.
Proof.
  intros Hw k Hk. destruct Hw as
    [? ? ? H|? ? ? H|? ? ? ? H|? ? ? ? H|? ? ? H|? ? ? H|? ? ? ? H|? ? ? H|? ? H|? ? ? H|? ? H|? ? ? H|? ? H|? ? ? H|? ? ? H];
    try (apply save_json_ok in H as (? & _ & H));
    first [apply set_cached_item_ok in H as [_ H] | apply delete_cached_item_ok in H as [_ H]];
    by apply H.
Qed.

Lemma elsewhere_keeps s w w' : rtc (elsewhere s) w w' → cached w' (slot_key s) = cached w (slot_key s).
Proof.
  induction 1 as [|w1 w2 w3 Hstep _ IH]; [done|]. rewrite IH.
  destruct Hstep as [k v ? ? H|s' ? ? Hne H].
  - apply get_cached_item_ok in H as [_ H]. apply H.
  - apply (writes_frame _ _ _ H). intros Heq. by apply Hne, (inj slot_key).
Qed.

Lemma save_fetch {A} `{Serde A, !SerdeLaws A} s (v : A) w1 w2 w3 w4 r :
  save_json (slot_key s) v w1 = (w2, Ok ()) → rtc (elsewhere s) w2 w3 →
  fetch_json (slot_key s) w3 = (w4, Ok r) → r = Some v.
Proof.
  intros (json & Hj & Hset)%save_json_ok Hrtc%elsewhere_keeps Hf%fetch_json_ok.
  apply set_cached_item_ok in Hset as [Hset _]. rewrite Hrtc, Hset in Hf.
  destruct Hf as (v' & Hv & ->). rewrite (serde_roundtrip v json Hj) in Hv. by injection Hv as ->.
Qed.

Lemma set_get s v w1 w2 w3 w4 r :
  set_cached_item (slot_key s) v w1 = (w2, Ok ()) → rtc (elsewhere s) w2 w3 →
  get_cached_item (slot_key s) w3 = (w4, Ok r) → r = Some v.
Proof.
  intros [Hset _]%set_cached_item_ok Hrtc%elsewhere_keeps [-> _]%get_cached_item_ok.
  by rewrite Hrtc, Hset.
Qed.

(** The address is wrapped with the recovery mark and unwrapped again. *)
Lemma address_fetch v w1 w2 w3 w4 r :
  save_json LIGHTNING_ADDRESS_KEY v w1 = (w2, Ok ()) → rtc (elsewhere LightningAddressSlot) w2 w3 →
  fetch_lightning_address w3 = (w4, Ok r) → r = Some (address v).
Proof.
  intros Hsave Hrtc Hf. apply se_bind_ok in Hf as (value & w5 & Hg & Hr).
  apply save_json_ok in Hsave as (json & Hj & Hset).
  apply (set_get LightningAddressSlot _ _ _ _ _ _ Hset Hrtc) in Hg as ->.
  unfold parse_cached_lightning_address, se_lift, se_bind in Hr.
  rewrite (serde_roundtrip v json Hj) in Hr. simpl in Hr. by injection Hr as _ <-.
Qed.

(** what is saved in the object cache is read back, whatever other objects are read,
    saved or deleted in between: account and sync info, transactions, token and payment metadata,
    pending conversions, the lightning address (also its absence), and the two times as
    decimal texts; deleted payment metadata reads as absent. *)
Theorem cache_reads_back :
  (∀ v w1 w2 w3 w4 r, save_sync_info v w1 = (w2, Ok ()) → rtc (elsewhere SyncInfoSlot) w2 w3 →
     fetch_sync_info w3 = (w4, Ok r) → r = Some v) ∧
  (∀ v w1 w2 w3 w4 r, save_account_info v w1 = (w2, Ok ()) →
     rtc (elsewhere AccountInfoSlot) w2 w3 →
     fetch_account_info w3 = (w4, Ok r) → r = Some v) ∧
  (∀ id v w1 w2 w3 w4 r, save_tx id v w1 = (w2, Ok ()) → rtc (elsewhere (TxSlot id)) w2 w3 →
     fetch_tx id w3 = (w4, Ok r) → r = Some v) ∧
  (∀ v w1 w2 w3 w4 r, save_token_metadata v w1 = (w2, Ok ()) →
     rtc (elsewhere (TokenMetadataSlot (md_identifier v))) w2 w3 →
     fetch_token_metadata (md_identifier v) w3 = (w4, Ok r) → r = Some v) ∧
  (∀ id v w1 w2 w3 w4 r, save_payment_metadata id v w1 = (w2, Ok ()) →
     rtc (elsewhere (PaymentMetadataSlot id)) w2 w3 →
     fetch_payment_metadata id w3 = (w4, Ok r) → r = Some v) ∧
  (∀ id w1 w2 w3 w4 r, delete_payment_metadata id w1 = (w2, Ok ()) →
     rtc (elsewhere (PaymentMetadataSlot id)) w2 w3 →
     fetch_payment_metadata id w3 = (w4, Ok r) → r = None) ∧
  (∀ v w1 w2 w3 w4 r, save_pending_conversions v w1 = (w2, Ok ()) →
     rtc (elsewhere PendingConversionsSlot) w2 w3 →
     fetch_pending_conversions w3 = (w4, Ok r) → r = Some v) ∧
  (∀ v b w1 w2 w3 w4 r, save_lightning_address v b w1 = (w2, Ok ()) →
     rtc (elsewhere LightningAddressSlot) w2 w3 →
     fetch_lightning_address w3 = (w4, Ok r) → r = Some (Some v)) ∧
  (∀ b w1 w2 w3 w4 r, delete_lightning_address b w1 = (w2, Ok ()) →
     rtc (elsewhere LightningAddressSlot) w2 w3 →
     fetch_lightning_address w3 = (w4, Ok r) → r = Some None) ∧
  (∀ t w1 w2 w3 w4 r, in_u 64 t → set_last_sync_time t w1 = (w2, Ok ()) →
     rtc (elsewhere LastSyncTimeSlot) w2 w3 →
     get_last_sync_time w3 = (w4, r) → is_ok r → r = Ok (Some t)) ∧
  (∀ n w1 w2 w3 w4 r, - 2 ^ 63 ≤ n < 2 ^ 63 →
     save_lnurl_metadata_updated_after n w1 = (w2, Ok ()) →
     rtc (elsewhere LnurlUpdatedAfterSlot) w2 w3 →
     fetch_lnurl_metadata_updated_after w3 = (w4, r) → is_ok r → r = Ok n).
Proof.
  split_and!; intros.
  - by eapply (save_fetch SyncInfoSlot).
  - by eapply (save_fetch AccountInfoSlot).
  - by eapply (save_fetch (TxSlot id)).
  - by eapply (save_fetch (TokenMetadataSlot (md_identifier v))).
  - by eapply (save_fetch (PaymentMetadataSlot id)).
  - match goal with H : delete_payment_metadata _ _ = _ |- _ => apply delete_cached_item_ok in H as [Hd _] end.
    match goal with H : rtc _ _ _ |- _ => apply elsewhere_keeps in H as Hk end.
    match goal with H : fetch_payment_metadata _ _ = _ |- _ => apply fetch_json_ok in H as Hf end.
    cbn [slot_key] in Hk. by rewrite Hk, Hd in Hf.
  - by eapply (save_fetch PendingConversionsSlot).
  - by eapply address_fetch in H as ->.
  - by eapply address_fetch in H as ->.
  - match goal with H : get_last_sync_time _ = _ |- _ => rename H into Hget end.
    unfold get_last_sync_time, se_bind in Hget.
    destruct (get_cached_item _ _) as [w5 [value|e]] eqn:Hg; [|by simplify_eq].
    assert (value = Some (u64_to_string t)) as -> by by eapply (set_get LastSyncTimeSlot).
    rewrite u64_text_roundtrip in Hget by done. by injection Hget as _ <-.
  - match goal with H : fetch_lnurl_metadata_updated_after _ = _ |- _ => rename H into Hget end.
    unfold fetch_lnurl_metadata_updated_after, se_bind in Hget.
    destruct (get_cached_item _ _) as [w5 [value|e]] eqn:Hg; [|by simplify_eq].
    assert (value = Some (i64_to_string n)) as -> by by eapply (set_get LnurlUpdatedAfterSlot).
    rewrite i64_text_roundtrip in Hget by done. by injection Hget as _ <-.
Qed.
End laws.

(** ** Example: a map as the storage *)

#[export] Instance map_cache : CacheStorage (gmap string string) := {|
  get_cached_item k := λ m, (m, Ok (m !! k));
  set_cached_item k v := λ m, (<[k := v]> m, Ok ());
  delete_cached_item k := λ m, (delete k m, Ok ())
|}.

#[export] Instance map_cache_laws : CacheStorageLaws (gmap string string).
Proof.
  refine {| cached := λ m k, m !! k |}.
  - intros k w w' v [= <- <-]. done.
  - intros k v w w' [= <-]. split; [apply lookup_insert_eq|]. intros k' Hne. by apply lookup_insert_ne.
  - intros k w w' [= <-]. split; [apply lookup_delete_eq|]. intros k' Hne. by apply lookup_delete_ne.
Defined.

(** Only offsets are written here. *)
Definition offset_serde : Serde CachedSyncInfo := {|
  to_json v :=
    if bool_decide (0 ≤ offset v < 2 ^ 64 ∧ last_synced_final_token_payment_id v = None)
    then Ok (u64_to_string (offset v)) else Err "unsupported";
  from_json s :=
    let* o := ok_or (u64_from_str s) "not a number" in
    Ok {| offset := o; last_synced_final_token_payment_id := None |}
|}.

Lemma offset_serde_laws : @SerdeLaws _ offset_serde.
Proof.
  intros [o l] s. simpl. case_bool_decide as H; [|done]. simpl in H. destruct H as [Ho ->].
  intros [= <-]. by rewrite u64_text_roundtrip.
Qed.

Definition no_serde (A : Type) : Serde A := {|
  to_json _ := Err "unsupported"; from_json _ := Err "unsupported"
|}.

Lemma no_serde_laws A : @SerdeLaws _ (no_serde A).
Proof. by intros a s. Qed.

Definition example_info : CachedSyncInfo :=
  {| offset := 7; last_synced_final_token_payment_id := None |}.

Lemma cache_reads_back_witness :
  let m1 := <[SYNC_OFFSET_KEY := "7"]> ∅ in
  let m2 := <[LAST_SYNC_TIME_KEY := "9"]> m1 in
  save_sync_info (s_sync := offset_serde) example_info (∅ : gmap string string) = (m1, Ok ()) ∧
  set_last_sync_time 9 m1 = (m2, Ok ()) ∧
  ∀ r m3, fetch_sync_info (s_sync := offset_serde) m2 = (m3, Ok r) → r = Some example_info.
Proof.
  split; [done|]. split; [done|]. intros r m3 Hf.
  pose (pt := example_payment_types).
  pose (no := no_serde). pose (laws := no_serde_laws).
  refine (proj1 (cache_reads_back (pt := pt) (s_account := no _) (s_tx := no _) (s_address := no _)
    (s_token := no _) (s_payment := no _) (s_pending := no _) (s_sync := offset_serde)
    (l_account := laws _) (l_tx := laws _) (l_address := laws _) (l_token := laws _)
    (l_payment := laws _) (l_pending := laws _) (l_sync := offset_serde_laws))
    example_info ∅ (<[SYNC_OFFSET_KEY := "7"]> ∅) (<[LAST_SYNC_TIME_KEY := "9"]> (<[SYNC_OFFSET_KEY := "7"]> ∅))
    m3 r _ _ Hf); [done|].
  apply rtc_once, (E_write _ LastSyncTimeSlot); [done|]. by apply (W_time 9).
Defined.
