(* ===== verification/PaymentSync.v ===== *)
(** Syncing payments into the storage: [crates/breez-sdk/core/src/sync.rs], with the
    payments of a token transaction ([utils/token.rs]) and the emission of their events
    ([utils/payments.rs]).  The storage, the wallet and the listeners are classes over a
    world; what the theorems need of them are the laws of [PaymentStorageLaws]. *)
From Stdlib Require Import Ascii.
From stdpp Require Import base gmap strings list.
From S2P Require Import Prelude TreeTypes TokenStore Paging SyncModel ObjectCache Payments.

Abbreviation offset := Paging.offset.
Abbreviation info_offset := ObjectCache.offset.

Definition PAYMENT_SYNC_BATCH_SIZE : Z := 50.

(** [Display] of a storage error and [From<StorageError> for SdkError]. *)
Definition StorageError_fmt (e : StorageError) : string :=
  match e with
  | Connection s => "Connection error: " +:+ s
  | Implementation s => "Underlying implementation error: " +:+ s
  | InitializationError s => "Failed to initialize database: " +:+ s
  | Serialization s => "Failed to serialize/deserialize data: " +:+ s
  | StorageNotFound => "Not found"
  end.

Definition SdkError_of_storage (e : StorageError) : SdkError :=
  match e with
  | StorageNotFound => InvalidInput "Not found"
  | e => SdkStorageError (StorageError_fmt e)
  end.

(** ** Token transactions: [spark/src/services/models.rs] *)

Inductive TokenTransactionStatus : Type :=
| Started | Signed | Revealed | Finalized | StartedCancelled | SignedCancelled | StatusUnknown.

Definition PaymentStatus_from_token_transaction_status (status : TokenTransactionStatus)
    (is_transfer_transaction : bool) : PaymentStatus :=
  match status with
  | Started | Revealed | StatusUnknown => Pending
  | Signed => if is_transfer_transaction then Pending else Completed
  | Finalized => Completed
  | StartedCancelled | SignedCancelled => Failed
  end.

Record TokenOutputToSpend : Type := {
  prev_token_tx_hash : string;
  prev_token_tx_vout : Z
}.

(** The 33 bytes of [BURN_PUBLIC_KEY]. *)
Definition BURN_PUBLIC_KEY : list Z := replicate 33 2.

Section data.
Context {pt : PaymentTypes}.

Inductive TokenInputs : Type :=
| MintInputs (input : TokenMintInput)
| TransferInputs (outputs_to_spend : list TokenOutputToSpend)
| CreateInputs (input : TokenCreateInput).

Record TokenTransaction : Type := {
  tt_hash : string;
  inputs : TokenInputs;
  outputs : list (TokenOutput (PublicKey := Key));
  tt_status : TokenTransactionStatus;
  created_timestamp : Z;
  fulfilled_invoices : list string
}.

(** The events a payment makes. *)
Inductive SdkEvent : Type :=
| PaymentSucceeded (payment : Payment)
| PaymentPending (payment : Payment)
| PaymentFailed (payment : Payment).

Definition SdkEvent_from_payment (payment : Payment) : SdkEvent :=
  match p_status payment with
  | Completed => PaymentSucceeded payment
  | Pending => PaymentPending payment
  | Failed => PaymentFailed payment
  end.
End data.

(** ** The world *)

(** The methods of the trait [Storage] on payments. *)
Class PaymentStorage {pt : PaymentTypes} (W : Type) := {
  insert_payment : Payment → SE W StorageError ();
  insert_payment_metadata : string → PaymentMetadata → SE W StorageError ();
  get_payment_by_id : string → SE W StorageError Payment;
  get_payments_by_parent_ids : list string → SE W StorageError (gmap string (list Payment))
}.

(** The wallet, with its errors and its token metadata converted to those of the SDK, and
    the listeners. *)
Class SyncWallet {pt : PaymentTypes} (W : Type) := {
  list_transfers : PagingFilter → SE W SdkError (PagingResult (T := WalletTransfer));
  list_token_transactions : PagingFilter → SE W SdkError (PagingResult (T := TokenTransaction));
  get_token_transactions_by_hashes : list string → SE W SdkError (list TokenTransaction);
  get_tokens_metadata : list string → SE W SdkError (list TokenMetadata);
  get_identity_public_key : Key;
  emit : SdkEvent → W → W
}.

Section sync.
Context {W : Type} {pt : PaymentTypes} {ip : InvoiceParsers} {cs : CacheStorage W}
  {ps : PaymentStorage W} {sw : SyncWallet W}.
Context {s_sync : Serde CachedSyncInfo} {s_token : Serde TokenMetadata}
  {s_payment : Serde PaymentMetadata}.

Definition of_storage {A} (m : SE W StorageError A) : SE W SdkError A :=
  se_map_err SdkError_of_storage m.

(** ** Events *)

Definition get_payment_with_conversion_details (id : string) : SE W SdkError Payment :=
  do* payment := of_storage (get_payment_by_id id) in
  match conversion_details payment with
  | None => se_ret payment
  | Some cd =>
      do* related_payments_map := of_storage (get_payments_by_parent_ids [p_id payment]) in
      match related_payments_map !! p_id payment with
      | None => se_ret payment
      | Some related_payments =>
          match conversion_steps_from_payments related_payments with
          | Err _ => se_ret payment
          | Ok (from, to) =>
              se_ret {| p_id := p_id payment; payment_type := payment_type payment;
                        p_status := p_status payment; amount := amount payment;
                        fees := fees payment; timestamp := timestamp payment;
                        p_method := p_method payment; details := details payment;
                        conversion_details :=
                          Some {| cd_status := cd_status cd; cd_from := from; cd_to := to |} |}
          end
      end
  end.

Definition get_payment_and_emit_event (payment : Payment) : SE W SdkError () :=
  try* stored := get_payment_with_conversion_details (p_id payment) in
  let payment := match stored with Ok p => p | Err _ => payment end in
  λ w, (emit (SdkEvent_from_payment payment) w, Ok ()).

(** ** One payment *)

Definition metadata_identifier (payment : Payment) : string :=
  match details payment with
  | Some (LightningDetails _ invoice _ _ _ _ _) => invoice
  | Some (TokenDetails _ tx_hash _ _ _) => tx_hash
  | _ => p_id payment
  end.

Definition apply_payment_metadata (payment : Payment) : SE W SdkError () :=
  let identifier := metadata_identifier payment in
  do* metadata := of_storage (fetch_payment_metadata identifier) in
  match metadata with
  | None => se_ret ()
  | Some metadata =>
      do* _ := of_storage (insert_payment_metadata (p_id payment) metadata) in
      of_storage (delete_payment_metadata identifier)
  end.

(** New statuses are announced after the initial sync, pending ones always. *)
Definition should_emit (initial_sync_complete : bool) (payment : Payment) : SE W SdkError bool :=
  if initial_sync_complete || bool_decide (p_status payment = Pending) then
    try* existing := get_payment_by_id (p_id payment) in
    se_ret match existing with
           | Ok p => bool_decide (p_status p ≠ p_status payment)
           | Err _ => true
           end
  else se_ret false.

(** Failures to apply metadata or to insert are only logged. *)
Definition store_payment (initial_sync_complete : bool) (payment : Payment) : SE W SdkError () :=
  do* emit := should_emit initial_sync_complete payment in
  try* _ := insert_payment payment in
  if (emit : bool) then get_payment_and_emit_event payment else se_ret ().

(** ** Transfers *)

Definition sync_transfer (initial_sync_complete : bool) (transfer : WalletTransfer)
    : SE W SdkError Payment :=
  do* payment := se_lift (Payment_try_from transfer) in
  try* _ := apply_payment_metadata payment in
  do* _ := store_payment initial_sync_complete payment in
  se_ret payment.

(** The transfers of a page; the result counts the pending payments. *)
Fixpoint sync_transfers (initial_sync_complete : bool) (transfers : list WalletTransfer)
    (pending_payments : Z) : SE W SdkError Z :=
  match transfers with
  | [] => se_ret pending_payments
  | transfer :: transfers =>
      do* payment := sync_transfer initial_sync_complete transfer in
      sync_transfers initial_sync_complete transfers
        (if bool_decide (p_status payment = Pending)
         then saturating_add 64 pending_payments 1 else pending_payments)
  end.

(** The loop over the pages; [None] when the fuel runs out. *)
Fixpoint sync_pages (fuel : nat) (initial_sync_complete : bool) (last_final : option string)
    (filter : PagingFilter) (pending_payments : Z) (w : W) : W * option (result () SdkError) :=
  match fuel with
  | O => (w, None)
  | S fuel =>
      match list_transfers filter w with
      | (w, Err e) => (w, Some (Err e))
      | (w, Ok response) =>
          match sync_transfers initial_sync_complete (items response) pending_payments w with
          | (w, Err e) => (w, Some (Err e))
          | (w, Ok pending_payments) =>
              let cache_offset :=
                saturating_add 64 (offset filter) (Z.of_nat (PagingResult_len response)) in
              let '(w, _) :=
                save_sync_info {| info_offset := saturating_sub cache_offset pending_payments;
                                  last_synced_final_token_payment_id := last_final |} w in
              match next response with
              | None => (w, Some (Ok ()))
              | Some filter =>
                  sync_pages fuel initial_sync_complete last_final filter pending_payments w
              end
          end
      end
  end.

Definition sync_bitcoin_payments_to_storage (fuel : nat) (initial_sync_complete : bool) (w : W)
    : W * option (result () SdkError) :=
  match of_storage fetch_sync_info w with
  | (w, Err e) => (w, Some (Err e))
  | (w, Ok info) =>
      let cached_sync_info := default CachedSyncInfo_default info in
      sync_pages fuel initial_sync_complete (last_synced_final_token_payment_id cached_sync_info)
        {| Paging.offset := info_offset cached_sync_info; limit := PAYMENT_SYNC_BATCH_SIZE;
           order := Ascending |} 0 w
  end.
(** ** Token transactions *)

Fixpoint split_cached (identifiers : list string)
    : SE W SdkError (list TokenMetadata * list string) :=
  match identifiers with
  | [] => se_ret ([], [])
  | identifier :: identifiers =>
      do* metadata := of_storage (fetch_token_metadata identifier) in
      do* (cached, uncached) := split_cached identifiers in
      se_ret match metadata with
             | Some metadata => (metadata :: cached, uncached)
             | None => (cached, identifier :: uncached)
             end
  end.

Fixpoint save_tokens_metadata (l : list TokenMetadata) : SE W SdkError () :=
  match l with
  | [] => se_ret ()
  | metadata :: l =>
      do* _ := of_storage (save_token_metadata metadata) in save_tokens_metadata l
  end.

Definition get_tokens_metadata_cached_or_query (token_identifiers : list string)
    : SE W SdkError (list TokenMetadata) :=
  do* (cached_results, uncached_identifiers) := split_cached token_identifiers in
  do* queried_results := get_tokens_metadata uncached_identifiers in
  do* _ := save_tokens_metadata queried_results in
  se_ret (cached_results ++ queried_results).

(** The payment of one output; [None] for change and for outputs of others. *)
Definition output_payment_type (identity_public_key : Key) (tx_inputs_are_ours is_mint : bool)
    (output : TokenOutput (PublicKey := Key)) : option PaymentType :=
  let ours := bool_decide (owner_public_key output = identity_public_key) in
  if tx_inputs_are_ours && negb ours then Some Send
  else if (negb tx_inputs_are_ours || is_mint) && ours then Some Receive
  else None.

Definition is_mint_transaction (transaction : TokenTransaction) : bool :=
  match inputs transaction with MintInputs _ => true | _ => false end.

Definition is_transfer_transaction (transaction : TokenTransaction) : bool :=
  match inputs transaction with TransferInputs _ => true | _ => false end.

(** [format!("{}:{}", transaction.hash, vout)]. *)
Definition token_payment_id (hash : string) (vout : nat) : string :=
  hash +:+ ":" +:+ u64_to_string (Z.of_nat vout).

Definition output_payment (metadata : TokenMetadata) (timestamp : Z)
    (invoices : list SparkInvoiceDetails) (transaction : TokenTransaction)
    (vout : nat) (output : TokenOutput (PublicKey := Key)) (payment_type : PaymentType)
    : result Payment (exn SdkError) :=
  let invoice :=
    head (List.filter (λ i, String.eqb (identity_public_key i) (key_to_string (owner_public_key output)))
            invoices) in
  let* tx_type :=
    match inputs transaction with
    | MintInputs _ => Ok MintTx
    | TransferInputs _ => Ok TransferTx
    | CreateInputs _ =>
        Err (Throw (SdkGeneric "Create token transactions are not expected to have outputs"))
    end in
  let* burn_key := or_panic (key_from_slice BURN_PUBLIC_KEY) in
  let tx_type := if bool_decide (owner_public_key output = burn_key) then BurnTx else tx_type in
  Ok {| p_id := token_payment_id (tt_hash transaction) vout;
        payment_type := payment_type;
        p_status := PaymentStatus_from_token_transaction_status (tt_status transaction)
                      (is_transfer_transaction transaction);
        amount := token_amount output;
        fees := 0;
        timestamp := timestamp;
        p_method := Token;
        details := Some (TokenDetails metadata (tt_hash transaction) tx_type
                           (SparkInvoicePaymentDetails_from <$> invoice) None);
        conversion_details := None |}.

(** The loop over the outputs, from index [vout]. *)
Fixpoint output_payments (metadata : TokenMetadata) (timestamp : Z)
    (invoices : list SparkInvoiceDetails) (transaction : TokenTransaction)
    (tx_inputs_are_ours : bool) (vout : nat) (outputs : list (TokenOutput (PublicKey := Key)))
    : result (list Payment) (exn SdkError) :=
  match outputs with
  | [] => Ok []
  | output :: outputs =>
      let rest := output_payments metadata timestamp invoices transaction tx_inputs_are_ours
                    (S vout) outputs in
      match output_payment_type get_identity_public_key tx_inputs_are_ours
              (is_mint_transaction transaction) output with
      | None => rest
      | Some payment_type =>
          let* payment := output_payment metadata timestamp invoices transaction vout output
                            payment_type in
          let* payments := rest in
          Ok (payment :: payments)
      end
  end.

Definition token_transaction_to_payments (transaction : TokenTransaction)
    (tx_inputs_are_ours : bool) : SE W (exn SdkError) (list Payment) :=
  match head (outputs transaction) with
  | None => se_ret []
  | Some first_output =>
      do* all := se_map_err Throw
                   (get_tokens_metadata_cached_or_query [token_identifier first_output]) in
      do* metadata := se_lift (throws (ok_or (head all) (SdkGeneric "Token metadata not found"))) in
      do* created := se_lift (throws (ok_or (duration_since_epoch (created_timestamp transaction))
        (SdkGeneric "Token transaction created timestamp is before UNIX_EPOCH"))) in
      let invoices := omap parse_spark_invoice (fulfilled_invoices transaction) in
      se_lift (output_payments metadata (as_secs created) invoices transaction tx_inputs_are_ours
                 0 (outputs transaction))
  end.

(** Does the owner of the inputs, looked up in the transaction of the first one, match? *)
Definition inputs_are_ours (parent_transactions : list TokenTransaction)
    (transaction : TokenTransaction) : result bool SdkError :=
  match inputs transaction with
  | TransferInputs outputs_to_spend =>
      let* first_input := ok_or (head outputs_to_spend)
                            (SdkGeneric "No input in token transfer input") in
      let* parent_transaction :=
        ok_or (List.find (λ tx, String.eqb (tt_hash tx) (prev_token_tx_hash first_input))
                 parent_transactions)
          (SdkGeneric "Parent transaction not found") in
      let* output := ok_or (outputs parent_transaction !! Z.to_nat (prev_token_tx_vout first_input))
                       (SdkGeneric "Output not found") in
      Ok (bool_decide (owner_public_key output = get_identity_public_key))
  | MintInputs _ | CreateInputs _ => Ok false
  end.

Definition prevout_hash (tx : TokenTransaction) : option string :=
  match inputs tx with
  | TransferInputs outputs_to_spend => prev_token_tx_hash <$> head outputs_to_spend
  | _ => None
  end.

(** The payments of a transaction up to the last one synced, and whether it was met. *)
Fixpoint take_new_payments (last_final : option string) (payments : list Payment)
    : SE W (exn SdkError) (list Payment * bool) :=
  match payments with
  | [] => se_ret ([], false)
  | payment :: payments =>
      try* _ := apply_payment_metadata payment in
      if bool_decide (last_final = Some (p_id payment)) then se_ret ([], true)
      else
        do* (rest, found) := take_new_payments last_final payments in
        se_ret (payment :: rest, found)
  end.

Fixpoint page_payments (last_final : option string) (parent_transactions : list TokenTransaction)
    (transactions : list TokenTransaction) : SE W (exn SdkError) (list Payment * bool) :=
  match transactions with
  | [] => se_ret ([], false)
  | transaction :: transactions =>
      do* tx_inputs_are_ours := se_lift (throws (inputs_are_ours parent_transactions transaction)) in
      do* payments := token_transaction_to_payments transaction tx_inputs_are_ours in
      do* (new, found) := take_new_payments last_final payments in
      if (found : bool) then se_ret (new, true)
      else
        do* (rest, found) := page_payments last_final parent_transactions transactions in
        se_ret (new ++ rest, found)
  end.

Definition token_page (next_offset : Z) : PagingFilter :=
  PagingFilter_new (Some next_offset) (Some PAYMENT_SYNC_BATCH_SIZE) (Some Descending).

(** ['page_loop]: the payments to sync, newest first, and the final [has_more]. *)
Fixpoint collect_token_payments (fuel : nat) (last_final : option string) (next_offset : Z)
    (payments_to_sync : list Payment) (w : W)
    : W * option (result (list Payment * bool) (exn SdkError)) :=
  match fuel with
  | O => (w, None)
  | S fuel =>
      match list_token_transactions (token_page next_offset) w with
      | (w, Err _) => (w, Some (Ok (payments_to_sync, true)))
      | (w, Ok token_transactions) =>
          let txs := items token_transactions in
          match txs with
          | [] => (w, Some (Ok (payments_to_sync, true)))
          | first_transaction :: _ =>
              if match last_final with
                 | Some id => String.prefix (tt_hash first_transaction) id
                 | None => false
                 end
              then (w, Some (Ok (payments_to_sync, false)))
              else
                match get_token_transactions_by_hashes (omap prevout_hash txs) w with
                | (w, Err _) => (w, Some (Ok (payments_to_sync, true)))
                | (w, Ok parent_transactions) =>
                    match page_payments last_final parent_transactions txs w with
                    | (w, Err e) => (w, Some (Err e))
                    | (w, Ok (new, found)) =>
                        let payments_to_sync := payments_to_sync ++ new in
                        let has_more := Z.of_nat (length txs) =? PAYMENT_SYNC_BATCH_SIZE in
                        if (found : bool) then (w, Some (Ok (payments_to_sync, false)))
                        else if has_more then
                          collect_token_payments fuel last_final
                            (saturating_add 64 next_offset (Z.of_nat (length txs))) payments_to_sync w
                        else (w, Some (Ok (payments_to_sync, false)))
                    end
                end
          end
      end
  end.

Fixpoint store_payments (initial_sync_complete : bool) (payments : list Payment) : SE W SdkError () :=
  match payments with
  | [] => se_ret ()
  | payment :: payments =>
      do* _ := store_payment initial_sync_complete payment in
      store_payments initial_sync_complete payments
  end.

(** [into_iter().rfind(|p| p.status.is_final())]. *)
Definition newest_final (payments : list Payment) : option Payment :=
  last (List.filter (λ p, is_final (p_status p)) payments).

Definition sync_token_payments_to_storage (fuel : nat) (initial_sync_complete : bool) (w : W)
    : W * option (result () (exn SdkError)) :=
  match of_storage fetch_sync_info w with
  | (w, Err e) => (w, Some (Err (Throw e)))
  | (w, Ok info) =>
      let cached_sync_info := default CachedSyncInfo_default info in
      match collect_token_payments fuel (last_synced_final_token_payment_id cached_sync_info) 0 [] w with
      | (w, None) => (w, None)
      | (w, Some (Err e)) => (w, Some (Err e))
      | (w, Some (Ok (payments_to_sync, has_more))) =>
          let payments_to_sync := sort_by (λ p q, timestamp p <=? timestamp q) payments_to_sync in
          let finish : SE W (exn SdkError) () :=
            do* _ := se_map_err Throw (store_payments initial_sync_complete payments_to_sync) in
            match newest_final payments_to_sync with
            | Some payment =>
                if negb has_more then
                  se_map_err Throw (of_storage (save_sync_info
                    {| info_offset := info_offset cached_sync_info;
                       last_synced_final_token_payment_id := Some (p_id payment) |}))
                else se_ret ()
            | None => se_ret ()
            end in
          let '(w, r) := finish w in (w, Some r)
      end
  end.

Definition sync_payments (fuel : nat) (initial_sync_complete : bool) (w : W)
    : W * option (result () (exn SdkError)) :=
  match sync_bitcoin_payments_to_storage fuel initial_sync_complete w with
  | (w, None) => (w, None)
  | (w, Some (Err e)) => (w, Some (Err (Throw e)))
  | (w, Some (Ok _)) => sync_token_payments_to_storage fuel initial_sync_complete w
  end.

(** [map_and_persist_token_transaction]. *)
Fixpoint insert_payments (payments : list Payment) : SE W SdkError () :=
  match payments with
  | [] => se_ret ()
  | payment :: payments => do* _ := of_storage (insert_payment payment) in insert_payments payments
  end.

Definition map_and_persist_token_transaction (token_transaction : TokenTransaction)
    : SE W (exn SdkError) Payment :=
  do* payments := token_transaction_to_payments token_transaction true in
  do* _ := se_map_err Throw (insert_payments payments) in
  se_lift (throws (ok_or (head payments) (SdkGeneric "No payment created from token invoice"))).
End sync.

(** ** What the storage promises of payments *)

(** The parts of a stored payment that come from the network. *)
Definition core {pt : PaymentTypes} (p : Payment) : PaymentType * PaymentStatus * Z * Z * Z :=
  (payment_type p, p_status p, amount p, fees p, timestamp p).

Class PaymentStorageLaws {pt : PaymentTypes} (W : Type) {cs : CacheStorage W}
    {ps : PaymentStorage W} {sw : SyncWallet W} := {
  stored : W → string → option (PaymentType * PaymentStatus * Z * Z * Z);
  insert_payment_ok p w w' :
    insert_payment p w = (w', Ok ()) → stored w' (p_id p) = Some (core p);
  insert_payment_keeps p w id : id ≠ p_id p → stored (insert_payment p w).1 id = stored w id;
  insert_payment_metadata_keeps id m w id' : stored (insert_payment_metadata id m w).1 id' = stored w id';
  get_payment_by_id_keeps id w id' : stored (get_payment_by_id id w).1 id' = stored w id';
  get_payments_by_parent_ids_keeps ids w id' :
    stored (get_payments_by_parent_ids ids w).1 id' = stored w id';
  emit_keeps e w id' : stored (emit e w) id' = stored w id';
  get_cached_item_keeps k w id' : stored (get_cached_item k w).1 id' = stored w id';
  set_cached_item_keeps k v w id' : stored (set_cached_item k v w).1 id' = stored w id';
  delete_cached_item_keeps k w id' : stored (delete_cached_item k w).1 id' = stored w id';
  list_transfers_keeps f w id' : stored (list_transfers f w).1 id' = stored w id'
}.

Section laws.
Context {W : Type} {pt : PaymentTypes} {ip : InvoiceParsers} {cs : CacheStorage W}
  {ps : PaymentStorage W} {sw : SyncWallet W}.
Context {s_sync : Serde CachedSyncInfo} {s_token : Serde TokenMetadata}
  {s_payment : Serde PaymentMetadata}.
Context {cl : CacheStorageLaws W} {pl : PaymentStorageLaws W} {l_sync : SerdeLaws CachedSyncInfo}.

(** Leaving the stored payments alone. *)
Definition same_stored : relation W := λ w w', ∀ id, stored w' id = stored w id.

#[export] Instance same_stored_preorder : PreOrder same_stored.
Proof. split; [done|]. intros w1 w2 w3 H1 H2 id. by rewrite H2. Qed.

Abbreviation keeps := (se_preserves same_stored).

Lemma keeps_get_cached k : keeps (get_cached_item k).
Proof. intros w id. apply get_cached_item_keeps. Qed.
Lemma keeps_set_cached k v : keeps (set_cached_item k v).
Proof. intros w id. apply set_cached_item_keeps. Qed.
Lemma keeps_delete_cached k : keeps (delete_cached_item k).
Proof. intros w id. apply delete_cached_item_keeps. Qed.
Lemma keeps_metadata id m : keeps (insert_payment_metadata id m).
Proof. intros w id'. apply insert_payment_metadata_keeps. Qed.
Lemma keeps_get_payment id : keeps (get_payment_by_id id).
Proof. intros w id'. apply get_payment_by_id_keeps. Qed.
Lemma keeps_get_parents ids : keeps (get_payments_by_parent_ids ids).
Proof. intros w id'. apply get_payments_by_parent_ids_keeps. Qed.
End laws.

Abbreviation keeps := (se_preserves same_stored).
#[export] Hint Resolve keeps_get_cached keeps_set_cached keeps_delete_cached
  keeps_metadata keeps_get_payment keeps_get_parents : preserves.

Section bitcoin.
Context {W : Type} {pt : PaymentTypes} {ip : InvoiceParsers} {cs : CacheStorage W}
  {ps : PaymentStorage W} {sw : SyncWallet W}.
Context {s_sync : Serde CachedSyncInfo} {s_token : Serde TokenMetadata}
  {s_payment : Serde PaymentMetadata}.
Context {cl : CacheStorageLaws W} {pl : PaymentStorageLaws W} {l_sync : SerdeLaws CachedSyncInfo}.

Lemma keeps_fetch_json {A} `{Serde A} key : keeps (fetch_json (W := W) (A := A) key).
Proof. unfold fetch_json. solve_preserves. Qed.

Lemma keeps_save_json {A} `{Serde A} key (v : A) : keeps (save_json (W := W) key v).
Proof. unfold save_json. solve_preserves. Qed.

#[local] Hint Resolve keeps_fetch_json keeps_save_json : preserves.

Lemma keeps_apply_metadata p : keeps (apply_payment_metadata p).
Proof.
  unfold apply_payment_metadata, of_storage, fetch_payment_metadata, delete_payment_metadata.
  solve_preserves.
Qed.

Lemma keeps_should_emit b p : keeps (should_emit b p).
Proof. unfold should_emit. solve_preserves. Qed.

Lemma keeps_emit_event p : keeps (get_payment_and_emit_event p).
Proof.
  unfold get_payment_and_emit_event, get_payment_with_conversion_details, of_storage.
  solve_preserves; intros w id; apply emit_keeps.
Qed.

Lemma payment_try_from_id t p : Payment_try_from t = Ok p → p_id p = wt_id t.
Proof.
  unfold Payment_try_from. case_bool_decide; [done|].
  destruct (request_amounts _ _) as [[st fee] amt]. intros (d & _ & Hp)%rbind_ok.
  by destruct d; injection Hp as <-.
Qed.

(** Inserting the payment never fails; saving the sync info never does. *)
Definition inserts (p : Payment) : Prop := ∀ w, ∃ w', insert_payment p w = (w', Ok ()).
Definition saves_succeed : Prop := ∀ info w, ∃ w', save_sync_info info w = (w', Ok ()).

Lemma store_payment_ok b p w w' r :
  store_payment b p w = (w', r) →
  (inserts p → stored w' (p_id p) = Some (core p)) ∧ ∀ id, id ≠ p_id p → stored w' id = stored w id.
Proof.
  unfold store_payment. intros Hrun. unfold se_bind in Hrun.
  destruct (should_emit b p w) as [w1 [e|e]] eqn:He.
  - pose proof (se_preserves_run _ _ _ _ _ (keeps_should_emit b p) He) as K1.
    unfold se_try in Hrun.
    assert (∀ id, id ≠ p_id p → stored (insert_payment p w1).1 id = stored w1 id) as Hk
      by (intros id; apply insert_payment_keeps).
    assert (inserts p → stored (insert_payment p w1).1 (p_id p) = Some (core p)) as Hs.
    { intros Hins. destruct (Hins w1) as (w2 & Hi). rewrite Hi. by eapply insert_payment_ok. }
    destruct (insert_payment p w1) as [w2 x]. simpl in Hs, Hk.
    assert (∀ id, stored w' id = stored w2 id) as K2.
    { destruct e; [|by injection Hrun as <- _]. eapply (se_preserves_run same_stored); [apply keeps_emit_event|done]. }
    split; [intros Hins; by rewrite K2, Hs|]. intros id Hid. by rewrite K2, Hk, K1.
  - unfold should_emit in He. destruct (b || _); [|done]. unfold se_try in He.
    by destruct (get_payment_by_id _ _) in He.
Qed.

Lemma sync_transfer_ok b t w w' p :
  sync_transfer b t w = (w', Ok p) →
  Payment_try_from t = Ok p ∧ (inserts p → stored w' (wt_id t) = Some (core p)) ∧
  ∀ id, id ≠ wt_id t → stored w' id = stored w id.
Proof.
  unfold sync_transfer. intros (w1 & p' & Hp & Hrun)%se_bind_ok.
  injection Hp as <- Hp. unfold se_try in Hrun.
  destruct (apply_payment_metadata p' w) as [w2 rm] eqn:Hm.
  pose proof (se_preserves_run _ _ _ _ _ (keeps_apply_metadata p') Hm) as K1.
  apply se_bind_ok in Hrun as (w3 & [] & Hs & Hret). injection Hret as -> ->.
  apply store_payment_ok in Hs as [Hs Hk].
  rewrite (payment_try_from_id _ _ Hp) in Hs, Hk. split_and!; [done..|].
  intros id Hid. by rewrite Hk, K1.
Qed.

(** ** Pages *)

Definition is_pending (p : Payment) : bool := bool_decide (p_status p = Pending).
Definition pending_count (l : list Payment) : Z := Z.of_nat (length (List.filter is_pending l)).

Lemma pending_count_cons p l : pending_count (p :: l) = (if is_pending p then 1 else 0) + pending_count l.
Proof. unfold pending_count. simpl. destruct (is_pending p); simpl; lia. Qed.

Lemma pending_count_app l1 l2 : pending_count (l1 ++ l2) = pending_count l1 + pending_count l2.
Proof. unfold pending_count. rewrite List.filter_app, length_app. lia. Qed.

Lemma pending_count_bound l : 0 ≤ pending_count l ≤ Z.of_nat (length l).
Proof.
  induction l as [|p l IH]; [done|]. rewrite pending_count_cons. simpl. destruct (is_pending p); lia.
Qed.

(** The payments of some transfers, and each of them stored that the storage inserts. *)
Definition payments_of (ts : list WalletTransfer) (l : list Payment) : Prop :=
  Forall2 (λ t p, Payment_try_from t = Ok p) ts l.

Definition all_stored (w : W) (ts : list WalletTransfer) (l : list Payment) : Prop :=
  Forall2 (λ t p, inserts p → stored w (wt_id t) = Some (core p)) ts l.

Lemma all_stored_keeps w w' ts l :
  all_stored w ts l → (∀ t, t ∈ ts → stored w' (wt_id t) = stored w (wt_id t)) → all_stored w' ts l.
Proof.
  unfold all_stored. intros H Hk. induction H as [|t p ts l Ht H IH]; constructor.
  - rewrite Hk; [done|]. left.
  - apply IH. intros t' Ht'. apply Hk. by right.
Qed.

Lemma sync_transfers_ok b ts n w w' n' :
  sync_transfers b ts n w = (w', Ok n') → NoDup (wt_id <$> ts) →
  ∃ l, payments_of ts l ∧ all_stored w' ts l ∧
    (∀ id, id ∉ wt_id <$> ts → stored w' id = stored w id) ∧
    (0 ≤ n → n + Z.of_nat (length ts) < 2 ^ 64 → n' = n + pending_count l).
Proof.
  intros Hrun. revert n w Hrun. induction ts as [|t ts IH]; intros n w Hrun Hnd.
  - injection Hrun as <- <-. exists [].
    split; [constructor|]. split; [constructor|]. split; [done|].
    intros. unfold pending_count. simpl. lia.
  - apply se_bind_ok in Hrun as (w1 & p & Ht & Hrun).
    apply sync_transfer_ok in Ht as (Hp & Hs & Hk).
    cbn [fmap list_fmap] in Hnd. apply NoDup_cons in Hnd as [Hnin Hnd].
    apply IH in Hrun as (l & Hl & Hall & Hk' & Hn); [|done].
    exists (p :: l). split_and!.
    + by constructor.
    + constructor; [|done]. by rewrite Hk'.
    + intros id Hid. cbn [fmap list_fmap] in Hid. apply not_elem_of_cons in Hid as [? ?].
      by rewrite Hk', Hk.
    + intros H0 Hlt. rewrite pending_count_cons. cbn [length] in Hlt. rewrite Hn; unfold is_pending;
        case_bool_decide; unfold saturating_add, umax; lia.
Qed.
(** The operator has the transfers [L], oldest first, and serves the slices asked for with
    the next page as long as there is one. *)
Definition serves (L : list WalletTransfer) : Prop :=
  ∀ f w w' page, order f = Ascending → list_transfers f w = (w', Ok page) →
    items page = take (Z.to_nat (limit f)) (drop (Z.to_nat (offset f)) L) ∧
    match next page with
    | None => Z.of_nat (length L) ≤ offset f + limit f
    | Some n => n = PagingFilter_next f ∧ offset f + limit f ≤ Z.of_nat (length L)
    end.

(** The sync info the cache holds. *)
Definition saved_info (w : W) (info : CachedSyncInfo) : Prop :=
  match cached w SYNC_OFFSET_KEY with
  | Some json => from_json json = Ok info
  | None => info = CachedSyncInfo_default
  end.

Lemma save_sync_info_ok info w w' :
  save_sync_info info w = (w', Ok ()) →
  saved_info w' info ∧ ∀ id, stored w' id = stored w id.
Proof.
  intros Hs. split; [|exact (se_preserves_run _ _ _ _ _ (keeps_save_json _ _) Hs)].
  apply save_json_ok in Hs as (json & Hj & Hset). apply set_cached_item_ok in Hset as [Hset _].
  unfold saved_info. rewrite Hset. by apply (serde_roundtrip info json).
Qed.

Lemma fetch_sync_info_ok w w' r :
  of_storage fetch_sync_info w = (w', Ok r) →
  saved_info w (default CachedSyncInfo_default r) ∧ ∀ id, stored w' id = stored w id.
Proof.
  intros Hf. split; [|exact (se_preserves_run _ _ _ _ _ (se_preserves_map_err _ _ _ (keeps_fetch_json _)) Hf)].
  apply se_map_err_ok in Hf. apply fetch_json_ok in Hf. unfold saved_info.
  destruct (cached w SYNC_OFFSET_KEY); [by destruct Hf as (v & ? & ->)|by rewrite Hf].
Qed.

(** The payments of the transfers [ts], stored in [w'] when the storage inserts them, and no
    other payment changed. *)
Definition synced (w w' : W) (ts : list WalletTransfer) (l : list Payment) : Prop :=
  payments_of ts l ∧ all_stored w' ts l ∧ ∀ id, id ∉ wt_id <$> ts → stored w' id = stored w id.

Lemma synced_app w1 w2 w3 ts1 ts2 l1 l2 :
  NoDup (wt_id <$> ts1 ++ ts2) → synced w1 w2 ts1 l1 → synced w2 w3 ts2 l2 →
  synced w1 w3 (ts1 ++ ts2) (l1 ++ l2).
Proof.
  rewrite fmap_app. intros (_ & Hdisj & _)%NoDup_app (P1 & A1 & K1) (P2 & A2 & K2). split_and!.
  - by apply Forall2_app.
  - apply Forall2_app; [|done]. eapply all_stored_keeps; [done|]. intros t Ht. apply K2.
    apply Hdisj. by apply list_elem_of_fmap_2.
  - intros id Hid. rewrite fmap_app, elem_of_app in Hid. rewrite K2, K1; [done|naive_solver..].
Qed.

Lemma synced_keeps w1 w2 w3 ts l :
  synced w1 w2 ts l → (∀ id, stored w3 id = stored w2 id) → synced w1 w3 ts l.
Proof.
  intros (P & A & K) H. split_and!; [done| |].
  - by eapply all_stored_keeps.
  - intros id Hid. by rewrite H, K.
Qed.

Lemma synced_keeps_l w0 w1 w2 ts l :
  (∀ id, stored w1 id = stored w0 id) → synced w1 w2 ts l → synced w0 w2 ts l.
Proof. intros H (P & A & K). split_and!; [done..|]. intros id Hid. by rewrite <- H, K. Qed.

Lemma payments_of_length ts l : payments_of ts l → length ts = length l.
Proof. apply Forall2_length. Qed.

Lemma sync_pages_ok L fuel b lf f n w w' :
  sync_pages fuel b lf f n w = (w', Some (Ok ())) →
  serves L → NoDup (wt_id <$> L) →
  Z.of_nat (length L) < 2 ^ 62 → order f = Ascending → limit f = PAYMENT_SYNC_BATCH_SIZE →
  0 ≤ offset f ≤ Z.of_nat (length L) → 0 ≤ n ≤ offset f →
  ∃ l, synced w w' (drop (Z.to_nat (offset f)) L) l ∧
    (saves_succeed →
     saved_info w' {| info_offset := saturating_sub (Z.of_nat (length L)) (n + pending_count l);
                      last_synced_final_token_payment_id := lf |}).
Proof.
  unfold PAYMENT_SYNC_BATCH_SIZE.
  intros Hrun Hserve Hnd Hlen. revert f n w Hrun.
  induction fuel as [|fuel IH]; intros f n w Hrun Hord Hlim Hoff Hn; [done|].
  cbn [sync_pages] in Hrun. destruct (list_transfers f w) as [w1 [page|e]] eqn:Hlist; [|done].
  destruct (Hserve _ _ _ _ Hord Hlist) as [Hitems Hnext]. rewrite Hlim in Hitems, Hnext.
  assert (∀ id, stored w1 id = stored w id) as K1.
  { intros id. pose proof (list_transfers_keeps f w id) as K. by rewrite Hlist in K. }
  set (rest := drop (Z.to_nat (offset f)) L) in *.
  assert (rest = items page ++ drop 50 rest) as Hrest.
  { rewrite Hitems. symmetry. apply (take_drop 50). }
  assert (NoDup (wt_id <$> rest)) as Hndr.
  { unfold rest. rewrite fmap_drop. eapply sublist_NoDup; [exact Hnd|apply sublist_drop]. }
  assert (length rest = (length L - Z.to_nat (offset f))%nat) as Hlr by apply length_drop.
  rewrite Hrest in Hndr. pose proof Hndr as Hndp. rewrite fmap_app in Hndp.
  apply NoDup_app in Hndp as (Hndp & _ & _).
  destruct (sync_transfers b (items page) n w1) as [w2 [n'|e]] eqn:Hpage; [|done].
  apply sync_transfers_ok in Hpage as (l1 & P1 & A1 & K2 & Hn'); [|done..].
  assert (length (items page) ≤ 50)%nat as Hlp by (rewrite Hitems, length_take; lia).
  assert (n' = n + pending_count l1) as -> by (apply Hn'; lia). clear Hn'.
  pose proof (pending_count_bound l1) as Hb1. rewrite <- (payments_of_length _ _ P1) in Hb1.
  match type of Hrun with context [save_sync_info ?i w2] => set (info := i) in Hrun end.
  destruct (save_sync_info info w2) as [w3 rs] eqn:Hsaving.
  pose proof (se_preserves_run _ _ _ _ _ (keeps_save_json _ _) Hsaving) as K3.
  assert (saves_succeed → saved_info w3 info) as Hs.
  { intros Hsave. destruct (Hsave info w2) as (w3' & Hok). rewrite Hsaving in Hok. injection Hok as <- ->.
    by apply save_sync_info_ok in Hsaving as [Hs _]. }
  assert (synced w w3 (items page) l1) as S1.
  { eapply synced_keeps_l; [apply K1|]. eapply synced_keeps; [|apply K3]. done. }
  destruct (next page) as [f'|].
  - destruct Hnext as [-> Hle].
    assert (offset (PagingFilter_next f) = offset f + 50) as Hoff'.
    { unfold PagingFilter_next, wadd. simpl. rewrite Hlim. apply wrap_small. split; lia. }
    assert (length (items page) = 50%nat) as H50 by (rewrite Hitems, length_take; lia).
    apply IH in Hrun as (l2 & S2 & Hsaved); [|done|done|lia|lia].
    rewrite Hoff' in S2. replace (drop (Z.to_nat (offset f + 50)) L) with (drop 50 rest) in S2
      by (unfold rest; rewrite drop_drop; f_equal; lia).
    exists (l1 ++ l2). split.
    + rewrite Hrest. by eapply synced_app.
    + rewrite pending_count_app, Z.add_assoc. exact Hsaved.
  - injection Hrun as <-. assert (drop 50 rest = []) as Hd by (apply drop_ge; lia).
    rewrite Hd, app_nil_r in Hrest. exists l1. rewrite Hrest. split; [done|].
    unfold info, PagingResult_len in Hs. rewrite <- Hrest in Hs.
    replace (saturating_add 64 (offset f) (Z.of_nat (length rest))) with (Z.of_nat (length L)) in Hs;
      [done|]. unfold saturating_add, umax. lia.
Qed.
(** ** A sync catches up *)

(** Everything before the offset [o] is stored with a status that no longer changes. *)
Definition caught_up (L : list WalletTransfer) (o : Z) (w : W) : Prop :=
  0 ≤ o ≤ Z.of_nat (length L) ∧
  ∀ i t, Z.of_nat i < o → L !! i = Some t →
    ∃ p, Payment_try_from t = Ok p ∧ is_final (p_status p) ∧ stored w (wt_id t) = Some (core p).

(** No final transfer comes after a pending one. *)
Definition pending_last (ts : list WalletTransfer) : Prop :=
  ∃ done pending, ts = done ++ pending ∧
    (∀ t p, t ∈ done → Payment_try_from t = Ok p → is_final (p_status p)) ∧
    (∀ t p, t ∈ pending → Payment_try_from t = Ok p → p_status p = Pending).

Lemma is_pending_final p : is_pending p = negb (is_final (p_status p)).
Proof. unfold is_pending. case_bool_decide as H; by destruct (p_status p). Qed.

Lemma pending_count_none ts l :
  payments_of ts l → (∀ t p, t ∈ ts → Payment_try_from t = Ok p → is_final (p_status p)) →
  pending_count l = 0.
Proof.
  induction 1 as [|t p ts l Ht _ IH]; intros Hf; [done|].
  rewrite pending_count_cons, is_pending_final, IH by (intros; eapply Hf; [by right|done]).
  specialize (Hf t p ltac:(left) Ht). by destruct (is_final (p_status p)).
Qed.

Lemma pending_count_all ts l :
  payments_of ts l → (∀ t p, t ∈ ts → Payment_try_from t = Ok p → p_status p = Pending) →
  pending_count l = Z.of_nat (length ts).
Proof.
  induction 1 as [|t p ts l Ht _ IH]; intros Hf; [done|]. cbn [length].
  rewrite pending_count_cons, IH by (intros; eapply Hf; [by right|done]).
  unfold is_pending. rewrite (Hf t p ltac:(left) Ht), bool_decide_eq_true_2 by done. lia.
Qed.

Lemma payments_of_lookup ts l i t :
  payments_of ts l → ts !! i = Some t → ∃ p, l !! i = Some p ∧ Payment_try_from t = Ok p.
Proof. intros H Hi. destruct (Forall2_lookup_l _ _ _ _ _ H Hi) as (p & ? & ?). by exists p. Qed.

Lemma all_stored_lookup w ts l i t p :
  all_stored w ts l → ts !! i = Some t → l !! i = Some p → inserts p → stored w (wt_id t) = Some (core p).
Proof. intros H Ht Hp. by apply (Forall2_lookup_lr _ _ _ _ _ _ H Ht Hp). Qed.

(** Transfers before the window of a sync keep their entry, the others have a new one. *)
Lemma synced_before L o w w' l i t :
  NoDup (wt_id <$> L) → synced w w' (drop o L) l → (i < o)%nat → L !! i = Some t →
  stored w' (wt_id t) = stored w (wt_id t).
Proof.
  intros Hnd (_ & _ & K) Hio Ht. apply K. rewrite <- (take_drop o L), fmap_app in Hnd.
  apply NoDup_app in Hnd as (_ & Hdisj & _). apply Hdisj. apply list_elem_of_fmap_2.
  apply (list_elem_of_lookup_2 _ i). by rewrite lookup_take_lt.
Qed.

Lemma synced_from L o w w' l i t :
  synced w w' (drop o L) l → L !! i = Some t → (o ≤ i)%nat →
  drop o L !! (i - o)%nat = Some t ∧
  ∃ p, Payment_try_from t = Ok p ∧ (inserts p → stored w' (wt_id t) = Some (core p)).
Proof.
  intros (P & A & _) Ht Hio. assert (drop o L !! (i - o)%nat = Some t) as Hd
    by (rewrite lookup_drop; by replace (o + (i - o))%nat with i by lia).
  split; [done|]. destruct (payments_of_lookup _ _ _ _ P Hd) as (p & Hp & Hpay).
  exists p. split; [done|]. by eapply all_stored_lookup.
Qed.

(** Final transfers before pending ones: the pending are as many as the last ones. *)
Lemma pending_suffix ts l fin pend :
  payments_of ts l → ts = fin ++ pend →
  (∀ t p, t ∈ fin → Payment_try_from t = Ok p → is_final (p_status p)) →
  (∀ t p, t ∈ pend → Payment_try_from t = Ok p → p_status p = Pending) →
  Z.of_nat (length fin) = Z.of_nat (length ts) - pending_count l.
Proof.
  intros P -> Hfinal Hpend. apply Forall2_app_inv_l in P as (l1 & l2 & P1 & P2 & ->).
  rewrite pending_count_app, (pending_count_none fin l1), (pending_count_all pend l2) by done.
  rewrite length_app. lia.
Qed.

(** C32: suppose the operator serves the transfers of a list, oldest first and each once, and
    those before the saved offset are stored and final (at the first sync there are none). Then a
    sync of the transfers that succeeds has stored every further transfer with its present
    status whose payment the storage does not fail to insert (a failed insert is only logged
    and the offset moves past it). When saving the sync info does not fail either (it is only
    logged too), the new offset is the number of transfers less the pending ones read; and when
    all inserts succeeded and the pending transfers come last, everything before the new offset
    is stored and final again, so the next sync misses nothing. *)
Theorem bitcoin_sync_catches_up L fuel b w w' info :
  sync_bitcoin_payments_to_storage fuel b w = (w', Some (Ok ())) →
  serves L → NoDup (wt_id <$> L) → Z.of_nat (length L) < 2 ^ 62 →
  saved_info w info → caught_up L (info_offset info) w →
  (∀ t, t ∈ L → ∃ p, Payment_try_from t = Ok p ∧ (inserts p → stored w' (wt_id t) = Some (core p))) ∧
  ∃ l, payments_of (drop (Z.to_nat (info_offset info)) L) l ∧
    (saves_succeed → ∃ info', saved_info w' info' ∧
       info_offset info' = Z.of_nat (length L) - pending_count l ∧
       last_synced_final_token_payment_id info' = last_synced_final_token_payment_id info ∧
       ((∀ p, p ∈ l → inserts p) → pending_last (drop (Z.to_nat (info_offset info)) L) →
        caught_up L (info_offset info') w')).
Proof.
  unfold sync_bitcoin_payments_to_storage. intros Hrun Hserve Hnd Hlen Hinfo [Ho Hfin].
  destruct (of_storage fetch_sync_info w) as [w1 [r|e]] eqn:Hf; [|done].
  apply fetch_sync_info_ok in Hf as [Hi K1].
  assert (default CachedSyncInfo_default r = info) as Hr.
  { unfold saved_info in *. destruct (cached w SYNC_OFFSET_KEY); simplify_eq; congruence. }
  rewrite Hr in Hrun. eapply (sync_pages_ok L) in Hrun as (l & S & Hsaved); [|done..|simpl; lia].
  apply (synced_keeps_l w) in S; [|done]. simpl in S. clear K1 Hr Hi r Hinfo.
  set (o := Z.to_nat (info_offset info)) in *.
  assert (∀ i t, (i < o)%nat → L !! i = Some t →
    ∃ p, Payment_try_from t = Ok p ∧ is_final (p_status p) ∧ stored w' (wt_id t) = Some (core p)) as Hold.
  { intros i t Hio Ht. destruct (Hfin i t) as (p & Hp & Hfp & Hst); [lia|done|].
    exists p. split_and!; [done..|]. by rewrite (synced_before L o w w' l i t). }
  split.
  - intros t [i Hi]%list_elem_of_lookup_1. destruct (decide (i < o)%nat) as [Hio|Hio].
    + destruct (Hold i t Hio Hi) as (p & ? & _ & ?). by exists p.
    + by apply (synced_from L o w w' l i t S Hi ltac:(lia)).
  - pose proof S as (P & A & _). pose proof (length_drop L o) as Hlo.
    pose proof (pending_count_bound l) as Hb. rewrite <- (payments_of_length _ _ P), Hlo in Hb.
    exists l. split; [done|]. intros Hsave. eexists. split; [exact (Hsaved Hsave)|]. simpl. unfold saturating_sub.
    split; [lia|]. split; [done|]. intros Hins (fin & pend & Hsplit & Hfinal & Hpend).
    pose proof (pending_suffix _ _ _ _ P Hsplit Hfinal Hpend) as Hc. rewrite Hlo in Hc.
    split; [lia|]. intros i t Hi Ht.
    destruct (decide (i < o)%nat) as [Hio|Hio]; [by apply (Hold i)|].
    assert (drop o L !! (i - o)%nat = Some t) as Hd
      by (rewrite lookup_drop; by replace (o + (i - o))%nat with i by lia).
    destruct (payments_of_lookup _ _ _ _ P Hd) as (p & Hlp & Hp). exists p. split; [done|]. split.
    + apply (Hfinal t p); [|done]. rewrite Hsplit, lookup_app_l in Hd by lia. by apply (list_elem_of_lookup_2 _ (i - o)).
    + eapply all_stored_lookup; [exact A|exact Hd|exact Hlp|]. by apply Hins, (list_elem_of_lookup_2 _ (i - o)).
Qed.
End bitcoin.

Section termination.
Context {W : Type} {pt : PaymentTypes} {ip : InvoiceParsers} {cs : CacheStorage W}
  {ps : PaymentStorage W} {sw : SyncWallet W}.
Context {s_sync : Serde CachedSyncInfo} {s_token : Serde TokenMetadata}
  {s_payment : Serde PaymentMetadata}.

Lemma sync_pages_ends L fuel b lf f n w :
  serves L → Z.of_nat (length L) < 2 ^ 62 → order f = Ascending →
  limit f = PAYMENT_SYNC_BATCH_SIZE → 0 ≤ offset f →
  Z.of_nat (length L) < offset f + 50 * Z.of_nat fuel → (0 < fuel)%nat →
  ∃ r, (sync_pages fuel b lf f n w).2 = Some r.
Proof.
  intros Hserve Hlen. revert f n w.
  induction fuel as [|fuel IH]; intros f n w Hord Hlim Hoff Hfuel Hpos; [lia|].
  cbn [sync_pages]. destruct (list_transfers f w) as [w1 [page|e]] eqn:Hlist; [|by eexists].
  destruct (Hserve _ _ _ _ Hord Hlist) as [_ Hnext]. rewrite Hlim in Hnext.
  unfold PAYMENT_SYNC_BATCH_SIZE in *.
  destruct (sync_transfers b (items page) n w1) as [w2 [n'|e]]; [|by eexists].
  destruct (save_sync_info _ w2) as [w3 r]. destruct (next page) as [f'|]; [|by eexists].
  destruct Hnext as [-> Hle].
  assert (offset (PagingFilter_next f) = offset f + 50) as Hoff'.
  { unfold PagingFilter_next, wadd. simpl. rewrite Hlim. apply wrap_small. split; lia. }
  apply IH; [done|done|lia|lia|lia].
Qed.

(** A sync of the transfers ends: one turn per fifty transfers, and two more. *)
Lemma bitcoin_sync_ends L fuel b w :
  serves L → Z.of_nat (length L) < 2 ^ 62 →
  (∀ w' r, of_storage fetch_sync_info w = (w', Ok r) →
     0 ≤ info_offset (default CachedSyncInfo_default r)) →
  Z.of_nat (length L) < 50 * Z.of_nat fuel →
  ∃ r, (sync_bitcoin_payments_to_storage fuel b w).2 = Some r.
Proof.
  intros Hserve Hlen Hoff Hfuel. unfold sync_bitcoin_payments_to_storage.
  destruct (of_storage fetch_sync_info w) as [w1 [r|e]] eqn:Hf; [|by eexists].
  specialize (Hoff _ _ eq_refl).
  apply (sync_pages_ends L); try done; simpl; lia.
Qed.

(** The operator has the token transactions [T], newest first. *)
Definition serves_tokens (T : list TokenTransaction) : Prop :=
  ∀ o w w' page, list_token_transactions (token_page o) w = (w', Ok page) →
    items page = take 50 (drop (Z.to_nat o) T).

Lemma collect_token_payments_ends T fuel lf o acc w :
  serves_tokens T → Z.of_nat (length T) < 2 ^ 62 → 0 ≤ o →
  Z.of_nat (length T) < o + 50 * Z.of_nat fuel → (0 < fuel)%nat →
  ∃ r, (collect_token_payments fuel lf o acc w).2 = Some r.
Proof.
  intros Hserve Hlen. revert o acc w.
  induction fuel as [|fuel IH]; intros o acc w Ho Hfuel Hpos; [lia|].
  cbn [collect_token_payments].
  destruct (list_token_transactions _ w) as [w1 [page|e]] eqn:Hlist; [|by eexists].
  apply Hserve in Hlist. cbv zeta. rewrite Hlist.
  destruct (take 50 (drop (Z.to_nat o) T)) as [|tx txs] eqn:Htxs; [by eexists|].
  rewrite <- Htxs. case_match; [by eexists|].
  destruct (get_token_transactions_by_hashes _ w1) as [w2 [parents|e]]; [|by eexists].
  destruct (page_payments _ _ _ w2) as [w3 [[new [|]]|e]]; [by eexists| |by eexists].
  unfold PAYMENT_SYNC_BATCH_SIZE. destruct (Z.eqb_spec (Z.of_nat (length (take 50 (drop (Z.to_nat o) T)))) 50)
    as [H50|_]; [|by eexists].
  rewrite H50. rewrite length_take, length_drop in H50.
  unfold saturating_add, umax. rewrite Z.min_l by lia. apply IH; lia.
Qed.
End termination.

(** ** The payments of a token transaction *)

Section token_payments.
Context {pt : PaymentTypes} {ip : InvoiceParsers} {W : Type} {sw : SyncWallet W}.

Lemma split_last_colon (l1 l2 d1 d2 : list Ascii.ascii) :
  ":"%char ∉ d1 → ":"%char ∉ d2 → l1 ++ ":"%char :: d1 = l2 ++ ":"%char :: d2 → l1 = l2 ∧ d1 = d2.
Proof.
  revert l2. induction l1 as [|c l1 IH]; intros [|c' l2] H1 H2 H; simplify_eq/=.
  - done.
  - exfalso. apply H1. apply elem_of_app. right. left.
  - exfalso. apply H2. apply elem_of_app. right. left.
  - destruct (IH l2 H1 H2) as [-> ->]; done.
Qed.

Lemma list_ascii_app s1 s2 :
  String.list_ascii_of_string (s1 +:+ s2)
  = String.list_ascii_of_string s1 ++ String.list_ascii_of_string s2.
Proof. induction s1 as [|c s1 IH]; [done|]. simpl. by rewrite <- IH. Qed.

(** The identifier of a payment tells the transaction and the output. *)
Lemma token_payment_id_inj h1 h2 v1 v2 :
  Z.of_nat v1 < 2 ^ 64 → Z.of_nat v2 < 2 ^ 64 →
  token_payment_id h1 v1 = token_payment_id h2 v2 → h1 = h2 ∧ v1 = v2.
Proof.
  intros Hv1 Hv2 H. assert (∀ h v, Z.of_nat v < 2 ^ 64 →
    String.list_ascii_of_string (token_payment_id h v)
      = String.list_ascii_of_string h ++ ":"%char :: show_u64 (Z.of_nat v)) as Hl.
  { intros h v _. unfold token_payment_id, u64_to_string.
    by rewrite !list_ascii_app, String.list_ascii_of_string_of_list_ascii. }
  apply (f_equal String.list_ascii_of_string) in H. rewrite !Hl in H by done.
  assert (∀ v, Z.of_nat v < 2 ^ 64 → ":"%char ∉ show_u64 (Z.of_nat v)) as Hc.
  { intros v Hv Hin. destruct (show_u64_spec (Z.of_nat v)) as (ds & Hs & _ & Hds & _); [split; lia|].
    rewrite Hs in Hin. apply list_elem_of_fmap in Hin as (d & Hd & Hin).
    rewrite Forall_forall in Hds. specialize (Hds d Hin).
    pose proof (digit_ascii_neq d ":" Hds eq_refl) as Hne. rewrite <- Hd in Hne. done. }
  apply split_last_colon in H as [Hh Hv]; [|by apply Hc..]. split.
  - rewrite <- (String.string_of_list_ascii_of_string h1), Hh.
    apply String.string_of_list_ascii_of_string.
  - apply (f_equal parse_u64) in Hv. rewrite !parse_show_u64 in Hv by (split; lia). simplify_eq. lia.
Qed.

Context {cs : CacheStorage W} {s_token : Serde TokenMetadata}.

Definition owned (o : TokenOutput (PublicKey := Key)) : bool :=
  bool_decide (owner_public_key o = get_identity_public_key).

Definition token_total (l : list (TokenOutput (PublicKey := Key))) : Z := sumZ (token_amount <$> l).

(** Identifier, direction and amount of the payment an output makes. *)
Definition output_entry (tx : TokenTransaction) (ours : bool) (vout : nat)
    (o : TokenOutput (PublicKey := Key)) : option (string * PaymentType * Z) :=
  t ← output_payment_type get_identity_public_key ours (is_mint_transaction tx) o;
  Some (token_payment_id (tt_hash tx) vout, t, token_amount o).

Fixpoint output_entries (tx : TokenTransaction) (ours : bool) (vout : nat)
    (l : list (TokenOutput (PublicKey := Key))) : list (string * PaymentType * Z) :=
  match l with
  | [] => []
  | o :: l =>
      match output_entry tx ours vout o with Some e => [e] | None => [] end
      ++ output_entries tx ours (S vout) l
  end.

Definition payment_entry (p : Payment) : string * PaymentType * Z :=
  (p_id p, payment_type p, amount p).

Definition token_status (tx : TokenTransaction) : PaymentStatus :=
  PaymentStatus_from_token_transaction_status (tt_status tx) (is_transfer_transaction tx).

Lemma output_payment_ok md ts inv tx vout o t p :
  output_payment md ts inv tx vout o t = Ok p →
  payment_entry p = (token_payment_id (tt_hash tx) vout, t, token_amount o)
  ∧ p_status p = token_status tx ∧ fees p = 0.
Proof.
  unfold output_payment. intros (ty & _ & H)%rbind_ok. apply rbind_ok in H as (k & _ & H).
  by injection H as <-.
Qed.

Lemma output_payments_ok md ts inv tx ours vout l payments :
  output_payments md ts inv tx ours vout l = Ok payments →
  payment_entry <$> payments = output_entries tx ours vout l ∧
  Forall (λ p, p_status p = token_status tx ∧ fees p = 0) payments.
Proof.
  revert vout payments. induction l as [|o l IH]; intros vout payments H; simpl in H.
  - by injection H as <-.
  - simpl. unfold output_entry.
    destruct (output_payment_type _ _ _ o) as [t|]; simpl; [|by apply IH].
    apply rbind_ok in H as (p & Hp & H). apply rbind_ok in H as (rest & Hrest & H).
    injection H as <-. apply output_payment_ok in Hp as (He & Hst).
    apply IH in Hrest as [Hr Hf]. cbn [fmap list_fmap]. rewrite He. split; [|by constructor].
    f_equal. exact Hr.
Qed.

Lemma output_entries_ids tx ours vout l id t a :
  (id, t, a) ∈ output_entries tx ours vout l →
  ∃ v, (vout ≤ v < vout + length l)%nat ∧ id = token_payment_id (tt_hash tx) v.
Proof.
  revert vout. induction l as [|o l IH]; intros vout; [by intros ?%not_elem_of_nil|].
  cbn [output_entries length]. intros [H|H]%elem_of_app.
  - unfold output_entry in H. destruct (output_payment_type _ _ _ o); simpl in H; [|by apply not_elem_of_nil in H].
    apply list_elem_of_singleton in H. simplify_eq. exists vout. split; [lia|done].
  - apply IH in H as (v & Hv & ->). exists v. split; [lia|done].
Qed.

Lemma output_entries_nodup tx ours vout l :
  Z.of_nat (vout + length l) < 2 ^ 64 → NoDup ((λ e, e.1.1) <$> output_entries tx ours vout l).
Proof.
  revert vout. induction l as [|o l IH]; intros vout Hlen; [constructor|].
  cbn [output_entries length] in *. rewrite fmap_app.
  assert (NoDup ((λ e, e.1.1) <$> output_entries tx ours (S vout) l)) as Hrest by (apply IH; lia).
  unfold output_entry. destruct (output_payment_type _ _ _ o) as [t|]; simpl; [|done].
  constructor; [|done]. intros ([[id t'] a] & Hid & Hin)%list_elem_of_fmap. simpl in Hid.
  apply output_entries_ids in Hin as (v & Hv & Hidv). rewrite Hidv in Hid.
  apply token_payment_id_inj in Hid as [_ ->]; lia.
Qed.

(** What the outputs that make a payment are worth. *)
Lemma output_entries_total tx ours vout l :
  is_mint_transaction tx = false ∨ ours = false →
  sumZ ((λ e, e.2) <$> output_entries tx ours vout l)
  = if ours then token_total (List.filter (λ o, negb (owned o)) l)
    else token_total (List.filter owned l).
Proof.
  intros Hm. unfold token_total. revert vout. induction l as [|o l IH]; intros vout; [by destruct ours|].
  cbn [output_entries List.filter]. rewrite fmap_app, sumZ_app, IH.
  unfold output_entry, output_payment_type. fold (owned o). cbv zeta.
  destruct ours, (owned o), (is_mint_transaction tx); destruct Hm; try done; simpl;
    by rewrite ?Z.add_0_r.
Qed.

(** the payments of a token transaction are exactly those of the outputs that leave the
    wallet (inputs ours, output not) or enter it (inputs not ours or minted, output ours),
    in order, with the amount of the output and the status of the transaction; their
    identifiers differ; together they amount to what other owners receive, or to what the
    wallet receives -- never to the change. *)
Theorem token_payments_match_outputs tx ours w w' payments :
  token_transaction_to_payments tx ours w = (w', Ok payments) →
  Z.of_nat (length (outputs tx)) < 2 ^ 64 →
  payment_entry <$> payments = output_entries tx ours 0 (outputs tx) ∧
  NoDup (p_id <$> payments) ∧
  Forall (λ p, p_status p = token_status tx ∧ fees p = 0) payments ∧
  (is_mint_transaction tx = false ∨ ours = false →
   sumZ (amount <$> payments)
   = if ours then token_total (List.filter (λ o, negb (owned o)) (outputs tx))
     else token_total (List.filter owned (outputs tx))).
Proof.
  unfold token_transaction_to_payments. intros Hrun Hlen.
  assert (∃ md ts inv, output_payments md ts inv tx ours 0 (outputs tx) = Ok payments) as (md & ts & inv & H).
  { destruct (outputs tx) as [|o l] eqn:Ho; simpl in Hrun.
    - injection Hrun as _ <-.
      by exists {| md_identifier := ""; md_issuer_public_key := ""; md_name := ""; md_ticker := "";
                   md_decimals := 0; md_max_supply := 0; md_is_freezable := false |}, 0, [].
    - apply se_bind_ok in Hrun as (w1 & all & _ & Hrun). apply se_bind_ok in Hrun as (w2 & md & _ & Hrun).
      apply se_bind_ok in Hrun as (w3 & ts & _ & Hrun). injection Hrun as _ Hrun. by eexists _, _, _. }
  apply output_payments_ok in H as [He Hf]. split; [done|].
  assert ((λ e, e.1.1) <$> (payment_entry <$> payments) = p_id <$> payments) as Hids
    by (rewrite <- list_fmap_compose; done).
  assert ((λ e, e.2) <$> (payment_entry <$> payments) = amount <$> payments) as Hamt
    by (rewrite <- list_fmap_compose; done).
  split; [|split; [done|]].
  - rewrite <- Hids, He. by apply output_entries_nodup.
  - intros Hm. rewrite <- Hamt, He. by apply output_entries_total.
Qed.
End token_payments.

(** ** Example: maps as the storage *)

#[local] Existing Instance example_payment_types.
#[local] Existing Instance example_parsers.

Record ExampleWorld : Type := {
  ew_cache : gmap string string;
  ew_payments : gmap string Payment;
  ew_events : list SdkEvent
}.

Definition set_cache (c : gmap string string) (w : ExampleWorld) : ExampleWorld :=
  {| ew_cache := c; ew_payments := ew_payments w; ew_events := ew_events w |}.

Definition set_payments (p : gmap string Payment) (w : ExampleWorld) : ExampleWorld :=
  {| ew_cache := ew_cache w; ew_payments := p; ew_events := ew_events w |}.

#[local] Instance example_cache : CacheStorage ExampleWorld := {|
  get_cached_item k := λ w, (w, Ok (ew_cache w !! k));
  set_cached_item k v := λ w, (set_cache (<[k := v]> (ew_cache w)) w, Ok ());
  delete_cached_item k := λ w, (set_cache (delete k (ew_cache w)) w, Ok ())
|}.

#[local] Instance example_cache_laws : CacheStorageLaws ExampleWorld.
Proof.
  refine {| cached := λ w k, ew_cache w !! k |}.
  - intros k w w' v [= <- <-]. done.
  - intros k v w w' [= <-]. split; [apply lookup_insert_eq|]. intros k' Hne. by apply lookup_insert_ne.
  - intros k w w' [= <-]. split; [apply lookup_delete_eq|]. intros k' Hne. by apply lookup_delete_ne.
Defined.

#[local] Instance example_payment_storage : PaymentStorage ExampleWorld := {|
  insert_payment p := λ w, (set_payments (<[p_id p := p]> (ew_payments w)) w, Ok ());
  insert_payment_metadata _ _ := λ w, (w, Ok ());
  get_payment_by_id id := λ w, (w, ok_or (ew_payments w !! id) StorageNotFound);
  get_payments_by_parent_ids _ := λ w, (w, Ok ∅)
|}.

(** A wallet with transfers [L] and token transactions [T]. *)
Definition example_wallet (L : list WalletTransfer) (T : list TokenTransaction) : SyncWallet ExampleWorld := {|
  list_transfers f := λ w,
    (w, Ok {| items := take (Z.to_nat (limit f)) (drop (Z.to_nat (offset f)) L);
              next := if offset f + limit f <? Z.of_nat (length L)
                      then Some (PagingFilter_next f) else None |});
  list_token_transactions f := λ w,
    (w, Ok {| items := take (Z.to_nat (limit f)) (drop (Z.to_nat (offset f)) T);
              next := None |});
  get_token_transactions_by_hashes _ := λ w, (w, Ok T);
  get_tokens_metadata ids := λ w,
    (w, Ok ((λ id, {| md_identifier := id; md_issuer_public_key := ""; md_name := id; md_ticker := id;
                      md_decimals := 0; md_max_supply := 1000; md_is_freezable := false |}) <$> ids));
  get_identity_public_key := example_key 7;
  emit e := λ w, {| ew_cache := ew_cache w; ew_payments := ew_payments w;
                    ew_events := ew_events w ++ [e] |}
|}.

#[local] Instance example_payment_laws L T : PaymentStorageLaws (sw := example_wallet L T) ExampleWorld.
Proof.
  refine {| stored := λ w id, core <$> ew_payments w !! id |}; try done.
  - intros p w w' [= <-]. simpl. by rewrite lookup_insert_eq.
  - intros p w id Hne. simpl. by rewrite lookup_insert_ne.
Defined.

(** Sync infos as the bits of their numbers. *)
Fixpoint bits (p : positive) : string :=
  match p with
  | xH => "" | xO p => String "0" (bits p) | xI p => String "1" (bits p)
  end.

Fixpoint of_bits (s : string) : positive :=
  match s with
  | EmptyString => xH
  | String c s => if Ascii.eqb c "0" then xO (of_bits s) else xI (of_bits s)
  end.

Lemma of_bits_bits p : of_bits (bits p) = p.
Proof. induction p as [p IH|p IH|]; simpl; by rewrite ?IH. Qed.

#[local] Instance example_info_serde : Serde CachedSyncInfo := {|
  to_json i := Ok (bits (encode (info_offset i, last_synced_final_token_payment_id i)));
  from_json s :=
    let* (o, l) := ok_or (decode (A := Z * option string) (of_bits s)) "invalid" in
    Ok {| info_offset := o; last_synced_final_token_payment_id := l |}
|}.

#[local] Instance example_info_laws : SerdeLaws CachedSyncInfo.
Proof. intros [o l] s [= <-]. simpl. by rewrite of_bits_bits, decode_encode. Qed.

#[local] Instance example_token_serde : Serde TokenMetadata := {|
  to_json m := Ok (bits (encode (md_identifier m, md_issuer_public_key m, md_name m, md_ticker m,
                                 md_decimals m, md_max_supply m, md_is_freezable m)));
  from_json s :=
    let* (i, k, n, t, d, x, b) :=
      ok_or (decode (A := string * string * string * string * Z * Z * bool) (of_bits s)) "invalid" in
    Ok {| md_identifier := i; md_issuer_public_key := k; md_name := n; md_ticker := t;
          md_decimals := d; md_max_supply := x; md_is_freezable := b |}
|}.
#[local] Instance example_metadata_serde : Serde PaymentMetadata := no_serde _.

Definition example_world : ExampleWorld := {| ew_cache := ∅; ew_payments := ∅; ew_events := [] |}.

(** A settled transfer, one under way. *)
Definition done_transfer := example_transfer "done" TransferCompleted PlainTransfer None.
Definition open_transfer := example_transfer "open" SenderInitiated PlainTransfer None.


Lemma example_serves L T : serves (sw := example_wallet L T) L.
Proof.
  intros f w w' page _ [= _ <-]. simpl. split; [done|].
  destruct (Z.ltb_spec (offset f + limit f) (Z.of_nat (length L))); simpl; [split; [done|]|]; lia.
Qed.

Definition succeeds {E A} (r : option (result A E)) : bool :=
  match r with Some (Ok _) => true | _ => false end.

Lemma succeeds_unit {W E} (x : W * option (result () E)) :
  succeeds x.2 = true → x = (x.1, Some (Ok ())).
Proof. by destruct x as [w [[[]|]|]]. Qed.

Definition example_sync L w : ExampleWorld * option (result () SdkError) :=
  sync_bitcoin_payments_to_storage (sw := example_wallet L []) 2 true w.

Lemma example_status t p s :
  (p_status <$> payment_or_fail t) = Some s → Payment_try_from t = Ok p → p_status p = s.
Proof. unfold payment_or_fail. intros Hs Hp. rewrite Hp in Hs. by injection Hs. Qed.

Lemma bitcoin_sync_catches_up_witness :
  let L := [done_transfer; open_transfer] in
  let w' := (example_sync L example_world).1 in
  example_sync L example_world = (w', Some (Ok ())) ∧
  ∃ info', saved_info w' info' ∧ info_offset info' = 1 ∧
    caught_up (pl := example_payment_laws L []) L 1 w'.
Proof.
  intros L w'.
  assert (example_sync L example_world = (w', Some (Ok ()))) as Hrun
    by (apply succeeds_unit; vm_compute; reflexivity).
  split; [exact Hrun|].
  destruct (bitcoin_sync_catches_up (sw := example_wallet L []) L 2 true example_world w'
    CachedSyncInfo_default Hrun) as (_ & l & Hl & Hsaved).
  - apply example_serves.
  - apply NoDup_cons. split; [by intros ?%list_elem_of_singleton|apply NoDup_singleton].
  - done.
  - done.
  - split; [done|]. simpl. lia.
  - destruct Hsaved as (info' & Hs & Ho & _ & Hc); [intros info w; by eexists|].
    assert (∀ t p, t ∈ [done_transfer] → Payment_try_from t = Ok p → is_final (p_status p)) as Hf.
    { intros t p ->%list_elem_of_singleton Hp.
      apply example_status with (s := Completed) in Hp; [by rewrite Hp|vm_compute; reflexivity]. }
    assert (∀ t p, t ∈ [open_transfer] → Payment_try_from t = Ok p → p_status p = Pending) as Hp
      by (intros t p ->%list_elem_of_singleton Hp; apply example_status with (s := Pending) in Hp;
          [exact Hp|vm_compute; reflexivity]).
    assert (pending_last L) as Hlast by (exists [done_transfer], [open_transfer]; done).
    assert (info_offset info' = 1) as H1
      by (rewrite Ho; symmetry; exact (pending_suffix L l [done_transfer] [open_transfer] Hl eq_refl Hf Hp)).
    exists info'. split; [exact Hs|]. split; [exact H1|]. rewrite <- H1. exact (Hc (λ p _ w, ex_intro _ _ eq_refl) Hlast).
Defined.

(** When a pending transfer comes before a final one, the offset moves past the pending one:
    the next sync, at which it has completed, never reads it again. *)
Lemma pending_before_final_is_skipped :
  let first := example_sync [open_transfer; done_transfer] example_world in
  let settled := example_transfer "open" TransferCompleted PlainTransfer None in
  let second := example_sync [settled; done_transfer] first.1 in
  (p_status <$> payment_or_fail settled) = Some Completed ∧ succeeds first.2 ∧ succeeds second.2 ∧
  (p_status <$> ew_payments first.1 !! "open") = Some Pending ∧
  (p_status <$> ew_payments second.1 !! "open") = Some Pending.
Proof. vm_compute. done. Qed.

(** ** Example: a token transfer to someone else, with change *)

Definition example_output (owner : Z) (amount : Z) : TokenOutput (PublicKey := Key) :=
  {| to_id := "output"; owner_public_key := example_key owner; revocation_commitment := "";
     withdraw_bond_sats := 0; withdraw_relative_block_locktime := 0; token_public_key := None;
     token_identifier := "token"; token_amount := amount |}.

Definition example_token_transaction : TokenTransaction :=
  {| tt_hash := "tx"; inputs := TransferInputs [{| prev_token_tx_hash := "parent"; prev_token_tx_vout := 0 |}];
     outputs := [example_output 7 10; example_output 3 90]; tt_status := Finalized;
     created_timestamp := 1000000000; fulfilled_invoices := [] |}.

Definition ok_or_default {E A} (d : A) (r : result A E) : A :=
  match r with Ok a => a | Err _ => d end.

Lemma token_payments_match_outputs_witness :
  let run := token_transaction_to_payments (sw := example_wallet [] []) example_token_transaction true
               example_world in
  ∃ payments, run = (run.1, Ok payments) ∧ sumZ (amount <$> payments) = 90.
Proof.
  intros run. exists (ok_or_default [] run.2).
  assert (run = (run.1, Ok (ok_or_default [] run.2))) as Hrun.
  { assert (is_ok run.2) as Hok by (vm_compute; reflexivity).
    destruct run as [w [l|e]]; [done|destruct Hok]. }
  split; [exact Hrun|].
  destruct (token_payments_match_outputs (sw := example_wallet [] []) example_token_transaction true
    example_world _ _ Hrun) as (_ & _ & _ & Ht); [by vm_compute|].
  rewrite Ht; [|by left]. vm_compute. reflexivity.
Defined.
