(* ===== verification/Deposits.v ===== *)
(** Static deposits: the bitcoin outputs paid to the wallet's deposit addresses.  The table
    of the SQLite storage ([core/src/persist/sqlite.rs]), the fetching of transactions
    ([core/src/utils/utxo_fetcher.rs]), the comparison of the storage with the operators
    ([core/src/utils/deposit_chain_syncer.rs]), the automatic claims
    ([core/src/sdk/sync.rs]) and the calls of the user ([core/src/sdk/deposits.rs]), against
    the chain service, the wallet and the storage. *)
From stdpp Require Import base gmap strings list.
From S2P Require Import Prelude TreeTypes TokenStore Paging SyncModel ObjectCache Payments PaymentSync Transactions.

Definition UTXO_PAGE_SIZE : Z := 100.
Definition CLAIM_TX_SIZE_VBYTES : Z := 99.

(** ** Data *)

Record TxOutput : Type := { o_txid : string; o_vout : Z }.

#[export] Instance TxOutput_eq_dec : EqDecision TxOutput.
Proof. solve_decision. Defined.
#[export] Instance TxOutput_countable : Countable TxOutput.
Proof.
  apply (inj_countable' (λ o, (o_txid o, o_vout o)) (λ p, {| o_txid := p.1; o_vout := p.2 |})).
  by intros [].
Defined.

Inductive DepositClaimError : Type :=
| DC_MaxDepositClaimFeeExceeded (tx : string) (vout : Z) (max_fee : option Fee)
    (required_fee_sats required_fee_rate_sat_per_vbyte : Z)
| DC_MissingUtxo (tx : string) (vout : Z)
| DC_Generic (message : string).

Definition DepositClaimError_from (value : SdkError) : DepositClaimError :=
  match value with
  | MaxDepositClaimFeeExceeded tx vout max_fee sats rate =>
      DC_MaxDepositClaimFeeExceeded tx vout max_fee sats rate
  | MissingUtxo tx vout => DC_MissingUtxo tx vout
  | SdkGeneric e => DC_Generic e
  | SparkError s => DC_Generic ("SparkSdkError: " +:+ s)
  | SdkInsufficientFunds => DC_Generic "Insufficient funds"
  | InvalidUuid s => DC_Generic ("Invalid UUID: " +:+ s)
  | InvalidInput s => DC_Generic ("Invalid input: " +:+ s)
  | NetworkError s => DC_Generic ("Network error: " +:+ s)
  | SdkStorageError s => DC_Generic ("Storage error: " +:+ s)
  | ChainServiceError s => DC_Generic ("Chain service error: " +:+ s)
  | LnurlError s => DC_Generic ("Lnurl error: " +:+ s)
  | SdkSigner s => DC_Generic ("Signer error: " +:+ s)
  end.

Record DepositInfo : Type := {
  di_txid : string;
  di_vout : Z;
  di_amount_sats : Z;
  di_is_mature : bool;
  refund_tx : option string;
  refund_tx_id : option string;
  claim_error : option DepositClaimError
}.

Definition deposit_key (d : DepositInfo) : TxOutput := {| o_txid := di_txid d; o_vout := di_vout d |}.

Inductive UpdateDepositPayload : Type :=
| ClaimErrorPayload (error : DepositClaimError)
| RefundPayload (refund_txid refund_tx : string).

Inductive MaxFee : Type :=
| MaxFixed (amount : Z)
| MaxRate (sat_per_vbyte : Z)
| NetworkRecommended (leeway_sat_per_vbyte : Z).

Definition to_sats (fee : Fee) (vbytes : Z) : Z :=
  match fee with
  | FixedFee amount => amount
  | RateFee sat_per_vbyte => saturating_mul 64 sat_per_vbyte vbytes
  end.

(** ** The table [unclaimed_deposits] of the SQLite storage: rows in the order of insertion *)

Definition row_is (o : TxOutput) (d : DepositInfo) : bool := bool_decide (deposit_key d = o).

Definition sql_add_deposit (o : TxOutput) (amount_sats : Z) (is_mature : bool)
    (rows : list DepositInfo) : list DepositInfo :=
  if existsb (row_is o) rows then
    (λ d, if row_is o d
          then {| di_txid := di_txid d; di_vout := di_vout d; di_amount_sats := amount_sats;
                  di_is_mature := is_mature; refund_tx := refund_tx d;
                  refund_tx_id := refund_tx_id d; claim_error := claim_error d |}
          else d) <$> rows
  else rows ++ [{| di_txid := o_txid o; di_vout := o_vout o; di_amount_sats := amount_sats;
                   di_is_mature := is_mature; refund_tx := None; refund_tx_id := None;
                   claim_error := None |}].

Definition sql_delete_deposit (o : TxOutput) (rows : list DepositInfo) : list DepositInfo :=
  List.filter (λ d, negb (row_is o d)) rows.

Definition apply_payload (payload : UpdateDepositPayload) (d : DepositInfo) : DepositInfo :=
  let set tx id err :=
    {| di_txid := di_txid d; di_vout := di_vout d; di_amount_sats := di_amount_sats d;
       di_is_mature := di_is_mature d; refund_tx := tx; refund_tx_id := id; claim_error := err |} in
  match payload with
  | ClaimErrorPayload error => set None None (Some error)
  | RefundPayload refund_txid refund_tx => set (Some refund_tx) (Some refund_txid) None
  end.

Definition sql_update_deposit (o : TxOutput) (payload : UpdateDepositPayload)
    (rows : list DepositInfo) : list DepositInfo :=
  (λ d, if row_is o d then apply_payload payload d else d) <$> rows.

(** ** Collaborators *)

(** What the wallet's quotes and rust-bitcoin's encodings are made of. *)
Class DepositTypes {bt : BitcoinTypes} := {
  QuoteSignature : Type;
  Txid_to_string : Txid → string;
  Txid_from_str : string → option Txid;
  deserialize_hex : string → result Tx SdkError;
  serialize_hex : Tx → string;
  tx_id : Tx → Txid
}.

Section data.
Context {bt : BitcoinTypes} {dt : DepositTypes}.

Record DetailedUtxo : Type := { du_tx : Tx; du_vout : Z; du_txid : Txid; du_value : Z }.

Definition into_deposit_info (u : DetailedUtxo) (is_mature : bool) : DepositInfo :=
  {| di_txid := Txid_to_string (du_txid u); di_vout := du_vout u; di_amount_sats := du_value u;
     di_is_mature := is_mature; refund_tx := None; refund_tx_id := None; claim_error := None |}.

Definition utxo_key (u : DetailedUtxo) : TxOutput :=
  {| o_txid := Txid_to_string (du_txid u); o_vout := du_vout u |}.

(** [Utxo], of which the syncer reads these fields. *)
Record Utxo : Type := { u_vout : Z; u_txid : Txid; u_is_mature : bool }.

Record StaticDepositQuote : Type := {
  q_txid : Txid;
  output_index : Z;
  credit_amount_sats : Z;
  signature : QuoteSignature
}.

Inductive DepositEvent : Type :=
| NewDeposits (new_deposits : list DepositInfo)
| UnclaimedDeposits (unclaimed_deposits : list DepositInfo)
| ClaimedDeposits (claimed_deposits : list DepositInfo).
End data.

(** The methods of [Storage] on deposits. *)
Class DepositStorage (W : Type) := {
  add_deposit : string → Z → Z → bool → SE W StorageError ();
  delete_deposit : string → Z → SE W StorageError ();
  list_deposits : SE W StorageError (list DepositInfo);
  update_deposit : string → Z → UpdateDepositPayload → SE W StorageError ()
}.

(** [BitcoinChainService]; of a status the confirmation, of the fees the fastest. *)
Class ChainService (W : Type) := {
  get_transaction_hex : string → SE W SdkError string;
  get_transaction_status : string → SE W SdkError bool;
  recommended_fastest_fee : SE W SdkError Z;
  broadcast_transaction : string → SE W SdkError ()
}.

Class DepositWallet {pt : PaymentTypes} {bt : BitcoinTypes} {dt : DepositTypes} (W : Type) := {
  get_utxos_for_identity : Z → option string → SE W SdkError (list Utxo * option string);
  fetch_static_deposit_claim_quote : Tx → option Z → SE W SdkError StaticDepositQuote;
  claim_static_deposit : StaticDepositQuote → SE W SdkError WalletTransfer;
  refund_static_deposit : Tx → option Z → string → Fee → SE W SdkError Tx;
  (** [update_user_settings] with private mode enabled. *)
  enable_private_mode : SE W SdkError ();
  (** The [OnceCell] that says private mode was initialised in this session. *)
  private_mode_cell : W → bool;
  set_private_mode_cell : W → W;
  (** [trigger_sync_no_wait(SyncType::WalletState, true)]. *)
  trigger_wallet_state_sync : W → W;
  emit_deposits : DepositEvent → W → W
}.

Section deposits.
Context {ho : HashOrder} {pt : PaymentTypes} {ip : InvoiceParsers} {bt : BitcoinTypes}
  {dt : DepositTypes} {W : Type} {cs : CacheStorage W} {s_tx : Serde CachedTx}
  {ds : DepositStorage W} {ch : ChainService W} {dw : DepositWallet W}.

(** ** Fetching a transaction, through the cache *)

Definition fetch_tx_hex (txid : string) : SE W SdkError string :=
  do* cached := of_storage (fetch_tx txid) in
  match cached with
  | Some tx => se_ret (raw_tx tx)
  | None =>
      do* tx_hex := get_transaction_hex txid in
      do* _ := of_storage (save_tx txid {| raw_tx := tx_hex |}) in
      se_ret tx_hex
  end.

Definition fetch_detailed_utxo (txid : string) (vout : Z) : SE W SdkError DetailedUtxo :=
  do* tx_hex := fetch_tx_hex txid in
  do* tx := se_lift (deserialize_hex tx_hex) in
  do* txout := se_lift (ok_or (output tx !! Z.to_nat vout) (MissingUtxo txid vout)) in
  do* parsed := se_lift (ok_or (Txid_from_str txid) (SdkGeneric "Failed to parse txid")) in
  se_ret {| du_tx := tx; du_vout := vout; du_txid := parsed; du_value := txo_value txout |}.

(** ** The syncer: the outputs of the operators, page by page *)

(** [HashMap<TxOutput, (DetailedUtxo, bool)>]. *)
Abbreviation Detailed := (gmap TxOutput (DetailedUtxo * bool)).

(** The outputs of a page; the flag says that a transaction could not be fetched. *)
Fixpoint fetch_utxos (utxos : list Utxo) (detailed_utxos : Detailed)
    : SE W SdkError (Detailed * bool) :=
  match utxos with
  | [] => se_ret (detailed_utxos, false)
  | utxo :: utxos =>
      try* fetched := fetch_detailed_utxo (Txid_to_string (u_txid utxo)) (u_vout utxo) in
      match fetched with
      | Ok detailed_utxo =>
          do* _ := of_storage (add_deposit (Txid_to_string (du_txid detailed_utxo))
                     (du_vout detailed_utxo) (du_value detailed_utxo) (u_is_mature utxo)) in
          fetch_utxos utxos
            (<[utxo_key detailed_utxo := (detailed_utxo, u_is_mature utxo)]> detailed_utxos)
      | Err _ => se_ret (detailed_utxos, true)
      end
  end.

Fixpoint fetch_pages (fuel : nat) (cursor : option string) (detailed_utxos : Detailed) (w : W)
    : W * option (result (Detailed * bool) SdkError) :=
  match fuel with
  | O => (w, None)
  | S fuel =>
      match get_utxos_for_identity UTXO_PAGE_SIZE cursor w with
      | (w, Err e) =>
          if bool_decide (detailed_utxos = ∅) then (w, Some (Err e))
          else (w, Some (Ok (detailed_utxos, true)))
      | (w, Ok (utxos, next_cursor)) =>
          match fetch_utxos utxos detailed_utxos w with
          | (w, Err e) => (w, Some (Err e))
          | (w, Ok (detailed_utxos, hit_error)) =>
              if hit_error || bool_decide (next_cursor = None)
              then (w, Some (Ok (detailed_utxos, hit_error)))
              else fetch_pages fuel next_cursor detailed_utxos w
          end
      end
  end.

(** The first loop of [reconcile_deposits]: stale deposits go, refunded ones are noted. *)
Fixpoint scan_deposits (all_utxos : Detailed) (incomplete : bool) (deposits : list DepositInfo)
    (refunded : gset TxOutput) (refunded_deposits : gmap string DepositInfo)
    : SE W SdkError (gset TxOutput * gmap string DepositInfo) :=
  match deposits with
  | [] => se_ret (refunded, refunded_deposits)
  | deposit :: deposits =>
      match refund_tx_id deposit with
      | Some txid =>
          scan_deposits all_utxos incomplete deposits ({[ deposit_key deposit ]} ∪ refunded)
            (<[txid := deposit]> refunded_deposits)
      | None =>
          do* _ := if negb incomplete && negb (bool_decide (deposit_key deposit ∈ dom all_utxos))
                   then of_storage (delete_deposit (di_txid deposit) (di_vout deposit))
                   else se_ret () in
          scan_deposits all_utxos incomplete deposits refunded refunded_deposits
      end
  end.

Definition delete_if_confirmed (status : result bool SdkError) (deposit : DepositInfo)
    : SE W SdkError () :=
  match status with
  | Ok true => of_storage (delete_deposit (di_txid deposit) (di_vout deposit))
  | Ok false | Err _ => se_ret ()
  end.

(** The second: a deposit goes when its refund is confirmed. *)
Fixpoint check_refunds (refunded_deposits : list (string * DepositInfo)) : SE W SdkError () :=
  match refunded_deposits with
  | [] => se_ret ()
  | (refund_tx_id, deposit) :: refunded_deposits =>
      try* status := get_transaction_status refund_tx_id in
      do* _ := delete_if_confirmed status deposit in
      check_refunds refunded_deposits
  end.

Definition reconcile_deposits (all_utxos : Detailed) (incomplete : bool)
    : SE W SdkError (gset TxOutput) :=
  do* deposits := of_storage list_deposits in
  do* (refunded, refunded_deposits) := scan_deposits all_utxos incomplete deposits ∅ ∅ in
  do* _ := check_refunds (hm_iter refunded_deposits) in
  se_ret refunded.

(** [DepositChainSyncer::sync]. *)
Definition sync_deposit_utxos (fuel : nat) (w : W)
    : W * option (result (list (DetailedUtxo * bool)) SdkError) :=
  match fetch_pages fuel None ∅ w with
  | (w, None) => (w, None)
  | (w, Some (Err e)) => (w, Some (Err e))
  | (w, Some (Ok (detailed_utxos, hit_error))) =>
      match reconcile_deposits detailed_utxos hit_error w with
      | (w, Err e) => (w, Some (Err e))
      | (w, Ok refunded) =>
          (w, Some (Ok (List.filter (λ u, negb (bool_decide (utxo_key u.1 ∈ refunded)))
                          (hm_values detailed_utxos))))
      end
  end.

(** ** Claims *)

Definition to_fee (m : MaxFee) : SE W SdkError Fee :=
  match m with
  | MaxFixed amount => se_ret (FixedFee amount)
  | MaxRate sat_per_vbyte => se_ret (RateFee sat_per_vbyte)
  | NetworkRecommended leeway_sat_per_vbyte =>
      do* fastest_fee := recommended_fastest_fee in
      se_ret (RateFee (saturating_add 64 fastest_fee leeway_sat_per_vbyte))
  end.

Definition claim_utxo (u : DetailedUtxo) (max_claim_fee : option MaxFee)
    : SE W SdkError WalletTransfer :=
  do* quote := fetch_static_deposit_claim_quote (du_tx u) (Some (du_vout u)) in
  let spark_requested_fee_sats := saturating_sub (du_value u) (credit_amount_sats quote) in
  let spark_requested_fee_rate := (spark_requested_fee_sats + (CLAIM_TX_SIZE_VBYTES - 1)) / CLAIM_TX_SIZE_VBYTES in
  let exceeded max_fee :=
    MaxDepositClaimFeeExceeded (Txid_to_string (du_txid u)) (du_vout u) max_fee
      spark_requested_fee_sats spark_requested_fee_rate in
  match max_claim_fee with
  | None => se_fail (exceeded None)
  | Some max_deposit_claim_fee =>
      do* max_fee := to_fee max_deposit_claim_fee in
      let max_fee_sats := to_sats max_fee CLAIM_TX_SIZE_VBYTES in
      if max_fee_sats <? spark_requested_fee_sats then se_fail (exceeded (Some max_fee))
      else claim_static_deposit quote
  end.

(** [ensure_spark_private_mode_initialized]. *)
Definition initialize_spark_private_mode (private_enabled_default : bool) : SE W SdkError () :=
  if negb private_enabled_default then of_storage save_spark_private_mode_initialized
  else
    do* _ := enable_private_mode in
    of_storage save_spark_private_mode_initialized.

Definition ensure_spark_private_mode_initialized (private_enabled_default : bool)
    : SE W SdkError () := λ w,
  if private_mode_cell w then (w, Ok ())
  else
    (do* is_initialized := of_storage fetch_spark_private_mode_initialized in
     do* _ := if (is_initialized : bool) then se_ret ()
              else initialize_spark_private_mode private_enabled_default in
     λ w, (set_private_mode_cell w, Ok ())) w.

Definition claim_error_payload (e : SdkError) : UpdateDepositPayload :=
  ClaimErrorPayload (DepositClaimError_from e).

(** The loop over the mature outputs: the claimed and the unclaimed deposits. *)
Fixpoint claim_all (max_claim_fee : option MaxFee) (to_claim : list DetailedUtxo)
    : SE W SdkError (list DepositInfo * list DepositInfo) :=
  match to_claim with
  | [] => se_ret ([], [])
  | u :: to_claim =>
      try* claimed := claim_utxo u max_claim_fee in
      match claimed with
      | Ok _ =>
          do* _ := of_storage (delete_deposit (Txid_to_string (du_txid u)) (du_vout u)) in
          do* (claimed_deposits, unclaimed_deposits) := claim_all max_claim_fee to_claim in
          se_ret (into_deposit_info u true :: claimed_deposits, unclaimed_deposits)
      | Err e =>
          do* _ := of_storage (update_deposit (Txid_to_string (du_txid u)) (du_vout u)
                     (claim_error_payload e)) in
          do* (claimed_deposits, unclaimed_deposits) := claim_all max_claim_fee to_claim in
          let info := into_deposit_info u true in
          se_ret (claimed_deposits,
                  {| di_txid := di_txid info; di_vout := di_vout info;
                     di_amount_sats := di_amount_sats info; di_is_mature := di_is_mature info;
                     refund_tx := refund_tx info; refund_tx_id := refund_tx_id info;
                     claim_error := Some (DepositClaimError_from e) |} :: unclaimed_deposits)
      end
  end.

Definition emit_unless_empty (event : list DepositInfo → DepositEvent) (l : list DepositInfo)
    : SE W SdkError () := λ w, ((if bool_decide (l = []) then w else emit_deposits (event l) w), Ok ()).

(** The second half of [check_and_claim_static_deposits]: events and claims. *)
Definition claim_and_announce (max_deposit_claim_fee : option MaxFee)
    (existing_deposits : list DepositInfo) (all_utxos : list (DetailedUtxo * bool)) : SE W SdkError () :=
  let new_deposits :=
    (λ u, into_deposit_info u.1 u.2)
      <$> List.filter (λ u, negb (bool_decide (utxo_key u.1 ∈ deposit_key <$> existing_deposits)))
            all_utxos in
  let to_claim := (List.filter snd all_utxos).*1 in
  do* _ := emit_unless_empty NewDeposits new_deposits in
  do* (claimed_deposits, unclaimed_deposits) := claim_all max_deposit_claim_fee to_claim in
  do* _ := emit_unless_empty UnclaimedDeposits unclaimed_deposits in
  emit_unless_empty ClaimedDeposits claimed_deposits.

Definition check_and_claim_static_deposits (private_enabled_default : bool)
    (max_deposit_claim_fee : option MaxFee) (fuel : nat) (w : W) : W * option (result () SdkError) :=
  match (do* _ := ensure_spark_private_mode_initialized private_enabled_default in
         of_storage list_deposits) w with
  | (w, Err e) => (w, Some (Err e))
  | (w, Ok existing_deposits) =>
      match sync_deposit_utxos fuel w with
      | (w, None) => (w, None)
      | (w, Some (Err e)) => (w, Some (Err e))
      | (w, Some (Ok all_utxos)) =>
          let '(w, r) := claim_and_announce max_deposit_claim_fee existing_deposits all_utxos w in
          (w, Some r)
      end
  end.

(** ** The calls of the user *)

Definition claim_deposit (private_enabled_default : bool) (default_max_fee : option MaxFee)
    (txid : string) (vout : Z) (max_fee : option MaxFee) : SE W SdkError Payment :=
  do* _ := ensure_spark_private_mode_initialized private_enabled_default in
  do* u := fetch_detailed_utxo txid vout in
  let max_fee := match max_fee with Some m => Some m | None => default_max_fee end in
  try* claimed := claim_utxo u max_fee in
  match claimed with
  | Ok transfer =>
      do* _ := of_storage (delete_deposit (Txid_to_string (du_txid u)) (du_vout u)) in
      do* _ := (λ w, (trigger_wallet_state_sync w, Ok ())) in
      se_lift (Payment_try_from transfer)
  | Err e =>
      do* _ := of_storage (update_deposit (Txid_to_string (du_txid u)) (du_vout u)
                 (claim_error_payload e)) in
      se_fail e
  end.

(** The identifier and the bytes of the refund. *)
Definition refund_deposit (txid : string) (vout : Z) (destination_address : string) (fee : Fee)
    : SE W SdkError (string * string) :=
  do* u := fetch_detailed_utxo txid vout in
  do* tx := refund_static_deposit (du_tx u) (Some (du_vout u)) destination_address fee in
  let tx_hex := serialize_hex tx in
  let refund_txid := Txid_to_string (tx_id tx) in
  do* _ := of_storage (update_deposit (Txid_to_string (du_txid u)) (du_vout u)
             (RefundPayload refund_txid tx_hex)) in
  do* _ := broadcast_transaction tx_hex in
  se_ret (refund_txid, tx_hex).

Definition list_unclaimed_deposits : SE W SdkError (list DepositInfo) := of_storage list_deposits.
End deposits.

(** ** The table as a map from outputs to rows *)

Definition rows_map (rows : list DepositInfo) : gmap TxOutput DepositInfo :=
  list_to_map ((λ d, (deposit_key d, d)) <$> rows).

(** The primary key of the table. *)
Definition unique_rows (rows : list DepositInfo) : Prop := NoDup (deposit_key <$> rows).

Lemma rows_fst rows : ((λ d, (deposit_key d, d)) <$> rows).*1 = deposit_key <$> rows.
Proof. by rewrite <- list_fmap_compose. Qed.

Lemma rows_map_lookup rows k d :
  unique_rows rows → rows_map rows !! k = Some d ↔ d ∈ rows ∧ deposit_key d = k.
Proof.
  intros Hu. unfold rows_map. rewrite <- elem_of_list_to_map by (by rewrite rows_fst).
  rewrite list_elem_of_fmap. split.
  - by intros (d' & [= -> ->] & Hin).
  - intros [Hin <-]. by exists d.
Qed.

Lemma rows_map_none rows k : rows_map rows !! k = None ↔ existsb (row_is k) rows = false.
Proof.
  unfold rows_map. rewrite <- not_elem_of_list_to_map, rows_fst, <- not_true_iff_false, existsb_exists.
  unfold row_is. setoid_rewrite bool_decide_eq_true. setoid_rewrite <- list_elem_of_In.
  rewrite list_elem_of_fmap. naive_solver.
Qed.

Lemma rows_map_values rows : unique_rows rows → rows ≡ₚ (map_to_list (rows_map rows)).*2.
Proof.
  intros Hu. unfold rows_map. rewrite map_to_list_to_map by (by rewrite rows_fst).
  by rewrite <- list_fmap_compose, list_fmap_id.
Qed.

Lemma same_keys (f : DepositInfo → DepositInfo) (rows : list DepositInfo) :
  (∀ d, deposit_key (f d) = deposit_key d) → deposit_key <$> (f <$> rows) = deposit_key <$> rows.
Proof.
  intros Hf. rewrite <- list_fmap_compose. apply list_fmap_ext. intros i d _. apply Hf.
Qed.

Lemma rows_map_update (f : DepositInfo → DepositInfo) k (rows : list DepositInfo) :
  (∀ d, deposit_key (f d) = deposit_key d) → unique_rows rows →
  rows_map ((λ d, if row_is k d then f d else d) <$> rows) = alter f k (rows_map rows).
Proof.
  intros Hf Hu. set (g := λ d, if row_is k d then f d else d).
  assert (∀ d, deposit_key (g d) = deposit_key d) as Hg by (intros d; unfold g; by destruct (row_is k d)).
  assert (unique_rows (g <$> rows)) as Hu' by (unfold unique_rows; by rewrite same_keys).
  apply map_eq. intros k'. apply option_eq. intros d. rewrite rows_map_lookup by done.
  rewrite lookup_alter_Some, list_elem_of_fmap. setoid_rewrite rows_map_lookup; [|done..].
  unfold g, row_is. split.
  - intros [(d' & -> & Hin) Hk]. destruct (decide (deposit_key d' = k)) as [Hd|Hd].
    + rewrite bool_decide_eq_true_2 in Hk |- * by done. rewrite Hf in Hk. left. naive_solver.
    + rewrite bool_decide_eq_false_2 in Hk |- * by done. right. naive_solver.
  - intros [(-> & d' & [Hin Hk] & ->)|(Hne & Hin & Hk)].
    + split; [|by rewrite Hf]. exists d'. by rewrite bool_decide_eq_true_2.
    + split; [|done]. exists d. split; [|done]. rewrite bool_decide_eq_false_2; [done|congruence].
Qed.

(** Inserting an output: the row of an existing one keeps its claim and its refund. *)
Definition upsert_deposit (o : TxOutput) (amount_sats : Z) (is_mature : bool)
    (old : option DepositInfo) : DepositInfo :=
  {| di_txid := o_txid o; di_vout := o_vout o; di_amount_sats := amount_sats;
     di_is_mature := is_mature; refund_tx := old ≫= refund_tx; refund_tx_id := old ≫= refund_tx_id;
     claim_error := old ≫= claim_error |}.

Lemma sql_add_deposit_map o a m rows :
  unique_rows rows →
  unique_rows (sql_add_deposit o a m rows) ∧
  rows_map (sql_add_deposit o a m rows) = <[o := upsert_deposit o a m (rows_map rows !! o)]> (rows_map rows).
Proof.
  intros Hu. unfold sql_add_deposit. destruct (existsb (row_is o) rows) eqn:He.
  - rewrite (rows_map_update (λ d, {| di_txid := di_txid d; di_vout := di_vout d; di_amount_sats := a;
      di_is_mature := m; refund_tx := refund_tx d; refund_tx_id := refund_tx_id d;
      claim_error := claim_error d |})) by done.
    split; [unfold unique_rows; rewrite same_keys; [done|intros d; by destruct (row_is o d)]|].
    destruct (rows_map rows !! o) as [d|] eqn:Hd; [|apply rows_map_none in Hd; by rewrite Hd in He].
    apply map_eq. intros k. destruct (decide (k = o)) as [->|Hne].
    + rewrite lookup_alter_eq, Hd, lookup_insert_eq. simpl.
      apply rows_map_lookup in Hd as [_ <-]; done.
    + by rewrite lookup_alter_ne, lookup_insert_ne by done.
  - apply rows_map_none in He as Hn. set (new := {| di_txid := o_txid o |}).
    assert (deposit_key new = o) as Hk by by destruct o.
    assert (o ∉ deposit_key <$> rows) as Hno.
    { rewrite <- rows_fst. by apply not_elem_of_list_to_map. }
    assert (unique_rows (rows ++ [new])) as Hu'.
    { unfold unique_rows. rewrite fmap_app. apply NoDup_app. split; [done|].
      simpl. rewrite Hk. split; [|apply NoDup_singleton].
      intros k Hin ->%list_elem_of_singleton. done. }
    split; [done|]. rewrite Hn. apply map_eq. intros k. apply option_eq. intros d.
    rewrite rows_map_lookup, elem_of_app, list_elem_of_singleton, lookup_insert_Some by done.
    rewrite rows_map_lookup by done. change (upsert_deposit o a m None) with new.
    assert (∀ d', d' ∈ rows → deposit_key d' ≠ o) as Hd.
    { intros d' Hin <-. apply Hno. by apply list_elem_of_fmap_2. }
    naive_solver.
Qed.

Lemma sql_delete_deposit_map o rows :
  unique_rows rows →
  unique_rows (sql_delete_deposit o rows) ∧
  rows_map (sql_delete_deposit o rows) = delete o (rows_map rows).
Proof.
  intros Hu. assert (unique_rows (sql_delete_deposit o rows)) as Hu'.
  { unfold unique_rows. eapply sublist_NoDup; [exact Hu|]. apply fmap_sublist, sublist_bfilter. }
  split; [done|]. apply map_eq. intros k. apply option_eq. intros d.
  rewrite rows_map_lookup by done. unfold sql_delete_deposit.
  rewrite elem_of_bfilter, lookup_delete_Some, rows_map_lookup by done.
  unfold row_is. rewrite negb_true_iff, bool_decide_eq_false. naive_solver.
Qed.

Lemma sql_update_deposit_map o p rows :
  unique_rows rows →
  unique_rows (sql_update_deposit o p rows) ∧
  rows_map (sql_update_deposit o p rows) = alter (apply_payload p) o (rows_map rows).
Proof.
  intros Hu. assert (∀ d, deposit_key (apply_payload p d) = deposit_key d) as Hf by by destruct p.
  split; [|by apply rows_map_update].
  unfold unique_rows, sql_update_deposit. rewrite same_keys; [done|].
  intros d. by destruct (row_is o d).
Qed.
