(* ===== verification/DepositsProps.v ===== *)
(** What the deposits of [Deposits] keep: reconciliation with the operators and the limits of
    automatic claims, against the storage and the wallet; the table of the SQLite storage
    as an instance. *)
From stdpp Require Import base gmap strings list.
From S2P Require Import Prelude TreeTypes TokenStore Paging SyncModel ObjectCache Payments PaymentSync Transactions Deposits.

(** ** What the storage and the wallet promise *)

(** The deposits of a world by their outputs, and the quotes the wallet was asked to claim.
    Operations on deposits change the row they name, when they succeed; only
    [claim_static_deposit] asks for a claim; the others leave both alone. *)
Class DepositLaws {pt : PaymentTypes} {bt : BitcoinTypes} {dt : DepositTypes} (W : Type)
    {cs : CacheStorage W} {ds : DepositStorage W} {ch : ChainService W} {dw : DepositWallet W} := {
  deposits : W → gmap TxOutput DepositInfo;
  claims : W → list StaticDepositQuote;
  deposits_keyed w o d : deposits w !! o = Some d → deposit_key d = o;
  add_deposit_law txid vout amount m w w' r :
    add_deposit txid vout amount m w = (w', r) → claims w' = claims w ∧
    let o := {| o_txid := txid; o_vout := vout |} in
    deposits w' = match r with
                  | Ok _ => <[o := upsert_deposit o amount m (deposits w !! o)]> (deposits w)
                  | Err _ => deposits w
                  end;
  delete_deposit_law txid vout w w' r :
    delete_deposit txid vout w = (w', r) → claims w' = claims w ∧
    deposits w' = match r with
                  | Ok _ => delete {| o_txid := txid; o_vout := vout |} (deposits w)
                  | Err _ => deposits w
                  end;
  update_deposit_law txid vout p w w' r :
    update_deposit txid vout p w = (w', r) → claims w' = claims w ∧
    deposits w' = match r with
                  | Ok _ => alter (apply_payload p) {| o_txid := txid; o_vout := vout |} (deposits w)
                  | Err _ => deposits w
                  end;
  list_deposits_law w w' r :
    list_deposits w = (w', r) → claims w' = claims w ∧ deposits w' = deposits w ∧
    match r with Ok l => l ≡ₚ (map_to_list (deposits w)).*2 | Err _ => True end;
  claim_static_deposit_law q w :
    deposits (claim_static_deposit q w).1 = deposits w ∧
    claims (claim_static_deposit q w).1 = claims w ++ [q]
}.

Section quiet.
Context {pt : PaymentTypes} {bt : BitcoinTypes} {dt : DepositTypes} {W : Type}
  {cs : CacheStorage W} {ds : DepositStorage W} {ch : ChainService W} {dw : DepositWallet W}
  {dl : DepositLaws W}.

(** Neither the deposits nor the claims change. *)
Definition quiet : relation W := λ w w', deposits w' = deposits w ∧ claims w' = claims w.

#[export] Instance quiet_preorder : PreOrder quiet.
Proof. split; [done|]. intros w1 w2 w3 [H1 H2] [H3 H4]. split; congruence. Qed.
End quiet.

(** The other operations. *)
Class DepositQuiet {pt : PaymentTypes} {bt : BitcoinTypes} {dt : DepositTypes} (W : Type)
    {cs : CacheStorage W} {ds : DepositStorage W} {ch : ChainService W} {dw : DepositWallet W}
    {dl : DepositLaws W} := {
  quiet_get_cached k : se_preserves quiet (get_cached_item k);
  quiet_set_cached k v : se_preserves quiet (set_cached_item k v);
  quiet_transaction_hex txid : se_preserves quiet (get_transaction_hex txid);
  quiet_transaction_status txid : se_preserves quiet (get_transaction_status txid);
  quiet_fees : se_preserves quiet recommended_fastest_fee;
  quiet_broadcast tx : se_preserves quiet (broadcast_transaction tx);
  quiet_utxos n c : se_preserves quiet (get_utxos_for_identity n c);
  quiet_quote tx vout : se_preserves quiet (fetch_static_deposit_claim_quote tx vout);
  quiet_refund tx vout a fee : se_preserves quiet (refund_static_deposit tx vout a fee);
  quiet_private_mode : se_preserves quiet enable_private_mode;
  quiet_cell w : quiet w (set_private_mode_cell w);
  quiet_trigger w : quiet w (trigger_wallet_state_sync w);
  quiet_emit e w : quiet w (emit_deposits e w)
}.

#[export] Hint Resolve quiet_get_cached quiet_set_cached quiet_transaction_hex
  quiet_transaction_status quiet_fees quiet_broadcast quiet_utxos quiet_quote quiet_refund
  quiet_private_mode : preserves.

Section theorems.
Context {ho : HashOrder} {pt : PaymentTypes} {ip : InvoiceParsers} {bt : BitcoinTypes}
  {dt : DepositTypes} {W : Type} {cs : CacheStorage W} {s_tx : Serde CachedTx}
  {ds : DepositStorage W} {ch : ChainService W} {dw : DepositWallet W}
  {dl : DepositLaws W} {dq : DepositQuiet W}.

Lemma of_storage_run {A} (m : SE W StorageError A) w w' r :
  of_storage m w = (w', r) → ∃ r', m w = (w', r') ∧ r = map_err SdkError_of_storage r'.
Proof. unfold of_storage, se_map_err. destruct (m w) as [w1 r1]. intros [= <- <-]. by exists r1. Qed.

Lemma quiet_fetch_utxo txid vout : se_preserves quiet (fetch_detailed_utxo txid vout).
Proof.
  unfold fetch_detailed_utxo, fetch_tx_hex, of_storage, fetch_tx, save_tx, fetch_json, save_json.
  solve_preserves.
Qed.

Lemma quiet_list : se_preserves quiet (of_storage list_deposits).
Proof.
  intros w. destruct (of_storage list_deposits w) as [w' r] eqn:H. simpl.
  apply of_storage_run in H as (r' & H & _). apply list_deposits_law in H as (Hc & Hd & _). done.
Qed.

Lemma quiet_ensure_private b : se_preserves quiet (ensure_spark_private_mode_initialized b).
Proof.
  intros w. unfold ensure_spark_private_mode_initialized. destruct (private_mode_cell w); [done|].
  revert w. fold (se_preserves (E := SdkError) (A := ()) (S := W) quiet).
  apply (se_preserves_bind quiet).
  - unfold fetch_spark_private_mode_initialized, of_storage. solve_preserves.
  - intros i. apply (se_preserves_bind quiet); [|intros [] w; apply quiet_cell].
    unfold initialize_spark_private_mode, save_spark_private_mode_initialized, of_storage.
    solve_preserves.
Qed.
#[local] Hint Resolve quiet_fetch_utxo quiet_list quiet_ensure_private : preserves.

(** ** The pages *)

(** The outputs of [m] inserted in the table [D]. *)
Definition inserted (D D' : gmap TxOutput DepositInfo) (m : gmap TxOutput (DetailedUtxo * bool)) : Prop :=
  ∀ k, D' !! k = match m !! k with
                 | Some (u, b) => Some (upsert_deposit k (du_value u) b (D !! k))
                 | None => D !! k
                 end.

Definition listed_key (utxo : Utxo) : TxOutput :=
  {| o_txid := Txid_to_string (u_txid utxo); o_vout := u_vout utxo |}.

(** An output the operators listed, with its maturity. *)
Definition listed (k : TxOutput) (mature : bool) : Prop :=
  ∃ n c w w' page next utxo,
    get_utxos_for_identity n c w = (w', Ok (page, next)) ∧ utxo ∈ page ∧
    k = listed_key utxo ∧
    mature = u_is_mature utxo.

(** The outputs the operators list from a cursor to the last page. *)
Inductive pages_from : option string → list Utxo → Prop :=
| Pages_last n c w w' page :
    get_utxos_for_identity n c w = (w', Ok (page, None)) → pages_from c page
| Pages_next n c w w' page c' rest :
    get_utxos_for_identity n c w = (w', Ok (page, Some c')) → pages_from (Some c') rest →
    pages_from c (page ++ rest).

Definition well_listed (m : gmap TxOutput (DetailedUtxo * bool)) : Prop :=
  map_Forall (λ k u, k = utxo_key u.1 ∧ listed k u.2) m.

Lemma fetch_detailed_utxo_key txid vout w w' u :
  fetch_detailed_utxo txid vout w = (w', Ok u) →
  Txid_from_str txid = Some (du_txid u) ∧ du_vout u = vout.
Proof.
  unfold fetch_detailed_utxo.
  intros (w1 & hex & _ & H)%se_bind_ok. apply se_bind_ok in H as (w2 & tx & _ & H).
  apply se_bind_ok in H as (w3 & txout & _ & H). apply se_bind_ok in H as (w4 & parsed & Hp & H).
  injection H as _ <-. injection Hp as _ Hp. by apply ok_or_ok in Hp.
Qed.

Lemma upsert_twice k a b a' b' old :
  upsert_deposit k a b (Some (upsert_deposit k a' b' old)) = upsert_deposit k a b old.
Proof. done. Qed.

Lemma inserted_step D D1 m u b :
  inserted D D1 m →
  inserted D (<[utxo_key u := upsert_deposit (utxo_key u) (du_value u) b (D1 !! utxo_key u)]> D1)
    (<[utxo_key u := (u, b)]> m).
Proof.
  intros H k. destruct (decide (k = utxo_key u)) as [->|Hne].
  - rewrite !lookup_insert_eq, H. destruct (m !! utxo_key u) as [[u' b']|]; [|done].
    by rewrite upsert_twice.
  - by rewrite !lookup_insert_ne.
Qed.

Hypothesis Txid_roundtrip : ∀ t, Txid_from_str (Txid_to_string t) = Some t.

Lemma fetch_utxos_ok us m w w' r D :
  fetch_utxos us m w = (w', r) → inserted D (deposits w) m → well_listed m →
  (∃ n c w0 w1 page next, get_utxos_for_identity n c w0 = (w1, Ok (page, next)) ∧ us ⊆ page) →
  claims w' = claims w ∧
  match r with
  | Ok (m', hit) =>
      inserted D (deposits w') m' ∧ well_listed m' ∧
      (hit = false → dom m' = dom m ∪ list_to_set (listed_key <$> us))
  | Err _ => True
  end.
Proof.
  intros Hrun Hin Hwl (n & c & w0 & w1 & page & next & Hpage & Hsub).
  revert m w Hrun Hin Hwl Hsub. induction us as [|utxo us IH]; intros m w Hrun Hin Hwl Hsub.
  { injection Hrun as <- <-. split_and!; [done..|]. simpl. set_solver. }
  cbn [fetch_utxos] in Hrun. unfold se_try in Hrun.
  destruct (fetch_detailed_utxo _ _ w) as [w2 [u|e]] eqn:Hu.
  - pose proof (se_preserves_run quiet _ _ _ _ (quiet_fetch_utxo _ _) Hu) as [Hd Hc].
    apply fetch_detailed_utxo_key in Hu as [Htxid Hvout]. rewrite Txid_roundtrip in Htxid.
    injection Htxid as Htxid. unfold se_bind in Hrun.
    destruct (of_storage _ w2) as [w3 [[]|e]] eqn:Ha;
      apply of_storage_run in Ha as ([[]|e'] & Ha & Hr); simplify_eq/=;
      apply add_deposit_law in Ha as [Hc3 Hd3]; [|by rewrite Hc3].
    assert (utxo_key u = listed_key utxo) as Hkey by (unfold utxo_key; by rewrite <- Htxid, Hvout).
    apply IH in Hrun as [Hc' H']; [|..|by intros x Hx; apply Hsub; right].
    + split; [by rewrite Hc', Hc3|]. destruct r as [[m' hit]|]; [|done].
      destruct H' as (H1 & H2 & H3). split_and!; [done..|]. intros Hh. rewrite (H3 Hh), Hkey.
      rewrite dom_insert_L. simpl. set_solver.
    + rewrite Hd3, Hd. by apply (inserted_step D _ m u).
    + apply map_Forall_insert_2; [|done]. split; [done|].
      exists n, c, w0, w1, page, next, utxo. by split_and!; [|apply Hsub; left| |].
  - injection Hrun as <- <-.
    pose proof (se_preserves_run quiet _ _ _ _ (quiet_fetch_utxo _ _) Hu) as [Hd Hc].
    by rewrite Hd.
Qed.

Lemma fetch_pages_ok fuel c m w w' r D :
  fetch_pages fuel c m w = (w', r) → inserted D (deposits w) m → well_listed m →
  claims w' = claims w ∧
  match r with
  | Some (Ok (m', incomplete)) =>
      inserted D (deposits w') m' ∧ well_listed m' ∧
      (incomplete = false →
       ∃ us, pages_from c us ∧ dom m' = dom m ∪ list_to_set (listed_key <$> us))
  | _ => True
  end.
Proof.
  revert c m w. induction fuel as [|fuel IH]; intros c m w Hrun Hin Hwl; [by injection Hrun as <- <-|].
  cbn [fetch_pages] in Hrun.
  destruct (get_utxos_for_identity UTXO_PAGE_SIZE c w) as [w1 [[page next]|e]] eqn:Hp;
    pose proof (se_preserves_run quiet _ _ _ _ (quiet_utxos _ _) Hp) as [Hd Hc].
  - destruct (fetch_utxos page m w1) as [w2 [[m' hit]|e]] eqn:Hf;
      (eapply (fetch_utxos_ok _ _ _ _ _ D) in Hf as [Hc2 H2];
       [|by rewrite Hd|done|by exists UTXO_PAGE_SIZE, c, w, w1, page, next]).
    + destruct H2 as (H2 & H3 & H4). destruct (hit || _) eqn:Hstop.
      * injection Hrun as <- <-. split; [by rewrite Hc2, Hc|]. split_and!; [done..|]. intros ->.
        case_bool_decide; [subst next|done]. exists page. split; [by eapply Pages_last|by apply H4].
      * apply orb_false_iff in Hstop as [-> Hnext]. apply bool_decide_eq_false in Hnext.
        destruct next as [c'|]; [|done]. apply IH in Hrun as [Hc' H']; [|done..].
        split; [by rewrite Hc', Hc2, Hc|]. destruct r as [[[m2 inc]|]|]; [|done..].
        destruct H' as (H5 & H6 & H7). split_and!; [done..|]. intros (us & Hus & Hdom)%H7.
        exists (page ++ us). split; [by eapply Pages_next|].
        rewrite Hdom, H4, fmap_app, list_to_set_app_L by done. set_solver.
    + simplify_eq. by rewrite Hc2, Hc.
  - case_bool_decide; simplify_eq; [done|]. by rewrite Hd.
Qed.

(** The pages end when the cursors do: every next cursor is nearer to the end. *)
Lemma fetch_pages_ends (rank : option string → nat) fuel c m w :
  (∀ n c w w' page c', get_utxos_for_identity n c w = (w', Ok (page, Some c')) →
     (rank (Some c') < rank c)%nat) →
  (rank c < fuel)%nat → (fetch_pages fuel c m w).2 ≠ None.
Proof.
  intros Hrank. revert c m w. induction fuel as [|fuel IH]; intros c m w Hfuel; [lia|].
  cbn [fetch_pages].
  destruct (get_utxos_for_identity UTXO_PAGE_SIZE c w) as [w1 [[page next]|e]] eqn:Hp.
  - destruct (fetch_utxos page m w1) as [w2 [[m' hit]|e]]; [|done].
    destruct (hit || bool_decide (next = None)) eqn:Hstop; [done|].
    destruct next as [c'|]; [|by rewrite orb_true_r in Hstop]. apply IH.
    apply Hrank in Hp. lia.
  - by case_bool_decide.
Qed.

(** ** Reconciling *)

Definition confirmed (refund : string) : Prop :=
  ∃ w w', get_transaction_status refund w = (w', Ok true).

(** A deposit without a refund that the operators no longer list. *)
Definition stale (m : gmap TxOutput (DetailedUtxo * bool)) (incomplete : bool) (d : DepositInfo) : Prop :=
  refund_tx_id d = None ∧ incomplete = false ∧ m !! deposit_key d = None.

#[local] Instance stale_dec m incomplete d : Decision (stale m incomplete d).
Proof. unfold stale. apply _. Defined.

Lemma of_storage_delete d w w' r :
  of_storage (delete_deposit (di_txid d) (di_vout d)) w = (w', r) →
  claims w' = claims w ∧
  deposits w' = match r with Ok _ => delete (deposit_key d) (deposits w) | Err _ => deposits w end.
Proof.
  intros (r' & H & ->)%of_storage_run. apply delete_deposit_law in H as [Hc Hd].
  split; [done|]. rewrite Hd. by destruct r'.
Qed.

Lemma scan_deposits_ok m incomplete l R RD w w' r :
  scan_deposits m incomplete l R RD w = (w', r) →
  claims w' = claims w ∧
  match r with
  | Err _ => True
  | Ok (R', RD') =>
      (∀ k, deposits w' !! k = if decide (Exists (λ d, stale m incomplete d ∧ deposit_key d = k) l)
                               then None else deposits w !! k) ∧
      (∀ k, k ∈ R' ↔ k ∈ R ∨ Exists (λ d, is_Some (refund_tx_id d) ∧ deposit_key d = k) l) ∧
      (∀ t d, RD' !! t = Some d → RD !! t = Some d ∨ (d ∈ l ∧ refund_tx_id d = Some t))
  end.
Proof.
  revert R RD w. induction l as [|d l IH]; intros R RD w Hrun.
  { injection Hrun as <- <-. split; [done|]. split_and!; [| |by left].
    - intros k. by rewrite decide_False by (by intros ?%Exists_nil).
    - intros k. rewrite Exists_nil. tauto. }
  cbn [scan_deposits] in Hrun. destruct (refund_tx_id d) as [t|] eqn:Ht.
  - apply IH in Hrun as [Hc H]. split; [done|]. destruct r as [[R' RD']|]; [|done].
    destruct H as (Hd & HR & HRD). split_and!.
    + intros k. rewrite Hd. apply decide_ext. rewrite Exists_cons. split; [by right|].
      intros [[[Hn _] _]|]; [by rewrite Ht in Hn|done].
    + intros k. rewrite HR, Exists_cons, Ht, elem_of_union, elem_of_singleton.
      assert (is_Some (Some t)) by done. naive_solver.
    + intros t' d' [H|[H1 H2]]%HRD; [|right; split; [by right|done]].
      destruct (decide (t' = t)) as [->|Hne].
      * rewrite lookup_insert_eq in H. simplify_eq. right. split; [by left|done].
      * rewrite lookup_insert_ne in H by done. by left.
  - unfold se_bind in Hrun. destruct (negb incomplete && _) eqn:Hs; simpl in Hrun.
    + destruct (of_storage _ w) as [w1 [[]|e]] eqn:Hdel; apply of_storage_delete in Hdel as [Hc1 Hd1];
        [|by simplify_eq].
      apply IH in Hrun as [Hc H]. split; [by rewrite Hc|]. destruct r as [[R' RD']|]; [|done].
      destruct H as (Hd & HR & HRD). apply andb_prop in Hs as [Hi Hk].
      assert (stale m incomplete d) as Hst.
      { split; [done|]. split; [by destruct incomplete|]. apply not_elem_of_dom.
        by case_bool_decide. }
      split_and!.
      * intros k. rewrite Hd, Hd1. destruct (decide (deposit_key d = k)) as [<-|Hne].
        -- rewrite lookup_delete_eq, (decide_True (P := Exists _ (d :: l))) by (by left).
           by destruct (decide _).
        -- rewrite lookup_delete_ne by done. apply decide_ext. rewrite Exists_cons. naive_solver.
      * intros k. rewrite HR, Exists_cons, Ht. pose proof (@is_Some_None string). tauto.
      * intros t' d' [H|[H1 H2]]%HRD; [by left|right; split; [by right|done]].
    + apply IH in Hrun as [Hc H]. split; [done|]. destruct r as [[R' RD']|]; [|done].
      destruct H as (Hd & HR & HRD).
      assert (¬ stale m incomplete d) as Hst.
      { intros (_ & -> & Hn). apply not_elem_of_dom in Hn. by rewrite bool_decide_eq_false_2 in Hs. }
      split_and!.
      * intros k. rewrite Hd. apply decide_ext. rewrite Exists_cons. naive_solver.
      * intros k. rewrite HR, Exists_cons, Ht. pose proof (@is_Some_None string). tauto.
      * intros t' d' [H|[H1 H2]]%HRD; [by left|right; split; [by right|done]].
Qed.

Lemma delete_if_confirmed_ok status d w w' r :
  delete_if_confirmed status d w = (w', r) →
  claims w' = claims w ∧
  (deposits w' = deposits w ∨ (status = Ok true ∧ deposits w' = delete (deposit_key d) (deposits w))).
Proof.
  destruct status as [[]|]; simpl; [|by intros [= <- _]; auto..].
  intros [Hc Hd]%of_storage_delete. destruct r; auto.
Qed.

Lemma check_refunds_ok l w w' r :
  check_refunds l w = (w', r) →
  claims w' = claims w ∧
  ∀ k, deposits w' !! k = deposits w !! k ∨
       (deposits w' !! k = None ∧ ∃ t d, (t, d) ∈ l ∧ deposit_key d = k ∧ confirmed t).
Proof.
  revert w. induction l as [|[t d] l IH]; intros w Hrun; [injection Hrun as <- _; by auto|].
  cbn [check_refunds] in Hrun. unfold se_try, se_bind in Hrun.
  destruct (get_transaction_status t w) as [w1 status] eqn:Hs.
  pose proof (se_preserves_run quiet _ _ _ _ (quiet_transaction_status _) Hs) as [Hd1 Hc1].
  destruct (delete_if_confirmed status d w1) as [w2 r2] eqn:Hdel.
  apply delete_if_confirmed_ok in Hdel as [Hc2 Hd2]. rewrite Hc1 in Hc2. rewrite Hd1 in Hd2.
  destruct r2 as [[]|e].
  - apply IH in Hrun as [Hc H]. split; [by rewrite Hc|]. intros k.
    destruct (H k) as [Hk|(Hk & t' & d' & Hin & Hkey & Hconf)].
    + rewrite Hk. destruct Hd2 as [->|[-> ->]]; [by left|].
      destruct (decide (deposit_key d = k)) as [<-|Hne].
      * right. rewrite lookup_delete_eq. split; [done|]. exists t, d. split_and!; [by left|done|].
        by exists w, w1.
      * rewrite lookup_delete_ne by done. by left.
    + right. split; [done|]. exists t', d'. split_and!; [by right|done..].
  - injection Hrun as <- _. split; [done|]. intros k.
    destruct Hd2 as [->|[-> ->]]; [by left|].
    destruct (decide (deposit_key d = k)) as [<-|Hne].
    + right. rewrite lookup_delete_eq. split; [done|]. exists t, d. split_and!; [by left|done|].
      by exists w, w1.
    + rewrite lookup_delete_ne by done. by left.
Qed.

(** What reconciling makes of the deposits [D]: stale ones go, one with a refund goes only
    when the refund is confirmed, the others stay as they are. *)
Definition reconciled (m : gmap TxOutput (DetailedUtxo * bool)) (incomplete : bool)
    (D D' : gmap TxOutput DepositInfo) : Prop :=
  ∀ k, match D !! k with
       | None => D' !! k = None
       | Some d =>
           match refund_tx_id d with
           | None => D' !! k = if incomplete || bool_decide (k ∈ dom m) then Some d else None
           | Some refund => D' !! k = Some d ∨ (D' !! k = None ∧ confirmed refund)
           end
       end.

Lemma listed_deposits w l d :
  l ≡ₚ (map_to_list (deposits w)).*2 → d ∈ l ↔ deposits w !! deposit_key d = Some d.
Proof.
  intros ->. rewrite list_elem_of_fmap. split.
  - intros ([k d'] & -> & Hin%elem_of_map_to_list). simpl. by rewrite (deposits_keyed _ _ _ Hin).
  - intros Hd. exists (deposit_key d, d). split; [done|]. by apply elem_of_map_to_list.
Qed.

Lemma listed_deposits_exists w l (P : DepositInfo → Prop) k :
  l ≡ₚ (map_to_list (deposits w)).*2 →
  Exists (λ d, P d ∧ deposit_key d = k) l ↔ ∃ d, deposits w !! k = Some d ∧ P d.
Proof.
  intros Hperm. rewrite Exists_exists. split.
  - intros (d & Hin & Hp & <-). exists d. split; [|done]. by apply (listed_deposits w l).
  - intros (d & Hd & Hp). exists d. pose proof (deposits_keyed _ _ _ Hd) as <-.
    split_and!; [by apply (listed_deposits w l)|done..].
Qed.

(** The two loops together. *)
Lemma reconciled_loops m incomplete (D D1 D2 : gmap TxOutput DepositInfo) :
  (∀ k, (∃ d, D !! k = Some d ∧ stale m incomplete d) → D1 !! k = None) →
  (∀ k, (¬ ∃ d, D !! k = Some d ∧ stale m incomplete d) → D1 !! k = D !! k) →
  (∀ k, D2 !! k = D1 !! k ∨
     (D2 !! k = None ∧ ∃ d t, D !! k = Some d ∧ refund_tx_id d = Some t ∧ confirmed t)) →
  (∀ k d, D !! k = Some d → deposit_key d = k) → reconciled m incomplete D D2.
Proof.
  intros Hstale Hkept H2 Hkey k. destruct (D !! k) as [d|] eqn:Hk.
  - destruct (refund_tx_id d) as [t|] eqn:Ht.
    + destruct (H2 k) as [->|(H & d' & t' & Hd' & Ht' & Hc)]; [|simplify_eq; auto].
      rewrite Hkept; [auto|]. intros (d' & Hd' & Hn & _). congruence.
    + assert (D2 !! k = D1 !! k) as ->.
      { destruct (H2 k) as [?|(H & d' & t' & Hd' & Ht' & _)]; [done|congruence]. }
      destruct incomplete; simpl.
      { rewrite Hkept; [done|]. by intros (d' & _ & _ & ? & _). }
      case_bool_decide as Hm.
      * rewrite Hkept; [done|]. intros (d' & Hd' & _ & _ & Hn). rewrite (Hkey _ _ Hd') in Hn.
        by apply not_elem_of_dom in Hn.
      * apply Hstale. exists d. split; [done|]. split_and!; [done..|].
        rewrite (Hkey _ _ Hk). by apply not_elem_of_dom.
  - destruct (H2 k) as [->|[-> _]]; [|done]. rewrite Hkept; [done|]. intros (d & Hd & _). congruence.
Qed.

Lemma reconcile_deposits_ok m incomplete w w' r :
  reconcile_deposits m incomplete w = (w', r) →
  claims w' = claims w ∧
  match r with
  | Err _ => True
  | Ok refunded =>
      reconciled m incomplete (deposits w) (deposits w') ∧
      ∀ k, k ∈ refunded ↔ ∃ d, deposits w !! k = Some d ∧ is_Some (refund_tx_id d)
  end.
Proof.
  unfold reconcile_deposits, se_bind.
  destruct (of_storage list_deposits w) as [w1 rl] eqn:Hl.
  apply of_storage_run in Hl as (rl' & Hl & ->). apply list_deposits_law in Hl as (Hc1 & Hd1 & Hperm).
  destruct rl' as [l|e]; simpl; [|by intros [= <- <-]].
  destruct (scan_deposits m incomplete l ∅ ∅ w1) as [w2 rs] eqn:Hs.
  apply scan_deposits_ok in Hs as [Hc2 Hs]. destruct rs as [[R RD]|e]; [|by intros [= <- <-]; rewrite Hc2].
  destruct Hs as (Hd2 & HR & HRD). rewrite Hd1 in Hd2.
  destruct (check_refunds (hm_iter RD) w2) as [w3 rc] eqn:Hck.
  apply check_refunds_ok in Hck as [Hc3 Hd3].
  destruct rc as [[]|e]; intros [= <- <-]; (split; [by rewrite Hc3, Hc2|]); [|done]. split.
  - apply (reconciled_loops m incomplete _ (deposits w2)).
    + intros k Hk. rewrite Hd2, decide_True; [done|]. by apply (listed_deposits_exists w l).
    + intros k Hk. rewrite Hd2, decide_False; [done|]. by rewrite (listed_deposits_exists w l).
    + intros k. destruct (Hd3 k) as [?|(H3 & t & d & Hin & <- & Hconf)]; [by left|].
      right. split; [done|]. exists d, t. apply elem_of_hm_iter, HRD in Hin as [Hin|[Hin Ht]]; [done|].
      split_and!; [by apply (listed_deposits w l)|done..].
    + intros k d. apply deposits_keyed.
  - intros k. rewrite HR, (listed_deposits_exists w l) by done. rewrite elem_of_empty. tauto.
Qed.

(** Whether the storage had recorded a refund of the output. *)
Definition no_refund (D : gmap TxOutput DepositInfo) (k : TxOutput) : Prop :=
  ∀ d, D !! k = Some d → refund_tx_id d = None.

#[local] Instance no_refund_dec D k : Decision (no_refund D k).
Proof.
  destruct (D !! k) as [d|] eqn:Hk; [destruct (refund_tx_id d) eqn:Hr|].
  - right. intros H. specialize (H d Hk). congruence.
  - left. intros d' Hd'. congruence.
  - left. intros d' Hd'. congruence.
Defined.

Definition utxos_of (m : gmap TxOutput (DetailedUtxo * bool)) : list (DetailedUtxo * bool) :=
  (map_to_list m).*2.

Lemma well_listed_nodup m : well_listed m → NoDup ((λ u, utxo_key u.1) <$> utxos_of m).
Proof.
  intros Hwl. unfold utxos_of. rewrite <- list_fmap_compose.
  replace ((λ u : DetailedUtxo * bool, utxo_key u.1) ∘ snd <$> map_to_list m) with (map_to_list m).*1;
    [apply NoDup_fst_map_to_list|].
  apply list_fmap_ext. intros i [k u] Hi. simpl.
  by destruct (Hwl k u) as [-> _]; [apply elem_of_map_to_list, list_elem_of_lookup; exists i|].
Qed.

Lemma refund_after_insert D D1 m u b :
  inserted D D1 m → well_listed m → (u, b) ∈ utxos_of m →
  (∃ d, D1 !! utxo_key u = Some d ∧ is_Some (refund_tx_id d)) ↔
  (∃ d, D !! utxo_key u = Some d ∧ is_Some (refund_tx_id d)).
Proof.
  intros Hin Hwl ([k u'] & Hu & Hm%elem_of_map_to_list)%list_elem_of_fmap. simpl in Hu. subst u'.
  destruct (Hwl k _ Hm) as [Hk _]. simpl in Hk. subst k. rewrite Hin, Hm. simpl.
  destruct (D !! utxo_key u) as [d|]; simpl; [naive_solver|].
  split; intros (d & Hd & [t Ht]); [|done]. by simplify_eq.
Qed.

Lemma sync_deposit_utxos_ok fuel w w' r :
  sync_deposit_utxos fuel w = (w', r) →
  claims w' = claims w ∧
  match r with
  | Some (Ok l) =>
      ∃ m incomplete w1, (fetch_pages fuel None ∅ w) = (w1, Some (Ok (m, incomplete))) ∧
        well_listed m ∧ inserted (deposits w) (deposits w1) m ∧
        (incomplete = false → ∃ us, pages_from None us ∧ dom m = list_to_set (listed_key <$> us)) ∧
        reconciled m incomplete (deposits w1) (deposits w') ∧
        l ≡ₚ List.filter (λ u, bool_decide (no_refund (deposits w) (utxo_key u.1))) (utxos_of m)
  | _ => True
  end.
Proof.
  unfold sync_deposit_utxos. destruct (fetch_pages fuel None ∅ w) as [w1 rp] eqn:Hp.
  pose proof Hp as Hpages. apply (fetch_pages_ok _ _ _ _ _ _ (deposits w)) in Hp as [Hc1 H1];
    [|intros k; by rewrite lookup_empty|by intros k u ?%lookup_empty_Some].
  destruct rp as [[[m hit]|e]|]; [|by intros [= <- <-]..]. destruct H1 as (Hin & Hwl & Hdom).
  destruct (reconcile_deposits m hit w1) as [w2 [R|e]] eqn:Hr;
    apply reconcile_deposits_ok in Hr as [Hc2 H2]; intros [= <- <-]; (split; [by rewrite Hc2|]); [|done].
  destruct H2 as [Hrec HR]. exists m, hit, w1. split_and!; [done..| |done|].
  { intros (us & Hus & Hd)%Hdom. exists us. split; [done|]. rewrite Hd, dom_empty_L. set_solver. }
  unfold hm_values. rewrite (bfilter_perm _ _ (utxos_of m)) by (by rewrite hm_iter_perm).
  erewrite List.filter_ext_in; [done|]. intros [u b] Hu%list_elem_of_In. simpl.
  apply eq_true_iff_eq. rewrite negb_true_iff, bool_decide_eq_false, bool_decide_eq_true, HR.
  rewrite (refund_after_insert _ _ _ _ _ Hin Hwl Hu). unfold no_refund. split.
  - intros Hn d Hd. destruct (refund_tx_id d) eqn:Ht; [|done]. destruct Hn. exists d. by rewrite Ht.
  - intros Hn (d & Hd & [t Ht]). rewrite (Hn d Hd) in Ht. done.
Qed.

(** C34: a sync of the deposits leaves in the storage exactly what the operators list, with its
    amount and maturity and what was known of its claims: outputs no longer listed go,
    unless a page could not be read; a deposit with a recorded refund goes only when the
    refund is confirmed.  The outputs returned are those listed without a recorded
    refund, and nothing is claimed. *)
Theorem deposit_sync_reconciles fuel w w' l :
  sync_deposit_utxos fuel w = (w', Some (Ok l)) →
  ∃ m incomplete, (fetch_pages fuel None ∅ w).2 = Some (Ok (m, incomplete)) ∧
    well_listed m ∧
    (incomplete = false → ∃ us, pages_from None us ∧ dom m = list_to_set (listed_key <$> us)) ∧
    (∀ k, let kept d := match refund_tx_id d with
                        | None => deposits w' !! k = Some d
                        | Some refund => deposits w' !! k = Some d ∨
                                         (deposits w' !! k = None ∧ confirmed refund)
                        end in
      match m !! k, deposits w !! k with
      | Some (u, mature), old => kept (upsert_deposit k (du_value u) mature old)
      | None, None => deposits w' !! k = None
      | None, Some d => if incomplete || bool_decide (is_Some (refund_tx_id d)) then kept d
                        else deposits w' !! k = None
      end) ∧
    l ≡ₚ List.filter (λ u, bool_decide (no_refund (deposits w) (utxo_key u.1))) (utxos_of m) ∧
    claims w' = claims w.
Proof.
  intros [Hc (m & inc & w1 & Hp & Hwl & Hin & Hdom & Hrec & Hl)]%sync_deposit_utxos_ok.
  exists m, inc. split_and!; [by rewrite Hp|done..| |done|done].
  intros k. specialize (Hin k). specialize (Hrec k). pose proof (elem_of_dom m k) as Hk.
  destruct (m !! k) as [[u b]|]; rewrite Hin in Hrec; cbv beta zeta.
  - destruct (refund_tx_id _); [done|]. rewrite bool_decide_eq_true_2 in Hrec by by apply Hk.
    by rewrite orb_true_r in Hrec.
  - destruct (deposits w !! k) as [d|]; [|done].
    destruct (refund_tx_id d) as [t|]; [by rewrite orb_true_r|].
    rewrite bool_decide_eq_false_2 in Hrec; [by destruct inc|].
    intros [? ?]%Hk. done.
Qed.

(** ** Claims *)

(** A quote the user's fee limit allows to claim for an output. *)
Definition fee_allowed (max_claim_fee : option MaxFee) (u : DetailedUtxo) (q : StaticDepositQuote) : Prop :=
  (∃ w w', fetch_static_deposit_claim_quote (du_tx u) (Some (du_vout u)) w = (w', Ok q)) ∧
  ∃ m fee w w', max_claim_fee = Some m ∧ to_fee m w = (w', Ok fee) ∧
    du_value u - credit_amount_sats q ≤ to_sats fee CLAIM_TX_SIZE_VBYTES.

Lemma quiet_to_fee m : se_preserves quiet (to_fee m).
Proof. unfold to_fee. solve_preserves. Qed.

Lemma claim_utxo_claims u max_claim_fee w w' r :
  claim_utxo u max_claim_fee w = (w', r) →
  deposits w' = deposits w ∧
  ((claims w' = claims w ∧ ∀ t, r ≠ Ok t) ∨
   ∃ q, claims w' = claims w ++ [q] ∧ fee_allowed max_claim_fee u q).
Proof.
  unfold claim_utxo, se_bind.
  destruct (fetch_static_deposit_claim_quote _ _ w) as [w1 [q|e]] eqn:Hq;
    pose proof (se_preserves_run quiet _ _ _ _ (quiet_quote _ _) Hq) as [Hd1 Hc1];
    [|intros [= <- <-]; auto].
  destruct max_claim_fee as [m|]; [|intros [= <- <-]; auto].
  destruct (to_fee m w1) as [w2 [fee|e]] eqn:Hf;
    pose proof (se_preserves_run quiet _ _ _ _ (quiet_to_fee _) Hf) as [Hd2 Hc2];
    rewrite Hd1 in Hd2; rewrite Hc1 in Hc2; [|intros [= <- <-]; auto].
  destruct (Z.ltb_spec (to_sats fee CLAIM_TX_SIZE_VBYTES)
    (saturating_sub (du_value u) (credit_amount_sats q))) as [_|Hle]; [intros [= <- <-]; auto|].
  intros Hcl. pose proof (claim_static_deposit_law q w2) as [Hd3 Hc3]. rewrite Hcl in Hd3, Hc3.
  simpl in Hd3, Hc3. split; [congruence|]. right. exists q. split; [congruence|].
  split; [by exists w, w1|]. exists m, fee, w1, w2. split_and!; [done..|].
  unfold saturating_sub in Hle. lia.
Qed.

Lemma quiet_emit_unless_empty ev l : se_preserves quiet (emit_unless_empty ev l).
Proof. intros w. simpl. case_bool_decide; [done|apply quiet_emit]. Qed.

Lemma of_storage_update txid vout p w w' r :
  of_storage (update_deposit txid vout p) w = (w', r) → claims w' = claims w.
Proof. by intros (r' & [H _]%update_deposit_law & _)%of_storage_run. Qed.

Lemma of_storage_delete_claims txid vout w w' r :
  of_storage (delete_deposit txid vout) w = (w', r) → claims w' = claims w.
Proof. by intros (r' & [H _]%delete_deposit_law & _)%of_storage_run. Qed.

(** One claim at most for each output, in order, also when the loop stops early. *)
Lemma claim_all_claims max_claim_fee us w w' r :
  claim_all max_claim_fee us w = (w', r) →
  ∃ us' qs, us' `sublist_of` us ∧ claims w' = claims w ++ qs ∧
    Forall2 (fee_allowed max_claim_fee) us' qs.
Proof.
  revert w r. induction us as [|u us IH]; intros w r Hrun.
  { injection Hrun as <- _. exists [], []. by rewrite app_nil_r. }
  cbn [claim_all] in Hrun. unfold se_try in Hrun.
  destruct (claim_utxo u max_claim_fee w) as [w1 rc] eqn:Hcl.
  apply claim_utxo_claims in Hcl as [_ Hcl].
  assert (∃ w2 r2, claims w2 = claims w1 ∧ (w' = w2 ∨ claim_all max_claim_fee us w2 = (w', r2)))
    as (w2 & r2 & Hc2 & Hrest).
  { unfold se_bind in Hrun. destruct rc as [t|e].
    - destruct (of_storage _ w1) as [w2 [[]|e]] eqn:Hdel; apply of_storage_delete_claims in Hdel.
      + destruct (claim_all max_claim_fee us w2) as [w3 r3] eqn:H3. exists w2, r3. split; [done|].
        right. rewrite H3. destruct r3 as [[]|]; by injection Hrun as <- _.
      + exists w2, r. split; [done|]. left. by injection Hrun as <- _.
    - destruct (of_storage _ w1) as [w2 [[]|e']] eqn:Hup; apply of_storage_update in Hup.
      + destruct (claim_all max_claim_fee us w2) as [w3 r3] eqn:H3. exists w2, r3. split; [done|].
        right. rewrite H3. destruct r3 as [[]|]; by injection Hrun as <- _.
      + exists w2, r. split; [done|]. left. by injection Hrun as <- _. }
  assert (∃ us' qs, us' `sublist_of` us ∧ claims w' = claims w1 ++ qs ∧
    Forall2 (fee_allowed max_claim_fee) us' qs) as (us' & qs & Hsub & Hc' & Hall).
  { destruct Hrest as [->|H]; [|apply IH in H as (us' & qs & ?); exists us', qs; by rewrite <- Hc2].
    exists [], []. split_and!; [apply sublist_nil_l|by rewrite app_nil_r|done]. }
  destruct Hcl as [[Hc _]|(q & Hc & Hq)].
  - exists us', qs. split_and!; [by constructor|by rewrite Hc', Hc|done].
  - exists (u :: us'), (q :: qs). split_and!; [by constructor| |by constructor].
    by rewrite Hc', Hc, <- (assoc_L (++)).
Qed.

Lemma utxos_of_listed m u b : well_listed m → (u, b) ∈ utxos_of m → listed (utxo_key u) b.
Proof.
  intros Hwl ([k u'] & Hu & Hm%elem_of_map_to_list)%list_elem_of_fmap. simpl in Hu. subst u'.
  by destruct (Hwl k _ Hm) as [-> ?].
Qed.

Lemma claim_and_announce_claims max_claim_fee existing l w w' r :
  claim_and_announce max_claim_fee existing l w = (w', r) →
  ∃ us qs, us `sublist_of` (List.filter snd l).*1 ∧ claims w' = claims w ++ qs ∧
    Forall2 (fee_allowed max_claim_fee) us qs.
Proof.
  unfold claim_and_announce, se_bind. cbv zeta.
  destruct (emit_unless_empty NewDeposits _ w) as [w1 rn] eqn:Hn.
  pose proof (se_preserves_run quiet _ _ _ _ (quiet_emit_unless_empty _ _) Hn) as [_ Hc1].
  destruct rn as [[]|e].
  2:{ intros [= <- _]. exists [], []. rewrite app_nil_r. split_and!; [apply sublist_nil_l|done..]. }
  destruct (claim_all max_claim_fee _ w1) as [w2 rc] eqn:Hcl.
  apply claim_all_claims in Hcl as (us & qs & Hsub & Hc2 & Hall). intros Hend.
  exists us, qs. split_and!; [done| |done]. rewrite <- Hc1, <- Hc2.
  destruct rc as [[cl un]|e]; [|by injection Hend as <- _].
  assert (se_preserves quiet (do* _ := emit_unless_empty UnclaimedDeposits un in
    emit_unless_empty ClaimedDeposits cl)) as Hq
    by (apply se_preserves_bind; [apply _|apply quiet_emit_unless_empty|intros; apply quiet_emit_unless_empty]).
  by destruct (se_preserves_run quiet _ _ _ _ Hq Hend) as [_ ?].
Qed.

(** C33: whatever happens during an automatic claim, the wallet is only asked to claim quotes
    it gave for outputs the operators listed as mature and for which the storage had no
    refund, each output at most once, and only where the quote costs no more than the fee
    limit of the configuration; without a limit nothing is claimed. *)
Theorem automatic_claims_allowed private max_claim_fee fuel w w' r :
  check_and_claim_static_deposits private max_claim_fee fuel w = (w', r) →
  ∃ us qs, claims w' = claims w ++ qs ∧ Forall2 (fee_allowed max_claim_fee) us qs ∧
    NoDup (utxo_key <$> us) ∧
    Forall (λ u, listed (utxo_key u) true ∧ no_refund (deposits w) (utxo_key u)) us.
Proof.
  unfold check_and_claim_static_deposits.
  set (start := do* _ := _ in of_storage list_deposits).
  assert (se_preserves quiet start) as Hstart by (unfold start; solve_preserves).
  assert (∀ w1, claims w1 = claims w → ∃ us qs, claims w1 = claims w ++ qs ∧
    Forall2 (fee_allowed max_claim_fee) us qs ∧ NoDup (utxo_key <$> us) ∧
    Forall (λ u, listed (utxo_key u) true ∧ no_refund (deposits w) (utxo_key u)) us) as Hnone.
  { intros w1 Hc. exists [], []. rewrite app_nil_r. split_and!; [done..|apply NoDup_nil_2|done]. }
  destruct (start w) as [w1 [existing|e]] eqn:Hs;
    pose proof (se_preserves_run quiet _ _ _ _ Hstart Hs) as [Hd1 Hc1];
    [|intros [= <- _]; by apply Hnone].
  destruct (sync_deposit_utxos fuel w1) as [w2 rs] eqn:Hsync.
  apply sync_deposit_utxos_ok in Hsync as [Hc2 Hsync]. rewrite Hc1 in Hc2.
  destruct rs as [[l|e]|]; [|intros [= <- _]; by apply Hnone..].
  destruct Hsync as (m & inc & wm & _ & Hwl & _ & _ & _ & Hl).
  destruct (claim_and_announce _ existing l w2) as [w3 rc] eqn:Hcl. intros [= <- _].
  apply claim_and_announce_claims in Hcl as (us & qs & Hsub & Hc3 & Hall).
  exists us, qs. split; [by rewrite Hc3, Hc2|]. split; [done|].
  assert (NoDup (utxo_key <$> (List.filter snd l).*1)) as Hnd.
  { rewrite <- list_fmap_compose. eapply sublist_NoDup; [|apply fmap_sublist, sublist_bfilter].
    rewrite Hl. eapply sublist_NoDup; [by apply (well_listed_nodup m)|].
    apply fmap_sublist, sublist_bfilter. }
  split; [eapply sublist_NoDup; [exact Hnd|by apply fmap_sublist]|].
  apply Forall_forall. intros u Hu. apply (λ H, elem_of_sublist _ _ _ H Hsub) in Hu.
  apply list_elem_of_fmap in Hu as ([u' b] & -> & [Hin Hb]%elem_of_bfilter). simpl in *. subst b.
  rewrite Hl in Hin. apply elem_of_bfilter in Hin as [Hin Hnr]. apply bool_decide_eq_true in Hnr.
  rewrite <- Hd1. split; [by eapply utxos_of_listed|done].
Qed.
End theorems.

(** ** Example: the table, and a wallet with two pages of outputs *)

#[local] Existing Instance example_payment_types.
#[local] Existing Instance example_parsers.
#[local] Existing Instance example_bitcoin.
#[local] Existing Instance canonical_order.

Definition example_txid_text : @Txid example_bitcoin → string := λ t : Z, bits (encode t).
Definition example_txid_parse : string → option (@Txid example_bitcoin) := λ s, (decode (of_bits s) : option Z).
Definition example_tx_id : Tx (bt := example_bitcoin) → @Txid example_bitcoin := λ _, 0%Z.

#[local] Instance example_deposit_types : DepositTypes (bt := example_bitcoin) := {|
  QuoteSignature := ();
  Txid_to_string := example_txid_text;
  Txid_from_str := example_txid_parse;
  deserialize_hex _ :=
    Ok {| version := 3; lock_time := 0; input := [];
          output := [{| txo_value := 1000; script_pubkey := [] |}] |};
  serialize_hex _ := "";
  tx_id := example_tx_id
|}.

Lemma example_txid_roundtrip : ∀ t : Txid, Txid_from_str (Txid_to_string t) = Some t.
Proof.
  intros t. change (decode (of_bits (bits (encode (t : Z)))) = Some (t : Z)).
  by rewrite of_bits_bits, decode_encode.
Qed.

(** Rows with the primary key of the table. *)
Record DepositTable : Type := {
  dt_rows : list DepositInfo;
  dt_unique : unique_rows dt_rows
}.

Record DepositWorld : Type := {
  dw_table : DepositTable;
  dw_cache : gmap string string;
  dw_claims : list StaticDepositQuote;
  dw_cell : bool;
  dw_events : list DepositEvent
}.

Definition on_table (f : list DepositInfo → list DepositInfo)
    (Hf : ∀ rows, unique_rows rows → unique_rows (f rows)) (w : DepositWorld) : DepositWorld :=
  {| dw_table := {| dt_rows := f (dt_rows (dw_table w)); dt_unique := Hf _ (dt_unique (dw_table w)) |};
     dw_cache := dw_cache w; dw_claims := dw_claims w; dw_cell := dw_cell w; dw_events := dw_events w |}.

Lemma add_unique o a m rows : unique_rows rows → unique_rows (sql_add_deposit o a m rows).
Proof. intros H. by apply sql_add_deposit_map. Qed.
Lemma delete_unique o rows : unique_rows rows → unique_rows (sql_delete_deposit o rows).
Proof. intros H. by apply sql_delete_deposit_map. Qed.
Lemma update_unique o p rows : unique_rows rows → unique_rows (sql_update_deposit o p rows).
Proof. intros H. by apply sql_update_deposit_map. Qed.

#[local] Instance example_cache : CacheStorage DepositWorld := {|
  get_cached_item k := λ w, (w, Ok (dw_cache w !! k));
  set_cached_item k v := λ w,
    ({| dw_table := dw_table w; dw_cache := <[k := v]> (dw_cache w); dw_claims := dw_claims w;
        dw_cell := dw_cell w; dw_events := dw_events w |}, Ok ());
  delete_cached_item k := λ w,
    ({| dw_table := dw_table w; dw_cache := delete k (dw_cache w); dw_claims := dw_claims w;
        dw_cell := dw_cell w; dw_events := dw_events w |}, Ok ())
|}.

#[local] Instance table_deposits : DepositStorage DepositWorld := {|
  add_deposit txid vout a m := λ w,
    let o := {| o_txid := txid; o_vout := vout |} in
    (on_table (sql_add_deposit o a m) (add_unique o a m) w, Ok ());
  delete_deposit txid vout := λ w,
    let o := {| o_txid := txid; o_vout := vout |} in
    (on_table (sql_delete_deposit o) (delete_unique o) w, Ok ());
  list_deposits := λ w, (w, Ok (dt_rows (dw_table w)));
  update_deposit txid vout p := λ w,
    let o := {| o_txid := txid; o_vout := vout |} in
    (on_table (sql_update_deposit o p) (update_unique o p) w, Ok ())
|}.

#[local] Instance example_chain : ChainService DepositWorld := {|
  get_transaction_hex txid := λ w, (w, Ok "");
  get_transaction_status _ := λ w, (w, Ok false);
  recommended_fastest_fee := λ w, (w, Ok 2);
  broadcast_transaction _ := λ w, (w, Ok ())
|}.

Definition example_tid (t : Z) : @Txid example_bitcoin := t.
Definition example_signature : @QuoteSignature example_bitcoin example_deposit_types := ().

Definition example_utxo (t : Z) (mature : bool) : Utxo :=
  {| u_vout := 0; u_txid := example_tid t; u_is_mature := mature |}.

(** The outputs 1 to 3; a claim costs 100 satoshis. *)
#[local] Instance example_deposit_wallet : DepositWallet DepositWorld := {|
  get_utxos_for_identity _ c := λ w,
    (w, Ok (match c with
            | None => ([example_utxo 1 true], Some "next")
            | Some _ => ([example_utxo 2 false; example_utxo 3 true], None)
            end));
  fetch_static_deposit_claim_quote _ _ := λ w,
    (w, Ok {| q_txid := example_tid 1; output_index := 0; credit_amount_sats := 900; signature := example_signature |});
  claim_static_deposit q := λ w,
    ({| dw_table := dw_table w; dw_cache := dw_cache w; dw_claims := dw_claims w ++ [q];
        dw_cell := dw_cell w; dw_events := dw_events w |},
     Ok (example_transfer "claim" TransferCompleted UtxoSwap None));
  refund_static_deposit tx _ _ _ := λ w, (w, Ok tx);
  enable_private_mode := λ w, (w, Ok ());
  private_mode_cell := dw_cell;
  set_private_mode_cell w :=
    {| dw_table := dw_table w; dw_cache := dw_cache w; dw_claims := dw_claims w;
       dw_cell := true; dw_events := dw_events w |};
  trigger_wallet_state_sync w := w;
  emit_deposits e w :=
    {| dw_table := dw_table w; dw_cache := dw_cache w; dw_claims := dw_claims w;
       dw_cell := dw_cell w; dw_events := dw_events w ++ [e] |}
|}.

(** The table keeps what the storage promises. *)
#[local] Instance table_laws : DepositLaws DepositWorld.
Proof.
  refine {| deposits := λ w, rows_map (dt_rows (dw_table w)); claims := dw_claims |}.
  - intros w o d Hd. by apply rows_map_lookup in Hd as [_ ?]; [|apply dt_unique].
  - intros txid vout a m w w' r [= <- <-]. split; [done|]. by apply sql_add_deposit_map, dt_unique.
  - intros txid vout w w' r [= <- <-]. split; [done|]. by apply sql_delete_deposit_map, dt_unique.
  - intros txid vout p w w' r [= <- <-]. split; [done|]. by apply sql_update_deposit_map, dt_unique.
  - intros w w' r [= <- <-]. split_and!; [done..|]. apply rows_map_values, dt_unique.
  - done.
Defined.

#[local] Instance example_quiet : DepositQuiet DepositWorld.
Proof. by split. Qed.

#[local] Instance hex_serde : Serde CachedTx := {|
  to_json t := Ok (raw_tx t); from_json s := Ok {| raw_tx := s |}
|}.

Definition deposit_row (t : Z) (refund : option string) : DepositInfo :=
  {| di_txid := Txid_to_string (example_tid t); di_vout := 0; di_amount_sats := 1000; di_is_mature := true;
     refund_tx := refund; refund_tx_id := refund; claim_error := None |}.

(** Output 3 was refunded; output 4 is no longer listed. *)
Definition example_rows : list DepositInfo := [deposit_row 3 (Some "refund"); deposit_row 4 None].

Lemma example_rows_unique : unique_rows example_rows.
Proof. apply (bool_decide_unpack _). by vm_compute. Qed.

Definition example_deposits : DepositWorld :=
  {| dw_table := {| dt_rows := example_rows; dt_unique := example_rows_unique |};
     dw_cache := ∅; dw_claims := []; dw_cell := false; dw_events := [] |}.

(** The deposits after a sync: outputs 1 and 2 are returned, 4 is gone, 3 stays. *)
Lemma deposit_sync_reconciles_witness :
  let run := sync_deposit_utxos 3 example_deposits in
  ∃ l, run = (run.1, Some (Ok l)) ∧ length l = 2%nat ∧ claims run.1 = [] ∧
    (o_vout <$> (deposit_key <$> dt_rows (dw_table run.1))) = [0; 0; 0].
Proof.
  intros run.
  assert (match run.2 with Some (Ok l) => length l =? 2 | _ => false end%nat = true) as Hok
    by (vm_compute; reflexivity).
  assert (∃ l, run = (run.1, Some (Ok l)) ∧ length l = 2%nat) as (l & Hrun & Hlen).
  { destruct run as [w [[l|e]|]]; [|done..]. exists l. split; [done|]. by apply Nat.eqb_eq. }
  exists l. split; [exact Hrun|]. split; [exact Hlen|].
  destruct (deposit_sync_reconciles example_txid_roundtrip 3 example_deposits run.1 l Hrun)
    as (m & inc & _ & _ & _ & _ & _ & Hc).
  split; [exact Hc|]. vm_compute. reflexivity.
Defined.

(** Output 1 is claimed: 3 has a refund, 2 is not mature. *)
Lemma automatic_claims_allowed_witness :
  let run := check_and_claim_static_deposits true (Some (MaxFixed 150)) 3 example_deposits in
  ∃ u q, claims run.1 = [q] ∧ fee_allowed (Some (MaxFixed 150)) u q ∧
    no_refund (deposits example_deposits) (utxo_key u).
Proof.
  intros run.
  destruct (automatic_claims_allowed example_txid_roundtrip true (Some (MaxFixed 150)) 3
    example_deposits run.1 run.2 (surjective_pairing run)) as (us & qs & Hc & Hall & _ & Hus).
  assert (length (claims run.1) = 1%nat) as Hlen by (vm_compute; reflexivity).
  rewrite Hc in Hlen. change (claims example_deposits) with ([] : list StaticDepositQuote) in *.
  simpl in Hc, Hlen. destruct qs as [|q [|]]; [done| |done].
  destruct us as [|u us']; [by inversion Hall|]. apply Forall2_cons in Hall as [Hq _].
  exists u, q. split; [exact Hc|]. split; [exact Hq|]. by apply Forall_cons in Hus as [[_ ?] _].
Defined.
