(* ===== verification/Addresses.v ===== *)
(** Spark addresses and invoices ([crates/spark/src/address/mod.rs], [address/error.rs]) and the
    texts of token identifiers ([services/tokens.rs]).

    Bech32, the primitives of the protobuf encoder with the generated decoder, keys,
    signatures and identifiers are the class [AddressOps]; [AddressLaws] is their documented
    behaviour.  Times are nanoseconds from the Unix epoch.  The errors that the library
    functions display are texts. *)
From Stdlib Require Import Ascii.
From stdpp Require Import base list strings sorting.
From S2P Require Import Prelude Timelocks TreeTypes Transactions Bytes.

(** ** Errors *)

Inductive AddressError : Type :=
| InvalidBech32mAddress (s : string) | UnknownHrp (s : string)
| Bech32EncodeError (s : string) | Bech32mDecodeError (s : string)
| ProtobufDecodeError (s : string) | AddrInvalidPublicKey (s : string)
| InvalidPaymentIntent (s : string) | InvalidSignature (s : string) | AddrOther (s : string).

Definition AddressError_fmt (e : AddressError) : string :=
  match e with
  | InvalidBech32mAddress s => "Invalid bech32m address: " +:+ s
  | UnknownHrp s => "Unknown HRP (human-readable part): " +:+ s
  | Bech32EncodeError s => "Failed to encode bech32: " +:+ s
  | Bech32mDecodeError s => "Failed to decode bech32m: " +:+ s
  | ProtobufDecodeError s => "Failed to decode protobuf: " +:+ s
  | AddrInvalidPublicKey s => "Invalid public key: " +:+ s
  | InvalidPaymentIntent s => "Invalid payment intent: " +:+ s
  | InvalidSignature s => "Invalid signature: " +:+ s
  | AddrOther s => "Other error: " +:+ s
  end.

(** ** Generated protobuf messages ([protos/spark/spark.proto]) *)

Record ProtoSatsPayment : Type := { psp_amount : option Z }.
Record ProtoTokensPayment : Type := {
  ptp_token_identifier : option (list Z);
  ptp_amount : option (list Z)
}.
Inductive ProtoPaymentType : Type :=
| ProtoTokens (tp : ProtoTokensPayment)
| ProtoSats (sp : ProtoSatsPayment).
(** [prost_types::Timestamp]: an [i64] and an [i32]. *)
Record ProtoTimestamp : Type := { ts_seconds : Z; ts_nanos : Z }.
Record ProtoSparkInvoiceFields : Type := {
  pif_version : Z;
  pif_id : list Z;
  pif_payment_type : option ProtoPaymentType;
  pif_memo : option string;
  pif_sender_public_key : option (list Z);
  pif_expiry_time : option ProtoTimestamp
}.
Record ProtoSparkAddress : Type := {
  psa_identity_public_key : list Z;
  psa_spark_invoice_fields : option ProtoSparkInvoiceFields;
  psa_signature : option (list Z)
}.

(** ** Libraries *)

Class AddressOps := {
  (** [bech32]: human-readable parts, [encode::<Bech32m>], [decode]. *)
  Hrp : Type;
  Hrp_parse_unchecked : string → Hrp;
  Hrp_as_str : Hrp → string;
  Hrp_eqb : Hrp → Hrp → bool;
  Hrp_fmt : Hrp → string;
  bech32_encode : Hrp → list Z → result string string;
  bech32_decode : string → result (Hrp * list Z) string;
  (** [prost::encoding] at the types the code encodes, and the generated decoder. *)
  uint32_encode : Z → Z → list Z;
  bytes_encode : Z → list Z → list Z;
  string_encode : Z → string → list Z;
  timestamp_encode : Z → ProtoTimestamp → list Z;
  tokens_encode : Z → ProtoTokensPayment → list Z;
  sats_encode : Z → ProtoSatsPayment → list Z;
  ProtoSparkAddress_decode : list Z → result ProtoSparkAddress string;
  (** Keys, Schnorr signatures, SHA-256, identifiers. *)
  AddrKey : Type;
  AddrKey_eq_dec :: EqDecision AddrKey;
  Key_serialize : AddrKey → list Z;
  Key_from_slice : list Z → result AddrKey string;
  XOnly : Type;
  x_only_public_key : AddrKey → XOnly;
  SchnorrSignature : Type;
  Signature_serialize : SchnorrSignature → list Z;
  Signature_from_slice : list Z → result SchnorrSignature string;
  verify_schnorr : SchnorrSignature → list Z → XOnly → bool;
  sha256 : list Z → list Z;
  Uuid : Type;
  Uuid_as_bytes : Uuid → list Z;
  (** Of sixteen bytes. *)
  Uuid_from_bytes : list Z → Uuid;
}.

(** The calls of the [Signer] made here. *)
Record AddressSigner {ao : AddressOps} : Type := {
  get_identity_public_key : result AddrKey string;
  sign_hash_schnorr_with_identity_key : list Z → result SchnorrSignature string
}.

(** ** Token identifiers *)

Section token_ids.
Context {ao : AddressOps}.

Definition HRP_STR_MAINNET : string := "btkn".
Definition HRP_STR_TESTNET : string := "btknt".
Definition HRP_STR_REGTEST : string := "btknrt".
Definition HRP_STR_SIGNET : string := "btkns".

(** Every error of the two functions is a [ServiceError::Generic]; its text is kept. *)
Definition service_generic_fmt (e : string) : string := "generic error: " +:+ e.

Definition bech32m_encode_token_id (raw_token_id : list Z) (network : Network)
    : result string string :=
  let hrp_str := match network with
                 | Mainnet => HRP_STR_MAINNET
                 | Testnet => HRP_STR_TESTNET
                 | Regtest => HRP_STR_REGTEST
                 | Signet => HRP_STR_SIGNET
                 end in
  let hrp := Hrp_parse_unchecked hrp_str in
  map_err (λ e, "Failed to encode token id: " +:+ e) (bech32_encode hrp raw_token_id).

(** [match hrp.as_str()] of the decoder. *)
Definition token_hrp_network (hrp : string) : option Network :=
  if String.eqb hrp "btkn" then Some Mainnet
  else if String.eqb hrp "btknt" then Some Testnet
  else if String.eqb hrp "btknrt" then Some Regtest
  else if String.eqb hrp "btkns" then Some Signet
  else None.

Definition bech32m_decode_token_id (token_id : string) (network : option Network)
    : result (list Z) string :=
  let* (hrp, data) := map_err (λ e, "Failed to decode token id: " +:+ e) (bech32_decode token_id) in
  let* bech32_network := ok_or (token_hrp_network (Hrp_as_str hrp))
    ("Invalid network: " +:+ Hrp_fmt hrp) in
  match network with
  | Some n => if bool_decide (bech32_network = n) then Ok data
              else Err ("Invalid network: " +:+ Network_fmt bech32_network)
  | None => Ok data
  end.
End token_ids.

(** ** Addresses *)

Section address.
Context {ao : AddressOps}.

Record SatsPayment : Type := { sp_amount : option Z }.
Record TokensPayment : Type := {
  tp_token_identifier : option string;
  tp_amount : option Z
}.
Inductive SparkAddressPaymentType : Type :=
| PayTokens (tp : TokensPayment)
| PaySats (sp : SatsPayment).

Record SparkInvoiceFields : Type := {
  inv_id : Uuid;
  inv_version : Z;
  inv_memo : option string;
  inv_sender_public_key : option AddrKey;
  (** A [SystemTime]. *)
  inv_expiry_time : option Z;
  inv_payment_type : option SparkAddressPaymentType
}.

Record SparkAddress : Type := {
  identity_public_key : AddrKey;
  network : Network;
  spark_invoice_fields : option SparkInvoiceFields
}.

(** [opt.map(f).transpose()]. *)
Definition transpose {A B Er} (f : A → result B Er) (o : option A) : result (option B) Er :=
  match o with
  | None => Ok None
  | Some a => let* b := f a in Ok (Some b)
  end.

Definition payment_type_to_proto (value : SparkAddressPaymentType)
    : result ProtoPaymentType AddressError :=
  match value with
  | PayTokens tp =>
      let* token_identifier :=
        transpose (λ id, map_err (λ e, Bech32mDecodeError ("Invalid token identifier: " +:+
                                          service_generic_fmt e))
                           (bech32m_decode_token_id id None)) (tp_token_identifier tp) in
      Ok (ProtoTokens {| ptp_amount := to_unpadded_be_bytes <$> tp_amount tp;
                         ptp_token_identifier := token_identifier |})
  | PaySats sp => Ok (ProtoSats {| psp_amount := sp_amount sp |})
  end.

Definition payment_type_from_proto (value : ProtoPaymentType) (network : Network)
    : result SparkAddressPaymentType AddressError :=
  match value with
  | ProtoTokens tp =>
      let* amount := map_err (λ e, InvalidPaymentIntent ("Invalid amount: " +:+ e))
        (transpose from_unpadded_be_bytes (ptp_amount tp)) in
      let* token_identifier :=
        transpose (λ id, map_err (λ e, Bech32EncodeError ("Failed to encode token identifier: " +:+
                                          service_generic_fmt e))
                           (bech32m_encode_token_id id network)) (ptp_token_identifier tp) in
      Ok (PayTokens {| tp_token_identifier := token_identifier; tp_amount := amount |})
  | ProtoSats sp => Ok (PaySats {| sp_amount := psp_amount sp |})
  end.

(** *** Times

    A [SystemTime] counts its seconds in an [i64]: [+] panics beyond. *)
Definition nanos_per_sec : Z := 1000000000.

Definition system_time_add (t nanos : Z) : option Z :=
  if (t + nanos) / nanos_per_sec <? 2 ^ 63 then Some (t + nanos) else None.

(** [x as u64], [x as i64]. *)
Definition as_u64 (x : Z) : Z := x mod 2 ^ 64.
Definition as_i64 (x : Z) : Z := (x + 2 ^ 63) mod 2 ^ 64 - 2 ^ 63.

(** [UNIX_EPOCH + Duration::from_secs(t.seconds as u64) + Duration::from_nanos(t.nanos as u64)]. *)
Definition timestamp_to_time (t : ProtoTimestamp) : option Z :=
  t1 ← system_time_add 0 (as_u64 (ts_seconds t) * nanos_per_sec);
  system_time_add t1 (as_u64 (ts_nanos t)).

(** [t.duration_since(UNIX_EPOCH).unwrap_or_default()]. *)
Definition since_epoch (t : Z) : Z := Z.max 0 t.

Definition time_to_timestamp (t : Z) : ProtoTimestamp :=
  {| ts_seconds := as_i64 (since_epoch t / nanos_per_sec);
     ts_nanos := since_epoch t mod nanos_per_sec |}.

(** [web_time_to_prost_timestamp] ([utils/time.rs]); no time before the epoch. *)
Definition web_time_to_prost_timestamp (system_time : Z) : option ProtoTimestamp :=
  if system_time <? 0 then None
  else Some {| ts_seconds := as_i64 (system_time / nanos_per_sec);
               ts_nanos := system_time mod nanos_per_sec |}.

Definition invoice_fields_from_proto (proto : ProtoSparkInvoiceFields) (network : Network)
    : result SparkInvoiceFields (exn AddressError) :=
  let* sender_public_key :=
    throws (transpose (λ pk, map_err AddrInvalidPublicKey (Key_from_slice pk))
              (pif_sender_public_key proto)) in
  let* payment_type :=
    throws (transpose (λ pt, map_err (λ e, InvalidPaymentIntent ("Invalid payment type: " +:+
                                              AddressError_fmt e))
                               (payment_type_from_proto pt network)) (pif_payment_type proto)) in
  let* id :=
    (if (length (pif_id proto) =? 16)%nat then Ok (Uuid_from_bytes (pif_id proto))
     else Err (Throw (InvalidPaymentIntent "Invalid UUID length"))) in
  let* expiry_time := transpose (λ t, or_panic (timestamp_to_time t)) (pif_expiry_time proto) in
  Ok {| inv_id := id;
        inv_version := pif_version proto;
        inv_sender_public_key := sender_public_key;
        inv_expiry_time := expiry_time;
        inv_payment_type := payment_type;
        inv_memo := pif_memo proto |}.

Definition invoice_fields_to_proto (val : SparkInvoiceFields)
    : result ProtoSparkInvoiceFields AddressError :=
  let id := Uuid_as_bytes (inv_id val) in
  let* payment_type := transpose payment_type_to_proto (inv_payment_type val) in
  Ok {| pif_id := id;
        pif_version := inv_version val;
        pif_sender_public_key := Key_serialize <$> inv_sender_public_key val;
        pif_expiry_time := time_to_timestamp <$> inv_expiry_time val;
        pif_payment_type := payment_type;
        pif_memo := inv_memo val |}.

(** *** Networks *)

Definition HRP_MAINNET : Hrp := Hrp_parse_unchecked "spark".
Definition HRP_TESTNET : Hrp := Hrp_parse_unchecked "sparkt".
Definition HRP_REGTEST : Hrp := Hrp_parse_unchecked "sparkrt".
Definition HRP_SIGNET : Hrp := Hrp_parse_unchecked "sparks".
Definition HRP_LEGACY_MAINNET : Hrp := Hrp_parse_unchecked "sp".
Definition HRP_LEGACY_TESTNET : Hrp := Hrp_parse_unchecked "spt".
Definition HRP_LEGACY_REGTEST : Hrp := Hrp_parse_unchecked "sprt".
Definition HRP_LEGACY_SIGNET : Hrp := Hrp_parse_unchecked "sps".

Definition network_to_hrp (network : Network) : Hrp :=
  match network with
  | Mainnet => HRP_MAINNET
  | Testnet => HRP_TESTNET
  | Regtest => HRP_REGTEST
  | Signet => HRP_SIGNET
  end.

Definition hrp_to_network (hrp : Hrp) : result Network AddressError :=
  if Hrp_eqb hrp HRP_MAINNET || Hrp_eqb hrp HRP_LEGACY_MAINNET then Ok Mainnet
  else if Hrp_eqb hrp HRP_TESTNET || Hrp_eqb hrp HRP_LEGACY_TESTNET then Ok Testnet
  else if Hrp_eqb hrp HRP_REGTEST || Hrp_eqb hrp HRP_LEGACY_REGTEST then Ok Regtest
  else if Hrp_eqb hrp HRP_SIGNET || Hrp_eqb hrp HRP_LEGACY_SIGNET then Ok Signet
  else Err (UnknownHrp (Hrp_fmt hrp)).

(** [(magic as i64).to_be_bytes()[4..]]. *)
Definition get_magic_network_identifier (network : Network) : list Z :=
  let magic := match network with
               | Mainnet => 0xd9b4bef9
               | Regtest => 0xdab5bffa
               | Testnet => 0x0709110b
               | Signet => 0x40cf030a
               end in
  drop 4 (to_be_bytes 8 magic).

(** *** Canonical encodings *)

(** [if let Some(x) = o { encode(x) }]. *)
Definition encode_some {A} (f : A → list Z) (o : option A) : list Z :=
  match o with Some a => f a | None => [] end.

Definition encode_spark_invoice_fields_canonical (fields : ProtoSparkInvoiceFields) : list Z :=
  (if pif_version fields =? 0 then [] else uint32_encode 1 (pif_version fields)) ++
  (match pif_id fields with [] => [] | id => bytes_encode 2 id end) ++
  encode_some (string_encode 5) (pif_memo fields) ++
  encode_some (bytes_encode 6) (pif_sender_public_key fields) ++
  encode_some (timestamp_encode 7) (pif_expiry_time fields) ++
  encode_some (λ pt, match pt with
                     | ProtoTokens tokens => tokens_encode 3 tokens
                     | ProtoSats sats => sats_encode 4 sats
                     end) (pif_payment_type fields).

Definition encode_spark_address_canonical (address : ProtoSparkAddress) : list Z :=
  bytes_encode 1 (psa_identity_public_key address) ++
  encode_some (λ f, bytes_encode 2 (encode_spark_invoice_fields_canonical f))
    (psa_spark_invoice_fields address) ++
  encode_some (bytes_encode 3) (psa_signature address).

(** *** The hash that is signed *)

(** The blocks whose hashes are hashed together, in order. *)
Definition payment_blocks (payment_type : option SparkAddressPaymentType)
    : result (list (list Z)) AddressError :=
  match payment_type with
  | Some (PayTokens payment) =>
      let* token_block :=
        match tp_token_identifier payment with
        | Some token_identifier =>
            map_err (λ e, AddrOther ("Invalid token identifier: " +:+ service_generic_fmt e))
              (bech32m_decode_token_id token_identifier None)
        | None => Ok (replicate 32 0)
        end in
      Ok [[1]; token_block; to_unpadded_be_bytes (default 0 (tp_amount payment))]
  | Some (PaySats payment) => Ok [[2]; to_be_bytes 8 (default 0 (sp_amount payment))]
  | None => Err (AddrOther "No payment type")
  end.

Definition invoice_blocks (a : SparkAddress) : result (list (list Z)) AddressError :=
  let* invoice_fields := ok_or (spark_invoice_fields a) (AddrOther "No invoice fields") in
  if negb (inv_version invoice_fields =? 1) then Err (AddrOther "Unsupported invoice version")
  else
    let* payment := payment_blocks (inv_payment_type invoice_fields) in
    Ok ([to_be_bytes 4 (inv_version invoice_fields);
         Uuid_as_bytes (inv_id invoice_fields);
         sha256 (get_magic_network_identifier (network a));
         Key_serialize (identity_public_key a)] ++ payment ++
        [from_option as_bytes [] (inv_memo invoice_fields);
         from_option Key_serialize (replicate 33 0) (inv_sender_public_key invoice_fields);
         to_be_bytes 8 (from_option (λ t, since_epoch t / nanos_per_sec) 0
                          (inv_expiry_time invoice_fields))]).

Definition compute_invoice_hash (a : SparkAddress) : result (list Z) AddressError :=
  let* blocks := invoice_blocks a in
  Ok (sha256 (mjoin (sha256 <$> blocks))).

(** *** Texts *)

Definition is_invoice (a : SparkAddress) : bool := bool_decide (is_Some (spark_invoice_fields a)).

(** [bech32::encode(..).unwrap()]. *)
Definition encode_text (hrp : Hrp) (payload_bytes : list Z) : result string (exn AddressError) :=
  map_err (λ _, Panic) (bech32_encode hrp payload_bytes).

Definition to_address_string (a : SparkAddress) : result string (exn AddressError) :=
  if is_invoice a
  then Err (Throw (AddrOther "Invoice addresses cannot be converted to address strings"))
  else
    let proto_address := {| psa_identity_public_key := Key_serialize (identity_public_key a);
                            psa_spark_invoice_fields := None;
                            psa_signature := None |} in
    let payload_bytes := encode_spark_address_canonical proto_address in
    encode_text (network_to_hrp (network a)) payload_bytes.

Definition to_invoice_string (a : SparkAddress) (signer : AddressSigner)
    : result string (exn AddressError) :=
  if negb (is_invoice a)
  then Err (Throw (AddrOther "Non-invoice addresses cannot be converted to invoice strings"))
  else
    let* identity := throws (map_err (λ e, AddrOther ("Failed to get identity public key: " +:+ e))
                               (get_identity_public_key signer)) in
    if negb (bool_decide (identity_public_key a = identity))
    then Err (Throw (AddrOther "Cannot sign invoice for a different identity"))
    else
      let* fields := throws (transpose invoice_fields_to_proto (spark_invoice_fields a)) in
      let* invoice_hash := throws (compute_invoice_hash a) in
      let* signature := throws (map_err (λ e, AddrOther ("Failed to sign invoice hash: " +:+ e))
                                  (sign_hash_schnorr_with_identity_key signer invoice_hash)) in
      let proto_address := {| psa_identity_public_key := Key_serialize (identity_public_key a);
                              psa_spark_invoice_fields := fields;
                              psa_signature := Some (Signature_serialize signature) |} in
      let payload_bytes := encode_spark_address_canonical proto_address in
      encode_text (network_to_hrp (network a)) payload_bytes.

(** [hash.try_into().unwrap_or_default()]. *)
Definition digest_of (hash : list Z) : list Z :=
  if (length hash =? 32)%nat then hash else replicate 32 0.

Definition SparkAddress_from_str (s : string) : result SparkAddress (exn AddressError) :=
  let* (hrp, payload_bytes) :=
    throws (map_err (λ _, InvalidBech32mAddress s) (bech32_decode s)) in
  let* proto_address :=
    throws (map_err ProtobufDecodeError (ProtoSparkAddress_decode payload_bytes)) in
  let* identity_public_key :=
    throws (map_err AddrInvalidPublicKey (Key_from_slice (psa_identity_public_key proto_address))) in
  let* network := throws (hrp_to_network hrp) in
  let* invoice_fields :=
    transpose (λ f, invoice_fields_from_proto f network) (psa_spark_invoice_fields proto_address) in
  let* signature :=
    throws (transpose (λ s, map_err InvalidSignature (Signature_from_slice s))
              (psa_signature proto_address)) in
  let address := {| identity_public_key := identity_public_key;
                    network := network;
                    spark_invoice_fields := invoice_fields |} in
  if is_invoice address then
    let* hash := throws (compute_invoice_hash address) in
    match signature with
    | None => Err (Throw (AddrOther "Invoice has no signature"))
    | Some sig =>
        if verify_schnorr sig (digest_of hash) (x_only_public_key identity_public_key)
        then Ok address
        else Err (Throw (AddrOther "Invalid invoice signature"))
    end
  else Ok address.
End address.
