(* ===== verification/AddressesProps.v ===== *)
(** What the texts of addresses and invoices promise ([Addresses]): the documented behaviour of
    the libraries, round trips of address and invoice texts, and what the signed hash of an
    invoice determines. *)
From Stdlib Require Import Ascii.
From stdpp Require Import base list strings sorting.
From S2P Require Import Prelude Timelocks TreeTypes Transactions Bytes Addresses.

(** ** Documented behaviour of the libraries

    Lists of [Z] given to the encoders are bytes and strings are UTF-8, as their Rust types
    demand. *)

(** Every encoder of human-readable parts writes lower case. *)
Definition lower_case (s : string) : bool :=
  forallb (λ c, negb ((65 <=? Ascii.N_of_ascii c) && (Ascii.N_of_ascii c <=? 90))%N)
    (String.list_ascii_of_string s).

Section wire.
Context {ao : AddressOps}.

(** The fields present, in the order of their tags; a field with its default value is absent
    unless it is [optional]. *)
Definition field_encodings (f : ProtoSparkInvoiceFields) : list (list Z) :=
  (if pif_version f =? 0 then [] else [uint32_encode 1 (pif_version f)]) ++
  (if bool_decide (pif_id f = []) then [] else [bytes_encode 2 (pif_id f)]) ++
  match pif_payment_type f with
  | Some (ProtoTokens t) => [tokens_encode 3 t]
  | Some (ProtoSats s) => [sats_encode 4 s]
  | None => []
  end ++
  option_list (string_encode 5 <$> pif_memo f) ++
  option_list (bytes_encode 6 <$> pif_sender_public_key f) ++
  option_list (timestamp_encode 7 <$> pif_expiry_time f).

(** The integers fit the types of their fields. *)
Definition wire_ok (f : ProtoSparkInvoiceFields) : Prop :=
  in_u 32 (pif_version f) ∧
  match pif_payment_type f with
  | Some (ProtoSats s) => from_option (in_u 64) True (psp_amount s)
  | _ => True
  end ∧
  match pif_expiry_time f with
  | Some t => - 2 ^ 63 ≤ ts_seconds t < 2 ^ 63 ∧ - 2 ^ 31 ≤ ts_nanos t < 2 ^ 31
  | None => True
  end.
End wire.

(** [bech32] reads what it writes and allows 1023 characters; a parser of protobuf messages
    takes the fields in any order, and a message as the bytes of a field; keys are 33 bytes
    with a first byte of 2 or 3. *)
Class AddressLaws {ao : AddressOps} : Prop := {
  Hrp_as_str_parsed s : Hrp_as_str (Hrp_parse_unchecked s) = s;
  Hrp_eqb_lower hrp g :
    lower_case (Hrp_as_str hrp) = true → lower_case g = true →
    Hrp_eqb hrp (Hrp_parse_unchecked g) = String.eqb (Hrp_as_str hrp) g;
  bech32_encode_fits h data :
    Z.of_nat (String.length h) + 1 + (8 * Z.of_nat (length data) + 4) / 5 + 6 ≤ 1023 →
    ∃ s, bech32_encode (Hrp_parse_unchecked h) data = Ok s;
  bech32_decode_encoded h data s :
    lower_case h = true → bech32_encode (Hrp_parse_unchecked h) data = Ok s →
    ∃ hrp, bech32_decode s = Ok (hrp, data) ∧ Hrp_as_str hrp = h;
  bytes_encode_length t b : (length (bytes_encode t b) ≤ length b + 15)%nat;
  address_decode_fields p inner :
    match psa_spark_invoice_fields p with
    | None => inner = []
    | Some f => wire_ok f ∧ ∃ l, l ≡ₚ field_encodings f ∧ inner = bytes_encode 2 (mjoin l)
    end →
    ProtoSparkAddress_decode (bytes_encode 1 (psa_identity_public_key p) ++ inner ++
                              encode_some (bytes_encode 3) (psa_signature p)) = Ok p;
  Key_serialize_length k : length (Key_serialize k) = 33%nat;
  Key_serialize_head k : head (Key_serialize k) ≠ Some 0;
  Key_from_serialized k : Key_from_slice (Key_serialize k) = Ok k;
  Signature_from_serialized s : Signature_from_slice (Signature_serialize s) = Ok s;
  sha256_32 m : length (sha256 m) = 32%nat;
  Uuid_bytes_length u : length (Uuid_as_bytes u) = 16%nat;
  Uuid_from_as_bytes u : Uuid_from_bytes (Uuid_as_bytes u) = u;
}.

Section laws.
Context {ao : AddressOps} {al : AddressLaws}.

Lemma Key_serialize_inj k1 k2 : Key_serialize k1 = Key_serialize k2 → k1 = k2.
Proof. intros H. apply (f_equal Key_from_slice) in H. rewrite !Key_from_serialized in H. by injection H. Qed.

Lemma Uuid_as_bytes_inj u1 u2 : Uuid_as_bytes u1 = Uuid_as_bytes u2 → u1 = u2.
Proof. intros H. apply (f_equal Uuid_from_bytes) in H. by rewrite !Uuid_from_as_bytes in H. Qed.

Lemma to_unpadded_inj x y :
  in_u 128 x → in_u 128 y → to_unpadded_be_bytes x = to_unpadded_be_bytes y → x = y.
Proof.
  intros [Hx _]%byte_padding_roundtrip [Hy _]%byte_padding_roundtrip H. rewrite H in Hx. congruence.
Qed.

Lemma to_be_bytes_inj n x y :
  0 ≤ x < 256 ^ Z.of_nat n → 0 ≤ y < 256 ^ Z.of_nat n → to_be_bytes n x = to_be_bytes n y → x = y.
Proof. intros Hx Hy H. by rewrite <- (from_to_be_bytes n x), <- (from_to_be_bytes n y), H. Qed.

(** ** Networks in the texts *)

Lemma network_of_hrp n hrp :
  Hrp_as_str hrp = match n with Mainnet => "spark" | Testnet => "sparkt"
                   | Regtest => "sparkrt" | Signet => "sparks" end →
  hrp_to_network hrp = Ok n.
Proof.
  intros H. unfold hrp_to_network, HRP_MAINNET, HRP_LEGACY_MAINNET, HRP_TESTNET, HRP_LEGACY_TESTNET,
    HRP_REGTEST, HRP_LEGACY_REGTEST, HRP_SIGNET, HRP_LEGACY_SIGNET.
  rewrite !Hrp_eqb_lower, H by (by rewrite ?H; destruct n). by destruct n.
Qed.

(** A payload is read back with the network it was written for. *)
Lemma encode_text_read n payload s :
  encode_text (network_to_hrp n) payload = Ok s →
  ∃ hrp, bech32_decode s = Ok (hrp, payload) ∧ hrp_to_network hrp = Ok n.
Proof.
  unfold encode_text. destruct (bech32_encode _ _) as [s'|] eqn:He; [|done]. intros [= ->].
  assert (∃ hrp, bech32_decode s = Ok (hrp, payload) ∧
    Hrp_as_str hrp = match n with Mainnet => "spark" | Testnet => "sparkt"
                     | Regtest => "sparkrt" | Signet => "sparks" end) as (hrp & Hd & Hs).
  { destruct n; apply bech32_decode_encoded in He as (hrp & ? & ?); [by eauto|done|by eauto|done|by eauto|done|by eauto|done]. }
  exists hrp. split; [done|]. by apply network_of_hrp.
Qed.

Lemma token_id_read raw n s :
  bech32m_encode_token_id raw n = Ok s →
  ∀ o, bech32m_decode_token_id s o =
    match o with Some n' => if bool_decide (n = n') then Ok raw
                            else Err ("Invalid network: " +:+ Network_fmt n)
    | None => Ok raw end.
Proof.
  unfold bech32m_encode_token_id. intros He o.
  assert (∃ hrp, bech32_decode s = Ok (hrp, raw) ∧ token_hrp_network (Hrp_as_str hrp) = Some n)
    as (hrp & Hd & Hn).
  { destruct (bech32_encode _ _) as [s'|] eqn:Hb; [|done]. injection He as ->.
    destruct n; (apply bech32_decode_encoded in Hb as (hrp & ? & Hs); [|done]); exists hrp;
      (split; [done|]); by rewrite Hs. }
  unfold bech32m_decode_token_id. rewrite Hd. simpl. rewrite Hn. simpl. by destruct o.
Qed.

(** ** Canonical encodings are read back *)

Lemma canonical_fields_perm f :
  ∃ l, l ≡ₚ field_encodings f ∧ encode_spark_invoice_fields_canonical f = mjoin l.
Proof.
  unfold field_encodings, encode_spark_invoice_fields_canonical.
  exists ((if pif_version f =? 0 then [] else [uint32_encode 1 (pif_version f)]) ++
    (if bool_decide (pif_id f = []) then [] else [bytes_encode 2 (pif_id f)]) ++
    option_list (string_encode 5 <$> pif_memo f) ++
    option_list (bytes_encode 6 <$> pif_sender_public_key f) ++
    option_list (timestamp_encode 7 <$> pif_expiry_time f) ++
    match pif_payment_type f with
    | Some (ProtoTokens t) => [tokens_encode 3 t]
    | Some (ProtoSats s) => [sats_encode 4 s]
    | None => []
    end). split; [solve_Permutation|].
  rewrite !join_app. f_equal; [by case_match; simpl; rewrite ?app_nil_r|].
  f_equal; [by destruct (pif_id f); simpl; rewrite ?app_nil_r|].
  f_equal; [by destruct (pif_memo f); simpl; rewrite ?app_nil_r|].
  f_equal; [by destruct (pif_sender_public_key f); simpl; rewrite ?app_nil_r|].
  f_equal; [by destruct (pif_expiry_time f); simpl; rewrite ?app_nil_r|].
  by destruct (pif_payment_type f) as [[]|]; simpl; rewrite ?app_nil_r.
Qed.

Lemma canonical_address_read p :
  from_option wire_ok True (psa_spark_invoice_fields p) →
  ProtoSparkAddress_decode (encode_spark_address_canonical p) = Ok p.
Proof.
  intros Hok. unfold encode_spark_address_canonical. apply address_decode_fields.
  destruct (psa_spark_invoice_fields p) as [f|]; [|done]. split; [done|].
  destruct (canonical_fields_perm f) as (l & Hl & He). exists l. simpl. by rewrite He.
Qed.
End laws.

(** ** Round trips *)

Section roundtrip.
Context {ao : AddressOps} {al : AddressLaws}.

(** The text of the same token on network [n]. *)
Definition token_id_reads (n : Network) (id id' : string) : Prop :=
  ∃ raw, bech32m_decode_token_id id None = Ok raw ∧ bech32m_encode_token_id raw n = Ok id'.

Definition payment_reads (n : Network) (p p' : SparkAddressPaymentType) : Prop :=
  match p, p' with
  | PayTokens t, PayTokens t' =>
      option_Forall2 (token_id_reads n) (tp_token_identifier t) (tp_token_identifier t') ∧
      tp_amount t' = tp_amount t
  | PaySats s, PaySats s' => s' = s
  | _, _ => False
  end.

Record fields_read (n : Network) (f f' : SparkInvoiceFields) : Prop := {
  fr_id : inv_id f' = inv_id f;
  fr_version : inv_version f' = inv_version f;
  fr_memo : inv_memo f' = inv_memo f;
  fr_sender : inv_sender_public_key f' = inv_sender_public_key f;
  fr_expiry : inv_expiry_time f' = since_epoch <$> inv_expiry_time f;
  fr_payment : option_Forall2 (payment_reads n) (inv_payment_type f) (inv_payment_type f')
}.

(** What an invoice is read as: token identifiers are written for the network of the
    invoice, a time before the epoch is the epoch. *)
Definition reads_as (a a' : SparkAddress) : Prop :=
  identity_public_key a' = identity_public_key a ∧ network a' = network a ∧
  option_Forall2 (fields_read (network a)) (spark_invoice_fields a) (spark_invoice_fields a').

(** Integers and times within their types. *)
Definition payment_ok (p : SparkAddressPaymentType) : Prop :=
  match p with
  | PayTokens t => from_option (in_u 128) True (tp_amount t)
  | PaySats s => from_option (in_u 64) True (sp_amount s)
  end.

Definition fields_ok (f : SparkInvoiceFields) : Prop :=
  from_option payment_ok True (inv_payment_type f) ∧
  from_option (λ t, t / nanos_per_sec < 2 ^ 63) True (inv_expiry_time f).

Lemma time_read t :
  t / nanos_per_sec < 2 ^ 63 → timestamp_to_time (time_to_timestamp t) = Some (since_epoch t).
Proof.
  intros Ht. unfold timestamp_to_time, time_to_timestamp, as_u64, as_i64, system_time_add. simpl.
  assert (0 ≤ since_epoch t) as H0 by (unfold since_epoch; lia).
  assert (0 ≤ since_epoch t / nanos_per_sec < 2 ^ 63) as Hs.
  { split; [by apply Z.div_pos|]. unfold since_epoch. destruct (Z.max_spec 0 t) as [[_ ->]|[_ ->]]; [done|].
    by vm_compute. }
  pose proof (Z.mod_pos_bound (since_epoch t) nanos_per_sec eq_refl) as Hm.
  pose proof (Z.div_mod (since_epoch t) nanos_per_sec ltac:(done)) as Hd.
  set (q := since_epoch t / nanos_per_sec) in *. set (r := since_epoch t mod nanos_per_sec) in *.
  rewrite (Z.mod_small (q + 2 ^ 63)) by lia. replace (q + 2 ^ 63 - 2 ^ 63) with q by lia.
  rewrite (Z.mod_small q) by lia. rewrite Z.add_0_l, Z.div_mul by done.
  rewrite (proj2 (Z.ltb_lt q _)) by lia. simpl.
  rewrite Z.mod_small by (unfold nanos_per_sec in Hm; lia).
  rewrite Z.mul_comm, <- Hd. unfold q in Hs. by rewrite (proj2 (Z.ltb_lt _ _)) by lia.
Qed.

(** A negative count of seconds, read as [u64], is a time that does not exist: adding it
    panics, for any text that carries one. *)
Lemma negative_seconds_panic s ns : - 2 ^ 63 ≤ s < 0 →
  timestamp_to_time {| ts_seconds := s; ts_nanos := ns |} = None.
Proof.
  intros Hs. unfold timestamp_to_time, system_time_add, as_u64. simpl.
  rewrite <- (Z.mod_add s 1 (2 ^ 64)), (Z.mod_small (s + 1 * 2 ^ 64)) by lia.
  rewrite Z.add_0_l, Z.div_mul by done. destruct (Z.ltb_spec (s + 1 * 2 ^ 64) (2 ^ 63)); [lia|done].
Qed.

Lemma negative_expiry_panics f n pt k :
  length (pif_id f) = 16%nat →
  transpose Key_from_slice (pif_sender_public_key f) = Ok k →
  transpose (λ p, payment_type_from_proto p n) (pif_payment_type f) = Ok pt →
  (∃ t, pif_expiry_time f = Some t ∧ - 2 ^ 63 ≤ ts_seconds t < 0) →
  invoice_fields_from_proto f n = Err Panic.
Proof.
  intros Hid Hk Hp (t & Ht & Hs). unfold invoice_fields_from_proto. rewrite Hid, Ht.
  destruct (pif_sender_public_key f) as [b|]; simpl in *;
    [destruct (Key_from_slice b); simpl in *; [|done]|];
    (destruct (pif_payment_type f) as [p|]; simpl in *;
      [destruct (payment_type_from_proto p n); simpl in *; [|done]|]);
    destruct t; by rewrite negative_seconds_panic.
Qed.

Lemma time_wire t :
  - 2 ^ 63 ≤ ts_seconds (time_to_timestamp t) < 2 ^ 63 ∧
  - 2 ^ 31 ≤ ts_nanos (time_to_timestamp t) < 2 ^ 31.
Proof.
  unfold time_to_timestamp, as_i64. simpl.
  pose proof (Z.mod_pos_bound (since_epoch t) nanos_per_sec eq_refl) as Hm.
  pose proof (Z.mod_pos_bound (since_epoch t / nanos_per_sec + 2 ^ 63) (2 ^ 64) eq_refl).
  unfold nanos_per_sec in *. lia.
Qed.

Lemma since_epoch_idem t : since_epoch (since_epoch t) = since_epoch t.
Proof. unfold since_epoch. lia. Qed.

Lemma payment_read n p p' pp :
  payment_ok p → payment_reads n p p' → payment_type_to_proto p = Ok pp →
  payment_type_from_proto pp n = Ok p'.
Proof.
  destruct p as [[id am]|[am]], p' as [[id' am']|[am']]; simpl; intros Hok; try done.
  - intros [Hid ->] Hto. apply rbind_ok in Hto as (raw & Hraw & [= <-]). simpl.
    assert (map_err (λ e, InvalidPaymentIntent ("Invalid amount: " +:+ e))
      (transpose from_unpadded_be_bytes (to_unpadded_be_bytes <$> am)) = Ok am) as ->.
    { destruct am as [am|]; [|done]. simpl in Hok |- *.
      apply byte_padding_roundtrip in Hok as [-> _]. done. }
    simpl. destruct Hid as [id id' (r & Hd & He)|]; simpl in *.
    + rewrite Hd in Hraw. injection Hraw as <-. simpl. by rewrite He.
    + by injection Hraw as <-.
  - intros [= ->] [= <-]. done.
Qed.

Lemma payment_wire p pp :
  payment_ok p → payment_type_to_proto p = Ok pp →
  match pp with ProtoSats s => from_option (in_u 64) True (psp_amount s) | _ => True end.
Proof.
  destruct p as [[id am]|[am]]; simpl; intros Hok.
  - by intros (? & _ & [= <-])%rbind_ok.
  - by intros [= <-].
Qed.

Lemma fields_to_proto_wire f pf :
  inv_version f = 1 → fields_ok f → invoice_fields_to_proto f = Ok pf → wire_ok pf.
Proof.
  intros Hv [Hp Ht] Hto. apply rbind_ok in Hto as (pp & Hpp & [= <-]).
  unfold wire_ok. simpl. rewrite Hv. split_and!; [by vm_compute| |].
  - destruct (inv_payment_type f) as [p|]; simpl in Hpp; [|by injection Hpp as <-].
    apply rbind_ok in Hpp as (q & Hq & [= <-]). by apply payment_wire in Hq.
  - destruct (inv_expiry_time f); [apply time_wire|done].
Qed.

Lemma fields_from_to_proto n f f' pf :
  fields_ok f → fields_read n f f' → invoice_fields_to_proto f = Ok pf →
  invoice_fields_from_proto pf n = Ok f'.
Proof using al.
  intros [Hp Ht] [Hid Hve Hme Hse Hex Hpay] Hto.
  apply rbind_ok in Hto as (pp & Hpp & [= <-]). unfold invoice_fields_from_proto. simpl.
  assert (throws (transpose (λ pk, map_err AddrInvalidPublicKey (Key_from_slice pk))
    (Key_serialize <$> inv_sender_public_key f)) = Ok (inv_sender_public_key f)) as ->.
  { destruct (inv_sender_public_key f); simpl; [by rewrite Key_from_serialized|done]. }
  simpl. assert (transpose (λ pt, map_err (λ e, InvalidPaymentIntent ("Invalid payment type: " +:+
      AddressError_fmt e)) (payment_type_from_proto pt n)) pp = Ok (inv_payment_type f')) as ->.
  { destruct Hpay as [p p' Hpay|]; simpl in *; [|by injection Hpp as <-].
    apply rbind_ok in Hpp as (q & Hq & [= <-]). simpl. by rewrite (payment_read n p p' q). }
  simpl. rewrite Uuid_bytes_length, Uuid_from_as_bytes. simpl.
  assert (transpose (λ t, or_panic (timestamp_to_time t)) (time_to_timestamp <$> inv_expiry_time f)
    = Ok (A := option Z) (E := exn AddressError) (since_epoch <$> inv_expiry_time f)) as ->.
  { destruct (inv_expiry_time f); simpl; [by rewrite time_read|done]. }
  simpl. rewrite <- Hid, <- Hve, <- Hme, <- Hse, <- Hex. by destruct f'.
Qed.

Lemma reads_as_blocks a a' : reads_as a a' → invoice_blocks a' = invoice_blocks a.
Proof using al.
  destruct a as [k n o], a' as [k' n' o']. intros (Hk & Hn & Hf). simpl in Hk, Hn, Hf. subst k' n'.
  destruct Hf as [f f' [Hid Hve Hme Hse Hex Hpay]|]; [|done].
  unfold invoice_blocks. simpl. rewrite Hid, Hve, Hme, Hse, Hex.
  assert (payment_blocks (inv_payment_type f') = payment_blocks (inv_payment_type f)) as ->.
  { destruct Hpay as [p p' Hp|]; [|done].
    destruct p as [[id am]|[am]], p' as [[id' am']|[am']]; simpl in Hp; [|done..|by injection Hp as ->].
    destruct Hp as [Hpay ->]. simpl.
    destruct Hpay as [id id' (raw & Hd & He)|]; simpl; [|done].
    by rewrite (token_id_read _ _ _ He), Hd. }
  destruct (inv_expiry_time f); simpl; [|done]. by rewrite since_epoch_idem.
Qed.

Lemma compute_invoice_hash_length a h : compute_invoice_hash a = Ok h → length h = 32%nat.
Proof using al. intros (bs & _ & [= <-])%rbind_ok. apply sha256_32. Qed.

Lemma compute_invoice_hash_version a h f :
  compute_invoice_hash a = Ok h → spark_invoice_fields a = Some f → inv_version f = 1.
Proof.
  intros (bs & Hb & _)%rbind_ok Hf. unfold invoice_blocks in Hb. rewrite Hf in Hb. simpl in Hb.
  destruct (Z.eqb_spec (inv_version f) 1); [done|]. done.
Qed.

(** The keys of the wallet sign what their public keys verify. *)
Definition signer_signs (signer : AddressSigner) : Prop :=
  ∀ k hash sig, get_identity_public_key signer = Ok k → length hash = 32%nat →
    sign_hash_schnorr_with_identity_key signer hash = Ok sig →
    verify_schnorr sig hash (x_only_public_key k) = true.

(** every address has a text, which is read back as that address: its encoding never
    panics. *)
Theorem address_text_roundtrip a :
  spark_invoice_fields a = None →
  ∃ s, to_address_string a = Ok s ∧ SparkAddress_from_str s = Ok a.
Proof using al.
  destruct a as [k n o]. simpl. intros ->.
  set (p := {| psa_identity_public_key := Key_serialize k; psa_spark_invoice_fields := None;
               psa_signature := None |}).
  assert (∃ s, encode_text (network_to_hrp n) (encode_spark_address_canonical p) = Ok s) as (s & Hs).
  { assert (Z.of_nat (length (encode_spark_address_canonical p)) ≤ 48) as Hl.
    { unfold encode_spark_address_canonical, p. simpl. rewrite !app_nil_r.
      pose proof (bytes_encode_length 1 (Key_serialize k)) as H. rewrite Key_serialize_length in H. lia. }
    unfold encode_text. destruct (bech32_encode_fits
      match n with Mainnet => "spark" | Testnet => "sparkt" | Regtest => "sparkrt" | Signet => "sparks" end
      (encode_spark_address_canonical p)) as [s Hs].
    - assert ((8 * Z.of_nat (length (encode_spark_address_canonical p)) + 4) / 5 ≤ 100).
      { apply Z.div_le_upper_bound; lia. } destruct n; simpl; lia.
    - exists s. destruct n; unfold network_to_hrp, HRP_MAINNET, HRP_TESTNET, HRP_REGTEST, HRP_SIGNET;
        by rewrite Hs. }
  exists s. split; [exact Hs|]. apply encode_text_read in Hs as (hrp & Hd & Hn).
  unfold SparkAddress_from_str. rewrite Hd. simpl. rewrite canonical_address_read by done. simpl.
  rewrite Key_from_serialized. simpl. by rewrite Hn.
Qed.

(** C37: an invoice that could be written is read back, with the signature accepted, as what it
    stands for on its network: the same terms, its token on the network of the invoice. *)
Theorem invoice_text_roundtrip a a' signer s :
  signer_signs signer →
  from_option fields_ok True (spark_invoice_fields a) →
  reads_as a a' →
  to_invoice_string a signer = Ok s →
  SparkAddress_from_str s = Ok a'.
Proof using al.
  intros Hsign Hok Hreads. unfold to_invoice_string, is_invoice.
  destruct (spark_invoice_fields a) as [f|] eqn:Hf; simpl; [|done]. intros Hto.
  apply rbind_ok in Hto as (k & Hk & Hto). case_bool_decide as Hid; [|done]. simpl in Hto.
  apply rbind_ok in Hto as (ofs & Hpf & Hto). apply throws_ok, rbind_ok in Hpf as (pf & Hpf & [= <-]).
  apply rbind_ok in Hto as (h & Hh & Hto). apply throws_ok in Hh.
  apply rbind_ok in Hto as (sig & Hsig & Hto). apply encode_text_read in Hto as (hrp & Hd & Hn).
  unfold SparkAddress_from_str. rewrite Hd. simpl.
  assert (wire_ok pf) as Hw.
  { eapply fields_to_proto_wire; [by eapply compute_invoice_hash_version|exact Hok|exact Hpf]. }
  rewrite canonical_address_read by exact Hw. simpl. rewrite Key_from_serialized. simpl.
  rewrite Hn. simpl. destruct Hreads as (Hk' & Hn' & Hfs) eqn:E. clear E.
  pose proof (reads_as_blocks a a' Hreads) as Hblocks. rewrite Hf in Hfs.
  inversion Hfs as [f1 f' Hfr Hf1 Hf'|]; subst f1. rewrite (fields_from_to_proto _ f f') by done. simpl.
  rewrite Signature_from_serialized. simpl.
  assert ({| identity_public_key := identity_public_key a; network := network a;
             spark_invoice_fields := Some f' |} = a') as ->.
  { destruct a' as [k' n' o']. simpl in *. by subst. }
  assert (compute_invoice_hash a' = Ok h) as ->.
  { unfold compute_invoice_hash in Hh |- *. by rewrite Hblocks. }
  rewrite ?bool_decide_eq_true_2 by done. simpl. unfold digest_of.
  rewrite (compute_invoice_hash_length a h Hh). simpl. rewrite Hid.
  rewrite (Hsign k h sig); [done| |by apply compute_invoice_hash_length in Hh|].
  - by destruct (get_identity_public_key signer); simpl in Hk; [injection Hk as ->|].
  - by destruct (sign_hash_schnorr_with_identity_key signer h); simpl in Hsig; [injection Hsig as ->|].
Qed.
End roundtrip.

(** ** What the signature covers *)

Section commitment.
Context {ao : AddressOps} {al : AddressLaws}.

(** The terms that the hash of an invoice determines: an absent amount is zero, an absent
    token is 32 zero bytes, an absent memo is empty, a time counts in seconds. *)
Record SignedTerms : Type := {
  st_id : Uuid;
  st_network : Network;
  st_key : AddrKey;
  st_payment : (list Z * Z) + Z;
  st_memo : string;
  st_sender : option AddrKey;
  st_expiry : Z
}.

Definition payment_terms (o : option SparkAddressPaymentType) : option ((list Z * Z) + Z) :=
  match o with
  | Some (PayTokens p) =>
      raw ← match tp_token_identifier p with
            | Some id => match bech32m_decode_token_id id None with Ok raw => Some raw | Err _ => None end
            | None => Some (replicate 32 0)
            end;
      Some (inl (raw, default 0 (tp_amount p)))
  | Some (PaySats p) => Some (inr (default 0 (sp_amount p)))
  | None => None
  end.

Definition signed_terms (a : SparkAddress) : option SignedTerms :=
  f ← spark_invoice_fields a;
  payment ← payment_terms (inv_payment_type f);
  Some {| st_id := inv_id f; st_network := network a; st_key := identity_public_key a;
          st_payment := payment; st_memo := default EmptyString (inv_memo f);
          st_sender := inv_sender_public_key f;
          st_expiry := from_option (λ t, since_epoch t / nanos_per_sec) 0 (inv_expiry_time f) |}.

(** Every message hashed on the way to the hash of the invoice. *)
Definition invoice_messages (a : SparkAddress) : list (list Z) :=
  get_magic_network_identifier (network a) ::
  match invoice_blocks a with Ok bs => hashed_messages sha256 bs | Err _ => [] end.

Lemma magic_inj n1 n2 : get_magic_network_identifier n1 = get_magic_network_identifier n2 → n1 = n2.
Proof. destruct n1, n2; vm_compute; done. Qed.

(** [injection] on lists whose items must not be evaluated. *)
Lemma items2_inj {A} (x1 x2 y1 y2 : A) : [x1; x2] = [y1; y2] → x1 = y1 ∧ x2 = y2.
Proof. by intros [= -> ->]. Qed.

Lemma items3_inj {A} (x1 x2 x3 y1 y2 y3 : A) :
  [x1; x2; x3] = [y1; y2; y3] → x1 = y1 ∧ x2 = y2 ∧ x3 = y3.
Proof. by intros [= -> -> ->]. Qed.

Lemma items4_inj {A} (x1 x2 x3 x4 y1 y2 y3 y4 : A) l l' :
  [x1; x2; x3; x4] ++ l = [y1; y2; y3; y4] ++ l' →
  x1 = y1 ∧ x2 = y2 ∧ x3 = y3 ∧ x4 = y4 ∧ l = l'.
Proof. by intros [= -> -> -> -> ->]. Qed.

Lemma Ok_inj {A E} (x y : A) : Ok (E := E) x = Ok y → x = y.
Proof. by intros [= ->]. Qed.

Lemma sender_block_inj (o1 o2 : option AddrKey) :
  from_option Key_serialize (replicate 33 0) o1 = from_option Key_serialize (replicate 33 0) o2 → o1 = o2.
Proof using al.
  assert (∀ k, Key_serialize k ≠ replicate 33 0) as Hz.
  { intros k H. apply (Key_serialize_head k). by rewrite H. }
  destruct o1 as [k1|], o2 as [k2|]; simpl; intros H; [|by apply Hz in H|by symmetry in H; apply Hz in H|done].
  by apply Key_serialize_inj in H as ->.
Qed.

Lemma payment_terms_inj o1 o2 bs p1 :
  from_option payment_ok True o1 → from_option payment_ok True o2 →
  payment_blocks o1 = Ok bs → payment_blocks o2 = Ok bs → payment_terms o1 = Some p1 →
  payment_terms o2 = Some p1.
Proof.
  assert (∀ n o, from_option (in_u n) True o → 0 ≤ n → in_u n (default 0 o)) as Hin.
  { intros n [x|] Hx Hn; simpl in *; [done|]. unfold in_u. pose proof (Z.pow_pos_nonneg 2 n). lia. }
  destruct o1 as [[[id1 a1]|[a1]]|], o2 as [[[id2 a2]|[a2]]|]; simpl; intros H1 H2; try done.
  - intros (r1 & Hr1 & [= <-])%rbind_ok (r2 & Hr2 & [= Hr Ha])%rbind_ok. subst r2.
    apply to_unpadded_inj in Ha as ->; [|by apply Hin..].
    destruct id1 as [i1|], id2 as [i2|]; simpl in *;
      repeat match goal with
        | H : map_err _ (bech32m_decode_token_id ?i None) = _ |- _ =>
            destruct (bech32m_decode_token_id i None); simpl in H; [injection H as ->|done]
        | H : Ok _ = Ok ?r |- _ => injection H as <-
        end; done.
  - intros (r1 & Hr1 & [= <-])%rbind_ok. done.
  - intros [= <-] (r1 & Hr1 & Heq)%rbind_ok. done.
  - intros <-%Ok_inj [_ Ha]%Ok_inj%items2_inj. apply to_be_bytes_inj in Ha as ->; [done| |];
      by apply (Hin 64).
Qed.

Lemma blocks_terms a bs : invoice_blocks a = Ok bs → is_Some (signed_terms a).
Proof.
  unfold invoice_blocks, signed_terms. destruct (spark_invoice_fields a) as [f|]; simpl; [|done].
  destruct (inv_version f =? 1); simpl; [|done]. intros (pb & Hp & _)%rbind_ok.
  destruct (inv_payment_type f) as [[[[i|] am]|am]|]; simpl in *; [|by eauto..|done].
  apply rbind_ok in Hp as (r & Hr & _). destruct (bech32m_decode_token_id i None); simpl in *; [by eauto|done].
Qed.

Lemma expiry_secs_range o :
  from_option (λ t, t / nanos_per_sec < 2 ^ 63) True o →
  0 ≤ from_option (λ t, since_epoch t / nanos_per_sec) 0 o < 256 ^ Z.of_nat 8.
Proof.
  change (256 ^ Z.of_nat 8) with (2 ^ 64). destruct o as [t|]; simpl; [|lia]. intros Ht. split.
  - apply Z.div_pos; [unfold since_epoch; lia|done].
  - unfold since_epoch. destruct (Z.max_spec 0 t) as [[_ ->]|[_ ->]]; [lia|by vm_compute].
Qed.

(** two invoices with one hash have the same identifier, network, receiver, token, amount,
    memo, sender and expiry in seconds, or the messages hashed for them contain two that
    collide: a signature for one invoice is worth nothing for another. *)
Theorem invoice_hash_commits a1 a2 h :
  from_option fields_ok True (spark_invoice_fields a1) →
  from_option fields_ok True (spark_invoice_fields a2) →
  compute_invoice_hash a1 = Ok h → compute_invoice_hash a2 = Ok h →
  (is_Some (signed_terms a1) ∧ signed_terms a1 = signed_terms a2) ∨
  collides sha256 (invoice_messages a1) (invoice_messages a2).
Proof using al.
  intros Hok1 Hok2 (bs1 & Hb1 & [= H1])%rbind_ok (bs2 & Hb2 & [= H2])%rbind_ok.
  pose proof (blocks_terms a1 bs1 Hb1) as [t1 Ht1]. unfold invoice_messages. rewrite Hb1, Hb2.
  rewrite <- H2 in H1. apply (hash_of_hashes_inj sha256 sha256_32) in H1 as [->|Hc];
    [|right; eapply collides_mono; [..|exact Hc]; set_solver].
  unfold invoice_blocks in Hb1, Hb2. unfold signed_terms in Ht1 |- *.
  destruct (spark_invoice_fields a1) as [f1|]; simpl in *; [|done].
  destruct (spark_invoice_fields a2) as [f2|]; simpl in *; [|done].
  destruct (inv_version f1 =? 1), (inv_version f2 =? 1); simpl in *; [|done..].
  apply rbind_ok in Hb1 as (p1 & Hp1 & Hb1%Ok_inj). apply rbind_ok in Hb2 as (p2 & Hp2 & Hb2%Ok_inj).
  rewrite <- Hb1 in Hb2. apply items4_inj in Hb2 as (_ & Hid & Hnet & Hkey & Hrest).
  apply app_inj_2 in Hrest as [-> (Hmemo & Hsender & Hexp)%items3_inj]; [|done].
  edestruct (collides_here sha256 (get_magic_network_identifier (network a1))
    (get_magic_network_identifier (network a2))) as [Hm|Hc]; [by left|by left|by symmetry|..];
    [left|right; eapply collides_mono; [..|exact Hc]; set_solver].
  destruct (payment_terms (inv_payment_type f1)) as [pt|] eqn:Hpt; simpl in *; [|done].
  destruct Hok1 as [Hpo1 Hex1], Hok2 as [Hpo2 Hex2].
  rewrite (payment_terms_inj (inv_payment_type f1) (inv_payment_type f2) p1 pt) by done. simpl.
  split; [done|]. apply magic_inj in Hm. apply Uuid_as_bytes_inj in Hid.
  apply Key_serialize_inj in Hkey. apply sender_block_inj in Hsender.
  apply to_be_bytes_inj in Hexp; [|by apply expiry_secs_range..].
  assert (default EmptyString (inv_memo f1) = default EmptyString (inv_memo f2)) as Hme.
  { destruct (inv_memo f1), (inv_memo f2); simpl in *; [by apply as_bytes_inj in Hmemo as ->| | |done].
    - by apply (as_bytes_inj _ EmptyString).
    - by apply (as_bytes_inj EmptyString). }
  by rewrite Hid, Hm, Hkey, Hsender, Hexp, Hme.
Qed.
End commitment.

(** ** An instance, and the theorems at concrete inputs *)

Module Example.

(** Fields are a tag and a number that codes the value; texts code their contents in binary. *)
Definition field {A} `{Countable A} (t : Z) (a : A) : list Z := [t; Z.pos (encode a)].

Fixpoint fields_of (l : list Z) : list (Z * Z) :=
  match l with
  | t :: v :: l => (t, v) :: fields_of l
  | _ => []
  end.

Definition get {A} `{Countable A} (m : gmap Z Z) (t : Z) : option A :=
  v ← m !! t; decode (Z.to_pos v).

Definition inner_decode (l : list Z) : ProtoSparkInvoiceFields :=
  let m := list_to_map (fields_of l) in
  {| pif_version := default 0 (get m 1);
     pif_id := default [] (get m 2);
     pif_payment_type :=
       match (get m 3 : option (option (list Z) * option (list Z))), (get m 4 : option (option Z)) with
       | Some (t, a), _ => Some (ProtoTokens {| ptp_token_identifier := t; ptp_amount := a |})
       | None, Some s => Some (ProtoSats {| psp_amount := s |})
       | None, None => None
       end;
     pif_memo := get m 5;
     pif_sender_public_key := get m 6;
     pif_expiry_time := (λ p : Z * Z, {| ts_seconds := p.1; ts_nanos := p.2 |}) <$> get m 7 |}.

Definition address_decode (l : list Z) : ProtoSparkAddress :=
  let m := list_to_map (fields_of l) in
  {| psa_identity_public_key := default [] (get m 1);
     psa_spark_invoice_fields := inner_decode <$> get m 2;
     psa_signature := get m 3 |}.

Fixpoint pos_text (p : positive) : string :=
  match p with
  | xH => EmptyString
  | xO p => String "0" (pos_text p)
  | xI p => String "1" (pos_text p)
  end.

Fixpoint text_pos (s : string) : positive :=
  match s with
  | EmptyString => xH
  | String c s => if Ascii.eqb c "0" then xO (text_pos s) else xI (text_pos s)
  end.

Lemma text_pos_text p : text_pos (pos_text p) = p.
Proof. induction p as [p IH|p IH|]; simpl; by rewrite ?IH. Qed.

#[export] Instance example_ops : AddressOps := {|
  Hrp := string;
  Hrp_parse_unchecked s := s;
  Hrp_as_str s := s;
  Hrp_eqb := String.eqb;
  Hrp_fmt s := s;
  bech32_encode h data :=
    if Z.of_nat (String.length h) + 1 + (8 * Z.of_nat (length data) + 4) / 5 + 6 <=? 1023
    then Ok (pos_text (encode (h, data))) else Err "too long";
  bech32_decode s := match decode (text_pos s) with Some p => Ok p | None => Err "invalid" end;
  uint32_encode := field;
  bytes_encode := field;
  string_encode := field;
  timestamp_encode t ts := field t (ts_seconds ts, ts_nanos ts);
  tokens_encode t tp := field t (ptp_token_identifier tp, ptp_amount tp);
  sats_encode t sp := field t (psp_amount sp);
  ProtoSparkAddress_decode l := Ok (address_decode l);
  AddrKey := bool;
  Key_serialize k := (if k then 2 else 3) :: replicate 32 7;
  Key_from_slice l := Ok (bool_decide (head l = Some 2));
  XOnly := bool;
  x_only_public_key k := k;
  SchnorrSignature := list Z;
  Signature_serialize s := s;
  Signature_from_slice := Ok;
  verify_schnorr s hash _ := bool_decide (s = hash);
  sha256 := ex_sha256;
  Uuid := bool;
  Uuid_as_bytes u := replicate 16 (if u then 1 else 0);
  Uuid_from_bytes l := bool_decide (head l = Some 1)
|}.

(** A field as the pair of its tag and its number. *)
Lemma fields_of_join (ps : list (Z * Z)) :
  fields_of (mjoin ((λ p, [p.1; p.2]) <$> ps)) = ps.
Proof. induction ps as [|[t v] ps IH]; [done|].
  rewrite fmap_cons. cbn [mjoin list_join app fields_of fst snd]. by f_equal.
Qed.

Lemma get_here {A} `{Countable A} (ps : list (Z * Z)) t (a : A) :
  get (list_to_map ((t, Z.pos (encode a)) :: ps)) t = Some a.
Proof.
  unfold get. rewrite list_to_map_cons, lookup_insert_eq. cbn [mbind option_bind Z.to_pos]. apply decode_encode.
Qed.

Lemma get_there {A} `{Countable A} (ps : list (Z * Z)) t t' v :
  t' ≠ t → get (A := A) (list_to_map ((t', v) :: ps)) t = get (list_to_map ps) t.
Proof. intros Ht. unfold get. by rewrite list_to_map_cons, lookup_insert_ne. Qed.

Lemma get_none {A} `{Countable A} t : get (A := A) (list_to_map []) t = None.
Proof. done. Qed.

Ltac solve_get := repeat first [rewrite get_here | rewrite get_there by done | rewrite get_none].

Lemma inner_decode_fields f l : l ≡ₚ field_encodings f → inner_decode (mjoin l) = f.
Proof.
  set (pair A (e : EqDecision A) (c : Countable A) (t : Z) (a : A) := (t, Z.pos (encode a))).
  set (ps := (if pif_version f =? 0 then [] else [pair _ _ _ 1 (pif_version f)]) ++
    (if bool_decide (pif_id f = []) then [] else [pair _ _ _ 2 (pif_id f)]) ++
    match pif_payment_type f with
    | Some (ProtoTokens t) => [pair _ _ _ 3 (ptp_token_identifier t, ptp_amount t)]
    | Some (ProtoSats s) => [pair _ _ _ 4 (psp_amount s)]
    | None => []
    end ++
    option_list (pair _ _ _ 5 <$> pif_memo f) ++
    option_list (pair _ _ _ 6 <$> pif_sender_public_key f) ++
    option_list ((λ t, pair _ _ _ 7 (ts_seconds t, ts_nanos t)) <$> pif_expiry_time f)).
  assert (field_encodings f = (λ p, [p.1; p.2]) <$> ps) as ->.
  { unfold field_encodings, ps. destruct f as [v i pt m s x]. simpl.
    destruct (v =? 0), (bool_decide (i = [])), pt as [[]|], m, s, x; reflexivity. }
  intros (qs & -> & Hq)%Permutation_map_inv. unfold inner_decode.
  change (List.map ?g qs) with (g <$> qs). rewrite fields_of_join.
  assert (NoDup ps.*1) as Hnd.
  { unfold ps. destruct f as [v i pt m s x]. simpl.
    destruct (v =? 0), (bool_decide (i = [])), pt as [[]|], m, s, x; simpl; by apply (bool_decide_unpack _). }
  rewrite <- (list_to_map_proper ps qs) by done. unfold ps, pair. clear.
  destruct f as [v i pt m s x]. simpl.
  destruct (Z.eqb_spec v 0) as [->|], (bool_decide_reflect (i = [])) as [->|], pt as [[[]|[]]|], m, s, x as [[]|];
    cbn -[get list_to_map encode]; solve_get; reflexivity.
Qed.
Lemma address_decode_example p inner :
  match psa_spark_invoice_fields p with
  | None => inner = []
  | Some f => ∃ l, l ≡ₚ field_encodings f ∧ inner = field 2 (mjoin l)
  end →
  address_decode (field 1 (psa_identity_public_key p) ++ inner ++
                  encode_some (field 3) (psa_signature p)) = p.
Proof.
  intros H. unfold address_decode, field. destruct p as [k [f|] s]; simpl in H.
  - destruct H as (l & Hl & ->). apply inner_decode_fields in Hl.
    destruct s; cbn -[get list_to_map encode inner_decode mjoin]; solve_get; simpl; by rewrite Hl.
  - subst inner. destruct s; cbn -[get list_to_map encode inner_decode]; solve_get; reflexivity.
Qed.

#[export] Instance example_laws : AddressLaws.
Proof.
  split; simpl; try done; try (by intros []).
  - intros h data H. destruct (Z.leb_spec (Z.of_nat (String.length h) + 1 +
      (8 * Z.of_nat (length data) + 4) / 5 + 6) 1023); [by eauto|lia].
  - intros h data s _. case_match; [|done]. intros [= <-].
    exists h. by rewrite text_pos_text, decode_encode.
  - intros t b. lia.
  - intros p inner H. f_equal. apply address_decode_example.
    destruct (psa_spark_invoice_fields p); [by destruct H|done].
Qed.

Definition example_signer : AddressSigner :=
  {| get_identity_public_key := Ok (true : AddrKey);
     sign_hash_schnorr_with_identity_key := λ h, Ok (h : SchnorrSignature) |}.

Definition example_token (n : Network) : string :=
  match bech32m_encode_token_id (replicate 32 5) n with Ok s => s | Err _ => EmptyString end.

(** An invoice of an address on [Regtest] for a token. *)
Definition example_invoice (token : string) (expiry amount : Z) : SparkAddress :=
  {| identity_public_key := true : AddrKey;
     network := Regtest;
     spark_invoice_fields := Some
       {| inv_id := true : Uuid; inv_version := 1; inv_memo := Some "coffee"%string;
          inv_sender_public_key := Some (false : AddrKey); inv_expiry_time := Some expiry;
          inv_payment_type := Some (PayTokens {| tp_token_identifier := Some token;
                                                 tp_amount := Some amount |}) |} |}.
End Example.
Import Example.

Lemma address_text_roundtrip_witness :
  let a := {| identity_public_key := false : @AddrKey example_ops; network := Signet;
              spark_invoice_fields := None |} in
  ∃ s, to_address_string a = Ok s ∧ SparkAddress_from_str s = Ok a.
Proof. intros a. apply (address_text_roundtrip a). done. Defined.

(** The invoice names the token of the main network and is read back with that of its own. *)
Lemma invoice_text_roundtrip_witness :
  match to_invoice_string (example_invoice (example_token Mainnet) (-5) 1000)
          example_signer with
  | Ok s => SparkAddress_from_str s
            = Ok (example_invoice (example_token Regtest) 0 1000)
  | Err _ => False
  end.
Proof.
  assert (is_ok (to_invoice_string (example_invoice (example_token Mainnet) (-5) 1000)
            example_signer) = true) as Hok by (vm_compute; reflexivity).
  destruct (to_invoice_string _ _) as [s|] eqn:Hs; [|done].
  apply (invoice_text_roundtrip (example_invoice (example_token Mainnet) (-5) 1000)
    (example_invoice (example_token Regtest) 0 1000) example_signer s).
  - intros k h sig [= <-] _ [= <-]. by apply bool_decide_eq_true_2.
  - split; vm_compute; done.
  - split_and!; [done..|]. constructor. split; [done..|]. constructor. split; [|done]. constructor.
    exists (replicate 32 5). split; vm_compute; reflexivity.
  - exact Hs.
Defined.

Lemma invoice_hash_commits_witness :
  let a1 := example_invoice (example_token Mainnet) 3000000001 1000 in
  let a2 := example_invoice (example_token Testnet) 3999999999 1000 in
  compute_invoice_hash a1 = compute_invoice_hash a2 ∧
  ((is_Some (signed_terms a1) ∧ signed_terms a1 = signed_terms a2) ∨
   collides sha256 (invoice_messages a1) (invoice_messages a2)).
Proof.
  assert (compute_invoice_hash (example_invoice (example_token Mainnet) 3000000001 1000)
    = compute_invoice_hash (example_invoice (example_token Testnet) 3999999999 1000)) as Heq
    by (vm_compute; reflexivity).
  split; [exact Heq|].
  destruct (compute_invoice_hash (example_invoice (example_token Mainnet) 3000000001 1000))
    as [h|] eqn:Hh; [|vm_compute in Hh; discriminate].
  apply (invoice_hash_commits _ _ h); [split; vm_compute; done..|exact Hh|done].
Defined.
