(* ===== verification/TokenTx.v ===== *)
(** Token transactions as the operators exchange them ([protos/spark/spark_token.proto]), their
    hashes ([services/tokens.rs]) and their conversion into the types of the wallet
    ([services/models.rs]).

    Hexadecimal texts and the test of Unicode normalisation are the class [TokenTextOps]; keys,
    SHA-256, bech32 and the parsing of invoices are those of [Addresses]. *)
From stdpp Require Import base list strings pretty sorting.
From S2P Require Import Prelude Timelocks TreeTypes Transactions Bytes Payments PaymentSync TokenStore Addresses.

Abbreviation Network := Transactions.Network.

(** ** Generated protobuf messages *)

Record RpcTokenOutput : Type := {
  rto_id : option string;
  rto_owner_public_key : list Z;
  rto_revocation_commitment : option (list Z);
  rto_withdraw_bond_sats : option Z;
  rto_withdraw_relative_block_locktime : option Z;
  rto_token_public_key : option (list Z);
  rto_token_identifier : option (list Z);
  rto_token_amount : list Z
}.

(** [TokenOutput { owner_public_key, token_identifier, token_amount, ..Default::default() }]. *)
Definition new_token_output (owner token : list Z) (amount : Z) : RpcTokenOutput :=
  {| rto_id := None; rto_owner_public_key := owner; rto_revocation_commitment := None;
     rto_withdraw_bond_sats := None; rto_withdraw_relative_block_locktime := None;
     rto_token_public_key := None; rto_token_identifier := Some token;
     rto_token_amount := to_be_bytes 16 amount |}.

Record RpcTokenOutputToSpend : Type := {
  rts_prev_token_transaction_hash : list Z;
  rts_prev_token_transaction_vout : Z
}.

Record RpcTokenMintInput : Type := {
  rmi_issuer_public_key : list Z;
  rmi_token_identifier : option (list Z)
}.

Record RpcTokenCreateInput : Type := {
  rci_issuer_public_key : list Z;
  rci_token_name : string;
  rci_token_ticker : string;
  rci_decimals : Z;
  rci_max_supply : list Z;
  rci_is_freezable : bool;
  rci_creation_entity_public_key : option (list Z)
}.

Inductive RpcTokenInputs : Type :=
| RpcMintInput (input : RpcTokenMintInput)
| RpcTransferInput (outputs_to_spend : list RpcTokenOutputToSpend)
| RpcCreateInput (input : RpcTokenCreateInput).

(** Invoice attachments are the texts of their invoices. *)
Record RpcTokenTransaction : Type := {
  rtx_version : Z;
  rtx_token_inputs : option RpcTokenInputs;
  rtx_token_outputs : list RpcTokenOutput;
  rtx_spark_operator_identity_public_keys : list (list Z);
  rtx_expiry_time : option ProtoTimestamp;
  rtx_network : Z;
  rtx_client_created_timestamp : option ProtoTimestamp;
  rtx_invoice_attachments : list string
}.

Record RpcTokenMetadata : Type := {
  rtm_issuer_public_key : list Z;
  rtm_token_name : string;
  rtm_token_ticker : string;
  rtm_decimals : Z;
  rtm_max_supply : list Z;
  rtm_is_freezable : bool;
  rtm_creation_entity_public_key : option (list Z);
  rtm_token_identifier : list Z
}.

Record FreezeIssuerTokenPayload : Type := {
  fzp_version : Z;
  fzp_owner_public_key : list Z;
  fzp_token_public_key : option (list Z);
  fzp_token_identifier : option (list Z);
  fzp_issuer_provided_timestamp : Z;
  fzp_operator_identity_public_key : list Z;
  fzp_should_unfreeze : bool
}.

Class TokenTextOps := {
  hex_encode : list Z → string;
  hex_decode : string → option (list Z);
  is_nfc : string → bool;
}.

Section token_tx.
Context {ex : Externals} {ao : AddressOps} {tt : TokenTextOps}.

Abbreviation Res A := (result A (exn TreeTypes.ServiceError)).

(** [ServiceError::Generic]. *)
Definition generic {A} (s : string) : Res A := Err (Throw (SE_Generic s)).
Definition required {A} (o : option A) (s : string) : Res A := ok_or o (Throw (SE_Generic s)).

(** ** Hashes *)

Definition TX_TYPE_CREATE : Z := 1.
Definition TX_TYPE_MINT : Z := 2.
Definition TX_TYPE_TRANSFER : Z := 3.

Definition u32_bytes (x : Z) : list Z := to_be_bytes 4 x.
Definition len_bytes {A} (l : list A) : list Z := u32_bytes (Z.of_nat (length l)).
Definition flag_byte (b : bool) : list Z := [if b then 1 else 0].

(** The blocks hashed for the inputs. *)
Definition input_blocks (inputs : option RpcTokenInputs) (partial : bool) : Res (list (list Z)) :=
  match inputs with
  | Some (RpcCreateInput input) =>
      Ok [u32_bytes TX_TYPE_CREATE;
          rci_issuer_public_key input;
          as_bytes (rci_token_name input);
          as_bytes (rci_token_ticker input);
          u32_bytes (rci_decimals input);
          rci_max_supply input;
          flag_byte (rci_is_freezable input);
          if negb partial then default [] (rci_creation_entity_public_key input) else []]
  | Some (RpcMintInput input) =>
      Ok [u32_bytes TX_TYPE_MINT;
          rmi_issuer_public_key input;
          default (replicate 32 0) (rmi_token_identifier input)]
  | Some (RpcTransferInput inputs) =>
      Ok (u32_bytes TX_TYPE_TRANSFER :: len_bytes inputs ::
          ((λ i, rts_prev_token_transaction_hash i ++
                 u32_bytes (rts_prev_token_transaction_vout i)) <$> inputs))
  | None => generic "Token inputs are required"
  end.

(** The bytes given to the engine for one output. *)
Definition output_block (partial : bool) (output : RpcTokenOutput) : Res (list Z) :=
  let head := (if negb partial then from_option as_bytes [] (rto_id output) else []) ++
              rto_owner_public_key output in
  let* middle :=
    if negb partial then
      let* revocation_commitment :=
        required (rto_revocation_commitment output) "Revocation commitment is required" in
      let* withdraw_bond_sats :=
        required (rto_withdraw_bond_sats output) "Withdraw bond sats is required" in
      let* withdraw_relative_block_locktime :=
        required (rto_withdraw_relative_block_locktime output)
          "Withdraw relative block locktime is required" in
      Ok (revocation_commitment ++ to_be_bytes 8 withdraw_bond_sats ++
          to_be_bytes 8 withdraw_relative_block_locktime)
    else Ok [] in
  let* token_identifier := required (rto_token_identifier output) "Token identifier is required" in
  Ok (head ++ middle ++ default (replicate 33 0) (rto_token_public_key output) ++
      token_identifier ++ rto_token_amount output).

(** [iter().map(f).collect::<Result<Vec<_>, _>>()], and a loop that leaves at the first error. *)
Fixpoint collect {A B Er} (f : A → result B Er) (l : list A) : result (list B) Er :=
  match l with
  | [] => Ok []
  | a :: l => let* b := f a in let* bs := collect f l in Ok (b :: bs)
  end.

(** [seconds as u64 * 1000 + nanos as u64 / 1_000_000]. *)
Definition timestamp_ms (t : ProtoTimestamp) : Z :=
  wadd 64 (wmul 64 (as_u64 (ts_seconds t)) 1000) (as_u64 (ts_nanos t) / 1000000).

Definition common_blocks (transaction : RpcTokenTransaction) (partial : bool) : Res (list (list Z)) :=
  let* inputs := input_blocks (rtx_token_inputs transaction) partial in
  let* outputs := collect (output_block partial) (rtx_token_outputs transaction) in
  let operator_public_keys :=
    sort_by bytes_leb (rtx_spark_operator_identity_public_keys transaction) in
  let* unix_timestamp :=
    required (rtx_client_created_timestamp transaction) "Client created timestamp is required" in
  Ok ([u32_bytes (rtx_version transaction)] ++ inputs ++
      [len_bytes (rtx_token_outputs transaction)] ++ outputs ++
      [len_bytes operator_public_keys] ++ operator_public_keys ++
      [u32_bytes (rtx_network transaction); to_be_bytes 8 (timestamp_ms unix_timestamp)] ++
      (if negb partial
       then [to_be_bytes 8 (from_option (λ t, as_u64 (ts_seconds t)) 0 (rtx_expiry_time transaction))]
       else [])).

(** The blocks are hashed one by one. *)
Definition compute_common_hash_components (transaction : RpcTokenTransaction) (partial : bool)
    : Res (list (list Z)) :=
  let* blocks := common_blocks transaction partial in
  Ok (sha256 <$> blocks).

Definition compute_hash_v1 (transaction : RpcTokenTransaction) (partial : bool) : Res (list Z) :=
  let* all_hashes := compute_common_hash_components transaction partial in
  Ok (sha256 (mjoin all_hashes)).

(** Each attached invoice with its identifier. *)
Fixpoint invoices_with_ids (i : nat) (attachments : list string) : Res (list (list Z * string)) :=
  match attachments with
  | [] => Ok []
  | invoice :: rest =>
      let* address :=
        match SparkAddress_from_str invoice with
        | Ok address => Ok address
        | Err Panic => Err Panic
        | Err (Throw e) => generic ("Invalid invoice at index " +:+ pretty i +:+ ": " +:+ AddressError_fmt e)
        end in
      let* invoice_fields :=
        required (spark_invoice_fields address) ("Missing invoice fields at index " +:+ pretty i) in
      let id_bytes := Uuid_as_bytes (inv_id invoice_fields) in
      if negb (length id_bytes =? 16)%nat
      then generic ("Invalid invoice ID length at index " +:+ pretty i +:+
                    ": expected 16 bytes, got " +:+ pretty (length id_bytes))
      else
        let* sorted_invoices := invoices_with_ids (S i) rest in
        Ok ((id_bytes, invoice) :: sorted_invoices)
  end.

Definition sorted_invoices (attachments : list string) : Res (list string) :=
  let* invoices := invoices_with_ids 0 attachments in
  Ok ((sort_by (λ a b, bytes_leb a.1 b.1) invoices).*2).

Definition compute_hash_v2 (transaction : RpcTokenTransaction) (partial : bool) : Res (list Z) :=
  let* all_hashes := compute_common_hash_components transaction partial in
  let attachments := rtx_invoice_attachments transaction in
  let* invoices := sorted_invoices attachments in
  Ok (sha256 (mjoin (all_hashes ++ [sha256 (len_bytes attachments)] ++
                     ((λ i, sha256 (as_bytes i)) <$> invoices)))).

Definition compute_hash (transaction : RpcTokenTransaction) (partial : bool) : Res (list Z) :=
  if rtx_version transaction =? 1 then compute_hash_v1 transaction partial
  else if rtx_version transaction =? 2 then compute_hash_v2 transaction partial
  else generic "Unsupported token transaction version".

Definition hash_freeze_tokens_payload (payload : FreezeIssuerTokenPayload) : list Z :=
  sha256 (mjoin (sha256 <$>
    [u32_bytes (fzp_version payload);
     fzp_owner_public_key payload;
     default [] (fzp_token_identifier payload);
     flag_byte (fzp_should_unfreeze payload);
     to_le_bytes 8 (fzp_issuer_provided_timestamp payload);
     fzp_operator_identity_public_key payload])).

Definition validate_create_token_params (name ticker : string) (decimals : Z) : Res () :=
  if negb (is_nfc name) then generic "Token name must be NFC-normalised UTF-8"
  else if negb (is_nfc ticker) then generic "Token ticker must be NFC-normalised UTF-8"
  else if (String.length name <? 3)%nat || (20 <? String.length name)%nat
  then generic "Token name must be between 3 and 20 bytes"
  else if (String.length ticker <? 3)%nat || (6 <? String.length ticker)%nat
  then generic "Token ticker must be between 3 and 6 bytes"
  else if 255 <? decimals then generic "Decimals must be an between 0 and 255"
  else Ok ().

(** ** Conversion into the types of the wallet *)

Record MintInput : Type := { mi_issuer_public_key : AddrKey; mi_token_id : option (list Z) }.

Record CreateInput : Type := {
  ci_issuer_public_key : AddrKey;
  ci_name : string;
  ci_ticker : string;
  ci_decimals : Z;
  ci_max_supply : Z;
  ci_is_freezable : bool;
  ci_creation_entity_public_key : option AddrKey
}.

(** The types of [PaymentSync] at these keys and inputs; its types of LNURL contents and of
    leaves have no part in token transactions. *)
Definition token_types : PaymentTypes := {|
  Key := AddrKey; LnurlPayInfo := (); WalletTransferLeaf := ();
  TokenMintInput := MintInput; TokenCreateInput := CreateInput
|}.

Definition key_from (bytes : list Z) (e : string) : Res AddrKey :=
  map_err (λ _, Throw (SE_Generic e)) (Key_from_slice bytes).

(** [u128::from_be_bytes(bytes.try_into()..)]. *)
Definition u128_from (bytes : list Z) (e : string) : Res Z :=
  if (length bytes =? 16)%nat then Ok (from_be_bytes bytes) else generic e.

Definition token_id_text (raw : list Z) (network : Network) : Res string :=
  map_err (λ e, Throw (SE_Generic e)) (bech32m_encode_token_id raw network).

Definition TokenMetadata_try_from (metadata : RpcTokenMetadata) (network : Network)
    : Res (@TokenMetadata AddrKey) :=
  let* identifier := token_id_text (rtm_token_identifier metadata) network in
  let* issuer_public_key := key_from (rtm_issuer_public_key metadata) "Invalid issuer public key" in
  let* max_supply := u128_from (rtm_max_supply metadata) "Invalid max supply" in
  let* creation_entity_public_key :=
    transpose (λ pk, key_from pk "Invalid creation entity public key")
      (rtm_creation_entity_public_key metadata) in
  Ok {| identifier := identifier;
        issuer_public_key := issuer_public_key;
        name := rtm_token_name metadata;
        ticker := rtm_token_ticker metadata;
        decimals := rtm_decimals metadata;
        max_supply := max_supply;
        is_freezable := rtm_is_freezable metadata;
        creation_entity_public_key := creation_entity_public_key |}.

Definition TokenOutput_try_from (output : RpcTokenOutput) (network : Network)
    : Res (@TokenOutput AddrKey) :=
  let* id := required (rto_id output) "Missing token output id" in
  let* owner_public_key := key_from (rto_owner_public_key output) "Invalid owner public key" in
  let* revocation_commitment :=
    required (rto_revocation_commitment output) "Missing revocation commitment" in
  let* withdraw_bond_sats := required (rto_withdraw_bond_sats output) "Missing withdraw bond sats" in
  let* withdraw_relative_block_locktime :=
    required (rto_withdraw_relative_block_locktime output) "Missing withdraw relative block locktime" in
  let* token_public_key :=
    transpose (λ pk, key_from pk "Invalid token public key") (rto_token_public_key output) in
  let* raw := required (rto_token_identifier output) "Missing token identifier" in
  let* token_identifier := token_id_text raw network in
  let* token_amount := u128_from (rto_token_amount output) "Invalid token amount" in
  Ok {| to_id := id;
        owner_public_key := owner_public_key;
        revocation_commitment := hex_encode revocation_commitment;
        withdraw_bond_sats := withdraw_bond_sats;
        withdraw_relative_block_locktime := withdraw_relative_block_locktime;
        token_public_key := token_public_key;
        token_identifier := token_identifier;
        token_amount := token_amount |}.

Definition TokenMintInput_try_from (input : RpcTokenMintInput) : Res MintInput :=
  let* issuer_public_key := key_from (rmi_issuer_public_key input) "Invalid issuer public key" in
  Ok {| mi_issuer_public_key := issuer_public_key; mi_token_id := rmi_token_identifier input |}.

Definition TokenOutputToSpend_try_from (output : RpcTokenOutputToSpend) : TokenOutputToSpend :=
  {| prev_token_tx_hash := hex_encode (rts_prev_token_transaction_hash output);
     prev_token_tx_vout := rts_prev_token_transaction_vout output |}.

Definition TokenCreateInput_try_from (input : RpcTokenCreateInput) : Res CreateInput :=
  let* issuer_public_key := key_from (rci_issuer_public_key input) "Invalid issuer public key" in
  let* max_supply := u128_from (rci_max_supply input) "Invalid max supply" in
  let* creation_entity_public_key :=
    transpose (λ pk, key_from pk "Invalid creation entity public key")
      (rci_creation_entity_public_key input) in
  Ok {| ci_issuer_public_key := issuer_public_key;
        ci_name := rci_token_name input;
        ci_ticker := rci_token_ticker input;
        ci_decimals := rci_decimals input;
        ci_max_supply := max_supply;
        ci_is_freezable := rci_is_freezable input;
        ci_creation_entity_public_key := creation_entity_public_key |}.

Definition TokenInputs_try_from (inputs : RpcTokenInputs) : Res (@TokenInputs token_types) :=
  match inputs with
  | RpcMintInput input => let* i := TokenMintInput_try_from input in Ok (MintInputs (pt := token_types) i)
  | RpcTransferInput l => Ok (TransferInputs (TokenOutputToSpend_try_from <$> l))
  | RpcCreateInput input =>
      let* i := TokenCreateInput_try_from input in Ok (CreateInputs (pt := token_types) i)
  end.

Definition TokenTransaction_try_from (token_transaction : RpcTokenTransaction) (network : Network)
    : Res (@TokenTransaction token_types) :=
  let* hash := compute_hash token_transaction false in
  let* rpc_inputs := required (rtx_token_inputs token_transaction) "Missing token inputs" in
  let* inputs := TokenInputs_try_from rpc_inputs in
  let* outputs := collect (λ o, TokenOutput_try_from o network) (rtx_token_outputs token_transaction) in
  let* created_timestamp :=
    match rtx_client_created_timestamp token_transaction with
    | Some ts => or_panic (timestamp_to_time ts)
    | None => generic "Missing client created timestamp. Could this be a V1 transaction?"
    end in
  Ok {| tt_hash := hex_encode hash;
        inputs := inputs;
        outputs := outputs : list (@TokenOutput (@Key token_types));
        tt_status := StatusUnknown;
        created_timestamp := created_timestamp;
        fulfilled_invoices := rtx_invoice_attachments token_transaction |}.
End token_tx.
