(* ===== verification/TokenTxProps.v ===== *)
(** The hash of a token transaction commits to its contents ([TokenTx]). *)
From stdpp Require Import base list strings pretty sorting.
From S2P Require Import Prelude Timelocks TreeTypes Transactions Bytes Payments PaymentSync TokenStore Addresses AddressesProps TokenTx.
Import Example.

Section commitment.
Context {ex : Externals} {ao : AddressOps} {al : AddressLaws} {tt : TokenTextOps}.

(** ** What is committed to

    The sizes the protocol demands of the fields. *)
Definition opt_length (n : nat) (o : option (list Z)) : Prop := from_option (λ l, length l = n) True o.

Record output_sized (o : RpcTokenOutput) : Prop := {
  os_owner : length (rto_owner_public_key o) = 33%nat;
  os_revocation : opt_length 33 (rto_revocation_commitment o);
  os_bond : from_option (in_u 64) True (rto_withdraw_bond_sats o);
  os_locktime : from_option (in_u 64) True (rto_withdraw_relative_block_locktime o);
  os_key : opt_length 33 (rto_token_public_key o);
  os_token : opt_length 32 (rto_token_identifier o);
  os_amount : length (rto_token_amount o) = 16%nat
}.

Definition inputs_sized (i : RpcTokenInputs) : Prop :=
  match i with
  | RpcMintInput _ => True
  | RpcTransferInput l =>
      Z.of_nat (length l) < 2 ^ 32 ∧
      Forall (λ s, in_u 32 (rts_prev_token_transaction_vout s)) l
  | RpcCreateInput c => in_u 32 (rci_decimals c)
  end.

Record sized (t : RpcTokenTransaction) : Prop := {
  sz_version : in_u 32 (rtx_version t);
  sz_inputs : from_option inputs_sized True (rtx_token_inputs t);
  sz_outputs : Forall output_sized (rtx_token_outputs t);
  sz_outputs_count : Z.of_nat (length (rtx_token_outputs t)) < 2 ^ 32;
  sz_operators_count : Z.of_nat (length (rtx_spark_operator_identity_public_keys t)) < 2 ^ 32;
  sz_network : in_u 31 (rtx_network t);
  sz_attachments_count : Z.of_nat (length (rtx_invoice_attachments t)) < 2 ^ 32
}.

(** The transaction a hash stands for: absent fields have their defaults, what the hash
    leaves out is absent, the order of operators and invoices is fixed. *)
Definition normal_inputs (partial : bool) (i : RpcTokenInputs) : RpcTokenInputs :=
  match i with
  | RpcMintInput m =>
      RpcMintInput {| rmi_issuer_public_key := rmi_issuer_public_key m;
                      rmi_token_identifier :=
                        Some (default (replicate 32 0) (rmi_token_identifier m)) |}
  | RpcTransferInput l => RpcTransferInput l
  | RpcCreateInput c =>
      RpcCreateInput {| rci_issuer_public_key := rci_issuer_public_key c;
                        rci_token_name := rci_token_name c;
                        rci_token_ticker := rci_token_ticker c;
                        rci_decimals := rci_decimals c;
                        rci_max_supply := rci_max_supply c;
                        rci_is_freezable := rci_is_freezable c;
                        rci_creation_entity_public_key :=
                          if partial then None
                          else Some (default [] (rci_creation_entity_public_key c)) |}
  end.

Definition normal_output (partial : bool) (o : RpcTokenOutput) : RpcTokenOutput :=
  {| rto_id := if partial then None else Some (default EmptyString (rto_id o));
     rto_owner_public_key := rto_owner_public_key o;
     rto_revocation_commitment := if partial then None else rto_revocation_commitment o;
     rto_withdraw_bond_sats := if partial then None else rto_withdraw_bond_sats o;
     rto_withdraw_relative_block_locktime :=
       if partial then None else rto_withdraw_relative_block_locktime o;
     rto_token_public_key := Some (default (replicate 33 0) (rto_token_public_key o));
     rto_token_identifier := rto_token_identifier o;
     rto_token_amount := rto_token_amount o |}.

Definition normal (partial : bool) (t : RpcTokenTransaction) : RpcTokenTransaction :=
  {| rtx_version := rtx_version t;
     rtx_token_inputs := normal_inputs partial <$> rtx_token_inputs t;
     rtx_token_outputs := normal_output partial <$> rtx_token_outputs t;
     rtx_spark_operator_identity_public_keys :=
       sort_by bytes_leb (rtx_spark_operator_identity_public_keys t);
     rtx_expiry_time :=
       if partial then None
       else Some {| ts_seconds := from_option (λ e, as_u64 (ts_seconds e)) 0 (rtx_expiry_time t);
                    ts_nanos := 0 |};
     rtx_network := rtx_network t;
     rtx_client_created_timestamp :=
       (λ c, {| ts_seconds := timestamp_ms c; ts_nanos := 0 |}) <$> rtx_client_created_timestamp t;
     rtx_invoice_attachments :=
       if rtx_version t =? 2
       then match sorted_invoices (rtx_invoice_attachments t) with Ok l => l | Err _ => [] end
       else [] |}.

(** ** The blocks of a whole transaction *)

Definition hash_blocks (t : RpcTokenTransaction) (partial : bool)
    : result (list (list Z)) (exn TreeTypes.ServiceError) :=
  let* common := common_blocks t partial in
  if rtx_version t =? 1 then Ok common
  else
    let* invoices := sorted_invoices (rtx_invoice_attachments t) in
    Ok (common ++ len_bytes (rtx_invoice_attachments t) :: (as_bytes <$> invoices)).

Lemma compute_hash_blocks t partial h :
  compute_hash t partial = Ok h →
  (rtx_version t = 1 ∨ rtx_version t = 2) ∧
  ∃ bs, hash_blocks t partial = Ok bs ∧ h = sha256 (mjoin (sha256 <$> bs)).
Proof.
  unfold compute_hash, compute_hash_v1, compute_hash_v2, hash_blocks, compute_common_hash_components.
  destruct (Z.eqb_spec (rtx_version t) 1) as [Hv|_].
  - intros (hs & (bs & Hbs & [= <-])%rbind_ok & [= <-])%rbind_ok. split; [by left|].
    exists bs. by rewrite Hbs.
  - destruct (Z.eqb_spec (rtx_version t) 2) as [Hv|_]; [|done].
    intros (hs & (bs & Hbs & [= <-])%rbind_ok & H)%rbind_ok.
    apply rbind_ok in H as (inv & Hinv & [= <-]). split; [by right|].
    rewrite Hbs. simpl. rewrite Hinv. simpl. eexists. split; [done|].
    rewrite fmap_app, fmap_cons, <- list_fmap_compose. done.
Qed.

Lemma u32_bytes_length x : length (u32_bytes x) = 4%nat.
Proof. apply to_be_bytes_length. Qed.

Lemma u32_bytes_inj x y : in_u 32 x → in_u 32 y → u32_bytes x = u32_bytes y → x = y.
Proof. intros Hx Hy. by apply to_be_bytes_inj. Qed.

Lemma len_bytes_inj {A} (l1 l2 : list A) :
  Z.of_nat (length l1) < 2 ^ 32 → Z.of_nat (length l2) < 2 ^ 32 → len_bytes l1 = len_bytes l2 →
  length l1 = length l2.
Proof. intros H1 H2 H. apply u32_bytes_inj in H; [lia|split; lia..]. Qed.

Lemma bytes_app_inj {A} n (a1 a2 b1 b2 : list A) :
  length a1 = n → length a2 = n → a1 ++ b1 = a2 ++ b2 → a1 = a2 ∧ b1 = b2.
Proof. intros H1 H2 H. apply app_inj_1 in H; [done|by rewrite H1, H2]. Qed.

(** Blocks of a list with their number in front, and what follows. *)
Lemma counted_inj {A} (l1 l2 : list A) (bs1 bs2 r1 r2 : list (list Z)) :
  Z.of_nat (length l1) < 2 ^ 32 → Z.of_nat (length l2) < 2 ^ 32 →
  length bs1 = length l1 → length bs2 = length l2 →
  len_bytes l1 :: bs1 ++ r1 = len_bytes l2 :: bs2 ++ r2 → bs1 = bs2 ∧ r1 = r2.
Proof.
  intros H1 H2 Hb1 Hb2 H. apply (inj2 cons) in H as [Hl H].
  apply len_bytes_inj in Hl; [|done..]. apply app_inj_1 in H; [done|]. by rewrite Hb1, Hb2.
Qed.

Lemma collect_length {A B Er} (f : A → result B Er) l bs : collect f l = Ok bs → length bs = length l.
Proof.
  revert bs. induction l as [|a l IH]; intros bs; simpl; [by intros [= <-]|].
  intros (b & _ & (bs' & Hbs & [= <-])%rbind_ok)%rbind_ok. simpl. by rewrite (IH bs').
Qed.

Lemma collect_inj {A B Er C} (f : A → result B Er) (g : A → C) (P : A → Prop) l1 l2 bs :
  (∀ a1 a2 b, P a1 → P a2 → f a1 = Ok b → f a2 = Ok b → g a1 = g a2) →
  Forall P l1 → Forall P l2 → collect f l1 = Ok bs → collect f l2 = Ok bs → g <$> l1 = g <$> l2.
Proof.
  intros Hf HP1. revert l2 bs. induction HP1 as [|a1 l1 Ha1 HP1 IH]; intros l2 bs HP2; simpl.
  - intros [= <-] H. apply collect_length in H. by destruct l2.
  - intros (b & Hb & (bs' & Hbs & [= <-])%rbind_ok)%rbind_ok H2.
    destruct HP2 as [|a2 l2 Ha2 HP2]; [done|].
    simpl in H2. apply rbind_ok in H2 as (b2 & Hb2 & (bs2 & Hbs2 & [= -> ->])%rbind_ok).
    rewrite !fmap_cons. f_equal; [by eapply Hf|by eapply IH].
Qed.

(** ** Inputs *)

Lemma input_blocks_inj partial i1 i2 b1 b2 r1 r2 :
  from_option inputs_sized True i1 → from_option inputs_sized True i2 →
  input_blocks i1 partial = Ok b1 → input_blocks i2 partial = Ok b2 → b1 ++ r1 = b2 ++ r2 →
  normal_inputs partial <$> i1 = normal_inputs partial <$> i2 ∧ r1 = r2.
Proof.
  assert (∀ (l l' : list (list Z)), u32_bytes TX_TYPE_CREATE :: l ≠ u32_bytes TX_TYPE_MINT :: l') as H12 by done.
  assert (∀ (l l' : list (list Z)), u32_bytes TX_TYPE_CREATE :: l ≠ u32_bytes TX_TYPE_TRANSFER :: l') as H13 by done.
  assert (∀ (l l' : list (list Z)), u32_bytes TX_TYPE_MINT :: l ≠ u32_bytes TX_TYPE_TRANSFER :: l') as H23 by done.
  destruct i1 as [[m1|l1|c1]|], i2 as [[m2|l2|c2]|]; simpl; intros Hs1 Hs2; try done;
    intros <-%Ok_inj <-%Ok_inj; simpl; intros H; try (exfalso; naive_solver).
  - injection H as Hi Ht Hr. by rewrite Hi, Ht.
  - destruct Hs1 as [Hc1 Hf1], Hs2 as [Hc2 Hf2]. apply (inj2 cons) in H as [_ H].
    apply counted_inj in H as [H Hr]; [|done..|by rewrite length_fmap|by rewrite length_fmap].
    split; [|done]. do 2 f_equal. clear Hc1 Hc2 Hr H12 H13 H23.
    revert l2 Hf2 H. induction Hf1 as [|s1 l1 Hs1 Hf1 IH]; intros [|s2 l2] Hf2; simpl; [done..|].
    inversion_clear Hf2 as [|? ? Hs2 Hf2']. intros H. apply (inj2 cons) in H as [Hh H].
    f_equal; [|by apply IH]. apply app_inj_2 in Hh as [Hh Hv]; [|by rewrite !u32_bytes_length].
    apply u32_bytes_inj in Hv; [|done..]. destruct s1, s2; simpl in *. by subst.
  - apply (inj2 cons) in H as [_ H]. apply (inj2 cons) in H as [Hi H].
    apply (inj2 cons) in H as [Hn H]. apply (inj2 cons) in H as [Ht H].
    apply (inj2 cons) in H as [Hd H]. apply (inj2 cons) in H as [Hm H].
    apply (inj2 cons) in H as [Hf H]. apply (inj2 cons) in H as [He Hr].
    apply as_bytes_inj in Hn, Ht. apply u32_bytes_inj in Hd; [|done..].
    assert (rci_is_freezable c1 = rci_is_freezable c2) as Hfr.
    { unfold flag_byte in Hf. by destruct (rci_is_freezable c1), (rci_is_freezable c2). }
    split; [|done]. rewrite Hi, Hn, Ht, Hd, Hm, Hfr. by destruct partial; simpl in *; rewrite ?He.
Qed.

(** ** Outputs *)

Lemma opt_default_length n o : opt_length n o → length (default (replicate n 0) o) = n.
Proof. destruct o; simpl; [done|]. intros _. apply length_replicate. Qed.

(** The end of a block: the token's key and identifier and the amount. *)
Lemma output_tail_inj o1 o2 t1 t2 r1 r2 :
  output_sized o1 → output_sized o2 →
  rto_token_identifier o1 = Some t1 → rto_token_identifier o2 = Some t2 →
  r1 ++ default (replicate 33 0) (rto_token_public_key o1) ++ t1 ++ rto_token_amount o1 =
  r2 ++ default (replicate 33 0) (rto_token_public_key o2) ++ t2 ++ rto_token_amount o2 →
  r1 = r2 ∧ default (replicate 33 0) (rto_token_public_key o1)
            = default (replicate 33 0) (rto_token_public_key o2) ∧
  t1 = t2 ∧ rto_token_amount o1 = rto_token_amount o2.
Proof.
  intros [_ _ _ _ Hk1 Ht1 Ha1] [_ _ _ _ Hk2 Ht2 Ha2] He1 He2 H. rewrite He1 in Ht1. rewrite He2 in Ht2.
  simpl in Ht1, Ht2. apply opt_default_length in Hk1, Hk2.
  apply app_inj_2 in H as [-> H]; [|by rewrite !length_app, Hk1, Hk2, Ht1, Ht2, Ha1, Ha2].
  apply (bytes_app_inj 33) in H as [-> H]; [|done..].
  by apply (bytes_app_inj 32) in H as [-> H].
Qed.

Lemma output_block_inj partial o1 o2 b :
  output_sized o1 → output_sized o2 →
  output_block partial o1 = Ok b → output_block partial o2 = Ok b →
  normal_output partial o1 = normal_output partial o2.
Proof.
  intros Hs1 Hs2 (m1 & Hm1 & (t1 & Ht1%ok_or_ok & Hb1%Ok_inj)%rbind_ok)%rbind_ok
    (m2 & Hm2 & (t2 & Ht2%ok_or_ok & Hb2%Ok_inj)%rbind_ok)%rbind_ok.
  rewrite <- Hb2, !(assoc_L (++) _ m1), !(assoc_L (++) _ m2) in Hb1.
  eapply output_tail_inj in Hb1 as (H & Hk & Ht & Ha); [|done..].
  unfold normal_output. rewrite Hk, Ht1, Ht2, Ht, Ha.
  destruct Hs1 as [Ho1 Hr1 Hbo1 Hl1 _ _ _], Hs2 as [Ho2 Hr2 Hbo2 Hl2 _ _ _].
  destruct partial; cbn [negb] in Hm1, Hm2, H.
  { apply Ok_inj in Hm1 as <-, Hm2 as <-. rewrite !app_nil_r in H. simpl in H. by rewrite H. }
  apply rbind_ok in Hm1 as (v1 & Hv1%ok_or_ok & Hm1). apply rbind_ok in Hm2 as (v2 & Hv2%ok_or_ok & Hm2).
  apply rbind_ok in Hm1 as (w1 & Hw1%ok_or_ok & Hm1). apply rbind_ok in Hm2 as (w2 & Hw2%ok_or_ok & Hm2).
  apply rbind_ok in Hm1 as (k1 & Hk1%ok_or_ok & Hm1%Ok_inj).
  apply rbind_ok in Hm2 as (k2 & Hk2%ok_or_ok & Hm2%Ok_inj).
  rewrite Hv1 in *. rewrite Hv2 in *. rewrite Hw1 in *. rewrite Hw2 in *. rewrite Hk1 in *. rewrite Hk2 in *.
  unfold opt_length in Hr1, Hr2. cbn [from_option] in Hr1, Hr2, Hbo1, Hbo2, Hl1, Hl2. subst m1 m2.
  apply app_inj_2 in H as [Hio H]; [|by rewrite !length_app, !to_be_bytes_length, Hr1, Hr2].
  apply app_inj_2 in Hio as [Hi ->]; [|by rewrite Ho1, Ho2].
  apply (bytes_app_inj 33) in H as [-> H]; [|done..].
  apply (bytes_app_inj 8) in H as [Hbond Hlock]; [|by rewrite to_be_bytes_length..].
  apply to_be_bytes_inj in Hbond, Hlock; [|done..]. subst.
  assert (default EmptyString (rto_id o1) = default EmptyString (rto_id o2)) as ->; [|done].
  destruct (rto_id o1), (rto_id o2); simpl in *; [by apply as_bytes_inj|..|done].
  - by apply (as_bytes_inj _ EmptyString).
  - by apply (as_bytes_inj EmptyString).
Qed.

(** ** The whole transaction *)

Lemma common_blocks_inj partial t1 t2 bs1 bs2 r1 r2 :
  sized t1 → sized t2 → common_blocks t1 partial = Ok bs1 → common_blocks t2 partial = Ok bs2 →
  bs1 ++ r1 = bs2 ++ r2 →
  rtx_version t1 = rtx_version t2 ∧
  normal_inputs partial <$> rtx_token_inputs t1 = normal_inputs partial <$> rtx_token_inputs t2 ∧
  normal_output partial <$> rtx_token_outputs t1 = normal_output partial <$> rtx_token_outputs t2 ∧
  sort_by bytes_leb (rtx_spark_operator_identity_public_keys t1) =
    sort_by bytes_leb (rtx_spark_operator_identity_public_keys t2) ∧
  rtx_network t1 = rtx_network t2 ∧
  timestamp_ms <$> rtx_client_created_timestamp t1 = timestamp_ms <$> rtx_client_created_timestamp t2 ∧
  (partial = false → from_option (λ e, as_u64 (ts_seconds e)) 0 (rtx_expiry_time t1)
                     = from_option (λ e, as_u64 (ts_seconds e)) 0 (rtx_expiry_time t2)) ∧
  r1 = r2.
Proof.
  intros [Hv1 Hi1 Ho1 Hoc1 Hp1 Hn1 _] [Hv2 Hi2 Ho2 Hoc2 Hp2 Hn2 _].
  intros (i1 & Hib1 & (o1 & Hob1 & (c1 & Hc1%ok_or_ok & <-%Ok_inj)%rbind_ok)%rbind_ok)%rbind_ok.
  intros (i2 & Hib2 & (o2 & Hob2 & (c2 & Hc2%ok_or_ok & <-%Ok_inj)%rbind_ok)%rbind_ok)%rbind_ok.
  rewrite <- !app_assoc. cbn [app]. intros H.
  apply (inj2 cons) in H as [Hv H]. apply u32_bytes_inj in Hv; [|done..].
  apply (input_blocks_inj partial (rtx_token_inputs t1) (rtx_token_inputs t2)) in H as [Hi H]; [|done..].
  apply counted_inj in H as [-> H]; [|done..|by eapply collect_length|by eapply collect_length].
  apply counted_inj in H as [Hops H]; [|by rewrite sort_by_perm|by rewrite sort_by_perm|done..].
  apply (inj2 cons) in H as [Hn H]. apply (inj2 cons) in H as [Hc H].
  apply u32_bytes_inj in Hn; [|destruct Hn1, Hn2; split; lia..].
  assert (∀ c, in_u 64 (timestamp_ms c)) as Hms by (intros c; by apply wrap_in_u).
  apply to_be_bytes_inj in Hc; [|apply Hms..].
  assert (∀ t : RpcTokenTransaction, in_u 64 (from_option (λ e, as_u64 (ts_seconds e)) 0 (rtx_expiry_time t))) as He.
  { intros t. destruct (rtx_expiry_time t); simpl; [by apply Z.mod_pos_bound|done]. }
  rewrite Hc1, Hc2. simpl. rewrite Hc. split_and!; try done.
  - eapply (collect_inj _ _ output_sized); [|done..]. intros a1 a2 b. by apply output_block_inj.
  - intros ->. simpl in H. apply (inj2 cons) in H as [H _]. by apply to_be_bytes_inj in H; [|apply He..].
  - destruct partial; simpl in H; [done|]. by apply (inj2 cons) in H as [_ H].
Qed.

Lemma sorted_invoices_length l s : sorted_invoices l = Ok s → length s = length l.
Proof.
  intros (inv & Hinv & <-%Ok_inj)%rbind_ok. rewrite length_fmap, sort_by_perm.
  revert Hinv. generalize 0%nat as i. revert inv.
  induction l as [|x l IH]; intros inv i; simpl; [by intros [= <-]|].
  intros (a & _ & (f & _ & H)%rbind_ok)%rbind_ok. case_match; [done|].
  apply rbind_ok in H as (rest & Hr & <-%Ok_inj). simpl. f_equal. by eapply IH.
Qed.

(** Every message hashed on the way to a hash. *)
Definition token_messages (t : RpcTokenTransaction) (partial : bool) : list (list Z) :=
  match hash_blocks t partial with Ok bs => hashed_messages sha256 bs | Err _ => [] end.

(** two transactions of the protocol's sizes with one hash are the same but for what the
    hash does not cover (the form [normal]), or the messages hashed for them contain two
    that collide: what the wallet signs is one transaction. *)
Theorem token_hash_commits partial t1 t2 h :
  sized t1 → sized t2 →
  compute_hash t1 partial = Ok h → compute_hash t2 partial = Ok h →
  normal partial t1 = normal partial t2 ∨
  collides sha256 (token_messages t1 partial) (token_messages t2 partial).
Proof using al.
  intros Hs1 Hs2 (Hv1 & bs1 & Hb1 & Hh1)%compute_hash_blocks (Hv2 & bs2 & Hb2 & Hh2)%compute_hash_blocks.
  unfold token_messages. rewrite Hb1, Hb2.
  rewrite Hh1 in Hh2. apply (hash_of_hashes_inj sha256 sha256_32) in Hh2 as [->|Hc]; [left|by right].
  unfold hash_blocks in Hb1, Hb2.
  apply rbind_ok in Hb1 as (c1 & Hc1 & Hb1). apply rbind_ok in Hb2 as (c2 & Hc2 & Hb2).
  assert (∃ r1, bs2 = c1 ++ r1 ∧ (rtx_version t1 = 2 → ∃ s, sorted_invoices (rtx_invoice_attachments t1) = Ok s ∧
    r1 = len_bytes (rtx_invoice_attachments t1) :: (as_bytes <$> s))) as (r1 & Hr1 & Hi1).
  { destruct (Z.eqb_spec (rtx_version t1) 1) as [E|E].
    - exists []. rewrite app_nil_r. apply Ok_inj in Hb1 as ->. split; [done|]. by rewrite E.
    - apply rbind_ok in Hb1 as (s & Hs & <-%Ok_inj). eexists. split; [done|]. by eauto. }
  assert (∃ r2, bs2 = c2 ++ r2 ∧ (rtx_version t2 = 2 → ∃ s, sorted_invoices (rtx_invoice_attachments t2) = Ok s ∧
    r2 = len_bytes (rtx_invoice_attachments t2) :: (as_bytes <$> s))) as (r2 & Hr2 & Hi2).
  { destruct (Z.eqb_spec (rtx_version t2) 1) as [E|E].
    - exists []. rewrite app_nil_r. apply Ok_inj in Hb2 as ->. split; [done|]. by rewrite E.
    - apply rbind_ok in Hb2 as (s & Hs & <-%Ok_inj). eexists. split; [done|]. by eauto. }
  rewrite Hr1 in Hr2.
  apply (common_blocks_inj partial t1 t2) in Hr2 as (Hv & Hi & Ho & Hops & Hn & Hc & He & Hr); [|done..].
  unfold normal. rewrite Hv, Hi, Ho, Hops, Hn. f_equal.
  - destruct partial; [done|]. by rewrite He.
  - destruct (rtx_client_created_timestamp t1), (rtx_client_created_timestamp t2); simpl in *; [|done..].
    by injection Hc as ->.
  - destruct (Z.eqb_spec (rtx_version t2) 2) as [E|_]; [|done].
    destruct Hi1 as (s1 & -> & ->); [by rewrite Hv|]. destruct Hi2 as (s2 & -> & ->); [done|].
    apply (inj2 cons) in Hr as [_ Hr]. apply list_fmap_eq_inj in Hr; [done|]. intros a b. apply as_bytes_inj.
Qed.
End commitment.

(** ** At concrete inputs *)

#[local] Existing Instance simple_externals.

#[local] Instance example_texts : TokenTextOps := {|
  hex_encode b := pretty (length b); hex_decode _ := None; is_nfc _ := true
|}.

Definition example_output (id : option string) (key : option (list Z)) : RpcTokenOutput :=
  {| rto_id := id; rto_owner_public_key := replicate 33 2;
     rto_revocation_commitment := Some (replicate 33 3); rto_withdraw_bond_sats := Some 10000;
     rto_withdraw_relative_block_locktime := Some 1000; rto_token_public_key := key;
     rto_token_identifier := Some (replicate 32 5); rto_token_amount := to_be_bytes 16 1000 |}.

Definition example_token_tx (operators : list (list Z)) (output : RpcTokenOutput) : RpcTokenTransaction :=
  {| rtx_version := 2;
     rtx_token_inputs := Some (RpcTransferInput
       [{| rts_prev_token_transaction_hash := replicate 32 9; rts_prev_token_transaction_vout := 1 |}]);
     rtx_token_outputs := [output];
     rtx_spark_operator_identity_public_keys := operators;
     rtx_expiry_time := Some {| ts_seconds := 100; ts_nanos := 5 |};
     rtx_network := 2;
     rtx_client_created_timestamp := Some {| ts_seconds := 1; ts_nanos := 2000000 |};
     rtx_invoice_attachments := [] |}.

Lemma example_sized operators output :
  output_sized output → Z.of_nat (length operators) < 2 ^ 32 →
  sized (example_token_tx operators output).
Proof.
  intros Ho Hl. split; simpl; [done| |by apply Forall_singleton|done|done|done|done].
  split; [done|]. by repeat constructor.
Qed.

(** The operators in another order, an absent key for zeros. *)
Lemma token_hash_commits_witness :
  let t1 := example_token_tx [[1]; [2]] (example_output None None) in
  let t2 := example_token_tx [[2]; [1]] (example_output (Some EmptyString) (Some (replicate 33 0))) in
  t1 ≠ t2 ∧
  (normal false t1 = normal false t2 ∨
   collides sha256 (token_messages t1 false)
     (token_messages t2 false)).
Proof.
  intros t1 t2. split; [done|].
  destruct (compute_hash t1 false) as [h|] eqn:Hh; [|vm_compute in Hh; discriminate].
  apply (token_hash_commits false t1 t2 h).
  - apply example_sized; [by split|done].
  - apply example_sized; [by split|done].
  - exact Hh.
  - rewrite <- Hh. vm_compute. reflexivity.
Defined.
