(* ===== verification/Traces.v ===== *)
(** A small logic of what a computation adds to the log of a world: [emits m Q] says that [m]
    appends a list of events that [Q] relates to its result, [quiet m] that it adds none. *)
From stdpp Require Import base list.
From S2P Require Import Prelude.

Class Log (W Ev : Type) := { log : W → list Ev }.

Section logic.
Context {W Ev : Type} {lg : Log W Ev}.

(** [m] appends to the log what [Q] says of its result. *)
Definition emits {E A} (m : SE W E A) (Q : result A E → list Ev → Prop) : Prop :=
  ∀ w w' r, m w = (w', r) → ∃ l, log w' = log w ++ l ∧ Q r l.

Definition quiet {E A} (m : SE W E A) : Prop := emits m (λ _ l, l = []).

Lemma emits_conseq {E A} (m : SE W E A) (Q Q' : result A E → list Ev → Prop) :
  emits m Q → (∀ r l, Q r l → Q' r l) → emits m Q'.
Proof. intros Hm HQ w w' r Hr. destruct (Hm w w' r Hr) as (l & Hl & H). exists l. auto. Qed.

Lemma emits_lift {E A} (r : result A E) Q : Q r [] → emits (se_lift r) Q.
Proof. intros H w w' r' [= <- <-]. exists []. by rewrite app_nil_r. Qed.

Lemma emits_ret {E A} (a : A) Q : Q (Ok a) [] → emits (E := E) (se_ret a) Q.
Proof. apply (emits_lift (Ok a)). Qed.

Lemma emits_fail {E A} (e : E) Q : Q (Err e) [] → emits (A := A) (se_fail e) Q.
Proof. apply (emits_lift (Err e)). Qed.

Lemma emits_bind {E A B} (m : SE W E A) (k : A → SE W E B) Q :
  emits m (λ r l1, match r with
                   | Ok a => emits (k a) (λ r l2, Q r (l1 ++ l2))
                   | Err e => Q (Err e) l1
                   end) →
  emits (se_bind m k) Q.
Proof.
  intros Hm w w' r. unfold se_bind. destruct (m w) as [w1 [a|e]] eqn:H1.
  - destruct (Hm w w1 (Ok a) H1) as (l1 & Hl1 & Hk). intros H2.
    destruct (Hk w1 w' r H2) as (l2 & Hl2 & HQ). exists (l1 ++ l2).
    by rewrite Hl2, Hl1, app_assoc.
  - intros [= <- <-]. exact (Hm w w1 (Err e) H1).
Qed.

Lemma emits_try {E F A B} (m : SE W E A) (k : result A E → SE W F B) Q :
  emits m (λ r l1, emits (k r) (λ r l2, Q r (l1 ++ l2))) → emits (se_try m k) Q.
Proof.
  intros Hm w w' r. unfold se_try. destruct (m w) as [w1 r1] eqn:H1.
  destruct (Hm w w1 r1 H1) as (l1 & Hl1 & Hk). intros H2.
  destruct (Hk w1 w' r H2) as (l2 & Hl2 & HQ). exists (l1 ++ l2). by rewrite Hl2, Hl1, app_assoc.
Qed.

Lemma emits_map_err {E F A} (f : E → F) (m : SE W E A) Q :
  emits m (λ r l, Q (map_err f r) l) → emits (se_map_err f m) Q.
Proof.
  intros Hm w w' r. unfold se_map_err. destruct (m w) as [w1 r1] eqn:H1. intros [= <- <-].
  exact (Hm w w1 r1 H1).
Qed.

(** A call that keeps the log. *)
Lemma quiet_same {E A} (m : SE W E A) : (∀ w, log (m w).1 = log w) → quiet m.
Proof. intros H w w' r Hm. exists []. split; [|done]. specialize (H w). rewrite Hm in H. by rewrite app_nil_r. Qed.

(** The call of [m] adds nothing. *)
Lemma quiet_bind {E A B} (m : SE W E A) (k : A → SE W E B) Q :
  quiet m → (∀ e, Q (Err e) []) → (∀ a, emits (k a) Q) → emits (se_bind m k) Q.
Proof.
  intros Hm He Hk. apply emits_bind. eapply emits_conseq; [exact Hm|]. intros [a|e] l ->; [apply Hk|apply He].
Qed.

Lemma quiet_try {E F A B} (m : SE W E A) (k : result A E → SE W F B) Q :
  quiet m → (∀ r, emits (k r) Q) → emits (se_try m k) Q.
Proof. intros Hm Hk. apply emits_try. eapply emits_conseq; [exact Hm|]. intros r l ->. apply Hk. Qed.

(** A call with what it returned. *)
Lemma emits_run {E A B} (m : SE W E A) (k : A → SE W E B) Q (Q' : result B E → list Ev → Prop) :
  emits m Q → (∀ e l, Q (Err e) l → Q' (Err e) l) →
  (∀ a l w w', Q (Ok a) l → m w = (w', Ok a) → emits (k a) (λ r l', Q' r (l ++ l'))) →
  emits (se_bind m k) Q'.
Proof.
  intros Hm He Hk w w' r. unfold se_bind. destruct (m w) as [w1 [a|e]] eqn:H1.
  - destruct (Hm w w1 _ H1) as (l1 & Hl1 & HQ). intros H2.
    destruct (Hk a l1 w w1 HQ H1 w1 w' r H2) as (l2 & Hl2 & H). exists (l1 ++ l2).
    by rewrite Hl2, Hl1, app_assoc.
  - intros [= <- <-]. destruct (Hm w w1 _ H1) as (l1 & Hl1 & HQ). exists l1. auto.
Qed.

(** A call whose outcome is looked at, with the run that gave it. *)
Lemma emits_try_run {E F A B} (m : SE W E A) (k : result A E → SE W F B) Q (Q' : result B F → list Ev → Prop) :
  emits m Q →
  (∀ r l w w', Q r l → m w = (w', r) → ∀ w2 r2, k r w' = (w2, r2) → ∃ l2, log w2 = log w' ++ l2 ∧ Q' r2 (l ++ l2)) →
  emits (se_try m k) Q'.
Proof.
  intros Hm Hk w w' r. unfold se_try. destruct (m w) as [w1 r1] eqn:H1.
  destruct (Hm w w1 _ H1) as (l1 & Hl1 & HQ). intros H2.
  destruct (Hk r1 l1 w w1 HQ H1 w' r H2) as (l2 & Hl2 & H). exists (l1 ++ l2). by rewrite Hl2, Hl1, app_assoc.
Qed.

(** A pure step, with what it computed. *)
Lemma lift_bind {E A B} (r : result A E) (k : A → SE W E B) Q :
  (∀ e, Q (Err e) []) → (∀ a, r = Ok a → emits (k a) Q) → emits (se_bind (se_lift r) k) Q.
Proof.
  intros He Hk. apply emits_bind, emits_lift. destruct r as [a|e]; [by apply Hk|apply He].
Qed.

Lemma quiet_map_err {E F A} (f : E → F) (m : SE W E A) : quiet m → quiet (se_map_err f m).
Proof. intros Hm. apply emits_map_err. exact Hm. Qed.

(** A run of a call, and of one call after another. *)
Lemma quiet_run {E A} (m : SE W E A) w w' r : quiet m → m w = (w', r) → log w' = log w.
Proof. intros Hm H. destruct (Hm w w' r H) as (l & -> & ->). apply app_nil_r. Qed.

Lemma bind_run {E A B} (m : SE W E A) (k : A → SE W E B) w w' r :
  se_bind m k w = (w', r) →
  (∃ e, m w = (w', Err e) ∧ r = Err e) ∨ ∃ a w1, m w = (w1, Ok a) ∧ k a w1 = (w', r).
Proof. unfold se_bind. destruct (m w) as [w1 [a|e]]; [right; eauto|]. intros [= <- <-]. left. eauto. Qed.

Lemma quiet_lift {E A} (r : result A E) : quiet (se_lift r).
Proof. by apply emits_lift. Qed.
Lemma quiet_ret {E A} (a : A) : quiet (E := E) (se_ret a).
Proof. by apply emits_ret. Qed.
Lemma quiet_fail {E A} (e : E) : quiet (A := A) (se_fail e).
Proof. by apply emits_fail. Qed.
End logic.

Create HintDb quiet.
#[export] Hint Resolve quiet_lift quiet_ret quiet_fail : quiet.

(** Goes through the calls of a computation that adds nothing. *)
Ltac solve_quiet :=
  cbv beta zeta;
  lazymatch goal with
  | |- quiet (se_bind _ _) => apply quiet_bind; [|done|intros ?]; solve_quiet
  | |- emits (se_bind _ _) (λ _ l, l = []) => apply quiet_bind; [|done|intros ?]; solve_quiet
  | |- emits (se_try _ _) (λ _ l, l = []) => apply quiet_try; [|intros ?]; solve_quiet
  | |- quiet (se_try _ _) => apply quiet_try; [|intros ?]; solve_quiet
  | |- quiet (se_map_err _ _) => apply quiet_map_err; solve_quiet
  | |- emits (se_map_err ?f ?m) (λ _ l, l = []) => change (quiet (se_map_err f m)); solve_quiet
  | |- quiet (match _ with _ => _ end) => case_match; solve_quiet
  | |- emits (match _ with _ => _ end) _ => case_match; solve_quiet
  | |- emits ?m (λ _ l, l = []) => change (quiet m); eauto with quiet typeclass_instances
  | |- _ => eauto with quiet typeclass_instances
  end.
