(* ===== verification/TokenTransfers.v ===== *)
(** The token service ([crates/spark/src/services/tokens.rs]): building token transactions,
    starting and committing them with the operators, transfers with their retries, and the
    issuer's operations, over the token outputs of [TokenService].

    The signer, the operators, the observer of transfers and the clock are the class
    [TokenOperators]; their errors are those of the service.  The requests to freeze a token
    are sent at the same time and have one joint outcome.  Queries of transactions are left
    out. *)
From stdpp Require Import base list strings pretty sorting.
From S2P Require Import Prelude Timelocks TreeTypes Transactions Bytes Payments PaymentSync TokenStore TokenService Addresses TokenTx.

Definition MAX_TOKEN_TX_INPUTS : nat := 500.
Definition MAX_TRANSFER_TOKEN_TOO_MANY_OUTPUTS_RETRY_ATTEMPTS : nat := 3.
Definition MAX_TOKEN_PREEMPTED_RETRY_ATTEMPTS : nat := 3.

Record TokensConfig : Type := {
  expected_withdraw_bond_sats : Z;
  expected_withdraw_relative_block_locktime : Z;
  transaction_validity_duration_seconds : Z
}.

Record SignatureWithIndex : Type := { swi_signature : list Z; swi_input_index : Z }.

Record StartTransactionRequest : Type := {
  str_identity_public_key : list Z;
  str_partial_token_transaction : RpcTokenTransaction;
  str_owner_signatures : list SignatureWithIndex;
  str_validity_duration_seconds : Z
}.

(** The fields of a key share that the code reads. *)
Record RpcSigningKeyshare : Type := { rks_owner_identifiers : list string; rks_threshold : Z }.

Record StartTransactionResponse : Type := {
  final_token_transaction : option RpcTokenTransaction;
  keyshare_info : option RpcSigningKeyshare
}.

Record InputTtxoSignaturesPerOperator : Type := {
  ttxo_signatures : list SignatureWithIndex;
  ttxo_operator_identity_public_key : list Z
}.

Record CommitTransactionRequest : Type := {
  ctr_final_token_transaction : RpcTokenTransaction;
  ctr_final_token_transaction_hash : list Z;
  ctr_signatures_per_operator : list InputTtxoSignaturesPerOperator;
  ctr_owner_identity_public_key : list Z
}.

Record FreezeIssuerTokenRequest : Type := {
  freeze_tokens_payload : FreezeIssuerTokenPayload;
  issuer_signature : list Z
}.

Record RpcFreezeIssuerTokenResponse : Type := {
  rfr_impacted_output_ids : list string;
  rfr_impacted_token_amount : list Z
}.

Record FreezeIssuerTokenResponse : Type := {
  impacted_output_ids : list string;
  impacted_token_amount : Z
}.

Record ReceiverTokenOutput : Type := { pay_request : string; rcv_amount : Z }.

Section types.
Context {ao : AddressOps}.

Record TransferTokenOutput : Type := {
  tro_token_id : string;
  tro_amount : Z;
  receiver_address : SparkAddress;
  tro_spark_invoice : option string
}.

(** What is read of an operator: its key and the bytes of its identifier. *)
Record TokenOperator : Type := {
  op_identity_public_key : AddrKey;
  op_identifier : list Z
}.

(** The fields of [TokenService] that do not change; the operators are those of the pool. *)
Record TokenServiceConfig : Type := {
  tsc_network : Network;
  split_secret_threshold : Z;
  tokens_config : TokensConfig;
  all_operators : list TokenOperator
}.
End types.

Class TokenOperators {ex : Externals} {ao : AddressOps} (W : Type) := {
  signer_identity_key : SE W TreeTypes.ServiceError AddrKey;
  signer_sign_hash : list Z → SE W TreeTypes.ServiceError SchnorrSignature;
  rpc_start_transaction : StartTransactionRequest → SE W TreeTypes.ServiceError StartTransactionResponse;
  rpc_commit_transaction : CommitTransactionRequest → SE W TreeTypes.ServiceError ();
  rpc_query_token_metadata : list (list Z) → list (list Z) →
    SE W TreeTypes.ServiceError (list RpcTokenMetadata);
  rpc_freeze_tokens : list FreezeIssuerTokenRequest →
    SE W TreeTypes.ServiceError (list RpcFreezeIssuerTokenResponse);
  (** [None] when no observer is set. *)
  before_send_token :
    option (string → string → list ReceiverTokenOutput → SE W TreeTypes.ServiceError ());
  system_now : SE W TreeTypes.ServiceError Z;
  (** [OperatorRpcError::Connection(status)] with the code [Aborted]. *)
  is_transaction_preempted_error : ForeignError → bool;
  (** The error of the token output service inside that of the services. *)
  token_error : @TokenOutputServiceError ForeignError → ForeignError
}.

Section service.
Context {ex : Externals} {ao : AddressOps} {tt : TokenTextOps} {ho : HashOrder} {W : Type}
  {ts : TokenStoreOps AddrKey ForeignError W} {tn : TokenNetwork AddrKey ForeignError W}
  {top : TokenOperators W}.
Context (self : TokenServiceConfig).

Abbreviation Fault := (exn TreeTypes.ServiceError).
Abbreviation M A := (SE W Fault A).
Abbreviation Output := (@TokenOutputWithPrevOut AddrKey).
Abbreviation Reservation := (@TokenOutputsReservation AddrKey).
Abbreviation WalletTx := (@TokenTransaction token_types).

Definition of_service {A} (m : SE W TreeTypes.ServiceError A) : M A := se_map_err Throw m.
Definition of_tokens {A} (m : SE W (@TokenOutputServiceError ForeignError) A) : M A :=
  se_map_err (λ e, Throw (TreeTypes.TokenOutputServiceError (token_error e))) m.
Definition fail_generic {A} (s : string) : M A := se_lift (generic s).

Definition refresh_outputs : M () := of_tokens refresh_tokens_outputs.

(** A token identifier given by a caller. *)
Definition decode_token_id (id : string) : result (list Z) Fault :=
  map_err (λ _, Throw (SE_Generic "Invalid token id")) (bech32m_decode_token_id id (Some (tsc_network self))).

(** ** Metadata *)

Definition query_tokens_metadata (token_identifiers : list string) (issuer_public_keys : list AddrKey)
    : M (list (@TokenMetadata AddrKey)) :=
  do* ids := se_lift (collect decode_token_id token_identifiers) in
  do* metadata := of_service (rpc_query_token_metadata ids (Key_serialize <$> issuer_public_keys)) in
  se_lift (collect (λ m, TokenMetadata_try_from m (tsc_network self)) metadata).

(** One of the two loops over the cache: what was found, what was not. *)
Fixpoint cached {K} (filter_of : K → @GetTokenOutputsFilter AddrKey) (ks : list K)
    : M (list (@TokenMetadata AddrKey) * list K) :=
  match ks with
  | [] => se_ret ([], [])
  | k :: ks =>
      try* r := get_token_metadata (filter_of k) in
      do* (found, missing) := cached filter_of ks in
      se_ret (match r with
              | Ok metadata => (metadata :: found, missing)
              | Err _ => (found, k :: missing)
              end)
  end.

Definition get_tokens_metadata (token_identifiers : list string) (issuer_public_keys : list AddrKey)
    : M (list (@TokenMetadata AddrKey)) :=
  do* (cached_ids, uncached_identifiers) := cached Identifier token_identifiers in
  do* (cached_keys, uncached_issuer_public_keys) := cached IssuerPublicKey issuer_public_keys in
  do* queried_metadata :=
    (if negb (bool_decide (uncached_identifiers = [])) ||
        negb (bool_decide (uncached_issuer_public_keys = []))
     then query_tokens_metadata uncached_identifiers uncached_issuer_public_keys
     else se_ret []) in
  se_ret (cached_ids ++ cached_keys ++ queried_metadata).

Definition get_issuer_token_metadata : M (@TokenMetadata AddrKey) :=
  do* identity_public_key := of_service signer_identity_key in
  do* tokens_metadata := get_tokens_metadata [] [identity_public_key] in
  se_lift (required (head tokens_metadata) "No issuer token found").

(** ** Building transactions *)

Definition get_operator_identity_public_keys : list (list Z) :=
  (λ o, Key_serialize (op_identity_public_key o)) <$> all_operators self.

Definition build_token_transaction (token_inputs : RpcTokenInputs)
    (token_outputs : list RpcTokenOutput) (invoice_attachments : list string)
    : M RpcTokenTransaction :=
  do* now := of_service system_now in
  do* client_created_timestamp :=
    se_lift (required (web_time_to_prost_timestamp now)
               "client_created_timestamp is before UNIX_EPOCH") in
  se_ret {| rtx_version := 2;
            rtx_token_outputs := token_outputs;
            rtx_spark_operator_identity_public_keys := get_operator_identity_public_keys;
            rtx_expiry_time := None;
            rtx_network := to_proto_network (tsc_network self);
            rtx_client_created_timestamp := Some client_created_timestamp;
            rtx_token_inputs := Some token_inputs;
            rtx_invoice_attachments := invoice_attachments |}.

Definition build_create_token_transaction (name ticker : string) (decimals : Z) (is_freezable : bool)
    (max_supply : Z) : M RpcTokenTransaction :=
  do* key := of_service signer_identity_key in
  build_token_transaction
    (RpcCreateInput {| rci_issuer_public_key := Key_serialize key;
                       rci_token_name := name;
                       rci_token_ticker := ticker;
                       rci_decimals := decimals;
                       rci_is_freezable := is_freezable;
                       rci_max_supply := to_be_bytes 16 max_supply;
                       rci_creation_entity_public_key := None |}) [] [].

Definition build_mint_token_transaction (token_id : string) (amount : Z) : M RpcTokenTransaction :=
  do* key := of_service signer_identity_key in
  do* token_identifier := se_lift (decode_token_id token_id) in
  build_token_transaction
    (RpcMintInput {| rmi_issuer_public_key := Key_serialize key;
                     rmi_token_identifier := Some token_identifier |})
    [new_token_output (Key_serialize key) token_identifier amount] [].

Definition amounts (l : list TransferTokenOutput) : Z := sum_u 128 (tro_amount <$> l).

Definition own_address (key : AddrKey) : SparkAddress :=
  {| identity_public_key := key; network := tsc_network self; spark_invoice_fields := None |}.

Definition output_to_spend (o : Output) : result RpcTokenOutputToSpend Fault :=
  let* hash := required (hex_decode (prev_tx_hash o)) "Invalid prev tx hash" in
  Ok {| rts_prev_token_transaction_hash := hash;
        rts_prev_token_transaction_vout := prev_tx_vout o |}.

Definition receiver_output (o : TransferTokenOutput) : result RpcTokenOutput Fault :=
  let* token_identifier := decode_token_id (tro_token_id o) in
  Ok (new_token_output (Key_serialize (identity_public_key (receiver_address o)))
        token_identifier (tro_amount o)).

(** [receiver_outputs[0]] panics on an empty list. *)
Definition with_change (inputs : list Output) (receiver_outputs : list TransferTokenOutput)
    : M (list TransferTokenOutput) :=
  let inputs_amount := sum_u 128 (amount_of <$> inputs) in
  let outputs_amount := amounts receiver_outputs in
  if outputs_amount <? inputs_amount then
    do* first := se_lift (or_panic (head receiver_outputs)) in
    do* key := of_service signer_identity_key in
    se_ret (receiver_outputs ++ [{| tro_token_id := tro_token_id first;
                                    tro_amount := wsub 128 inputs_amount outputs_amount;
                                    receiver_address := own_address key;
                                    tro_spark_invoice := None |}])
  else se_ret receiver_outputs.

Definition build_transfer_token_transaction (inputs : list Output)
    (receiver_outputs : list TransferTokenOutput) : M RpcTokenTransaction :=
  let inputs := sort_by (λ a b, prev_tx_vout a <=? prev_tx_vout b) inputs in
  do* receiver_outputs := with_change inputs receiver_outputs in
  do* outputs_to_spend := se_lift (collect output_to_spend inputs) in
  do* token_outputs := se_lift (collect receiver_output receiver_outputs) in
  let invoice_attachments := omap tro_spark_invoice receiver_outputs in
  build_token_transaction (RpcTransferInput outputs_to_spend) token_outputs invoice_attachments.

(** ** Starting and committing *)

(** One signature for a creation or a mint, one per input of a transfer. *)
Definition signatures_for (inputs : option RpcTokenInputs) (signature : list Z)
    : result (list SignatureWithIndex) Fault :=
  match inputs with
  | Some (RpcCreateInput _ | RpcMintInput _) =>
      Ok [{| swi_signature := signature; swi_input_index := 0 |}]
  | Some (RpcTransferInput l) =>
      Ok ((λ i, {| swi_signature := signature; swi_input_index := wrap 32 (Z.of_nat i) |})
            <$> seq 0 (length l))
  | None => generic "Token inputs are required"
  end.

Definition guard_or (b : bool) (e : string) : result () Fault :=
  if b then Ok () else generic e.

Definition check_inputs (partial_tx_inputs final_tx_inputs : RpcTokenInputs) : result () Fault :=
  match partial_tx_inputs, final_tx_inputs with
  | RpcCreateInput p, RpcCreateInput f =>
      guard_or (bool_decide (rci_issuer_public_key p = rci_issuer_public_key f))
        "Issuer public key mismatch in create input"
  | RpcMintInput p, RpcMintInput f =>
      let* _ := guard_or (bool_decide (rmi_issuer_public_key p = rmi_issuer_public_key f))
                  "Issuer public key mismatch in mint input" in
      guard_or (bool_decide (rmi_token_identifier p = rmi_token_identifier f))
        "Token identifier mismatch in mint input"
  | RpcTransferInput p, RpcTransferInput f =>
      let* _ := guard_or (length p =? length f)%nat "Outputs to spend mismatch in transfer input" in
      let* _ := collect (λ '(po, fo),
        let* _ := guard_or (bool_decide (rts_prev_token_transaction_hash po
                                         = rts_prev_token_transaction_hash fo))
                    "Prev token transaction hash mismatch in transfer input" in
        guard_or (rts_prev_token_transaction_vout po =? rts_prev_token_transaction_vout fo)
          "Prev token transaction vout mismatch in transfer input") (zip p f) in
      Ok ()
  | _, _ => generic "Unexpected token inputs type"
  end.

(** [if let Some(x) = o && x != expected { error }]. *)
Definition expect_if_given (o : option Z) (expected : Z) : bool :=
  match o with Some x => x =? expected | None => true end.

Definition check_output (partial_output final_output : RpcTokenOutput) : result () Fault :=
  let* _ := guard_or (bool_decide (rto_owner_public_key partial_output = rto_owner_public_key final_output))
              "Owner public key mismatch between partial and final tx" in
  let* _ := guard_or (bool_decide (rto_token_amount partial_output = rto_token_amount final_output))
              "Token amount mismatch between partial and final tx" in
  let* _ := guard_or (expect_if_given (rto_withdraw_bond_sats final_output)
                        (expected_withdraw_bond_sats (tokens_config self)))
              "Unexpected withdraw bond sats in final tx" in
  guard_or (expect_if_given (rto_withdraw_relative_block_locktime final_output)
              (expected_withdraw_relative_block_locktime (tokens_config self)))
    "Unexpected withdraw relative block locktime in final tx".

#[export] Instance ProtoTimestamp_eq_dec : EqDecision ProtoTimestamp.
Proof. solve_decision. Defined.

Definition validate_token_transaction (partial_tx final_tx : RpcTokenTransaction)
    (keyshare : RpcSigningKeyshare) : result () Fault :=
  let* _ := guard_or (rtx_network final_tx =? rtx_network partial_tx)
              "Network mismatch between partial and final transaction" in
  let* partial_tx_inputs := required (rtx_token_inputs partial_tx) "Token inputs missing from partial tx" in
  let* final_tx_inputs := required (rtx_token_inputs final_tx) "Token inputs missing from final tx" in
  let* _ := check_inputs partial_tx_inputs final_tx_inputs in
  let* _ := guard_or (length (rtx_spark_operator_identity_public_keys partial_tx)
                      =? length (rtx_spark_operator_identity_public_keys final_tx))%nat
              "Spark operator identity public keys mismatch between partial and final tx" in
  let* _ := guard_or (length (rtx_token_outputs partial_tx) =? length (rtx_token_outputs final_tx))%nat
              "Token outputs mismatch between partial and final tx" in
  let* _ := collect (λ '(p, f), check_output p f)
              (zip (rtx_token_outputs partial_tx) (rtx_token_outputs final_tx)) in
  let* _ := guard_or (rks_threshold keyshare =? split_secret_threshold self)
              "Unexpected threshold in keyshare info" in
  let* _ := guard_or (length (rks_owner_identifiers keyshare) =? length (all_operators self))%nat
              "Keyshare info owner identifiers amount differs from operators amount" in
  let* _ := collect (λ identifier,
              guard_or (existsb (λ o, String.eqb (hex_encode (op_identifier o)) identifier) (all_operators self))
                "Keyshare info owner identifier not found in operators")
              (rks_owner_identifiers keyshare) in
  let* f := required (rtx_client_created_timestamp final_tx) "Client created timestamp is required" in
  let* p := required (rtx_client_created_timestamp partial_tx) "Client created timestamp is required" in
  guard_or (bool_decide (f = p)) "Client created timestamp mismatch between partial and final tx".

Definition start_transaction (partial_tx : RpcTokenTransaction) : M RpcTokenTransaction :=
  do* partial_tx_hash := se_lift (compute_hash partial_tx true) in
  do* sig := of_service (signer_sign_hash partial_tx_hash) in
  do* owner_signatures :=
    se_lift (signatures_for (rtx_token_inputs partial_tx) (Signature_serialize sig)) in
  do* key := of_service signer_identity_key in
  do* start_response := of_service (rpc_start_transaction
    {| str_identity_public_key := Key_serialize key;
       str_partial_token_transaction := partial_tx;
       str_owner_signatures := owner_signatures;
       str_validity_duration_seconds := transaction_validity_duration_seconds (tokens_config self) |}) in
  do* final_tx := se_lift (required (final_token_transaction start_response)
    "No final transaction returned from start_transaction") in
  do* keyshare := se_lift (required (keyshare_info start_response)
    "No keyshare info returned from start_transaction") in
  do* _ := se_lift (validate_token_transaction partial_tx final_tx keyshare) in
  se_ret final_tx.

Fixpoint create_per_operator_signatures (operators : list TokenOperator) (tx : RpcTokenTransaction)
    (tx_hash : list Z) : M (list InputTtxoSignaturesPerOperator) :=
  match operators with
  | [] => se_ret []
  | operator :: operators =>
      let operator_key := Key_serialize (op_identity_public_key operator) in
      let final_hash := sha256 (sha256 tx_hash ++ sha256 operator_key) in
      do* sig := of_service (signer_sign_hash final_hash) in
      do* signatures := se_lift (signatures_for (rtx_token_inputs tx) (Signature_serialize sig)) in
      do* rest := create_per_operator_signatures operators tx tx_hash in
      se_ret ({| ttxo_signatures := signatures;
                 ttxo_operator_identity_public_key := operator_key |} :: rest)
  end.

Definition commit_transaction (final_tx : RpcTokenTransaction) : M () :=
  do* final_tx_hash := se_lift (compute_hash final_tx false) in
  do* per_operator_signatures :=
    create_per_operator_signatures (all_operators self) final_tx final_tx_hash in
  do* key := of_service signer_identity_key in
  of_service (rpc_commit_transaction
    {| ctr_final_token_transaction := final_tx;
       ctr_final_token_transaction_hash := final_tx_hash;
       ctr_signatures_per_operator := per_operator_signatures;
       ctr_owner_identity_public_key := Key_serialize key |}).

(** ** Transfers *)

(** A panic leaves without settling the reservation. *)
Definition with_reserved {A} (f : M A) (reservation : Reservation) : M A :=
  try* r := f in
  match r with
  | Err Panic => se_fail Panic
  | r => with_reserved_token_outputs (se_lift r) reservation
  end.

(** [receiver_address.to_address_string().ok()]. *)
Definition pay_request_of (o : TransferTokenOutput) : result ReceiverTokenOutput Fault :=
  match to_address_string (receiver_address o) with
  | Err Panic => Err Panic
  | text =>
      let* p := required (match tro_spark_invoice o with
                          | Some i => Some i
                          | None => match text with Ok s => Some s | Err _ => None end
                          end) "No pay request available" in
      Ok {| pay_request := p; rcv_amount := tro_amount o |}
  end.

Definition transfer_tokens_inner (token_id : string) (inputs : list Output)
    (receiver_outputs : list TransferTokenOutput) : M WalletTx :=
  if (MAX_TOKEN_TX_INPUTS <? length inputs)%nat then se_fail (Throw NeededTooManyOutputs)
  else
    do* partial_tx := build_transfer_token_transaction inputs receiver_outputs in
    do* final_tx := start_transaction partial_tx in
    do* hash := se_lift (compute_hash final_tx false) in
    let txid := hex_encode hash in
    do* _ := match before_send_token with
             | Some observe =>
                 do* receivers := se_lift (collect pay_request_of receiver_outputs) in
                 of_service (observe txid token_id receivers)
             | None => se_ret ()
             end in
    do* _ := commit_transaction final_tx in
    se_lift (TokenTransaction_try_from final_tx (tsc_network self)).

(** [enumerate().filter(p).map(..)]: the outputs with their position. *)
Definition with_prev_outs (tx : WalletTx) (p : @TokenOutput AddrKey → bool) : list Output :=
  omap (λ '(vout, o), if p o then Some {| output := o; prev_tx_hash := tt_hash tx;
                                          prev_tx_vout := wrap 32 (Z.of_nat vout) |}
                      else None)
    (imap (λ vout (o : @TokenOutput AddrKey), (vout, o)) (outputs tx)).

Definition per_status_identifier (o : @TokenOutputsPerStatus AddrKey) : string :=
  identifier (per_metadata o).

(** The key is asked for while the arguments of the transfer are evaluated, outside
    [with_reserved_token_outputs]. *)
Fixpoint optimize_each (min_outputs_threshold : Z) (outs : list (@TokenOutputsPerStatus AddrKey)) : M () :=
  match outs with
  | [] => se_ret ()
  | out :: outs =>
      if Z.of_nat (length (available out)) <=? min_outputs_threshold
      then optimize_each min_outputs_threshold outs
      else
        let token_id := per_status_identifier out in
        do* reservation := of_tokens (reserve_token_outputs token_id (MaxOutputCount MAX_TOKEN_TX_INPUTS)
                                        Swap None (Some SmallestFirst)) in
        let reserved := tos_outputs (token_outputs reservation) in
        let amount := sum_u 128 (amount_of <$> reserved) in
        do* key := of_service signer_identity_key in
        do* tx := with_reserved
          (transfer_tokens_inner token_id reserved
             [{| tro_token_id := token_id; tro_amount := amount; receiver_address := own_address key;
                 tro_spark_invoice := None |}]) reservation in
        do* _ := of_tokens (insert_token_outputs
          {| tos_metadata := tos_metadata (token_outputs reservation);
             tos_outputs := with_prev_outs tx (λ _, true) |}) in
        optimize_each min_outputs_threshold outs
  end.

Definition optimize_token_outputs (token_identifier : option string) (min_outputs_threshold : Z) : M () :=
  if min_outputs_threshold <=? 1
  then se_fail (Throw (ValidationError "min_outputs_threshold must be greater than 1"))
  else
    do* outputs := of_tokens list_tokens_outputs in
    let outputs := match token_identifier with
                   | Some id => List.filter (λ o, String.eqb (per_status_identifier o) id) outputs
                   | None => outputs
                   end in
    optimize_each min_outputs_threshold outputs.

(** The loop of [transfer_tokens]; [None] when the fuel is used up. *)
Fixpoint transfer_attempts (fuel attempt preempted_attempt : nat) (token_id : string) (total_amount : Z)
    (receiver_outputs : list TransferTokenOutput) (preferred_outputs : option (list Output))
    (selection_strategy : option SelectionStrategy) : M (option (WalletTx * Reservation)) :=
  match fuel with
  | O => se_ret None
  | S fuel =>
      if (MAX_TRANSFER_TOKEN_TOO_MANY_OUTPUTS_RETRY_ATTEMPTS <=? attempt)%nat
      then se_fail (Throw NeededTooManyOutputs)
      else
        do* reservation := of_tokens (reserve_token_outputs token_id (MinTotalValue total_amount) Payment
                                        preferred_outputs selection_strategy) in
        try* result := with_reserved
          (transfer_tokens_inner token_id (tos_outputs (token_outputs reservation)) receiver_outputs)
          reservation in
        match result with
        | Ok token_transaction => se_ret (Some (token_transaction, reservation))
        | Err (Throw NeededTooManyOutputs as e) =>
            if (attempt <? MAX_TRANSFER_TOKEN_TOO_MANY_OUTPUTS_RETRY_ATTEMPTS - 1)%nat then
              do* _ := optimize_token_outputs (Some token_id) 2 in
              transfer_attempts fuel (S attempt) preempted_attempt token_id total_amount
                receiver_outputs preferred_outputs selection_strategy
            else se_fail e
        | Err (Throw (ServiceConnectionError e) as err) =>
            if is_transaction_preempted_error e &&
               (preempted_attempt <? MAX_TOKEN_PREEMPTED_RETRY_ATTEMPTS - 1)%nat then
              do* _ := refresh_outputs in
              transfer_attempts fuel attempt (S preempted_attempt) token_id total_amount
                receiver_outputs preferred_outputs selection_strategy
            else se_fail err
        | Err e => se_fail e
        end
  end.

Definition transfer_tokens (fuel : nat) (receiver_outputs : list TransferTokenOutput)
    (preferred_outputs : option (list Output)) (selection_strategy : option SelectionStrategy)
    : M (option WalletTx) :=
  match receiver_outputs with
  | [] => fail_generic "No receiver outputs provided"
  | first :: _ =>
      let token_id := tro_token_id first in
      if existsb (λ o, negb (String.eqb (tro_token_id o) token_id)) receiver_outputs
      then fail_generic "All receiver outputs must have the same token id"
      else
        let total_amount := amounts receiver_outputs in
        do* done := transfer_attempts fuel 0 0 token_id total_amount receiver_outputs
                      preferred_outputs selection_strategy in
        match done with
        | None => se_ret None
        | Some (token_transaction, reservation) =>
            do* identity_public_key := of_service signer_identity_key in
            do* _ := of_tokens (insert_token_outputs
              {| tos_metadata := tos_metadata (token_outputs reservation);
                 tos_outputs := with_prev_outs token_transaction
                   (λ o, bool_decide (owner_public_key o = identity_public_key)) |}) in
            se_ret (Some token_transaction)
        end
  end.

(** ** The issuer's operations *)

Definition finish_transaction (partial_tx : RpcTokenTransaction) : M WalletTx :=
  do* final_tx := start_transaction partial_tx in
  do* _ := commit_transaction final_tx in
  se_lift (TokenTransaction_try_from final_tx (tsc_network self)).

Definition create_issuer_token (name ticker : string) (decimals : Z) (is_freezable : bool) (max_supply : Z)
    : M WalletTx :=
  try* existing := get_issuer_token_metadata in
  match existing with
  | Ok _ => fail_generic "Issuer token already exists"
  | Err Panic => se_fail Panic
  | Err _ =>
      do* _ := se_lift (validate_create_token_params name ticker decimals) in
      do* partial_tx := build_create_token_transaction name ticker decimals is_freezable max_supply in
      finish_transaction partial_tx
  end.

Definition mint_issuer_token (amount : Z) : M WalletTx :=
  do* issuer_token_metadata := get_issuer_token_metadata in
  do* partial_tx := build_mint_token_transaction (identifier issuer_token_metadata) amount in
  finish_transaction partial_tx.

Definition burn_issuer_token (fuel : nat) (amount : Z) (preferred_outputs : option (list Output))
    (selection_strategy : option SelectionStrategy) : M (option WalletTx) :=
  do* burn_public_key :=
    se_lift (map_err (λ _, Throw InvalidPublicKey) (Key_from_slice BURN_PUBLIC_KEY)) in
  do* metadata := get_issuer_token_metadata in
  transfer_tokens fuel [{| tro_token_id := identifier metadata;
                           tro_amount := amount;
                           receiver_address := own_address burn_public_key;
                           tro_spark_invoice := None |}]
    preferred_outputs selection_strategy.

Fixpoint freeze_requests (operators : list TokenOperator) (owner_public_key token_identifier : list Z)
    (should_unfreeze : bool) (timestamp : Z) : M (list FreezeIssuerTokenRequest) :=
  match operators with
  | [] => se_ret []
  | operator :: operators =>
      let payload := {| fzp_version := 1;
                        fzp_owner_public_key := owner_public_key;
                        fzp_token_public_key := None;
                        fzp_token_identifier := Some token_identifier;
                        fzp_issuer_provided_timestamp := timestamp;
                        fzp_operator_identity_public_key := Key_serialize (op_identity_public_key operator);
                        fzp_should_unfreeze := should_unfreeze |} in
      do* sig := of_service (signer_sign_hash (hash_freeze_tokens_payload payload)) in
      do* rest := freeze_requests operators owner_public_key token_identifier should_unfreeze timestamp in
      se_ret ({| freeze_tokens_payload := payload; issuer_signature := Signature_serialize sig |} :: rest)
  end.

Definition FreezeIssuerTokenResponse_try_from (response : RpcFreezeIssuerTokenResponse)
    : result FreezeIssuerTokenResponse Fault :=
  let* amount := map_err (λ _, Throw (SE_Generic "Invalid impacted token amount"))
                   (from_unpadded_be_bytes (rfr_impacted_token_amount response)) in
  Ok {| impacted_output_ids := rfr_impacted_output_ids response; impacted_token_amount := amount |}.

Definition freeze_issuer_token (spark_address : SparkAddress) (should_unfreeze : bool)
    : M FreezeIssuerTokenResponse :=
  let owner := Key_serialize (identity_public_key spark_address) in
  do* token_metadata := get_issuer_token_metadata in
  if negb (is_freezable token_metadata) then fail_generic "Issuer token is not freezable"
  else
    do* token_identifier :=
      se_lift (map_err (λ e, Throw (SE_Generic e))
                 (bech32m_decode_token_id (identifier token_metadata) (Some (tsc_network self)))) in
    do* now := of_service system_now in
    do* issuer_provided_timestamp :=
      se_lift (required (if now <? 0 then None else Some (as_u64 (now / 1000000)))
                 "issuer_provided_timestamp is before UNIX_EPOCH") in
    do* requests := freeze_requests (all_operators self) owner token_identifier should_unfreeze
                      issuer_provided_timestamp in
    do* responses := of_service (rpc_freeze_tokens requests) in
    do* response := se_lift (required (head responses) "No response from freeze tokens request") in
    se_lift (FreezeIssuerTokenResponse_try_from response).
End service.
