(* ===== verification/TokenTransfersProps.v ===== *)
(** What the token service promises ([TokenTransfers]): the transactions it commits spend the
    reserved outputs and pay the amounts asked with the change to the wallet, a transfer is
    committed with success at most once, reservations are settled, and the retries end.

    Runs are observed through a log of reservations, commitments and settlements, with the
    logic of [Traces]. *)
From stdpp Require Import base list strings sorting.
From S2P Require Import Prelude Traces Timelocks TreeTypes Transactions Bytes Payments PaymentSync TokenStore TokenService Addresses AddressesProps TokenTx TokenTransfers.

(** ** Observations *)

Section events.
Context {ao : AddressOps}.

Inductive TokenEvent : Type :=
| Reserved (r : @TokenOutputsReservation AddrKey)
| Committed (req : CommitTransactionRequest)
| Settled (id : string) (finalized : bool).
End events.

Class TokenLog {ao : AddressOps} (W : Type) := {
  token_log :: Log W TokenEvent;
  (** The key of the signer. *)
  identity : AddrKey
}.

(** What the collaborators add. *)
Class TokenLogLaws {ex : Externals} {ao : AddressOps} (W : Type)
    {ts : TokenStoreOps AddrKey ForeignError W} {tn : TokenNetwork AddrKey ForeignError W}
    {top : TokenOperators W} {tl : TokenLog W} : Prop := {
  log_reserve token_id target p pref strategy :
    emits (ts_reserve token_id target p pref strategy)
      (λ r l, l = match r with Ok r => [Reserved r] | Err _ => [] end);
  log_finalize id : emits (ts_finalize id) (λ _ l, l = [Settled id true]);
  log_cancel id : emits (ts_cancel id) (λ _ l, l = [Settled id false]);
  log_commit req : emits (rpc_commit_transaction req) (λ _ l, l = [Committed req]);
  log_identity : emits signer_identity_key (λ r l, l = [] ∧ ∀ k, r = Ok k → k = identity);
  quiet_set t n : quiet (ts_set t n);
  quiet_list : quiet ts_list;
  quiet_get f : quiet (ts_get f);
  quiet_insert t : quiet (ts_insert t);
  quiet_store_now : quiet ts_now;
  quiet_query_all : quiet net_query_all;
  quiet_query_metadata ids : quiet (net_query_metadata ids);
  quiet_sleep w : log (net_sleep_one_second w) = log w;
  quiet_sign h : quiet (signer_sign_hash h);
  quiet_start req : quiet (rpc_start_transaction req);
  quiet_metadata ids keys : quiet (rpc_query_token_metadata ids keys);
  quiet_observer f a b c : before_send_token = Some f → quiet (f a b c);
  quiet_now : quiet system_now
}.

#[export] Hint Resolve quiet_set quiet_list quiet_get quiet_insert quiet_store_now quiet_query_all
  quiet_query_metadata quiet_sign quiet_start quiet_metadata quiet_now : quiet.

Section calls.
Context {ex : Externals} {ao : AddressOps} {tt : TokenTextOps} {ho : HashOrder} {W : Type}
  {ts : TokenStoreOps AddrKey ForeignError W} {tn : TokenNetwork AddrKey ForeignError W}
  {top : TokenOperators W} {tl : TokenLog W} {ll : TokenLogLaws W}.
Context (self : TokenServiceConfig).

Lemma quiet_identity : quiet (of_service signer_identity_key).
Proof. apply quiet_map_err. eapply emits_conseq; [apply log_identity|]. by intros r l [-> _]. Qed.

Lemma identity_bind {B} (k : AddrKey → SE W (exn TreeTypes.ServiceError) B) Q :
  (∀ e, Q (Err e) []) → emits (k identity) Q → emits (se_bind (of_service signer_identity_key) k) Q.
Proof.
  intros He Hk. apply emits_bind, emits_map_err. eapply emits_conseq; [apply log_identity|].
  intros [key|e] l [-> Hkey]; simpl; [by rewrite (Hkey key)|apply He].
Qed.

Lemma quiet_refresh : quiet refresh_tokens_outputs.
Proof. unfold refresh_tokens_outputs. solve_quiet. Qed.

(** ** Reservations *)

Lemma reserve_attempts_log attempts token_id target p pref strategy :
  emits (reserve_attempts attempts token_id target p pref strategy)
    (λ r l, l = match r with Ok (Some r) => [Reserved r] | _ => [] end).
Proof.
  induction attempts as [|attempts IH]; simpl; [by apply emits_ret|].
  apply emits_try. eapply emits_conseq; [apply log_reserve|]. intros [r|e] l ->.
  { apply emits_ret. done. }
  apply quiet_bind; [apply quiet_refresh|done|intros _].
  apply quiet_bind; [solve_quiet|done|intros per].
  destruct (match target with MinTotalValue _ => _ | _ => _ end); [by apply emits_ret|].
  apply quiet_bind; [|done|intros _; exact IH].
  intros w w' r [= <- <-]. exists []. rewrite app_nil_r. split; [|done].
  case_bool_decide; [done|]. apply quiet_sleep.
Qed.

Lemma reserve_log token_id target p pref strategy :
  emits (of_tokens (reserve_token_outputs token_id target p pref strategy))
    (λ r l, l = match r with Ok r => [Reserved r] | Err _ => [] end).
Proof.
  apply emits_map_err, emits_bind. eapply emits_conseq; [apply reserve_attempts_log|].
  intros [[r|]|e] l ->; [by apply emits_lift..|done].
Qed.

(** Whatever the operation adds, its reservation is settled by its outcome, unless it panics. *)
Lemma with_reserved_log {A} (f : SE W (exn TreeTypes.ServiceError) A) reservation Q :
  emits f Q →
  emits (with_reserved f reservation) (λ r l, ∃ l1, Q r l1 ∧
    l = l1 ++ match r with
              | Ok _ => [Settled (tor_id reservation) true]
              | Err Panic => []
              | Err (Throw _) => [Settled (tor_id reservation) false]
              end).
Proof.
  intros Hf. apply emits_try. eapply emits_conseq; [exact Hf|]. intros r l HQ.
  unfold with_reserved_token_outputs.
  destruct r as [a|[|e]]; simpl; [|apply emits_fail; eauto|];
    apply emits_try, emits_lift, emits_try;
    (eapply emits_conseq; [first [apply log_finalize|apply log_cancel]|]); intros r l' ->;
    [apply emits_ret|apply emits_fail]; by eauto.
Qed.

(** A call that adds nothing and returns what [P] says. *)
Definition yields {E A} (m : SE W E A) (P : A → Prop) : Prop :=
  emits m (λ r l, l = [] ∧ ∀ a, r = Ok a → P a).

Lemma yields_bind {E A B} (m : SE W E A) (k : A → SE W E B) (P : A → Prop) Q :
  yields m P → (∀ e, Q (Err e) []) → (∀ a, P a → emits (k a) Q) → emits (se_bind m k) Q.
Proof.
  intros Hm He Hk. apply emits_bind. eapply emits_conseq; [exact Hm|].
  intros [a|e] l [-> HP]; [by apply Hk, HP|apply He].
Qed.

Lemma yields_quiet {E A} (m : SE W E A) (P : A → Prop) : yields m P → quiet m.
Proof. intros Hm. eapply emits_conseq; [exact Hm|]. by intros r l [-> _]. Qed.

Lemma yields_ret {E A} (a : A) (P : A → Prop) : P a → yields (E := E) (se_ret a) P.
Proof. intros HP. apply emits_ret. split; [done|]. by intros a' [= <-]. Qed.

(** ** What is built *)

Abbreviation Output := (@TokenOutputWithPrevOut AddrKey).

(** Receivers and amounts. *)
Definition asked_of (l : list TransferTokenOutput) : list (AddrKey * Z) :=
  (λ o, (identity_public_key (receiver_address o), tro_amount o)) <$> l.

(** What the outputs are to be: what is asked, and the rest back to the wallet. *)
Definition expected (inputs : list Output) (asked : list (AddrKey * Z)) : list (AddrKey * Z) :=
  let reserved := sum_u 128 (amount_of <$> inputs) in
  let wanted := sum_u 128 asked.*2 in
  asked ++ (if wanted <? reserved then [(identity, wsub 128 reserved wanted)] else []).

Definition by_vout : list Output → list Output := sort_by (λ a b, prev_tx_vout a <=? prev_tx_vout b).

Definition spends_output (o : Output) (s : RpcTokenOutputToSpend) : Prop :=
  hex_decode (prev_tx_hash o) = Some (rts_prev_token_transaction_hash s) ∧
  rts_prev_token_transaction_vout s = prev_tx_vout o.

Definition pays (x : AddrKey * Z) (o : RpcTokenOutput) : Prop :=
  rto_owner_public_key o = Key_serialize x.1 ∧ rto_token_amount o = to_be_bytes 16 x.2.

Record transfer_of (inputs : list Output) (asked : list (AddrKey * Z)) (tx : RpcTokenTransaction) : Prop := {
  tf_network : rtx_network tx = to_proto_network (tsc_network self);
  tf_inputs : ∃ spends, rtx_token_inputs tx = Some (RpcTransferInput spends) ∧
                Forall2 spends_output (by_vout inputs) spends;
  tf_outputs : Forall2 pays (expected inputs asked) (rtx_token_outputs tx)
}.

(** The outputs are of the token that is asked for. *)
Definition of_token (token : string) (outs : list TransferTokenOutput) : Prop :=
  Forall (λ o, tro_token_id o = token) outs.

Definition asks_token (token : string) (tx : RpcTokenTransaction) : Prop :=
  Forall (λ o, ∃ raw, decode_token_id self token = Ok raw ∧ rto_token_identifier o = Some raw) (rtx_token_outputs tx).

Lemma collect_Forall2 {A B Er} (f : A → result B Er) l bs :
  collect f l = Ok bs → Forall2 (λ a b, f a = Ok b) l bs.
Proof.
  revert bs. induction l as [|a l IH]; intros bs; simpl; [intros [= <-]; constructor|].
  intros (b & Hb & (bs' & Hbs & [= <-])%rbind_ok)%rbind_ok. constructor; [done|by apply IH].
Qed.

Lemma collect_zip {A B Er} (chk : A → B → result () Er) l1 l2 us :
  collect (λ '(a, b), chk a b) (zip l1 l2) = Ok us → length l1 = length l2 →
  Forall2 (λ a b, chk a b = Ok ()) l1 l2.
Proof.
  revert l2 us. induction l1 as [|a l1 IH]; intros [|b l2] us; simpl; [constructor|done..|].
  intros ([] & Hc & (us' & Hus & _)%rbind_ok)%rbind_ok [= Hl]. constructor; [done|by eapply IH].
Qed.

Lemma guard_or_ok b e : guard_or b e = Ok () → b = true.
Proof. by destruct b. Qed.

Lemma amounts_asked l : amounts l = sum_u 128 (asked_of l).*2.
Proof. unfold amounts, asked_of. by rewrite <- list_fmap_compose. Qed.

Lemma with_change_yields inputs outs :
  yields (with_change self inputs outs) (λ outs',
    asked_of outs' = expected inputs (asked_of outs) ∧ ∀ token, of_token token outs → of_token token outs').
Proof.
  unfold with_change, expected. rewrite amounts_asked. case_match eqn:Hc.
  - apply lift_bind; [done|intros first Hfirst]. apply identity_bind; [done|].
    apply yields_ret. split; [unfold asked_of; by rewrite fmap_app|]. intros token Htoken.
    apply Forall_app. split; [exact Htoken|]. apply Forall_singleton. simpl. unfold of_token in Htoken.
    destruct outs as [|o outs]; [done|]. injection Hfirst as <-. by inversion Htoken.
  - apply yields_ret. by rewrite app_nil_r.
Qed.

Lemma build_token_transaction_yields inputs outs invoices :
  yields (build_token_transaction self inputs outs invoices) (λ tx,
    rtx_network tx = to_proto_network (tsc_network self) ∧
    rtx_token_inputs tx = Some inputs ∧ rtx_token_outputs tx = outs).
Proof.
  apply quiet_bind; [apply quiet_map_err, quiet_now|done|intros now].
  apply lift_bind; [done|intros t _]. by apply yields_ret.
Qed.

Lemma build_transfer_yields inputs outs :
  yields (build_transfer_token_transaction self inputs outs) (λ partial,
    transfer_of inputs (asked_of outs) partial ∧ ∀ token, of_token token outs → asks_token token partial).
Proof.
  unfold build_transfer_token_transaction. fold by_vout. cbv zeta.
  eapply yields_bind; [apply with_change_yields|done|intros outs' [Hout Htokens]].
  apply lift_bind; [done|intros spends Hspends]. apply lift_bind; [done|intros rpc_outs Hrpc].
  eapply emits_conseq; [apply build_token_transaction_yields|].
  intros r l [-> H]. split; [done|]. intros tx ->. destruct (H tx eq_refl) as (Hn & Hi & Ho).
  apply collect_Forall2 in Hrpc. split; [split; [done| |]|].
  - exists spends. split; [done|]. apply collect_Forall2 in Hspends.
    eapply Forall2_impl; [exact Hspends|]. intros o s (h & Hh%ok_or_ok & [= <-])%rbind_ok. done.
  - rewrite Ho. assert (expected (by_vout inputs) (asked_of outs) = expected inputs (asked_of outs)) as He.
    { unfold expected, by_vout. by rewrite (sum_u_perm 128 _ _ ltac:(lia) (fmap_Permutation _ _ _ (sort_by_perm _ _))). }
    rewrite <- He, <- Hout. apply Forall2_fmap_l.
    eapply Forall2_impl; [exact Hrpc|]. intros o s (t & _ & [= <-])%rbind_ok. done.
  - intros token Htoken%Htokens. unfold asks_token. rewrite Ho. clear -Hrpc Htoken. unfold of_token in Htoken.
    induction Hrpc as [|o s l k (t & Ht & [= <-])%rbind_ok Hrpc IH]; constructor;
      inversion_clear Htoken as [|? ? Hid Hrest]; [|by apply IH]. rewrite Hid in Ht. by exists t.
Qed.

(** ** What is accepted *)

Lemma check_inputs_transfer spends final_inputs :
  check_inputs (RpcTransferInput spends) final_inputs = Ok () → final_inputs = RpcTransferInput spends.
Proof.
  destruct final_inputs as [m|l|c]; simpl; [done| |done].
  intros ([] & Hl%guard_or_ok & (us & Hus & _)%rbind_ok)%rbind_ok. apply Nat.eqb_eq in Hl. f_equal.
  apply (collect_zip (λ po fo, rbind (guard_or (bool_decide (rts_prev_token_transaction_hash po
    = rts_prev_token_transaction_hash fo)) _) (λ _, guard_or _ _)) spends l us) in Hus; [|done].
  clear Hl. induction Hus as [|[h v] [h' v'] l1 l2 Hc Hus IH]; [done|].
  apply rbind_ok in Hc as ([] & Hh%guard_or_ok & Hv%guard_or_ok). simpl in *.
  apply bool_decide_eq_true in Hh. apply Z.eqb_eq in Hv. by subst.
Qed.

Lemma validate_transfer inputs asked partial final keyshare :
  transfer_of inputs asked partial →
  validate_token_transaction self partial final keyshare = Ok () →
  transfer_of inputs asked final.
Proof.
  intros [Hn (spends & Hi & Hs) Ho] Hv. unfold validate_token_transaction in Hv.
  apply rbind_ok in Hv as ([] & Hnet%guard_or_ok & Hv). apply Z.eqb_eq in Hnet.
  rewrite Hi in Hv. simpl in Hv. apply rbind_ok in Hv as (fi & Hfi%ok_or_ok & Hv).
  apply rbind_ok in Hv as ([] & Hci%check_inputs_transfer & Hv). subst fi.
  apply rbind_ok in Hv as ([] & _ & Hv). apply rbind_ok in Hv as ([] & Hl%guard_or_ok & Hv).
  apply Nat.eqb_eq in Hl. apply rbind_ok in Hv as (us & Hus & _).
  apply collect_zip in Hus; [|done].
  split; [congruence|by exists spends|]. clear Hl. revert Hus. generalize (rtx_token_outputs final).
  induction Ho as [|x o l1 l2 [Hown Ham] Ho IH]; intros l Hus; inversion_clear Hus as [|? f ? fs Hc Hus']; constructor.
  - apply rbind_ok in Hc as ([] & Hk%guard_or_ok & Hc). apply rbind_ok in Hc as ([] & Ha%guard_or_ok & _).
    apply bool_decide_eq_true in Hk, Ha. split; congruence.
  - by apply IH.
Qed.

Lemma start_transaction_yields inputs asked partial :
  transfer_of inputs asked partial → yields (start_transaction self partial) (transfer_of inputs asked).
Proof.
  intros Hp. unfold start_transaction.
  apply lift_bind; [done|intros hash _].
  apply quiet_bind; [apply quiet_map_err, quiet_sign|done|intros sig].
  apply lift_bind; [done|intros sigs _].
  apply quiet_bind; [apply quiet_identity|done|intros key].
  apply quiet_bind; [apply quiet_map_err, quiet_start|done|intros response].
  apply lift_bind; [done|intros final _]. apply lift_bind; [done|intros keyshare _].
  apply lift_bind; [done|intros [] Hv]. apply yields_ret. by eapply validate_transfer.
Qed.

(** A request to commit such a transaction: its hash, a signature for every operator. *)
Record commits (tx : RpcTokenTransaction) (req : CommitTransactionRequest) : Prop := {
  cm_tx : ctr_final_token_transaction req = tx;
  cm_hash : compute_hash tx false = Ok (ctr_final_token_transaction_hash req);
  cm_operators : ttxo_operator_identity_public_key <$> ctr_signatures_per_operator req
                 = get_operator_identity_public_keys self;
  cm_owner : ctr_owner_identity_public_key req = Key_serialize identity
}.

Lemma per_operator_yields ops tx hash :
  yields (create_per_operator_signatures ops tx hash) (λ sigs,
    ttxo_operator_identity_public_key <$> sigs = (λ o, Key_serialize (op_identity_public_key o)) <$> ops).
Proof.
  induction ops as [|o ops IH]; simpl; [by apply yields_ret|].
  apply quiet_bind; [apply quiet_map_err, quiet_sign|done|intros sig].
  apply lift_bind; [done|intros sigs _]. eapply yields_bind; [exact IH|done|intros rest Hr].
  apply yields_ret. rewrite fmap_cons. simpl. by rewrite Hr.
Qed.

Lemma commit_transaction_log tx :
  emits (commit_transaction self tx) (λ r l, ∃ c, l = option_list (Committed <$> c) ∧
    from_option (commits tx) True c ∧ (r = Ok () → is_Some c)).
Proof.
  apply lift_bind; [by exists None|intros hash Hh].
  eapply yields_bind; [apply per_operator_yields|by exists None|intros sigs Hs].
  apply identity_bind; [by exists None|]. apply emits_map_err.
  eapply emits_conseq; [apply log_commit|]. intros r l ->.
  eexists (Some _). split_and!; [done| |by eauto]. by split.
Qed.

(** ** Transfers *)

Abbreviation Tx := (@TokenTransaction token_types).

(** What a transfer commits, if it gets there: the operators were asked to complete a transaction
    that pays what is asked in this token, and the one they returned pays the same amounts to the
    same owners; its tokens are theirs to choose ([validation_ignores_tokens]). *)
Definition commit_pays (token : string) (inputs : list Output) (asked : list (AddrKey * Z))
    (req : CommitTransactionRequest) : Prop :=
  ∃ tx partial w w', commits tx req ∧ transfer_of inputs asked tx ∧
    transfer_of inputs asked partial ∧ asks_token token partial ∧ start_transaction self partial w = (w', Ok tx).

Definition converts (req : CommitTransactionRequest) (tx : Tx) : Prop :=
  TokenTransaction_try_from (ctr_final_token_transaction req) (tsc_network self) = Ok tx.

Lemma transfer_inner_log token token_id inputs outs :
  of_token token outs →
  emits (transfer_tokens_inner self token_id inputs outs) (λ r l, ∃ c,
    l = option_list (Committed <$> c) ∧ from_option (commit_pays token inputs (asked_of outs)) True c ∧
    ∀ tx, r = Ok tx → ∃ req, c = Some req ∧ converts req tx).
Proof.
  intros Htoken. unfold transfer_tokens_inner. case_match; [apply emits_fail; by exists None|].
  eapply yields_bind; [apply build_transfer_yields|by exists None|intros partial [Hp Hasks%(λ H, H token Htoken)]].
  eapply emits_run; [by apply start_transaction_yields|by intros e l [-> _]; exists None|].
  intros final l w0 w1 [-> Hf] Hstart. specialize (Hf final eq_refl). simpl app.
  assert (∀ req, commits final req → commit_pays token inputs (asked_of outs) req) as Hpays
    by (intros req Hreq; by exists final, partial, w0, w1).
  apply lift_bind; [by exists None|intros hash _]. cbv zeta.
  apply quiet_bind; [|by exists None|intros _].
  { destruct before_send_token as [observe|] eqn:Hob; [|apply quiet_ret].
    apply quiet_bind; [apply quiet_lift|done|intros l]. apply quiet_map_err. by eapply quiet_observer. }
  apply emits_bind. eapply emits_conseq; [apply commit_transaction_log|].
  intros [[]|e] l (c & -> & Hc & Hs); [|exists c; destruct c as [req|]; simpl in *; split_and!; [done|by apply Hpays|done|done..]].
  destruct Hs as [req ->]; [done|]. simpl in Hc. apply emits_lift. exists (Some req).
  split_and!; [done|by apply Hpays|]. intros tx Htx. exists req. split; [done|].
  unfold converts. by rewrite (cm_tx _ _ Hc).
Qed.

(** ** Rounds

    A reservation with what became of it: for the payment or to consolidate outputs, the
    commitment that was sent, how it was settled ([None]: not at all). *)
Record Round : Type := {
  rd_payment : bool;
  rd_reservation : @TokenOutputsReservation AddrKey;
  rd_commit : option CommitTransactionRequest;
  rd_end : option bool
}.

Definition reserved_outputs (rd : Round) : list Output := tos_outputs (token_outputs (rd_reservation rd)).

Definition round_events (rd : Round) : list TokenEvent :=
  Reserved (rd_reservation rd) :: option_list (Committed <$> rd_commit rd) ++
  option_list (Settled (tor_id (rd_reservation rd)) <$> rd_end rd).

(** A consolidation sends all it reserved to the wallet. *)
Definition round_asked (asked : list (AddrKey * Z)) (rd : Round) : list (AddrKey * Z) :=
  if rd_payment rd then asked else [(identity, sum_u 128 (amount_of <$> reserved_outputs rd))].

Definition round_ok (token : string) (asked : list (AddrKey * Z)) (rd : Round) : Prop :=
  from_option (commit_pays token (reserved_outputs rd) (round_asked asked rd)) True (rd_commit rd) ∧
  (rd_end rd = Some true → is_Some (rd_commit rd)).

Definition settled (rd : Round) : Prop := is_Some (rd_end rd).

(** After a success every reservation is settled; after an error all but the last. *)
Definition tidy {A} (rounds : list Round) (r : result A (exn TreeTypes.ServiceError)) : Prop :=
  match r with
  | Ok _ => Forall settled rounds
  | Err _ => ∃ init last, rounds = init ++ option_list last ∧ Forall settled init
  end.

(** What the rounds of a computation add to the log. *)
Definition in_rounds {A} (m : SE W (exn TreeTypes.ServiceError) A) token asked
    (P : result A (exn TreeTypes.ServiceError) → list Round → Prop) : Prop :=
  emits m (λ r l, ∃ rounds, l = mjoin (round_events <$> rounds) ∧ Forall (round_ok token asked) rounds ∧
                    tidy rounds r ∧ P r rounds).

(** One reservation around a transfer. *)
Lemma with_reserved_round payment token token_id reservation outs asked :
  of_token token outs →
  round_asked asked {| rd_payment := payment; rd_reservation := reservation; rd_commit := None; rd_end := None |}
    = asked_of outs →
  emits (with_reserved (transfer_tokens_inner self token_id (tos_outputs (token_outputs reservation)) outs) reservation)
    (λ r l, ∃ c e, let rd := {| rd_payment := payment; rd_reservation := reservation; rd_commit := c; rd_end := e |} in
      Reserved reservation :: l = round_events rd ∧ round_ok token asked rd ∧
      match r with
      | Ok tx => e = Some true ∧ ∃ req, c = Some req ∧ converts req tx
      | Err Panic => e = None
      | Err (Throw _) => e = Some false
      end).
Proof.
  intros Htoken Ha. eapply emits_conseq; [by apply with_reserved_log, (transfer_inner_log token)|].
  intros r l (l1 & (c & -> & Hc & Htx) & ->).
  exists c, match r with Ok _ => Some true | Err Panic => None | Err (Throw _) => Some false end.
  unfold round_events, round_ok. cbn [rd_reservation rd_commit rd_end].
  change (round_asked asked _) with (round_asked asked {| rd_payment := payment;
    rd_reservation := reservation; rd_commit := None; rd_end := None |}).
  rewrite Ha. split_and!.
  - by destruct r as [?|[]].
  - done.
  - intros He. destruct r as [tx|[|?]]; [|done..]. destruct (Htx tx eq_refl) as (req & -> & _). by eexists.
  - destruct r as [tx|[|?]]; [|done..]. split; [done|]. by apply Htx.
Qed.

Lemma tidy_cons {A} rd rounds (r : result A (exn TreeTypes.ServiceError)) :
  settled rd → tidy rounds r → tidy (rd :: rounds) r.
Proof.
  intros Hrd. destruct r as [a|e]; simpl; [by constructor|].
  intros (init & last & -> & Hi). exists (rd :: init), last. by split; [|constructor].
Qed.

Lemma tidy_app {A} rounds1 rounds2 (r : result A (exn TreeTypes.ServiceError)) :
  Forall settled rounds1 → tidy rounds2 r → tidy (rounds1 ++ rounds2) r.
Proof. induction 1 as [|rd l Hrd Hl IH]; simpl; [done|]. intros Ht. by apply tidy_cons, IH. Qed.

Lemma tidy_nil_err {A} (e : exn TreeTypes.ServiceError) : tidy (A := A) [] (Err e).
Proof. by exists [], None. Qed.

Lemma tidy_last {A} rd (e : exn TreeTypes.ServiceError) : tidy (A := A) [rd] (Err e).
Proof. by exists [], (Some rd). Qed.

Lemma no_rounds {A} token asked (P : list Round → Prop) e :
  P [] →
  ∃ rounds, [] = mjoin (round_events <$> rounds) ∧ Forall (round_ok token asked) rounds ∧
    tidy rounds (Err (A := A) e) ∧ P rounds.
Proof. intros HP. exists []. split_and!; [done|done|apply tidy_nil_err|done]. Qed.

Lemma one_round {A} token asked (P : list Round → Prop) e rd :
  round_ok token asked rd → P [rd] →
  ∃ rounds, round_events rd = mjoin (round_events <$> rounds) ∧ Forall (round_ok token asked) rounds ∧
    tidy rounds (Err (A := A) e) ∧ P rounds.
Proof.
  intros Hok HP. exists [rd]. split_and!; [|by apply Forall_singleton|apply tidy_last|done].
  simpl. by rewrite app_nil_r.
Qed.

Lemma optimize_each_rounds token asked threshold outs :
  Forall (λ o, per_status_identifier o = token) outs →
  in_rounds (optimize_each self threshold outs) token asked (λ _ rounds, Forall (λ rd, rd_payment rd = false) rounds).
Proof.
  induction 1 as [|out outs Hid _ IH]; simpl.
  { apply emits_ret. exists []. split_and!; [done|constructor..]. }
  case_match; [exact IH|]. apply emits_bind. eapply emits_conseq; [apply reserve_log|].
  intros [reservation|e] l ->; [|by apply no_rounds].
  apply identity_bind.
  { intros e. apply (one_round _ _ _ _ {| rd_payment := false; rd_reservation := reservation;
      rd_commit := None; rd_end := None |}); [done|by apply Forall_singleton]. }
  apply emits_bind. eapply emits_conseq.
  { eapply (with_reserved_round false token _ reservation); [by apply Forall_singleton|reflexivity]. }
  intros r l (c & e & Hev & Hok & Hr).
  set (rd := {| rd_payment := false; rd_reservation := reservation; rd_commit := c; rd_end := e |}) in *.
  destruct r as [tx|err]; [|change ([Reserved reservation] ++ l) with (Reserved reservation :: l);
    rewrite Hev; apply one_round; [done|by apply Forall_singleton]].
  destruct Hr as [He _]. assert (settled rd) as Hsd by (unfold settled; simpl; by rewrite He).
  apply quiet_bind; [apply quiet_map_err, quiet_insert| |intros []].
  - intros err. rewrite app_nil_r. change ([Reserved reservation] ++ l) with (Reserved reservation :: l).
    rewrite Hev. apply one_round; [done|by apply Forall_singleton].
  - eapply emits_conseq; [exact IH|]. intros r l2 (rounds & -> & Hall & Ht & Hp).
    exists (rd :: rounds). split_and!; [|by constructor|by apply tidy_cons|by constructor].
    rewrite fmap_cons. cbn [mjoin list_join]. by rewrite <- Hev.
Qed.

Lemma optimize_rounds token asked threshold :
  in_rounds (optimize_token_outputs self (Some token) threshold) token asked
    (λ _ rounds, Forall (λ rd, rd_payment rd = false) rounds).
Proof.
  unfold optimize_token_outputs. case_match; [by apply emits_fail, no_rounds|].
  apply quiet_bind; [apply quiet_map_err, quiet_list|intros e; by apply no_rounds|intros outs; apply optimize_each_rounds].
  apply Forall_forall. intros o Ho. apply elem_of_bfilter in Ho as [_ Ho]. by apply String.eqb_eq.
Qed.

(** ** The whole transfer *)

Definition payments (rounds : list Round) : list Round := List.filter rd_payment rounds.

(** Every payment round but the last was cancelled; the last is the one that won. *)
Definition paid_once (won : option Tx) (rounds : list Round) : Prop :=
  ∃ before last, payments rounds = before ++ option_list last ∧
    Forall (λ rd, rd_end rd = Some false) before ∧
    ∀ tx, won = Some tx → ∃ rd req, last = Some rd ∧ rd_end rd = Some true ∧
      rd_commit rd = Some req ∧ converts req tx.

Definition at_most (n : nat) (rounds : list Round) : Prop := (length (payments rounds) ≤ n)%nat.

Lemma no_payments rounds : Forall (λ rd, rd_payment rd = false) rounds → payments rounds = [].
Proof. induction 1 as [|rd rounds Hrd Hall IH]; [done|]. unfold payments. simpl. by rewrite Hrd. Qed.

Lemma payments_after rd rounds1 rounds2 :
  rd_payment rd = true → Forall (λ rd, rd_payment rd = false) rounds1 →
  payments (rd :: rounds1 ++ rounds2) = rd :: payments rounds2.
Proof.
  intros Hp Hn%no_payments. unfold payments in *. simpl. by rewrite Hp, List.filter_app, Hn.
Qed.

(** After a cancelled payment round and rounds that consolidate. *)
Lemma paid_once_after won rd rounds1 rounds2 n :
  rd_payment rd = true → rd_end rd = Some false → Forall (λ rd, rd_payment rd = false) rounds1 →
  paid_once won rounds2 ∧ at_most n rounds2 →
  paid_once won (rd :: rounds1 ++ rounds2) ∧ at_most (S n) (rd :: rounds1 ++ rounds2).
Proof.
  intros Hp He H1 [(before & last & Hpay & Hb & Hw) Hn]. unfold paid_once, at_most in *.
  rewrite payments_after by done. split; [|simpl; lia].
  exists (rd :: before), last. rewrite Hpay. split; [done|]. by split; [constructor|].
Qed.

Lemma paid_once_last won rd rounds n :
  rd_payment rd = true → Forall (λ rd, rd_payment rd = false) rounds →
  (∀ tx, won = Some tx → rd_end rd = Some true ∧ ∃ req, rd_commit rd = Some req ∧ converts req tx) →
  paid_once won (rd :: rounds) ∧ at_most (S n) (rd :: rounds).
Proof.
  intros Hp Hn Hw. rewrite <- (app_nil_r rounds). unfold paid_once, at_most.
  rewrite payments_after by done. split; [|simpl; lia]. exists [], (Some rd). split_and!; [done..|].
  intros tx (He & req & Hc & Hcv)%Hw. by exists rd, req.
Qed.

Lemma paid_once_none n : paid_once None [] ∧ at_most n [].
Proof. split; [|unfold at_most; simpl; lia]. by exists [], None. Qed.

Definition won_tx {A} (r : result (option (Tx * A)) (exn TreeTypes.ServiceError)) : option Tx :=
  match r with Ok (Some (tx, _)) => Some tx | _ => None end.

Lemma transfer_attempts_rounds fuel attempt preempted token_id total outs preferred strategy :
  of_token token_id outs → (attempt ≤ 2)%nat → (preempted ≤ 2)%nat →
  in_rounds (transfer_attempts self fuel attempt preempted token_id total outs preferred strategy)
    token_id (asked_of outs)
    (λ r rounds, paid_once (won_tx r) rounds ∧ at_most (5 - attempt - preempted) rounds).
Proof.
  intros Htoken. revert attempt preempted. induction fuel as [|fuel IH]; intros attempt preempted Hatt Hpre;
    cbn [transfer_attempts].
  { apply emits_ret. exists []. split_and!; [done|constructor..|by apply (paid_once_none 0)|by apply paid_once_none]. }
  destruct (Nat.leb_spec MAX_TRANSFER_TOKEN_TOO_MANY_OUTPUTS_RETRY_ATTEMPTS attempt) as [Hmax|_];
    [by unfold MAX_TRANSFER_TOKEN_TOO_MANY_OUTPUTS_RETRY_ATTEMPTS in Hmax; lia|].
  apply emits_bind. eapply emits_conseq; [apply reserve_log|].
  intros [reservation|e] l ->; [|apply no_rounds, paid_once_none].
  apply emits_try. eapply emits_conseq.
  { eapply (with_reserved_round true token_id _ reservation outs); [exact Htoken|reflexivity]. }
  intros res l (c & e & Hev & Hok & Hr).
  set (rd := {| rd_payment := true; rd_reservation := reservation; rd_commit := c; rd_end := e |}) in *.
  assert (∀ (r : result (option (Tx * @TokenOutputsReservation AddrKey)) (exn TreeTypes.ServiceError)) l' rounds1 n,
    Forall (λ rd, rd_payment rd = false) rounds1 → Forall (round_ok token_id (asked_of outs)) rounds1 → e = Some false →
    (∃ rounds2, l' = mjoin (round_events <$> rounds2) ∧ Forall (round_ok token_id (asked_of outs)) rounds2 ∧
       tidy rounds2 r ∧ paid_once (won_tx r) rounds2 ∧ at_most n rounds2) →
    Forall settled rounds1 → (n < 5 - attempt - preempted)%nat →
    ∃ rounds, [Reserved reservation] ++ l ++ mjoin (round_events <$> rounds1) ++ l' = mjoin (round_events <$> rounds) ∧
      Forall (round_ok token_id (asked_of outs)) rounds ∧ tidy rounds r ∧
      paid_once (won_tx r) rounds ∧ at_most (5 - attempt - preempted) rounds) as Hnext.
  { intros r l' rounds1 n Hnp Hok1 He (rounds2 & -> & Hok2 & Ht & Hp) Hs1 Hn.
    exists (rd :: rounds1 ++ rounds2).
    assert (settled rd) as Hsd by (unfold settled; simpl; by rewrite He).
    destruct (paid_once_after (won_tx r) rd rounds1 rounds2 n) as [Hp' Hm]; [done..|].
    split_and!; [|by constructor; [|apply Forall_app]|by apply tidy_cons, tidy_app|done|unfold at_most in *; lia].
    change ([Reserved reservation] ++ l ++ ?x) with ((Reserved reservation :: l) ++ x).
    rewrite Hev, fmap_cons, fmap_app. cbn [mjoin list_join]. by rewrite join_app. }
  assert (∀ err : exn TreeTypes.ServiceError, (5 - attempt - preempted)%nat ≠ 0%nat →
    ∃ rounds, [Reserved reservation] ++ l = mjoin (round_events <$> rounds) ∧
      Forall (round_ok token_id (asked_of outs)) rounds ∧
      tidy rounds (Err (A := option (Tx * @TokenOutputsReservation AddrKey)) err) ∧
      paid_once None rounds ∧ at_most (5 - attempt - preempted) rounds) as Hstop.
  { intros err Hn. change ([Reserved reservation] ++ l) with (Reserved reservation :: l). rewrite Hev.
    destruct (5 - attempt - preempted)%nat as [|n] eqn:Hm; [done|].
    apply (one_round _ _ (λ rounds, paid_once None rounds ∧ at_most (S n) rounds)); [done|].
    by apply paid_once_last. }
  destruct res as [tx|[|err]].
  - destruct Hr as (-> & req & -> & Hcv). apply emits_ret.
    change ([Reserved reservation] ++ l ++ []) with (Reserved reservation :: l ++ []).
    rewrite app_nil_r, Hev. exists [rd]. split_and!.
    + exact (eq_sym (app_nil_r (round_events rd))).
    + by apply Forall_singleton.
    + apply Forall_singleton. by eexists.
    + apply (paid_once_last (Some tx) rd [] 0); [done..|]. intros tx' [= <-]. by eauto.
    + destruct (5 - attempt - preempted)%nat as [|n] eqn:Hm; [lia|].
      by apply (paid_once_last None rd [] n).
  - apply emits_fail. rewrite app_nil_r. apply Hstop. lia.
  - assert (emits (se_fail (A := option (Tx * @TokenOutputsReservation AddrKey)) (Throw err))
      (λ r l2, ∃ rounds, [Reserved reservation] ++ l ++ l2 = mjoin (round_events <$> rounds) ∧
        Forall (round_ok token_id (asked_of outs)) rounds ∧ tidy rounds r ∧
        paid_once (won_tx r) rounds ∧ at_most (5 - attempt - preempted) rounds)) as Hfail.
    { apply emits_fail. rewrite app_nil_r. apply Hstop. lia. }
    destruct err; try exact Hfail.
    + destruct (Nat.ltb_spec attempt (MAX_TRANSFER_TOKEN_TOO_MANY_OUTPUTS_RETRY_ATTEMPTS - 1)) as [Hlt|];
        [|exact Hfail]. unfold MAX_TRANSFER_TOKEN_TOO_MANY_OUTPUTS_RETRY_ATTEMPTS in Hlt.
      apply emits_bind. eapply emits_conseq; [apply (optimize_rounds token_id (asked_of outs))|].
      intros [[]|err] l1 (rounds1 & -> & Hok1 & Ht1 & Hnp).
      * eapply emits_conseq; [apply IH; lia|]. intros r l2 Hr2. apply (Hnext r l2 rounds1 (5 - S attempt - preempted)%nat);
          [done..|lia].
      * exists (rd :: rounds1). split_and!.
        -- change ([Reserved reservation] ++ l ++ ?x) with ((Reserved reservation :: l) ++ x). by rewrite Hev.
        -- by constructor.
        -- apply tidy_cons; [|done]. unfold settled. simpl. by rewrite Hr.
        -- by apply (paid_once_last None rd rounds1 0).
        -- destruct (5 - attempt - preempted)%nat as [|n] eqn:Hm; [lia|]. by apply (paid_once_last None rd rounds1 n).
    + destruct (is_transaction_preempted_error e0); cbn [andb]; [|exact Hfail].
      destruct (Nat.ltb_spec preempted (MAX_TOKEN_PREEMPTED_RETRY_ATTEMPTS - 1)) as [Hlt|]; [|exact Hfail].
      unfold MAX_TOKEN_PREEMPTED_RETRY_ATTEMPTS in Hlt.
      apply quiet_bind; [apply quiet_map_err, quiet_refresh| |intros []].
      * intros err. rewrite app_nil_r. apply Hstop. lia.
      * eapply emits_conseq; [apply IH; lia|]. intros r l2 Hr2.
        apply (Hnext r l2 [] (5 - attempt - S preempted)%nat); [by constructor..|done|done|constructor|lia].
Qed.

Lemma tidy_all {A} rounds (r : result A (exn TreeTypes.ServiceError)) : Forall settled rounds → tidy rounds r.
Proof.
  intros H. destruct r; [done|]. exists rounds, None. by rewrite app_nil_r.
Qed.

(** The token of a transfer, that of its first output. *)
Definition token_of (outs : list TransferTokenOutput) : string := default "" (tro_token_id <$> head outs).

Lemma transfer_tokens_rounds fuel outs preferred strategy :
  in_rounds (transfer_tokens self fuel outs preferred strategy) (token_of outs) (asked_of outs) (λ r rounds,
    paid_once (match r with Ok o => o | Err _ => None end) rounds ∧ at_most 5 rounds).
Proof.
  unfold transfer_tokens. destruct outs as [|first rest]; [apply emits_lift, no_rounds, paid_once_none|].
  case_match eqn:Hsame; [apply emits_lift, no_rounds, paid_once_none|]. cbv zeta.
  assert (of_token (tro_token_id first) (first :: rest)) as Htoken.
  { apply Forall_forall. intros o Ho. destruct (String.eqb_spec (tro_token_id o) (tro_token_id first)) as [|Hne]; [done|].
    assert (existsb (λ o, negb (String.eqb (tro_token_id o) (tro_token_id first))) (first :: rest) = true) as Ht.
    { apply existsb_exists. exists o. split; [by apply list_elem_of_In|]. by apply negb_true_iff, String.eqb_neq. }
    congruence. }
  apply emits_bind. eapply emits_conseq; [apply transfer_attempts_rounds; [exact Htoken|lia..]|].
  intros [[[tx reservation]|]|e] l (rounds & -> & Hok & Ht & Hp & Hn); simpl in Ht, Hp.
  - assert (∀ r : result (option Tx) (exn TreeTypes.ServiceError),
      (match r with Ok o => o | Err _ => None end = None ∨ match r with Ok o => o | Err _ => None end = Some tx) →
      ∃ rounds', mjoin (round_events <$> rounds) ++ [] = mjoin (round_events <$> rounds') ∧
        Forall (round_ok (tro_token_id first) (asked_of (first :: rest))) rounds' ∧ tidy rounds' r ∧
        paid_once (match r with Ok o => o | Err _ => None end) rounds' ∧ at_most 5 rounds') as Hend.
    { intros r Hr. exists rounds. split_and!; [by rewrite app_nil_r|done|by apply tidy_all| |done].
      destruct Hr as [-> | ->]; [|done]. destruct Hp as (before & last & Hpay & Hb & _). by exists before, last. }
    apply quiet_bind; [apply quiet_identity|intros e; by apply Hend; left|intros key].
    apply quiet_bind; [apply quiet_map_err, quiet_insert|intros e; by apply Hend; left|intros []].
    apply emits_ret, Hend. by right.
  - apply emits_ret. exists rounds. by rewrite app_nil_r.
  - by exists rounds.
Qed.

(** What is expected has the value of the inputs, when they cover what is asked. *)
Definition balanced (inputs : list Output) (asked : list (AddrKey * Z)) : Prop :=
  Forall (λ x, 0 ≤ x) (amount_of <$> inputs) → Forall (λ x, 0 ≤ x) asked.*2 →
  sumZ asked.*2 ≤ sumZ (amount_of <$> inputs) < 2 ^ 128 →
  sumZ (expected inputs asked).*2 = sumZ (amount_of <$> inputs).

Lemma expected_balance inputs asked : balanced inputs asked.
Proof.
  intros Hi Ha Hs. unfold expected.
  assert (0 ≤ sumZ asked.*2) as H0.
  { clear -Ha. induction Ha as [|x l Hx Hl IH]; simpl; lia. }
  rewrite !sum_u_wrap, !wrap_small by (unfold in_u; lia).
  rewrite fmap_app, sumZ_app. destruct (Z.ltb_spec (sumZ asked.*2) (sumZ (amount_of <$> inputs))); simpl; [|lia].
  unfold wsub. rewrite wrap_small by (unfold in_u; lia). lia.
Qed.

(** C35: whatever the operators answer, a transfer only commits transactions that spend exactly
    the outputs of one of its reservations and have as outputs the amounts that were asked, for
    the owners that were asked, in order, and the rest for the wallet (a consolidation has
    everything for the wallet); so no amount is lost when the reservation covers what is asked.
    Each is the operators' answer to a transaction with the same inputs, owners and amounts all of
    whose outputs are of the token asked for; the tokens of the outputs of the answer are not
    compared with it, so that the committed outputs are of this token is left to the operators
    (validation_ignores_tokens).  The payment is tried at most five times, every try but the last
    was cancelled, and only the last can have succeeded, with the transaction returned.  After a
    success every reservation is settled, after an error all but at most the last. *)
Theorem token_transfer_pays_once fuel outs preferred strategy w w' r :
  transfer_tokens self fuel outs preferred strategy w = (w', r) →
  ∃ rounds, log w' = log w ++ mjoin (round_events <$> rounds) ∧
    Forall (round_ok (token_of outs) (asked_of outs)) rounds ∧ tidy rounds r ∧
    paid_once (match r with Ok o => o | Err _ => None end) rounds ∧ at_most 5 rounds ∧
    Forall (λ rd, balanced (reserved_outputs rd) (round_asked (asked_of outs) rd)) rounds.
Proof.
  intros (l & Hl & rounds & -> & Hok & Ht & Hp & Hn)%transfer_tokens_rounds.
  exists rounds. split_and!; [done..|]. apply Forall_true. intros rd. apply expected_balance.
Qed.

(** ** The retries end *)

Lemma with_reserved_result {A} (f : SE W (exn TreeTypes.ServiceError) A) reservation w :
  (with_reserved f reservation w).2 = (f w).2.
Proof.
  unfold with_reserved, with_reserved_token_outputs, se_try. destruct (f w) as [w1 [a|[|e]]]; simpl; [|done|].
  - by destruct (ts_finalize _ w1).
  - by destruct (ts_cancel _ w1).
Qed.

Lemma transfer_attempts_end fuel attempt preempted token_id total outs preferred strategy w w' :
  (attempt ≤ 2)%nat → (preempted ≤ 2)%nat → (5 ≤ fuel + attempt + preempted)%nat →
  transfer_attempts self fuel attempt preempted token_id total outs preferred strategy w ≠ (w', Ok None).
Proof.
  revert attempt preempted w. induction fuel as [|fuel IH]; intros attempt preempted w Ha Hp Hf; [lia|].
  cbn [transfer_attempts]. case_match eqn:Hmax; [done|]. rewrite se_bind_ok.
  intros (w1 & reservation & _ & H). unfold se_try in H.
  destruct (with_reserved _ _ w1) as [w2 [tx|[|err]]]; [done..|].
  destruct err; try done.
  - case_match eqn:Hlt; [|done]. apply Nat.ltb_lt in Hlt. unfold MAX_TRANSFER_TOKEN_TOO_MANY_OUTPUTS_RETRY_ATTEMPTS in Hlt.
    apply se_bind_ok in H as (w3 & [] & _ & H). revert H. apply IH; lia.
  - destruct (is_transaction_preempted_error e); [|done]. cbn [andb] in H.
    case_match eqn:Hlt; [|done]. apply Nat.ltb_lt in Hlt. unfold MAX_TOKEN_PREEMPTED_RETRY_ATTEMPTS in Hlt.
    apply se_bind_ok in H as (w3 & [] & _ & H). revert H. apply IH; lia.
Qed.

(** A consolidation that cannot read the wallet's key leaves its reservation as it is: the key
    is an argument of the transfer, and [with_reserved_token_outputs] has not begun. *)
Lemma consolidation_keeps_reservation threshold o os reservation w w1 w2 e :
  (Z.of_nat (length (available o)) <=? threshold) = false →
  reserve_token_outputs (per_status_identifier o) (MaxOutputCount MAX_TOKEN_TX_INPUTS) Swap None
    (Some SmallestFirst) w = (w1, Ok reservation) →
  signer_identity_key w1 = (w2, Err e) →
  optimize_each self threshold (o :: os) w = (w2, Err (Throw e)) ∧
  log w2 = log w ++ [Reserved reservation].
Proof.
  intros Ht Hr Hs. split.
  - cbn [optimize_each]. rewrite Ht. unfold se_bind at 1, of_tokens, se_map_err at 1. rewrite Hr. simpl.
    unfold se_bind at 1, of_service, se_map_err at 1. by rewrite Hs.
  - destruct (reserve_log (per_status_identifier o) (MaxOutputCount MAX_TOKEN_TX_INPUTS) Swap None
      (Some SmallestFirst) w w1 (Ok reservation)) as (l & Hl & ->).
    { unfold of_tokens, se_map_err. by rewrite Hr. }
    destruct (log_identity w1 w2 (Err e) Hs) as (l & Hl2 & -> & _). by rewrite Hl2, Hl, app_nil_r.
Qed.

Definition retoken (f : option (list Z) → option (list Z)) (o : RpcTokenOutput) : RpcTokenOutput :=
  {| rto_id := rto_id o; rto_owner_public_key := rto_owner_public_key o;
     rto_revocation_commitment := rto_revocation_commitment o;
     rto_withdraw_bond_sats := rto_withdraw_bond_sats o;
     rto_withdraw_relative_block_locktime := rto_withdraw_relative_block_locktime o;
     rto_token_public_key := rto_token_public_key o;
     rto_token_identifier := f (rto_token_identifier o);
     rto_token_amount := rto_token_amount o |}.

Definition retoken_tx f (tx : RpcTokenTransaction) : RpcTokenTransaction :=
  {| rtx_version := rtx_version tx; rtx_token_inputs := rtx_token_inputs tx;
     rtx_token_outputs := retoken f <$> rtx_token_outputs tx;
     rtx_spark_operator_identity_public_keys := rtx_spark_operator_identity_public_keys tx;
     rtx_expiry_time := rtx_expiry_time tx; rtx_network := rtx_network tx;
     rtx_client_created_timestamp := rtx_client_created_timestamp tx;
     rtx_invoice_attachments := rtx_invoice_attachments tx |}.

(** The operators can change the tokens of the outputs. *)
Lemma validation_ignores_tokens f partial final keyshare :
  validate_token_transaction self partial (retoken_tx f final) keyshare
  = validate_token_transaction self partial final keyshare.
Proof.
  unfold validate_token_transaction. simpl. rewrite length_fmap.
  assert (collect (λ '(p, q), check_output self p q) (zip (rtx_token_outputs partial) (retoken f <$> rtx_token_outputs final))
    = collect (λ '(p, q), check_output self p q) (zip (rtx_token_outputs partial) (rtx_token_outputs final))) as ->; [|done].
  generalize (rtx_token_outputs final). induction (rtx_token_outputs partial) as [|p ps IH]; intros [|q qs]; [done..|].
  simpl. by rewrite IH.
Qed.

(** five turns of the loop are enough, whatever fails. *)
Theorem token_transfer_ends fuel outs preferred strategy w w' :
  (5 ≤ fuel)%nat → transfer_tokens self fuel outs preferred strategy w ≠ (w', Ok None).
Proof.
  intros Hf. unfold transfer_tokens. destruct outs as [|first rest]; [done|]. case_match eqn:Hid; [done|].
  cbv zeta. rewrite se_bind_ok. intros (w1 & [[tx reservation]|] & Ha & H).
  - apply se_bind_ok in H as (w2 & key & _ & H). apply se_bind_ok in H as (w3 & [] & _ & H). done.
  - revert Ha. apply transfer_attempts_end; lia.
Qed.
End calls.

(** ** At a concrete input

    The in-memory store with two outputs of 50 and 20; the operators abort the first transaction
    and accept the second. *)
Module TransferExample.
Import AddressesProps.Example.
#[local] Existing Instance simple_externals.
#[local] Existing Instance canonical_order.

#[export] Instance texts : TokenTextOps := {|
  hex_encode b := pos_text (encode b);
  hex_decode s := decode (text_pos s);
  is_nfc _ := true
|}.

Record World : Type := {
  ew_store : TokenWorld (PublicKey := @AddrKey example_ops);
  ew_aborts : nat;
  ew_log : list TokenEvent
}.

Definition on_tokens {A} (m : SE (TokenWorld (PublicKey := @AddrKey example_ops))
      (@TokenOutputServiceError string) A)
    (ev : result A (@TokenOutputServiceError string) → list TokenEvent)
    : SE World (@TokenOutputServiceError string) A :=
  λ w, let '(t, r) := m (ew_store w) in
       ({| ew_store := t; ew_aborts := ew_aborts w; ew_log := ew_log w ++ ev r |}, r).

Definition silent {A} (r : A) : list TokenEvent := [].

#[export] Instance store : TokenStoreOps (@AddrKey example_ops) string World := {|
  ts_set t n := on_tokens (ts_set t n) silent;
  ts_list := on_tokens ts_list silent;
  ts_get f := on_tokens (ts_get f) silent;
  ts_insert t := on_tokens (ts_insert t) silent;
  ts_reserve id t p pref strategy := on_tokens (ts_reserve id t p pref strategy)
    (λ r, match r with Ok r => [Reserved r] | Err _ => [] end);
  ts_cancel id := on_tokens (ts_cancel id) (λ _, [Settled id false]);
  ts_finalize id := on_tokens (ts_finalize id) (λ _, [Settled id true]);
  ts_now := on_tokens ts_now silent
|}.

Definition token : string := example_token Transactions.Regtest.

Definition metadata : @TokenMetadata (@AddrKey example_ops) :=
  {| identifier := token; issuer_public_key := true : @AddrKey example_ops; name := "coin"; ticker := "COI"; decimals := 0;
     max_supply := 1000; is_freezable := false; creation_entity_public_key := None |}.

Definition out (id : string) (amount vout : Z) : @TokenOutputWithPrevOut (@AddrKey example_ops) :=
  {| output := {| to_id := id; owner_public_key := true : @AddrKey example_ops; revocation_commitment := "";
                  withdraw_bond_sats := 1; withdraw_relative_block_locktime := 2;
                  token_public_key := None; token_identifier := token; token_amount := amount |};
     prev_tx_hash := hex_encode (replicate 32 7); prev_tx_vout := vout |}.

#[export] Instance network : TokenNetwork (@AddrKey example_ops) string World := {|
  RawOutput := @TokenOutputWithPrevOut (@AddrKey example_ops);
  RawMetadata := ();
  raw_token_id _ := Some [0];
  raw_output o := Ok o;
  raw_metadata_id _ := [0];
  raw_metadata _ := Ok metadata;
  net_query_all w := (w, Ok [out "o1" 50 3; out "o2" 20 1]);
  net_query_metadata _ w := (w, Ok [()]);
  net_sleep_one_second w := w
|}.

Definition fill (o : RpcTokenOutput) : RpcTokenOutput :=
  {| rto_id := Some "new"%string; rto_owner_public_key := rto_owner_public_key o;
     rto_revocation_commitment := Some (replicate 33 4); rto_withdraw_bond_sats := Some 1;
     rto_withdraw_relative_block_locktime := Some 2; rto_token_public_key := None;
     rto_token_identifier := rto_token_identifier o; rto_token_amount := rto_token_amount o |}.

Definition finish (tx : RpcTokenTransaction) : RpcTokenTransaction :=
  {| rtx_version := rtx_version tx; rtx_token_inputs := rtx_token_inputs tx;
     rtx_token_outputs := fill <$> rtx_token_outputs tx;
     rtx_spark_operator_identity_public_keys := rtx_spark_operator_identity_public_keys tx;
     rtx_expiry_time := Some {| ts_seconds := 9; ts_nanos := 0 |}; rtx_network := rtx_network tx;
     rtx_client_created_timestamp := rtx_client_created_timestamp tx;
     rtx_invoice_attachments := rtx_invoice_attachments tx |}.

Definition keyshare : RpcSigningKeyshare :=
  {| rks_owner_identifiers := [hex_encode [1]]; rks_threshold := 1 |}.

Definition spend_abort (w : World) : World :=
  {| ew_store := ew_store w; ew_aborts := pred (ew_aborts w); ew_log := ew_log w |}.

#[export] Instance operators : TokenOperators World := {|
  signer_identity_key w := (w, Ok (true : @AddrKey example_ops));
  signer_sign_hash h w := (w, Ok (h : @SchnorrSignature example_ops));
  rpc_start_transaction req w :=
    match ew_aborts w with
    | O => (w, Ok {| final_token_transaction := Some (finish (str_partial_token_transaction req));
                     keyshare_info := Some keyshare |})
    | S _ => (spend_abort w, Err (ServiceConnectionError ("aborted" : @ForeignError simple_externals)))
    end;
  rpc_commit_transaction req w :=
    ({| ew_store := ew_store w; ew_aborts := ew_aborts w; ew_log := ew_log w ++ [Committed req] |}, Ok ());
  rpc_query_token_metadata _ _ w := (w, Ok []);
  rpc_freeze_tokens _ w := (w, Ok []);
  before_send_token := None;
  system_now w := (w, Ok 5000000000);
  is_transaction_preempted_error e := String.eqb e "aborted";
  token_error _ := "tokens"%string
|}.

#[export] Instance world_log : TokenLog World :=
  {| token_log := {| log := ew_log |}; identity := true : @AddrKey example_ops |}.

Lemma on_tokens_emits {A} (m : SE _ (@TokenOutputServiceError string) A) ev :
  emits (on_tokens m ev) (λ r l, l = ev r).
Proof.
  intros w w' r. unfold on_tokens. destruct (m (ew_store w)) as [t r']. intros [= <- <-].
  by exists (ev r').
Qed.

Lemma unchanged_quiet {E A} (m : SE World E A) :
  (∀ w, ew_log (m w).1 = ew_log w) → quiet m.
Proof.
  intros Hm w w' r Hr. exists []. rewrite app_nil_r. split; [|done]. simpl. by rewrite <- (Hm w), Hr.
Qed.

#[export] Instance laws : TokenLogLaws World.
Proof.
  split; try (intros; apply on_tokens_emits); try (intros; apply unchanged_quiet; done); try done.
  - intros req w w' r [= <- <-]. by exists [Committed req].
  - intros w w' r [= <- <-]. exists []. rewrite app_nil_r. split_and!; [done..|]. by intros k [= <-].
  - intros req. apply unchanged_quiet. intros w. simpl. by destruct (ew_aborts w).
Qed.

Definition config : TokenServiceConfig :=
  {| tsc_network := Transactions.Regtest; split_secret_threshold := 1;
     tokens_config := {| expected_withdraw_bond_sats := 1; expected_withdraw_relative_block_locktime := 2;
                         transaction_validity_duration_seconds := 60 |};
     all_operators := [{| op_identity_public_key := false : @AddrKey example_ops; op_identifier := [1] |}] |}.

Definition world : World :=
  {| ew_store :=
       {| tw_store := (set_tokens_outputs (ForeignError := string) 100 TokenOutputsState_default
            [{| tos_metadata := metadata; tos_outputs := [out "o1" 50 3; out "o2" 20 1] |}] 100).1;
          tw_now := 200; tw_uuid := "r1" |};
     ew_aborts := 1; ew_log := [] |}.

Definition receivers : list TransferTokenOutput :=
  [{| tro_token_id := token; tro_amount := 60;
      receiver_address := {| identity_public_key := false : @AddrKey example_ops;
                             Addresses.network := Transactions.Regtest; spark_invoice_fields := None |};
      tro_spark_invoice := None |}].

Definition run := transfer_tokens config 5 receivers None None world.
End TransferExample.
Import AddressesProps.Example TransferExample.
#[local] Existing Instance simple_externals.
#[local] Existing Instance canonical_order.


(** The log of the run: two reservations, the first cancelled; the second commits and is
    finalized. *)
Lemma token_transfer_pays_once_witness :
  length (ew_log run.1) = 5%nat ∧
  ∃ tx rounds, run.2 = Ok (Some tx) ∧
    ew_log run.1 = mjoin (round_events <$> rounds) ∧
    paid_once config (Some tx) rounds ∧ at_most 5 rounds.
Proof.
  split; [vm_compute; reflexivity|].
  destruct run as [w' r] eqn:Hrun.
  assert (match r with Ok (Some _) => True | _ => False end) as Hr.
  { change r with (w', r).2. rewrite <- Hrun. vm_compute. exact I. }
  destruct (token_transfer_pays_once config 5 receivers None None
    world w' r Hrun) as (rounds & Hl & _ & _ & Hp & Hn & _).
  assert (log world = []) as Hlog by reflexivity. rewrite Hlog, app_nil_l in Hl. clear Hrun Hlog.
  destruct r as [[tx|]|]; [|contradiction..]. exists tx, rounds.
  split; [reflexivity|]. split; [exact Hl|]. split; [exact Hp|exact Hn].
Defined.

Lemma token_transfer_ends_witness : run.2 ≠ Ok None.
Proof.
  intros H. apply (token_transfer_ends config 5 receivers None None world run.1); [lia|].
  rewrite <- H. apply surjective_pairing.
Defined.
