(* ===== verification/TransferModels.v ===== *)
(** The data of transfers ([crates/spark/src/services/models.rs]) and its conversions from the
    messages of the operators; the pool of operators ([operator/pool.rs]) and the errors of
    their calls ([operator/rpc/error.rs]).

    Parsers of other crates (UUIDs, ECDSA signatures, transactions, FROST identifiers) are the
    class [TransferTypes].  An enum of a message is given by its case. *)
From stdpp Require Import base gmap strings list.
From S2P Require Import Prelude Timelocks TreeTypes Payments Transactions Addresses TokenTx Signing.

Class TransferTypes {bt : BitcoinTypes} := {
  FrostIdentifier_countable :: Countable FrostIdentifier;
  Identifier_serialize : FrostIdentifier → list Z;
  Identifier_deserialize : list Z → option FrostIdentifier;
  Uuid : Type;
  Uuid_to_string : Uuid → string;
  Uuid_from_str : string → option Uuid;
  EcdsaSignature : Type;
  ecdsa_from_compact : list Z → option EcdsaSignature;
  ecdsa_from_der : list Z → option EcdsaSignature;
  ecdsa_serialize_compact : EcdsaSignature → list Z;
  ecdsa_serialize_der : EcdsaSignature → list Z;
  (** [bitcoin::consensus::deserialize]. *)
  deserialize : list Z → option Tx
}.

(** ** Operators *)

(** A [tonic::Status]: its code and its text. *)
Inductive Code : Type := Internal | AlreadyExists | OtherCode (c : Z).

#[export] Instance Code_eq_dec : EqDecision Code.
Proof. solve_decision. Defined.

Record Status : Type := { status_code : Code; status_text : string }.

Inductive OperatorRpcError : Type :=
| Transport (s : string) | InvalidUri (s : string) | Authentication (s : string)
| Connection (status : Status) | OperatorNotFound (s : string) | Unexpected (s : string)
| RpcSignerError (e : SignerError) | RpcGeneric (s : string).

Inductive OperatorError : Type := InvalidCoordinatorIndex | InvalidOperatorId.

Section operators.
Context {bt : BitcoinTypes}.

Record Operator : Type := {
  op_id : Z;
  op_identifier : FrostIdentifier;
  op_identity_public_key : SecpPublicKey
}.

Record OperatorPool : Type := { coordinator_index : Z; operators : list Operator }.

(** [OperatorPoolConfig::new]. *)
Definition OperatorPoolConfig_new (coordinator_index : Z) (operators : list Operator)
    : result OperatorPool OperatorError :=
  if Z.of_nat (length operators) <=? coordinator_index then Err InvalidCoordinatorIndex
  else if forallb (λ io, op_id io.2 =? Z.of_nat io.1) (imap pair operators)
  then Ok {| coordinator_index := coordinator_index; operators := operators |}
  else Err InvalidOperatorId.

(** [get_coordinator]: [unwrap] of the index. *)
Definition get_coordinator {E} (p : OperatorPool) : result Operator (exn E) :=
  or_panic (operators p !! Z.to_nat (coordinator_index p)).

Definition get_all_operators (p : OperatorPool) : list Operator := operators p.

Definition get_non_coordinator_operators (p : OperatorPool) : list Operator :=
  List.filter (λ op, negb (op_id op =? coordinator_index p)) (operators p).

Definition get_operator_by_identifier (p : OperatorPool) (identifier : FrostIdentifier)
    : option Operator :=
  List.find (λ op, bool_decide (op_identifier op = identifier)) (operators p).

Definition pool_len (p : OperatorPool) : Z := Z.of_nat (length (operators p)).
End operators.

(** ** Messages *)

Record ProtoSigningKeyshare : Type := {
  pk_owner_identifiers : list string;
  pk_threshold : Z;
  pk_public_key : list Z
}.

Record ProtoTreeNode : Type := {
  pn_id : string;
  pn_tree_id : string;
  pn_value : Z;
  pn_parent_node_id : option string;
  pn_node_tx : list Z;
  pn_refund_tx : list Z;
  pn_vout : Z;
  pn_verifying_public_key : list Z;
  pn_owner_identity_public_key : list Z;
  pn_signing_keyshare : option ProtoSigningKeyshare;
  pn_status : string;
  pn_direct_tx : list Z;
  pn_direct_refund_tx : list Z;
  pn_direct_from_cpfp_refund_tx : list Z
}.

Record ProtoTransferLeaf : Type := {
  pl_leaf : option ProtoTreeNode;
  pl_secret_cipher : list Z;
  pl_signature : list Z;
  pl_intermediate_refund_tx : list Z;
  pl_intermediate_direct_refund_tx : list Z;
  pl_intermediate_direct_from_cpfp_refund_tx : list Z
}.

Record ProtoTransfer : Type := {
  pt_id : string;
  pt_sender_identity_public_key : list Z;
  pt_receiver_identity_public_key : list Z;
  pt_status : TransferStatus;
  pt_total_value : Z;
  pt_expiry_time : option ProtoTimestamp;
  pt_leaves : list ProtoTransferLeaf;
  pt_created_time : option ProtoTimestamp;
  pt_updated_time : option ProtoTimestamp;
  pt_type : TransferType;
  pt_spark_invoice : string
}.

Section models.
Context {bt : BitcoinTypes} {W : Type} {se : SignerEnv W} {tt : TransferTypes} {tx : TokenTextOps}.

Abbreviation Parsed A := (result A ServiceError).

(** ** Data *)

Record TransferLeaf : Type := {
  tl_leaf : TreeNode;
  secret_cipher : list Z;
  tl_signature : option EcdsaSignature;
  intermediate_refund_tx : Tx;
  intermediate_direct_refund_tx : option Tx;
  intermediate_direct_from_cpfp_refund_tx : option Tx
}.

Record Transfer : Type := {
  t_id : Uuid;
  sender_identity_public_key : SecpPublicKey;
  receiver_identity_public_key : SecpPublicKey;
  t_status : TransferStatus;
  total_value : Z;
  expiry_time : option Z;
  leaves : list TransferLeaf;
  created_time : option Z;
  updated_time : option Z;
  t_transfer_type : TransferType;
  spark_invoice : option string
}.

Definition leaf_with_intermediate_txs (l : TransferLeaf) : TreeNode :=
  let n := tl_leaf l in
  {| tn_id := tn_id n; tree_id := tree_id n; value := value n;
     parent_node_id := parent_node_id n; node_tx := node_tx n;
     refund_tx := Some (intermediate_refund_tx l);
     direct_tx := direct_tx n;
     direct_refund_tx := intermediate_direct_refund_tx l;
     direct_from_cpfp_refund_tx := intermediate_direct_from_cpfp_refund_tx l;
     vout := vout n; verifying_public_key := verifying_public_key n;
     owner_identity_public_key := owner_identity_public_key n;
     signing_keyshare := signing_keyshare n; status := status n |}.

(** ** Conversions *)

Definition TransferId_from_str (s : string) : result Uuid string :=
  if bool_decide (s = "") then Err "TransferId cannot be empty"
  else ok_or (Uuid_from_str s) "Invalid TransferId format".

Definition generic_err {A} (o : option A) (message : string) : Parsed A :=
  ok_or o (SE_Generic message).

Definition owner_identifier (id_hex : string) : Parsed FrostIdentifier :=
  let* id_bytes := generic_err (hex_decode id_hex) "Invalid hex identifier" in
  generic_err (Identifier_deserialize id_bytes) "Invalid identifier".

Definition SigningKeyshare_try_from (keyshare : ProtoSigningKeyshare) : Parsed SigningKeyshare :=
  let* owner_identifiers := collect owner_identifier (pk_owner_identifiers keyshare) in
  let* public_key := generic_err (key_from_slice (pk_public_key keyshare)) "Invalid public key" in
  Ok {| owner_identifiers := owner_identifiers; threshold := pk_threshold keyshare;
        keyshare_public_key := public_key |}.

(** A transaction that is absent when its bytes are empty. *)
Definition optional_tx (bytes : list Z) (message : string) : Parsed (option Tx) :=
  if bool_decide (bytes = []) then Ok None
  else let* tx := generic_err (deserialize bytes) message in Ok (Some tx).

Definition TreeNode_try_from (node : ProtoTreeNode) : Parsed TreeNode :=
  let* id := map_err (λ _, SE_Generic ("Invalid node id: " +:+ pn_id node))
               (TreeNodeId_from_str (pn_id node)) in
  let* parent_node_id :=
    match pn_parent_node_id node with
    | Some parent_id =>
        let* p := map_err (λ _, SE_Generic ("Invalid parent node id: " +:+ parent_id))
                    (TreeNodeId_from_str parent_id) in
        Ok (Some p)
    | None => Ok None
    end in
  let* node_tx := generic_err (deserialize (pn_node_tx node)) "Invalid node transaction" in
  let* refund_tx := optional_tx (pn_refund_tx node) "Invalid refund transaction" in
  let* direct_tx := optional_tx (pn_direct_tx node) "Invalid direct transaction" in
  let* direct_refund_tx :=
    optional_tx (pn_direct_refund_tx node) "Invalid direct refund transaction" in
  let* direct_from_cpfp_refund_tx :=
    optional_tx (pn_direct_from_cpfp_refund_tx node) "Invalid direct from CPFP refund transaction" in
  let* verifying_public_key :=
    generic_err (key_from_slice (pn_verifying_public_key node)) "Invalid verifying public key" in
  let* owner_identity_public_key :=
    if bool_decide (pn_owner_identity_public_key node = []) then Ok None
    else let* key := generic_err (key_from_slice (pn_owner_identity_public_key node))
                       "Invalid owner identity public key" in Ok (Some key) in
  let* keyshare := generic_err (pn_signing_keyshare node) "Missing signing keyshare" in
  let* signing_keyshare := SigningKeyshare_try_from keyshare in
  Ok {| tn_id := id; tree_id := pn_tree_id node; value := pn_value node;
        parent_node_id := parent_node_id; node_tx := node_tx; refund_tx := refund_tx;
        direct_tx := direct_tx; direct_refund_tx := direct_refund_tx;
        direct_from_cpfp_refund_tx := direct_from_cpfp_refund_tx; vout := pn_vout node;
        verifying_public_key := verifying_public_key;
        owner_identity_public_key := owner_identity_public_key;
        signing_keyshare := signing_keyshare; status := TreeNodeStatus_from (pn_status node) |}.

(** The signature of a leaf: absent, 64 compact bytes, or DER. *)
Definition leaf_signature (bytes : list Z) : Parsed (option EcdsaSignature) :=
  let parsed o := let* s := generic_err o "Invalid signature format" in Ok (Some s) in
  match length bytes with
  | O => Ok None
  | 64%nat => parsed (ecdsa_from_compact bytes)
  | _ => parsed (ecdsa_from_der bytes)
  end.

Definition TransferLeaf_try_from (leaf : ProtoTransferLeaf) : Parsed TransferLeaf :=
  let* node := generic_err (pl_leaf leaf) "Missing leaf node" in
  let* tree_node := TreeNode_try_from node in
  let* refund := generic_err (deserialize (pl_intermediate_refund_tx leaf))
                   "Invalid intermediate refund transaction" in
  let* direct := optional_tx (pl_intermediate_direct_refund_tx leaf)
                   "Invalid intermediate direct refund transaction" in
  let* direct_from_cpfp := optional_tx (pl_intermediate_direct_from_cpfp_refund_tx leaf)
                             "Invalid intermediate direct from CPFP refund transaction" in
  let* signature := leaf_signature (pl_signature leaf) in
  Ok {| tl_leaf := tree_node; secret_cipher := pl_secret_cipher leaf; tl_signature := signature;
        intermediate_refund_tx := refund; intermediate_direct_refund_tx := direct;
        intermediate_direct_from_cpfp_refund_tx := direct_from_cpfp |}.

(** [|ts| ts.seconds as u64]. *)
Definition timestamp_seconds (t : ProtoTimestamp) : Z := as_u64 (ts_seconds t).

Definition Transfer_try_from (transfer : ProtoTransfer) : Parsed Transfer :=
  let* id := map_err (λ _, SE_Generic "Invalid transfer id") (TransferId_from_str (pt_id transfer)) in
  let* sender := generic_err (key_from_slice (pt_sender_identity_public_key transfer))
                   "Invalid sender identity public key" in
  let* receiver := generic_err (key_from_slice (pt_receiver_identity_public_key transfer))
                     "Invalid receiver identity public key" in
  let* leaves := collect TransferLeaf_try_from (pt_leaves transfer) in
  Ok {| t_id := id; sender_identity_public_key := sender; receiver_identity_public_key := receiver;
        t_status := pt_status transfer; total_value := pt_total_value transfer;
        expiry_time := timestamp_seconds <$> pt_expiry_time transfer; leaves := leaves;
        created_time := timestamp_seconds <$> pt_created_time transfer;
        updated_time := timestamp_seconds <$> pt_updated_time transfer;
        t_transfer_type := pt_type transfer;
        spark_invoice := if bool_decide (pt_spark_invoice transfer = "") then None
                         else Some (pt_spark_invoice transfer) |}.
End models.
