(* ===== verification/Futures.v ===== *)
(** Futures polled together: [futures::future::try_join_all] over async blocks whose calls
    are awaited one by one.

    A future is its result or the next call it awaits.  Which of the waiting futures goes on
    is not specified, so the join takes a [Scheduler]: any sequence of choices.  Theorems
    hold for every scheduler. *)
From stdpp Require Import base list relations.
From S2P Require Import Prelude.

Inductive future (W E A : Type) : Type :=
| Ready (r : result A E)
| Awaits (call : W → W * future W E A).
Arguments Ready {W E A} r.
Arguments Awaits {W E A} call.

(** The [i]-th step is taken by the waiting future of rank [schedule i], modulo their number. *)
Class Scheduler := { schedule : nat → nat }.

Section futures.
Context {W E A : Type}.
Implicit Types (f : future W E A) (fs : list (future W E A)) (w : W).

(** [match m.await { r => k r }]. *)
Definition await {F B} (m : SE W F B) (k : result B F → future W E A) : future W E A :=
  Awaits (λ w, let '(w, r) := m w in (w, k r)).

Definition is_waiting f : bool := match f with Ready _ => false | Awaits _ => true end.

(** The first error, or all the values once every future is ready. *)
Fixpoint joined fs : option (result (list A) E) :=
  match fs with
  | [] => Some (Ok [])
  | f :: fs =>
      match f, joined fs with
      | Ready (Err e), _ => Some (Err e)
      | _, Some (Err e) => Some (Err e)
      | Ready (Ok a), Some (Ok l) => Some (Ok (a :: l))
      | Ready (Ok _), None | Awaits _, _ => None
      end
  end.

(** The positions of the waiting futures. *)
Definition waiting fs : list nat :=
  (List.filter (λ i, from_option is_waiting false (fs !! i)) (seq 0 (length fs))).

Definition poll (i : nat) fs w : W * list (future W E A) :=
  match fs !! i with
  | Some (Awaits call) => let '(w, f) := call w in (w, <[i := f]> fs)
  | _ => (w, fs)
  end.

Context {sch : Scheduler}.

Definition chosen (turn : nat) fs : nat :=
  nth (schedule turn mod length (waiting fs)) (waiting fs) 0%nat.

Fixpoint try_join_all (fuel turn : nat) fs w : W * option (result (list A) E) :=
  match joined fs with
  | Some r => (w, Some r)
  | None =>
      match fuel with
      | O => (w, None)
      | S fuel =>
          let '(w, fs) := poll (chosen turn fs) fs w in
          try_join_all fuel (S turn) fs w
      end
  end.

(** ** The calls of one future, with those of the others in between *)

Inductive runs : future W E A → future W E A → Prop :=
| runs_refl f : runs f f
| runs_call call f w w' f' : call w = (w', f) → runs f f' → runs (Awaits call) f'.

Lemma runs_trans f1 f2 f3 : runs f1 f2 → runs f2 f3 → runs f1 f3.
Proof. induction 1; intros; [done|]. econstructor; eauto. Qed.

Lemma runs_await {F B} (m : SE W F B) (k : result B F → future W E A) r :
  runs (await m k) (Ready r) → ∃ w w' b, m w = (w', b) ∧ runs (k b) (Ready r).
Proof.
  inversion 1 as [|call f w w' f' Hcall Hrun]; subst. destruct (m w) as [w1 b] eqn:Hm.
  injection Hcall as <- <-. eauto.
Qed.

Lemma runs_ready r r' : runs (Ready r) (Ready r') → r' = r.
Proof. by inversion 1. Qed.

Lemma poll_runs i fs w w' fs' : poll i fs w = (w', fs') → Forall2 runs fs fs'.
Proof.
  unfold poll. destruct (fs !! i) as [[r|call]|] eqn:Hi.
  2: { destruct (call w) as [w1 f] eqn:Hcall. intros [= <- <-].
       rewrite <- (list_insert_id fs i (Awaits call)) at 1 by done.
       apply Forall2_insert; [apply Forall_Forall2_diag, Forall_true; constructor|].
       eapply runs_call; [exact Hcall|constructor]. }
  all: intros [= <- <-]; apply Forall_Forall2_diag, Forall_true; constructor.
Qed.

Lemma joined_ok fs l : joined fs = Some (Ok l) → fs = (λ a, Ready (Ok a)) <$> l.
Proof.
  revert l. induction fs as [|[[a|e]|call] fs IH]; intros l; simpl; [naive_solver| | |].
  - destruct (joined fs) as [[l'|e]|]; [|done|done]. intros [= <-]. simpl. f_equal. auto.
  - done.
  - by destruct (joined fs) as [[]|].
Qed.

(** What a join that succeeds has done: every future has run to its value. *)
Lemma try_join_all_ok fuel turn fs w w' l :
  try_join_all fuel turn fs w = (w', Some (Ok l)) →
  Forall2 (λ f a, runs f (Ready (Ok a))) fs l.
Proof.
  revert turn fs w. induction fuel as [|fuel IH]; intros turn fs w; cbn [try_join_all];
    destruct (joined fs) as [r|] eqn:Hj.
  1, 3: intros [= <- ->]; apply joined_ok in Hj as ->; clear;
    induction l; constructor; [constructor|done].
  - done.
  - destruct (poll _ fs w) as [w1 fs1] eqn:Hp. intros H.
    apply IH in H. apply poll_runs in Hp. clear IH Hj.
    revert l H. induction Hp; inversion 1; subst; constructor; [by eapply runs_trans|auto].
Qed.

(** ** Termination *)

(** At most [n] calls. *)
Fixpoint within (n : nat) f : Prop :=
  match f with
  | Ready _ => True
  | Awaits call => match n with O => False | S n => ∀ w, within n (call w).2 end
  end.

Lemma within_await {F B} n (m : SE W F B) (k : result B F → future W E A) :
  (∀ b, within n (k b)) → within (S n) (await m k).
Proof. intros Hk. cbn [within await]. intros w. destruct (m w) as [w1 b]. apply Hk. Qed.

Lemma within_le n n' f : (n ≤ n')%nat → within n f → within n' f.
Proof.
  revert n' f. induction n as [|n IH]; intros n' [r|call] Hle Hf; [by destruct n'|done|by destruct n'|].
  - destruct n' as [|n']; [lia|]. intros w. apply IH; [lia|apply Hf].
Qed.

Lemma joined_waiting fs : joined fs = None → waiting fs ≠ [].
Proof.
  intros Hj. assert (∃ i, fs !! i ≠ None ∧ from_option is_waiting false (fs !! i) = true) as (i & Hi & Hw).
  { induction fs as [|[[a|e]|call] fs IH]; simpl in Hj; try done.
    - destruct (joined fs) as [[]|]; [done|done|]. destruct (IH eq_refl) as (i & ? & ?). by exists (S i).
    - by exists 0%nat. }
  intros Hnil. assert (i ∈ waiting fs) as Hin; [|rewrite Hnil in Hin; by apply elem_of_nil in Hin].
  apply elem_of_bfilter. split; [|done]. apply elem_of_seq.
  destruct (fs !! i) eqn:Hl; [|done]. apply lookup_lt_Some in Hl. lia.
Qed.

Lemma chosen_waiting turn fs : joined fs = None → ∃ call, fs !! chosen turn fs = Some (Awaits call).
Proof.
  intros Hj%joined_waiting. assert (chosen turn fs ∈ waiting fs) as [_ Hc]%elem_of_bfilter.
  { unfold chosen. apply list_elem_of_In, nth_In, Nat.mod_upper_bound.
    by destruct (waiting fs). }
  destruct (fs !! chosen turn fs) as [[r|call]|]; [done|by exists call|done].
Qed.

Lemma poll_within i ns fs w call :
  Forall2 within ns fs → fs !! i = Some (Awaits call) →
  ∃ ns', Forall2 within ns' (poll i fs w).2 ∧ (S (sum_list ns') = sum_list ns)%nat.
Proof.
  intros Hns Hcall. destruct (Forall2_lookup_r _ _ _ _ _ Hns Hcall) as (n & Hn & Hw).
  destruct n as [|n]; [done|]. exists (<[i := n]> ns). split.
  - unfold poll. rewrite Hcall. specialize (Hw w). destruct (call w) as [w1 f].
    by apply Forall2_insert.
  - rewrite <- (take_drop_middle ns i (S n) Hn) at 2.
    rewrite insert_take_drop by (by eapply lookup_lt_Some).
    rewrite !sum_list_with_app. simpl. lia.
Qed.

(** With as much fuel as there are calls, the join ends, whatever the scheduler does. *)
Lemma try_join_all_total fuel turn (ns : list nat) fs w :
  Forall2 within ns fs → (sum_list ns ≤ fuel)%nat →
  ∃ w' r, try_join_all fuel turn fs w = (w', Some r).
Proof.
  revert turn ns fs w. induction fuel as [|fuel IH]; intros turn ns fs w Hns Hle; cbn [try_join_all];
    destruct (joined fs) as [r|] eqn:Hj; eauto;
    destruct (chosen_waiting turn fs Hj) as [call Hcall];
    destruct (poll_within _ _ _ w _ Hns Hcall) as (ns' & Hns' & Hsum); [lia|].
  destruct (poll _ fs w) as [w1 fs1]. apply (IH _ ns'); [done|lia].
Qed.
End futures.
