(* ===== verification/Transfers.v ===== *)
(** The transfer service ([crates/spark/src/services/transfer.rs]) with the key tweaks of
    [utils/leaf_key_tweak.rs]: sending leaves (the shares of the key tweaks for every operator,
    the signed refunds, the transfer package), recovering after a connection error, claiming
    (verification of the sender's signatures, tweaks sent to all operators together, refunds
    signed with the coordinator, the retry loop) and the queries.

    The signer's operations on secrets, elliptic curves and the operators' calls are the
    classes [ShareTypes], [TransferSigner] and [TransferOperators]. *)
From Stdlib Require Import Ascii.
From stdpp Require Import base gmap strings list pretty.
From S2P Require Import Prelude Timelocks TreeTypes Payments Transactions Bytes Paging Addresses TokenTx Signing TransferModels Futures.

(** ** Data *)

Record ClaimTransferConfig : Type := {
  max_retries : Z;
  base_delay_ms : Z;
  max_delay_ms : Z
}.

Definition ClaimTransferConfig_default : ClaimTransferConfig :=
  {| max_retries := 5; base_delay_ms := 1000; max_delay_ms := 10000 |}.

(** Scalars and points of [k256], and the keys of [secp256k1]. *)
Class ShareTypes {bt : BitcoinTypes} := {
  Scalar : Type;
  Scalar_eq_dec :: EqDecision Scalar;
  Scalar_from_u64 : Z → Scalar;
  Scalar_to_bytes : Scalar → list Z;
  ProofKey : Type;
  to_sec1_bytes : ProofKey → list Z;
  (** [SecretKey::from_slice(bytes)?.public_key(secp)]. *)
  secret_public_key : list Z → option SecpPublicKey;
  serialize_uncompressed : SecpPublicKey → list Z
}.

(** [SecretShareProto], [SendLeafKeyTweak] and [ClaimLeafKeyTweak] are messages. *)
Record SecretShareProto : Type := { sp_secret_share : list Z; sp_proofs : list (list Z) }.

Record SendLeafKeyTweak : Type := {
  sk_leaf_id : string;
  sk_secret_share_tweak : option SecretShareProto;
  sk_pubkey_shares_tweak : gmap string (list Z);
  sk_secret_cipher : list Z;
  sk_signature : list Z;
  sk_refund_signature : list Z;
  sk_direct_refund_signature : list Z;
  sk_direct_from_cpfp_refund_signature : list Z
}.

Record ClaimLeafKeyTweak : Type := {
  ck_leaf_id : string;
  ck_secret_share_tweak : option SecretShareProto;
  ck_pubkey_shares_tweak : gmap string (list Z)
}.

Inductive Participant : Type :=
| ReceiverIdentityPublicKey (key : list Z)
| SenderIdentityPublicKey (key : list Z)
| SenderOrReceiverIdentityPublicKey (key : list Z).

Record TransferFilter : Type := {
  tf_participant : option Participant;
  tf_transfer_ids : list string;
  tf_limit : Z;
  tf_offset : Z;
  tf_types : list TransferType;
  tf_network : Z;
  tf_order : Paging.Order
}.

Record ClaimTransferTweakKeysRequest : Type := {
  ct_transfer_id : string;
  ct_owner_identity_public_key : list Z;
  ct_leaves_to_receive : list ClaimLeafKeyTweak
}.

Inductive HashVariant : Type := HashUnspecified | HashV2.

Section data.
Context {bt : BitcoinTypes} {W : Type} {se : SignerEnv W} {tt : TransferTypes} {sh : ShareTypes}.

Record SecretShare : Type := { share_threshold : Z; share_index : Scalar; share_value : Scalar }.

Record VerifiableSecretShare : Type := { secret_share : SecretShare; proofs : list ProofKey }.

Record RefundSignatures : Type := {
  cpfp_signatures : gmap TreeNodeId EcdsaSignature;
  direct_signatures : gmap TreeNodeId EcdsaSignature;
  direct_from_cpfp_signatures : gmap TreeNodeId EcdsaSignature
}.

Definition RefundSignatures_default : RefundSignatures :=
  {| cpfp_signatures := ∅; direct_signatures := ∅; direct_from_cpfp_signatures := ∅ |}.

Record TransferPackage : Type := {
  leaves_to_send : list UserSignedTxSigningJob;
  direct_leaves_to_send : list UserSignedTxSigningJob;
  direct_from_cpfp_leaves_to_send : list UserSignedTxSigningJob;
  key_tweak_package : gmap string (list Z);
  tp_user_signature : list Z;
  hash_variant : HashVariant
}.

Record PreparedTransferPackage : Type := {
  transfer_package : TransferPackage;
  cpfp_signed_txs : list SignedTx
}.

(** [leaves_to_send] is deprecated: only cooperative exits fill it. *)
Record StartTransferRequest : Type := {
  rq_transfer_id : string;
  rq_leaves_to_send : list LeafRefundTxSigningJob;
  rq_owner_identity_public_key : list Z;
  rq_receiver_identity_public_key : list Z;
  rq_expiry_time : option ProtoTimestamp;
  rq_transfer_package : option TransferPackage;
  rq_spark_invoice : string
}.

Record PreparedTransferRequest : Type := {
  transfer_request : StartTransferRequest;
  ptr_cpfp_signed_txs : list SignedTx
}.

Record FinalizeTransferRequest : Type := {
  fr_transfer_id : string;
  fr_owner_identity_public_key : list Z;
  fr_transfer_package : option TransferPackage
}.

Record ClaimTransferSignRefundsRequest : Type := {
  cr_transfer_id : string;
  cr_owner_identity_public_key : list Z;
  cr_signing_jobs : list LeafRefundTxSigningJob
}.

(** The fields of [TransferService] that do not change. *)
Record TransferService : Type := {
  ts_network : Network;
  split_secret_threshold : Z;
  operator_pool : OperatorPool
}.
End data.

(** ** Collaborators *)

Class TransferSigner {bt : BitcoinTypes} {sh : ShareTypes} {tt : TransferTypes} (W : Type) := {
  subtract_secrets : SecretSource → SecretSource → SE W SignerError SecretSource;
  (** [SecretToSplit::SecretSource], the threshold and the number of shares. *)
  split_secret_with_proofs : SecretSource → Z → Z → SE W SignerError (list VerifiableSecretShare);
  encrypt_secret_for_receiver : list Z → SecpPublicKey → SE W SignerError (list Z);
  sign_message_ecdsa_with_identity_key : list Z → SE W SignerError EcdsaSignature;
  generate_random_secret : SE W SignerError (list Z)
}.

Class TransferOperators {bt : BitcoinTypes} (W : Type) {se : SignerEnv W} {tt : TransferTypes} := {
  (** The payloads of the errors of the services. *)
  rpc_error : OperatorRpcError → OtherError;
  as_rpc_error : OtherError → option OperatorRpcError;
  ProtoNonceCommitments : Type;
  (** [map_signing_nonce_commitments]. *)
  map_nonce_commitments : ProtoNonceCommitments → result OperatorCommitments ServiceError;
  (** [Secp256k1::verify_ecdsa] of a digest: the text of the error. *)
  verify_ecdsa : list Z → EcdsaSignature → SecpPublicKey → option string;
  encode_send_leaf_key_tweaks : list SendLeafKeyTweak → list Z;
  (** [utils::ecies::encrypt]; the errors are texts. *)
  ecies_encrypt : list Z → list Z → SE W string (list Z);
  uuid_now_v7 : W → W * Uuid;
  sleep_ms : Z → W → W;
  (** [None] when no observer is set. *)
  before_send_transfer : option (Uuid → string → Z → SE W ServiceError ());
  get_signing_commitments :
    Operator → list string → Z → SE W OperatorRpcError (list ProtoNonceCommitments);
  start_transfer_v2 : Operator → StartTransferRequest → SE W OperatorRpcError (option ProtoTransfer);
  finalize_transfer_with_transfer_package :
    Operator → FinalizeTransferRequest → SE W OperatorRpcError (option ProtoTransfer);
  query_all_transfers : Operator → TransferFilter → SE W OperatorRpcError (list ProtoTransfer * Z);
  query_pending_transfers_rpc :
    Operator → TransferFilter → SE W OperatorRpcError (list ProtoTransfer * Z);
  claim_transfer_tweak_keys_rpc : Operator → ClaimTransferTweakKeysRequest → SE W OperatorRpcError ();
  claim_transfer_sign_refunds_v2 :
    Operator → ClaimTransferSignRefundsRequest →
    SE W OperatorRpcError (list LeafRefundTxSigningResult);
  finalize_node_signatures_v2 : Operator → list NodeSignatures → SE W OperatorRpcError (list ProtoTreeNode)
}.

(** The keys of the tree are those of the addresses. *)
Class AddressKeys {bt : BitcoinTypes} {ao : AddressOps} := { address_key : SecpPublicKey → AddrKey }.

Section service.
Context {ho : HashOrder} {bt : BitcoinTypes} {bo : BitcoinOps} {ao : AddressOps} {ak : AddressKeys}
  {tx : TokenTextOps} {W : Type} {se : SignerEnv W} {fs : FrostSigner W} {tt : TransferTypes}
  {sh : ShareTypes} {sg : TransferSigner W} {top : TransferOperators W} {sch : Scheduler}.
Context (self : TransferService).

Abbreviation Fault := (exn ServiceError).
Abbreviation M A := (SE W Fault A).

Definition generic_fault {A} (s : string) : M A := se_fail (Throw (SE_Generic s)).
Definition of_service {A} (r : result A ServiceError) : M A := se_lift (throws r).
(** [?] on the errors of the signer and of the operators. *)
Definition of_signer {A} (m : SE W SignerError A) : M A := se_map_err (λ e, Throw (of_signer_error e)) m.
Definition of_rpc_error (e : OperatorRpcError) : ServiceError := ServiceConnectionError (rpc_error e).
Definition of_rpc {A} (m : SE W OperatorRpcError A) : M A := se_map_err (λ e, Throw (of_rpc_error e)) m.

(** A signer error inside [exn]. *)
Definition of_signer_exn {A} (m : SE W (exn SignerError) A) : M A :=
  se_map_err (λ e, match e with Throw e => Throw (of_signer_error e) | Panic => Panic end) m.

Definition coordinator : M Operator := se_lift (get_coordinator (operator_pool self)).

Definition identity_key_bytes : M (list Z) :=
  do* key := of_signer get_identity_public_key in se_ret (key_serialize key).

Definition is_connection (e : ServiceError) : option Status :=
  match e with
  | ServiceConnectionError e =>
      match as_rpc_error e with Some (Connection status) => Some status | _ => None end
  | _ => None
  end.

(** ** Key tweaks of a send *)

(** [prepare_leaf_key_tweaks_to_send]. *)
Fixpoint prepare_leaf_key_tweaks_to_send (leaves : list TreeNode)
    (signing_key_source : option SecretSource) : SE W SignerError (list LeafKeyTweak) :=
  match leaves with
  | [] => se_ret []
  | leaf :: leaves =>
      let our_key := default (Derived (tn_id leaf)) signing_key_source in
      do* ephemeral_key := generate_random_secret in
      do* tweaks := prepare_leaf_key_tweaks_to_send leaves signing_key_source in
      se_ret ({| lk_node := leaf; signing_key := our_key;
                 new_signing_key := Encrypted ephemeral_key |} :: tweaks)
  end.

Definition find_share (shares : list VerifiableSecretShare) (operator_id : Z)
    : option VerifiableSecretShare :=
  let target_share_index := Scalar_from_u64 (wadd 64 operator_id 1) in
  List.find (λ share, bool_decide (share_index (secret_share share) = target_share_index)) shares.

Definition operator_share (shares : list VerifiableSecretShare) (operator : Operator)
    : result VerifiableSecretShare ServiceError :=
  ok_or (find_share shares (op_id operator))
    (SE_Generic ("Share not found for operator " +:+ pretty (op_id operator))).

(** The public keys of the shares, by the identifier of the operator. *)
Fixpoint pubkey_shares_loop (shares : list VerifiableSecretShare) (ops : list Operator)
    (pubkey_shares_tweak : gmap string (list Z)) : result (gmap string (list Z)) ServiceError :=
  match ops with
  | [] => Ok pubkey_shares_tweak
  | operator :: ops =>
      let* share := operator_share shares operator in
      let* pubkey_tweak :=
        ok_or (secret_public_key (Scalar_to_bytes (share_value (secret_share share))))
          (SE_Generic "Invalid secret share") in
      pubkey_shares_loop shares ops
        (<[hex_encode (Identifier_serialize (op_identifier operator)) := key_serialize pubkey_tweak]>
           pubkey_shares_tweak)
  end.

Definition proto_share (share : VerifiableSecretShare) : SecretShareProto :=
  {| sp_secret_share := Scalar_to_bytes (share_value (secret_share share));
     sp_proofs := to_sec1_bytes <$> proofs share |}.

(** The tweak of each operator, made from its share. *)
Fixpoint tweaks_loop {T} (mk : VerifiableSecretShare → T) (shares : list VerifiableSecretShare)
    (ops : list Operator) (m : gmap FrostIdentifier T) : result (gmap FrostIdentifier T) ServiceError :=
  match ops with
  | [] => Ok m
  | operator :: ops =>
      let* share := operator_share shares operator in
      tweaks_loop mk shares ops (<[op_identifier operator := mk share]> m)
  end.

(** [subtract_secrets], [split_secret_with_proofs] and the public keys of the shares. *)
Definition split_key_tweak (leaf : LeafKeyTweak)
    : M (list VerifiableSecretShare * gmap string (list Z)) :=
  do* privkey_tweak := of_signer (subtract_secrets (signing_key leaf) (new_signing_key leaf)) in
  do* shares := of_signer (split_secret_with_proofs privkey_tweak (split_secret_threshold self)
                             (pool_len (operator_pool self))) in
  do* pubkeys := of_service (pubkey_shares_loop shares (get_all_operators (operator_pool self)) ∅) in
  se_ret (shares, pubkeys).

(** What the sender signs for a leaf, and the receiver verifies. *)
Definition leaf_payload (leaf_id : TreeNodeId) (transfer_id : Uuid) (secret_cipher : list Z) : list Z :=
  as_bytes leaf_id ++ as_bytes (Uuid_to_string transfer_id) ++ secret_cipher.

Definition optional_signature (s : option EcdsaSignature) : list Z :=
  default [] (ecdsa_serialize_compact <$> s).

Definition prepare_single_send_transfer_key_tweak (transfer_id : Uuid) (leaf : LeafKeyTweak)
    (receiver_public_key : SecpPublicKey)
    (cpfp_refund_signature direct_refund_signature direct_from_cpfp_refund_signature : option EcdsaSignature)
    : M (gmap FrostIdentifier SendLeafKeyTweak) :=
  do* (shares, pubkey_shares_tweak) := split_key_tweak leaf in
  do* secret_cipher :=
    match new_signing_key leaf with
    | Derived _ => generic_fault "Trying to share derived private key"
    | Encrypted private_key => of_signer (encrypt_secret_for_receiver private_key receiver_public_key)
    end in
  let payload := leaf_payload (tn_id (lk_node leaf)) transfer_id secret_cipher in
  do* signature := of_signer (sign_message_ecdsa_with_identity_key payload) in
  of_service (tweaks_loop
    (λ share, {| sk_leaf_id := tn_id (lk_node leaf);
                 sk_secret_share_tweak := Some (proto_share share);
                 sk_pubkey_shares_tweak := pubkey_shares_tweak;
                 sk_secret_cipher := secret_cipher;
                 sk_signature := ecdsa_serialize_compact signature;
                 sk_refund_signature := optional_signature cpfp_refund_signature;
                 sk_direct_refund_signature := optional_signature direct_refund_signature;
                 sk_direct_from_cpfp_refund_signature :=
                   optional_signature direct_from_cpfp_refund_signature |})
    shares (get_all_operators (operator_pool self)) ∅).

(** [for (id, tweak) in one { all.entry(id).or_insert_with(Vec::new).push(tweak) }]. *)
Definition push_all {T} (one : gmap FrostIdentifier T) (all : gmap FrostIdentifier (list T))
    : gmap FrostIdentifier (list T) :=
  foldl (λ all '(identifier, tweak), <[identifier := default [] (all !! identifier) ++ [tweak]]> all)
    all (hm_iter one).

Fixpoint send_tweaks_loop (transfer_id : Uuid) (receiver_public_key : SecpPublicKey)
    (leaves : list LeafKeyTweak) (refund_signatures : RefundSignatures)
    (leaves_tweaks_map : gmap FrostIdentifier (list SendLeafKeyTweak))
    : M (gmap FrostIdentifier (list SendLeafKeyTweak)) :=
  match leaves with
  | [] => se_ret leaves_tweaks_map
  | leaf :: leaves =>
      let id := tn_id (lk_node leaf) in
      do* leaf_tweaks_map :=
        prepare_single_send_transfer_key_tweak transfer_id leaf receiver_public_key
          (cpfp_signatures refund_signatures !! id) (direct_signatures refund_signatures !! id)
          (direct_from_cpfp_signatures refund_signatures !! id) in
      send_tweaks_loop transfer_id receiver_public_key leaves refund_signatures
        (push_all leaf_tweaks_map leaves_tweaks_map)
  end.

Definition prepare_send_transfer_key_tweaks (transfer_id : Uuid) (receiver_public_key : SecpPublicKey)
    (leaves : list LeafKeyTweak) (refund_signatures : RefundSignatures)
    : M (gmap FrostIdentifier (list SendLeafKeyTweak)) :=
  send_tweaks_loop transfer_id receiver_public_key leaves refund_signatures ∅.

(** ** The transfer package *)

(** [encrypt_key_tweaks] with [encrypt_with_public_key]. *)
Fixpoint encrypt_key_tweaks_loop (entries : list (FrostIdentifier * list SendLeafKeyTweak))
    (encrypted_key_tweaks : gmap FrostIdentifier (list Z)) : M (gmap FrostIdentifier (list Z)) :=
  match entries with
  | [] => se_ret encrypted_key_tweaks
  | (key, value) :: entries =>
      let proto_to_encrypt_binary := encode_send_leaf_key_tweaks value in
      do* operator_client :=
        se_lift (ok_or (get_operator_by_identifier (operator_pool self) key)
                   (Throw (SE_Generic "Operator not found"))) in
      do* encrypted_proto :=
        se_map_err (λ e, Throw (SE_Generic ("ECIES encryption failed: " +:+ e)))
          (ecies_encrypt (serialize_uncompressed (op_identity_public_key operator_client))
             proto_to_encrypt_binary) in
      encrypt_key_tweaks_loop entries (<[key := encrypted_proto]> encrypted_key_tweaks)
  end.

Definition encrypt_key_tweaks (key_tweak_input_map : gmap FrostIdentifier (list SendLeafKeyTweak))
    : M (gmap FrostIdentifier (list Z)) :=
  encrypt_key_tweaks_loop (hm_iter key_tweak_input_map) ∅.

(** [s.replace('-', "")]. *)
Fixpoint remove_dashes (s : string) : string :=
  match s with
  | EmptyString => EmptyString
  | String c s => if Ascii.eqb c "-"%char then remove_dashes s else String c (remove_dashes s)
  end.

(** The keys of the map, as the strings' bytes. *)
Definition bytes_map (m : gmap string (list Z)) : gmap (list Z) (list Z) :=
  insert_all (λ kv, as_bytes kv.1) snd (map_to_list m) ∅.

Definition get_transfer_package_signing_payload (transfer_id : Uuid) (package : TransferPackage)
    : M (list Z) :=
  do* transfer_id_bytes :=
    se_lift (ok_or (hex_decode (remove_dashes (Uuid_to_string transfer_id)))
               (Throw (ValidationError "Failed to decode transfer ID"))) in
  let hasher := TaggedHasher_new sha256 (as_bytes <$> ["spark"; "transfer"; "signing payload"]) in
  se_ret (signable_message
            (add_map_string_to_bytes (add_bytes hasher transfer_id_bytes)
               (bytes_map (key_tweak_package package)))).

Definition sign_transfer_package (transfer_id : Uuid) (package : TransferPackage) : M TransferPackage :=
  do* signing_payload := get_transfer_package_signing_payload transfer_id package in
  do* signature := of_signer (sign_message_ecdsa_with_identity_key signing_payload) in
  se_ret {| leaves_to_send := leaves_to_send package;
            direct_leaves_to_send := direct_leaves_to_send package;
            direct_from_cpfp_leaves_to_send := direct_from_cpfp_leaves_to_send package;
            key_tweak_package := key_tweak_package package;
            tp_user_signature := ecdsa_serialize_der signature;
            hash_variant := hash_variant package |}.

(** [chunks] of the leaves panics without leaves. *)
Definition chunked_commitments (n : nat) (signing_commitments : list OperatorCommitments)
    : result (list OperatorCommitments * list OperatorCommitments * list OperatorCommitments) Fault :=
  if bool_decide (n = O) then Err Panic
  else match chunks n signing_commitments with
       | [cpfp; direct; direct_from_cpfp] => Ok (cpfp, direct, direct_from_cpfp)
       | _ => Err (Throw (SSPswapError "Not enough signing commitments returned"))
       end.

Definition signing_jobs (txs : list SignedTx) : M (list UserSignedTxSigningJob) :=
  of_service (collect UserSignedTxSigningJob_try_from txs).

Definition prepare_transfer_package (transfer_id : Uuid)
    (key_tweak_input_map : gmap FrostIdentifier (list SendLeafKeyTweak))
    (leaf_key_tweaks : list LeafKeyTweak) (receiver_public_key : SecpPublicKey)
    (payment_hash : option (list Z)) (cpfp_adaptor_public_key : option SecpPublicKey)
    : M PreparedTransferPackage :=
  do* op := coordinator in
  do* protos := of_rpc (get_signing_commitments op ((λ l, tn_id (lk_node l)) <$> leaf_key_tweaks) 3) in
  do* signing_commitments := of_service (collect map_nonce_commitments protos) in
  do* (cpfp, direct, direct_from_cpfp) :=
    se_lift (chunked_commitments (length leaf_key_tweaks) signing_commitments) in
  do* signed := of_signer_exn (sign_refunds
    {| cpfp_signing_commitments := cpfp; direct_signing_commitments := direct;
       direct_from_cpfp_signing_commitments := direct_from_cpfp;
       receiver_pubkey := receiver_public_key; payment_hash := payment_hash;
       sr_network := ts_network self; cpfp_adaptor_public_key := cpfp_adaptor_public_key |}
    leaf_key_tweaks) in
  do* encrypted_key_tweaks := encrypt_key_tweaks key_tweak_input_map in
  do* cpfp_jobs := signing_jobs (cpfp_signed_tx signed) in
  do* direct_jobs := signing_jobs (direct_signed_tx signed) in
  do* direct_from_cpfp_jobs := signing_jobs (direct_from_cpfp_signed_tx signed) in
  do* signed_transfer_package := sign_transfer_package transfer_id
    {| leaves_to_send := cpfp_jobs; direct_leaves_to_send := direct_jobs;
       direct_from_cpfp_leaves_to_send := direct_from_cpfp_jobs;
       key_tweak_package := insert_all (λ kv, hex_encode (Identifier_serialize kv.1)) snd
                              (hm_iter encrypted_key_tweaks) ∅;
       tp_user_signature := []; hash_variant := HashV2 |} in
  se_ret {| transfer_package := signed_transfer_package; cpfp_signed_txs := cpfp_signed_tx signed |}.

(** [expiry_time.map(..).transpose()]. *)
Definition proto_expiry (expiry_time : option Z) : result (option ProtoTimestamp) Fault :=
  map_opt (λ t, ok_or (web_time_to_prost_timestamp t) (Throw (SE_Generic "Invalid expiry time")))
    expiry_time.

Definition prepare_transfer_request (transfer_id : Uuid) (leaves : list LeafKeyTweak)
    (receiver_public_key : SecpPublicKey) (refund_signatures : RefundSignatures)
    (payment_hash : option (list Z)) (expiry_time : option Z)
    (cpfp_adaptor_public_key : option SecpPublicKey) : M PreparedTransferRequest :=
  do* key_tweak_input_map :=
    prepare_send_transfer_key_tweaks transfer_id receiver_public_key leaves refund_signatures in
  do* prepared_package :=
    prepare_transfer_package transfer_id key_tweak_input_map leaves receiver_public_key payment_hash
      cpfp_adaptor_public_key in
  do* owner := identity_key_bytes in
  do* expiry := se_lift (proto_expiry expiry_time) in
  se_ret {| transfer_request :=
              {| rq_transfer_id := Uuid_to_string transfer_id;
                 rq_leaves_to_send := [];
                 rq_owner_identity_public_key := owner;
                 rq_receiver_identity_public_key := key_serialize receiver_public_key;
                 rq_expiry_time := expiry;
                 rq_transfer_package := Some (transfer_package prepared_package);
                 rq_spark_invoice := "" |};
            ptr_cpfp_signed_txs := cpfp_signed_txs prepared_package |}.

(** ** Sending *)

Definition send_transfer_with_key_tweaks (transfer_id : Uuid) (leaf_key_tweaks : list LeafKeyTweak)
    (receiver_id : SecpPublicKey) (spark_invoice : option string) : M Transfer :=
  do* key_tweak_input_map :=
    prepare_send_transfer_key_tweaks transfer_id receiver_id leaf_key_tweaks RefundSignatures_default in
  do* prepared_package :=
    prepare_transfer_package transfer_id key_tweak_input_map leaf_key_tweaks receiver_id None None in
  do* owner := identity_key_bytes in
  let start_transfer_request :=
    {| rq_transfer_id := Uuid_to_string transfer_id;
       rq_leaves_to_send := [];
       rq_owner_identity_public_key := owner;
       rq_receiver_identity_public_key := key_serialize receiver_id;
       rq_expiry_time := None;
       rq_transfer_package := Some (transfer_package prepared_package);
       rq_spark_invoice := default "" spark_invoice |} in
  do* op := coordinator in
  do* response := of_rpc (start_transfer_v2 op start_transfer_request) in
  do* transfer := of_service (ok_or response (SE_Generic "No transfer from operator")) in
  of_service (Transfer_try_from transfer).

(** A filter for one transfer, the other fields by default. *)
Definition one_transfer (transfer_id : Uuid) (participant : list Z → Participant) (key : list Z)
    : TransferFilter :=
  {| tf_participant := Some (participant key); tf_transfer_ids := [Uuid_to_string transfer_id];
     tf_limit := 0; tf_offset := 0; tf_types := [];
     tf_network := to_proto_network (ts_network self); tf_order := Descending |}.

Definition recoverable (error : ServiceError) : bool :=
  match is_connection error with
  | Some status => bool_decide (status_code status = Internal ∨ status_code status = AlreadyExists)
  | None => false
  end.

Definition recover_transfer_on_rpc_connection_error (transfer_id : Uuid) (error : ServiceError)
    : M Transfer :=
  if recoverable error then
    do* op := coordinator in
    do* key := identity_key_bytes in
    do* (transfers, _) :=
      of_rpc (query_all_transfers op (one_transfer transfer_id SenderIdentityPublicKey key)) in
    match transfers with
    | transfer :: _ => of_service (Transfer_try_from transfer)
    | [] => se_fail (Throw error)
    end
  else se_fail (Throw error).

(** The text given to the observer: the invoice, or the address of the receiver. *)
Definition pay_request (spark_invoice : option string) (receiver_id : SecpPublicKey)
    : result string Fault :=
  let receiver_address :=
    {| identity_public_key := address_key receiver_id; network := ts_network self;
       spark_invoice_fields := None |} in
  match to_address_string receiver_address with
  | Err Panic => Err Panic
  | Err (Throw _) => ok_or spark_invoice (Throw (SE_Generic "No pay request available"))
  | Ok address => Ok (default address spark_invoice)
  end.

Definition notify_observer (transfer_id : Uuid) (leaves : list TreeNode) (receiver_id : SecpPublicKey)
    (spark_invoice : option string) : M () :=
  match before_send_transfer with
  | None => se_ret ()
  | Some observe =>
      do* identity_public_key := of_signer get_identity_public_key in
      if bool_decide (identity_public_key = receiver_id) then se_ret ()
      else
        let amount_sats := sum_u 64 (value <$> leaves) in
        do* request := se_lift (pay_request spark_invoice receiver_id) in
        se_map_err Throw (observe transfer_id request amount_sats)
  end.

Definition transfer_leaves_to (leaves : list TreeNode) (receiver_id : SecpPublicKey)
    (transfer_id : option Uuid) (signing_key_source : option SecretSource)
    (spark_invoice : option string) : M Transfer :=
  do* unwrapped_transfer_id :=
    match transfer_id with Some id => se_ret id | None => se_total uuid_now_v7 end in
  do* _ := notify_observer unwrapped_transfer_id leaves receiver_id spark_invoice in
  do* leaf_key_tweaks := of_signer (prepare_leaf_key_tweaks_to_send leaves signing_key_source) in
  try* transfer_res :=
    send_transfer_with_key_tweaks unwrapped_transfer_id leaf_key_tweaks receiver_id spark_invoice in
  match transfer_id, transfer_res with
  | _, Ok t => se_ret t
  | Some transfer_id, Err (Throw e) => recover_transfer_on_rpc_connection_error transfer_id e
  | _, Err e => se_fail e
  end.

Definition deliver_transfer_package (transfer : Transfer) (leaves : list LeafKeyTweak)
    (refund_signatures : RefundSignatures) : M Transfer :=
  do* prepared :=
    prepare_transfer_request (t_id transfer) leaves (receiver_identity_public_key transfer)
      refund_signatures None None None in
  let request := transfer_request prepared in
  do* op := coordinator in
  do* response := of_rpc (finalize_transfer_with_transfer_package op
    {| fr_transfer_id := rq_transfer_id request;
       fr_owner_identity_public_key := rq_owner_identity_public_key request;
       fr_transfer_package := rq_transfer_package request |}) in
  match response with
  | Some transfer => of_service (Transfer_try_from transfer)
  | None => generic_fault "No transfer response from operator"
  end.

(** ** Queries *)

Definition query_transfer (transfer_id : Uuid) : M (option Transfer) :=
  do* op := coordinator in
  do* key := identity_key_bytes in
  do* (transfers, _) :=
    of_rpc (query_all_transfers op (one_transfer transfer_id SenderOrReceiverIdentityPublicKey key)) in
  match transfers with
  | transfer :: _ => do* t := of_service (Transfer_try_from transfer) in se_ret (Some t)
  | [] => se_ret None
  end.

(** A page of a query; [limit as i64] and [offset as i64]. *)
Definition query_page (rpc : Operator → TransferFilter → SE W OperatorRpcError (list ProtoTransfer * Z))
    (participant : list Z → Participant) (transfer_ids : list Uuid) (types : list TransferType)
    (order : Paging.Order) (paging : PagingFilter) : M (PagingResult (T := Transfer)) :=
  do* op := coordinator in
  do* key := identity_key_bytes in
  do* (transfers, resp_offset) := of_rpc (rpc op
    {| tf_participant := Some (participant key); tf_transfer_ids := Uuid_to_string <$> transfer_ids;
       tf_limit := as_i64 (limit paging); tf_offset := as_i64 (offset paging); tf_types := types;
       tf_network := to_proto_network (ts_network self); tf_order := order |}) in
  do* items := of_service (collect Transfer_try_from transfers) in
  se_ret {| items := items; next := next_from_offset paging resp_offset |}.

Definition query_transfers_inner (transfer_ids : list Uuid) (paging : PagingFilter) :=
  query_page query_all_transfers SenderOrReceiverIdentityPublicKey transfer_ids
    [PlainTransfer; PreimageSwap; CooperativeExit; UtxoSwap] (order paging) paging.

Definition query_pending_transfers_inner (paging : PagingFilter) :=
  query_page query_pending_transfers_rpc SenderOrReceiverIdentityPublicKey [] [] Descending paging.

Definition query_claimable_receiver_transfers_inner (paging : PagingFilter) :=
  query_page query_pending_transfers_rpc ReceiverIdentityPublicKey [] [] Descending paging.

(** One page when asked for, every page otherwise. *)
Definition paged {A} (fuel : nat) (inner : PagingFilter → M (PagingResult (T := A)))
    (paging : option PagingFilter) (w : W) : W * option (result (PagingResult (T := A)) Fault) :=
  match paging with
  | Some paging => let '(w, r) := inner paging w in (w, Some r)
  | None => pager fuel inner PagingFilter_default w
  end.

Definition query_transfers (fuel : nat) (transfer_ids : list Uuid) (paging : option PagingFilter) :=
  paged fuel (query_transfers_inner transfer_ids) paging.

Definition query_pending_transfers (fuel : nat) (paging : option PagingFilter) :=
  paged fuel query_pending_transfers_inner paging.

Definition query_claimable_receiver_transfers (fuel : nat) (paging : option PagingFilter) :=
  paged fuel query_claimable_receiver_transfers_inner paging.

(** ** Claims: the sender's signatures *)

Fixpoint verify_leaves (transfer : Transfer) (leaves : list TransferLeaf)
    (leaf_key_map : gmap TreeNodeId SecretSource) : result (gmap TreeNodeId SecretSource) ServiceError :=
  match leaves with
  | [] => Ok leaf_key_map
  | transfer_leaf :: leaves =>
      let id := tn_id (tl_leaf transfer_leaf) in
      let digest := sha256 (leaf_payload id (t_id transfer) (secret_cipher transfer_leaf)) in
      match tl_signature transfer_leaf with
      | None => Err (SE_Generic "Transfer leaf signature is missing")
      | Some signature =>
          match verify_ecdsa digest signature (sender_identity_public_key transfer) with
          | Some e => Err (SignatureVerificationFailed e)
          | None =>
              verify_leaves transfer leaves
                (<[id := Encrypted (secret_cipher transfer_leaf)]> leaf_key_map)
          end
      end
  end.

Definition verify_pending_transfer (transfer : Transfer)
    : result (gmap TreeNodeId SecretSource) ServiceError :=
  verify_leaves transfer (leaves transfer) ∅.

Definition claimed_leaf (leaf_key_map : gmap TreeNodeId SecretSource) (leaf : TransferLeaf)
    : option LeafKeyTweak :=
  (λ leaf_key, {| lk_node := leaf_with_intermediate_txs leaf; signing_key := leaf_key;
                  new_signing_key := Derived (tn_id (tl_leaf leaf)) |})
    <$> leaf_key_map !! tn_id (tl_leaf leaf).

Definition prepare_leaves_for_claiming (transfer : Transfer) (leaf_key_map : gmap TreeNodeId SecretSource)
    : result (list LeafKeyTweak) ServiceError :=
  let leaves_to_claim := omap (claimed_leaf leaf_key_map) (leaves transfer) in
  if bool_decide (leaves_to_claim = []) then Err NoLeavesToClaim else Ok leaves_to_claim.

(** ** Claims: the key tweaks *)

(** The tweaks of one leaf, with the first proof of its first share. *)
Definition prepare_claim_leaf_key_tweaks (leaf : LeafKeyTweak)
    : M (gmap FrostIdentifier ClaimLeafKeyTweak * ProofKey) :=
  do* (shares, pubkey_shares_tweak) := split_key_tweak leaf in
  do* leaf_tweaks_map := of_service (tweaks_loop
    (λ share, {| ck_leaf_id := tn_id (lk_node leaf);
                 ck_secret_share_tweak := Some (proto_share share);
                 ck_pubkey_shares_tweak := pubkey_shares_tweak |})
    shares (get_all_operators (operator_pool self)) ∅) in
  do* proof := of_service (ok_or (s ← head shares; head (proofs s)) (SE_Generic "No proof found")) in
  se_ret (leaf_tweaks_map, proof).

Abbreviation ProofMap := (gmap TreeNodeId ProofKey).

Fixpoint prepare_claim_leaves_key_tweaks (leaves : list LeafKeyTweak)
    (leaf_data_map : gmap FrostIdentifier (list ClaimLeafKeyTweak)) (proof_map : ProofMap)
    : M (gmap FrostIdentifier (list ClaimLeafKeyTweak) * ProofMap) :=
  match leaves with
  | [] => se_ret (leaf_data_map, proof_map)
  | leaf :: leaves =>
      do* (leaf_key_tweaks, proof) := prepare_claim_leaf_key_tweaks leaf in
      prepare_claim_leaves_key_tweaks leaves (push_all leaf_key_tweaks leaf_data_map)
        (<[tn_id (lk_node leaf) := proof]> proof_map)
  end.

(** The states of a transfer whose receiver has tweaked its keys. *)
Definition receiver_tweaked (s : TransferStatus) : bool :=
  match s with
  | ReceiverKeyTweaked | ReceiverKeyTweakApplied | ReceiverKeyTweakLocked
  | ReceiverRefundSigned | TransferCompleted => true
  | _ => false
  end.

Abbreviation Task := (future W Fault ()).

Definition failed (e : ServiceError) : Task := Ready (Err (Throw e)).

(** The answer of an operator that refused the tweak: the transfer may be past it. *)
Definition operator_state (status : Status) (transfers : list ProtoTransfer) : result () ServiceError :=
  match transfers with
  | [] => Err (ClaimTransferError (status_text status))
  | operator_transfer :: _ =>
      let* operator_transfer := Transfer_try_from operator_transfer in
      if receiver_tweaked (t_status operator_transfer) then Ok ()
      else Err (ClaimTransferError (status_text status))
  end.

(** The task of one operator. *)
Definition tweak_task (transfer : Transfer) (identity_public_key : list Z) (operator : Operator)
    (leaves_to_receive : list ClaimLeafKeyTweak) : Task :=
  await (claim_transfer_tweak_keys_rpc operator
           {| ct_transfer_id := Uuid_to_string (t_id transfer);
              ct_owner_identity_public_key := identity_public_key;
              ct_leaves_to_receive := leaves_to_receive |})
    (λ result, match result with
     | Ok _ => Ready (Ok ())
     | Err (Connection status) =>
         await get_identity_public_key (λ key, match key with
         | Err e => failed (of_signer_error e)
         | Ok key =>
             await (query_all_transfers operator
                      (one_transfer (t_id transfer) ReceiverIdentityPublicKey (key_serialize key)))
               (λ transfers, match transfers with
                | Err e => failed (of_rpc_error e)
                | Ok (transfers, _) => Ready (throws (operator_state status transfers))
                end)
         end)
     | Err e => failed (of_rpc_error e)
     end).

(** The operators that have leaves to receive. *)
Definition tweak_tasks (transfer : Transfer) (identity_public_key : list Z)
    (leaves_tweaks_map : gmap FrostIdentifier (list ClaimLeafKeyTweak)) : list Task :=
  omap (λ operator, tweak_task transfer identity_public_key operator
                      <$> leaves_tweaks_map !! op_identifier operator)
    (get_all_operators (operator_pool self)).

(** All tasks together; each makes three calls at most. *)
Definition join_tasks (tasks : list Task) : M () := λ w,
  match try_join_all (3 * length tasks) 0 tasks w with
  | (w, Some (Ok _)) => (w, Ok ())
  | (w, Some (Err e)) => (w, Err e)
  | (w, None) => (w, Err Panic)
  end.

Definition claim_transfer_tweak_keys (transfer : Transfer) (leaves : list LeafKeyTweak) : M ProofMap :=
  do* (leaves_tweaks_map, proof_map) := prepare_claim_leaves_key_tweaks leaves ∅ ∅ in
  do* identity_public_key := identity_key_bytes in
  do* _ := join_tasks (tweak_tasks transfer identity_public_key leaves_tweaks_map) in
  se_ret proof_map.

(** ** Claims: the refunds *)

Definition claim_refund_signing_data (leaf_key : LeafKeyTweak) : SE W SignerError LeafRefundSigningData :=
  let node := lk_node leaf_key in
  do* signing_nonce_commitment := random_commitment in
  do* direct_signing_nonce_commitment := random_commitment in
  do* direct_from_cpfp_signing_nonce_commitment := random_commitment in
  do* signing_public_key := public_key_from_secret (new_signing_key leaf_key) in
  se_ret {| rd_signing_private_key := new_signing_key leaf_key;
            rd_signing_public_key := signing_public_key;
            rd_receiving_public_key := signing_public_key;
            rd_tx := node_tx node;
            rd_direct_tx := direct_tx node;
            rd_refund_tx := None;
            rd_direct_refund_tx := None;
            rd_direct_from_cpfp_refund_tx := None;
            rd_signing_nonce_commitment := signing_nonce_commitment;
            rd_direct_signing_nonce_commitment := direct_signing_nonce_commitment;
            rd_direct_from_cpfp_signing_nonce_commitment := direct_from_cpfp_signing_nonce_commitment;
            rd_vout := vout node;
            connector_prev_out := None |}.

Fixpoint claim_signing_data (leaf_keys : list LeafKeyTweak)
    (leaf_data_map : gmap TreeNodeId LeafRefundSigningData)
    : SE W SignerError (gmap TreeNodeId LeafRefundSigningData) :=
  match leaf_keys with
  | [] => se_ret leaf_data_map
  | leaf_key :: leaf_keys =>
      do* data := claim_refund_signing_data leaf_key in
      claim_signing_data leaf_keys (<[tn_id (lk_node leaf_key) := data]> leaf_data_map)
  end.

(** An error of the coordinator: a completed transfer was claimed by another instance. *)
Definition sign_refunds_error (transfer_id : Uuid) (e : OperatorRpcError)
    : M (list LeafRefundTxSigningResult) :=
  match e with
  | Connection _ =>
      do* coordinator_transfer := query_transfer transfer_id in
      match coordinator_transfer with
      | Some t =>
          if bool_decide (t_status t = TransferCompleted) then se_fail (Throw TransferAlreadyClaimed)
          else se_fail (Throw (of_rpc_error e))
      | None => se_fail (Throw (of_rpc_error e))
      end
  | _ => se_fail (Throw (of_rpc_error e))
  end.

Definition claim_transfer_sign_refunds (transfer : Transfer) (leaf_keys : list LeafKeyTweak)
    : M (list NodeSignatures) :=
  do* data := of_signer (claim_signing_data leaf_keys ∅) in
  let '(leaf_data_map, jobs) := prepare_refund_so_signing_jobs (ts_network self) leaf_keys true data in
  do* signing_jobs := se_lift jobs in
  do* op := coordinator in
  do* key := identity_key_bytes in
  try* result := claim_transfer_sign_refunds_v2 op
    {| cr_transfer_id := Uuid_to_string (t_id transfer); cr_owner_identity_public_key := key;
       cr_signing_jobs := signing_jobs |} in
  do* signing_results :=
    match result with
    | Ok signing_results => se_ret signing_results
    | Err e => sign_refunds_error (t_id transfer) e
    end in
  sign_aggregate_refunds leaf_data_map signing_results None None None.

Definition finalize_node_signatures (node_signatures : list NodeSignatures) : M (list TreeNode) :=
  do* op := coordinator in
  do* nodes := of_rpc (finalize_node_signatures_v2 op node_signatures) in
  of_service (collect TreeNode_try_from nodes).

Definition claim_transfer_with_leaves (transfer : Transfer) (leaves_to_claim : list LeafKeyTweak)
    : M (list TreeNode) :=
  do* _ :=
    (if bool_decide (t_status transfer = SenderKeyTweaked) then
       do* proof_map := claim_transfer_tweak_keys transfer leaves_to_claim in se_ret (Some proof_map)
     else se_ret None) in
  do* node_signatures := claim_transfer_sign_refunds transfer leaves_to_claim in
  finalize_node_signatures node_signatures.

(** ** Claims: the retries *)

(** [2u64.pow(n)] wraps in a release build. *)
Definition backoff_ms (config : ClaimTransferConfig) (retry_count : Z) : Z :=
  Z.min (wmul 64 (base_delay_ms config) (wrap 64 (2 ^ (retry_count - 1)))) (max_delay_ms config).

(** What one round of the loop comes to. *)
Inductive Attempt : Type := Claimed (nodes : list TreeNode) | AlreadyClaimed | Again.

Definition claim_attempt (transfer : Transfer) : M Attempt :=
  match verify_pending_transfer transfer with
  | Err _ => se_ret Again
  | Ok leaf_key_map =>
      match prepare_leaves_for_claiming transfer leaf_key_map with
      | Err NoLeavesToClaim => se_ret (Claimed [])
      | Err _ => se_ret Again
      | Ok leaves_to_claim =>
          try* result := claim_transfer_with_leaves transfer leaves_to_claim in
          match result with
          | Ok res => se_ret (Claimed res)
          | Err (Throw TransferAlreadyClaimed) => se_ret AlreadyClaimed
          | Err (Throw _) => se_ret Again
          | Err Panic => se_fail Panic
          end
      end
  end.

Definition backoff (config : ClaimTransferConfig) (retry_count : Z) : M () :=
  if 0 <? retry_count then se_total (λ w, (sleep_ms (backoff_ms config retry_count) w, ()))
  else se_ret ().

(** [retries] rounds are left, [retry_count] have failed. *)
Fixpoint claim_loop (config : ClaimTransferConfig) (transfer : Transfer) (retries : nat)
    (retry_count : Z) : M (list TreeNode) :=
  match retries with
  | O => se_fail (Throw MaxRetriesExceeded)
  | S retries =>
      do* _ := backoff config retry_count in
      do* attempt := claim_attempt transfer in
      match attempt with
      | Claimed nodes => se_ret nodes
      | AlreadyClaimed => se_fail (Throw TransferAlreadyClaimed)
      | Again => claim_loop config transfer retries (retry_count + 1)
      end
  end.

Definition claim_transfer (transfer : Transfer) (config : option ClaimTransferConfig) : M (list TreeNode) :=
  let config := default ClaimTransferConfig_default config in
  claim_loop config transfer (Z.to_nat (max_retries config)) 0.
End service.
