(* ===== verification/TransfersProps.v ===== *)
(** What the transfer service promises ([Transfers]): every operator gets its own share of one
    split per leaf, a claim tweaks keys only behind the sender's signatures and with every
    operator, signs what it sent, and ends after its retries; a send starts a transfer once. *)
From stdpp Require Import base gmap strings list.
From S2P Require Import Prelude Timelocks TreeTypes Payments Transactions Bytes Paging Addresses AddressesProps TokenTx TokenTxProps Traces Signing TransferModels Futures Transfers.

Lemma se_lift_ok {S E A} (r : result A E) (s s' : S) a : se_lift r s = (s', Ok a) ↔ s = s' ∧ r = Ok a.
Proof. unfold se_lift. naive_solver. Qed.

Lemma throws_lift_ok {S E A} (r : result A E) (s s' : S) a :
  se_lift (throws r) s = (s', Ok a) ↔ s = s' ∧ r = Ok a.
Proof. rewrite se_lift_ok. split; intros [-> H]; (split; [done|]); [by apply throws_ok|by rewrite H]. Qed.

Section props.
Context {ho : HashOrder} {bt : BitcoinTypes} {bo : BitcoinOps} {ao : AddressOps} {ak : AddressKeys}
  {tx : TokenTextOps} {W : Type} {se : SignerEnv W} {fs : FrostSigner W} {tt : TransferTypes}
  {sh : ShareTypes} {sg : TransferSigner W} {top : TransferOperators W} {sch : Scheduler}.
Context (self : TransferService).

Abbreviation ops := (get_all_operators (operator_pool self)).

(** ** Shares

    [distinct ops]: no two operators have the same identifier. *)
Definition distinct (ops : list Operator) : Prop := NoDup (op_identifier <$> ops).

Lemma find_share_index shares i share :
  find_share shares i = Some share →
  share ∈ shares ∧ share_index (secret_share share) = Scalar_from_u64 (wadd 64 i 1).
Proof. intros [Hin H]%find_Some_elem. apply bool_decide_eq_true in H. done. Qed.

Lemma operator_share_ok shares op share :
  operator_share shares op = Ok share → find_share shares (op_id op) = Some share.
Proof. apply ok_or_ok. Qed.

Lemma tweaks_loop_ok {T} (mk : VerifiableSecretShare → T) shares l m m' :
  tweaks_loop mk shares l m = Ok m' → distinct l →
  (∀ op, op ∈ l → ∃ share, find_share shares (op_id op) = Some share ∧
                    m' !! op_identifier op = Some (mk share)) ∧
  (∀ id, id ∉ op_identifier <$> l → m' !! id = m !! id).
Proof.
  unfold distinct. revert m. induction l as [|op l IH]; intros m; cbn [tweaks_loop].
  { intros [= <-] _. split; [set_solver|done]. }
  intros (share & Hs%operator_share_ok & H)%rbind_ok. rewrite fmap_cons, NoDup_cons. intros [Hnin Hnd].
  destruct (IH _ H Hnd) as [Hin Hout]. split.
  - intros o [->|Ho]%elem_of_cons; [|by apply Hin]. exists share. split; [done|].
    rewrite Hout by done. apply lookup_insert_eq.
  - intros id Hid. rewrite Hout by set_solver. apply lookup_insert_ne. set_solver.
Qed.

(** Every identifier of the map is that of an operator. *)
Lemma tweaks_loop_dom {T} (mk : VerifiableSecretShare → T) shares l m m' id t :
  tweaks_loop mk shares l m = Ok m' → m' !! id = Some t → id ∈ op_identifier <$> l ∨ m !! id = Some t.
Proof.
  revert m. induction l as [|op l IH]; intros m; cbn [tweaks_loop]; [intros [= <-]; auto|].
  intros (share & _ & H)%rbind_ok Hid. destruct (IH _ H Hid) as [?|Hm]; [left; set_solver|].
  destruct (decide (id = op_identifier op)) as [->|Hne]; [left; set_solver|].
  rewrite lookup_insert_ne in Hm by done. by right.
Qed.

Lemma push_all_loop {T} (l : list (FrostIdentifier * T)) (all : gmap FrostIdentifier (list T)) id :
  NoDup l.*1 →
  foldl (λ all '(identifier, tweak), <[identifier := default [] (all !! identifier) ++ [tweak]]> all) all l !! id
  = match list_find (λ kv, kv.1 = id) l with
    | Some (_, (_, t)) => Some (default [] (all !! id) ++ [t])
    | None => all !! id
    end.
Proof.
  revert all. induction l as [|[k t] l IH]; intros all; [done|].
  rewrite fmap_cons, NoDup_cons. intros [Hnin Hnd]. cbn [foldl]. rewrite IH by done. simpl.
  destruct (decide (k = id)) as [->|Hne].
  - assert (list_find (λ kv, kv.1 = id) l = None) as ->.
    { apply list_find_None, Forall_forall. intros kv Hkv <-. simpl in Hnin. by apply Hnin, (list_elem_of_fmap_2 fst). }
    apply lookup_insert_eq.
  - rewrite lookup_insert_ne by done. by destruct (list_find _ l) as [[? [? ?]]|].
Qed.

Lemma push_all_lookup {T} (one : gmap FrostIdentifier T) (all : gmap FrostIdentifier (list T)) id :
  push_all one all !! id =
    match one !! id with Some t => Some (default [] (all !! id) ++ [t]) | None => all !! id end.
Proof.
  unfold push_all. rewrite push_all_loop by apply NoDup_hm_keys.
  destruct (list_find _ _) as [[i [k t]]|] eqn:Hf.
  - apply list_find_Some in Hf as (Hi & Hk & _). simpl in Hk. subst k.
    apply list_elem_of_lookup_2, elem_of_hm_iter in Hi. by rewrite Hi.
  - destruct (one !! id) as [t|] eqn:Ht; [|done]. apply elem_of_hm_iter in Ht.
    apply list_find_None in Hf. rewrite Forall_forall in Hf. by destruct (Hf _ Ht).
Qed.

(** The split of the key tweak of a leaf: the shares come from one call of the signer, for the
    difference of the two keys of the leaf. *)
Definition split_of (leaf : LeafKeyTweak) (shares : list VerifiableSecretShare) : Prop :=
  ∃ tweak w1 w2 w3 w4,
    subtract_secrets (signing_key leaf) (new_signing_key leaf) w1 = (w2, Ok tweak) ∧
    split_secret_with_proofs tweak (split_secret_threshold self) (pool_len (operator_pool self)) w3
      = (w4, Ok shares).

Lemma split_key_tweak_ok leaf w w' shares pubkeys :
  split_key_tweak self leaf w = (w', Ok (shares, pubkeys)) → split_of leaf shares.
Proof.
  unfold split_key_tweak, of_signer, of_service. intros H.
  apply se_bind_ok in H as (w1 & tweak & Ht%se_map_err_ok & H).
  apply se_bind_ok in H as (w2 & sh' & Hs%se_map_err_ok & H).
  apply se_bind_ok in H as (w3 & pk & _ & [= <- <- <-]).
  by exists tweak, w, w1, w1, w2.
Qed.

(** The tweak of [op] carries its share, the one of index [op_id op + 1]. *)
Definition own_share (shares : list VerifiableSecretShare) (op : Operator) (s : option SecretShareProto) : Prop :=
  ∃ share, share ∈ shares ∧ share_index (secret_share share) = Scalar_from_u64 (wadd 64 (op_id op) 1) ∧
    s = Some (proto_share share).

(** *** Sends *)

(** The tweaks of one leaf: one split, one ciphertext of the new key for the receiver, one
    signature; only the share depends on the operator. *)
Definition send_tweaks_of (transfer_id : Uuid) (receiver : SecpPublicKey) (leaf : LeafKeyTweak)
    (tweak : Operator → option SendLeafKeyTweak) : Prop :=
  ∃ shares secret cipher signature w1 w2 w3 w4,
    split_of leaf shares ∧ new_signing_key leaf = Encrypted secret ∧
    encrypt_secret_for_receiver secret receiver w1 = (w2, Ok cipher) ∧
    sign_message_ecdsa_with_identity_key (leaf_payload (tn_id (lk_node leaf)) transfer_id cipher) w3
      = (w4, Ok signature) ∧
    ∀ op, op ∈ ops → ∃ t, tweak op = Some t ∧ own_share shares op (sk_secret_share_tweak t) ∧
      sk_leaf_id t = tn_id (lk_node leaf) ∧ sk_secret_cipher t = cipher ∧
      sk_signature t = ecdsa_serialize_compact signature.

Lemma prepare_single_send_ok transfer_id leaf receiver s1 s2 s3 w w' m :
  prepare_single_send_transfer_key_tweak self transfer_id leaf receiver s1 s2 s3 w = (w', Ok m) →
  distinct ops → send_tweaks_of transfer_id receiver leaf (λ op, m !! op_identifier op).
Proof.
  unfold prepare_single_send_transfer_key_tweak, of_service. intros H Hd.
  apply se_bind_ok in H as (w1 & [shares pubkeys] & Hsplit%split_key_tweak_ok & H).
  apply se_bind_ok in H as (w2 & cipher & Hc & H).
  apply se_bind_ok in H as (w3 & signature & Hs%se_map_err_ok & [-> H]%throws_lift_ok).
  destruct (new_signing_key leaf) as [id|secret] eqn:Hk; [done|].
  apply se_map_err_ok in Hc.
  destruct (tweaks_loop_ok _ _ _ _ _ H Hd) as [Hin _].
  exists shares, secret, cipher, signature, w1, w2, w2, w'. do 4 (split; [done|]).
  intros op Hop. destruct (Hin op Hop) as (share & Hf & Hl). eexists. split; [exact Hl|].
  apply find_share_index in Hf as [Hin' Hidx]. split_and!; [by exists share|done..].
Qed.

(** The tweaks of all leaves, for one operator, in the order of the leaves. *)
Lemma send_tweaks_loop_ok transfer_id receiver leaves sigs m w w' m' :
  send_tweaks_loop self transfer_id receiver leaves sigs m w = (w', Ok m') → distinct ops →
  ∃ tweaks : list (Operator → option SendLeafKeyTweak),
    Forall2 (send_tweaks_of transfer_id receiver) leaves tweaks ∧
    ∀ op, op ∈ ops → default [] (m' !! op_identifier op)
                     = default [] (m !! op_identifier op) ++ omap (λ tweak, tweak op) tweaks.
Proof.
  revert m w. induction leaves as [|leaf leaves IH]; intros m w; cbn [send_tweaks_loop].
  { intros [= <- <-] _. exists []. split; [constructor|]. intros. simpl. by rewrite app_nil_r. }
  intros (w1 & one & H1 & H)%se_bind_ok Hd.
  apply prepare_single_send_ok in H1; [|done].
  destruct (IH _ _ H Hd) as (tweaks & Hall & Hmap).
  exists ((λ op, one !! op_identifier op) :: tweaks). split; [by constructor|].
  intros op Hop. rewrite Hmap by done. rewrite push_all_lookup. cbn [omap list_omap].
  by destruct (one !! op_identifier op); simpl; rewrite <- ?app_assoc.
Qed.

(** sending leaves splits the key tweak of each leaf once.  Every operator of the pool
    receives exactly one tweak per leaf, in the order of the leaves, carrying the share of
    that split whose index is its own id plus one; the ciphertext of the leaf's new key
    (which is never a derived key) and the sender's signature over leaf id, transfer id and
    ciphertext are the same for all operators. *)
Theorem send_tweaks_own_share transfer_id receiver leaves sigs w w' m :
  prepare_send_transfer_key_tweaks self transfer_id receiver leaves sigs w = (w', Ok m) →
  distinct ops →
  ∃ tweaks : list (Operator → option SendLeafKeyTweak),
    Forall2 (send_tweaks_of transfer_id receiver) leaves tweaks ∧
    ∀ op, op ∈ ops →
      Forall2 (λ tweak t, tweak op = Some t) tweaks (default [] (m !! op_identifier op)).
Proof.
  intros H Hd. destruct (send_tweaks_loop_ok _ _ _ _ _ _ _ _ H Hd) as (tweaks & Hall & Hmap).
  exists tweaks. split; [done|]. intros op Hop. rewrite Hmap by done.
  rewrite lookup_empty. simpl. clear - Hall Hop. induction Hall as [|leaf tweak leaves tweaks Ht _ IH]; [constructor|].
  destruct Ht as (? & ? & ? & ? & ? & ? & ? & ? & _ & _ & _ & _ & Hop'). destruct (Hop' op Hop) as (t & Ht & _).
  simpl. rewrite Ht. by constructor.
Qed.

(** *** Claims *)

Definition claim_tweaks_of (leaf : LeafKeyTweak) (tweak : Operator → option ClaimLeafKeyTweak) : Prop :=
  ∃ shares, split_of leaf shares ∧
    ∀ op, op ∈ ops → ∃ t, tweak op = Some t ∧ own_share shares op (ck_secret_share_tweak t) ∧
      ck_leaf_id t = tn_id (lk_node leaf).

Lemma prepare_claim_leaf_ok leaf w w' m proof :
  prepare_claim_leaf_key_tweaks self leaf w = (w', Ok (m, proof)) → distinct ops →
  claim_tweaks_of leaf (λ op, m !! op_identifier op).
Proof.
  unfold prepare_claim_leaf_key_tweaks, of_service. intros H Hd.
  apply se_bind_ok in H as (w1 & [shares pubkeys] & Hsplit%split_key_tweak_ok & H).
  apply se_bind_ok in H as (w2 & m1 & [-> Hm]%throws_lift_ok & H).
  apply se_bind_ok in H as (w3 & pr & _ & [= <- <- <-]).
  destruct (tweaks_loop_ok _ _ _ _ _ Hm Hd) as [Hin _]. exists shares. split; [done|].
  intros op Hop. destruct (Hin op Hop) as (share & Hf & Hl). eexists. split; [exact Hl|].
  apply find_share_index in Hf as [Hin' Hidx]. split; [by exists share|done].
Qed.

Lemma prepare_claim_leaves_ok leaves m proofs w w' m' proofs' :
  prepare_claim_leaves_key_tweaks self leaves m proofs w = (w', Ok (m', proofs')) → distinct ops →
  ∃ tweaks : list (Operator → option ClaimLeafKeyTweak),
    Forall2 claim_tweaks_of leaves tweaks ∧
    ∀ op, op ∈ ops →
      default [] (m' !! op_identifier op)
        = default [] (m !! op_identifier op) ++ omap (λ tweak, tweak op) tweaks ∧
      (tweaks ≠ [] → is_Some (m' !! op_identifier op)) ∧
      (is_Some (m !! op_identifier op) → is_Some (m' !! op_identifier op)).
Proof.
  revert m proofs w. induction leaves as [|leaf leaves IH]; intros m proofs w;
    cbn [prepare_claim_leaves_key_tweaks].
  { intros [= <- <- <-] _. exists []. split; [constructor|]. intros. simpl. by rewrite app_nil_r. }
  intros (w1 & [one proof] & H1 & H)%se_bind_ok Hd.
  apply prepare_claim_leaf_ok in H1; [|done].
  destruct (IH _ _ _ H Hd) as (tweaks & Hall & Hmap).
  exists ((λ op, one !! op_identifier op) :: tweaks). split; [by constructor|].
  intros op Hop. destruct (Hmap op Hop) as (-> & _ & Hsome).
  destruct H1 as (shares & _ & H1). destruct (H1 op Hop) as (t & Ht & _).
  rewrite push_all_lookup, Ht in Hsome |- *. cbn [omap list_omap]. rewrite Ht. simpl.
  rewrite <- app_assoc. split; [done|]. by split; intros _; apply Hsome.
Qed.

(** An operator refused the tweak with a connection error, and then reported the transfer in
    a state past it. *)
Definition tweaked_before (transfer : Transfer) (op : Operator) (req : ClaimTransferTweakKeysRequest) : Prop :=
  ∃ w1 w2 status w3 w4 key p rest o t,
    claim_transfer_tweak_keys_rpc op req w1 = (w2, Err (Connection status)) ∧
    query_all_transfers op (one_transfer self (t_id transfer) ReceiverIdentityPublicKey key) w3
      = (w4, Ok (p :: rest, o)) ∧
    Transfer_try_from p = Ok t ∧
    t_status t ∈ [ReceiverKeyTweaked; ReceiverKeyTweakApplied; ReceiverKeyTweakLocked;
                  ReceiverRefundSigned; TransferCompleted].

Definition tweak_accepted (op : Operator) (req : ClaimTransferTweakKeysRequest) : Prop :=
  ∃ w1 w2, claim_transfer_tweak_keys_rpc op req w1 = (w2, Ok ()).

Definition tweak_request (transfer : Transfer) (key : list Z) (l : list ClaimLeafKeyTweak) :=
  {| ct_transfer_id := Uuid_to_string (t_id transfer); ct_owner_identity_public_key := key;
     ct_leaves_to_receive := l |}.

Lemma tweak_task_ok transfer key op l a :
  runs (tweak_task self transfer key op l) (Ready (Ok a)) →
  tweak_accepted op (tweak_request transfer key l) ∨
  tweaked_before transfer op (tweak_request transfer key l).
Proof.
  unfold tweak_task. intros (w1 & w2 & r & Hr & H)%runs_await.
  destruct r as [[]|e]; [left; by exists w1, w2|]. right.
  destruct e as [| | |status| | | |]; try (by apply runs_ready in H).
  apply runs_await in H as (w3 & w4 & k & _ & H). destruct k as [k|e]; [|by apply runs_ready in H].
  apply runs_await in H as (w5 & w6 & q & Hq & H). destruct q as [[ts o]|e]; apply runs_ready in H; [|done].
  symmetry in H. apply throws_ok in H. unfold operator_state in H. destruct ts as [|p rest]; [done|].
  apply rbind_ok in H as (t & Ht & H). destruct (receiver_tweaked (t_status t)) eqn:Hs; [|done].
  exists w1, w2, status, w5, w6, (key_serialize k), p, rest, o, t. split_and!; [done..|].
  destruct (t_status t); try done; set_solver.
Qed.

Lemma tweak_task_within transfer key op l : within 3 (tweak_task self transfer key op l).
Proof.
  unfold tweak_task. apply within_await. intros [[]|[| | |status| | | |]]; try done.
  apply within_await. intros [k|e]; [|done]. apply within_await. by intros [[ts o]|e].
Qed.

(** The fuel of [join_tasks] is enough: a panic is that of a task. *)
Lemma join_tasks_total (tasks : list (future W (exn ServiceError) ())) w :
  Forall (within 3) tasks →
  ∃ w' r, try_join_all (3 * length tasks) 0 tasks w = (w', Some r).
Proof.
  intros Hall. apply (try_join_all_total _ _ (replicate (length tasks) 3%nat)).
  - induction Hall; simpl; by constructor.
  - induction tasks; simpl; [done|]. apply Forall_cons in Hall as [_ Hall]. specialize (IHtasks Hall). lia.
Qed.

Lemma tweak_tasks_within transfer key m : Forall (within 3) (tweak_tasks self transfer key m).
Proof.
  apply Forall_forall. intros f Hf. unfold tweak_tasks in Hf.
  apply list_elem_of_omap in Hf as (op & _ & Hop). destruct (m !! op_identifier op); [|done].
  injection Hop as <-. apply tweak_task_within.
Qed.

Lemma join_tasks_ok (tasks : list (future W (exn ServiceError) ())) w w' :
  join_tasks tasks w = (w', Ok ()) → Forall (λ f, ∃ a, runs f (Ready (Ok a))) tasks.
Proof.
  unfold join_tasks. destruct (try_join_all _ _ _ _) as [w1 [[l|e]|]] eqn:H; try done.
  intros _. apply try_join_all_ok in H. by induction H; constructor; eauto.
Qed.

(** C28: a claim goes on only when it has reached every operator.  Whatever the order in which
    the tasks of the operators make progress, when [claim_transfer_tweak_keys] succeeds each
    operator of the pool either accepted its request, which carries exactly its own share of
    every leaf's split, or refused it and reported the transfer in a state past the tweak. *)
Theorem claim_tweaks_every_operator transfer leaves w w' proofs :
  claim_transfer_tweak_keys self transfer leaves w = (w', Ok proofs) →
  distinct ops → leaves ≠ [] →
  ∃ (key : list Z) (tweaks : list (Operator → option ClaimLeafKeyTweak)),
    Forall2 claim_tweaks_of leaves tweaks ∧
    ∀ op, op ∈ ops → ∃ l, Forall2 (λ tweak t, tweak op = Some t) tweaks l ∧
      (tweak_accepted op (tweak_request transfer key l) ∨
       tweaked_before transfer op (tweak_request transfer key l)).
Proof.
  unfold claim_transfer_tweak_keys. intros H Hd Hne.
  apply se_bind_ok in H as (w1 & [m pm] & Hm & H).
  apply se_bind_ok in H as (w2 & key & _ & H).
  apply se_bind_ok in H as (w3 & [] & Hj%join_tasks_ok & _).
  destruct (prepare_claim_leaves_ok _ _ _ _ _ _ _ Hm Hd) as (tweaks & Hall & Hmap).
  exists key, tweaks. split; [done|]. intros op Hop.
  destruct (Hmap op Hop) as (Heq & Hsome & _).
  destruct Hsome as [l Hl]; [by destruct Hall|]. exists l.
  rewrite Hl, lookup_empty in Heq. simpl in Heq. split.
  - rewrite Heq. clear - Hall Hop. induction Hall as [|leaf tweak leaves tweaks Ht _ IH]; [constructor|].
    destruct Ht as (shares & _ & Hop'). destruct (Hop' op Hop) as (t & Ht & _).
    simpl. rewrite Ht. by constructor.
  - rewrite Forall_forall in Hj. destruct (Hj (tweak_task self transfer key op l)) as [a Ha].
    + apply list_elem_of_omap. exists op. split; [done|]. by rewrite Hl.
    + by eapply tweak_task_ok.
Qed.

(** ** The sender's signatures *)

(** The leaf carries a signature of the sender over its id, the transfer and its ciphertext. *)
Definition signed_by_sender (transfer : Transfer) (leaf : TransferLeaf) : Prop :=
  ∃ signature, tl_signature leaf = Some signature ∧
    verify_ecdsa (sha256 (leaf_payload (tn_id (tl_leaf leaf)) (t_id transfer) (secret_cipher leaf)))
      signature (sender_identity_public_key transfer) = None.

Definition transfer_leaf_id (leaf : TransferLeaf) : TreeNodeId := tn_id (tl_leaf leaf).

Lemma verify_leaves_ok transfer l m m' :
  verify_leaves transfer l m = Ok m' ↔
  Forall (signed_by_sender transfer) l ∧
  m' = insert_all transfer_leaf_id (λ leaf, Encrypted (secret_cipher leaf)) l m.
Proof.
  revert m. induction l as [|leaf l IH]; intros m; cbn [verify_leaves].
  { split; [intros [= <-]; by repeat constructor|by intros [_ ->]]. }
  rewrite Forall_cons. unfold signed_by_sender at 1.
  destruct (tl_signature leaf) as [s|]; [|split; [done|naive_solver]].
  destruct (verify_ecdsa _ s _) as [e|] eqn:Hv; [split; [done|naive_solver]|].
  rewrite IH. unfold insert_all. simpl. naive_solver.
Qed.

(** The leaves of a claim: each with the key the sender encrypted and the wallet's new key. *)
Definition claim_leaf (keys : gmap TreeNodeId SecretSource) (leaf : TransferLeaf) (c : LeafKeyTweak) : Prop :=
  lk_node c = leaf_with_intermediate_txs leaf ∧ new_signing_key c = Derived (transfer_leaf_id leaf) ∧
  keys !! transfer_leaf_id leaf = Some (signing_key c).

Lemma claimed_leaves_ok (keys : gmap TreeNodeId SecretSource) (l : list TransferLeaf) :
  (∀ leaf, leaf ∈ l → is_Some (keys !! transfer_leaf_id leaf)) →
  Forall2 (claim_leaf keys) l (omap (claimed_leaf keys) l).
Proof.
  induction l as [|leaf l IH]; intros Hk; [constructor|].
  destruct (Hk leaf ltac:(by left)) as [k Hl]. cbn [omap list_omap].
  unfold claimed_leaf at 1. fold (transfer_leaf_id leaf). rewrite Hl. simpl.
  constructor; [done|]. apply IH. intros ??. apply Hk. by right.
Qed.

(** Verified leaves are all claimed. *)
Lemma verified_leaves_claimed transfer keys :
  verify_pending_transfer transfer = Ok keys →
  Forall2 (claim_leaf keys) (leaves transfer) (omap (claimed_leaf keys) (leaves transfer)).
Proof.
  intros [_ ->]%verify_leaves_ok. apply claimed_leaves_ok. intros leaf Hin.
  destruct (lookup_insert_all_in transfer_leaf_id (λ leaf, Encrypted (secret_cipher leaf))
              (leaves transfer) ∅ (transfer_leaf_id leaf)) as (x & _ & _ & Hx); [|by eexists].
  by apply list_elem_of_fmap_2.
Qed.

(** ** Rounds of a claim *)

Lemma claim_attempt_err transfer w w' e : claim_attempt self transfer w = (w', Err e) → e = Panic.
Proof.
  unfold claim_attempt, se_try. destruct (verify_pending_transfer transfer); [|done].
  destruct (prepare_leaves_for_claiming transfer a) as [l|[]]; try done.
  destruct (claim_transfer_with_leaves self transfer l w) as [w1 [?|[|[]]]]; try done.
  by intros [= _ <-].
Qed.

(** What a round that claims has done: verified every leaf, and claimed all of them. *)
Definition claims (transfer : Transfer) (w w' : W) (nodes : list TreeNode) : Prop :=
  Forall (signed_by_sender transfer) (leaves transfer) ∧
  ((leaves transfer = [] ∧ nodes = [] ∧ w' = w) ∨
   ∃ keys to_claim,
     verify_pending_transfer transfer = Ok keys ∧
     Forall2 (claim_leaf keys) (leaves transfer) to_claim ∧
     claim_transfer_with_leaves self transfer to_claim w = (w', Ok nodes)).

Lemma claim_attempt_claimed transfer w w' nodes :
  claim_attempt self transfer w = (w', Ok (Claimed nodes)) → claims transfer w w' nodes.
Proof.
  unfold claim_attempt. destruct (verify_pending_transfer transfer) as [keys|e] eqn:Hv; [|done].
  pose proof Hv as [Hall _]%verify_leaves_ok. pose proof (verified_leaves_claimed _ _ Hv) as Hleaves.
  unfold prepare_leaves_for_claiming, se_try. case_bool_decide as Hnil.
  - intros [= -> <-]. split; [done|]. left. rewrite Hnil in Hleaves. by apply Forall2_nil_inv_r in Hleaves.
  - destruct (claim_transfer_with_leaves self transfer _ w) as [w1 [res|[|[]]]] eqn:Hc; try done.
    intros [= <- <-]. split; [done|]. right. by exists keys, (omap (claimed_leaf keys) (leaves transfer)).
Qed.

(** [n] rounds have failed, each after its delay. *)
Inductive failed_rounds (config : ClaimTransferConfig) (transfer : Transfer) : Z → W → W → Prop :=
| no_round w : failed_rounds config transfer 0 w w
| one_more n w w1 w2 w3 :
    failed_rounds config transfer n w w1 →
    backoff config n w1 = (w2, Ok ()) →
    claim_attempt self transfer w2 = (w3, Ok Again) →
    failed_rounds config transfer (n + 1) w w3.

(** How a claim ends after [n] failed rounds, in [w]. *)
Definition claim_ends (config : ClaimTransferConfig) (transfer : Transfer) (n : Z) (w w' : W)
    (r : result (list TreeNode) (exn ServiceError)) : Prop :=
  (n = max_retries config ∧ w' = w ∧ r = Err (Throw MaxRetriesExceeded)) ∨
  (n < max_retries config ∧ ∃ w1, backoff config n w = (w1, Ok ()) ∧
     ((∃ nodes, r = Ok nodes ∧ claims transfer w1 w' nodes) ∨
      (claim_attempt self transfer w1 = (w', Ok AlreadyClaimed) ∧ r = Err (Throw TransferAlreadyClaimed)) ∨
      (claim_attempt self transfer w1 = (w', Err Panic) ∧ r = Err Panic))).

Lemma backoff_ok config n w : ∃ w', backoff config n w = (w', Ok ()).
Proof. unfold backoff. case_match; by eexists. Qed.

Lemma claim_loop_rounds config transfer k n w0 w w' r :
  failed_rounds config transfer n w0 w → max_retries config = n + Z.of_nat k →
  claim_loop self config transfer k n w = (w', r) →
  ∃ n' w1, n ≤ n' ∧ failed_rounds config transfer n' w0 w1 ∧ claim_ends config transfer n' w1 w' r.
Proof.
  revert n w. induction k as [|k IH]; intros n w Hf Hmax; cbn [claim_loop].
  { intros [= <- <-]. exists n, w. split; [lia|]. split; [done|]. left. split; [lia|done]. }
  unfold se_bind. destruct (backoff_ok config n w) as [w1 Hb]. rewrite Hb.
  destruct (claim_attempt self transfer w1) as [w2 [[nodes| |]|e]] eqn:Ha; intros H.
  - injection H as <- <-. exists n, w. split; [lia|]. split; [done|]. right. split; [lia|].
    exists w1. split; [done|]. left. exists nodes. split; [done|]. by apply claim_attempt_claimed.
  - injection H as <- <-. exists n, w. split; [lia|]. split; [done|]. right. split; [lia|].
    exists w1. split; [done|]. right. by left.
  - destruct (IH (n + 1) w2) as (n' & w3 & Hle & H'); [by econstructor|lia|done|].
    exists n', w3. split; [lia|done].
  - pose proof (claim_attempt_err _ _ _ _ Ha) as ->. injection H as <- <-.
    exists n, w. split; [lia|]. split; [done|]. right. split; [lia|].
    exists w1. split; [done|]. right. by right.
Qed.

(** C31: a claim ends.  It makes at most [max_retries] rounds, each after the first preceded by
    its delay; it returns nodes exactly when a round verified the sender's signature on every
    leaf and claimed all the leaves, stops at once when the transfer turns out to be claimed
    already, and fails with [MaxRetriesExceeded] only after [max_retries] failed rounds: no
    other error leaves it. *)
Theorem claim_transfer_ends transfer config w w' r :
  0 ≤ max_retries (default ClaimTransferConfig_default config) →
  claim_transfer self transfer config w = (w', r) →
  let config := default ClaimTransferConfig_default config in
  ∃ n w1, 0 ≤ n ∧ failed_rounds config transfer n w w1 ∧ claim_ends config transfer n w1 w' r.
Proof.
  intros Hmax H. eapply claim_loop_rounds; [constructor| |exact H]. lia.
Qed.

(** The delays of the rounds from [k] on. *)
Definition sleeps (config : ClaimTransferConfig) (k n : Z) (w : W) : W :=
  foldl (λ w k, sleep_ms (backoff_ms config k) w) w (seqZ k n).

Lemma claim_loop_idle config transfer n k w :
  (∀ w, claim_attempt self transfer w = (w, Ok Again)) → 0 < k →
  claim_loop self config transfer n k w
    = (sleeps config k (Z.of_nat n) w, Err (Throw MaxRetriesExceeded)).
Proof.
  intros Ha. revert k w. induction n as [|n IH]; intros k w Hk; [done|].
  cbn [claim_loop]. unfold se_bind, backoff. destruct (Z.ltb_spec 0 k); [|lia].
  unfold se_total. rewrite Ha, IH by lia. unfold sleeps.
  rewrite (seqZ_cons k (Z.of_nat (S n))) by lia. simpl.
  by replace (Z.pred (Z.of_nat (S n))) with (Z.of_nat n) by lia.
Qed.

(** C29: nothing is claimed behind a missing or false signature.  When some leaf of the
    transfer is not signed by the sender (over its id, this transfer and its ciphertext), the
    claim asks nothing of the signer or of any operator: it only waits out the delays of its
    retries and fails. *)
Theorem unsigned_leaf_is_not_claimed transfer config w :
  1 ≤ max_retries (default ClaimTransferConfig_default config) →
  (∃ leaf, leaf ∈ leaves transfer ∧ ¬ signed_by_sender transfer leaf) →
  let config' := default ClaimTransferConfig_default config in
  claim_transfer self transfer config w
    = (sleeps config' 1 (max_retries config' - 1) w, Err (Throw MaxRetriesExceeded)).
Proof.
  intros Hmax (leaf & Hin & Hns). unfold claim_transfer.
  assert (∀ w, claim_attempt self transfer w = (w, Ok Again)) as Ha.
  { intros w0. unfold claim_attempt. destruct (verify_pending_transfer transfer) as [m|e] eqn:Hv; [|done].
    apply verify_leaves_ok in Hv as [Hall _]. rewrite Forall_forall in Hall. by destruct (Hns (Hall _ Hin)). }
  set (c := default _ config) in *.
  replace (Z.to_nat (max_retries c)) with (S (Z.to_nat (max_retries c - 1))) by lia.
  cbn [claim_loop]. unfold se_bind at 1, backoff. simpl. unfold se_bind. rewrite Ha, claim_loop_idle by (done || lia).
  by rewrite Z2Nat.id by lia.
Qed.

(** ** The delays *)

(** the delay before retry [k] is [base_delay_ms * 2^(k-1)] capped at [max_delay_ms] as
    long as the product fits in 64 bits, so delays never decrease there; but the power wraps:
    from the 65th retry on there is no delay at all. *)
Theorem backoff_bounds config k :
  in_u 64 (base_delay_ms config) → in_u 64 (max_delay_ms config) → 1 ≤ k →
  0 ≤ backoff_ms config k ≤ max_delay_ms config ∧
  (base_delay_ms config * 2 ^ (k - 1) < 2 ^ 64 → k ≤ 64 →
     backoff_ms config k = Z.min (base_delay_ms config * 2 ^ (k - 1)) (max_delay_ms config)) ∧
  (65 ≤ k → backoff_ms config k = 0).
Proof.
  intros [Hb1 Hb2] [Hm1 Hm2] Hk. unfold backoff_ms, wmul.
  pose proof (wrap_in_u 64 (base_delay_ms config * wrap 64 (2 ^ (k - 1))) ltac:(lia)) as [Hw1 Hw2].
  split_and!; [lia|lia| |].
  - intros Hlt Hk'. f_equal. rewrite (wrap_small 64 (2 ^ (k - 1))).
    + apply wrap_small. split; [|done]. apply Z.mul_nonneg_nonneg; [done|]. apply Z.pow_nonneg. lia.
    + split; [apply Z.pow_nonneg; lia|]. apply Z.pow_lt_mono_r; lia.
  - intros Hk'. replace (2 ^ (k - 1)) with (2 ^ (k - 65) * 2 ^ 64) by (rewrite <- Z.pow_add_r by lia; f_equal; lia).
    unfold wrap at 2. rewrite Z_mod_mult, Z.mul_0_r. unfold wrap. rewrite Z.mod_0_l by lia. lia.
Qed.

(** ** A claim signs what it sent *)

Section claim_signs.
Context (blocks_encoding : ∀ b, in_u 16 b → blocks_to_consensus b = b).

Lemma claim_refund_signing_data_ok leaf w w' data :
  claim_refund_signing_data leaf w = (w', Ok data) → data_for new_signing_key leaf data.
Proof.
  unfold claim_refund_signing_data. intros H.
  apply se_bind_ok in H as (? & ? & _ & H). apply se_bind_ok in H as (? & ? & _ & H).
  apply se_bind_ok in H as (? & ? & _ & H). apply se_bind_ok in H as (? & ? & _ & H).
  by injection H as <- <-.
Qed.

Lemma claim_signing_data_ok leaves m w w' m' :
  claim_signing_data leaves m w = (w', Ok m') → NoDup (leaf_id <$> leaves) →
  (∀ id, id ∉ leaf_id <$> leaves → m' !! id = m !! id) ∧
  ∀ leaf, leaf ∈ leaves → ∃ data, m' !! leaf_id leaf = Some data ∧ data_for new_signing_key leaf data.
Proof.
  revert m w. induction leaves as [|leaf leaves IH]; intros m w; cbn [claim_signing_data].
  { intros [= <- <-] _. split; [done|]. set_solver. }
  intros (w1 & data & Hdata%claim_refund_signing_data_ok & H)%se_bind_ok.
  rewrite fmap_cons, NoDup_cons. intros [Hnin Hnd].
  destruct (IH _ _ H Hnd) as [Hother Hin]. split.
  - intros id Hid. rewrite Hother by set_solver. apply lookup_insert_ne. set_solver.
  - intros l [->|Hl]%elem_of_cons; [|by apply Hin].
    exists data. split; [|done]. rewrite Hother by done. apply lookup_insert_eq.
Qed.

(** a claim signs what it sent.  For leaves with distinct ids, when
    [claim_transfer_sign_refunds] succeeds it has sent the coordinator one job per leaf, whose
    refund keeps the leaf's timelock rounded down to the transfer interval; and every result
    it aggregated belongs to one of these leaves, for which the signer signed, with the new
    key of the leaf, exactly the transactions of the job sent, over the outputs of the leaf's
    own transactions that they spend. *)
Theorem claim_signs_what_it_sent transfer leaf_keys w w' signatures :
  claim_transfer_sign_refunds self transfer leaf_keys w = (w', Ok signatures) →
  NoDup (leaf_id <$> leaf_keys) →
  ∃ op key jobs results w1 w2,
    claim_transfer_sign_refunds_v2 op
      {| cr_transfer_id := Uuid_to_string (t_id transfer); cr_owner_identity_public_key := key;
         cr_signing_jobs := jobs |} w1 = (w2, Ok results) ∧
    Forall2 (λ leaf job, lj_leaf_id job = leaf_id leaf ∧ claim_timelock leaf job) leaf_keys jobs ∧
    length signatures = length results ∧
    ∀ r, r ∈ results → ∃ i leaf job, leaf_keys !! i = Some leaf ∧ jobs !! i = Some job ∧
      lr_leaf_id r = leaf_id leaf ∧ job_signed new_signing_key leaf job.
Proof.
  unfold claim_transfer_sign_refunds, of_signer. intros H Hnd.
  apply se_bind_ok in H as (w1 & data & Hdata%se_map_err_ok & H).
  destruct (claim_signing_data_ok _ _ _ _ _ Hdata Hnd) as [Hdom Hdata'].
  destruct (prepare_refund_so_signing_jobs _ _ _ _) as [m jobs] eqn:Hjobs.
  apply se_bind_ok in H as (w2 & jobs' & [-> ->]%se_lift_ok & H).
  apply (prepare_refund_jobs_ok blocks_encoding new_signing_key) in Hjobs as [Hm Hjobs]; [|done|done].
  apply se_bind_ok in H as (w3 & op & _ & H).
  apply se_bind_ok in H as (w4 & key & _ & H). unfold se_try in H.
  destruct (claim_transfer_sign_refunds_v2 op _ w4) as [w5 r] eqn:Hr.
  apply se_bind_ok in H as (w6 & results & Hres & H).
  destruct r as [results'|e].
  2: { exfalso. destruct e; try done. cbn [sign_refunds_error] in Hres.
       apply se_bind_ok in Hres as (? & o & _ & Hres). destruct o as [o|]; [case_bool_decide|]; done. }
  injection Hres as <- <-. apply sign_aggregate_refunds_each in H.
  exists op, key, jobs', results', w4, w5. split; [done|]. split_and!.
  - eapply Forall2_impl; [exact Hjobs|]. intros leaf job (d & _ & Hmatch).
    split; [by destruct Hmatch|]. by eapply job_matches_timelock.
  - symmetry. by eapply Forall2_length.
  - intros r Hin. apply list_elem_of_lookup in Hin as [j Hj].
    destruct (Forall2_lookup_l _ _ _ _ _ H Hj) as (sig & _ & w7 & w8 & Hs).
    destruct (sign_aggregate_refund_leaf _ _ _ _ _ _ _ _ Hs) as [d Hd].
    destruct (decide (lr_leaf_id r ∈ leaf_id <$> leaf_keys)) as [Hid|Hid].
    + apply list_elem_of_fmap in Hid as (leaf & Hid & Hleaf).
      apply list_elem_of_lookup in Hleaf as [i Hi].
      destruct (Forall2_lookup_l _ _ _ _ _ Hjobs Hi) as (job & Hjob & d' & Hd' & Hmatch).
      exists i, leaf, job. do 3 (split; [done|]). by eapply sign_aggregate_refund_ok.
    + by rewrite Hm, Hdom, lookup_empty in Hd.
Qed.
End claim_signs.

(** ** Commitments of the operators *)

Lemma chunks_loop_shape {A} fuel n (l : list A) :
  (0 < n)%nat → (length l ≤ fuel)%nat →
  mjoin (chunks_loop fuel n l) = l ∧
  ∀ cs c, chunks_loop fuel n l = cs ++ [c] → Forall (λ x, length x = n) cs ∧ (0 < length c ≤ n)%nat.
Proof.
  intros Hn. revert l. induction fuel as [|fuel IH]; intros l Hl.
  { destruct l; [|simpl in Hl; lia]. split; [done|]. by intros [] c. }
  destruct l as [|x l]; [split; [done|]; by intros [] c|].
  change (chunks_loop (S fuel) n (x :: l))
    with (take n (x :: l) :: chunks_loop fuel n (drop n (x :: l))).
  pose proof (length_take (x :: l) n) as Ht. pose proof (length_drop (x :: l) n) as Hd.
  cbn [length] in Ht, Hd, Hl.
  destruct (IH (drop n (x :: l)) ltac:(lia)) as [Hj Hs]. split.
  { change (take n (x :: l) ++ mjoin (chunks_loop fuel n (drop n (x :: l))) = x :: l).
    rewrite Hj. apply take_drop. }
  intros [|c0 cs] c; intros [= Hc Hrest].
  - split; [constructor|]. rewrite <- Hc. lia.
  - destruct (Hs cs c Hrest) as [Hall Hlen]. split; [|done]. constructor; [|done].
    rewrite <- Hc, Ht. destruct (decide (n ≤ S (length l))%nat); [lia|].
    assert (drop n (x :: l) = []) as Hnil by (apply length_zero_iff_nil; lia).
    rewrite Hnil in Hrest. by destruct fuel, cs.
Qed.

Lemma chunks_three {A} n (l a b c : list A) :
  (0 < n)%nat → chunks n l = [a; b; c] →
  l = a ++ b ++ c ∧ length a = n ∧ length b = n ∧ (0 < length c ≤ n)%nat.
Proof.
  intros Hn H. destruct (chunks_loop_shape (length l) n l Hn ltac:(lia)) as [Hj Hs].
  change (chunks_loop (length l) n l) with (chunks n l) in Hj, Hs. rewrite H in Hj, Hs.
  destruct (Hs [a; b] c eq_refl) as [Hall Hc]. rewrite !Forall_cons in Hall.
  simpl in Hj. rewrite app_nil_r in Hj. by destruct Hall as (? & ? & _).
Qed.

Lemma chunked_commitments_ok n l a b c :
  chunked_commitments n l = Ok (a, b, c) →
  (0 < n)%nat ∧ l = a ++ b ++ c ∧ length a = n ∧ length b = n ∧ (0 < length c ≤ n)%nat.
Proof.
  unfold chunked_commitments. case_bool_decide; [done|].
  destruct (chunks n l) as [|a' [|b' [|c' [|d' l']]]] eqn:Hc; try done.
  intros [= -> -> ->]. apply chunks_three in Hc; [|lia]. split; [lia|done].
Qed.

(** Every leaf uses a commitment of the third chunk. *)
Lemma sign_refunds_loop_commitments p key i leaf_keys w w' r :
  (∀ b, in_u 16 b → blocks_to_consensus b = b) →
  sign_refunds_loop p key i leaf_keys w = (w', Ok r) →
  ∀ j, (j < length leaf_keys)%nat → is_Some (direct_from_cpfp_signing_commitments p !! (i + j)%nat).
Proof.
  intros Hblocks. revert i w w' r. induction leaf_keys as [|leaf leaf_keys IH]; intros i w w' r;
    cbn [sign_refunds_loop]; [simpl; lia|].
  intros (w1 & [[c d] f] & H1 & H)%se_bind_ok. apply se_bind_ok in H as (w2 & rest & H2 & _).
  intros [|j] Hj; [|rewrite Nat.add_succ_r, <- Nat.add_succ_l; eapply IH; [done|simpl in Hj; lia]].
  rewrite Nat.add_0_r. unfold sign_leaf_refunds in H1.
  apply se_bind_ok in H1 as (? & rtx & [_ Hrtx]%se_lift_ok & H1).
  apply leaf_refund_txs_ok in Hrtx as (? & ? & ? & ? & _ & _ & _ & _ & _ & Hr); [|done].
  destruct Hr as [(? & _ & _ & dfc & Hdfc & _) _].
  apply se_bind_ok in H1 as (? & ? & _ & H1). apply se_bind_ok in H1 as (? & ? & _ & H1).
  apply se_bind_ok in H1 as (? & ? & _ & H1). apply se_bind_ok in H1 as (? & ? & _ & H1).
  rewrite Hdfc in H1. apply se_bind_ok in H1 as (? & ? & H1 & _).
  apply se_bind_ok in H1 as (? & cs & [_ Hcs%or_panic_ok]%se_lift_ok & _). by exists cs.
Qed.

(** a transfer package is made only with all the commitments it needs: when
    [prepare_transfer_package] succeeds, the coordinator gave exactly three commitments per
    leaf and there was a leaf.  (Its own check accepts fewer: any number above twice the
    leaves; the missing ones are then out of range.) *)
Theorem package_has_all_commitments transfer_id m leaf_keys receiver hash adaptor w w' p :
  (∀ b, in_u 16 b → blocks_to_consensus b = b) →
  prepare_transfer_package self transfer_id m leaf_keys receiver hash adaptor w = (w', Ok p) →
  ∃ op w1 w2 protos,
    get_signing_commitments op ((λ l, tn_id (lk_node l)) <$> leaf_keys) 3 w1 = (w2, Ok protos) ∧
    length protos = (3 * length leaf_keys)%nat ∧ leaf_keys ≠ [].
Proof.
  intros Hblocks. unfold prepare_transfer_package, of_rpc, of_service, of_signer_exn. intros H.
  apply se_bind_ok in H as (w1 & op & _ & H).
  apply se_bind_ok in H as (w2 & protos & Hp%se_map_err_ok & H).
  apply se_bind_ok in H as (w3 & cs & [-> Hcs]%throws_lift_ok & H).
  apply se_bind_ok in H as (w4 & [[a b] c] & [-> Hch]%se_lift_ok & H).
  apply se_bind_ok in H as (w5 & signed & Hs%se_map_err_ok & _).
  apply chunked_commitments_ok in Hch as (Hn & -> & Ha & Hb & Hc).
  unfold sign_refunds in Hs. apply se_bind_ok in Hs as (w6 & key & _ & Hs).
  pose proof (sign_refunds_loop_commitments _ _ _ _ _ _ _ Hblocks Hs (length leaf_keys - 1)%nat ltac:(lia)) as [k Hk].
  simpl in Hk. apply lookup_lt_Some in Hk.
  exists op, w1, w4, protos. split; [done|]. apply collect_length in Hcs.
  rewrite !length_app in Hcs. split; [lia|]. destruct leaf_keys; [simpl in Hn; lia|done].
Qed.

(** ** What the signature of a package covers *)

Definition sorted_pairs (m : gmap (list Z) (list Z)) : list (list Z * list Z) :=
  sort_by (λ a b, bytes_leb a.1 b.1) (map_to_list m).

Lemma add_map_values (tag vs : list (list Z)) (m : gmap (list Z) (list Z)) :
  add_map_string_to_bytes (hasher_of sha256 tag vs) m
    = hasher_of sha256 tag (vs ++ to_be_bytes 8 (Z.of_nat (size m)) ::
                            mjoin ((λ kv, [kv.1; kv.2]) <$> sorted_pairs m)).
Proof.
  unfold add_map_string_to_bytes, hasher_of. fold (sorted_pairs m). rewrite foldl_app. cbn [foldl].
  change (add_bytes (foldl add_bytes (TaggedHasher_new sha256 tag) vs) (to_be_bytes 8 (Z.of_nat (size m))))
    with (add_u64 (foldl add_bytes (TaggedHasher_new sha256 tag) vs) (Z.of_nat (size m))).
  generalize (add_u64 (foldl add_bytes (TaggedHasher_new sha256 tag) vs) (Z.of_nat (size m))).
  induction (sorted_pairs m) as [|[k v] l IH]; intros h; [done|]. cbn [foldl]. by rewrite IH.
Qed.

Lemma flat_pairs_inj (l1 l2 : list (list Z * list Z)) :
  mjoin ((λ kv, [kv.1; kv.2]) <$> l1) = mjoin ((λ kv, [kv.1; kv.2]) <$> l2) → l1 = l2.
Proof.
  revert l2. induction l1 as [|[k1 v1] l1 IH]; intros [|[k2 v2] l2]; try done.
  intros [= -> -> H]. f_equal. by apply IH.
Qed.

Lemma bytes_map_lookup (m : gmap string (list Z)) k : bytes_map m !! as_bytes k = m !! k.
Proof.
  unfold bytes_map. destruct (insert_all _ _ _ _ !! _) as [v|] eqn:H.
  - apply insert_all_empty_Some in H as ([k' v'] & Hin%elem_of_map_to_list & Hk%as_bytes_inj & ->).
    simpl in Hk. by subst k'.
  - symmetry. apply insert_all_empty_None in H. destruct (m !! k) as [v|] eqn:Hk; [|done].
    destruct H. apply elem_of_map_to_list in Hk.
    exact (list_elem_of_fmap_2 (λ kv : string * list Z, as_bytes kv.1) _ _ Hk).
Qed.

(** The entries of a map are short: their lengths fit in 64 bits. *)
Definition short_entries (m : gmap string (list Z)) : Prop :=
  ∀ k v, m !! k = Some v → short (as_bytes k) ∧ short v.

Lemma short_pairs (m : gmap string (list Z)) :
  short_entries m → Forall short (mjoin ((λ kv, [kv.1; kv.2]) <$> sorted_pairs (bytes_map m))).
Proof.
  intros Hs. assert (Forall (λ kv : list Z * list Z, short kv.1 ∧ short kv.2) (sorted_pairs (bytes_map m))) as Hall.
  { unfold sorted_pairs. rewrite sort_by_perm. apply Forall_forall. intros [k v] Hin%elem_of_map_to_list.
    unfold bytes_map in Hin. apply insert_all_empty_Some in Hin as ([k' v'] & Hin%elem_of_map_to_list & <- & ->).
    by apply Hs. }
  induction Hall as [|[k v] l [Hk Hv] _ IH]; [constructor|]. by repeat constructor.
Qed.

(** the sender's signature over a transfer package commits to the transfer and to every
    encrypted key tweak: two packages with one signing payload have the same transfer id and
    the same [key_tweak_package], whatever the strings and ciphertexts are. *)
Theorem signed_package_commits id1 id2 p1 p2 w1 w2 payload :
  (∀ m, length (sha256 m) = 32%nat) →
  short_entries (key_tweak_package p1) → short_entries (key_tweak_package p2) →
  (∀ b, hex_decode (remove_dashes (Uuid_to_string id1)) = Some b → short b) →
  (∀ b, hex_decode (remove_dashes (Uuid_to_string id2)) = Some b → short b) →
  get_transfer_package_signing_payload id1 p1 w1 = (w1, Ok payload) →
  get_transfer_package_signing_payload id2 p2 w2 = (w2, Ok payload) →
  hex_decode (remove_dashes (Uuid_to_string id1)) = hex_decode (remove_dashes (Uuid_to_string id2)) ∧
  key_tweak_package p1 = key_tweak_package p2.
Proof.
  intros Hsha Hs1 Hs2 Hb1 Hb2. unfold get_transfer_package_signing_payload.
  intros H1 H2. apply se_bind_ok in H1 as (? & b1 & [_ Hd1%ok_or_ok]%se_lift_ok & [= _ H1]).
  apply se_bind_ok in H2 as (? & b2 & [_ Hd2%ok_or_ok]%se_lift_ok & [= _ H2]).
  rewrite Hd1, Hd2. rewrite Hd1 in Hb1. rewrite Hd2 in Hb2. rewrite <- H2 in H1. clear H2.
  set (tag := [as_bytes "spark"; as_bytes "transfer"; as_bytes "signing payload"]) in *.
  change (add_bytes (TaggedHasher_new sha256 tag) b1) with (hasher_of sha256 tag [b1]) in H1.
  change (add_bytes (TaggedHasher_new sha256 tag) b2) with (hasher_of sha256 tag [b2]) in H1.
  rewrite !add_map_values in H1.
  assert (∀ n, short (to_be_bytes 8 n)) as Hcount by (intros n; unfold short; by rewrite to_be_bytes_length).
  apply signable_message_injective in H1 as [_ H1]; [|done|..].
  2, 3: cbn [app]; constructor; [auto|]; constructor; [auto|]; by apply short_pairs.
  pose proof (f_equal (drop 2) H1) as Hpairs. apply (f_equal head) in H1.
  cbn [app drop head] in H1, Hpairs. split; [done|].
  apply flat_pairs_inj in Hpairs. apply map_eq. intros k.
  rewrite <- !bytes_map_lookup. f_equal. apply map_to_list_inj.
  rewrite <- (sort_by_perm (λ a b, bytes_leb a.1 b.1) (map_to_list (bytes_map (key_tweak_package p1)))).
  rewrite <- (sort_by_perm (λ a b, bytes_leb a.1 b.1) (map_to_list (bytes_map (key_tweak_package p2)))).
  unfold sorted_pairs in Hpairs. by rewrite Hpairs.
Qed.
End props.

(** ** Calls that add nothing to a log *)

Ltac silence := unfold identity_key_bytes, coordinator, generic_fault, of_signer, of_rpc, of_service,
  of_signer_exn; solve_quiet.

Section quiet.
Context {ho : HashOrder} {bt : BitcoinTypes} {bo : BitcoinOps} {ao : AddressOps} {ak : AddressKeys}
  {tx : TokenTextOps} {W : Type} {se : SignerEnv W} {fs : FrostSigner W} {tt : TransferTypes}
  {sh : ShareTypes} {sg : TransferSigner W} {top : TransferOperators W}
  {Ev : Type} {lg : Log W Ev}.

(** The calls of the signer, the random generators and the queries. *)
Class TransferQuiet : Prop := {
  quiet_public_key s : quiet (public_key_from_secret s);
  quiet_identity : quiet get_identity_public_key;
  quiet_commitment : quiet generate_random_signing_commitment;
  quiet_frost r : quiet (sign_frost r);
  quiet_aggregate r : quiet (aggregate_frost r);
  quiet_subtract a b : quiet (subtract_secrets a b);
  quiet_split s t n : quiet (split_secret_with_proofs s t n);
  quiet_encrypt s k : quiet (encrypt_secret_for_receiver s k);
  quiet_sign m : quiet (sign_message_ecdsa_with_identity_key m);
  quiet_secret : quiet generate_random_secret;
  quiet_ecies k m : quiet (ecies_encrypt k m);
  quiet_uuid : quiet (E := exn ServiceError) (se_total uuid_now_v7);
  quiet_observer f a b c : before_send_transfer = Some f → quiet (f a b c);
  quiet_commitments op ids n : quiet (get_signing_commitments op ids n);
  quiet_query op f : quiet (query_all_transfers op f);
  quiet_sleep d : quiet (E := exn ServiceError) (se_total (λ w, (sleep_ms d w, ())));
  quiet_tweak_rpc op req : quiet (claim_transfer_tweak_keys_rpc op req);
  quiet_claim_rpc op req : quiet (claim_transfer_sign_refunds_v2 op req);
  quiet_nodes_rpc op sigs : quiet (finalize_node_signatures_v2 op sigs)
}.

Context {ll : TransferQuiet}.
Context (self : TransferService).

#[local] Hint Resolve quiet_public_key quiet_identity quiet_commitment quiet_frost quiet_aggregate
  quiet_subtract quiet_split quiet_encrypt quiet_sign quiet_secret quiet_ecies quiet_uuid
  quiet_commitments quiet_query : quiet.

Lemma quiet_key_tweaks leaves s : quiet (prepare_leaf_key_tweaks_to_send leaves s).
Proof using ll. induction leaves; cbn [prepare_leaf_key_tweaks_to_send]; silence. Qed.

Lemma quiet_single id leaf receiver s1 s2 s3 :
  quiet (prepare_single_send_transfer_key_tweak self id leaf receiver s1 s2 s3).
Proof using ll. unfold prepare_single_send_transfer_key_tweak, split_key_tweak. silence. Qed.
#[local] Hint Resolve quiet_key_tweaks quiet_single : quiet.

Lemma quiet_send_tweaks id receiver leaves sigs m : quiet (send_tweaks_loop self id receiver leaves sigs m).
Proof using ll. revert m. induction leaves; intros m; cbn [send_tweaks_loop]; silence. Qed.

Lemma quiet_sign_refund leaf tx' refund key cs net adaptor :
  quiet (sign_refund leaf tx' refund key cs net adaptor).
Proof using ll. unfold sign_refund, random_commitment. silence. Qed.
#[local] Hint Resolve quiet_send_tweaks quiet_sign_refund : quiet.

Lemma quiet_sign_refunds p leaves : quiet (sign_refunds p leaves).
Proof using ll.
  unfold sign_refunds. assert (∀ key i, quiet (sign_refunds_loop p key i leaves)) as Hloop; [|silence].
  intros key. induction leaves; intros i; cbn [sign_refunds_loop]; unfold sign_leaf_refunds; silence.
Qed.

Lemma quiet_encrypt_tweaks l m : quiet (encrypt_key_tweaks_loop self l m).
Proof using ll. revert m. induction l as [|[k v] l IH]; intros m; cbn [encrypt_key_tweaks_loop]; silence. Qed.
#[local] Hint Resolve quiet_sign_refunds quiet_encrypt_tweaks : quiet.

Lemma quiet_package id m leaves receiver hash adaptor :
  quiet (prepare_transfer_package self id m leaves receiver hash adaptor).
Proof using ll.
  unfold prepare_transfer_package, encrypt_key_tweaks, signing_jobs, sign_transfer_package,
    get_transfer_package_signing_payload. silence.
Qed.
#[local] Hint Resolve quiet_package : quiet.

Lemma quiet_request id leaves receiver sigs hash expiry adaptor :
  quiet (prepare_transfer_request self id leaves receiver sigs hash expiry adaptor).
Proof using ll. unfold prepare_transfer_request, prepare_send_transfer_key_tweaks. silence. Qed.

Lemma quiet_notify id leaves receiver invoice : quiet (notify_observer self id leaves receiver invoice).
Proof using ll.
  unfold notify_observer. destruct before_send_transfer as [f|] eqn:Hf; [|silence].
  pose proof (λ a b c, quiet_observer f a b c Hf) as Hquiet. silence.
Qed.

Lemma quiet_recover id e : quiet (recover_transfer_on_rpc_connection_error self id e).
Proof using ll. unfold recover_transfer_on_rpc_connection_error. silence. Qed.

(** *** Claims *)

(** Every call of the future adds nothing. *)
Inductive quiet_future {E A} : future W E A → Prop :=
| quiet_ready r : quiet_future (Ready r)
| quiet_awaits call :
    (∀ w, log (call w).1 = log w ∧ quiet_future (call w).2) → quiet_future (Awaits call).

Lemma quiet_await {F E A B} (m : SE W F B) (k : result B F → future W E A) :
  quiet m → (∀ b, quiet_future (k b)) → quiet_future (await m k).
Proof.
  intros Hm Hk. constructor. intros w. destruct (m w) as [w1 b] eqn:H.
  destruct (Hm w w1 b H) as (l & Hl & ->). rewrite app_nil_r in Hl. split; [exact Hl|apply Hk].
Qed.

Lemma quiet_poll {E A} i (fs' : list (future W E A)) w :
  Forall quiet_future fs' →
  log (poll i fs' w).1 = log w ∧ Forall quiet_future (poll i fs' w).2.
Proof.
  intros Hfs. unfold poll. destruct (fs' !! i) as [[r|call]|] eqn:Hi; [done| |done].
  assert (quiet_future (Awaits call)) as Hq by (eapply Forall_lookup_1; eassumption).
  inversion Hq as [|? Hcall]; subst. specialize (Hcall w). destruct (call w) as [w1 f].
  destruct Hcall as [Hl Hf]. split; [done|by apply Forall_insert].
Qed.

Context {sch : Scheduler}.

Lemma quiet_join_all {E A} fuel turn (fs' : list (future W E A)) w :
  Forall quiet_future fs' → log (try_join_all fuel turn fs' w).1 = log w.
Proof.
  revert turn fs' w. induction fuel as [|fuel IH]; intros turn fs' w Hfs; cbn [try_join_all];
    destruct (joined fs') as [r|]; try done.
  destruct (quiet_poll (chosen turn fs') fs' w Hfs) as [Hl Hq].
  destruct (poll (chosen turn fs') fs' w) as [w1 fs1]. by rewrite (IH _ _ _ Hq).
Qed.

Lemma quiet_join_tasks tasks : Forall quiet_future tasks → quiet (join_tasks tasks).
Proof using ll.
  intros Hq w w' r. unfold join_tasks. pose proof (quiet_join_all (3 * length tasks) 0 tasks w Hq) as Hl.
  destruct (try_join_all _ _ _ _) as [w1 [[l|e]|]]; intros [= <- <-]; exists []; by rewrite app_nil_r.
Qed.

#[local] Hint Resolve quiet_sleep quiet_tweak_rpc quiet_claim_rpc quiet_nodes_rpc : quiet.

Lemma quiet_tweak_tasks transfer key m : Forall quiet_future (tweak_tasks self transfer key m).
Proof using ll.
  unfold tweak_tasks. apply Forall_forall. intros t (op & _ & Ht)%list_elem_of_omap.
  destruct (m !! op_identifier op) as [l|]; [|done]. injection Ht as <-. unfold tweak_task, failed.
  apply quiet_await; [apply quiet_tweak_rpc|]. intros [a|e]; [constructor|].
  destruct e; try apply quiet_ready. apply quiet_await; [apply quiet_identity|]. intros [k|e]; [|constructor].
  apply quiet_await; [apply quiet_query|]. intros [[ts o]|e]; constructor.
Qed.

Lemma quiet_tweak_keys transfer leaves : quiet (claim_transfer_tweak_keys self transfer leaves).
Proof using ll.
  unfold claim_transfer_tweak_keys.
  assert (∀ l a b, quiet (prepare_claim_leaves_key_tweaks self l a b)) as Hp.
  { induction l as [|leaf l IH]; intros a b; cbn [prepare_claim_leaves_key_tweaks];
      unfold prepare_claim_leaf_key_tweaks, split_key_tweak; silence. }
  pose proof (λ key m, quiet_join_tasks _ (quiet_tweak_tasks transfer key m)) as Hjoin. silence.
Qed.

Lemma quiet_aggregate_refund d p t n a k sr : quiet (aggregate_refund d p t n a k sr).
Proof using ll. unfold aggregate_refund, sign_aggregate_frost. silence. Qed.
#[local] Hint Resolve quiet_aggregate_refund : quiet.

Lemma quiet_aggregate_refunds m rs a b c : quiet (sign_aggregate_refunds m rs a b c).
Proof using ll.
  induction rs as [|x rs IH]; cbn [sign_aggregate_refunds]; [silence|].
  unfold sign_aggregate_refund. silence.
Qed.
#[local] Hint Resolve quiet_tweak_keys quiet_aggregate_refunds : quiet.

Lemma quiet_claim_sign transfer leaves : quiet (claim_transfer_sign_refunds self transfer leaves).
Proof using ll.
  unfold claim_transfer_sign_refunds, sign_refunds_error, query_transfer.
  assert (∀ l m, quiet (claim_signing_data l m)) as Hd.
  { induction l as [|k l IH]; intros m; cbn [claim_signing_data];
      unfold claim_refund_signing_data, random_commitment; silence. }
  silence.
Qed.
#[local] Hint Resolve quiet_claim_sign : quiet.

Lemma quiet_claim transfer config : quiet (claim_transfer self transfer config).
Proof using ll.
  unfold claim_transfer. generalize (default ClaimTransferConfig_default config) as c. intros c.
  generalize 0 as n. generalize (Z.to_nat (max_retries c)) as k.
  induction k as [|k IH]; intros n; cbn [claim_loop]; [silence|].
  unfold backoff, claim_attempt, claim_transfer_with_leaves, finalize_node_signatures. silence.
Qed.
End quiet.

#[export] Hint Resolve quiet_public_key quiet_identity quiet_commitment quiet_frost quiet_aggregate
  quiet_subtract quiet_split quiet_encrypt quiet_sign quiet_secret quiet_ecies quiet_uuid
  quiet_commitments quiet_query quiet_key_tweaks quiet_single quiet_send_tweaks quiet_sign_refund
  quiet_sign_refunds quiet_encrypt_tweaks quiet_package quiet_request quiet_notify quiet_recover
  quiet_aggregate_refunds quiet_claim : quiet.

(** ** A send starts one transfer

    The log is the coordinator's: the transfers it was asked to start, by their ids and the
    keys of their receivers. *)
Inductive TransferEvent : Type := Started (transfer_id : string) (receiver : list Z).

Section once.
Context {ho : HashOrder} {bt : BitcoinTypes} {bo : BitcoinOps} {ao : AddressOps} {ak : AddressKeys}
  {tx : TokenTextOps} {W : Type} {se : SignerEnv W} {fs : FrostSigner W} {tt : TransferTypes}
  {sh : ShareTypes} {sg : TransferSigner W} {top : TransferOperators W}
  {lg : Log W TransferEvent}.

(** Only [start_transfer_v2] starts a transfer. *)
Class TransferLogLaws : Prop := {
  transfer_quiet :: TransferQuiet;
  log_start op req :
    emits (start_transfer_v2 op req)
      (λ _ l, l = [Started (rq_transfer_id req) (rq_receiver_identity_public_key req)])
}.

Context {ll : TransferLogLaws}.
Context (self : TransferService).

(** The transfer of [id] that the coordinator named: in its answer to the start, or to a query
    for that transfer. *)
Definition named_by_coordinator (id : Uuid) (p : ProtoTransfer) : Prop :=
  (∃ op req w1 w2, start_transfer_v2 op req w1 = (w2, Ok (Some p)) ∧
     rq_transfer_id req = Uuid_to_string id) ∨
  (∃ op key w1 w2 rest o,
     query_all_transfers op (one_transfer self id SenderIdentityPublicKey key) w1
       = (w2, Ok (p :: rest, o))).

(** What a send of [id] to [receiver] adds to the log. *)
Definition at_most_one (id : Uuid) (receiver : SecpPublicKey) (l : list TransferEvent) : Prop :=
  l = [] ∨ l = [Started (Uuid_to_string id) (key_serialize receiver)].

Definition names (id : Uuid) (r : result Transfer (exn ServiceError)) : Prop :=
  ∀ t, r = Ok t → ∃ p, Transfer_try_from p = Ok t ∧ named_by_coordinator id p.

Lemma send_once id leaves receiver invoice :
  emits (send_transfer_with_key_tweaks self id leaves receiver invoice)
    (λ r l, at_most_one id receiver l ∧ names id r).
Proof using ll.
  unfold send_transfer_with_key_tweaks, prepare_send_transfer_key_tweaks.
  assert (∀ e, at_most_one id receiver [] ∧ names id (Err e)) as Hstop by (intros e; split; [by left|done]).
  apply quiet_bind; [silence|done|]. intros tweaks.
  apply quiet_bind; [silence|done|]. intros package.
  apply quiet_bind; [silence|done|]. intros owner.
  apply quiet_bind; [silence|done|]. intros op.
  match goal with |- emits (se_bind (of_rpc (start_transfer_v2 _ ?rq)) _) _ => set (req := rq) end.
  apply (emits_run _ _ (λ _ l, l = [Started (Uuid_to_string id) (key_serialize receiver)]));
    [apply emits_map_err, log_start|..].
  { intros e l ->. split; [by right|done]. }
  intros response l w w' -> Hrun%se_map_err_ok.
  apply lift_bind; [intros e; split; [by right|done]|]. intros p Hp%throws_ok%ok_or_ok.
  apply emits_lift. split; [by right|]. intros t Ht%throws_ok.
  exists p. split; [done|]. left. rewrite Hp in Hrun. by exists op, req, w, w'.
Qed.

Lemma recover_names id e :
  emits (recover_transfer_on_rpc_connection_error self id e) (λ r l, l = [] ∧ names id r).
Proof using ll.
  unfold recover_transfer_on_rpc_connection_error. case_match; [|by apply emits_fail].
  apply quiet_bind; [silence|done|]. intros op. apply quiet_bind; [silence|done|]. intros key.
  apply (emits_run _ _ (λ _ l, l = [])); [apply emits_map_err, quiet_query|by intros ? l ->|].
  intros [ts o] l w w' -> Hrun%se_map_err_ok.
  destruct ts as [|p rest]; [by apply emits_fail|]. apply emits_lift. split; [done|].
  intros t Ht%throws_ok. exists p. split; [done|]. right. by eexists _, _, _, _, _, _.
Qed.

(** C30: a send starts one transfer.  Whatever fails, [transfer_leaves_to] asks the coordinator
    at most once to start a transfer, for the receiver and, when one was given, the transfer
    id of the caller; a transfer it returns is one the coordinator itself named, in its
    answer to that start or, after a connection error, to a query for the id. *)
Theorem send_starts_one_transfer leaves receiver transfer_id source invoice w w' r :
  transfer_leaves_to self leaves receiver transfer_id source invoice w = (w', r) →
  ∃ id l, log w' = log w ++ l ∧ at_most_one id receiver l ∧ names id r ∧
    (∀ given, transfer_id = Some given → id = given).
Proof using ll.
  assert (∀ id, (∀ given, transfer_id = Some given → id = given) →
    emits (do* _ := notify_observer self id leaves receiver invoice in
           do* leaf_key_tweaks := of_signer (prepare_leaf_key_tweaks_to_send leaves source) in
           try* transfer_res := send_transfer_with_key_tweaks self id leaf_key_tweaks receiver invoice in
           match transfer_id, transfer_res with
           | _, Ok t => se_ret t
           | Some transfer_id, Err (Throw e) => recover_transfer_on_rpc_connection_error self transfer_id e
           | _, Err e => se_fail e
           end) (λ r l, at_most_one id receiver l ∧ names id r)) as Hsend.
  { intros id Hid. assert (∀ e, at_most_one id receiver [] ∧ names id (Err e)) as Hstop
      by (intros e; split; [by left|done]).
    apply quiet_bind; [silence|done|]. intros [].
    apply quiet_bind; [silence|done|]. intros tweaks.
    apply emits_try. eapply emits_conseq; [apply send_once|].
    intros r0 l [Hone Hnames]. destruct transfer_id as [given|]; [|destruct r0 as [t|e]].
    - rewrite (Hid given eq_refl) in *. destruct r0 as [t|[|e]].
      + apply emits_ret. by rewrite app_nil_r.
      + apply emits_fail. by rewrite app_nil_r.
      + eapply emits_conseq; [apply recover_names|]. intros r1 l1 [-> Hr]. by rewrite app_nil_r.
    - apply emits_ret. by rewrite app_nil_r.
    - apply emits_fail. by rewrite app_nil_r. }
  unfold transfer_leaves_to. destruct transfer_id as [given|].
  - unfold se_bind at 1. simpl. intros H. destruct (Hsend given ltac:(congruence) w w' r H) as (l & ? & ? & ?).
    exists given, l. split_and!; [done..|congruence].
  - unfold se_bind at 1. pose proof (quiet_uuid w) as Hu. unfold se_total in *.
    destruct (uuid_now_v7 w) as [w1 id]. destruct (Hu w1 (Ok id) eq_refl) as (l0 & Hl0 & ->).
    rewrite app_nil_r in Hl0. intros H. destruct (Hsend id ltac:(done) w1 w' r H) as (l & Hl & ? & ?).
    exists id, l. rewrite <- Hl0. split_and!; done.
Qed.
End once.

(** ** At concrete inputs

    Two operators, the second of which has already applied the tweak; every call is answered,
    and a signature is the hash of what it signs. *)
Module Example.
Import AddressesProps.Example.
#[local] Existing Instance canonical_order.
#[local] Existing Instance example_bitcoin.
#[local] Existing Instance example_bitcoin_ops.

(** The world of the examples, with a log of events of any kind. *)
Record World {Ev : Type} : Type := {
  ew_nonce : Z;
  ew_slept : list Z;
  ew_log : list Ev
}.
Arguments World : clear implicits.

(** How starts and deliveries of transfers are logged. *)
Class StartEvent (Ev : Type) := {
  started : string → list Z → Ev;
  delivered : string → list Ev
}.

#[export] Instance start_event : StartEvent TransferEvent := {| started := Started; delivered _ := [] |}.

Definition initial {Ev} : World Ev := {| ew_nonce := 0; ew_slept := []; ew_log := [] |}.

#[export] Instance texts : TokenTextOps := {|
  hex_encode b := pos_text (encode b);
  hex_decode s := decode (text_pos s);
  is_nfc _ := true
|}.

#[export] Instance keys : AddressKeys := {| address_key k := Z.odd k : @AddrKey example_ops |}.

#[export] Instance env {Ev} : SignerEnv (World Ev) := {|
  Commitments := Z; OperatorCommitments := list Z; SignatureShare := Z; FrostSignature := Z;
  Sighash := Z; ProtoCommitment := Z; ProtoOperatorCommitments := list Z;
  ProtoSigningResult := Z; SigningResultData := list Z;
  signer_error := λ _, ("signer" : @OtherError example_bitcoin);
  public_key_from_secret := λ _, se_ret (9 : @SecpPublicKey example_bitcoin);
  get_identity_public_key := se_ret (8 : @SecpPublicKey example_bitcoin);
  generate_random_signing_commitment := λ w,
    ({| ew_nonce := ew_nonce w + 1; ew_slept := ew_slept w; ew_log := ew_log w |}, Ok (ew_nonce w, []));
  taproot_sighash := λ tx i outs, Ok (mix (example_txid tx :: (txo_value <$> outs)));
  key_from_slice := λ l, head l;
  key_serialize := λ k, [k];
  tx_serialize := λ tx, [example_txid tx];
  share_serialize := λ s, [s];
  signature_serialize := λ s, Ok [s];
  commitment_to_proto := λ c, Ok c;
  operator_commitments_to_proto := λ c, Ok c;
  signing_result_from_proto := λ r, Ok [r];
  sr_commitments := λ r, r
|}.

#[export] Instance frost {Ev} : FrostSigner (World Ev) := {|
  sign_frost := λ r, se_ret (sf_message r + 1 : @SignatureShare _ _ env);
  aggregate_frost := λ r, se_ret (af_message r + 2 : @FrostSignature _ _ env)
|}.

#[export] Instance types : TransferTypes := {|
  FrostIdentifier_countable := Z_countable;
  Identifier_serialize i := [i : Z];
  Identifier_deserialize l := head l;
  Uuid := Z;
  Uuid_to_string u := pos_text (encode [u]);
  Uuid_from_str s := match (decode (text_pos s) : option (list Z)) with Some [u] => Some u | _ => None end;
  EcdsaSignature := list Z;
  ecdsa_from_compact := Some;
  ecdsa_from_der := Some;
  ecdsa_serialize_compact s := s;
  ecdsa_serialize_der s := s;
  deserialize l := match l with [p; s; a] => Some (example_tx p s a) | _ => None end
|}.

#[export] Instance shares : ShareTypes := {|
  Scalar := Z; Scalar_from_u64 z := z; Scalar_to_bytes z := [z];
  ProofKey := Z; to_sec1_bytes p := [p];
  secret_public_key l := head l;
  serialize_uncompressed k := [k : Z]
|}.

Definition code (s : SecretSource) : Z := match s with Derived _ => 100 | Encrypted l => sumZ l end.

#[export] Instance signer {Ev} : TransferSigner (World Ev) := {|
  subtract_secrets a b := se_ret (Encrypted [code a - code b]);
  split_secret_with_proofs s t n :=
    se_ret ((λ i, {| secret_share := {| share_threshold := t; share_index := i : @Scalar _ shares;
                                        share_value := code s + i : @Scalar _ shares |};
                     proofs := [code s : @ProofKey _ shares] |}) <$> seqZ 1 n);
  encrypt_secret_for_receiver s k := se_ret ((k : Z) :: s);
  sign_message_ecdsa_with_identity_key m := se_ret (ex_sha256 m : @EcdsaSignature _ types);
  generate_random_secret := se_ret [7]
|}.

Definition proto_node (id : string) : ProtoTreeNode :=
  {| pn_id := id; pn_tree_id := "tree"; pn_value := 1000; pn_parent_node_id := None;
     pn_node_tx := [1; 1073743824; 1000]; pn_refund_tx := [2; 1073743774; 1000]; pn_vout := 0;
     pn_verifying_public_key := [5]; pn_owner_identity_public_key := [];
     pn_signing_keyshare := Some {| pk_owner_identifiers := []; pk_threshold := 2; pk_public_key := [2] |};
     pn_status := "AVAILABLE"; pn_direct_tx := []; pn_direct_refund_tx := [];
     pn_direct_from_cpfp_refund_tx := [] |}.

(** The ciphertext of a leaf and the sender's signature over it. *)
Definition proto_leaf (id : string) (signed : bool) : ProtoTransferLeaf :=
  {| pl_leaf := Some (proto_node id); pl_secret_cipher := [4; 7];
     pl_signature := if signed then ex_sha256 (leaf_payload id (1 : @Uuid _ types) [4; 7]) else [0];
     pl_intermediate_refund_tx := [3; 1073743724; 1000]; pl_intermediate_direct_refund_tx := [];
     pl_intermediate_direct_from_cpfp_refund_tx := [] |}.

Definition proto_transfer (status : TransferStatus) (signed : bool) : ProtoTransfer :=
  {| pt_id := Uuid_to_string (1 : @Uuid _ types);
     pt_sender_identity_public_key := [3]; pt_receiver_identity_public_key := [8];
     pt_status := status; pt_total_value := 2000; pt_expiry_time := None;
     pt_leaves := [proto_leaf "a" true; proto_leaf "b" signed];
     pt_created_time := None; pt_updated_time := None; pt_type := PlainTransfer;
     pt_spark_invoice := "" |}.

#[export] Instance network_of_operators {Ev} {st : StartEvent Ev} : TransferOperators (World Ev) := {|
  rpc_error e := match e with Connection s => status_text s | _ => "rpc" end : @OtherError example_bitcoin;
  as_rpc_error s := Some (Connection {| status_code := Internal; status_text := s |});
  ProtoNonceCommitments := list Z;
  map_nonce_commitments l := Ok l;
  verify_ecdsa digest signature _ := if bool_decide (signature = digest) then None else Some "incorrect signature";
  encode_send_leaf_key_tweaks l := [Z.of_nat (length l)];
  ecies_encrypt k m := se_ret (k ++ m);
  uuid_now_v7 w := (w, 2 : @Uuid _ types);
  sleep_ms d w := {| ew_nonce := ew_nonce w; ew_slept := ew_slept w ++ [d]; ew_log := ew_log w |};
  before_send_transfer := Some (λ _ _ _, se_ret ());
  get_signing_commitments op ids n := se_ret (replicate (Z.to_nat n * length ids) [1]);
  start_transfer_v2 op req w :=
    ({| ew_nonce := ew_nonce w; ew_slept := ew_slept w;
        ew_log := ew_log w ++ [started (rq_transfer_id req) (rq_receiver_identity_public_key req)] |},
     Err (Connection {| status_code := Internal; status_text := "timeout" |}));
  finalize_transfer_with_transfer_package op req w :=
    ({| ew_nonce := ew_nonce w; ew_slept := ew_slept w; ew_log := ew_log w ++ delivered (fr_transfer_id req) |},
     Ok (Some (proto_transfer SenderKeyTweaked true)));
  query_all_transfers op f :=
    se_ret ([proto_transfer (if op_id op =? 1 then ReceiverKeyTweaked else SenderKeyTweaked) true], 0);
  query_pending_transfers_rpc op f := se_ret ([], 0);
  claim_transfer_tweak_keys_rpc op req :=
    if op_id op =? 1
    then se_fail (Connection {| status_code := AlreadyExists; status_text := "already tweaked" |})
    else se_ret ();
  claim_transfer_sign_refunds_v2 op req :=
    se_ret ((λ job, {| lr_leaf_id := lj_leaf_id job;
                       lr_refund_tx_signing_result := Some (1 : @ProtoSigningResult _ _ env);
                       lr_direct_refund_tx_signing_result := Some (2 : @ProtoSigningResult _ _ env);
                       lr_direct_from_cpfp_refund_tx_signing_result := Some (3 : @ProtoSigningResult _ _ env);
                       lr_verifying_key := [6] |}) <$> cr_signing_jobs req);
  finalize_node_signatures_v2 op sigs := se_ret ((λ s, proto_node (ns_node_id s)) <$> sigs)
|}.

#[export] Instance events {Ev} : Log (World Ev) Ev := {| log := ew_log |}.

(** The waiting tasks take turns. *)
#[export] Instance turns : Scheduler := {| schedule n := S n |}.

Definition operator (id identifier : Z) : Operator :=
  {| op_id := id; op_identifier := identifier : @FrostIdentifier example_bitcoin;
     op_identity_public_key := 20 + id : @SecpPublicKey example_bitcoin |}.

Definition service : TransferService :=
  {| ts_network := Regtest; split_secret_threshold := 2;
     operator_pool := {| coordinator_index := 0; operators := [operator 0 10; operator 1 11] |} |}.

#[export] Instance example_quiet {Ev} {st : StartEvent Ev} : TransferQuiet (W := World Ev) (Ev := Ev).
Proof.
  split; try (intros; intros w w' r [= <- <-]; exists []; split; [by rewrite ?app_nil_r|done]).
  - intros r. apply quiet_ret.
  - intros r. apply quiet_ret.
  - intros f a b c [= <-] w w' r [= <- <-]. exists []. by rewrite app_nil_r.
  - intros op req. unfold claim_transfer_tweak_keys_rpc. simpl. case_match; [apply quiet_fail|apply quiet_ret].
Qed.

#[export] Instance example_transfer_laws : TransferLogLaws (W := World TransferEvent).
Proof.
  split; [apply example_quiet|]. intros op req w w' r [= <- <-]. eexists. by split.
Qed.

Definition node (id : string) : TreeNode :=
  example_node id None (example_tx 1 1073743824 1000) (Some (example_tx 2 1073743774 1000)) None.

Definition leaf_key (id : string) : LeafKeyTweak :=
  {| lk_node := node id; signing_key := Derived id; new_signing_key := Encrypted [7] |}.

Definition transfer_leaf (id : string) (signed : bool) : TransferLeaf :=
  {| tl_leaf := node id; secret_cipher := [4; 7];
     tl_signature := Some (if signed then ex_sha256 (leaf_payload id (1 : @Uuid _ types) [4; 7]) else [0]);
     intermediate_refund_tx := example_tx 3 1073743724 1000; intermediate_direct_refund_tx := None;
     intermediate_direct_from_cpfp_refund_tx := None |}.

Definition transfer (signed : bool) : Transfer :=
  {| t_id := 1 : @Uuid _ types;
     sender_identity_public_key := 3 : @SecpPublicKey example_bitcoin;
     receiver_identity_public_key := 8 : @SecpPublicKey example_bitcoin;
     t_status := SenderKeyTweaked; total_value := 2000; expiry_time := None;
     leaves := [transfer_leaf "a" true; transfer_leaf "b" signed];
     created_time := None; updated_time := None; t_transfer_type := PlainTransfer;
     spark_invoice := None |}.

Lemma operators_distinct : distinct (get_all_operators (operator_pool service)).
Proof. vm_compute. repeat constructor; set_solver. Qed.

Definition start : World TransferEvent := initial.

Lemma send_tweaks_own_share_witness :
  let receiver : @SecpPublicKey example_bitcoin := 30 in
  let ls := [leaf_key "a"; leaf_key "b"] in
  ∃ w' m, prepare_send_transfer_key_tweaks service (1 : @Uuid _ types) receiver ls
            RefundSignatures_default start = (w', Ok m) ∧
    ∃ tweaks, Forall2 (send_tweaks_of (W := World TransferEvent) service (1 : @Uuid _ types) receiver) ls tweaks ∧
      ∀ op, op ∈ get_all_operators (operator_pool service) →
        Forall2 (λ tweak t, tweak op = Some t) tweaks (default [] (m !! op_identifier op)).
Proof.
  intros receiver ls.
  assert (is_ok (prepare_send_transfer_key_tweaks service (1 : @Uuid _ types) receiver ls
            RefundSignatures_default start).2 = true) as Hok by (vm_compute; reflexivity).
  destruct (prepare_send_transfer_key_tweaks service _ receiver ls _ start) as [w' [m|e]] eqn:H; [|done].
  exists w', m. split; [reflexivity|].
  exact (send_tweaks_own_share service _ receiver ls _ start w' m H operators_distinct).
Defined.

Lemma claim_tweaks_every_operator_witness :
  let ls := [leaf_key "a"; leaf_key "b"] in
  ∃ w' proofs, claim_transfer_tweak_keys service (transfer true) ls start = (w', Ok proofs) ∧
    ∃ (key : list Z) tweaks, Forall2 (claim_tweaks_of (W := World TransferEvent) service) ls tweaks ∧
      ∀ op, op ∈ get_all_operators (operator_pool service) →
        ∃ l, Forall2 (λ tweak t, tweak op = Some t) tweaks l ∧
          (tweak_accepted (W := World TransferEvent) op (tweak_request (transfer true) key l) ∨
           tweaked_before (W := World TransferEvent) service (transfer true) op (tweak_request (transfer true) key l)).
Proof.
  intros ls.
  assert (is_ok (claim_transfer_tweak_keys service (transfer true) ls start).2 = true) as Hok
    by (vm_compute; reflexivity).
  destruct (claim_transfer_tweak_keys service (transfer true) ls start) as [w' [proofs|e]] eqn:H; [|done].
  exists w', proofs. split; [reflexivity|].
  apply (claim_tweaks_every_operator service (transfer true) ls start w' proofs H operators_distinct).
  discriminate.
Defined.

(** A claim that succeeds in its first round. *)
Lemma claim_transfer_ends_witness :
  ∃ w' nodes, claim_transfer service (transfer true) None start = (w', Ok nodes) ∧
    length nodes = 2%nat ∧
    ∃ n w1, 0 ≤ n ∧ failed_rounds (W := World TransferEvent) service ClaimTransferConfig_default (transfer true) n start w1 ∧
      claim_ends (W := World TransferEvent) service ClaimTransferConfig_default (transfer true) n w1 w' (Ok nodes).
Proof.
  assert (from_option length O (match (claim_transfer service (transfer true) None start).2 with
            Ok nodes => Some nodes | Err _ => None end) = 2%nat) as Hok by (vm_compute; reflexivity).
  destruct (claim_transfer service (transfer true) None start) as [w' [nodes|e]] eqn:H; [|discriminate Hok].
  exists w', nodes. split; [reflexivity|]. split; [exact Hok|].
  apply (claim_transfer_ends service (transfer true) None start w' (Ok nodes)); [vm_compute; discriminate|exact H].
Defined.

(** A false signature: four delays, nothing else. *)
Lemma unsigned_leaf_is_not_claimed_witness :
  claim_transfer service (transfer false) None start
    = ({| ew_nonce := 0; ew_slept := [1000; 2000; 4000; 8000]; ew_log := [] |},
       Err (Throw MaxRetriesExceeded)).
Proof.
  pose proof (unsigned_leaf_is_not_claimed service (transfer false) None start) as H.
  cbv zeta in H. rewrite H; [f_equal; vm_compute; reflexivity|vm_compute; discriminate|].
  exists (transfer_leaf "b" false). split; [right; left|].
  intros (s & [= <-] & Hv). vm_compute in Hv. discriminate Hv.
Defined.

Lemma backoff_bounds_witness :
  0 ≤ backoff_ms ClaimTransferConfig_default 4 ≤ 10000 ∧
  backoff_ms ClaimTransferConfig_default 4 = 8000.
Proof.
  destruct (backoff_bounds ClaimTransferConfig_default 4) as (Hb & Heq & _);
    [split; vm_compute; done|split; vm_compute; done|lia|].
  split; [exact Hb|]. rewrite Heq; vm_compute; done.
Defined.

Lemma claim_signs_what_it_sent_witness :
  let ls := [leaf_key "a"; leaf_key "b"] in
  ∃ w' signatures, claim_transfer_sign_refunds service (transfer true) ls start = (w', Ok signatures) ∧
    ∃ op key jobs results w1 w2,
      claim_transfer_sign_refunds_v2 op
        {| cr_transfer_id := Uuid_to_string (1 : @Uuid _ types); cr_owner_identity_public_key := key;
           cr_signing_jobs := jobs |} w1 = (w2, Ok results) ∧
      Forall2 (λ leaf job, lj_leaf_id job = leaf_id leaf ∧ claim_timelock leaf job) ls jobs ∧
      length signatures = length results ∧
      ∀ r, r ∈ results → ∃ i leaf job, ls !! i = Some leaf ∧ jobs !! i = Some job ∧
        lr_leaf_id r = leaf_id leaf ∧ job_signed new_signing_key leaf job.
Proof.
  intros ls.
  assert (is_ok (claim_transfer_sign_refunds service (transfer true) ls start).2 = true) as Hok
    by (vm_compute; reflexivity).
  destruct (claim_transfer_sign_refunds service (transfer true) ls start) as [w' [sigs|e]] eqn:H; [|done].
  exists w', sigs. split; [reflexivity|].
  apply (claim_signs_what_it_sent (bo := example_bitcoin_ops) service (λ b _, eq_refl) (transfer true) ls start w' sigs H).
  apply (bool_decide_eq_true_1 _). vm_compute. reflexivity.
Defined.

Lemma package_has_all_commitments_witness :
  let ls := [leaf_key "a"; leaf_key "b"] in
  ∃ w' p, prepare_transfer_package service (1 : @Uuid _ types) ∅ ls (30 : @SecpPublicKey example_bitcoin)
            None None start = (w', Ok p) ∧
    ∃ op w1 w2 protos, get_signing_commitments op ["a"; "b"] 3 w1 = (w2, Ok protos) ∧
      length protos = 6%nat ∧ ls ≠ [].
Proof.
  intros ls.
  assert (is_ok (prepare_transfer_package service (1 : @Uuid _ types) ∅ ls
            (30 : @SecpPublicKey example_bitcoin) None None start).2 = true) as Hok by (vm_compute; reflexivity).
  destruct (prepare_transfer_package service _ ∅ ls _ None None start) as [w' [p|e]] eqn:H; [|done].
  exists w', p. split; [reflexivity|].
  exact (package_has_all_commitments (bo := example_bitcoin_ops) service (1 : @Uuid _ types) ∅ ls (30 : @SecpPublicKey example_bitcoin)
           None None start w' p (λ b _, eq_refl) H).
Defined.

(** Five commitments for two leaves pass the check of the chunks; the sixth is then missing. *)
Example short_commitments_pass :
  is_ok (chunked_commitments 2 (replicate 5 ([1] : @OperatorCommitments _ _ (env (Ev := TransferEvent))))) = true.
Proof. vm_compute. reflexivity. Qed.

Definition package : TransferPackage (W := World TransferEvent) :=
  {| leaves_to_send := []; direct_leaves_to_send := []; direct_from_cpfp_leaves_to_send := [];
     key_tweak_package := {[ "0a" := [1; 2]; "0b" := [3] ]}; tp_user_signature := [];
     hash_variant := HashV2 |}.

Lemma package_short : short_entries (key_tweak_package package).
Proof.
  intros k v Hk. cbn [key_tweak_package package] in Hk.
  rewrite lookup_insert_Some, lookup_singleton_Some in Hk.
  destruct Hk as [[<- <-]|[_ [<- <-]]]; split; vm_compute; done.
Qed.

Lemma signed_package_commits_witness :
  let signed : TransferPackage (W := World TransferEvent) :=
                {| leaves_to_send := []; direct_leaves_to_send := []; direct_from_cpfp_leaves_to_send := [];
                   key_tweak_package := key_tweak_package package; tp_user_signature := [9];
                   hash_variant := HashV2 |} in
  hex_decode (remove_dashes (Uuid_to_string (1 : @Uuid _ types)))
    = hex_decode (remove_dashes (Uuid_to_string (1 : @Uuid _ types))) ∧
  key_tweak_package signed = key_tweak_package package.
Proof.
  intros signed.
  assert (∀ b, hex_decode (remove_dashes (Uuid_to_string (1 : @Uuid _ types))) = Some b → short b) as Hid.
  { intros b Hb. vm_compute in Hb. injection Hb as <-. vm_compute. done. }
  assert (is_ok (get_transfer_package_signing_payload (1 : @Uuid _ types) package start).2 = true) as Hok
    by (vm_compute; reflexivity).
  assert ((get_transfer_package_signing_payload (1 : @Uuid _ types) package start).1 = start) as Hw
    by (vm_compute; reflexivity).
  destruct (get_transfer_package_signing_payload (1 : @Uuid _ types) package start) as [w' [payload|e]] eqn:H;
    [|done].
  cbn [fst] in Hw. subst w'.
  apply (signed_package_commits (1 : @Uuid _ types) (1 : @Uuid _ types) signed package start start payload).
  - intros m. apply to_le_bytes_length.
  - apply package_short.
  - apply package_short.
  - exact Hid.
  - exact Hid.
  - exact H.
  - exact H.
Defined.

(** The start times out; the transfer is recovered by its id, and started once. *)
Lemma send_starts_one_transfer_witness :
  let receiver : @SecpPublicKey example_bitcoin := 30 in
  ∃ w' t, transfer_leaves_to service [node "a"] receiver (Some (1 : @Uuid _ types)) None None start
            = (w', Ok t) ∧
    ∃ id l, log w' = log start ++ l ∧ at_most_one (W := World TransferEvent) id receiver l ∧ names (W := World TransferEvent) service id (Ok t) ∧
      (∀ given, Some (1 : @Uuid _ types) = Some given → id = given).
Proof.
  intros receiver.
  assert (is_ok (transfer_leaves_to service [node "a"] receiver (Some (1 : @Uuid _ types)) None None start).2
            = true) as Hok by (vm_compute; reflexivity).
  destruct (transfer_leaves_to service [node "a"] receiver _ None None start) as [w' [t|e]] eqn:H; [|done].
  exists w', t. split; [reflexivity|].
  exact (send_starts_one_transfer service [node "a"] receiver (Some (1 : @Uuid _ types)) None None start w' (Ok t) H).
Defined.
End Example.
