(* ===== verification/ExchangeModels.v ===== *)
(** The data of exchanges with the service provider (SSP) and the collaborators of the services
    that make them: the inputs and quotes of [crates/spark/src/ssp], the messages of the
    operators for swaps, HTLCs and cooperative exits, preimages
    ([services/models.rs]) and the description of invoices ([services/lightning.rs]).

    The SSP (class [SspClient]), the operators' calls ([ExchangeOperators]), the observer
    ([ExchangeObserver]), the invoices of the lightning crate ([Bolt11Ops]) and clocks, random
    keys and the texts of errors ([ExchangeEnv]) are parameters. *)
From stdpp Require Import base gmap strings list.
From S2P Require Import Prelude Timelocks TreeTypes Payments Transactions Bytes Paging Addresses TokenTx Signing TransferModels Futures Transfers.

(** ** The service provider *)

Inductive SspError : Type :=
| SspAuthentication (s : string) | SspGraphQL (s : string)
| SspNetwork (reason : string) (code : option Z) | SspSigner (s : string)
| SspSerialization (s : string) | SspParseError (s : string) | SspGeneric (s : string).

Record UserLeafInput : Type := {
  ul_leaf_id : string;
  raw_unsigned_refund_transaction : string;
  direct_raw_unsigned_refund_transaction : option string;
  direct_from_cpfp_raw_unsigned_refund_transaction : option string;
  adaptor_added_signature : string;
  direct_adaptor_added_signature : option string;
  direct_from_cpfp_adaptor_added_signature : option string
}.

Record RequestSwapInput : Type := {
  adaptor_pubkey : string;
  total_amount_sats : Z;
  target_amount_sats : list Z;
  fee_sats : Z;
  user_leaves : list UserLeafInput;
  user_outbound_transfer_external_id : string
}.

Inductive ExitSpeed : Type := Fast | Medium | Slow.

Record RequestCoopExitInput : Type := {
  leaf_external_ids : list string;
  rx_withdrawal_address : string;
  rx_idempotency_key : option string;
  rx_exit_speed : ExitSpeed;
  rx_withdraw_all : bool;
  fee_leaf_external_ids : option (list string);
  rx_fee_quote_id : option string;
  rx_user_outbound_transfer_external_id : option string
}.

Record RequestLightningReceiveInput : Type := {
  receiver_identity_pubkey : option string;
  rr_amount_sats : Z;
  rr_network : BitcoinNetwork;
  rr_payment_hash : string;
  rr_description_hash : option string;
  rr_expiry_secs : option Z;
  rr_memo : option string;
  rr_include_spark_address : bool;
  rr_spark_invoice : option string
}.

Record RequestLightningSendInput : Type := {
  rs_encoded_invoice : string;
  rs_idempotency_key : option string;
  rs_amount_sats : option Z;
  rs_user_outbound_transfer_external_id : option string
}.

(** [ssp::CoopExitFeeQuote]. *)
Record SspCoopExitFeeQuote : Type := {
  sq_id : string;
  sq_expires_at : Z;
  user_fee_fast : CurrencyAmount;
  user_fee_medium : CurrencyAmount;
  user_fee_slow : CurrencyAmount;
  l1_broadcast_fee_fast : CurrencyAmount;
  l1_broadcast_fee_medium : CurrencyAmount;
  l1_broadcast_fee_slow : CurrencyAmount
}.

(** The payload of the errors of the SSP and its calls. *)
Class SspClient {bt : BitcoinTypes} (W : Type) := {
  ssp_error : SspError → OtherError;
  ssp_identity_public_key : SecpPublicKey;
  request_swap : RequestSwapInput → SE W SspError LeavesSwapRequest;
  get_coop_exit_fee_quote : list string → string → SE W SspError SspCoopExitFeeQuote;
  request_coop_exit : RequestCoopExitInput → SE W SspError CoopExitRequest;
  complete_coop_exit : string → string → SE W SspError CoopExitRequest;
  request_lightning_receive : RequestLightningReceiveInput → SE W SspError LightningReceiveRequest;
  request_lightning_send : RequestLightningSendInput → SE W SspError LightningSendRequest;
  get_lightning_send_fee_estimate : string → option Z → SE W SspError CurrencyAmount;
  get_lightning_send_request : string → SE W SspError (option LightningSendRequest);
  get_lightning_receive_request : string → SE W SspError (option LightningReceiveRequest)
}.

(** ** Invoices *)

(** [bitcoin::Network]. *)
Inductive BtcNetwork : Type := NetBitcoin | NetTestnet | NetTestnet4 | NetSignet | NetRegtest.

#[export] Instance BtcNetwork_eq_dec : EqDecision BtcNetwork.
Proof. solve_decision. Defined.

Definition BtcNetwork_from (n : Network) : BtcNetwork :=
  match n with
  | Mainnet => NetBitcoin | Regtest => NetRegtest | Testnet => NetTestnet | Signet => NetSignet
  end.

(** A hop of a private route: its channel and the key of its node. *)
Record RouteHintHop {bt : BitcoinTypes} : Type := { short_channel_id : Z; src_node_id : SecpPublicKey }.

Class Bolt11Ops {bt : BitcoinTypes} := {
  Bolt11Invoice : Type;
  (** The error is a text. *)
  Bolt11Invoice_from_str : string → result Bolt11Invoice string;
  amount_milli_satoshis : Bolt11Invoice → option Z;
  invoice_payment_hash : Bolt11Invoice → list Z;
  invoice_network : Bolt11Invoice → BtcNetwork;
  route_hints : Bolt11Invoice → list (list RouteHintHop)
}.

Inductive InvoiceDescription : Type := Memo (memo : string) | DescriptionHash (hash : list Z).

Definition into_memo_and_description_hash (d : InvoiceDescription) : option string * option (list Z) :=
  match d with
  | Memo memo => (Some memo, None)
  | DescriptionHash hash => (None, Some hash)
  end.

(** ** Preimages *)

(** [Preimage([u8; 32])]. *)
Record Preimage : Type := { preimage_bytes : list Z }.

Definition Preimage_try_from {bt : BitcoinTypes} (value : list Z) : result Preimage ServiceError :=
  if Nat.eqb (length value) 32 then Ok {| preimage_bytes := value |}
  else Err (InvalidPreimage "Invalid preimage length").

Definition Preimage_from_hex {bt : BitcoinTypes} {tx : TokenTextOps} (hex : string) : result Preimage ServiceError :=
  let* bytes := ok_or (hex_decode hex) (InvalidPreimage "Invalid preimage hex") in
  Preimage_try_from bytes.

Definition Preimage_encode_hex {tx : TokenTextOps} (p : Preimage) : string := hex_encode (preimage_bytes p).

Definition Preimage_compute_hash {ao : AddressOps} (p : Preimage) : list Z := sha256 (preimage_bytes p).

(** ** Messages of the operators *)

Inductive Reason : Type := ReasonSend | ReasonReceive.

Inductive PreimageRequestRole : Type := RoleReceiver | RoleSender | RoleReceiverAndSender.

Record StorePreimageShareV2Request : Type := {
  sps_payment_hash : list Z;
  encrypted_preimage_shares : gmap string (list Z);
  sps_threshold : Z;
  invoice_string : string;
  user_identity_public_key : list Z
}.

Record ProvidePreimageRequest : Type := {
  pp_payment_hash : list Z;
  pp_preimage : list Z;
  pp_identity_public_key : list Z
}.

Record QueryHtlcRequest : Type := {
  qh_payment_hashes : list (list Z);
  qh_identity_public_key : list Z;
  qh_status : option PreimageRequestStatus;
  qh_limit : Z;
  qh_offset : Z;
  qh_transfer_ids : list string;
  qh_match_role : PreimageRequestRole
}.

(** [operator_rpc::spark::PreimageRequestWithTransfer]. *)
Record ProtoPreimageRequest : Type := {
  pq_payment_hash : list Z;
  pq_receiver_identity_pubkey : list Z;
  pq_status : PreimageRequestStatus;
  pq_created_time : option ProtoTimestamp;
  pq_transfer : option ProtoTransfer;
  pq_preimage : option (list Z)
}.

Section data.
Context {bt : BitcoinTypes} {W : Type} {se : SignerEnv W} {tt : TransferTypes} {sh : ShareTypes}.

Record AdaptorPublicKeyPackage : Type := {
  adaptor_public_key : list Z;
  direct_adaptor_public_key : list Z;
  direct_from_cpfp_adaptor_public_key : list Z
}.

Record InitiateSwapPrimaryTransferRequest : Type := {
  ip_transfer : option StartTransferRequest;
  ip_adaptor_public_keys : option AdaptorPublicKeyPackage
}.

Record StartUserSignedTransferRequest : Type := {
  su_transfer_id : string;
  su_owner_identity_public_key : list Z;
  su_receiver_identity_public_key : list Z;
  su_expiry_time : option ProtoTimestamp;
  su_leaves_to_send : list UserSignedTxSigningJob;
  su_direct_leaves_to_send : list UserSignedTxSigningJob;
  su_direct_from_cpfp_leaves_to_send : list UserSignedTxSigningJob
}.

(** [InvoiceAmount] with its proof, the invoice. *)
Record InvoiceAmount : Type := { invoice_amount_proof : option string; value_sats : Z }.

Record InitiatePreimageSwapRequest : Type := {
  is_payment_hash : list Z;
  is_reason : Reason;
  invoice_amount : option InvoiceAmount;
  is_transfer : option StartUserSignedTransferRequest;
  is_receiver_identity_public_key : list Z;
  is_fee_sats : Z;
  is_transfer_request : option StartTransferRequest
}.

Record CooperativeExitRequest : Type := {
  ce_transfer : option StartTransferRequest;
  exit_id : string;
  exit_txid : list Z;
  connector_tx : list Z
}.

(** The answer of [initiate_swap_primary_transfer] and of [cooperative_exit_v2]. *)
Record SigningResponse : Type := {
  sr_transfer : option ProtoTransfer;
  signing_results : list LeafRefundTxSigningResult
}.

(** The data of an HTLC of the operators, and the filter of their queries. *)
Record PreimageRequestWithTransfer : Type := {
  pw_payment_hash : list Z;
  pw_receiver_identity_pubkey : SecpPublicKey;
  pw_status : PreimageRequestStatus;
  pw_created_time : Z;
  pw_expiry_time : Z;
  pw_transfer : option Transfer;
  pw_preimage : option Preimage
}.

Record QueryHtlcFilter : Type := {
  qf_transfer_ids : list string;
  qf_payment_hashes : list string;
  qf_identity_public_key : SecpPublicKey;
  qf_status : option PreimageRequestStatus;
  qf_match_role : PreimageRequestRole
}.
End data.

Class ExchangeOperators {bt : BitcoinTypes} (W : Type) {se : SignerEnv W} {tt : TransferTypes}
  {sh : ShareTypes} := {
  initiate_swap_primary_transfer :
    Operator → InitiateSwapPrimaryTransferRequest → SE W OperatorRpcError SigningResponse;
  (** The transfer of [InitiatePreimageSwapResponse]. *)
  initiate_preimage_swap_v3 :
    Operator → InitiatePreimageSwapRequest → SE W OperatorRpcError (option ProtoTransfer);
  cooperative_exit_v2 : Operator → CooperativeExitRequest → SE W OperatorRpcError SigningResponse;
  provide_preimage_rpc : Operator → ProvidePreimageRequest → SE W OperatorRpcError (option ProtoTransfer);
  (** The requests of a page and its offset. *)
  query_htlc_rpc : Operator → QueryHtlcRequest → SE W OperatorRpcError (list ProtoPreimageRequest * Z);
  store_preimage_share_v2 : Operator → StorePreimageShareV2Request → SE W OperatorRpcError ();
  encode_secret_share : SecretShareProto → list Z;
  (** [SecretToSplit::Preimage]: the preimage, the threshold and the number of shares. *)
  split_preimage_with_proofs : list Z → Z → Z → SE W SignerError (list VerifiableSecretShare)
}.

Class ExchangeObserver {bt : BitcoinTypes} (W : Type) {se : SignerEnv W} {tt : TransferTypes} := {
  (** [None] when no observer is set; the second argument is the text of the address or invoice. *)
  before_coop_exit : option (Uuid → string → Z → SE W ServiceError ());
  before_send_lightning_payment : option (Uuid → string → Z → SE W ServiceError ())
}.

Class ExchangeEnv {bt : BitcoinTypes} (W : Type) := {
  bitcoin_error : string → OtherError;
  signer_error_text : SignerError → string;
  service_error_text : ServiceError → string;
  rpc_error_text : OperatorRpcError → string;
  txid_bytes : Txid → list Z;
  (** [SystemTime::now()], in nanoseconds since the epoch. *)
  now : W → W * Z;
  (** [SecretKey::new(&mut OsRng)], its bytes, and [PublicKey::from_secret_key]. *)
  new_secret_key : W → W * list Z;
  public_key_of_secret : list Z → SecpPublicKey
}.

(** ** Conversions *)

Section conversions.
Context {bt : BitcoinTypes} {W : Type} {se : SignerEnv W} {tt : TransferTypes} {tx : TokenTextOps}.

(** [UNIX_EPOCH + ...] panics when the seconds overflow. *)
Definition epoch_time (t : ProtoTimestamp) : result Z (exn ServiceError) := or_panic (timestamp_to_time t).

Definition PreimageRequestWithTransfer_try_from (request : ProtoPreimageRequest)
    : result PreimageRequestWithTransfer (exn ServiceError) :=
  let* t := throws (ok_or (pq_transfer request) (SE_Generic "Missing transfer")) in
  let* expiry := throws (ok_or (pt_expiry_time t) (SE_Generic "Missing expiry time")) in
  let* expiry_time := epoch_time expiry in
  let* payment_hash :=
    throws (if Nat.eqb (length (pq_payment_hash request)) 32 then Ok (pq_payment_hash request)
            else Err (InvalidPaymentHash (hex_encode (pq_payment_hash request)))) in
  let* receiver := throws (ok_or (key_from_slice (pq_receiver_identity_pubkey request)) InvalidPublicKey) in
  let* created_time :=
    match pq_created_time request with
    | Some ts => epoch_time ts
    | None => Err (Throw (SE_Generic "Missing created time"))
    end in
  let* transfer := throws (Transfer_try_from t) in
  let* preimage :=
    throws (map_err (λ _, ValidationError "Invalid preimage")
              (map_opt Preimage_try_from (pq_preimage request))) in
  Ok {| pw_payment_hash := payment_hash; pw_receiver_identity_pubkey := receiver;
        pw_status := pq_status request; pw_created_time := created_time;
        pw_expiry_time := expiry_time; pw_transfer := Some transfer; pw_preimage := preimage |}.
End conversions.
