(* ===== verification/Htlcs.v ===== *)
(** Swapping leaves for a preimage ([crates/spark/src/utils/preimage_swap.rs]) and the HTLC
    service ([services/htlc.rs]): creating an HTLC, providing its preimage, the queries.

    The service has the pool, the network and the observer of the transfer service [self]. *)
From stdpp Require Import base gmap strings list.
From S2P Require Import Prelude Timelocks TreeTypes Payments Transactions Bytes Paging Addresses TokenTx Signing TransferModels Futures Transfers ExchangeModels.

(** [req.leaves] and the rest of [SwapNodesForPreimageRequest]. *)
Record SwapNodesForPreimageRequest {bt : BitcoinTypes} {W : Type} {se : SignerEnv W}
    {tt : TransferTypes} : Type := {
  sn_transfer_id : Uuid;
  sn_leaves : list LeafKeyTweak;
  sn_receiver_pubkey : SecpPublicKey;
  sn_payment_hash : list Z;
  invoice_str : option string;
  sn_amount_sats : Z;
  sn_fee_sats : Z;
  is_inbound_payment : bool;
  sn_transfer_request : option StartTransferRequest;
  sn_expiry_time : Z
}.

Section htlcs.
Context {ho : HashOrder} {bt : BitcoinTypes} {bo : BitcoinOps} {ao : AddressOps} {ak : AddressKeys}
  {tx : TokenTextOps} {W : Type} {se : SignerEnv W} {fs : FrostSigner W} {tt : TransferTypes}
  {sh : ShareTypes} {sg : TransferSigner W} {top : TransferOperators W} {eo : ExchangeOperators W}.
Context (self : TransferService).

Abbreviation Fault := (exn ServiceError).
Abbreviation M A := (SE W Fault A).

(** [leaves.len()] chunks the commitments: it panics without leaves. *)
Definition swap_commitments (leaves : list LeafKeyTweak)
    : M (list OperatorCommitments * list OperatorCommitments * list OperatorCommitments) :=
  do* op := coordinator self in
  do* protos := of_rpc (get_signing_commitments op ((λ l, tn_id (lk_node l)) <$> leaves) 3) in
  do* signing_commitments := of_service (collect map_nonce_commitments protos) in
  se_lift (chunked_commitments (length leaves) signing_commitments).

Definition required_expiry (t : Z) : M ProtoTimestamp :=
  of_service (ok_or (web_time_to_prost_timestamp t) (SE_Generic "Invalid expiry time")).

Definition swap_nodes_for_preimage (req : SwapNodesForPreimageRequest) : M (option ProtoTransfer) :=
  do* (cpfp, direct, direct_from_cpfp) := swap_commitments (sn_leaves req) in
  do* signed := of_signer_exn (sign_refunds
    {| cpfp_signing_commitments := cpfp; direct_signing_commitments := direct;
       direct_from_cpfp_signing_commitments := direct_from_cpfp;
       receiver_pubkey := sn_receiver_pubkey req; payment_hash := None;
       sr_network := ts_network self; cpfp_adaptor_public_key := None |} (sn_leaves req)) in
  let reason := if is_inbound_payment req then ReasonReceive else ReasonSend in
  (* With a transfer request the direct transactions are not sent. *)
  let '(direct_signed, direct_from_cpfp_signed) :=
    match sn_transfer_request req with
    | Some _ => ([], [])
    | None => (direct_signed_tx signed, direct_from_cpfp_signed_tx signed)
    end in
  do* owner := identity_key_bytes in
  do* expiry := required_expiry (sn_expiry_time req) in
  do* leaves_to_send := signing_jobs (cpfp_signed_tx signed) in
  do* direct_leaves_to_send := signing_jobs direct_signed in
  do* direct_from_cpfp_leaves_to_send := signing_jobs direct_from_cpfp_signed in
  do* op := coordinator self in
  of_rpc (initiate_preimage_swap_v3 op
    {| is_payment_hash := sn_payment_hash req;
       is_reason := reason;
       invoice_amount := Some {| invoice_amount_proof := invoice_str req;
                                 value_sats := sn_amount_sats req |};
       is_transfer := Some
         {| su_transfer_id := Uuid_to_string (sn_transfer_id req);
            su_owner_identity_public_key := owner;
            su_receiver_identity_public_key := key_serialize (sn_receiver_pubkey req);
            su_expiry_time := Some expiry;
            su_leaves_to_send := leaves_to_send;
            su_direct_leaves_to_send := direct_leaves_to_send;
            su_direct_from_cpfp_leaves_to_send := direct_from_cpfp_leaves_to_send |};
       is_receiver_identity_public_key := key_serialize (sn_receiver_pubkey req);
       is_fee_sats := sn_fee_sats req;
       is_transfer_request := sn_transfer_request req |}).

(** [response.transfer.ok_or(..)?.try_into()?]. *)
Definition swapped_transfer (response : option ProtoTransfer) : M Transfer :=
  do* transfer := of_service (ok_or response (SSPswapError "Swap response did not contain a transfer")) in
  of_service (Transfer_try_from transfer).

(** ** [HtlcService] *)

Definition htlc_notify (transfer_id : Uuid) (leaves : list TreeNode) (receiver_id : SecpPublicKey) : M () :=
  match before_send_transfer with
  | None => se_ret ()
  | Some observe =>
      do* identity_public_key := of_signer get_identity_public_key in
      if bool_decide (identity_public_key = receiver_id) then se_ret ()
      else
        let receiver_address :=
          {| identity_public_key := address_key receiver_id; network := ts_network self;
             spark_invoice_fields := None |} in
        let amount_sats := sum_u 64 (value <$> leaves) in
        do* address :=
          match to_address_string receiver_address with
          | Ok address => se_ret address
          | Err Panic => se_fail Panic
          | Err (Throw _) => generic_fault "Failed to get pay request"
          end in
        se_map_err Throw (observe transfer_id address amount_sats)
  end.

Definition fresh_id (transfer_id : option Uuid) : M Uuid :=
  match transfer_id with Some id => se_ret id | None => se_total uuid_now_v7 end.

Definition create_htlc (leaves : list TreeNode) (receiver_id : SecpPublicKey) (payment_hash : list Z)
    (expiry_time : Z) (transfer_id : option Uuid) : M Transfer :=
  do* unwrapped_transfer_id := fresh_id transfer_id in
  do* _ := htlc_notify unwrapped_transfer_id leaves receiver_id in
  do* leaf_key_tweaks := of_signer (prepare_leaf_key_tweaks_to_send leaves None) in
  do* prepared :=
    prepare_transfer_request self unwrapped_transfer_id leaf_key_tweaks receiver_id
      RefundSignatures_default (Some payment_hash) (Some expiry_time) None in
  let amount_sats := sum_u 64 ((λ l, value (lk_node l)) <$> leaf_key_tweaks) in
  try* swapped := swap_nodes_for_preimage
    {| sn_transfer_id := unwrapped_transfer_id; sn_leaves := leaf_key_tweaks;
       sn_receiver_pubkey := receiver_id; sn_payment_hash := payment_hash; invoice_str := None;
       sn_amount_sats := amount_sats; sn_fee_sats := 0; is_inbound_payment := false;
       sn_transfer_request := Some (transfer_request prepared); sn_expiry_time := expiry_time |} in
  match swapped with
  | Ok response => swapped_transfer response
  | Err (Throw e) => recover_transfer_on_rpc_connection_error self unwrapped_transfer_id e
  | Err Panic => se_fail Panic
  end.

Definition provide_preimage (preimage : Preimage) : M Transfer :=
  do* op := coordinator self in
  do* key := identity_key_bytes in
  do* response := of_rpc (provide_preimage_rpc op
    {| pp_payment_hash := Preimage_compute_hash preimage; pp_preimage := preimage_bytes preimage;
       pp_identity_public_key := key |}) in
  match response with
  | Some transfer => of_service (Transfer_try_from transfer)
  | None => generic_fault "ProvidePreimageResponse did not contain a transfer"
  end.

(** [hex::decode(h).unwrap()] panics. *)
Definition query_htlc_inner (filter : QueryHtlcFilter) (paging : PagingFilter)
    : M (PagingResult (T := PreimageRequestWithTransfer)) :=
  do* payment_hashes := se_lift (collect (λ h, or_panic (hex_decode h)) (qf_payment_hashes filter)) in
  do* op := coordinator self in
  do* (preimage_requests, offset) := of_rpc (query_htlc_rpc op
    {| qh_payment_hashes := payment_hashes;
       qh_identity_public_key := key_serialize (qf_identity_public_key filter);
       qh_status := qf_status filter;
       qh_limit := as_i64 (limit paging);
       qh_offset := as_i64 (Paging.offset paging);
       qh_transfer_ids := qf_transfer_ids filter;
       qh_match_role := qf_match_role filter |}) in
  do* items := se_lift (collect PreimageRequestWithTransfer_try_from preimage_requests) in
  se_ret {| items := items; next := next_from_offset paging offset |}.

Definition query_htlc (fuel : nat) (filter : QueryHtlcFilter) (paging : option PagingFilter) :=
  paged fuel (query_htlc_inner filter) paging.
End htlcs.
