(* ===== verification/Lightning.v ===== *)
(** The lightning service ([crates/spark/src/services/lightning.rs]): invoices (with the shares
    of their preimage, or held), payments of invoices by a preimage swap, and the queries.

    The service has the pool, the network and the threshold of the transfer service [self]. *)
From stdpp Require Import base gmap strings list pretty.
From S2P Require Import Prelude Timelocks TreeTypes Payments Transactions Bytes Paging Addresses TokenTx Signing TransferModels Futures Transfers ExchangeModels Htlcs.

Definition DEFAULT_RECEIVE_EXPIRY_SECS : Z := 60 * 60 * 24 * 30.
Definition DEFAULT_SEND_EXPIRY_SECS : Z := 60 * 60 * 24 * 16.
Definition RECEIVER_IDENTITY_PUBLIC_KEY_SHORT_CHANNEL_ID : Z := 17592187092992000001.

Definition LightningSendStatus_from (value : LightningSendRequestStatus) : LightningSendStatus :=
  match value with
  | RequestCreated => SendCreated
  | RequestRequestValidated => RequestValidated
  | RequestLightningPaymentInitiated => LightningPaymentInitiated
  | RequestUserTransferValidationFailed => UserTransferValidationFailed
  | RequestLightningPaymentFailed => LightningPaymentFailed
  | RequestLightningPaymentSucceeded => LightningPaymentSucceeded
  | RequestPreimageProvided => PreimageProvided
  | RequestPreimageProvidingFailed => PreimageProvidingFailed
  | RequestTransferCompleted => SendTransferCompleted
  | RequestTransferFailed => TransferFailed
  | RequestPendingUserSwapReturn => PendingUserSwapReturn
  | RequestUserSwapReturned => UserSwapReturned
  | RequestUserSwapReturnFailed => UserSwapReturnFailed
  | RequestUnknown => SendUnknown
  end.

Record LightningReceivePayment {TransferId : Type} : Type := {
  lrp_id : string;
  lrp_created_at : Z;
  lrp_updated_at : Z;
  lrp_network : Network;
  lrp_status : LightningReceiveRequestStatus;
  invoice : string;
  lrp_transfer_id : option TransferId;
  transfer_amount_sat : option Z;
  lrp_payment_preimage : option string
}.
Arguments LightningReceivePayment : clear implicits.

Section conversions.
Context {bt : BitcoinTypes} {tt : TransferTypes}.

(** The identifier of the transfer of a request, when it has one. *)
Definition request_transfer_id (transfer : option GraphTransfer) : result (option Uuid) ServiceError :=
  match transfer with
  | Some t =>
      match spark_id t with
      | Some id =>
          let* id := map_err (λ _, SSPswapError "Invalid transfer id format") (TransferId_from_str id) in
          Ok (Some id)
      | None => Ok None
      end
  | None => Ok None
  end.

Definition parsed_sats (a : CurrencyAmount) : result Z ServiceError :=
  map_err (λ _, SE_Generic "Failed to parse fee") (as_sats a).

Definition LightningSendPayment_try_from (value : LightningSendRequest)
    : result (LightningSendPayment Uuid) ServiceError :=
  let* transfer_id := request_transfer_id (ls_transfer value) in
  let* fee := parsed_sats (ls_fee value) in
  Ok {| lsp_id := ls_id value;
        lsp_created_at := ls_created_at value;
        lsp_updated_at := ls_updated_at value;
        lsp_network := Network_from_bitcoin (ls_network value);
        lsp_encoded_invoice := ls_encoded_invoice value;
        fee_sat := fee;
        lsp_idempotency_key := ls_idempotency_key value;
        lsp_status := LightningSendStatus_from (ls_status value);
        lsp_transfer_id := transfer_id;
        payment_preimage := lightning_send_payment_preimage value |}.

Definition LightningReceivePayment_try_from (value : LightningReceiveRequest)
    : result (LightningReceivePayment Uuid) ServiceError :=
  let* transfer_id := request_transfer_id (lr_transfer value) in
  let* amount := map_opt (λ t, parsed_sats (total_amount t)) (lr_transfer value) in
  Ok {| lrp_id := lr_id value;
        lrp_created_at := lr_created_at value;
        lrp_updated_at := lr_updated_at value;
        lrp_network := Network_from_bitcoin (lr_network value);
        lrp_status := lightning_request_status value;
        invoice := encoded_invoice (lr_invoice value);
        lrp_transfer_id := transfer_id;
        transfer_amount_sat := amount;
        lrp_payment_preimage := lightning_receive_payment_preimage value |}.

(** [lightning_send_payment.transfer_id = Some(id)]. *)
Definition set_transfer_id (id : Uuid) (p : LightningSendPayment Uuid) : LightningSendPayment Uuid :=
  {| lsp_id := lsp_id p; lsp_created_at := lsp_created_at p; lsp_updated_at := lsp_updated_at p;
     lsp_network := lsp_network p; lsp_encoded_invoice := lsp_encoded_invoice p;
     fee_sat := Payments.fee_sat p; lsp_idempotency_key := lsp_idempotency_key p;
     lsp_status := lsp_status p; lsp_transfer_id := Some id;
     payment_preimage := payment_preimage p |}.
End conversions.

Record PayLightningResult {bt : BitcoinTypes} {W : Type} {se : SignerEnv W} {tt : TransferTypes}
    : Type := {
  pl_transfer : Transfer;
  lightning_send_payment : option (LightningSendPayment Uuid);
  pl_payment_hash : list Z
}.

(** ** Amounts

    [div_ceil] of the millisatoshis; an invoice without an amount counts as zero. *)
Definition invoice_amount_sats {bt : BitcoinTypes} {b11 : Bolt11Ops} (inv : Bolt11Invoice) : Z :=
  (default 0 (amount_milli_satoshis inv) + 999) / 1000.

Definition get_invoice_amount_sats {bt : BitcoinTypes} {b11 : Bolt11Ops} (inv : Bolt11Invoice)
    (amount_to_send : option Z) : result Z ServiceError :=
  let to_pay_sat := default (invoice_amount_sats inv) amount_to_send in
  if to_pay_sat =? 0 then Err (ValidationError "Amount must be provided for 0 amount invoice")
  else if to_pay_sat <? invoice_amount_sats inv
  then Err (ValidationError "Amount must not be less than the invoice amount")
  else Ok to_pay_sat.

Section lightning.
Context {ho : HashOrder} {bt : BitcoinTypes} {bo : BitcoinOps} {ao : AddressOps} {ak : AddressKeys}
  {tx : TokenTextOps} {b11 : Bolt11Ops} {W : Type} {se : SignerEnv W} {fs : FrostSigner W}
  {tt : TransferTypes} {sh : ShareTypes} {sg : TransferSigner W} {top : TransferOperators W}
  {eo : ExchangeOperators W} {ssp : SspClient W} {ob : ExchangeObserver W} {env : ExchangeEnv W}.
Context (self : TransferService).

Abbreviation Fault := (exn ServiceError).
Abbreviation M A := (SE W Fault A).

(** [?] on the errors of the SSP. *)
Definition of_ssp {A} (m : SE W SspError A) : M A :=
  se_map_err (λ e, Throw (ServiceProviderError (ssp_error e))) m.

Definition decode_invoice (text : string) : M Bolt11Invoice :=
  of_service (map_err InvoiceDecodingError (Bolt11Invoice_from_str text)).

(** The key of the first hop with the reserved channel. *)
Definition extract_spark_address (decoded_invoice : Bolt11Invoice) : option SecpPublicKey :=
  src_node_id <$> List.find
    (λ node, short_channel_id node =? RECEIVER_IDENTITY_PUBLIC_KEY_SHORT_CHANNEL_ID)
    (mjoin (route_hints decoded_invoice)).

(** [SparkAddress::new(key, self.network, None)]. *)
Definition spark_address_of (key : SecpPublicKey) : SparkAddress :=
  {| identity_public_key := address_key key; network := ts_network self; spark_invoice_fields := None |}.

Definition extract_spark_address_from_invoice (text : string) : M (option SparkAddress) :=
  do* decoded_invoice := decode_invoice text in
  se_ret (spark_address_of <$> extract_spark_address decoded_invoice).

(** ** Receiving *)

(** The preimage and its hash: none for an external hash. *)
Definition preimage_and_hash (preimage : option (list Z)) (external_payment_hash : option (list Z))
    : M (option (list Z) * list Z) :=
  match external_payment_hash with
  | Some hash => se_ret (None, hash)
  | None =>
      do* preimage :=
        match preimage with Some p => se_ret p | None => se_total new_secret_key end in
      se_ret (Some preimage, sha256 preimage)
  end.

(** The shares zipped with the operators, each encrypted to its operator. *)
Fixpoint encrypt_shares (pairs : list (Operator * VerifiableSecretShare))
    (encrypted_shares : gmap string (list Z)) : M (gmap string (list Z)) :=
  match pairs with
  | [] => se_ret encrypted_shares
  | (operator, share) :: pairs =>
      let proto_bytes := encode_secret_share (proto_share share) in
      do* encrypted :=
        se_map_err (λ e, Throw (SE_Generic ("ECIES encryption failed: " +:+ e)))
          (ecies_encrypt (serialize_uncompressed (op_identity_public_key operator)) proto_bytes) in
      encrypt_shares pairs
        (<[hex_encode (Identifier_serialize (op_identifier operator)) := encrypted]> encrypted_shares)
  end.

Definition store_preimage_shares (preimage : option (list Z)) (payment_hash : list Z)
    (invoice_text : string) (identity_pubkey : SecpPublicKey) : M () :=
  do* preimage := of_service (ok_or preimage (SE_Generic "preimage must be set for non-HODL invoices")) in
  do* shares := of_signer (split_preimage_with_proofs preimage (split_secret_threshold self)
                             (pool_len (operator_pool self))) in
  do* encrypted_shares := encrypt_shares (zip (get_all_operators (operator_pool self)) shares) ∅ in
  do* op := coordinator self in
  se_map_err (λ e, Throw (PreimageShareStoreFailed (rpc_error_text e)))
    (store_preimage_share_v2 op
       {| sps_payment_hash := payment_hash; encrypted_preimage_shares := encrypted_shares;
          sps_threshold := split_secret_threshold self; invoice_string := invoice_text;
          user_identity_public_key := key_serialize identity_pubkey |}).

(** [expiry_secs] is a [u32]. *)
Definition create_lightning_invoice_inner (amount_sats : Z) (description : option InvoiceDescription)
    (preimage : option (list Z)) (external_payment_hash : option (list Z)) (expiry_secs : option Z)
    (include_spark_address : bool) (identity_pubkey : option SecpPublicKey)
    : M (LightningReceivePayment Uuid) :=
  do* _ :=
    match expiry_secs with
    | Some expiry =>
        if umax 31 <? expiry then
          se_fail (Throw (ValidationError
            ("expiry_secs " +:+ pretty expiry +:+ " exceeds maximum allowed value of "
             +:+ pretty (umax 31))))
        else se_ret ()
    | None => se_ret ()
    end in
  do* identity_pubkey :=
    match identity_pubkey with
    | Some pk => se_ret pk
    | None => of_signer get_identity_public_key
    end in
  let is_hodl := bool_decide (is_Some external_payment_hash) in
  do* (preimage, payment_hash) := preimage_and_hash preimage external_payment_hash in
  let expiry := default DEFAULT_RECEIVE_EXPIRY_SECS expiry_secs in
  let '(memo, description_hash) :=
    from_option into_memo_and_description_hash (None, None) description in
  do* request := of_ssp (request_lightning_receive
    {| receiver_identity_pubkey := Some (hex_encode (key_serialize identity_pubkey));
       rr_amount_sats := amount_sats;
       rr_network := BitcoinNetwork_from (ts_network self);
       rr_payment_hash := hex_encode payment_hash;
       rr_description_hash := hex_encode <$> description_hash;
       rr_expiry_secs := Some expiry;
       rr_memo := memo;
       rr_include_spark_address := include_spark_address;
       rr_spark_invoice := None |}) in
  do* decoded_invoice := decode_invoice (encoded_invoice (lr_invoice request)) in
  do* _ :=
    (if include_spark_address then
       match extract_spark_address decoded_invoice with
       | None => se_fail (Throw (SSPswapError "Invalid invoice. Spark address not found"))
       | Some key =>
           if bool_decide (key = identity_pubkey) then se_ret ()
           else se_fail (Throw (SSPswapError "Invalid invoice. Spark address mismatch"))
       end
     else se_ret ()) in
  do* _ :=
    (if is_hodl then se_ret ()
     else store_preimage_shares preimage payment_hash (encoded_invoice (lr_invoice request))
            identity_pubkey) in
  of_service (LightningReceivePayment_try_from request).

Definition create_lightning_invoice (amount_sats : Z) (description : option InvoiceDescription)
    (preimage : option (list Z)) (expiry_secs : option Z) (include_spark_address : bool)
    (identity_pubkey : option SecpPublicKey) : M (LightningReceivePayment Uuid) :=
  create_lightning_invoice_inner amount_sats description preimage None expiry_secs
    include_spark_address identity_pubkey.

Definition create_hodl_lightning_invoice (amount_sats : Z) (description : option InvoiceDescription)
    (payment_hash : list Z) (expiry_secs : option Z) (identity_pubkey : option SecpPublicKey)
    : M (LightningReceivePayment Uuid) :=
  create_lightning_invoice_inner amount_sats description None (Some payment_hash) expiry_secs false
    identity_pubkey.

(** ** Paying *)

(** [SystemTime::now() + duration] panics on overflow. *)
Definition after_now (secs : Z) : M Z :=
  do* t := se_total now in se_lift (or_panic (system_time_add t (secs * nanos_per_sec))).

(** After the swap: the SSP pays the invoice; its answer may lack the id of the transfer. *)
Definition pay_through_ssp (text : string) (amount_to_send : option Z) (transfer_id : Uuid)
    (payment_hash : list Z) (response : option ProtoTransfer) : M PayLightningResult :=
  do* transfer := swapped_transfer response in
  do* request := of_ssp (request_lightning_send
    {| rs_encoded_invoice := text; rs_idempotency_key := None; rs_amount_sats := amount_to_send;
       rs_user_outbound_transfer_external_id := Some (Uuid_to_string transfer_id) |}) in
  do* payment := of_service (LightningSendPayment_try_from request) in
  let payment :=
    match lsp_transfer_id payment with
    | None => set_transfer_id (t_id transfer) payment
    | Some _ => payment
    end in
  se_ret {| pl_transfer := transfer; lightning_send_payment := Some payment;
            pl_payment_hash := payment_hash |}.

Definition pay_lightning_invoice (text : string) (amount_to_send : option Z) (leaves : list TreeNode)
    (transfer_id : option Uuid) : M PayLightningResult :=
  do* expiry_time := after_now DEFAULT_SEND_EXPIRY_SECS in
  do* unwrapped_transfer_id := fresh_id transfer_id in
  do* decoded_invoice := decode_invoice text in
  do* amount_sats := of_service (get_invoice_amount_sats decoded_invoice amount_to_send) in
  let payment_hash := invoice_payment_hash decoded_invoice in
  do* _ :=
    match before_send_lightning_payment with
    | Some observe => se_map_err Throw (observe unwrapped_transfer_id text amount_sats)
    | None => se_ret ()
    end in
  do* leaf_tweaks := of_signer (prepare_leaf_key_tweaks_to_send leaves None) in
  do* prepared :=
    prepare_transfer_request self unwrapped_transfer_id leaf_tweaks ssp_identity_public_key
      RefundSignatures_default (Some payment_hash) (Some expiry_time) None in
  try* initiated := swap_nodes_for_preimage self
    {| sn_transfer_id := unwrapped_transfer_id; sn_leaves := leaf_tweaks;
       sn_receiver_pubkey := ssp_identity_public_key; sn_payment_hash := payment_hash;
       invoice_str := Some text; sn_amount_sats := amount_sats; sn_fee_sats := 0;
       is_inbound_payment := false; sn_transfer_request := Some (transfer_request prepared);
       sn_expiry_time := expiry_time |} in
  match transfer_id, initiated with
  | _, Ok response => pay_through_ssp text amount_to_send unwrapped_transfer_id payment_hash response
  | Some transfer_id, Err (Throw e) =>
      do* transfer := recover_transfer_on_rpc_connection_error self transfer_id e in
      se_ret {| pl_transfer := transfer; lightning_send_payment := None;
                pl_payment_hash := payment_hash |}
  | _, Err e => se_fail e
  end.

(** The amount with the fee, or the amount and the Spark address to pay instead. *)
Definition validate_payment (text : string) (max_fee_sat amount_to_send : option Z) (prefer_spark : bool)
    : M (Z * option SparkAddress) :=
  do* decoded_invoice := decode_invoice text in
  if bool_decide (invoice_network decoded_invoice ≠ BtcNetwork_from (ts_network self)) then
    se_fail (Throw (ValidationError "Invoice network does not match"))
  else
    do* to_pay_sat := of_service (get_invoice_amount_sats decoded_invoice amount_to_send) in
    match (if prefer_spark then extract_spark_address decoded_invoice else None) with
    | Some receiver => se_ret (to_pay_sat, Some (spark_address_of receiver))
    | None =>
        do* fee_estimate := of_ssp (get_lightning_send_fee_estimate text (Some to_pay_sat)) in
        do* fee_sat := of_service (parsed_sats fee_estimate) in
        let too_much := match max_fee_sat with Some max => max <? fee_sat | None => false end in
        if too_much then
          se_fail (Throw (ValidationError
            ("Fee exceeds maximum allowed fee " +:+ pretty fee_sat +:+ " > "
             +:+ pretty (default 0 max_fee_sat))))
        else se_ret (wadd 64 fee_sat to_pay_sat, None)
    end.

Definition fetch_lightning_send_fee_estimate (text : string) (amount_to_send : option Z) : M Z :=
  do* decoded_invoice := decode_invoice text in
  do* amount_sat := of_service (get_invoice_amount_sats decoded_invoice amount_to_send) in
  do* fee := of_ssp (get_lightning_send_fee_estimate text (Some amount_sat)) in
  of_service (parsed_sats fee).

Definition get_lightning_send_payment (id : string) : M (option (LightningSendPayment Uuid)) :=
  do* res := of_ssp (get_lightning_send_request id) in
  of_service (map_opt LightningSendPayment_try_from res).

Definition get_lightning_receive_payment (id : string) : M (option (LightningReceivePayment Uuid)) :=
  do* res := of_ssp (get_lightning_receive_request id) in
  of_service (map_opt LightningReceivePayment_try_from res).
End lightning.
