(* ===== verification/LeafSwaps.v ===== *)
(** Swapping leaves for leaves of other amounts with the service provider
    ([crates/spark/src/services/swap.rs]): the primary transfer with adaptor signatures, the
    leaves shown to the SSP, and the claim of the counter transfer.

    The service has the pool and the network of the transfer service [self]. *)
From stdpp Require Import base gmap strings list.
From S2P Require Import Prelude Timelocks TreeTypes Payments Transactions Bytes Paging Addresses TokenTx Signing TransferModels Futures Transfers ExchangeModels Htlcs Lightning.

Definition SWAP_EXPIRY_DURATION : Z := 2 * 60.

Section swaps.
Context {ho : HashOrder} {bt : BitcoinTypes} {bo : BitcoinOps} {ao : AddressOps} {ak : AddressKeys}
  {tx : TokenTextOps} {W : Type} {se : SignerEnv W} {fs : FrostSigner W} {tt : TransferTypes}
  {sh : ShareTypes} {sg : TransferSigner W} {top : TransferOperators W} {eo : ExchangeOperators W}
  {ssp : SspClient W} {env : ExchangeEnv W} {sch : Scheduler}.
Context (self : TransferService).

Abbreviation Fault := (exn ServiceError).
Abbreviation M A := (SE W Fault A).

(** The checks before anything is sent; the sums wrap. *)
Definition check_targets (maybe_target_amounts : option (list Z)) : result () ServiceError :=
  match maybe_target_amounts with
  | Some target_amounts =>
      if bool_decide (target_amounts = []) then Err SE_InvalidAmount
      else if bool_decide (0 ∈ target_amounts) then Err SE_InvalidAmount
      else Ok ()
  | None => Ok ()
  end.

Definition swap_sums (leaves : list TreeNode) (maybe_target_amounts : option (list Z))
    : result (Z * Z) ServiceError :=
  if bool_decide (leaves = []) then Err (SE_Generic "no leaves to swap")
  else
    let* _ := check_targets maybe_target_amounts in
    let leaf_sum := sum_u 64 (value <$> leaves) in
    let target_sum := from_option (sum_u 64) leaf_sum maybe_target_amounts in
    if leaf_sum <? target_sum then Err SE_InsufficientFunds else Ok (leaf_sum, target_sum).

(** The tweaks to new random keys. *)
Fixpoint swap_key_tweaks (leaves : list TreeNode) : SE W SignerError (list LeafKeyTweak) :=
  match leaves with
  | [] => se_ret []
  | leaf :: leaves =>
      do* secret := generate_random_secret in
      do* tweaks := swap_key_tweaks leaves in
      se_ret ({| lk_node := leaf; signing_key := Derived (tn_id leaf);
                 new_signing_key := Encrypted secret |} :: tweaks)
  end.

(** The transfer without the direct transactions. *)
Definition clear_direct (p : TransferPackage) : TransferPackage :=
  {| leaves_to_send := leaves_to_send p; direct_leaves_to_send := [];
     direct_from_cpfp_leaves_to_send := []; key_tweak_package := key_tweak_package p;
     tp_user_signature := tp_user_signature p; hash_variant := hash_variant p |}.

Definition cpfp_only (r : StartTransferRequest) : StartTransferRequest :=
  {| rq_transfer_id := rq_transfer_id r; rq_leaves_to_send := rq_leaves_to_send r;
     rq_owner_identity_public_key := rq_owner_identity_public_key r;
     rq_receiver_identity_public_key := rq_receiver_identity_public_key r;
     rq_expiry_time := rq_expiry_time r;
     rq_transfer_package := clear_direct <$> rq_transfer_package r;
     rq_spark_invoice := rq_spark_invoice r |}.

(** The leaf shown to the SSP: its refund with the aggregated adaptor signature. *)
Definition swap_user_leaf (cpfp_signed_txs : list SignedTx) (leaf_key_tweaks : list LeafKeyTweak)
    (cpfp_adaptor_public_key : SecpPublicKey) (r : LeafRefundTxSigningResult) : M UserLeafInput :=
  do* leaf_id := of_service (map_err (λ _, SE_Generic "invalid leaf_id in signing result")
                   (TreeNodeId_from_str (lr_leaf_id r))) in
  do* signed_tx := of_service (ok_or (List.find (λ t, bool_decide (st_node_id t = leaf_id)) cpfp_signed_txs)
                     (SE_Generic ("No signed tx found for leaf_id: " +:+ lr_leaf_id r))) in
  do* leaf_key_tweak :=
    of_service (ok_or (List.find (λ l, bool_decide (tn_id (lk_node l) = leaf_id)) leaf_key_tweaks)
      (SE_Generic ("No leaf key tweak found for leaf_id: " +:+ lr_leaf_id r))) in
  do* verifying_key := of_service (ok_or (key_from_slice (lr_verifying_key r)) InvalidPublicKey) in
  do* proto_result := of_service (ok_or (lr_refund_tx_signing_result r)
                        (SE_Generic "missing refund_tx_signing_result")) in
  do* signing_result_data := of_service (signing_result_from_proto proto_result) in
  let node := lk_node leaf_key_tweak in
  do* prev_out := se_lift (or_panic (output (node_tx node) !! Z.to_nat (vout node))) in
  do* sighash := of_service (map_err (λ e, BitcoinError (bitcoin_error e))
                   (sighash_from_tx (st_tx signed_tx) 0 prev_out)) in
  do* adaptor_signature :=
    se_map_err (λ e, Throw (SE_Generic ("FROST aggregation failed: " +:+ signer_error_text e)))
      (sign_aggregate_frost
         {| sa_sighash := sighash;
            sa_signing_public_key := st_signing_public_key signed_tx;
            sa_aggregating_public_key := st_signing_public_key signed_tx;
            sa_signing_private_key := signing_key leaf_key_tweak;
            sa_self_nonce_commitment := self_nonce_commitment signed_tx;
            sa_adaptor_public_key := Some cpfp_adaptor_public_key;
            sa_verifying_key := verifying_key;
            sa_signing_result := signing_result_data |}) in
  do* signature_bytes :=
    of_service (map_err (λ e, SE_Generic ("Failed to serialize signature: " +:+ service_error_text e))
      (signature_serialize adaptor_signature)) in
  se_ret {| ul_leaf_id := leaf_id;
            raw_unsigned_refund_transaction := hex_encode (tx_serialize (st_tx signed_tx));
            direct_raw_unsigned_refund_transaction := None;
            direct_from_cpfp_raw_unsigned_refund_transaction := None;
            adaptor_added_signature := hex_encode signature_bytes;
            direct_adaptor_added_signature := None;
            direct_from_cpfp_adaptor_added_signature := None |}.

Fixpoint swap_user_leaves (cpfp_signed_txs : list SignedTx) (leaf_key_tweaks : list LeafKeyTweak)
    (cpfp_adaptor_public_key : SecpPublicKey) (rs : list LeafRefundTxSigningResult)
    : M (list UserLeafInput) :=
  match rs with
  | [] => se_ret []
  | r :: rs =>
      do* user_leaf := swap_user_leaf cpfp_signed_txs leaf_key_tweaks cpfp_adaptor_public_key r in
      do* user_leaves := swap_user_leaves cpfp_signed_txs leaf_key_tweaks cpfp_adaptor_public_key rs in
      se_ret (user_leaf :: user_leaves)
  end.

(** The counter transfer the SSP names, from the coordinator. *)
Definition inbound_swap_transfer (swap_response : LeavesSwapRequest) : M Transfer :=
  do* inbound_transfer_id :=
    of_service (ok_or (t ← inbound_transfer swap_response; spark_id t)
      (SE_Generic "inbound transfer spark_id missing")) in
  do* identity_public_key := identity_key_bytes in
  do* op := coordinator self in
  do* (transfers, _) := of_rpc (query_all_transfers op
    {| tf_participant := Some (ReceiverIdentityPublicKey identity_public_key);
       tf_transfer_ids := [inbound_transfer_id]; tf_limit := 0; tf_offset := 0; tf_types := [];
       tf_network := to_proto_network (ts_network self); tf_order := Descending |}) in
  do* transfer := of_service (ok_or (head transfers) (SE_Generic "transfer not found")) in
  of_service (Transfer_try_from transfer).

(** A claim that fails returns no leaves. *)
Definition claim_counter_swap (inbound : Transfer) : M (list TreeNode) :=
  try* claimed := claim_transfer self inbound None in
  match claimed with
  | Ok nodes => se_ret nodes
  | Err (Throw _) => se_ret []
  | Err Panic => se_fail Panic
  end.

(** What follows the primary transfer: the SSP's counter transfer, claimed. *)
Definition complete_swap (transfer_id : Uuid) (leaf_sum target_sum : Z)
    (maybe_target_amounts : option (list Z)) (cpfp_adaptor_public_key : SecpPublicKey)
    (user_leaves : list UserLeafInput) : M (list TreeNode) :=
  do* swap_response := of_ssp (request_swap
    {| adaptor_pubkey := hex_encode (key_serialize cpfp_adaptor_public_key);
       total_amount_sats := leaf_sum;
       target_amount_sats := default [target_sum] maybe_target_amounts;
       fee_sats := 0;
       user_leaves := user_leaves;
       user_outbound_transfer_external_id := Uuid_to_string transfer_id |}) in
  do* inbound := inbound_swap_transfer swap_response in
  claim_counter_swap inbound.

Definition swap_leaves (leaves : list TreeNode) (maybe_target_amounts : option (list Z))
    : M (list TreeNode) :=
  do* (leaf_sum, target_sum) := of_service (swap_sums leaves maybe_target_amounts) in
  do* leaf_key_tweaks := of_signer (swap_key_tweaks leaves) in
  do* transfer_id := se_total uuid_now_v7 in
  do* start := se_total now in
  do* expiry_time :=
    of_service (ok_or (system_time_add start (SWAP_EXPIRY_DURATION * nanos_per_sec))
      (SE_Generic "failed to compute swap expiry time")) in
  do* cpfp_adaptor_private_key := se_total new_secret_key in
  let cpfp_adaptor_public_key := public_key_of_secret cpfp_adaptor_private_key in
  do* prepared :=
    prepare_transfer_request self transfer_id leaf_key_tweaks ssp_identity_public_key
      RefundSignatures_default None (Some expiry_time) (Some cpfp_adaptor_public_key) in
  do* op := coordinator self in
  do* response := of_rpc (initiate_swap_primary_transfer op
    {| ip_transfer := Some (cpfp_only (transfer_request prepared));
       ip_adaptor_public_keys := Some
         {| adaptor_public_key := key_serialize cpfp_adaptor_public_key;
            direct_adaptor_public_key := []; direct_from_cpfp_adaptor_public_key := [] |} |}) in
  do* _ := of_service (ok_or (sr_transfer response) (SE_Generic "response missing transfer")) in
  do* user_leaves :=
    swap_user_leaves (ptr_cpfp_signed_txs prepared) leaf_key_tweaks cpfp_adaptor_public_key
      (signing_results response) in
  complete_swap transfer_id leaf_sum target_sum maybe_target_amounts cpfp_adaptor_public_key user_leaves.
End swaps.
