(* ===== verification/CoopExits.v ===== *)
(** Cooperative exits ([crates/spark/src/services/coop_exit.rs]) with the maps of refund
    signatures ([utils/refund.rs]): refunds that spend a connector of the exit transaction, the
    delivery of the transfer package and the completion with the SSP; fee quotes.

    The service has the pool and the network of the transfer service [self]. *)
From stdpp Require Import base gmap strings list.
From S2P Require Import Prelude Timelocks TreeTypes Payments Transactions Bytes Paging Addresses TokenTx Signing TransferModels Futures Transfers ExchangeModels Htlcs Lightning.

Definition COOP_EXIT_EXPIRY_DURATION_MAINNET : Z := 7 * 24 * 60 * 60 + 5 * 60.
Definition COOP_EXIT_EXPIRY_DURATION : Z := 35 * 60.

(** ** Fee quotes *)

Record CoopExitSpeedFeeQuote : Type := { user_fee_sat : Z; l1_broadcast_fee_sat : Z }.

Record CoopExitFeeQuote : Type := {
  q_id : string;
  q_expires_at : Z;
  speed_fast : CoopExitSpeedFeeQuote;
  speed_medium : CoopExitSpeedFeeQuote;
  speed_slow : CoopExitSpeedFeeQuote
}.

Definition speed_fee (q : CoopExitSpeedFeeQuote) : Z := wadd 64 (l1_broadcast_fee_sat q) (user_fee_sat q).

Definition fee_sats (q : CoopExitFeeQuote) (speed : ExitSpeed) : Z :=
  match speed with
  | Fast => speed_fee (speed_fast q)
  | Medium => speed_fee (speed_medium q)
  | Slow => speed_fee (speed_slow q)
  end.

Record CoopExitParams {bt : BitcoinTypes} {tt : TransferTypes} : Type := {
  cp_leaves : list TreeNode;
  withdrawal_address : string;
  withdraw_all : bool;
  exit_speed : ExitSpeed;
  fee_quote_id : option string;
  fee_leaves : option (list TreeNode);
  cp_transfer_id : option Uuid
}.

Section exits.
Context {ho : HashOrder} {bt : BitcoinTypes} {bo : BitcoinOps} {ao : AddressOps} {ak : AddressKeys}
  {tx : TokenTextOps} {W : Type} {se : SignerEnv W} {fs : FrostSigner W} {tt : TransferTypes}
  {sh : ShareTypes} {sg : TransferSigner W} {top : TransferOperators W} {eo : ExchangeOperators W}
  {ssp : SspClient W} {ob : ExchangeObserver W} {env : ExchangeEnv W}.
Context (self : TransferService).

Abbreviation Fault := (exn ServiceError).
Abbreviation M A := (SE W Fault A).

(** [as_sats()?]. *)
Definition quoted_sats (a : CurrencyAmount) : result Z ServiceError :=
  map_err (λ e, ServiceProviderError (ssp_error (SspParseError e))) (as_sats a).

Definition speed_quote (user_fee l1_broadcast_fee : CurrencyAmount)
    : result CoopExitSpeedFeeQuote ServiceError :=
  let* user := quoted_sats user_fee in
  let* l1 := quoted_sats l1_broadcast_fee in
  Ok {| user_fee_sat := user; l1_broadcast_fee_sat := l1 |}.

(** The timestamp of the quote is an [i64], the field an [u64]. *)
Definition CoopExitFeeQuote_try_from (quote : SspCoopExitFeeQuote) : result CoopExitFeeQuote ServiceError :=
  if sq_expires_at quote <? 0 then Err (SE_Generic "Failed to parse expires_at")
  else
    let* fast := speed_quote (user_fee_fast quote) (l1_broadcast_fee_fast quote) in
    let* medium := speed_quote (user_fee_medium quote) (l1_broadcast_fee_medium quote) in
    let* slow := speed_quote (user_fee_slow quote) (l1_broadcast_fee_slow quote) in
    Ok {| q_id := sq_id quote; q_expires_at := sq_expires_at quote; speed_fast := fast;
          speed_medium := medium; speed_slow := slow |}.

Definition fetch_coop_exit_fee_quote (leaves : list TreeNode) (withdrawal_address : string)
    : M CoopExitFeeQuote :=
  do* quote := of_ssp (get_coop_exit_fee_quote (tn_id <$> leaves) withdrawal_address) in
  of_service (CoopExitFeeQuote_try_from quote).

(** ** [map_refund_signatures] *)

Definition refund_signature (bytes : list Z) (message : string) : result EcdsaSignature ServiceError :=
  ok_or (ecdsa_from_compact bytes) (SE_Generic message).

(** An empty signature is absent. *)
Definition optional_refund (node_id : TreeNodeId) (bytes : list Z) (message : string)
    (m : gmap TreeNodeId EcdsaSignature) : result (gmap TreeNodeId EcdsaSignature) ServiceError :=
  if bool_decide (bytes = []) then Ok m
  else let* s := refund_signature bytes message in Ok (<[node_id := s]> m).

Fixpoint map_refund_signatures_loop (node_signatures : list NodeSignatures) (acc : RefundSignatures)
    : result RefundSignatures ServiceError :=
  match node_signatures with
  | [] => Ok acc
  | ns :: node_signatures =>
      let* node_id := map_err (λ _, SE_Generic "invalid node_id") (TreeNodeId_from_str (ns_node_id ns)) in
      let* cpfp := refund_signature (ns_refund_tx_signature ns) "invalid refund tx signature" in
      let* direct := optional_refund node_id (ns_direct_refund_tx_signature ns)
                       "invalid direct refund tx signature" (direct_signatures acc) in
      let* direct_from_cpfp := optional_refund node_id (ns_direct_from_cpfp_refund_tx_signature ns)
                                 "invalid direct from CPFP refund tx signature"
                                 (direct_from_cpfp_signatures acc) in
      map_refund_signatures_loop node_signatures
        {| cpfp_signatures := <[node_id := cpfp]> (cpfp_signatures acc);
           direct_signatures := direct; direct_from_cpfp_signatures := direct_from_cpfp |}
  end.

Definition map_refund_signatures (node_signatures : list NodeSignatures)
    : result RefundSignatures ServiceError :=
  map_refund_signatures_loop node_signatures RefundSignatures_default.

(** ** The refunds of an exit *)

Record CoopExitRefundSignatures : Type := {
  cs_transfer : Transfer;
  refund_signatures : RefundSignatures
}.

Definition set_connector (out : TxOut) (d : LeafRefundSigningData) : LeafRefundSigningData :=
  {| rd_signing_private_key := rd_signing_private_key d;
     rd_signing_public_key := rd_signing_public_key d;
     rd_receiving_public_key := rd_receiving_public_key d;
     rd_tx := rd_tx d; rd_direct_tx := rd_direct_tx d; rd_refund_tx := rd_refund_tx d;
     rd_direct_refund_tx := rd_direct_refund_tx d;
     rd_direct_from_cpfp_refund_tx := rd_direct_from_cpfp_refund_tx d;
     rd_signing_nonce_commitment := rd_signing_nonce_commitment d;
     rd_direct_signing_nonce_commitment := rd_direct_signing_nonce_commitment d;
     rd_direct_from_cpfp_signing_nonce_commitment := rd_direct_from_cpfp_signing_nonce_commitment d;
     rd_vout := rd_vout d; connector_prev_out := Some out |}.

(** The connector of the [i]-th leaf, when there is one. *)
Fixpoint set_connectors (i : nat) (leaf_key_tweaks : list LeafKeyTweak) (connectors : list TxOut)
    (leaf_data_map : gmap TreeNodeId LeafRefundSigningData) : gmap TreeNodeId LeafRefundSigningData :=
  match leaf_key_tweaks with
  | [] => leaf_data_map
  | leaf_key :: leaf_key_tweaks =>
      let id := tn_id (lk_node leaf_key) in
      set_connectors (S i) leaf_key_tweaks connectors
        (match leaf_data_map !! id, connectors !! i with
         | Some data, Some out => <[id := set_connector out data]> leaf_data_map
         | _, _ => leaf_data_map
         end)
  end.

(** The constructor given to [prepare_refund_so_signing_jobs_with_tx_constructor]. *)
Definition connector_refunds (connector_txid : Txid) (c : RefundTxConstructor)
    : result RefundTransactions Fault :=
  create_connector_refund_txs
    {| cr_cpfp_sequence := rc_cpfp_sequence c; cr_direct_sequence := rc_direct_sequence c;
       cr_node_tx := node_tx (rc_node c); cr_direct_tx := direct_tx (rc_node c);
       connector_outpoint := {| op_txid := connector_txid; op_vout := rc_vout c |};
       cr_receiving_pubkey := rc_receiving_pubkey c; cr_network := ts_network self |}.

Definition exit_expiry : Z :=
  if bool_decide (ts_network self = Mainnet) then COOP_EXIT_EXPIRY_DURATION_MAINNET
  else COOP_EXIT_EXPIRY_DURATION.

Definition sign_coop_exit_refunds (leaf_key_tweaks : list LeafKeyTweak) (connector_txid exit_txid : Txid)
    (transfer_id : Uuid) (connector_tx : list Z) : M CoopExitRefundSignatures :=
  do* leaf_data_map :=
    of_signer (prepare_leaf_refund_signing_data leaf_key_tweaks ssp_identity_public_key ∅) in
  do* connector_tx_parsed :=
    of_service (ok_or (deserialize connector_tx)
      (SE_Generic "Failed to deserialize connector transaction")) in
  let leaf_data_map := set_connectors 0 leaf_key_tweaks (output connector_tx_parsed) leaf_data_map in
  let '(leaf_data_map, jobs) :=
    prepare_refund_so_signing_jobs_with_tx_constructor leaf_key_tweaks false
      (connector_refunds connector_txid) leaf_data_map in
  do* signing_jobs := se_lift jobs in
  do* expiry_time := after_now exit_expiry in
  do* op := coordinator self in
  do* owner := identity_key_bytes in
  do* expiry := required_expiry expiry_time in
  do* id := se_total uuid_now_v7 in
  do* response := of_rpc (cooperative_exit_v2 op
    {| ce_transfer := Some
         {| rq_transfer_id := Uuid_to_string transfer_id;
            rq_leaves_to_send := signing_jobs;
            rq_owner_identity_public_key := owner;
            rq_receiver_identity_public_key := key_serialize ssp_identity_public_key;
            rq_expiry_time := Some expiry;
            rq_transfer_package := None;
            rq_spark_invoice := "" |};
       exit_id := Uuid_to_string id;
       exit_txid := txid_bytes exit_txid;
       connector_tx := connector_tx |}) in
  do* proto := of_service (ok_or (sr_transfer response) (SE_Generic "No transfer in response")) in
  do* transfer := of_service (Transfer_try_from proto) in
  do* signed_refunds := sign_aggregate_refunds leaf_data_map (signing_results response) None None None in
  do* signatures := of_service (map_refund_signatures signed_refunds) in
  se_ret {| cs_transfer := transfer; refund_signatures := signatures |}.

Definition get_connector_refund_signatures (leaf_key_tweaks : list LeafKeyTweak)
    (connector_txid exit_txid : Txid) (transfer_id : Uuid) (connector_tx : list Z)
    : M CoopExitRefundSignatures :=
  do* signed := sign_coop_exit_refunds leaf_key_tweaks connector_txid exit_txid transfer_id connector_tx in
  do* transfer_tweaked :=
    deliver_transfer_package self (cs_transfer signed) leaf_key_tweaks (refund_signatures signed) in
  se_ret {| cs_transfer := transfer_tweaked; refund_signatures := refund_signatures signed |}.

Definition exit_notify (transfer_id : Uuid) (withdrawal_address : string) (leaves : list TreeNode) : M () :=
  match before_coop_exit with
  | None => se_ret ()
  | Some observe =>
      se_map_err Throw (observe transfer_id withdrawal_address (sum_u 64 (value <$> leaves)))
  end.

Definition coop_exit (params : CoopExitParams) : M Transfer :=
  do* unwrapped_transfer_id := fresh_id (cp_transfer_id params) in
  do* _ := exit_notify unwrapped_transfer_id (withdrawal_address params) (cp_leaves params) in
  let all_leaves := cp_leaves params ++ default [] (fee_leaves params) in
  do* leaf_key_tweaks := of_signer (prepare_leaf_key_tweaks_to_send all_leaves None) in
  do* coop_exit_request := of_ssp (request_coop_exit
    {| leaf_external_ids := tn_id <$> cp_leaves params;
       rx_withdrawal_address := withdrawal_address params;
       rx_idempotency_key := None;
       rx_exit_speed := exit_speed params;
       rx_withdraw_all := withdraw_all params;
       fee_leaf_external_ids := (λ l : list TreeNode, tn_id <$> l) <$> fee_leaves params;
       rx_fee_quote_id := fee_quote_id params;
       rx_user_outbound_transfer_external_id := Some (Uuid_to_string unwrapped_transfer_id) |}) in
  do* raw_connector :=
    of_service (ok_or (hex_decode (raw_connector_transaction coop_exit_request))
      (SE_Generic "invalid raw_connector_transaction hex")) in
  do* connector_tx := of_service (ok_or (deserialize raw_connector)
                        (SE_Generic "invalid raw_connector_transaction tx")) in
  let connector_txid := compute_txid connector_tx in
  do* coop_exit_input := se_lift (or_panic (head (input connector_tx))) in
  try* res := get_connector_refund_signatures leaf_key_tweaks connector_txid
                (op_txid (previous_output coop_exit_input)) unwrapped_transfer_id raw_connector in
  match cp_transfer_id params, res with
  | _, Ok s =>
      do* _ := of_ssp (complete_coop_exit (Uuid_to_string (t_id (cs_transfer s))) (cx_id coop_exit_request)) in
      se_ret (cs_transfer s)
  | Some transfer_id, Err (Throw e) => recover_transfer_on_rpc_connection_error self transfer_id e
  | _, Err e => se_fail e
  end.
End exits.
