(* ===== verification/ExchangesProps.v ===== *)
(** What exchanges with the service provider promise ([Htlcs], [Lightning], [LeafSwaps],
    [CoopExits]): in which order the operators and the SSP are asked, with what amounts, hashes
    and transfers, and what the refunds of a cooperative exit are bound to. *)
From stdpp Require Import base gmap strings list.
From S2P Require Import Prelude Timelocks TreeTypes Payments Transactions Bytes Paging Addresses AddressesProps TokenTx TokenTxProps Traces Signing TransferModels Futures Transfers TransfersProps ExchangeModels Htlcs Lightning LeafSwaps CoopExits.

(** What the operators and the SSP were asked, in order; a call of the operators that was
    accepted is marked. *)
Inductive ExchangeEvent : Type :=
| PreimageSwapped (transfer_id : string) (payment_hash : list Z) (amount_sats : Z) (accepted : bool)
| SendRequested (input : RequestLightningSendInput)
| ReceiveRequested (input : RequestLightningReceiveInput)
| SharesStored (req : StorePreimageShareV2Request)
| PrimaryTransfer (transfer_id : string) (accepted : bool)
| SwapRequested (input : RequestSwapInput)
| ExitRequested (input : RequestCoopExitInput)
| ExitSigned (transfer_id : string) (connector : list Z) (accepted : bool)
| PackageDelivered (transfer_id : string) (accepted : bool)
| ExitCompleted (transfer_id request_id : string) (accepted : bool).

(** Goes through the calls of an exchange that adds nothing; passes one such call. *)
Ltac hush := unfold fresh_id, after_now, decode_invoice, required_expiry, swap_commitments, signing_jobs,
  of_ssp; silence.
Ltac pass := apply quiet_bind; [hush|solve [auto]|].

Section logs.
Context {ho : HashOrder} {bt : BitcoinTypes} {bo : BitcoinOps} {ao : AddressOps} {ak : AddressKeys}
  {tx : TokenTextOps} {b11 : Bolt11Ops} {W : Type} {se : SignerEnv W} {fs : FrostSigner W}
  {tt : TransferTypes} {sh : ShareTypes} {sg : TransferSigner W} {top : TransferOperators W}
  {eo : ExchangeOperators W} {ssp : SspClient W} {ob : ExchangeObserver W} {env : ExchangeEnv W}
  {lg : Log W ExchangeEvent} {sch : Scheduler}.

(** The event of a preimage swap: the transfer, the hash and the amount of its request. *)
Definition swap_event (req : InitiatePreimageSwapRequest) (accepted : bool) : ExchangeEvent :=
  PreimageSwapped (default "" (su_transfer_id <$> is_transfer req)) (is_payment_hash req)
    (from_option value_sats 0 (invoice_amount req)) accepted.

Class ExchangeLogLaws : Prop := {
  exchange_quiet :: TransferQuiet;
  quiet_now : quiet (E := exn ServiceError) (se_total now);
  quiet_new_key : quiet (E := exn ServiceError) (se_total new_secret_key);
  quiet_split_preimage p t n : quiet (split_preimage_with_proofs p t n);
  quiet_lightning_observer f a b c : before_send_lightning_payment = Some f → quiet (f a b c);
  quiet_exit_observer f a b c : before_coop_exit = Some f → quiet (f a b c);
  log_preimage_swap op req :
    emits (initiate_preimage_swap_v3 op req) (λ r l, l = [swap_event req (is_ok r)]);
  log_send input : emits (request_lightning_send input) (λ _ l, l = [SendRequested input]);
  log_receive input : emits (request_lightning_receive input) (λ _ l, l = [ReceiveRequested input]);
  log_shares op req : emits (store_preimage_share_v2 op req) (λ _ l, l = [SharesStored req]);
  log_primary op req :
    emits (initiate_swap_primary_transfer op req)
      (λ r l, l = [PrimaryTransfer (default "" (rq_transfer_id <$> ip_transfer req)) (is_ok r)]);
  log_swap input : emits (request_swap input) (λ _ l, l = [SwapRequested input]);
  log_exit input : emits (request_coop_exit input) (λ _ l, l = [ExitRequested input]);
  log_exit_signed op req :
    emits (cooperative_exit_v2 op req)
      (λ r l, l = [ExitSigned (default "" (rq_transfer_id <$> ce_transfer req)) (connector_tx req) (is_ok r)]);
  log_delivered op req :
    emits (finalize_transfer_with_transfer_package op req)
      (λ r l, l = [PackageDelivered (fr_transfer_id req) (is_ok r)]);
  log_completed t r : emits (complete_coop_exit t r) (λ x l, l = [ExitCompleted t r (is_ok x)])
}.

Context {ll : ExchangeLogLaws}.
Context (self : TransferService).

#[local] Hint Resolve quiet_now quiet_new_key quiet_split_preimage : quiet.

(** ** A swap for a preimage asks once *)

Lemma is_ok_map_err {E F A} (f : E → F) (r : result A E) : is_ok (map_err f r) = is_ok r.
Proof. by destruct r. Qed.

Lemma preimage_swap_once req :
  emits (swap_nodes_for_preimage self req) (λ r l,
    l = [] ∧ is_ok r = false ∨
    l = [PreimageSwapped (Uuid_to_string (sn_transfer_id req)) (sn_payment_hash req)
           (sn_amount_sats req) (is_ok r)]).
Proof using ll.
  unfold swap_nodes_for_preimage. pass. intros [[cpfp direct] from_cpfp]. pass. intros signed.
  destruct (match sn_transfer_request req with Some _ => _ | None => _ end) as [ds fs'].
  do 6 (pass; intros ?).
  unfold of_rpc. apply emits_map_err. eapply emits_conseq; [apply log_preimage_swap|].
  intros r l ->. right. by rewrite is_ok_map_err.
Qed.

(** ** Recovery *)

(** [t] is the transfer that the coordinator names first when it is queried, in the world [w]
    after a call failed with [e], for the transfers of this id; [e] is a connection error with
    the status Internal or AlreadyExists. *)
Definition recovered (id : Uuid) (e : ServiceError) (w : W) (t : Transfer) : Prop :=
  (∃ status, is_connection e = Some status ∧ (status_code status = Internal ∨ status_code status = AlreadyExists)) ∧
  ∃ op key p rest o w1 w2,
    coordinator self w = (w, Ok op) ∧ identity_key_bytes w = (w1, Ok key) ∧
    query_all_transfers op (one_transfer self id SenderIdentityPublicKey key) w1 = (w2, Ok (p :: rest, o)) ∧
    Transfer_try_from p = Ok t.

Lemma recover_run id e w w' r :
  recover_transfer_on_rpc_connection_error self id e w = (w', r) →
  log w' = log w ∧ ∀ t, r = Ok t → recovered id e w t.
Proof using ll.
  intros H. split; [exact (quiet_run _ _ _ _ (quiet_recover self id e) H)|]. intros t ->.
  unfold recover_transfer_on_rpc_connection_error in H. destruct (recoverable e) eqn:He; [|done].
  apply se_bind_ok in H as (w1 & op & Hop & H). apply se_bind_ok in H as (w2 & key & Hkey & H).
  apply se_bind_ok in H as (w3 & [ts o] & Hts%se_map_err_ok & H).
  assert (w1 = w) as -> by (unfold coordinator, se_lift in Hop; by injection Hop). destruct ts as [|p rest]; [done|]. unfold of_service, se_lift in H.
  injection H as _ Ht%throws_ok. split; [|by exists op, key, p, rest, o, w2, w3].
  unfold recoverable in He. destruct (is_connection e) as [status|]; [|done]. exists status.
  by apply bool_decide_eq_true in He.
Qed.

(** ** Lightning payments *)

(** The id of a transfer: the one given, if any. *)
Definition id_for (given : option Uuid) (id : Uuid) : Prop := ∀ g, given = Some g → id = g.

Lemma fresh_id_quiet {A} given (k : Uuid → SE W (exn ServiceError) A) Q :
  (∀ e, Q (Err e) []) → (∀ id, id_for given id → emits (k id) Q) → emits (se_bind (fresh_id given) k) Q.
Proof using ll.
  intros He Hk. unfold fresh_id. destruct given as [g|].
  - apply (lift_bind (Ok g)); [done|]. intros id [= ->]. apply Hk. by intros g' [= ->].
  - apply quiet_bind; [silence|done|]. intros id. by apply Hk.
Qed.

(** What the SSP is asked to pay. *)
Definition send_input (text : string) (amount_to_send : option Z) (id : Uuid) : RequestLightningSendInput :=
  {| rs_encoded_invoice := text; rs_idempotency_key := None; rs_amount_sats := amount_to_send;
     rs_user_outbound_transfer_external_id := Some (Uuid_to_string id) |}.

(** The payment is what the SSP answered; an answer without the id of a transfer gets it. *)
Definition ssp_paid (text : string) (amount_to_send : option Z) (id : Uuid) (transfer : Transfer)
    (payment : LightningSendPayment Uuid) : Prop :=
  ∃ w w' request paid, request_lightning_send (send_input text amount_to_send id) w = (w', Ok request) ∧
    LightningSendPayment_try_from request = Ok paid ∧
    payment = match lsp_transfer_id paid with Some _ => paid | None => set_transfer_id (t_id transfer) paid end.

(** How a payment that succeeds ends, by the outcome of its swap for the preimage: accepted, it
    has the transfer of the coordinator's answer and the payment of the SSP's; failed, it has the
    transfer of the caller's id, recovered. *)
Definition payment_ends (text : string) (amount_to_send : option Z) (given : option Uuid) (id : Uuid)
    (hash : list Z) (amount : Z) (l : list ExchangeEvent) (p : PayLightningResult) : Prop :=
  pl_payment_hash p = hash ∧
  ∃ req w w' outcome, swap_nodes_for_preimage self req w = (w', outcome) ∧
    sn_transfer_id req = id ∧ sn_payment_hash req = hash ∧ sn_amount_sats req = amount ∧
    match lightning_send_payment p with
    | Some payment =>
        (∃ proto, outcome = Ok (Some proto) ∧ Transfer_try_from proto = Ok (pl_transfer p)) ∧
        l = [PreimageSwapped (Uuid_to_string id) hash amount true;
             SendRequested (send_input text amount_to_send id)] ∧
        ssp_paid text amount_to_send id (pl_transfer p) payment
    | None =>
        given = Some id ∧ (∃ e, outcome = Err (Throw e) ∧ recovered id e w' (pl_transfer p)) ∧
        (l = [] ∨ l = [PreimageSwapped (Uuid_to_string id) hash amount false])
    end.

(** What a payment adds to the log: at most one swap of leaves for the preimage of the invoice,
    for no less than the invoice asks, and a request to pay the invoice only behind a swap
    that was accepted. *)
Definition payment_steps (text : string) (amount_to_send : option Z) (given : option Uuid)
    (r : result PayLightningResult (exn ServiceError)) (l : list ExchangeEvent) : Prop :=
  (l = [] ∧ is_ok r = false) ∨
  ∃ inv amount id,
    Bolt11Invoice_from_str text = Ok inv ∧
    default 0 (amount_milli_satoshis inv) ≤ 1000 * amount ∧ amount ≠ 0 ∧
    amount = default (invoice_amount_sats inv) amount_to_send ∧ id_for given id ∧
    let swapped := PreimageSwapped (Uuid_to_string id) (invoice_payment_hash inv) amount in
    (l = [] ∨ l = [swapped false] ∨ l = [swapped true] ∨
     l = [swapped true; SendRequested (send_input text amount_to_send id)]) ∧
    ∀ p, r = Ok p → payment_ends text amount_to_send given id (invoice_payment_hash inv) amount l p.

Lemma invoice_amount_ok inv amount_to_send amount :
  get_invoice_amount_sats inv amount_to_send = Ok amount →
  default 0 (amount_milli_satoshis inv) ≤ 1000 * amount ∧ amount ≠ 0 ∧
  amount = default (invoice_amount_sats inv) amount_to_send.
Proof.
  unfold get_invoice_amount_sats. destruct (Z.eqb_spec (default (invoice_amount_sats inv) amount_to_send) 0); [done|].
  destruct (Z.ltb_spec (default (invoice_amount_sats inv) amount_to_send) (invoice_amount_sats inv)) as [|Hle]; [done|].
  intros [= <-]. split_and!; [|done|done]. unfold invoice_amount_sats in Hle at 1.
  set (m := default 0 (amount_milli_satoshis inv)) in *.
  pose proof (Z.div_mod (m + 999) 1000 ltac:(lia)). pose proof (Z.mod_pos_bound (m + 999) 1000 ltac:(lia)). lia.
Qed.

Lemma through_ssp text amount_to_send id hash response :
  emits (pay_through_ssp text amount_to_send id hash response) (λ r l,
    l = [] ∧ is_ok r = false ∨
    l = [SendRequested (send_input text amount_to_send id)] ∧
    ∀ p, r = Ok p → pl_payment_hash p = hash ∧
      (∃ proto, response = Some proto ∧ Transfer_try_from proto = Ok (pl_transfer p)) ∧
      ∃ payment, lightning_send_payment p = Some payment ∧ ssp_paid text amount_to_send id (pl_transfer p) payment).
Proof using ll.
  unfold pay_through_ssp. apply (emits_run _ _ (λ _ l, l = [])); [unfold swapped_transfer; hush|by intros e l ->; left|].
  intros transfer l w w' -> Htransfer. simpl app.
  assert (∃ proto, response = Some proto ∧ Transfer_try_from proto = Ok transfer) as Hproto.
  { unfold swapped_transfer in Htransfer. apply se_bind_ok in Htransfer as (w1 & proto & Hproto & Htransfer).
    unfold of_service, se_lift in *. injection Hproto as _ Hproto%throws_ok%ok_or_ok.
    injection Htransfer as _ Ht%throws_ok. by exists proto. }
  apply (emits_run _ _ (λ _ l, l = [SendRequested (send_input text amount_to_send id)])).
  { apply emits_map_err. eapply emits_conseq; [apply log_send|done]. }
  { intros e l ->. right. by split. }
  intros request l w1 w1' -> Hrequest%se_map_err_ok.
  apply lift_bind; [intros e; right; by split|]. intros paid Hpaid%throws_ok. apply emits_ret.
  right. split; [done|]. intros p [= <-]. split; [done|]. split; [exact Hproto|]. eexists. split; [reflexivity|].
  exists w1, w1', request, paid. split_and!; [done..|]. by destruct (lsp_transfer_id paid).
Qed.

(** C21: a lightning payment locks leaves for the preimage of the invoice at most once, for at
    least the amount of the invoice, and asks the SSP to pay the invoice only after the
    coordinator accepted that swap, for the same transfer.  A payment that succeeds with an answer
    of the SSP has the transfer of the coordinator's answer to the swap and that payment.  One
    that succeeds without is recovered: its swap failed with a connection error of status Internal
    or AlreadyExists, the caller gave the id, and its transfer is the one that the
    coordinator named when it was then queried for the transfers of that id. *)
Theorem lightning_payment_steps text amount_to_send leaves given w w' r :
  pay_lightning_invoice self text amount_to_send leaves given w = (w', r) →
  ∃ l, log w' = log w ++ l ∧ payment_steps text amount_to_send given r l.
Proof using ll.
  enough (emits (pay_lightning_invoice self text amount_to_send leaves given)
            (payment_steps text amount_to_send given)) as H by exact (H w w' r).
  assert (∀ e, payment_steps text amount_to_send given (Err e) []) as Hstop by (by left).
  unfold pay_lightning_invoice. pass. intros expiry. apply fresh_id_quiet; [done|]. intros id Hid.
  unfold decode_invoice, of_service.
  apply lift_bind; [done|]. intros inv Hinv%throws_ok.
  apply lift_bind; [done|]. intros amount Hamount%throws_ok%invoice_amount_ok.
  destruct Hamount as (Hcover & Hpos & Hdef).
  destruct (Bolt11Invoice_from_str text) as [inv'|] eqn:Hparse; [|done]. injection Hinv as ->.
  assert (before_send_lightning_payment = None ∨ ∃ f, before_send_lightning_payment = Some f ∧
            ∀ a b c, quiet (f a b c)) as Hobs.
  { destruct before_send_lightning_payment as [f|] eqn:Hf; [right|by left]. exists f. split; [done|].
    intros. by apply quiet_lightning_observer. }
  apply quiet_bind; [destruct Hobs as [->|(f & -> & Hq)]; silence|done|]. intros _.
  pass. intros tweaks. pass. intros prepared.
  eapply emits_try_run; [apply preimage_swap_once|]. cbn [sn_transfer_id sn_payment_hash sn_amount_sats].
  intros swapped l w0 w1 Hl Hswap w2 r2 Hrest.
  match type of Hswap with swap_nodes_for_preimage self ?r _ = _ => set (req := r) in Hswap end.
  set (hash := invoice_payment_hash inv) in *.
  assert (∀ l', log w2 = log w1 ++ l' →
    (l ++ l' = [] ∨ l ++ l' = [PreimageSwapped (Uuid_to_string id) hash amount false] ∨
     l ++ l' = [PreimageSwapped (Uuid_to_string id) hash amount true] ∨
     l ++ l' = [PreimageSwapped (Uuid_to_string id) hash amount true; SendRequested (send_input text amount_to_send id)]) →
    (∀ p, r2 = Ok p → payment_ends text amount_to_send given id hash amount (l ++ l') p) →
    ∃ l', log w2 = log w1 ++ l' ∧ payment_steps text amount_to_send given r2 (l ++ l')) as Hsteps.
  { intros l' Hl' Hcases Hends. exists l'. split; [done|]. right. exists inv, amount, id. by split_and!. }
  destruct swapped as [response|e].
  - destruct Hl as [[_ ?]| ->]; [done|].
    assert (pay_through_ssp text amount_to_send id hash response w1 = (w2, r2)) as Hpay by (by destruct given).
    destruct (through_ssp _ _ _ _ _ _ _ _ Hpay) as (l' & Hl' & [[-> Hr]|[-> Hr]]); eapply Hsteps; try exact Hl'; [tauto| |tauto|].
    + by destruct r2.
    + intros p Hp. destruct (Hr p Hp) as (Hhash & (proto & -> & Hproto) & payment & Hpayment & Hssp). split; [done|].
      exists req, w0, w1, (Ok (Some proto)). split; [exact Hswap|]. do 3 (split; [done|]). rewrite Hpayment.
      split_and!; [by exists proto|done|done].
  - assert (l = [] ∨ l = [PreimageSwapped (Uuid_to_string id) hash amount false]) as Hl'
      by (destruct Hl as [[-> _]| ->]; tauto).
    assert (∀ e', r2 = Err e' → log w2 = log w1 →
      ∃ l', log w2 = log w1 ++ l' ∧ payment_steps text amount_to_send given r2 (l ++ l')) as Hfail.
    { intros e' -> Hw2. apply (Hsteps []); rewrite ?app_nil_r; [done|tauto|done]. }
    destruct given as [g|]; [destruct e as [|e]|]; [by injection Hrest as <- <-; eapply Hfail| |by injection Hrest as <- <-; eapply Hfail].
    assert (id = g) as -> by (by apply Hid). apply bind_run in Hrest as [(x & Hrec & ->)|(transfer & w3 & Hrec & Hrest)];
      apply recover_run in Hrec as [Hw Hrec]; [by eapply Hfail|]. injection Hrest as <- <-.
    apply (Hsteps []); rewrite ?app_nil_r; [done|tauto|]. intros p [= <-]. split; [done|].
    exists req, w0, w1, (Err (Throw e)). split; [exact Hswap|]. do 3 (split; [done|]). cbn [lightning_send_payment].
    split_and!; [done| |by rewrite ?app_nil_r]. exists e. split; [done|]. by apply Hrec.
Qed.

(** ** Invoices *)

Definition operator_key (op : Operator) : string := hex_encode (Identifier_serialize (op_identifier op)).

(** The share was encrypted to the operator, and stored under its identifier. *)
Definition share_encrypted (m : gmap string (list Z)) (op : Operator) (share : VerifiableSecretShare) : Prop :=
  ∃ c w w', ecies_encrypt (serialize_uncompressed (op_identity_public_key op))
              (encode_secret_share (proto_share share)) w = (w', Ok c) ∧
            m !! operator_key op = Some c.

Lemma encrypt_shares_ok pairs m w w' m' :
  encrypt_shares pairs m w = (w', Ok m') → NoDup (operator_key ∘ fst <$> pairs) →
  (∀ op share, (op, share) ∈ pairs → share_encrypted m' op share) ∧
  (∀ k, k ∉ operator_key ∘ fst <$> pairs → m' !! k = m !! k).
Proof.
  revert m w. induction pairs as [|[op share] pairs IH]; intros m w; cbn [encrypt_shares].
  { intros [= <- <-] _. split; [set_solver|done]. }
  intros (w1 & c & Hc%se_map_err_ok & H)%se_bind_ok [Hnin Hnd]%NoDup_cons.
  destruct (IH _ _ H Hnd) as [Hin Hout]. split.
  - intros o s [[= -> ->]|Ho]%elem_of_cons; [|by apply Hin]. exists c, w, w1. split; [exact Hc|].
    rewrite Hout by done. apply lookup_insert_eq.
  - intros k Hk. rewrite fmap_cons in Hk. rewrite Hout by set_solver.
    apply lookup_insert_ne. unfold operator_key in *. simpl in *. set_solver.
Qed.

Lemma quiet_encrypt_shares pairs m : quiet (encrypt_shares pairs m).
Proof using ll. revert m. induction pairs as [|[op share] pairs IH]; intros m; cbn [encrypt_shares]; hush. Qed.

Abbreviation ops := (get_all_operators (operator_pool self)).

(** The shares of one split of the preimage, the [i]-th encrypted to the [i]-th operator. *)
Definition shares_of (preimage : list Z) (text : string) (pk : SecpPublicKey)
    (req : StorePreimageShareV2Request) : Prop :=
  sps_payment_hash req = sha256 preimage ∧ sps_threshold req = split_secret_threshold self ∧
  invoice_string req = text ∧ user_identity_public_key req = key_serialize pk ∧
  ∃ shares w w',
    split_preimage_with_proofs preimage (split_secret_threshold self) (pool_len (operator_pool self)) w
      = (w', Ok shares) ∧
    ∀ i op share, ops !! i = Some op → shares !! i = Some share →
      share_encrypted (encrypted_preimage_shares req) op share.

Lemma zip_fst_sublist {A B} (l : list A) (k : list B) : (zip l k).*1 `sublist_of` l.
Proof.
  revert k. induction l as [|a l IH]; intros [|b k]; simpl; try constructor; [apply sublist_nil_l|apply IH].
Qed.

Lemma store_shares preimage text pk :
  NoDup (operator_key <$> ops) →
  emits (store_preimage_shares self (Some preimage) (sha256 preimage) text pk)
    (λ r l, l = [] ∧ is_ok r = false ∨ ∃ req, l = [SharesStored req] ∧ shares_of preimage text pk req).
Proof using ll.
  intros Hnd. unfold store_preimage_shares, of_service.
  apply lift_bind; [by left|]. intros p [= <-]%throws_ok.
  apply (emits_run _ _ (λ _ l, l = [])); [apply quiet_map_err, quiet_split_preimage|by intros e l ->; left|].
  intros shares l w w' -> Hsplit%se_map_err_ok.
  apply (emits_run _ _ (λ _ l, l = [])); [apply quiet_encrypt_shares|by intros e l ->; left|].
  intros m l w1 w1' -> Henc. pass. intros op. apply emits_map_err.
  eapply emits_conseq; [apply log_shares|]. intros r l ->. right. eexists. split; [reflexivity|].
  split_and!; try done. exists shares, w, w'. split; [exact Hsplit|]. intros i o share Ho Hshare.
  apply encrypt_shares_ok in Henc as [Hin _].
  - apply Hin, (list_elem_of_lookup_2 _ i). by rewrite lookup_zip_with, Ho, Hshare.
  - rewrite list_fmap_compose. eapply sublist_NoDup; [exact Hnd|]. apply fmap_sublist, zip_fst_sublist.
Qed.

(** What the creation of an invoice adds to the log: the request to the SSP and, for an invoice
    that is not held, the shares of the preimage it was asked with. *)
Definition receive_steps (preimage external : option (list Z)) (include_spark_address : bool)
    (given : option SecpPublicKey) (r : result (LightningReceivePayment Uuid) (exn ServiceError))
    (l : list ExchangeEvent) : Prop :=
  (l = [] ∧ is_ok r = false) ∨
  ∃ input pk rest, l = ReceiveRequested input :: rest ∧
    receiver_identity_pubkey input = Some (hex_encode (key_serialize pk)) ∧
    (∀ k, given = Some k → pk = k) ∧
    rr_include_spark_address input = include_spark_address ∧
    match external with
    | Some hash => rr_payment_hash input = hex_encode hash ∧ rest = []
    | None =>
        ∃ p, (∀ p0, preimage = Some p0 → p = p0) ∧ rr_payment_hash input = hex_encode (sha256 p) ∧
          (rest = [] ∧ is_ok r = false ∨
           ∃ text req, rest = [SharesStored req] ∧ shares_of p text pk req ∧
             ∀ x, r = Ok x → invoice x = text)
    end ∧
    ∀ x, r = Ok x → include_spark_address = true →
      ∃ inv, Bolt11Invoice_from_str (invoice x) = Ok inv ∧ extract_spark_address inv = Some pk.

Lemma receive_payment_invoice request x :
  LightningReceivePayment_try_from request = Ok x → invoice x = encoded_invoice (lr_invoice request).
Proof.
  unfold LightningReceivePayment_try_from. intros (? & _ & H)%rbind_ok.
  by apply rbind_ok in H as (? & _ & [= <-]).
Qed.

(** The key of the receiver: the one given, if any. *)
Lemma receiver_key {A} given (k : SecpPublicKey → SE W (exn ServiceError) A) Q :
  (∀ e, Q (Err e) []) → (∀ pk, (∀ g, given = Some g → pk = g) → emits (k pk) Q) →
  emits (se_bind match given with Some pk => se_ret pk | None => of_signer get_identity_public_key end k) Q.
Proof using ll.
  intros He Hk. destruct given as [g|].
  - apply (lift_bind (Ok g)); [done|]. intros pk [= ->]. apply Hk. congruence.
  - apply quiet_bind; [hush|done|]. intros pk. by apply Hk.
Qed.

(** The preimage and the hash an invoice is asked for. *)
Definition hash_origin (preimage external : option (list Z)) (pre : option (list Z)) (hash : list Z) : Prop :=
  match external with
  | Some h => pre = None ∧ hash = h
  | None => ∃ p, pre = Some p ∧ hash = sha256 p ∧ ∀ p0, preimage = Some p0 → p = p0
  end.

Lemma known_hash {A} preimage external (k : option (list Z) * list Z → SE W (exn ServiceError) A) Q :
  (∀ e, Q (Err e) []) → (∀ pre hash, hash_origin preimage external pre hash → emits (k (pre, hash)) Q) →
  emits (se_bind (preimage_and_hash preimage external) k) Q.
Proof using ll.
  intros He Hk. unfold preimage_and_hash. destruct external as [h|].
  - apply (lift_bind (Ok (None, h))); [done|]. intros [pre hash] [= <- <-]. by apply Hk.
  - apply (emits_run _ _ (λ r l, l = [] ∧ ∀ x, r = Ok x → hash_origin preimage None x.1 x.2)).
    + destruct preimage as [p|].
      * apply (lift_bind (Ok p)); [done|]. intros p' [= ->]. apply emits_ret. split; [done|].
        intros x [= <-]. exists p'. split_and!; [done|done|]. by intros ? [= ->].
      * apply quiet_bind; [hush|done|]. intros p. apply emits_ret. split; [done|].
        intros x [= <-]. by exists p.
    + by intros e l [-> _].
    + intros [pre hash] l w w' [-> Hx] _. apply Hk. by apply (Hx (pre, hash)).
Qed.

(** C23: an invoice is asked of the SSP for a payment hash the wallet knows the origin of: the
    hash given for a held invoice, whose preimage is then never shared, or the hash of the
    preimage, whose shares go to the operators, each encrypted to its operator, before the
    invoice is returned.  An invoice asked with a Spark address carries the receiver's key. *)
Theorem invoice_preimage_shared amount description preimage external expiry include given w w' r :
  create_lightning_invoice_inner self amount description preimage external expiry include given w = (w', r) →
  NoDup (operator_key <$> ops) →
  ∃ l, log w' = log w ++ l ∧ receive_steps preimage external include given r l.
Proof using ll.
  intros H Hnd. revert w w' r H.
  change (emits (create_lightning_invoice_inner self amount description preimage external expiry include given)
            (receive_steps preimage external include given)).
  assert (∀ e, receive_steps preimage external include given (Err e) []) as Hstop by (by left).
  unfold create_lightning_invoice_inner.
  apply quiet_bind; [hush|done|]. intros _.
  apply receiver_key; [done|]. intros pk Hpk. apply known_hash; [done|]. intros pre hash Hknown.
  destruct (from_option into_memo_and_description_hash (None, None) description) as [memo dh].
  set (input := {| receiver_identity_pubkey := _ |}).
  apply emits_bind, emits_map_err. eapply emits_conseq; [apply log_receive|].
  assert (∀ e rest, (rest = [] ∨ external = None ∧ ∃ p text req, pre = Some p ∧
            rest = [SharesStored req] ∧ shares_of p text pk req) →
          receive_steps preimage external include given (Err e) (ReceiveRequested input :: rest)) as Herr.
  { intros e rest Hrest. right. exists input, pk, rest. split_and!; [done..| |done].
    destruct external as [h|]; [destruct Hknown as [_ ->]; by destruct Hrest as [->|[? _]]|].
    destruct Hknown as (p & -> & -> & Hp). exists p. split_and!; [done|done|].
    destruct Hrest as [->|(_ & p' & text & req & [= <-] & -> & Hs)]; [by left|].
    right. exists text, req. by split_and!. }
  intros [request|e] l ->; simpl; [|apply Herr; by left].
  unfold decode_invoice, of_service.
  apply lift_bind; [intros e; apply Herr; by left|]. intros inv Hinv%throws_ok.
  assert (Bolt11Invoice_from_str (encoded_invoice (lr_invoice request)) = Ok inv) as Hparse
    by (by destruct (Bolt11Invoice_from_str _); [injection Hinv as ->|]). clear Hinv.
  apply (emits_run _ _ (λ r l, l = [] ∧ (is_ok r = true → include = true → extract_spark_address inv = Some pk))).
  { destruct include; [|by apply emits_ret]. destruct (extract_spark_address inv) as [k|]; [|by apply emits_fail].
    case_bool_decide as Hk; [subst k; by apply emits_ret|by apply emits_fail]. }
  { intros e l [-> _]. apply Herr. by left. }
  intros [] l w w' [-> Hspark] _. specialize (Hspark eq_refl).
  assert (∀ x, LightningReceivePayment_try_from request = Ok x → include = true →
            ∃ inv, Bolt11Invoice_from_str (invoice x) = Ok inv ∧ extract_spark_address inv = Some pk) as Hinvoice.
  { intros x Hx Hin. exists inv. rewrite (receive_payment_invoice _ _ Hx). by split; [|apply Hspark]. }
  destruct external as [h|].
  - apply (lift_bind (Ok ())); [intros e; apply Herr; by left|]. intros _ _. apply emits_lift.
    destruct (LightningReceivePayment_try_from request) as [x|e]; [|apply Herr; by left].
    right. exists input, pk, []. split_and!; try done; [|intros ? [= <-]; by apply Hinvoice].
    by destruct Hknown as [_ ->].
  - destruct Hknown as (p & -> & -> & Hp).
    apply emits_bind. eapply emits_conseq; [apply (store_shares p); exact Hnd|].
    intros rs l [[-> Hr]|(req & -> & Hs)].
    + destruct rs; [done|]. apply Herr. by left.
    + destruct rs as [[]|e]; simpl; [|apply Herr; right; split; [done|]; eauto 10].
      apply emits_lift. destruct (LightningReceivePayment_try_from request) as [x|e] eqn:Hx;
        [|apply Herr; right; split; [done|]; eauto 10].
      right. exists input, pk, [SharesStored req]. split_and!; [done..| |intros ? [= <-]; by apply Hinvoice].
      exists p. split_and!; [done..|]. right. eexists _, req. split_and!; [done|exact Hs|].
      intros y [= <-]. by apply receive_payment_invoice.
Qed.

(** ** Swaps *)

Lemma swap_key_tweaks_ok leaves w w' tweaks :
  swap_key_tweaks leaves w = (w', Ok tweaks) → lk_node <$> tweaks = leaves.
Proof.
  revert w tweaks. induction leaves as [|leaf leaves IH]; intros w tweaks; cbn [swap_key_tweaks].
  { by intros [= <- <-]. }
  intros (w1 & secret & _ & H)%se_bind_ok. apply se_bind_ok in H as (w2 & rest & H & [= <- <-]).
  rewrite fmap_cons. simpl. f_equal. by eapply IH.
Qed.

Lemma quiet_swap_tweaks leaves : quiet (swap_key_tweaks leaves).
Proof using ll. induction leaves; cbn [swap_key_tweaks]; hush. Qed.
#[local] Hint Resolve quiet_swap_tweaks : quiet.

(** A refund signed for a leaf of the list. *)
Definition refund_of (leaves : list LeafKeyTweak) (t : SignedTx) : Prop :=
  ∃ leaf, leaf ∈ leaves ∧ st_node_id t = leaf_id leaf ∧ signs_spend leaf (node_tx (lk_node leaf)) t ∧
    outdates t (lk_node leaf).

Lemma sign_refund_id leaf t refund key cs net adaptor w w' s :
  sign_refund leaf t refund key cs net adaptor w = (w', Ok s) → st_node_id s = leaf_id leaf.
Proof.
  unfold sign_refund. intros (? & ? & _ & H)%se_bind_ok. apply se_bind_ok in H as (? & ? & _ & H).
  apply se_bind_ok in H as (? & ? & _ & H). by apply se_bind_ok in H as (? & ? & _ & [= _ <-]).
Qed.

Section signed.
Context (blocks_encoding : ∀ b, in_u 16 b → blocks_to_consensus b = b).

Lemma sign_leaf_refunds_id p key i leaf w w' c d f :
  sign_leaf_refunds p key i leaf w = (w', Ok (c, d, f)) → st_node_id c = leaf_id leaf.
Proof.
  unfold sign_leaf_refunds. intros (? & ? & _ & H)%se_bind_ok. apply se_bind_ok in H as (? & ? & _ & H).
  apply se_bind_ok in H as (? & ? & _ & H). apply se_bind_ok in H as (? & t & Ht%sign_refund_id & H).
  apply se_bind_ok in H as (? & ? & _ & H). by apply se_bind_ok in H as (? & ? & _ & [= _ <- _ _]).
Qed.

Lemma sign_refunds_each p key i leaves w w' r :
  sign_refunds_loop p key i leaves w = (w', Ok r) → Forall (refund_of leaves) (cpfp_signed_tx r).
Proof using blocks_encoding.
  revert i w r. induction leaves as [|leaf leaves IH]; intros i w r; cbn [sign_refunds_loop].
  { intros [= <- <-]. constructor. }
  intros (w1 & [[c d] f] & H1 & H)%se_bind_ok. apply se_bind_ok in H as (w2 & rest & H2 & [= <- <-]).
  pose proof (sign_leaf_refunds_id _ _ _ _ _ _ _ _ _ H1) as Hid.
  apply (sign_leaf_refunds_ok blocks_encoding) in H1 as ((Hs & Ho & _) & _).
  simpl. constructor.
  - exists leaf. split_and!; try done. by left.
  - eapply Forall_impl; [by eapply IH|]. intros t (l & Hin & ?). exists l. split; [by right|done].
Qed.

Lemma prepared_refunds id tweaks receiver sigs hash expiry adaptor w w' p :
  prepare_transfer_request self id tweaks receiver sigs hash expiry adaptor w = (w', Ok p) →
  rq_transfer_id (transfer_request p) = Uuid_to_string id ∧
  Forall (refund_of tweaks) (ptr_cpfp_signed_txs p).
Proof using blocks_encoding.
  unfold prepare_transfer_request. intros (w1 & m & _ & H)%se_bind_ok.
  apply se_bind_ok in H as (w2 & package & Hp & H).
  apply se_bind_ok in H as (? & ? & _ & H). apply se_bind_ok in H as (? & ? & _ & [= <- <-]).
  split; [done|]. simpl. unfold prepare_transfer_package, of_signer_exn in Hp.
  apply se_bind_ok in Hp as (? & ? & _ & Hp). apply se_bind_ok in Hp as (? & ? & _ & Hp).
  apply se_bind_ok in Hp as (? & ? & _ & Hp). apply se_bind_ok in Hp as (? & [[a b] c] & _ & Hp).
  apply se_bind_ok in Hp as (? & signed & Hs%se_map_err_ok & Hp).
  do 5 (apply se_bind_ok in Hp as (? & ? & _ & Hp)). injection Hp as <- <-. simpl.
  unfold sign_refunds in Hs. apply se_bind_ok in Hs as (? & ? & _ & Hs). by eapply sign_refunds_each.
Qed.

(** A leaf shown to the SSP: a refund of a swapped leaf, and a signature under the adaptor key,
    aggregated for that very refund over the output it spends. *)
Definition offered (tweaks : list LeafKeyTweak) (adaptor : SecpPublicKey) (u : UserLeafInput) : Prop :=
  ∃ leaf t out h req sig b w1 w2,
    leaf ∈ tweaks ∧ ul_leaf_id u = leaf_id leaf ∧ st_node_id t = leaf_id leaf ∧ refund_of tweaks t ∧
    raw_unsigned_refund_transaction u = hex_encode (tx_serialize (st_tx t)) ∧
    output (node_tx (lk_node leaf)) !! Z.to_nat (vout (lk_node leaf)) = Some out ∧
    sighash_from_tx (st_tx t) 0 out = Ok h ∧
    aggregate_frost req w1 = (w2, Ok sig) ∧ af_message req = h ∧ af_adaptor_public_key req = Some adaptor ∧
    signature_serialize sig = Ok b ∧ adaptor_added_signature u = hex_encode b.

Lemma map_err_is_ok {E F A} (f : E → F) (r : result A E) a : map_err f r = Ok a → r = Ok a.
Proof. destruct r; [by intros [= ->]|done]. Qed.

Lemma swap_user_leaf_ok txs tweaks adaptor r w w' u :
  swap_user_leaf txs tweaks adaptor r w = (w', Ok u) → Forall (refund_of tweaks) txs →
  offered tweaks adaptor u.
Proof.
  intros H Htxs. unfold swap_user_leaf, of_service in H.
  apply se_bind_ok in H as (? & id & _ & H).
  apply se_bind_ok in H as (? & t & [_ [Ht Htid]%ok_or_ok%find_Some_elem]%throws_lift_ok & H).
  apply se_bind_ok in H as (? & leaf & [_ [Hleaf Hlid]%ok_or_ok%find_Some_elem]%throws_lift_ok & H).
  apply bool_decide_eq_true in Htid, Hlid.
  apply se_bind_ok in H as (? & ? & _ & H). apply se_bind_ok in H as (? & ? & _ & H).
  apply se_bind_ok in H as (? & sr & _ & H).
  apply se_bind_ok in H as (? & out & [_ Hout%or_panic_ok]%se_lift_ok & H).
  apply se_bind_ok in H as (? & h & [_ Hh%map_err_is_ok]%throws_lift_ok & H).
  apply se_bind_ok in H as (? & sig & Hsig%se_map_err_ok & H).
  apply se_bind_ok in H as (? & b & [_ Hb%map_err_is_ok]%throws_lift_ok & [= _ <-]).
  unfold sign_aggregate_frost in Hsig. apply se_bind_ok in Hsig as (w1 & share & _ & Hagg).
  eexists leaf, t, out, h, _, sig, b, _, _. unfold leaf_id.
  split_and!; [exact Hleaf|done|congruence| |done|exact Hout|exact Hh|exact Hagg|done|done|exact Hb|done].
  - by eapply Forall_forall.
Qed.

(** What the SSP is asked: to return the value of the leaves in the amounts wanted, for the
    refunds offered. *)
Definition swap_offer (leaves : list TreeNode) (targets : option (list Z)) (id : Uuid)
    (input : RequestSwapInput) : Prop :=
  user_outbound_transfer_external_id input = Uuid_to_string id ∧
  total_amount_sats input = sum_u 64 (value <$> leaves) ∧ ExchangeModels.fee_sats input = 0 ∧
  target_amount_sats input = default [total_amount_sats input] targets ∧
  (∀ ts, targets = Some ts → ts ≠ [] ∧ 0 ∉ ts ∧ sum_u 64 ts ≤ total_amount_sats input) ∧
  ∃ tweaks adaptor, lk_node <$> tweaks = leaves ∧
    adaptor_pubkey input = hex_encode (key_serialize adaptor) ∧
    Forall (offered tweaks adaptor) (user_leaves input).

(** What a swap adds to the log. *)
Definition swap_steps (leaves : list TreeNode) (targets : option (list Z))
    (r : result (list TreeNode) (exn ServiceError)) (l : list ExchangeEvent) : Prop :=
  (l = [] ∧ is_ok r = false) ∨
  ∃ id, (∃ b, l = [PrimaryTransfer (Uuid_to_string id) b] ∧ is_ok r = false) ∨
    ∃ input, l = [PrimaryTransfer (Uuid_to_string id) true; SwapRequested input] ∧
      swap_offer leaves targets id input.

Lemma swap_sums_ok leaves targets total target :
  swap_sums leaves targets = Ok (total, target) →
  total = sum_u 64 (value <$> leaves) ∧
  default [target] targets = default [total] targets ∧
  ∀ ts, targets = Some ts → ts ≠ [] ∧ 0 ∉ ts ∧ sum_u 64 ts ≤ total.
Proof.
  unfold swap_sums, check_targets. case_bool_decide; [done|]. intros ([] & Hc & Hok)%rbind_ok.
  destruct (Z.ltb_spec (sum_u 64 (value <$> leaves)) (from_option (sum_u 64) (sum_u 64 (value <$> leaves)) targets))
    as [|Hle]; [done|]. injection Hok as <- <-. split; [done|].
  destruct targets as [ts|]; [|done]. repeat case_bool_decide; try done.
  split; [done|]. by intros ? [= <-].
Qed.

Lemma quiet_user_leaves txs tweaks adaptor rs : quiet (swap_user_leaves txs tweaks adaptor rs).
Proof using ll.
  induction rs as [|r rs IH]; cbn [swap_user_leaves]; [hush|].
  unfold swap_user_leaf, sign_aggregate_frost. hush.
Qed.

Lemma swap_user_leaves_ok txs tweaks adaptor rs w w' us :
  swap_user_leaves txs tweaks adaptor rs w = (w', Ok us) → Forall (refund_of tweaks) txs →
  Forall (offered tweaks adaptor) us.
Proof.
  intros H Htxs. revert w us H. induction rs as [|r rs IH]; intros w us; cbn [swap_user_leaves].
  { intros [= <- <-]. constructor. }
  intros (w1 & u & Hu & H)%se_bind_ok. apply se_bind_ok in H as (w2 & rest & H & [= <- <-]).
  constructor; [by eapply swap_user_leaf_ok|by eapply IH].
Qed.

Lemma swap_completes id total target targets adaptor us :
  emits (complete_swap self id total target targets adaptor us) (λ _ l,
    l = [SwapRequested
           {| adaptor_pubkey := hex_encode (key_serialize adaptor); total_amount_sats := total;
              target_amount_sats := default [target] targets; ExchangeModels.fee_sats := 0; user_leaves := us;
              user_outbound_transfer_external_id := Uuid_to_string id |}]).
Proof using ll.
  unfold complete_swap. apply emits_bind, emits_map_err. eapply emits_conseq; [apply log_swap|].
  intros [response|e] l ->; simpl; [|done].
  eapply (emits_conseq _ (λ _ l, l = [])); [|by intros ? ? ->].
  unfold inbound_swap_transfer, claim_counter_swap. hush.
Qed.

(** C22: a swap hands over leaves once, and asks the SSP for its side only after the coordinator
    accepted the primary transfer: for the whole value of the leaves, in the amounts wanted,
    which are positive and within that value, without a fee; every refund shown to the SSP is
    one of a swapped leaf, under the adaptor key of this swap.  A swap that succeeds has
    asked. *)
Theorem swap_offers_what_it_sent leaves targets w w' r :
  swap_leaves self leaves targets w = (w', r) →
  ∃ l, log w' = log w ++ l ∧ swap_steps leaves targets r l.
Proof using ll blocks_encoding.
  enough (emits (swap_leaves self leaves targets) (swap_steps leaves targets)) as H by exact (H w w' r).
  assert (∀ e, swap_steps leaves targets (Err e) []) as Hstop by (by left).
  unfold swap_leaves, of_service.
  apply lift_bind; [done|]. intros [total target] Hsums%throws_ok%swap_sums_ok.
  destruct Hsums as (-> & Hdef & Htargets).
  apply (emits_run _ _ (λ _ l, l = [])); [hush|by intros e l ->|].
  intros tweaks l w0 w1 -> Htweaks%se_map_err_ok%swap_key_tweaks_ok.
  apply quiet_bind; [hush|done|]. intros id. do 3 (pass; intros ?).
  set (adaptor := public_key_of_secret _).
  apply (emits_run _ _ (λ _ l, l = [])); [hush|by intros e l ->|].
  intros prepared l w2 w3 -> [Hid Hrefunds]%prepared_refunds. pass. intros op.
  apply emits_bind, emits_map_err. eapply emits_conseq; [apply log_primary|].
  cbn [ip_transfer fmap option_fmap option_map default cpfp_only rq_transfer_id]. rewrite Hid.
  assert (∀ b e, swap_steps leaves targets (Err e) [PrimaryTransfer (Uuid_to_string id) b]) as Hfail.
  { intros b e. right. exists id. left. by exists b. }
  intros [response|e] l ->; simpl; [|apply Hfail].
  apply lift_bind; [apply Hfail|]. intros p _.
  apply (emits_run _ _ (λ _ l, l = [])); [apply quiet_user_leaves|by intros e l ->|].
  intros us l w4 w5 -> Hus. apply swap_user_leaves_ok in Hus; [|exact Hrefunds].
  eapply emits_conseq; [apply swap_completes|]. intros r0 l ->. right. exists id. right.
  eexists. split; [reflexivity|]. split_and!; try done. exists tweaks, adaptor. by split_and!.
Qed.
End signed.
End logs.

(** ** At concrete inputs

    The world of the transfers with the log of exchanges; the SSP answers every request. *)
Module Example.
Import AddressesProps.Example.
Export TransfersProps.Example.
#[local] Existing Instance canonical_order.
#[local] Existing Instance example_bitcoin.
#[local] Existing Instance example_bitcoin_ops.

Abbreviation world := (World ExchangeEvent).

(** Exchanges start no transfer. *)
#[export] Instance exchange_event : StartEvent ExchangeEvent := {|
  started id _ := PrimaryTransfer id false;
  delivered id := [PackageDelivered id true]
|}.

(** An answer with its events. *)
Definition answer {E A} (l : list ExchangeEvent) (r : result A E) : SE world E A := λ w,
  ({| ew_nonce := ew_nonce w; ew_slept := ew_slept w; ew_log := ew_log w ++ l |}, r).

Lemma emits_answer {E A} l (r : result A E) Q : Q r l → emits (answer l r) Q.
Proof. intros H w w' r' [= <- <-]. by exists l. Qed.

#[export] Instance invoices : Bolt11Ops := {|
  Bolt11Invoice := Z;
  Bolt11Invoice_from_str s := if String.eqb s "" then Err "empty" else Ok 1500000;
  amount_milli_satoshis inv := Some inv;
  invoice_payment_hash inv := [inv];
  invoice_network inv := NetRegtest;
  route_hints inv := [[ {| short_channel_id := RECEIVER_IDENTITY_PUBLIC_KEY_SHORT_CHANNEL_ID;
                           src_node_id := 8 : @SecpPublicKey example_bitcoin |} ]]
|}.

Definition sats (n : Z) : CurrencyAmount := {| original_value := n; original_unit := Satoshi |}.

(** A connector transaction of two outputs. *)
Definition connector_bytes : list Z := [77; 0; 300].

Definition exit_request : CoopExitRequest :=
  {| cx_id := "exit"; cx_created_at := 0; cx_updated_at := 0; cx_network := BitcoinRegtest;
     cx_fee := sats 10; l1_broadcast_fee := sats 20; exit_status := ExitInitiated; exit_expired_at := 0;
     raw_connector_transaction := hex_encode connector_bytes; raw_coop_exit_transaction := "";
     coop_exit_txid := ""; cx_transfer := None |}.

Definition receive_request : LightningReceiveRequest :=
  {| lr_id := "receive"; lr_created_at := 0; lr_updated_at := 0; lr_network := BitcoinRegtest;
     lightning_request_status := InvoiceCreated;
     lr_invoice := {| encoded_invoice := "lnbcrt"; li_bitcoin_network := BitcoinRegtest;
                      li_payment_hash := ""; li_amount := sats 1500; li_created_at := 0;
                      invoice_expired_at := 0; li_memo := None |};
     lr_transfer := None; lightning_receive_payment_preimage := None |}.

Definition send_request (text : string) : LightningSendRequest :=
  {| ls_id := "send"; ls_created_at := 0; ls_updated_at := 0; ls_network := BitcoinRegtest;
     ls_encoded_invoice := text; ls_fee := sats 3; ls_idempotency_key := ""; ls_status := RequestCreated;
     ls_transfer := None; lightning_send_payment_preimage := None |}.

Definition swap_request : LeavesSwapRequest :=
  {| sw_id := "swap"; sw_created_at := 0; sw_updated_at := 0; sw_network := BitcoinRegtest;
     swap_status := SwapCreated; sw_total_amount := sats 2000; target_amount := sats 2000;
     sw_fee := sats 0;
     inbound_transfer := Some {| total_amount := sats 2000;
                                 spark_id := Some (Uuid_to_string (1 : @Uuid _ types)) |};
     Payments.swap_leaves := None; outbound_transfer := None; swap_expired_at := None |}.

#[export] Instance provider : SspClient world := {|
  ssp_error _ := "ssp" : @OtherError example_bitcoin;
  ssp_identity_public_key := 30 : @SecpPublicKey example_bitcoin;
  request_swap input := answer [SwapRequested input] (Ok swap_request);
  get_coop_exit_fee_quote ids address :=
    se_ret {| sq_id := "quote"; sq_expires_at := 0; user_fee_fast := sats 3; user_fee_medium := sats 2;
              user_fee_slow := sats 1; l1_broadcast_fee_fast := sats 30;
              l1_broadcast_fee_medium := sats 20; l1_broadcast_fee_slow := sats 10 |};
  request_coop_exit input := answer [ExitRequested input] (Ok exit_request);
  complete_coop_exit t r := answer [ExitCompleted t r true] (Ok exit_request);
  request_lightning_receive input := answer [ReceiveRequested input] (Ok receive_request);
  request_lightning_send input := answer [SendRequested input] (Ok (send_request (rs_encoded_invoice input)));
  get_lightning_send_fee_estimate text amount := se_ret (sats 3);
  get_lightning_send_request id := se_ret None;
  get_lightning_receive_request id := se_ret None
|}.

(** The results for the jobs of a request. *)
Definition results (jobs : list string) : list (LeafRefundTxSigningResult (W := world)) :=
  (λ id, {| lr_leaf_id := id; lr_refund_tx_signing_result := Some (1 : @ProtoSigningResult _ _ env);
            lr_direct_refund_tx_signing_result := Some (2 : @ProtoSigningResult _ _ env);
            lr_direct_from_cpfp_refund_tx_signing_result := Some (3 : @ProtoSigningResult _ _ env);
            lr_verifying_key := [6] |}) <$> jobs.

#[export] Instance exchange_operators : ExchangeOperators world := {|
  initiate_swap_primary_transfer op req :=
    answer [PrimaryTransfer (default "" (rq_transfer_id <$> ip_transfer req)) true]
      (Ok {| sr_transfer := Some (proto_transfer SenderInitiated true); signing_results := results ["a"; "b"] |});
  initiate_preimage_swap_v3 op req :=
    answer [swap_event req true] (Ok (Some (proto_transfer SenderInitiated true)));
  cooperative_exit_v2 op req :=
    answer [ExitSigned (default "" (rq_transfer_id <$> ce_transfer req)) (connector_tx req) true]
      (Ok {| sr_transfer := Some (proto_transfer SenderInitiated true);
             signing_results :=
               results (lj_leaf_id <$> from_option rq_leaves_to_send [] (ce_transfer req)) |});
  provide_preimage_rpc op req := se_ret (Some (proto_transfer SenderKeyTweaked true));
  query_htlc_rpc op req := se_ret ([], 0);
  store_preimage_share_v2 op req := answer [SharesStored req] (Ok ());
  encode_secret_share p := [Z.of_nat (length (sp_proofs p))];
  split_preimage_with_proofs preimage t n :=
    se_ret ((λ i, {| secret_share := {| share_threshold := t; share_index := i : @Scalar _ shares;
                                        share_value := sumZ preimage + i : @Scalar _ shares |};
                     proofs := [sumZ preimage : @ProofKey _ shares] |}) <$> seqZ 1 n)
|}.

#[export] Instance observer : ExchangeObserver world := {|
  before_coop_exit := Some (λ _ _ _, se_ret ());
  before_send_lightning_payment := Some (λ _ _ _, se_ret ())
|}.

#[export] Instance exchange_env : ExchangeEnv world := {|
  bitcoin_error s := s : @OtherError example_bitcoin;
  signer_error_text _ := "signer";
  service_error_text _ := "service";
  rpc_error_text _ := "rpc";
  txid_bytes t := [t : Z];
  now w := (w, 0);
  new_secret_key w := (w, [7]);
  public_key_of_secret s := sumZ s : @SecpPublicKey example_bitcoin
|}.

#[export] Instance exchange_laws : ExchangeLogLaws (W := world).
Proof.
  split; try (intros; apply emits_answer; reflexivity).
  - apply example_quiet.
  - intros w w' r [= <- <-]. exists []. by rewrite app_nil_r.
  - intros w w' r [= <- <-]. exists []. by rewrite app_nil_r.
  - intros. apply quiet_ret.
  - intros f a b c [= <-]. apply quiet_ret.
  - intros f a b c [= <-]. apply quiet_ret.
Qed.

Definition begin : world := initial.

(** Locked under the caller's id, and paid. *)
Lemma lightning_payment_steps_witness :
  ∃ w' p, pay_lightning_invoice service "lnbcrt" None [node "a"; node "b"] (Some (5 : @Uuid _ types)) begin
            = (w', Ok p) ∧
    ∃ l, log w' = log begin ++ l ∧
      payment_steps (W := world) service "lnbcrt" None (Some (5 : @Uuid _ types)) (Ok p) l.
Proof.
  assert (is_ok (pay_lightning_invoice service "lnbcrt" None [node "a"; node "b"]
                   (Some (5 : @Uuid _ types)) begin).2 = true) as Hok by (vm_compute; reflexivity).
  destruct (pay_lightning_invoice service _ _ _ _ begin) as [w' [p|e]] eqn:H; [|done].
  exists w', p. split; [reflexivity|].
  exact (lightning_payment_steps service "lnbcrt" None [node "a"; node "b"] _ begin w' (Ok p) H).
Defined.

Lemma operator_keys_distinct : NoDup (operator_key <$> get_all_operators (operator_pool service)).
Proof. vm_compute. repeat constructor; set_solver. Qed.

Lemma invoice_preimage_shared_witness :
  ∃ w' p, create_lightning_invoice_inner service 1500 (Some (Memo "coffee")) (Some [9]) None None true None
            begin = (w', Ok p) ∧
    ∃ l, log w' = log begin ++ l ∧ receive_steps (W := world) service (Some [9]) None true None (Ok p) l.
Proof.
  assert (is_ok (create_lightning_invoice_inner service 1500 (Some (Memo "coffee")) (Some [9]) None None true
                   None begin).2 = true) as Hok by (vm_compute; reflexivity).
  destruct (create_lightning_invoice_inner service _ _ _ _ _ _ _ begin) as [w' [p|e]] eqn:H; [|done].
  exists w', p. split; [reflexivity|].
  exact (invoice_preimage_shared service 1500 (Some (Memo "coffee")) (Some [9]) None None true None
           begin w' (Ok p) H operator_keys_distinct).
Defined.

(** The SSP splits two leaves of 1000 into three. *)
Lemma swap_offers_what_it_sent_witness :
  ∃ w' nodes, swap_leaves service [node "a"; node "b"] (Some [500; 500; 1000]) begin = (w', Ok nodes) ∧
    ∃ l, log w' = log begin ++ l ∧
      swap_steps (W := world) [node "a"; node "b"] (Some [500; 500; 1000]) (Ok nodes) l.
Proof.
  assert (is_ok (swap_leaves service [node "a"; node "b"] (Some [500; 500; 1000]) begin).2 = true) as Hok
    by (vm_compute; reflexivity).
  destruct (swap_leaves service _ _ begin) as [w' [nodes|e]] eqn:H; [|done].
  exists w', nodes. split; [reflexivity|].
  exact (swap_offers_what_it_sent (bo := example_bitcoin_ops) service (λ b _, eq_refl)
           [node "a"; node "b"] (Some [500; 500; 1000]) begin w' (Ok nodes) H).
Defined.
End Example.
