(* ===== verification/CoopExitsProps.v ===== *)
(** What cooperative exits promise ([CoopExits]): every refund signed for an exit spends a
    connector of the exit's connector transaction, and the exit is delivered and completed only
    behind what the operators accepted. *)
From stdpp Require Import base gmap strings list.
From S2P Require Import Prelude Timelocks TreeTypes Payments Transactions Bytes Paging Addresses AddressesProps TokenTx TokenTxProps Traces Signing TransferModels Futures Transfers TransfersProps ExchangeModels Htlcs Lightning LeafSwaps CoopExits ExchangesProps.

Section bound.
Context {ho : HashOrder} {bt : BitcoinTypes} {bo : BitcoinOps} {ao : AddressOps} {ak : AddressKeys}
  {tx : TokenTextOps} {W : Type} {se : SignerEnv W} {fs : FrostSigner W} {tt : TransferTypes}
  {sh : ShareTypes} {sg : TransferSigner W} {top : TransferOperators W} {eo : ExchangeOperators W}
  {ssp : SspClient W} {env : ExchangeEnv W}.
Context (self : TransferService).
Context (blocks_encoding : ∀ b, in_u 16 b → blocks_to_consensus b = b).

(** The inputs of [child] are output 0 of [parent], which is [out], and the connector. *)
Definition connected (child parent : Tx) (out : TxOut) (seq : Z) (connector : OutPoint) : Prop :=
  head (output parent) = Some out ∧
  input child = [ {| previous_output := first_outpoint parent; script_sig := [];
                     txin_sequence := seq; witness := [] |}; default_txin connector ].

Definition connected_refunds (node : Tx) (direct : option Tx) (cpfp_seq direct_seq : Z)
    (connector : OutPoint) (rtx : RefundTransactions) : Prop :=
  (∃ out, connected (rtx_cpfp_tx rtx) node out cpfp_seq connector) ∧
  (∃ out t, rtx_direct_from_cpfp_tx rtx = Some t ∧ connected t node out direct_seq connector) ∧
  match direct, rtx_direct_tx rtx with
  | Some dtx, Some t => ∃ out, connected t dtx out direct_seq connector
  | None, None => True
  | _, _ => False
  end.

Lemma create_connector_refund_txs_ok {E} p rtx :
  @create_connector_refund_txs _ _ E p = Ok rtx →
  connected_refunds (cr_node_tx p) (cr_direct_tx p) (cr_cpfp_sequence p) (cr_direct_sequence p)
    (connector_outpoint p) rtx.
Proof.
  unfold create_connector_refund_txs. intros (v & (out & Hout & <-)%first_value_ok & H)%rbind_ok.
  apply rbind_ok in H as (d & Hd%map_opt_ok & [= <-]). split_and!; simpl.
  - by exists out.
  - exists out. by eexists.
  - destruct (cr_direct_tx p) as [dtx|], d as [t|]; try done.
    apply rbind_ok in Hd as (dv & (dout & Hdout & <-)%first_value_ok & [= <-]). by exists dout.
Qed.

(** The data of a leaf once its connector is known. *)
Definition connector_data (cout : TxOut) (leaf : LeafKeyTweak) (data : LeafRefundSigningData) : Prop :=
  rd_tx data = node_tx (lk_node leaf) ∧ rd_direct_tx data = direct_tx (lk_node leaf) ∧
  connector_prev_out data = Some cout ∧ rd_signing_private_key data = signing_key leaf.

(** The transactions of the data are those of the job sent for the leaf, and spend [connector];
    they unlock before the refund the leaf has. *)
Definition job_connects (connector : OutPoint) (cout : TxOut) (leaf : LeafKeyTweak)
    (data : LeafRefundSigningData) (job : LeafRefundTxSigningJob) : Prop :=
  lj_leaf_id job = leaf_id leaf ∧ connector_data cout leaf data ∧
  ∃ old refund cs ds rtx, refund_tx (lk_node leaf) = Some refund ∧
    input0_sequence refund = Some old ∧ timelock cs < timelock ds < timelock old ∧
    connected_refunds (node_tx (lk_node leaf)) (direct_tx (lk_node leaf)) cs ds connector rtx ∧
    rd_refund_tx data = Some (rtx_cpfp_tx rtx) ∧
    rd_direct_refund_tx data = rtx_direct_tx rtx ∧
    rd_direct_from_cpfp_refund_tx data = rtx_direct_from_cpfp_tx rtx ∧
    pj_raw_tx <$> lj_refund_tx_signing_job job = Some (tx_serialize (rtx_cpfp_tx rtx)) ∧
    pj_raw_tx <$> lj_direct_refund_tx_signing_job job = tx_serialize <$> rtx_direct_tx rtx ∧
    pj_raw_tx <$> lj_direct_from_cpfp_refund_tx_signing_job job
      = tx_serialize <$> rtx_direct_from_cpfp_tx rtx.

Lemma connector_signing_job_ok txid i leaf cout data job data' :
  refund_so_signing_job (connector_refunds self txid) false i (lk_node leaf) data = Ok (job, data') →
  connector_data cout leaf data →
  job_connects {| op_txid := txid; op_vout := wrap 32 (Z.of_nat i) |} cout leaf data' job.
Proof using blocks_encoding.
  unfold refund_so_signing_job. intros (refund & Hrefund%throws_ok%ok_or_ok & H)%rbind_ok Hdata.
  apply rbind_ok in H as (old & Hold%or_panic_ok & H).
  apply rbind_ok in H as ([cs ds] & Hseq%throws_ok%ok_or_ok & H).
  apply rbind_ok in H as (rtx & Hrtx%create_connector_refund_txs_ok & H).
  apply rbind_ok in H as (dj & Hdj%throws_ok%map_opt_proto & H).
  apply rbind_ok in H as (fj & Hfj%throws_ok%map_opt_proto & H).
  apply rbind_ok in H as (cj & Hcj%throws_ok%proto_signing_job_ok & [= <- <-]).
  destruct (next_sequence_lower _ blocks_encoding old cs ds) as (Hlt & _ & _); [by left|].
  split; [done|split; [done|]]. exists old, refund, cs, ds, rtx. simpl.
  do 7 (split; [done|]). split; [by rewrite Hcj|done].
Qed.

(** ** The data of the leaves *)

Lemma leaf_refund_signing_data_ok key leaf w w' data :
  leaf_refund_signing_data key leaf w = (w', Ok data) → data_for signing_key leaf data.
Proof.
  unfold leaf_refund_signing_data. intros H.
  repeat (apply se_bind_ok in H as (? & ? & _ & H)). by injection H as <- <-.
Qed.

Lemma leaf_data_ok leaves key m w w' m' :
  prepare_leaf_refund_signing_data leaves key m w = (w', Ok m') → NoDup (leaf_id <$> leaves) →
  (∀ id, id ∉ leaf_id <$> leaves → m' !! id = m !! id) ∧
  ∀ leaf, leaf ∈ leaves → ∃ data, m' !! leaf_id leaf = Some data ∧ data_for signing_key leaf data.
Proof.
  revert m w. induction leaves as [|leaf leaves IH]; intros m w; cbn [prepare_leaf_refund_signing_data].
  { intros [= <- <-] _. split; [done|]. set_solver. }
  intros (w1 & data & Hdata%leaf_refund_signing_data_ok & H)%se_bind_ok.
  rewrite fmap_cons, NoDup_cons. intros [Hnin Hnd].
  destruct (IH _ _ H Hnd) as [Hother Hin]. split.
  - intros id Hid. rewrite Hother by set_solver. apply lookup_insert_ne. set_solver.
  - intros l [->|Hl]%elem_of_cons; [|by apply Hin].
    exists data. split; [|done]. rewrite Hother by done. apply lookup_insert_eq.
Qed.

Lemma set_connectors_ok i leaves outs m :
  NoDup (leaf_id <$> leaves) →
  (∀ leaf, leaf ∈ leaves → ∃ data, m !! leaf_id leaf = Some data ∧ data_for signing_key leaf data) →
  (∀ id, id ∉ leaf_id <$> leaves → set_connectors i leaves outs m !! id = m !! id) ∧
  ∀ k leaf cout, leaves !! k = Some leaf → outs !! (i + k)%nat = Some cout →
    ∃ data, set_connectors i leaves outs m !! leaf_id leaf = Some data ∧ connector_data cout leaf data.
Proof.
  revert i m. induction leaves as [|leaf leaves IH]; intros i m; cbn [set_connectors]; [done|].
  rewrite fmap_cons, NoDup_cons. intros [Hnin Hnd] Hm.
  destruct (Hm leaf ltac:(by left)) as (data & Hl & Hdata). fold (leaf_id leaf). rewrite Hl.
  set (m1 := match outs !! i with Some out => _ | None => m end).
  assert (∀ id, id ≠ leaf_id leaf → m1 !! id = m !! id) as Hm1
    by (intros id Hid; unfold m1; case_match; [by apply lookup_insert_ne|done]).
  destruct (IH (S i) m1 Hnd) as [Hother Hin].
  { intros l Hin. assert (leaf_id l ≠ leaf_id leaf) as Hne.
    { intros Heq. apply Hnin. rewrite <- Heq. by apply (list_elem_of_fmap_2 leaf_id). }
    rewrite Hm1 by done. apply Hm. by right. }
  split.
  - intros id Hid. rewrite Hother by set_solver. apply Hm1. set_solver.
  - intros [|k] l cout Hk Hout; [|apply (Hin k); [done|by rewrite Nat.add_succ_r in Hout]].
    injection Hk as <-. rewrite Nat.add_0_r in Hout. exists (set_connector cout data).
    rewrite Hother by done. unfold m1. rewrite Hout. unfold leaf_id at 1.
    split; [apply lookup_insert_eq|].
    by destruct Hdata as (? & ? & _ & ?).
Qed.

(** ** What is signed *)

(** The signer was asked to sign [t], a spend of output 0 of [parent] and of the connector,
    for both these outputs, and the job sent to the operators carried the bytes of [t]. *)
Definition sent_and_connected (leaf : LeafKeyTweak) (connector : OutPoint) (cout : TxOut) (parent : Tx)
    (job : option ProtoSigningJob) : Prop :=
  ∃ t out seq h req share w1 w2,
    pj_raw_tx <$> job = Some (tx_serialize t) ∧ connected t parent out seq connector ∧
    taproot_sighash t 0 [out; cout] = Ok h ∧ sf_message req = h ∧
    sf_private_key req = signing_key leaf ∧ sign_frost req w1 = (w2, Ok share).

Lemma aggregated_connected leaf data parent t out seq connector cout job :
  aggregated data parent t → connector_data cout leaf data → connected t parent out seq connector →
  pj_raw_tx <$> job = Some (tx_serialize t) → sent_and_connected leaf connector cout parent job.
Proof.
  intros (nonce & adaptor & key & result & w & w' & sig & H) (_ & _ & Hconn & Hkey) [Hout Hin] Hjob.
  unfold aggregate_refund in H.
  apply se_bind_ok in H as (w1 & h & [-> Hh]%se_lift_ok & H%se_map_err_ok).
  unfold sign_aggregate_frost in H. apply se_bind_ok in H as (w2 & share & Hshare & _).
  unfold refund_sighash in Hh. rewrite Hconn, Hin in Hh.
  apply rbind_ok in Hh as (o & Ho%or_panic_ok & Hh%throws_ok). rewrite Hout in Ho. injection Ho as <-.
  unfold sighash_from_multi_input_tx in Hh. rewrite Hin in Hh.
  destruct (taproot_sighash t 0 [out; cout]) as [h'|] eqn:Hs; [|done]. injection Hh as ->.
  exists t, out, seq, h. eexists _, share, _, w2. split_and!; [done|by split|done| | |exact Hshare]; done.
Qed.

(** Every transaction of the job was signed. *)
Definition job_bound (leaf : LeafKeyTweak) (connector : OutPoint) (cout : TxOut)
    (job : LeafRefundTxSigningJob) : Prop :=
  sent_and_connected leaf connector cout (node_tx (lk_node leaf)) (lj_refund_tx_signing_job job) ∧
  sent_and_connected leaf connector cout (node_tx (lk_node leaf))
    (lj_direct_from_cpfp_refund_tx_signing_job job) ∧
  match direct_tx (lk_node leaf) with
  | Some dtx => sent_and_connected leaf connector cout dtx (lj_direct_refund_tx_signing_job job)
  | None => lj_direct_refund_tx_signing_job job = None
  end.

Lemma aggregate_bound leaf connector cout data job m r a1 a2 a3 w w' signatures :
  m !! leaf_id leaf = Some data → job_connects connector cout leaf data job →
  lr_leaf_id r = leaf_id leaf →
  sign_aggregate_refund m a1 a2 a3 r w = (w', Ok signatures) → job_bound leaf connector cout job.
Proof.
  intros Hl (_ & Hdata & old & refund & cs & ds & rtx & _ & _ & _ & (Hc & Hf & Hd) &
    Hd1 & Hd2 & Hd3 & Hj1 & Hj2 & Hj3) Hlr H.
  destruct (sign_aggregate_refund_calls _ _ _ _ _ _ _ _ _ _ Hl Hlr H) as ((t & Ht & Hagg) & Hdirect & Hfrom).
  destruct Hc as [out Hc], Hf as (fout & ft & Hft & Hf). pose proof Hdata as (Hrd & Hrdd & _).
  rewrite Hd1 in Ht. injection Ht as <-. specialize (Hfrom ft ltac:(by rewrite Hd3)).
  rewrite Hrd in Hagg, Hfrom. split_and!.
  - eapply aggregated_connected; [exact Hagg|exact Hdata|exact Hc|exact Hj1].
  - eapply aggregated_connected; [exact Hfrom|exact Hdata|exact Hf|]. by rewrite Hj3, Hft.
  - destruct (direct_tx (lk_node leaf)) as [dtx|] eqn:Hdtx, (rtx_direct_tx rtx) as [dr|] eqn:Hdr; try done.
    + destruct Hd as [dout Hd]. eapply aggregated_connected; [by apply Hdirect|exact Hdata|exact Hd|exact Hj2].
    + by destruct (lj_direct_refund_tx_signing_job job).
Qed.

(** The job of the [i]-th leaf as it is sent: one per leaf, timelocks lower than the refund's. *)
Definition exit_job (leaf : LeafKeyTweak) (connector : OutPoint) (job : LeafRefundTxSigningJob) : Prop :=
  lj_leaf_id job = leaf_id leaf ∧
  ∃ old refund t out seq, refund_tx (lk_node leaf) = Some refund ∧ input0_sequence refund = Some old ∧
    pj_raw_tx <$> lj_refund_tx_signing_job job = Some (tx_serialize t) ∧
    connected t (node_tx (lk_node leaf)) out seq connector ∧ timelock seq < timelock old.

Lemma job_connects_sent connector cout leaf data job :
  job_connects connector cout leaf data job → exit_job leaf connector job.
Proof.
  intros (Hid & _ & old & refund & cs & ds & rtx & Href & Hold & Hlt & ([out Hc] & _) & _ & _ & _ & Hj & _).
  split; [done|]. exists old, refund, (rtx_cpfp_tx rtx), out, cs. split_and!; [done..|lia].
Qed.

Definition connector_of (txid : Txid) (i : nat) : OutPoint :=
  {| op_txid := txid; op_vout := wrap 32 (Z.of_nat i) |}.

(** C20: the refunds of a cooperative exit are bound to its connectors.  For leaves with
    distinct ids and a connector transaction with an output for each, when the refunds are
    signed the coordinator was sent the connector transaction, the transaction of the exit and
    one job per leaf, whose refund spends output 0 of the leaf and the connector of its own
    index and unlocks before the refund the leaf has; and every result aggregated belongs to one
    of the leaves, for which the signer signed, with the key of the leaf, the transactions of
    that job for the outputs of the leaf and of the connector: without the connector no
    signature of the exit lets the service provider take a leaf. *)
Theorem coop_exit_refunds_bound leaves connector_txid txid id raw ctx w w' s :
  sign_coop_exit_refunds self leaves connector_txid txid id raw w = (w', Ok s) →
  deserialize raw = Some ctx → NoDup (leaf_id <$> leaves) → (length leaves ≤ length (output ctx))%nat →
  ∃ op req t response w1 w2,
    cooperative_exit_v2 op req w1 = (w2, Ok response) ∧
    ce_transfer req = Some t ∧ rq_transfer_id t = Uuid_to_string id ∧
    connector_tx req = raw ∧ exit_txid req = txid_bytes txid ∧
    length (rq_leaves_to_send t) = length leaves ∧
    (∀ i leaf job, leaves !! i = Some leaf → rq_leaves_to_send t !! i = Some job →
       exit_job leaf (connector_of connector_txid i) job) ∧
    ∀ r, r ∈ signing_results response → ∃ i leaf job cout,
      leaves !! i = Some leaf ∧ rq_leaves_to_send t !! i = Some job ∧ output ctx !! i = Some cout ∧
      lr_leaf_id r = leaf_id leaf ∧ job_bound leaf (connector_of connector_txid i) cout job.
Proof using blocks_encoding.
  unfold sign_coop_exit_refunds, of_signer. intros H Hctx Hnd Hlen.
  apply se_bind_ok in H as (w1 & m & Hm%se_map_err_ok & H).
  destruct (leaf_data_ok _ _ _ _ _ _ Hm Hnd) as [Hdom Hdata].
  apply se_bind_ok in H as (w2 & ctx' & [_ Hctx'%ok_or_ok]%throws_lift_ok & H).
  rewrite Hctx in Hctx'. injection Hctx' as <-.
  destruct (set_connectors_ok 0 leaves (output ctx) m Hnd Hdata) as [Hdom' Hconn].
  destruct (prepare_refund_so_signing_jobs_with_tx_constructor _ _ _ _) as [m1 jobs'] eqn:Hjobs.
  apply se_bind_ok in H as (w3 & jobs & [-> ->]%se_lift_ok & H).
  apply (prepare_refund_jobs_each blocks_encoding signing_key _ _
           (λ i leaf data, ∃ cout, output ctx !! i = Some cout ∧ connector_data cout leaf data)
           (λ i leaf data job, ∃ cout, output ctx !! i = Some cout ∧
              job_connects (connector_of connector_txid i) cout leaf data job)) in Hjobs
    as (Hother & Hjlen & Hall); [|by intros i ? ? ? ? ? (cout & ? & ?); exists cout; split;
                                   [|by eapply connector_signing_job_ok]|done|].
  2: { intros k leaf Hk. destruct (lookup_lt_is_Some_2 (output ctx) k) as [cout Hcout];
         [apply lookup_lt_Some in Hk; lia|].
       destruct (Hconn k leaf cout Hk Hcout) as (data & ? & ?). exists data. split; [done|]. by exists cout. }
  do 5 (apply se_bind_ok in H as (? & ? & _ & H)).
  apply se_bind_ok in H as (w5 & response & Hresponse%se_map_err_ok & H).
  do 2 (apply se_bind_ok in H as (? & ? & _ & H)).
  apply se_bind_ok in H as (w6 & signed & Hsigned%sign_aggregate_refunds_each & _).
  eexists _, _, _, response, _, w5. split; [exact Hresponse|]. split; [reflexivity|].
  split_and!; [done..| |]; cbn [rq_leaves_to_send].
  - intros i leaf job Hi Hj. destruct (Hall i leaf job Hi Hj) as (data & _ & cout & _ & Hc).
    by eapply job_connects_sent.
  - intros r Hin. apply list_elem_of_lookup in Hin as [j Hj].
    destruct (Forall2_lookup_l _ _ _ _ _ Hsigned Hj) as (sig & _ & w7 & w8 & Hs).
    destruct (sign_aggregate_refund_leaf _ _ _ _ _ _ _ _ Hs) as [d Hd].
    destruct (decide (lr_leaf_id r ∈ leaf_id <$> leaves)) as [Hid|Hid];
      [|by rewrite Hother, Hdom', Hdom, lookup_empty in Hd].
    apply list_elem_of_fmap in Hid as (leaf & Hid & [i Hi]%list_elem_of_lookup).
    destruct (lookup_lt_is_Some_2 jobs i) as [job Hjob]; [apply lookup_lt_Some in Hi; lia|].
    destruct (Hall i leaf job Hi Hjob) as (data & Hl & cout & Hcout & Hc).
    exists i, leaf, job, cout. do 4 (split; [done|]). by eapply aggregate_bound.
Qed.
End bound.

(** ** The steps of an exit *)

Section steps.
Context {ho : HashOrder} {bt : BitcoinTypes} {bo : BitcoinOps} {ao : AddressOps} {ak : AddressKeys}
  {tx : TokenTextOps} {b11 : Bolt11Ops} {W : Type} {se : SignerEnv W} {fs : FrostSigner W}
  {tt : TransferTypes} {sh : ShareTypes} {sg : TransferSigner W} {top : TransferOperators W}
  {eo : ExchangeOperators W} {ssp : SspClient W} {ob : ExchangeObserver W} {env : ExchangeEnv W}
  {lg : Log W ExchangeEvent} {ll : ExchangeLogLaws}.
Context (self : TransferService).

#[local] Hint Resolve quiet_now quiet_new_key quiet_split_preimage : quiet.

Lemma sign_exit_once leaves connector_txid txid id raw :
  emits (sign_coop_exit_refunds self leaves connector_txid txid id raw) (λ r l,
    l = [] ∧ is_ok r = false ∨
    l = [ExitSigned (Uuid_to_string id) raw true] ∨
    l = [ExitSigned (Uuid_to_string id) raw false] ∧ is_ok r = false).
Proof using ll.
  unfold sign_coop_exit_refunds.
  assert (∀ m, quiet (of_signer (prepare_leaf_refund_signing_data leaves ssp_identity_public_key m))) as Hdata.
  { intros m. unfold of_signer. apply quiet_map_err. revert m.
    induction leaves; intros m; cbn [prepare_leaf_refund_signing_data];
      unfold leaf_refund_signing_data, random_commitment; silence. }
  apply quiet_bind; [apply Hdata|by left|]. intros data.
  pass. intros ctx. destruct (prepare_refund_so_signing_jobs_with_tx_constructor _ _ _ _) as [m jobs].
  do 6 (pass; intros ?). apply emits_bind. unfold of_rpc. apply emits_map_err.
  eapply emits_conseq; [apply log_exit_signed|].
  intros [response|e] l ->; simpl; [|by right; right].
  eapply (emits_conseq _ (λ _ l, l = [])); [|intros r l ->; by right; left].
  hush.
Qed.

Lemma deliver_once transfer leaves signatures :
  emits (deliver_transfer_package self transfer leaves signatures) (λ r l,
    l = [] ∧ is_ok r = false ∨
    l = [PackageDelivered (Uuid_to_string (t_id transfer)) true] ∨
    l = [PackageDelivered (Uuid_to_string (t_id transfer)) false] ∧ is_ok r = false).
Proof using ll.
  unfold deliver_transfer_package.
  apply (emits_run _ _ (λ _ l, l = [])); [hush|by intros e l ->; left|].
  intros p l w w' -> Hp. assert (rq_transfer_id (transfer_request p) = Uuid_to_string (t_id transfer)) as Hid.
  { unfold prepare_transfer_request in Hp. do 4 (apply se_bind_ok in Hp as (? & ? & _ & Hp)).
    by injection Hp as _ <-. }
  pass. intros op. apply emits_bind. unfold of_rpc. apply emits_map_err.
  eapply emits_conseq; [apply log_delivered|]. cbn [fr_transfer_id]. rewrite Hid.
  intros [response|e] l ->; simpl; [|by right; right].
  eapply (emits_conseq _ (λ _ l, l = [])); [|intros r l ->; by right; left].
  hush.
Qed.

(** What the operators see of an exit, the SSP's completion left out. *)
Definition exit_delivery (id : Uuid) (raw : list Z) (r : result CoopExitRefundSignatures (exn ServiceError))
    (l : list ExchangeEvent) : Prop :=
  let signed := ExitSigned (Uuid_to_string id) raw in
  ((l = [] ∨ l = [signed false] ∨ l = [signed true] ∨ ∃ t, l = [signed true; PackageDelivered t false]) ∧
   is_ok r = false) ∨
  ∃ t, l = [signed true; PackageDelivered t true].

Lemma exit_delivered leaves connector_txid txid id raw :
  emits (get_connector_refund_signatures self leaves connector_txid txid id raw) (exit_delivery id raw).
Proof using ll.
  unfold get_connector_refund_signatures. apply emits_bind.
  eapply emits_conseq; [apply sign_exit_once|].
  intros [s|e] l Hl; [|left; split; [|done]; intuition].
  destruct Hl as [[_ ?]|[->|[_ ?]]]; try done. apply emits_bind.
  eapply emits_conseq; [apply deliver_once|]. intros [t|e] l [[-> Hr]|[->|[-> Hr]]]; try done.
  - apply emits_ret. right. simpl. by eexists.
  - left. split; [|done]. by do 2 right; left.
  - right. by eexists.
  - left. split; [|done]. do 3 right. by eexists.
Qed.

(** What the SSP is asked for an exit. *)
Definition exit_input (params : CoopExitParams) (id : Uuid) : RequestCoopExitInput :=
  {| leaf_external_ids := tn_id <$> cp_leaves params;
     rx_withdrawal_address := withdrawal_address params;
     rx_idempotency_key := None;
     rx_exit_speed := exit_speed params;
     rx_withdraw_all := withdraw_all params;
     fee_leaf_external_ids := (λ l : list TreeNode, tn_id <$> l) <$> fee_leaves params;
     rx_fee_quote_id := fee_quote_id params;
     rx_user_outbound_transfer_external_id := Some (Uuid_to_string id) |}.

(** The answer [request] of the SSP to that, with the bytes of its connector transaction. *)
Definition exit_answer (params : CoopExitParams) (id : Uuid) (request : CoopExitRequest) (raw : list Z) : Prop :=
  (∃ w w', request_coop_exit (exit_input params id) w = (w', Ok request)) ∧
  hex_decode (raw_connector_transaction request) = Some raw ∧ is_Some (deserialize raw).

(** What an exit adds to the log. Behind the signing and the delivery, which ended in the world
    [w] with [signed]: they failed, and an exit that succeeds nevertheless returns the transfer of
    the caller's id, recovered; or they succeeded, and the exit succeeds exactly when the SSP
    accepts its completion. *)
Definition exit_steps (params : CoopExitParams) (r : result Transfer (exn ServiceError))
    (l : list ExchangeEvent) : Prop :=
  (l = [] ∧ is_ok r = false) ∨
  ∃ id, id_for (cp_transfer_id params) id ∧
    ((l = [ExitRequested (exit_input params id)] ∧ is_ok r = false) ∨
     ∃ request raw rest tweaks connector_txid exit_txid w0 w signed,
       exit_answer params id request raw ∧
       get_connector_refund_signatures self tweaks connector_txid exit_txid id raw w0 = (w, signed) ∧
       exit_delivery id raw signed rest ∧
       match signed with
       | Err x => l = ExitRequested (exit_input params id) :: rest ∧
           ∀ t, r = Ok t → cp_transfer_id params = Some id ∧ ∃ e, x = Throw e ∧ recovered self id e w t
       | Ok s => ∃ accepted, l = ExitRequested (exit_input params id) :: rest
             ++ [ExitCompleted (Uuid_to_string (t_id (cs_transfer s))) (cx_id request) accepted] ∧
           is_ok r = accepted ∧ ∀ t, r = Ok t → t = cs_transfer s
       end).

(** The end of an exit, behind the delivery of its refunds. *)
Definition exit_end (params : CoopExitParams) (request : CoopExitRequest)
    (signed : result CoopExitRefundSignatures (exn ServiceError)) : SE W (exn ServiceError) Transfer :=
  match cp_transfer_id params, signed with
  | _, Ok s =>
      do* _ := of_ssp (complete_coop_exit (Uuid_to_string (t_id (cs_transfer s))) (cx_id request)) in
      se_ret (cs_transfer s)
  | Some transfer_id, Err (Throw e) => recover_transfer_on_rpc_connection_error self transfer_id e
  | _, Err e => se_fail e
  end.

Lemma exit_end_ok params request signed w w' r :
  exit_end params request signed w = (w', r) →
  match signed with
  | Err x => log w' = log w ∧
      ∀ t, r = Ok t → ∃ id e, cp_transfer_id params = Some id ∧ x = Throw e ∧ recovered self id e w t
  | Ok s => ∃ accepted,
      log w' = log w ++ [ExitCompleted (Uuid_to_string (t_id (cs_transfer s))) (cx_id request) accepted] ∧
      is_ok r = accepted ∧ ∀ t, r = Ok t → t = cs_transfer s
  end.
Proof using ll.
  intros H. destruct signed as [s|x].
  - assert (∃ r1, of_ssp (complete_coop_exit (Uuid_to_string (t_id (cs_transfer s))) (cx_id request)) w = (w', r1) ∧
      is_ok r = is_ok r1 ∧ ∀ t, r = Ok t → t = cs_transfer s) as (r1 & Hr1 & Hok & Ht).
    { unfold exit_end in H. assert ((do* _ := of_ssp (complete_coop_exit (Uuid_to_string (t_id (cs_transfer s))) (cx_id request)) in
        se_ret (cs_transfer s)) w = (w', r)) as H' by (by destruct (cp_transfer_id params)).
      apply bind_run in H' as [(e & Hr1 & ->)|(c & w1 & Hr1 & [= <- <-])]; eexists; split_and!; [exact Hr1|done..|].
      by intros t [= <-]. }
    assert (emits (of_ssp (complete_coop_exit (Uuid_to_string (t_id (cs_transfer s))) (cx_id request)))
      (λ x l, l = [ExitCompleted (Uuid_to_string (t_id (cs_transfer s))) (cx_id request) (is_ok x)])) as Hlog.
    { apply emits_map_err. eapply emits_conseq; [apply log_completed|]. intros x l ->. by rewrite is_ok_map_err. }
    destruct (Hlog _ _ _ Hr1) as (l & Hl & ->). exists (is_ok r1). by rewrite Hl.
  - unfold exit_end in H. destruct (cp_transfer_id params) as [g|]; [destruct x as [|e]|];
      [by injection H as <- <-| |by injection H as <- <-].
    apply recover_run in H as [Hl Hr]. split; [done|]. intros t Ht. exists g, e. split_and!; [done..|]. by apply Hr.
Qed.

(** C24: a cooperative exit asks the SSP once, for the leaves, the address and the transfer id
    of the exit; shows the operators the connector transaction of the SSP's answer and nothing
    else; delivers the transfer package only after they accepted the exit's refunds; and asks the
    SSP to complete the exit, for that answer, only after they accepted the package.  Then it
    succeeds exactly when the SSP accepts the completion, with the transfer that was delivered.
    It succeeds otherwise only when the signing or the delivery failed with a connection error
    of status Internal or AlreadyExists and the caller gave the id: the result is the
    transfer that the coordinator named when it was then queried for the transfers of that id;
    such a recovered exit is not completed with the SSP. *)
Theorem coop_exit_completes_what_was_delivered params w w' r :
  coop_exit self params w = (w', r) → ∃ l, log w' = log w ++ l ∧ exit_steps params r l.
Proof using ll.
  enough (emits (coop_exit self params) (exit_steps params)) as H by exact (H w w' r).
  assert (∀ e, exit_steps params (Err e) []) as Hstop by (by left).
  unfold coop_exit. apply fresh_id_quiet; [done|]. intros id Hid.
  assert (quiet (exit_notify id (withdrawal_address params) (cp_leaves params))) as Hnotify.
  { unfold exit_notify. destruct before_coop_exit as [f|] eqn:Hf; [|silence].
    apply quiet_map_err. by apply quiet_exit_observer. }
  apply quiet_bind; [exact Hnotify|done|]. intros _. pass. intros tweaks. fold (exit_input params id).
  assert (∀ e, exit_steps params (Err e) [ExitRequested (exit_input params id)]) as Hasked.
  { intros e. right. exists id. split; [done|]. by left. }
  apply (emits_run _ _ (λ _ l, l = [ExitRequested (exit_input params id)]));
    [unfold of_ssp; apply emits_map_err; eapply emits_conseq; [apply log_exit|done]|by intros e l ->|].
  intros request l w0 w1 -> Hrequest%se_map_err_ok. unfold of_service.
  apply lift_bind; [done|]. intros raw Hraw%throws_ok%ok_or_ok.
  apply lift_bind; [done|]. intros ctx Hctx%throws_ok%ok_or_ok.
  apply lift_bind; [done|]. intros inp _.
  assert (exit_answer params id request raw) as Hanswer by (split_and!; [by exists w0, w1|done|by exists ctx]).
  eapply emits_try_run; [apply exit_delivered|]. intros signed rest v w1' Hrest Hsigned w2 r2 Hend.
  apply exit_end_ok in Hend. destruct signed as [s|x].
  - destruct Hend as (accepted & Hl & Hr & Ht). eexists. split; [exact Hl|]. right. exists id. split; [done|].
    right. do 9 eexists. split; [exact Hanswer|]. split; [exact Hsigned|]. split; [exact Hrest|]. by exists accepted.
  - destruct Hend as [Hl Ht]. exists []. rewrite app_nil_r. split; [exact Hl|]. right. exists id. split; [done|].
    right. do 9 eexists. split; [exact Hanswer|]. split; [exact Hsigned|]. split; [exact Hrest|]. split; [by rewrite ?app_nil_r|].
    intros t (g & e & Hg & -> & Hrec)%Ht. assert (id = g) as -> by (by apply Hid). split; [done|]. by exists e.
Qed.
End steps.

(** ** At concrete inputs *)
Module Example.
Import AddressesProps.Example ExchangesProps.Example.
#[local] Existing Instance canonical_order.
#[local] Existing Instance example_bitcoin.
#[local] Existing Instance example_bitcoin_ops.

Definition connector : Tx := example_tx 77 0 300.

Lemma coop_exit_refunds_bound_witness :
  let ls := [leaf_key "a"; leaf_key "b"] in
  let txid : @Txid example_bitcoin := 11 in
  let exit : @Txid example_bitcoin := 12 in
  ∃ w' s, sign_coop_exit_refunds service ls txid exit (1 : @Uuid _ types) connector_bytes begin = (w', Ok s) ∧
    ∃ op req t response (w1 w2 : world),
      cooperative_exit_v2 op req w1 = (w2, Ok response) ∧
      ce_transfer req = Some t ∧ rq_transfer_id t = Uuid_to_string (1 : @Uuid _ types) ∧
      connector_tx req = connector_bytes ∧ exit_txid req = txid_bytes (W := world) exit ∧
      length (rq_leaves_to_send t) = 2%nat ∧
      (∀ i leaf job, ls !! i = Some leaf → rq_leaves_to_send t !! i = Some job →
         exit_job leaf (connector_of txid i) job) ∧
      ∀ r, r ∈ signing_results response → ∃ i leaf job cout,
        ls !! i = Some leaf ∧ rq_leaves_to_send t !! i = Some job ∧ output connector !! i = Some cout ∧
        lr_leaf_id r = leaf_id leaf ∧ job_bound leaf (connector_of txid i) cout job.
Proof.
  intros ls txid exit.
  assert (is_ok (sign_coop_exit_refunds service ls txid exit (1 : @Uuid _ types) connector_bytes begin).2 = true)
    as Hok by (vm_compute; reflexivity).
  destruct (sign_coop_exit_refunds service ls txid exit _ connector_bytes begin) as [w' [s|e]] eqn:H; [|done].
  exists w', s. split; [reflexivity|].
  apply (coop_exit_refunds_bound (bo := example_bitcoin_ops) service (λ b _, eq_refl) ls txid exit
           (1 : @Uuid _ types) connector_bytes connector begin w' s H).
  - reflexivity.
  - apply (bool_decide_eq_true_1 _). vm_compute. reflexivity.
  - vm_compute. lia.
Defined.

Definition params : CoopExitParams :=
  {| cp_leaves := [node "a"]; withdrawal_address := "bcrt1"; withdraw_all := false; exit_speed := Fast;
     fee_quote_id := Some "quote"; fee_leaves := Some [node "b"]; cp_transfer_id := Some (1 : @Uuid _ types) |}.

Lemma coop_exit_completes_what_was_delivered_witness :
  ∃ w' t, coop_exit service params begin = (w', Ok t) ∧
    ∃ l, log w' = log begin ++ l ∧ exit_steps (W := world) service params (Ok t) l.
Proof.
  assert (is_ok (coop_exit service params begin).2 = true) as Hok by (vm_compute; reflexivity).
  destruct (coop_exit service params begin) as [w' [t|e]] eqn:H; [|done].
  exists w', t. split; [reflexivity|].
  exact (coop_exit_completes_what_was_delivered service params begin w' (Ok t) H).
Defined.
End Example.
