(* ===== verification/DepositService.v ===== *)
(** The deposit service ([crates/spark/src/services/deposit.rs]): deposit addresses and their
    proofs, the tree made of a deposit, claims and refunds of static deposits, with the
    functions of [bitcoin/service.rs] it uses and [Utxo::from_proto] of [services/models.rs].

    Addresses, signatures and key arithmetic of rust-bitcoin are the class [DepositOps], the
    calls of the operators, the SSP and the signer [DepositCalls]; the rest is that of
    [Transfers] and [ExchangeModels], whose service [self] has the network and the pool. *)
From stdpp Require Import base gmap strings list pretty.
From S2P Require Import Prelude Timelocks TreeTypes Payments Transactions Bytes Paging Addresses TokenTx Signing TransferModels Futures Transfers ExchangeModels Htlcs Lightning.

Definition CLAIM_STATIC_DEPOSIT_ACTION : string := "claim_static_deposit".
Definition MIN_REFUND_FEE_SATS : Z := 194.
Definition SCHNORR_SIG_WITNESS_VBYTES : Z := 17.

(** ** Collaborators *)

Class DepositOps {bt : BitcoinTypes} {bo : BitcoinOps} := {
  Address : Type;
  Address_eq_dec :: EqDecision Address;
  (** [Address<NetworkUnchecked>] and its parser; [None] is any error. *)
  UncheckedAddress : Type;
  Address_parse : string → option UncheckedAddress;
  require_network : UncheckedAddress → BtcNetwork → option Address;
  Address_from_script : ScriptBuf → BtcNetwork → option Address;
  Address_to_string : Address → string;
  Address_script_pubkey : Address → ScriptBuf;
  minimal_non_dust : ScriptBuf → Z;
  vsize : Tx → Z;
  Txid_from_str : string → option Txid;
  Txid_to_string : Txid → string;
  (** Schnorr signatures: [from_slice], [verify_schnorr]. *)
  Schnorr : Type;
  schnorr_from_slice : list Z → option Schnorr;
  schnorr_valid : Schnorr → list Z → XOnlyKey → bool;
  (** [x_only_public_key.tap_tweak(secp, None).to_x_only_public_key()]. *)
  tap_tweak : XOnlyKey → XOnlyKey;
  key_negate : SecpPublicKey → SecpPublicKey;
  (** [combine]; the error is a text. *)
  key_combine : SecpPublicKey → SecpPublicKey → result SecpPublicKey string
}.

(** [operator_rpc::spark::Utxo], an address UTXO and a page. *)
Record ProtoUtxo : Type := {
  px_raw_tx : list Z;
  px_vout : Z;
  px_network : Z;
  px_txid : list Z
}.
Record ProtoAddressUtxo : Type := { pa_utxo : option ProtoUtxo; pa_is_confirmed : bool }.
Record ProtoPageResponse : Type := { has_next_page : bool; next_cursor : string }.

Record GetUtxosForIdentityRequest : Type := {
  gu_identity_public_key : list Z;
  gu_network : Z;
  gu_exclude_claimed : bool;
  gu_page_size : Z;
  gu_cursor : string;
  gu_include_pending : bool
}.

(** [operator_rpc::spark::Address] with its proof, and the results of queries. *)
Record DepositAddressProof : Type := {
  address_signatures : gmap string (list Z);
  proof_of_possession_signature : list Z
}.
Record ProtoDepositAddress : Type := {
  pd_address : string;
  pd_verifying_key : list Z;
  deposit_address_proof : option DepositAddressProof
}.
Record DepositAddressQueryResult : Type := {
  dq_deposit_address : string;
  dq_user_signing_public_key : list Z;
  dq_verifying_public_key : list Z;
  dq_leaf_id : option string
}.

Record GenerateDepositAddressRequest : Type := {
  gd_signing_public_key : list Z;
  gd_identity_public_key : list Z;
  gd_network : Z;
  gd_leaf_id : option string;
  gd_hash_variant : HashVariant
}.
Record RotateStaticDepositAddressRequest : Type := {
  rd_signing_key : list Z;
  rd_network : Z;
  rd_hash_variant : HashVariant
}.
Record QueryDepositAddressesRequest : Type := {
  qd_identity_public_key : list Z;
  qd_network : Z;
  qd_offset : Z;
  qd_limit : Z
}.

Inductive ClaimStaticDepositRequestType : Type := FixedAmount | MaxFeeRequest.

Record ClaimStaticDepositInput : Type := {
  ci_transaction_id : string;
  ci_output_index : Z;
  ci_network : BitcoinNetwork;
  ci_credit_amount_sats : option Z;
  ci_request_type : ClaimStaticDepositRequestType;
  ci_max_fee_sats : option Z;
  ci_deposit_secret_key : string;
  ci_quote_signature : string;
  ci_signature : string
}.

(** [ssp::StaticDepositQuote]. *)
Record SspStaticDepositQuote : Type := {
  sd_transaction_id : string;
  sd_output_index : Z;
  sd_network : BitcoinNetwork;
  sd_credit_amount_sats : Z;
  sd_signature : string
}.

Section messages.
Context {bt : BitcoinTypes} {W : Type} {se : SignerEnv W}.

Record StartDepositTreeCreationRequest : Type := {
  sc_identity_public_key : list Z;
  sc_on_chain_utxo : option ProtoUtxo;
  sc_root_tx_signing_job : option ProtoSigningJob;
  sc_refund_tx_signing_job : option ProtoSigningJob;
  sc_direct_from_cpfp_refund_tx_signing_job : option ProtoSigningJob
}.

(** [NodeSignatureShares]. *)
Record RootSignatureShares : Type := {
  rs_node_id : string;
  rs_node_tx_signing_result : option ProtoSigningResult;
  rs_refund_tx_signing_result : option ProtoSigningResult;
  rs_direct_from_cpfp_refund_tx_signing_result : option ProtoSigningResult;
  rs_verifying_key : list Z
}.

Record UtxoRefundRequest : Type := {
  ur_on_chain_utxo : option ProtoUtxo;
  ur_user_signature : list Z;
  ur_refund_tx_signing_job : option ProtoSigningJob
}.

(** The result and the verifying key of the deposit address. *)
Record UtxoRefundResponse : Type := {
  uf_refund_tx_signing_result : option ProtoSigningResult;
  uf_verifying_public_key : option (list Z)
}.
End messages.

Class DepositCalls {bt : BitcoinTypes} (W : Type) {se : SignerEnv W} {tt : TransferTypes} := {
  get_utxos_for_identity_rpc :
    Operator → GetUtxosForIdentityRequest →
    SE W OperatorRpcError (list ProtoAddressUtxo * option ProtoPageResponse);
  start_deposit_tree_creation :
    Operator → StartDepositTreeCreationRequest → SE W OperatorRpcError (option RootSignatureShares);
  (** [finalize_node_signatures_v2] with the intent [Creation]. *)
  finalize_created_nodes : Operator → list NodeSignatures → SE W OperatorRpcError (list ProtoTreeNode);
  generate_deposit_address_rpc :
    Operator → GenerateDepositAddressRequest → SE W OperatorRpcError (option ProtoDepositAddress);
  generate_static_deposit_address_rpc :
    Operator → GenerateDepositAddressRequest → SE W OperatorRpcError (option ProtoDepositAddress);
  rotate_static_deposit_address_rpc :
    Operator → RotateStaticDepositAddressRequest → SE W OperatorRpcError (option ProtoDepositAddress);
  query_static_deposit_addresses_rpc :
    Operator → QueryDepositAddressesRequest → SE W OperatorRpcError (list DepositAddressQueryResult);
  query_unused_deposit_addresses_rpc :
    Operator → QueryDepositAddressesRequest → SE W OperatorRpcError (list DepositAddressQueryResult * Z);
  initiate_static_deposit_utxo_refund :
    Operator → UtxoRefundRequest → SE W OperatorRpcError UtxoRefundResponse;
  (** The SSP: the id of the transfer; the quote. *)
  claim_static_deposit_request : ClaimStaticDepositInput → SE W SspError string;
  get_claim_deposit_quote : string → Z → BitcoinNetwork → SE W SspError SspStaticDepositQuote;
  (** The signer, by the index of the static deposit key. *)
  static_deposit_secret : Z → SE W SignerError (list Z);
  static_deposit_secret_encrypted : Z → SE W SignerError SecretSource;
  static_deposit_signing_key : Z → SE W SignerError SecpPublicKey;
  (** [ecdsa::Signature::from_str], [TapSighash::as_byte_array]. *)
  ecdsa_from_str : string → option EcdsaSignature;
  sighash_bytes : Sighash → list Z
}.

(** ** Data *)

Inductive Fee : Type := Fixed (amount : Z) | Rate (sat_per_vbyte : Z).

Definition to_sats (f : Fee) (vbytes : Z) : Z :=
  match f with Fixed amount => amount | Rate sat_per_vbyte => wmul 64 sat_per_vbyte vbytes end.

Inductive UtxoSwapRequestType : Type := SwapFixed | SwapMaxFee | SwapRefund.

(** [as u8]. *)
Definition request_type_byte (t : UtxoSwapRequestType) : Z :=
  match t with SwapFixed => 0 | SwapMaxFee => 1 | SwapRefund => 2 end.

Definition from_proto_network (n : Z) : result Network string :=
  if n =? 1 then Ok Mainnet else if n =? 2 then Ok Regtest else if n =? 3 then Ok Testnet
  else if n =? 4 then Ok Signet else Err "Invalid network".

(** A call in pages, then a step: [None] when the fuel runs out. *)
Definition fuel_bind {W E A B} (m : W → W * option (result A E)) (k : A → SE W E B) (w : W)
    : W * option (result B E) :=
  match m w with
  | (w, None) => (w, None)
  | (w, Some (Err e)) => (w, Some (Err e))
  | (w, Some (Ok a)) => let '(w, r) := k a w in (w, Some r)
  end.

Section data.
Context {bt : BitcoinTypes} {bo : BitcoinOps} {dop : DepositOps} {W : Type} {se : SignerEnv W}
  {tt : TransferTypes} {tx : TokenTextOps} {dc : DepositCalls W}.

Record StaticDepositAddress : Type := {
  sa_address : Address;
  sa_user_signing_public_key : SecpPublicKey;
  sa_verifying_public_key : SecpPublicKey
}.

Record SingleUseDepositAddress : Type := {
  su_address : Address;
  su_user_signing_public_key : SecpPublicKey;
  su_verifying_public_key : SecpPublicKey;
  su_leaf_id : TreeNodeId
}.

Record StaticDepositQuote : Type := {
  sq_txid : Txid;
  sq_output_index : Z;
  sq_credit_amount_sats : Z;
  sq_signature : EcdsaSignature
}.

Record Utxo : Type := {
  utxo_tx : option Tx;
  utxo_vout : Z;
  utxo_network : Network;
  utxo_txid : Txid;
  utxo_is_mature : bool
}.

Definition Utxo_from_proto (utxo : ProtoUtxo) (is_mature : bool) : result Utxo ServiceError :=
  let* network := map_err (λ _, InvalidNetwork (px_network utxo)) (from_proto_network (px_network utxo)) in
  let* txid := ok_or (Txid_from_str (hex_encode (px_txid utxo))) InvalidTransaction in
  Ok {| utxo_tx := deserialize (px_raw_tx utxo); utxo_vout := px_vout utxo; utxo_network := network;
        utxo_txid := txid; utxo_is_mature := is_mature |}.

Definition checked_address (text : string) (network : Network) : result Address ServiceError :=
  let* address := ok_or (Address_parse text) InvalidDepositAddress in
  ok_or (require_network address (BtcNetwork_from network)) InvalidDepositAddressNetwork.

Definition parse_deposit_address_result (r : DepositAddressQueryResult) (network : Network)
    : result (Address * SecpPublicKey * SecpPublicKey) ServiceError :=
  let* address := checked_address (dq_deposit_address r) network in
  let* user := ok_or (key_from_slice (dq_user_signing_public_key r)) InvalidDepositAddressProof in
  let* verifying := ok_or (key_from_slice (dq_verifying_public_key r)) InvalidDepositAddressProof in
  Ok (address, user, verifying).

Definition StaticDepositAddress_try_from (r : DepositAddressQueryResult) (network : Network)
    : result StaticDepositAddress ServiceError :=
  let* (address, user, verifying) := parse_deposit_address_result r network in
  Ok {| sa_address := address; sa_user_signing_public_key := user; sa_verifying_public_key := verifying |}.

Definition SingleUseDepositAddress_try_from (r : DepositAddressQueryResult) (network : Network)
    : result SingleUseDepositAddress ServiceError :=
  let* id := ok_or (dq_leaf_id r) MissingLeafId in
  let* leaf_id := map_err InvalidNodeId (TreeNodeId_from_str id) in
  let* (address, user, verifying) := parse_deposit_address_result r network in
  Ok {| su_address := address; su_user_signing_public_key := user; su_verifying_public_key := verifying;
        su_leaf_id := leaf_id |}.

(** The index is an [i64] of the SSP, an [u32] here. *)
Definition StaticDepositQuote_try_from (quote : SspStaticDepositQuote) : result StaticDepositQuote ServiceError :=
  let* txid := ok_or (Txid_from_str (sd_transaction_id quote)) InvalidTransaction in
  let* signature := ok_or (ecdsa_from_str (sd_signature quote)) InvalidSignatureShare in
  Ok {| sq_txid := txid; sq_output_index := wrap 32 (sd_output_index quote);
        sq_credit_amount_sats := sd_credit_amount_sats quote; sq_signature := signature |}.

(** ** [BitcoinService] *)

Definition compute_taproot_key_no_script (pubkey : SecpPublicKey) : XOnlyKey :=
  tap_tweak (Transactions.x_only_public_key pubkey).

Definition subtract_public_keys (a b : SecpPublicKey) : result SecpPublicKey string :=
  key_combine a (key_negate b).
End data.

Section service.
Context {ho : HashOrder} {bt : BitcoinTypes} {bo : BitcoinOps} {ao : AddressOps} {tx : TokenTextOps}
  {dop : DepositOps} {W : Type} {se : SignerEnv W} {fs : FrostSigner W} {tt : TransferTypes}
  {sh : ShareTypes} {sg : TransferSigner W} {top : TransferOperators W} {ssp : SspClient W}
  {env : ExchangeEnv W} {dc : DepositCalls W}.
(** The network and the pool; [self.identity_public_key]. *)
Context (self : TransferService) (identity_public_key : SecpPublicKey).

Abbreviation Fault := (exn ServiceError).
Abbreviation M A := (SE W Fault A).

(** ** Addresses and their proofs *)

Definition proof_of_possession_message_hash (operator_public_key : SecpPublicKey) (address : Address)
    : list Z :=
  hash sha256
    (add_bytes (add_bytes (add_bytes
       (TaggedHasher_new sha256 [as_bytes "spark"; as_bytes "deposit"; as_bytes "proof_of_possession"])
       (key_serialize identity_public_key)) (key_serialize operator_public_key))
       (as_bytes (Address_to_string address))).

(** The signature of one operator over the hash of the address. *)
Definition operator_signed (address_hash : list Z) (proof : DepositAddressProof) (operator : Operator)
    : result () ServiceError :=
  let* bytes := ok_or (address_signatures proof !! hex_encode (Identifier_serialize (op_identifier operator)))
                  InvalidDepositAddressProof in
  let* operator_sig := ok_or (ecdsa_from_der bytes) InvalidDepositAddressProof in
  match verify_ecdsa address_hash operator_sig (op_identity_public_key operator) with
  | None => Ok ()
  | Some _ => Err InvalidDepositAddressProof
  end.

Fixpoint check_operators (coordinator_identifier : FrostIdentifier) (verify_coordinator_proof : bool)
    (address_hash : list Z) (proof : DepositAddressProof) (ops : list Operator) : result () ServiceError :=
  match ops with
  | [] => Ok ()
  | operator :: ops =>
      let* _ :=
        if bool_decide (op_identifier operator = coordinator_identifier) && negb verify_coordinator_proof
        then Ok () else operator_signed address_hash proof operator in
      check_operators coordinator_identifier verify_coordinator_proof address_hash proof ops
  end.

Definition proof_of_possession_valid (operator_public_key : SecpPublicKey) (address : Address)
    (proof : DepositAddressProof) : result () ServiceError :=
  let taproot_key := compute_taproot_key_no_script operator_public_key in
  let msg := proof_of_possession_message_hash operator_public_key address in
  let* s := ok_or (schnorr_from_slice (proof_of_possession_signature proof)) InvalidDepositAddressProof in
  if schnorr_valid s msg taproot_key then Ok () else Err InvalidDepositAddressProof.

Definition validate_deposit_address_inner (deposit_address : ProtoDepositAddress)
    (user_signing_public_key : SecpPublicKey) (verify_coordinator_proof : bool)
    : result (Address * SecpPublicKey) Fault :=
  let* address := throws (checked_address (pd_address deposit_address) (ts_network self)) in
  let* proof := throws (ok_or (deposit_address_proof deposit_address) MissingDepositAddressProof) in
  let* verifying_public_key :=
    throws (ok_or (key_from_slice (pd_verifying_key deposit_address)) InvalidDepositAddressProof) in
  let* operator_public_key :=
    throws (map_err (λ _, InvalidDepositAddressProof)
              (subtract_public_keys verifying_public_key user_signing_public_key)) in
  let* _ := throws (proof_of_possession_valid operator_public_key address proof) in
  let* op := get_coordinator (operator_pool self) in
  let* _ := throws (check_operators (op_identifier op) verify_coordinator_proof
                      (sha256 (as_bytes (Address_to_string address))) proof
                      (get_all_operators (operator_pool self))) in
  Ok (address, verifying_public_key).

Definition validate_deposit_address (deposit_address : ProtoDepositAddress)
    (user_signing_public_key : SecpPublicKey) (leaf_id : TreeNodeId)
    : result SingleUseDepositAddress Fault :=
  let* (address, verifying) := validate_deposit_address_inner deposit_address user_signing_public_key false in
  Ok {| su_address := address; su_user_signing_public_key := user_signing_public_key;
        su_verifying_public_key := verifying; su_leaf_id := leaf_id |}.

Definition validate_static_deposit_address (deposit_address : ProtoDepositAddress)
    (user_signing_public_key : SecpPublicKey) : result StaticDepositAddress Fault :=
  let* (address, verifying) := validate_deposit_address_inner deposit_address user_signing_public_key true in
  Ok {| sa_address := address; sa_user_signing_public_key := user_signing_public_key;
        sa_verifying_public_key := verifying |}.

Definition generate_deposit_address (signing_public_key : SecpPublicKey) (leaf_id : TreeNodeId)
    : M SingleUseDepositAddress :=
  do* op := coordinator self in
  do* resp := of_rpc (generate_deposit_address_rpc op
    {| gd_signing_public_key := key_serialize signing_public_key;
       gd_identity_public_key := key_serialize identity_public_key;
       gd_network := to_proto_network (ts_network self);
       gd_leaf_id := Some leaf_id; gd_hash_variant := HashV2 |}) in
  do* deposit_address := of_service (ok_or resp MissingDepositAddress) in
  se_lift (validate_deposit_address deposit_address signing_public_key leaf_id).

Definition generate_static_deposit_address (signing_public_key : SecpPublicKey) : M StaticDepositAddress :=
  do* op := coordinator self in
  do* resp := of_rpc (generate_static_deposit_address_rpc op
    {| gd_signing_public_key := key_serialize signing_public_key;
       gd_identity_public_key := key_serialize identity_public_key;
       gd_network := to_proto_network (ts_network self);
       gd_leaf_id := None; gd_hash_variant := HashV2 |}) in
  do* deposit_address := of_service (ok_or resp MissingDepositAddress) in
  se_lift (validate_static_deposit_address deposit_address signing_public_key).

Definition rotate_static_deposit_address (signing_public_key : SecpPublicKey) : M StaticDepositAddress :=
  do* op := coordinator self in
  do* resp := of_rpc (rotate_static_deposit_address_rpc op
    {| rd_signing_key := key_serialize signing_public_key;
       rd_network := to_proto_network (ts_network self); rd_hash_variant := HashV2 |}) in
  do* new_deposit_address := of_service (ok_or resp MissingDepositAddress) in
  se_lift (validate_static_deposit_address new_deposit_address signing_public_key).

(** ** Queries *)

Definition address_page (paging : PagingFilter) : QueryDepositAddressesRequest :=
  {| qd_identity_public_key := key_serialize identity_public_key;
     qd_network := to_proto_network (ts_network self);
     qd_offset := as_i64 (Paging.offset paging); qd_limit := as_i64 (limit paging) |}.

(** The answer has no offset: there is never a next page. *)
Definition query_static_deposit_addresses_inner (paging : PagingFilter)
    : M (PagingResult (T := StaticDepositAddress)) :=
  do* op := coordinator self in
  do* results := of_rpc (query_static_deposit_addresses_rpc op (address_page paging)) in
  do* addresses :=
    of_service (map_err (λ _, InvalidDepositAddress)
      (collect (λ r, StaticDepositAddress_try_from r (ts_network self)) results)) in
  se_ret (complete addresses).

Definition query_static_deposit_addresses (fuel : nat) (paging : option PagingFilter) :=
  paged fuel query_static_deposit_addresses_inner paging.

(** Addresses that do not parse are left out. *)
Definition query_unused_deposit_addresses_inner (paging : PagingFilter)
    : M (PagingResult (T := SingleUseDepositAddress)) :=
  do* op := coordinator self in
  do* (results, offset) := of_rpc (query_unused_deposit_addresses_rpc op (address_page paging)) in
  let addresses :=
    omap (λ r, match SingleUseDepositAddress_try_from r (ts_network self) with
               | Ok a => Some a | Err _ => None end) results in
  se_ret {| items := addresses; next := next_from_offset paging offset |}.

Definition query_unused_deposit_addresses (fuel : nat) (paging : option PagingFilter) :=
  paged fuel query_unused_deposit_addresses_inner paging.

Definition get_unused_deposit_address (fuel : nat) (address : Address)
    : W → W * option (result (option SingleUseDepositAddress) Fault) :=
  fuel_bind (query_unused_deposit_addresses fuel None)
    (λ addresses, se_ret (List.find (λ d, bool_decide (su_address d = address)) (items addresses))).

Definition address_utxo (au : ProtoAddressUtxo) : result Utxo ServiceError :=
  let* u := ok_or (pa_utxo au) TreeTypes.MissingUtxo in
  Utxo_from_proto u (pa_is_confirmed au).

Definition get_utxos_for_identity (page_size : Z) (cursor : option string)
    : M (list Utxo * option string) :=
  do* op := coordinator self in
  do* (utxos, page) := of_rpc (get_utxos_for_identity_rpc op
    {| gu_identity_public_key := key_serialize identity_public_key;
       gu_network := to_proto_network (ts_network self); gu_exclude_claimed := true;
       gu_page_size := page_size; gu_cursor := default "" cursor; gu_include_pending := true |}) in
  do* utxos := of_service (collect address_utxo utxos) in
  se_ret (utxos, p ← page; if has_next_page p then Some (next_cursor p) else None).

(** The first output that pays to one of the addresses. *)
Fixpoint find_vout (static_addresses : list Address) (vout : nat) (outs : list TxOut) : option Z :=
  match outs with
  | [] => None
  | tx_out :: outs =>
      match Address_from_script (script_pubkey tx_out) (BtcNetwork_from (ts_network self)) with
      | Some address =>
          if bool_decide (address ∈ static_addresses) then Some (wrap 32 (Z.of_nat vout))
          else find_vout static_addresses (S vout) outs
      | None => find_vout static_addresses (S vout) outs
      end
  end.

Definition find_static_deposit_tx_vout (fuel : nat) (t : Tx)
    : W → W * option (result (option Z) Fault) :=
  fuel_bind (query_static_deposit_addresses fuel None)
    (λ addresses, se_ret (find_vout (sa_address <$> items addresses) 0 (output t))).

(** The output given, or the first one of a static address. *)
Definition deposit_vout (fuel : nat) (t : Tx) (output_index : option Z) {A} (k : Z → M A)
    : W → W * option (result A Fault) :=
  match output_index with
  | Some v => λ w, let '(w, r) := k v w in (w, Some r)
  | None => fuel_bind (find_static_deposit_tx_vout fuel t)
              (λ found, do* v := of_service (ok_or found InvalidOutputIndex) in k v)
  end.

(** ** Static deposits *)

Definition serialize_static_deposit_claim_payload (txid : Txid) (output_index : Z)
    (request_type : UtxoSwapRequestType) (credit_amount_sats : Z) (signing_payload : list Z) : list Z :=
  as_bytes CLAIM_STATIC_DEPOSIT_ACTION ++ as_bytes (Network_fmt (ts_network self))
    ++ as_bytes (Txid_to_string txid) ++ to_le_bytes 4 output_index
    ++ [request_type_byte request_type] ++ to_le_bytes 8 credit_amount_sats ++ signing_payload.

Definition fetch_static_deposit_claim_quote (fuel : nat) (t : Tx) (output_index : option Z) :=
  deposit_vout fuel t output_index (λ v,
    do* quote := of_ssp (get_claim_deposit_quote (Txid_to_string (compute_txid t)) v
                           (BitcoinNetwork_from (ts_network self))) in
    of_service (StaticDepositQuote_try_from quote)).

Definition claim_static_deposit (quote : StaticDepositQuote) : M Transfer :=
  let quote_der := ecdsa_serialize_der (sq_signature quote) in
  let payload :=
    serialize_static_deposit_claim_payload (sq_txid quote) (sq_output_index quote) SwapFixed
      (sq_credit_amount_sats quote) quote_der in
  do* signature := of_signer (sign_message_ecdsa_with_identity_key payload) in
  do* deposit_secret_key := of_signer (static_deposit_secret 0) in
  do* transfer_id := of_ssp (claim_static_deposit_request
    {| ci_transaction_id := Txid_to_string (sq_txid quote); ci_output_index := sq_output_index quote;
       ci_network := BitcoinNetwork_from (ts_network self);
       ci_credit_amount_sats := Some (sq_credit_amount_sats quote);
       ci_request_type := FixedAmount; ci_max_fee_sats := None;
       ci_deposit_secret_key := hex_encode deposit_secret_key;
       ci_quote_signature := hex_encode quote_der;
       ci_signature := hex_encode (ecdsa_serialize_der signature) |}) in
  do* op := coordinator self in
  do* key := identity_key_bytes in
  do* (transfers, _) := of_rpc (query_all_transfers op
    {| tf_participant := Some (ReceiverIdentityPublicKey key); tf_transfer_ids := [transfer_id];
       tf_limit := 0; tf_offset := 0; tf_types := []; tf_network := to_proto_network (ts_network self);
       tf_order := Descending |}) in
  do* transfer := of_service (ok_or (head transfers) (SE_Generic "transfer not found")) in
  of_service (Transfer_try_from transfer).

Definition signing_job_of (key : SecpPublicKey) (t : Tx) (nonce : FrostSigningCommitmentsWithNonces)
    : result ProtoSigningJob ServiceError :=
  let* c := commitment_to_proto (commitments nonce) in
  Ok {| pj_signing_public_key := key_serialize key; pj_raw_tx := tx_serialize t;
        pj_signing_nonce_commitment := Some c |}.

(** [sr.try_into()] of a result that must be there. *)
Definition tree_result (r : option ProtoSigningResult) : result SigningResultData ServiceError :=
  let* o := map_opt signing_result_from_proto r in
  ok_or o MissingTreeSignatures.

Definition tx_sighash (t : Tx) (out : TxOut) : M Sighash :=
  of_service (map_err (λ e, BitcoinError (bitcoin_error e)) (sighash_from_tx t 0 out)).

(** The refund of the output, checked: not below the fee floor nor the dust limit. *)
Definition static_refund_tx (txid : Txid) (output_index : Z) (tx_out : TxOut) (refund_address : Address)
    (fee : Fee) : result (Tx * Z) ServiceError :=
  let script := Address_script_pubkey refund_address in
  let outpoint := {| op_txid := txid; op_vout := output_index |} in
  let signed_vsize :=
    wadd 64 (vsize (create_static_deposit_refund_tx outpoint 0 script)) SCHNORR_SIG_WITNESS_VBYTES in
  let fee_sats := to_sats fee signed_vsize in
  if fee_sats <? MIN_REFUND_FEE_SATS
  then Err (SE_Generic ("fee must be at least " +:+ pretty MIN_REFUND_FEE_SATS +:+ " sats"))
  else
    let credit_amount_sats := saturating_sub (txo_value tx_out) fee_sats in
    if credit_amount_sats <? minimal_non_dust script
    then Err (TreeTypes.InvalidInput
           ("Refund amount (" +:+ pretty credit_amount_sats +:+ " sats) is below the minimum of "
            +:+ pretty (minimal_non_dust script) +:+ " sats required for this address"))
    else Ok (create_static_deposit_refund_tx outpoint credit_amount_sats script, credit_amount_sats).

(** [refund_tx.input[0].witness = witness]. *)
Definition set_witness (t : Tx) (signature : list Z) : result Tx Fault :=
  match input t with
  | [] => Err Panic
  | i :: rest =>
      Ok {| version := version t; lock_time := lock_time t;
            input := {| previous_output := previous_output i; script_sig := script_sig i;
                        txin_sequence := txin_sequence i; witness := [signature] |} :: rest;
            output := output t |}
  end.

Definition refund_output (t : Tx) (refund_address : Address) (fee : Fee) (output_index : Z) : M Tx :=
  let txid := compute_txid t in
  do* tx_out := of_service (ok_or (output t !! Z.to_nat output_index) InvalidOutputIndex) in
  do* (refund_tx, credit_amount_sats) :=
    of_service (static_refund_tx txid output_index tx_out refund_address fee) in
  do* spend_tx_sighash := tx_sighash refund_tx tx_out in
  do* spend_nonce_commitment := of_signer random_commitment in
  let payload :=
    serialize_static_deposit_claim_payload txid output_index SwapRefund credit_amount_sats
      (sighash_bytes spend_tx_sighash) in
  do* signature := of_signer (sign_message_ecdsa_with_identity_key payload) in
  do* signing_public_key := of_signer (static_deposit_signing_key 0) in
  do* op := coordinator self in
  do* txid_hex := of_service (ok_or (hex_decode (Txid_to_string txid)) InvalidTransaction) in
  do* job := of_service (signing_job_of signing_public_key refund_tx spend_nonce_commitment) in
  do* refund_resp := of_rpc (initiate_static_deposit_utxo_refund op
    {| ur_on_chain_utxo := Some {| px_raw_tx := []; px_vout := output_index;
                                   px_network := to_proto_network (ts_network self); px_txid := txid_hex |};
       ur_user_signature := ecdsa_serialize_der signature;
       ur_refund_tx_signing_job := Some job |}) in
  do* signing_result := of_service (tree_result (uf_refund_tx_signing_result refund_resp)) in
  do* verifying := of_service (map_opt (λ b, ok_or (key_from_slice b) InvalidPublicKey)
                                 (uf_verifying_public_key refund_resp)) in
  do* verifying_public_key := of_service (ok_or verifying InvalidVerifyingKey) in
  do* secret := of_signer (static_deposit_secret_encrypted 0) in
  do* static_deposit_public_key := of_signer (static_deposit_signing_key 0) in
  do* spend_signature := of_signer (sign_aggregate_frost
    {| sa_sighash := spend_tx_sighash; sa_signing_public_key := verifying_public_key;
       sa_aggregating_public_key := static_deposit_public_key; sa_signing_private_key := secret;
       sa_self_nonce_commitment := spend_nonce_commitment; sa_adaptor_public_key := None;
       sa_verifying_key := verifying_public_key; sa_signing_result := signing_result |}) in
  do* witness := of_service (signature_serialize spend_signature) in
  se_lift (set_witness refund_tx witness).

(** ** The tree of a deposit *)

(** The root and its two refunds to the user. *)
Record RootTxs : Type := {
  cpfp_root_tx : Tx;
  cpfp_refund_tx : Tx;
  direct_from_cpfp_refund_tx : Tx
}.

Definition root_txs (deposit_tx : Tx) (vout : Z) (signing_public_key : SecpPublicKey) : result RootTxs Fault :=
  let* nodes := throws (create_root_node_txs deposit_tx vout) in
  let* refunds :=
    create_initial_timelock_refund_txs (ntx_cpfp_tx nodes) None signing_public_key (ts_network self) in
  let* direct := throws (ok_or (rtx_direct_from_cpfp_tx refunds)
                   (SE_Generic "Direct from CPFP refund transaction is missing")) in
  Ok {| cpfp_root_tx := ntx_cpfp_tx nodes; cpfp_refund_tx := rtx_cpfp_tx refunds;
        direct_from_cpfp_refund_tx := direct |}.

(** [sign_aggregate_frost] of one of the three transactions. *)
Definition sign_root_tx (source : SecretSource) (signing_public_key verifying_public_key : SecpPublicKey)
    (nonce : FrostSigningCommitmentsWithNonces) (sighash : Sighash) (r : SigningResultData)
    : M FrostSignature :=
  of_signer (sign_aggregate_frost
    {| sa_sighash := sighash; sa_signing_public_key := signing_public_key;
       sa_aggregating_public_key := signing_public_key; sa_signing_private_key := source;
       sa_self_nonce_commitment := nonce; sa_adaptor_public_key := None;
       sa_verifying_key := verifying_public_key; sa_signing_result := r |}).

Definition created_node (node : ProtoTreeNode) : result TreeNode ServiceError :=
  let parse_id id := map_err (λ _, InvalidNodeId id) (TreeNodeId_from_str id) in
  let parse_tx b := ok_or (deserialize b) InvalidTransaction in
  let* signing_keyshare := ok_or (pn_signing_keyshare node) MissingSigningKeyshare in
  let* id := parse_id (pn_id node) in
  let* parent_node_id := map_opt parse_id (pn_parent_node_id node) in
  let* node_tx := parse_tx (pn_node_tx node) in
  let* refund_tx := parse_tx (pn_refund_tx node) in
  let* direct_from_cpfp := parse_tx (pn_direct_from_cpfp_refund_tx node) in
  let* verifying := ok_or (key_from_slice (pn_verifying_public_key node)) InvalidVerifyingKey in
  let* owner :=
    if bool_decide (pn_owner_identity_public_key node = []) then Ok None
    else let* key := ok_or (key_from_slice (pn_owner_identity_public_key node)) InvalidPublicKey in
         Ok (Some key) in
  let* keyshare := SigningKeyshare_try_from signing_keyshare in
  Ok {| tn_id := id; tree_id := pn_tree_id node; value := pn_value node; parent_node_id := parent_node_id;
        node_tx := node_tx; refund_tx := Some refund_tx; direct_tx := None; direct_refund_tx := None;
        TreeTypes.direct_from_cpfp_refund_tx := Some direct_from_cpfp; vout := pn_vout node;
        verifying_public_key := verifying; owner_identity_public_key := owner;
        signing_keyshare := keyshare; status := TreeNodeStatus_from (pn_status node) |}.

Definition serialized (s : FrostSignature) : M (list Z) :=
  of_service (map_err (λ _, InvalidSignatureShare) (signature_serialize s)).

Definition start_tree_creation (deposit_tx : Tx) (vout : Z) (signing_public_key : SecpPublicKey)
    (txs : RootTxs) (n1 n2 n3 : FrostSigningCommitmentsWithNonces) : M RootSignatureShares :=
  do* op := coordinator self in
  do* root_job := of_service (signing_job_of signing_public_key (cpfp_root_tx txs) n1) in
  do* refund_job := of_service (signing_job_of signing_public_key (cpfp_refund_tx txs) n2) in
  do* direct_job := of_service (signing_job_of signing_public_key (direct_from_cpfp_refund_tx txs) n3) in
  do* resp := of_rpc (start_deposit_tree_creation op
    {| sc_identity_public_key := key_serialize identity_public_key;
       sc_on_chain_utxo := Some
         {| px_raw_tx := tx_serialize deposit_tx; px_vout := vout;
            px_network := to_proto_network (ts_network self);
            px_txid := txid_bytes (compute_txid deposit_tx) |};
       sc_root_tx_signing_job := Some root_job;
       sc_refund_tx_signing_job := Some refund_job;
       sc_direct_from_cpfp_refund_tx_signing_job := Some direct_job |}) in
  of_service (ok_or resp MissingTreeSignatures).

Definition create_tree_root (deposit_leaf_id : TreeNodeId) (verifying_public_key : SecpPublicKey)
    (deposit_tx : Tx) (vout : Z) : M (list TreeNode) :=
  let source := Derived deposit_leaf_id in
  do* signing_public_key := of_signer (public_key_from_secret source) in
  do* deposit_tx_out := of_service (ok_or (output deposit_tx !! Z.to_nat vout) InvalidOutputIndex) in
  do* txs := se_lift (root_txs deposit_tx vout signing_public_key) in
  do* n1 := of_signer random_commitment in
  do* n2 := of_signer random_commitment in
  do* n3 := of_signer random_commitment in
  do* shares := start_tree_creation deposit_tx vout signing_public_key txs n1 n2 n3 in
  do* r1 := of_service (tree_result (rs_node_tx_signing_result shares)) in
  do* r2 := of_service (tree_result (rs_refund_tx_signing_result shares)) in
  do* r3 := of_service (tree_result (rs_direct_from_cpfp_refund_tx_signing_result shares)) in
  do* key := of_service (ok_or (key_from_slice (rs_verifying_key shares)) InvalidVerifyingKey) in
  do* _ := of_service (if bool_decide (key = verifying_public_key) then Ok () else Err InvalidVerifyingKey) in
  do* h1 := tx_sighash (cpfp_root_tx txs) deposit_tx_out in
  do* root_out := se_lift (or_panic (head (output (cpfp_root_tx txs)))) in
  do* h2 := tx_sighash (cpfp_refund_tx txs) root_out in
  do* h3 := tx_sighash (direct_from_cpfp_refund_tx txs) root_out in
  do* s1 := sign_root_tx source signing_public_key verifying_public_key n1 h1 r1 in
  do* s2 := sign_root_tx source signing_public_key verifying_public_key n2 h2 r2 in
  do* s3 := sign_root_tx source signing_public_key verifying_public_key n3 h3 r3 in
  do* op := coordinator self in
  do* b1 := serialized s1 in
  do* b2 := serialized s2 in
  do* b3 := serialized s3 in
  do* nodes := of_rpc (finalize_created_nodes op
    [ {| ns_node_id := rs_node_id shares; ns_node_tx_signature := b1; ns_refund_tx_signature := b2;
         ns_direct_node_tx_signature := []; ns_direct_refund_tx_signature := [];
         ns_direct_from_cpfp_refund_tx_signature := b3 |} ]) in
  of_service (collect created_node nodes).

Definition claim_deposit (fuel : nat) (deposit_tx : Tx) (vout : Z)
    (w : W) : W * option (result (list TreeNode) Fault) :=
  let address :=
    let* out := ok_or (output deposit_tx !! Z.to_nat vout) InvalidOutputIndex in
    ok_or (Address_from_script (script_pubkey out) (BtcNetwork_from (ts_network self))) NotADepositOutput in
  match address with
  | Err e => (w, Some (Err (Throw e)))
  | Ok address =>
      fuel_bind (get_unused_deposit_address fuel address)
        (λ found,
           do* deposit_address := of_service (ok_or found DepositAddressUsed) in
           create_tree_root (su_leaf_id deposit_address) (su_verifying_public_key deposit_address)
             deposit_tx vout) w
  end.

Definition refund_static_deposit (fuel : nat) (t : Tx) (output_index : option Z)
    (refund_address : Address) (fee : Fee) : W → W * option (result Tx Fault) :=
  deposit_vout fuel t output_index (refund_output t refund_address fee).
End service.
