(* ===== verification/DepositServiceProps.v ===== *)
(** What the deposit service promises ([DepositService]): the addresses it hands out are
    vouched for by the operators, the tree it makes of a deposit has a signed way out for the
    user, and refunds of static deposits spend the output that was deposited. *)
From stdpp Require Import base gmap strings list pretty.
From S2P Require Import Prelude Timelocks TreeTypes Payments Transactions Bytes Paging Addresses AddressesProps TokenTx TokenTxProps Traces Signing TransferModels Futures Transfers TransfersProps ExchangeModels Htlcs Lightning LeafSwaps CoopExits ExchangesProps DepositService.

Section props.
Context {ho : HashOrder} {bt : BitcoinTypes} {bo : BitcoinOps} {ao : AddressOps} {tx : TokenTextOps}
  {dop : DepositOps} {W : Type} {se : SignerEnv W} {fs : FrostSigner W} {tt : TransferTypes}
  {sh : ShareTypes} {sg : TransferSigner W} {top : TransferOperators W} {ssp : SspClient W}
  {env : ExchangeEnv W} {dc : DepositCalls W}.
Context (self : TransferService) (identity : SecpPublicKey).

(** ** Addresses *)

(** The operator signed the text of the address. *)
Definition vouches (address : Address) (proof : DepositAddressProof) (op : Operator) : Prop :=
  ∃ der signature,
    address_signatures proof !! hex_encode (Identifier_serialize (op_identifier op)) = Some der ∧
    ecdsa_from_der der = Some signature ∧
    verify_ecdsa (sha256 (as_bytes (Address_to_string address))) signature (op_identity_public_key op) = None.

(** An answer of the operators that proves its address: of the wallet's network; signed, as the
    address of this user, under the key that makes the verifying key with the user's; and
    signed by every operator, by the coordinator too when [with_coordinator]. *)
Definition proves_address (d : ProtoDepositAddress) (user : SecpPublicKey) (with_coordinator : bool)
    (address : Address) (verifying : SecpPublicKey) : Prop :=
  ∃ proof operators_key possession c,
    checked_address (pd_address d) (ts_network self) = Ok address ∧
    deposit_address_proof d = Some proof ∧
    key_from_slice (pd_verifying_key d) = Some verifying ∧
    subtract_public_keys verifying user = Ok operators_key ∧
    schnorr_from_slice (proof_of_possession_signature proof) = Some possession ∧
    schnorr_valid possession (proof_of_possession_message_hash identity operators_key address)
      (compute_taproot_key_no_script operators_key) = true ∧
    @get_coordinator _ ServiceError (operator_pool self) = Ok c ∧
    ∀ op, op ∈ get_all_operators (operator_pool self) →
      with_coordinator = true ∨ op_identifier op ≠ op_identifier c → vouches address proof op.

Lemma operator_signed_ok address proof op :
  operator_signed (sha256 (as_bytes (Address_to_string address))) proof op = Ok () ↔ vouches address proof op.
Proof.
  unfold operator_signed, vouches. split.
  - intros (der & Hder%ok_or_ok & H)%rbind_ok. apply rbind_ok in H as (s & Hs%ok_or_ok & H).
    exists der, s. split_and!; [done..|]. by destruct (verify_ecdsa _ _ _).
  - intros (der & s & Hder & Hs & Hv). rewrite Hder. simpl. rewrite Hs. simpl. by rewrite Hv.
Qed.

Lemma check_operators_ok identifier b address proof l :
  check_operators identifier b (sha256 (as_bytes (Address_to_string address))) proof l = Ok () ↔
  ∀ op, op ∈ l → b = true ∨ op_identifier op ≠ identifier → vouches address proof op.
Proof.
  induction l as [|op l IH]; cbn [check_operators].
  { split; [intros _ op Hop; by apply not_elem_of_nil in Hop|done]. }
  split.
  - intros ([] & Hop & H)%rbind_ok o [->|Ho]%elem_of_cons Hb; [|by apply (proj1 IH)].
    apply operator_signed_ok.
    destruct (bool_decide_reflect (op_identifier op = identifier)) as [Hid|]; [|done].
    destruct b; [done|]. by destruct Hb.
  - intros H. apply rbind_ok. exists (). split; [|apply IH; intros o Ho; apply H; by right].
    destruct (bool_decide_reflect (op_identifier op = identifier)) as [Hid|Hid]; destruct b; simpl; try done;
      apply operator_signed_ok, H; auto; by left.
Qed.

(** An answer is accepted exactly when it proves its address. *)
Lemma deposit_address_accepted d user b address verifying :
  validate_deposit_address_inner self identity d user b = Ok (address, verifying) ↔
  proves_address d user b address verifying.
Proof.
  unfold validate_deposit_address_inner, proof_of_possession_valid. split.
  - intros (a & Ha%throws_ok & H)%rbind_ok. apply rbind_ok in H as (proof & Hp%throws_ok%ok_or_ok & H).
    apply rbind_ok in H as (v & Hv%throws_ok%ok_or_ok & H).
    apply rbind_ok in H as (k & Hk%throws_ok%map_err_is_ok & H).
    apply rbind_ok in H as ([] & Hs%throws_ok & H).
    apply rbind_ok in Hs as (s & Hs%ok_or_ok & Hvalid).
    destruct (schnorr_valid s _ _) eqn:Hschnorr in Hvalid; [|done].
    apply rbind_ok in H as (c & Hc & H).
    apply rbind_ok in H as ([] & Hops%throws_ok & [= <- <-]).
    exists proof, k, s, c. split_and!; [done..|]. by apply (proj1 (check_operators_ok _ _ _ _ _)).
  - intros (proof & k & s & c & Ha & Hp & Hv & Hk & Hs & Hvalid & Hc & Hops).
    rewrite Ha. simpl. rewrite Hp. simpl. rewrite Hv. simpl. rewrite Hk. simpl. rewrite Hs. simpl.
    rewrite Hvalid. simpl. rewrite Hc. simpl.
    by rewrite (proj2 (check_operators_ok _ _ _ _ _) Hops).
Qed.

(** What the three ways to an address have in common. *)
Definition handed_out (user : SecpPublicKey) (b : bool) (address : Address) (verifying : SecpPublicKey) : Prop :=
  ∃ d, proves_address d user b address verifying.

(** C26: every address the service hands out, for one deposit, static or rotated, is proved for
    the key it was asked for, and by every operator when it is static. *)
Theorem deposit_addresses_proved key leaf w w' :
  (∀ a, generate_deposit_address self identity key leaf w = (w', Ok a) →
     su_leaf_id a = leaf ∧ su_user_signing_public_key a = key ∧
     handed_out key false (su_address a) (su_verifying_public_key a)) ∧
  (∀ a, generate_static_deposit_address self identity key w = (w', Ok a) →
     sa_user_signing_public_key a = key ∧ handed_out key true (sa_address a) (sa_verifying_public_key a)) ∧
  (∀ a, rotate_static_deposit_address self identity key w = (w', Ok a) →
     sa_user_signing_public_key a = key ∧ handed_out key true (sa_address a) (sa_verifying_public_key a)).
Proof.
  unfold generate_deposit_address, generate_static_deposit_address, rotate_static_deposit_address.
  split_and!; intros a H; apply se_bind_ok in H as (? & op & _ & H);
    apply se_bind_ok in H as (? & resp & _ & H); apply se_bind_ok in H as (? & d & _ & H);
    apply se_lift_ok in H as [_ H]; unfold validate_deposit_address, validate_static_deposit_address in H;
    apply rbind_ok in H as ([address verifying] & H%deposit_address_accepted & [= <-]); repeat split; by exists d.
Qed.

(** ** Signatures *)

Lemma tx_sighash_ok t out w w' h :
  tx_sighash t out w = (w', Ok h) → sighash_from_tx t 0 out = Ok h.
Proof. unfold tx_sighash, of_service. by intros [_ H%map_err_is_ok]%throws_lift_ok. Qed.

(** [signature] aggregates what the signer and the operators made of the sighash of [t], which
    spends [out], with the user's secret and under [verifying]. *)
Definition frost_signed (source : SecretSource) (verifying : SecpPublicKey) (t : Tx) (out : TxOut)
    (signature : FrostSignature) : Prop :=
  ∃ h req share agg w1 w2 w3,
    sighash_from_tx t 0 out = Ok h ∧
    sf_message req = h ∧ sf_private_key req = source ∧ sf_verifying_key req = verifying ∧
    sign_frost req w1 = (w2, Ok share) ∧
    af_message agg = h ∧ af_self_signature agg = share ∧ af_verifying_key agg = verifying ∧
    aggregate_frost agg w2 = (w3, Ok signature).

Lemma aggregate_frost_signed p t out w w' signature :
  of_signer (sign_aggregate_frost p) w = (w', Ok signature) → sighash_from_tx t 0 out = Ok (sa_sighash p) →
  frost_signed (sa_signing_private_key p) (sa_verifying_key p) t out signature.
Proof.
  unfold sign_aggregate_frost. intros H%se_map_err_ok Hh.
  apply se_bind_ok in H as (w1 & share & Hshare & Hagg).
  eexists _, _, share, _, w, w1, w'. split_and!; [exact Hh| | | |exact Hshare| | | |exact Hagg]; done.
Qed.

(** ** The tree of a deposit *)

(** The root spends the deposited output and keeps it; the refunds spend the root and pay the
    user, one whole with an anchor for fees, one with its fee taken. *)
Definition way_out (deposit : Tx) (vout : Z) (out : TxOut) (user : SecpPublicKey) (txs : RootTxs) : Prop :=
  let script := p2tr_script (Transactions.x_only_public_key user) None (ts_network self) in
  (∃ seq, input (cpfp_root_tx txs)
     = [ {| previous_output := {| op_txid := compute_txid deposit; op_vout := vout |}; script_sig := [];
            txin_sequence := seq; witness := [] |} ]) ∧
  output (cpfp_root_tx txs) = [out; ephemeral_anchor_output] ∧
  (∃ seq, spends (cpfp_refund_tx txs) (cpfp_root_tx txs) out seq) ∧
  output (cpfp_refund_tx txs)
    = [ {| txo_value := txo_value out; script_pubkey := script |}; ephemeral_anchor_output ] ∧
  (∃ seq, spends (direct_from_cpfp_refund_tx txs) (cpfp_root_tx txs) out seq) ∧
  output (direct_from_cpfp_refund_tx txs)
    = [ {| txo_value := maybe_apply_fee (txo_value out); script_pubkey := script |} ].

Lemma root_txs_ok deposit vout out user txs :
  root_txs self deposit vout user = Ok txs → output deposit !! Z.to_nat vout = Some out →
  way_out deposit vout out user txs.
Proof.
  unfold root_txs, create_root_node_txs, create_node_txs, create_initial_timelock_refund_txs, create_refund_txs.
  destruct (initial_root_timelock_sequence _) as [s1 s2], (initial_timelock_sequence _) as [s3 s4].
  intros (nodes & Hn%throws_ok & H)%rbind_ok Hout. rewrite Hout in Hn. injection Hn as <-.
  apply rbind_ok in H as (refunds & Hr & H). injection Hr as <-. injection H as <-.
  destruct out as [v s]. unfold way_out, spends. simpl.
  split; [by exists s1|]. split; [done|]. split; [by exists s3|]. split; [done|].
  split; [by exists s4|done].
Qed.

(** What is sent of the tree before anything of it is signed. *)
Definition announces (deposit : Tx) (vout : Z) (txs : RootTxs) (req : StartDepositTreeCreationRequest) : Prop :=
  sc_identity_public_key req = key_serialize identity ∧
  (px_raw_tx <$> sc_on_chain_utxo req) = Some (tx_serialize deposit) ∧
  (px_vout <$> sc_on_chain_utxo req) = Some vout ∧
  (pj_raw_tx <$> sc_root_tx_signing_job req) = Some (tx_serialize (cpfp_root_tx txs)) ∧
  (pj_raw_tx <$> sc_refund_tx_signing_job req) = Some (tx_serialize (cpfp_refund_tx txs)) ∧
  (pj_raw_tx <$> sc_direct_from_cpfp_refund_tx_signing_job req)
    = Some (tx_serialize (direct_from_cpfp_refund_tx txs)).

Lemma signing_job_of_ok key t n job : signing_job_of key t n = Ok job → pj_raw_tx job = tx_serialize t.
Proof. by intros (c & _ & [= <-])%rbind_ok. Qed.

Lemma start_tree_creation_ok deposit vout key txs n1 n2 n3 w w' shares :
  start_tree_creation self identity deposit vout key txs n1 n2 n3 w = (w', Ok shares) →
  ∃ op req w1 w2, announces deposit vout txs req ∧
    @get_coordinator _ ServiceError (operator_pool self) = Ok op ∧
    start_deposit_tree_creation op req w1 = (w2, Ok (Some shares)).
Proof.
  unfold start_tree_creation, of_service. intros (? & op & [_ Hop]%se_lift_ok & H)%se_bind_ok.
  apply se_bind_ok in H as (? & j1 & [_ H1%signing_job_of_ok]%throws_lift_ok & H).
  apply se_bind_ok in H as (? & j2 & [_ H2%signing_job_of_ok]%throws_lift_ok & H).
  apply se_bind_ok in H as (w1 & j3 & [_ H3%signing_job_of_ok]%throws_lift_ok & H).
  apply se_bind_ok in H as (w2 & resp & Hresp%se_map_err_ok & [_ ->%ok_or_ok]%throws_lift_ok).
  eexists op, _, w1, w2. split; [|split; [exact Hop|exact Hresp]].
  unfold announces. simpl. by rewrite H1, H2, H3.
Qed.

(** The operators made [nodes] of three signatures under [verifying], the key they confirmed
    for the tree they were told of. *)
Definition tree_made (leaf : TreeNodeId) (verifying : SecpPublicKey) (deposit : Tx) (vout : Z) (out : TxOut)
    (nodes : list TreeNode) : Prop :=
  ∃ user txs op req shares s1 s2 s3 b1 b2 b3 protos w1 w2 w3 w4 w5 w6,
    public_key_from_secret (Derived leaf) w1 = (w2, Ok user) ∧
    way_out deposit vout out user txs ∧ announces deposit vout txs req ∧
    @get_coordinator _ ServiceError (operator_pool self) = Ok op ∧
    start_deposit_tree_creation op req w3 = (w4, Ok (Some shares)) ∧
    key_from_slice (rs_verifying_key shares) = Some verifying ∧
    frost_signed (Derived leaf) verifying (cpfp_root_tx txs) out s1 ∧ signature_serialize s1 = Ok b1 ∧
    frost_signed (Derived leaf) verifying (cpfp_refund_tx txs) out s2 ∧ signature_serialize s2 = Ok b2 ∧
    frost_signed (Derived leaf) verifying (direct_from_cpfp_refund_tx txs) out s3 ∧
    signature_serialize s3 = Ok b3 ∧
    finalize_created_nodes op
      [ {| ns_node_id := rs_node_id shares; ns_node_tx_signature := b1; ns_refund_tx_signature := b2;
           ns_direct_node_tx_signature := []; ns_direct_refund_tx_signature := [];
           ns_direct_from_cpfp_refund_tx_signature := b3 |} ] w5 = (w6, Ok protos) ∧
    collect created_node protos = Ok nodes.

Lemma serialized_ok (s : FrostSignature) w w' b : serialized s w = (w', Ok b) → signature_serialize s = Ok b.
Proof. unfold serialized, of_service. by intros [_ H%map_err_is_ok]%throws_lift_ok. Qed.

Lemma sign_root_tx_ok source key verifying n t out h r w w' s :
  sign_root_tx source key verifying n h r w = (w', Ok s) → sighash_from_tx t 0 out = Ok h →
  frost_signed source verifying t out s.
Proof. intros H Hh. exact (aggregate_frost_signed _ t out w w' s H Hh). Qed.

Lemma create_tree_root_ok leaf verifying deposit vout w w' nodes :
  create_tree_root self identity leaf verifying deposit vout w = (w', Ok nodes) →
  ∃ out, output deposit !! Z.to_nat vout = Some out ∧ tree_made leaf verifying deposit vout out nodes.
Proof.
  unfold create_tree_root, of_service. intros (? & user & Huser%se_map_err_ok & H)%se_bind_ok.
  apply se_bind_ok in H as (? & out & [_ Hout%ok_or_ok]%throws_lift_ok & H).
  apply se_bind_ok in H as (? & txs & [_ Htxs]%se_lift_ok & H).
  do 3 apply se_bind_ok in H as (? & ? & _ & H).
  apply se_bind_ok in H as (? & shares & (op & req & w3 & w4 & Hreq & Hop & Hstart)%start_tree_creation_ok & H).
  do 3 apply se_bind_ok in H as (? & ? & _ & H).
  apply se_bind_ok in H as (? & key & [_ Hkey%ok_or_ok]%throws_lift_ok & H).
  apply se_bind_ok in H as (? & [] & [_ Hsame]%throws_lift_ok & H).
  case_bool_decide as Hv; [subst key|done].
  apply se_bind_ok in H as (? & h1 & Hh1%tx_sighash_ok & H).
  apply se_bind_ok in H as (? & root_out & [_ Hroot%or_panic_ok]%se_lift_ok & H).
  pose proof (root_txs_ok _ _ _ _ _ Htxs Hout) as Hway.
  assert (root_out = out) as -> by (destruct Hway as (_ & Ho & _); rewrite Ho in Hroot; by injection Hroot).
  apply se_bind_ok in H as (? & h2 & Hh2%tx_sighash_ok & H).
  apply se_bind_ok in H as (? & h3 & Hh3%tx_sighash_ok & H).
  apply se_bind_ok in H as (? & s1 & Hs1 & H). apply se_bind_ok in H as (? & s2 & Hs2 & H).
  apply se_bind_ok in H as (? & s3 & Hs3 & H).
  apply se_bind_ok in H as (? & op' & [_ Hop']%se_lift_ok & H).
  assert (op' = op) as -> by congruence.
  apply se_bind_ok in H as (? & b1 & Hb1%serialized_ok & H).
  apply se_bind_ok in H as (? & b2 & Hb2%serialized_ok & H).
  apply se_bind_ok in H as (w5 & b3 & Hb3%serialized_ok & H).
  apply se_bind_ok in H as (w6 & protos & Hfin%se_map_err_ok & [_ Hnodes]%throws_lift_ok).
  exists out. split; [done|].
  exists user, txs, op, req, shares, s1, s2, s3, b1, b2, b3, protos. do 6 eexists.
  split_and!; [exact Huser|done|done|done|exact Hstart|done| |done| |done| |done|exact Hfin|done];
    by eapply sign_root_tx_ok.
Qed.

Lemma fuel_bind_ok {E A B} (m : W → W * option (result A E)) (k : A → SE W E B) w w' b :
  fuel_bind m k w = (w', Some (Ok b)) → ∃ w1 a, m w = (w1, Some (Ok a)) ∧ k a w1 = (w', Ok b).
Proof.
  unfold fuel_bind. destruct (m w) as [w1 [[a|e]|]]; try done.
  destruct (k a w1) as [w2 r] eqn:Hk. intros [= -> ->]. by exists w1, a.
Qed.

(** C25: a deposit is claimed for an output of the transaction that pays an unused address of the
    wallet.  The operators are told of the deposit, the root and its refunds, and answer with
    the verifying key of the address; the root signed spends that output, the refunds signed
    spend the root and pay the key of the address's leaf; the nodes are those the operators made
    of these three signatures. *)
Theorem deposit_tree_has_way_out fuel deposit vout w w' nodes :
  claim_deposit self identity fuel deposit vout w = (w', Some (Ok nodes)) →
  ∃ out d w1 unused, output deposit !! Z.to_nat vout = Some out ∧
    query_unused_deposit_addresses self identity fuel None w = (w1, Some (Ok unused)) ∧ d ∈ items unused ∧
    Address_from_script (script_pubkey out) (BtcNetwork_from (ts_network self)) = Some (su_address d) ∧
    tree_made (su_leaf_id d) (su_verifying_public_key d) deposit vout out nodes.
Proof.
  unfold claim_deposit.
  destruct (output deposit !! Z.to_nat vout) as [out|] eqn:Hout; [|done]. cbn [ok_or rbind].
  destruct (Address_from_script _ _) as [address|] eqn:Haddress; [|done]. cbn [ok_or].
  intros (w1 & found & Hfound & H)%fuel_bind_ok. unfold get_unused_deposit_address in Hfound.
  apply fuel_bind_ok in Hfound as (w2 & unused & Hunused & [= -> Hfind]).
  unfold of_service in H. apply se_bind_ok in H as (? & d & [_ Hd%ok_or_ok]%throws_lift_ok & H).
  rewrite Hd in Hfind. apply find_Some_elem in Hfind as [Hd' Hsame%bool_decide_eq_true].
  apply create_tree_root_ok in H as (out' & Hout' & H). rewrite Hout in Hout'. injection Hout' as <-.
  exists out, d, w1, unused. by rewrite Hsame.
Qed.

(** ** Refunds of static deposits *)

Definition static_output (addresses : list Address) (out : TxOut) : Prop :=
  ∃ a, Address_from_script (script_pubkey out) (BtcNetwork_from (ts_network self)) = Some a ∧ a ∈ addresses.

Lemma find_vout_ok addresses n outs v :
  find_vout self addresses n outs = Some v →
  ∃ i out, outs !! i = Some out ∧ v = wrap 32 (Z.of_nat (n + i)) ∧ static_output addresses out ∧
    ∀ j o, (j < i)%nat → outs !! j = Some o → ¬ static_output addresses o.
Proof.
  revert n. induction outs as [|o outs IH]; intros n; cbn [find_vout]; [done|]. intros H.
  assert (static_output addresses o ∧ v = wrap 32 (Z.of_nat n) ∨
          ¬ static_output addresses o ∧ find_vout self addresses (S n) outs = Some v) as [[Ho ->]|[Ho Hrest]].
  { unfold static_output. destruct (Address_from_script _ _) as [a|].
    - case_bool_decide as Ha; [left|right]; [injection H as <-; eauto|]. split; [|done].
      by intros (? & [= <-] & ?).
    - right. split; [|done]. by intros (? & ? & _). }
  - exists 0%nat, o. rewrite Nat.add_0_r. split_and!; [done..|]. intros. lia.
  - destruct (IH _ Hrest) as (i & out & Hi & -> & Hout & Hfirst).
    exists (S i), out. split_and!; [done|f_equal; lia|done|].
    intros [|j] o' Hj Hlookup; [by injection Hlookup as <-|]. apply (Hfirst j); [lia|done].
Qed.

(** The output of [t] meant: the one given, or the first of a static address of the wallet. *)
Definition meant_output (fuel : nat) (t : Tx) (output_index : option Z) (w : W) (v : Z) : Prop :=
  match output_index with
  | Some v' => v = v'
  | None => ∃ w1 addresses i out,
      query_static_deposit_addresses self identity fuel None w = (w1, Some (Ok addresses)) ∧
      output t !! i = Some out ∧ v = wrap 32 (Z.of_nat i) ∧
      static_output (sa_address <$> items addresses) out ∧
      ∀ j o, (j < i)%nat → output t !! j = Some o → ¬ static_output (sa_address <$> items addresses) o
  end.

Lemma deposit_vout_ok fuel t oi {A} (k : Z → SE W (exn ServiceError) A) w w' a :
  deposit_vout self identity fuel t oi k w = (w', Some (Ok a)) →
  ∃ v w1, meant_output fuel t oi w v ∧ k v w1 = (w', Ok a).
Proof.
  unfold deposit_vout, meant_output. destruct oi as [v|].
  { destruct (k v w) as [w2 r] eqn:Hk. intros [= -> ->]. by exists v, w. }
  intros (w1 & found & H & Hk)%fuel_bind_ok. unfold find_static_deposit_tx_vout in H.
  apply fuel_bind_ok in H as (w2 & addresses & Haddresses & [= -> Hfound]).
  unfold of_service in Hk. apply se_bind_ok in Hk as (w3 & v & [-> ->%ok_or_ok]%throws_lift_ok & Hk).
  apply find_vout_ok in Hfound as (i & out & Hout & -> & ?).
  eexists _, w3. split; [|exact Hk]. by exists w3, addresses, i, out.
Qed.

(** A refund of [out], output [v] of [t], before it is signed: it pays [script] what the output
    holds less the fee, which is at least the floor; the payment is not dust. *)
Definition static_refund (t : Tx) (v : Z) (out : TxOut) (script : ScriptBuf) (fee : Fee) (r : Tx) : Prop :=
  let spent := {| op_txid := compute_txid t; op_vout := v |} in
  let fee_sats :=
    to_sats fee (wadd 64 (vsize (create_static_deposit_refund_tx spent 0 script)) SCHNORR_SIG_WITNESS_VBYTES) in
  let amount := saturating_sub (txo_value out) fee_sats in
  input r = [default_txin spent] ∧ output r = [ {| txo_value := amount; script_pubkey := script |} ] ∧
  MIN_REFUND_FEE_SATS ≤ fee_sats ∧ minimal_non_dust script ≤ amount.

Lemma static_refund_tx_ok t v out address fee r amount :
  static_refund_tx (compute_txid t) v out address fee = Ok (r, amount) →
  static_refund t v out (Address_script_pubkey address) fee r ∧ (txo_value <$> output r) = [amount].
Proof.
  unfold static_refund_tx, static_refund. cbv zeta.
  case_match eqn:Hfloor; [done|]. case_match eqn:Hdust; [done|]. apply Z.ltb_ge in Hfloor, Hdust. intros [= <- <-]. by split_and!.
Qed.

(** The operators accepted the refund, under the user's signature of its amount and sighash. *)
Definition refund_accepted (t : Tx) (v : Z) (out : TxOut) (r : Tx) (verifying : SecpPublicKey) : Prop :=
  ∃ op req w1 w2 w3 w4 resp h amount signature key,
    (px_vout <$> ur_on_chain_utxo req) = Some v ∧
    hex_decode (Txid_to_string (compute_txid t)) = px_txid <$> ur_on_chain_utxo req ∧
    (pj_raw_tx <$> ur_refund_tx_signing_job req) = Some (tx_serialize r) ∧
    ur_user_signature req = ecdsa_serialize_der signature ∧
    sign_message_ecdsa_with_identity_key
      (serialize_static_deposit_claim_payload self (compute_txid t) v SwapRefund amount (sighash_bytes h)) w1
      = (w2, Ok signature) ∧
    sighash_from_tx r 0 out = Ok h ∧ (txo_value <$> output r) = [amount] ∧
    initiate_static_deposit_utxo_refund op req w3 = (w4, Ok resp) ∧
    uf_verifying_public_key resp = Some key ∧ key_from_slice key = Some verifying.

Lemma refund_output_ok t address fee v w w' r :
  refund_output self t address fee v w = (w', Ok r) →
  ∃ out unsigned verifying source signature b w1 w2,
    output t !! Z.to_nat v = Some out ∧
    static_refund t v out (Address_script_pubkey address) fee unsigned ∧
    refund_accepted t v out unsigned verifying ∧
    static_deposit_secret_encrypted 0 w1 = (w2, Ok source) ∧
    frost_signed source verifying unsigned out signature ∧ signature_serialize signature = Ok b ∧
    set_witness unsigned b = Ok r.
Proof.
  unfold refund_output, of_service. intros (? & out & [_ Hout%ok_or_ok]%throws_lift_ok & H)%se_bind_ok.
  apply se_bind_ok in H as (? & [u amount] & [_ [Hu Hamount]%static_refund_tx_ok]%throws_lift_ok & H).
  apply se_bind_ok in H as (? & h & Hh%tx_sighash_ok & H).
  apply se_bind_ok in H as (w3 & n & _ & H).
  apply se_bind_ok in H as (w4 & user_signature & Huser%se_map_err_ok & H).
  apply se_bind_ok in H as (? & key & _ & H). apply se_bind_ok in H as (? & op & _ & H).
  apply se_bind_ok in H as (? & hex & [_ Hhex%ok_or_ok]%throws_lift_ok & H).
  apply se_bind_ok in H as (w5 & job & [_ Hjob%signing_job_of_ok]%throws_lift_ok & H).
  apply se_bind_ok in H as (w6 & resp & Hresp%se_map_err_ok & H).
  apply se_bind_ok in H as (? & sr & _ & H).
  apply se_bind_ok in H as (? & vk & [_ Hvk%map_opt_ok]%throws_lift_ok & H).
  apply se_bind_ok in H as (? & verifying & [_ ->%ok_or_ok]%throws_lift_ok & H).
  apply se_bind_ok in H as (? & source & Hsource%se_map_err_ok & H).
  apply se_bind_ok in H as (? & ? & _ & H). apply se_bind_ok in H as (? & s & Hs & H).
  apply se_bind_ok in H as (? & b & [_ Hb]%throws_lift_ok & [_ Hr]%se_lift_ok).
  destruct (uf_verifying_public_key resp) as [vb|] eqn:Hresp_key; [|done]. apply ok_or_ok in Hvk.
  exists out, u, verifying, source, s, b. do 2 eexists.
  split_and!; [done|done| |exact Hsource|exact (aggregate_frost_signed _ u out _ _ s Hs Hh)|done|done].
  exists op. eexists. exists w3, w4, w5, w6, resp, h, amount, user_signature, vb.
  split_and!; [| | | |exact Huser|exact Hh|exact Hamount|exact Hresp|done|done]; try done.
  simpl. by rewrite Hjob.
Qed.

(** C27: a refund of a static deposit spends the output that was meant, alone; it pays the address
    given what the output holds less the fee, which is at least the floor and leaves no dust;
    its only witness is the signature made with the static deposit secret for that output.  The
    operators accepted these very bytes, under the user's signature of the amount. *)
Theorem static_refund_spends_deposit fuel t oi address fee w w' r :
  refund_static_deposit self identity fuel t oi address fee w = (w', Some (Ok r)) →
  ∃ v out unsigned verifying source signature b w1 w2 i,
    meant_output fuel t oi w v ∧ output t !! Z.to_nat v = Some out ∧
    static_refund t v out (Address_script_pubkey address) fee unsigned ∧
    refund_accepted t v out unsigned verifying ∧
    static_deposit_secret_encrypted 0 w1 = (w2, Ok source) ∧
    frost_signed source verifying unsigned out signature ∧ signature_serialize signature = Ok b ∧
    output r = output unsigned ∧ input r = [i] ∧ witness i = [b] ∧
    previous_output i = {| op_txid := compute_txid t; op_vout := v |}.
Proof.
  unfold refund_static_deposit. intros (v & w0 & Hv & H)%deposit_vout_ok.
  apply refund_output_ok in H
    as (out & u & verifying & source & s & b & w1 & w2 & Hout & Hu & Hacc & Hsource & Hs & Hb & Hr).
  pose proof Hu as (Hin & _). unfold set_witness in Hr. rewrite Hin in Hr. injection Hr as <-.
  eexists v, out, u, verifying, source, s, b, w1, w2, _. by split_and!.
Qed.

(** ** Queries *)

(** Listing all static addresses asks for the first page only, whatever the operators
    answer: it is the query of the default page. *)
Theorem static_addresses_first_page fuel w :
  query_static_deposit_addresses self identity (S fuel) None w
    = query_static_deposit_addresses self identity fuel (Some PagingFilter_default) w.
Proof.
  unfold query_static_deposit_addresses, paged, pager. cbn [pager_loop].
  destruct (query_static_deposit_addresses_inner self identity PagingFilter_default w) as [w' [p|e]] eqn:H; [|done].
  unfold query_static_deposit_addresses_inner, of_service in H.
  apply se_bind_ok in H as (? & op & _ & H). apply se_bind_ok in H as (? & l & _ & H).
  apply se_bind_ok in H as (? & addresses & _ & [= <- <-]).
  unfold PagingResult_is_empty. simpl. case_bool_decide; [by destruct addresses|done].
Qed.
End props.

(** ** What the user signs for a claim *)

Section payload.
Context {bt : BitcoinTypes} {bo : BitcoinOps} {dop : DepositOps}.

Lemma as_bytes_length (s : string) : length (as_bytes s) = String.length s.
Proof. unfold as_bytes. rewrite length_fmap. induction s; simpl; congruence. Qed.

Lemma le_bytes_inj n x y :
  0 ≤ x < 256 ^ Z.of_nat n → 0 ≤ y < 256 ^ Z.of_nat n → to_le_bytes n x = to_le_bytes n y → x = y.
Proof. intros Hx Hy H. by rewrite <- (from_to_le_bytes n x), <- (from_to_le_bytes n y), H. Qed.

Lemma network_prefix n1 n2 r1 r2 :
  as_bytes (Network_fmt n1) ++ r1 = as_bytes (Network_fmt n2) ++ r2 → n1 = n2 ∧ r1 = r2.
Proof. destruct n1, n2; try (intros H%app_inv_head; by split); discriminate. Qed.

(** The payload of a claim or refund says which it is of which output of which transaction, on
    which network, for how much and under which quote or sighash: no two differ in one of them.
    Transaction ids are printed in 64 digits. *)
Theorem claim_payload_binds s1 s2 id1 id2 v1 v2 t1 t2 a1 a2 p1 p2 :
  String.length (Txid_to_string id1) = String.length (Txid_to_string id2) →
  in_u 32 v1 → in_u 32 v2 → in_u 64 a1 → in_u 64 a2 →
  serialize_static_deposit_claim_payload s1 id1 v1 t1 a1 p1
    = serialize_static_deposit_claim_payload s2 id2 v2 t2 a2 p2 →
  ts_network s1 = ts_network s2 ∧ Txid_to_string id1 = Txid_to_string id2 ∧ v1 = v2 ∧ t1 = t2 ∧
  a1 = a2 ∧ p1 = p2.
Proof.
  intros Hlen Hv1 Hv2 Ha1 Ha2 H. unfold serialize_static_deposit_claim_payload in H.
  apply app_inv_head, network_prefix in H as [Hnet H].
  apply app_inj_1 in H as [Hid%as_bytes_inj H]; [|by rewrite !as_bytes_length].
  apply app_inj_1 in H as [Hv%le_bytes_inj H]; [|done|done|by rewrite !to_le_bytes_length].
  apply app_inj_1 in H as [Ht H]; [|done].
  apply app_inj_1 in H as [Ha%le_bytes_inj H]; [|done|done|by rewrite !to_le_bytes_length].
  split_and!; try done. by destruct t1, t2.
Qed.
End payload.

(** ** At concrete inputs *)
Module Example.
Import AddressesProps.Example.
Export ExchangesProps.Example.
#[local] Existing Instance canonical_order.
#[local] Existing Instance example_bitcoin.
#[local] Existing Instance example_bitcoin_ops.

(** Addresses are scripts in hexadecimal; a Schnorr signature is the hash it signs. *)
#[export] Instance deposit_ops : DepositOps := {|
  Address := string;
  UncheckedAddress := string;
  Address_parse s := Some s;
  require_network s _ := Some s;
  Address_from_script script _ := Some (hex_encode script);
  Address_to_string a := a;
  Address_script_pubkey a := default [] (hex_decode a);
  minimal_non_dust _ := 330;
  vsize _ := 94;
  Txid_from_str s := match hex_decode s with Some [t] => Some (t : @Txid example_bitcoin) | _ => None end;
  Txid_to_string t := hex_encode [t : Z];
  Schnorr := list Z;
  schnorr_from_slice := Some;
  schnorr_valid s m _ := bool_decide (s = m);
  tap_tweak k := (k + 1)%Z : @XOnlyKey _ example_bitcoin_ops;
  key_negate k := (- k)%Z : @SecpPublicKey example_bitcoin;
  key_combine a b := Ok (a + b : @SecpPublicKey example_bitcoin)
|}.

(** The deposit pays 5000 to the address of the leaf "leaf" and 2000 elsewhere. *)
Definition script : ScriptBuf := [81; 5; 0].
Definition deposit : Tx :=
  {| version := 2; lock_time := 0; input := [];
     output := [ {| txo_value := 2000; script_pubkey := [0; 1] |}; {| txo_value := 5000; script_pubkey := script |} ] |}.

Definition identity : @SecpPublicKey example_bitcoin := 8.
Definition user : @SecpPublicKey example_bitcoin := 9.

(** The answer of operators that share the key -4 and vouch for the address. *)
Definition proved_answer : ProtoDepositAddress :=
  let address : @Address _ _ deposit_ops := hex_encode script in
  let signature := sha256 (as_bytes (hex_encode script)) in
  {| pd_address := address; pd_verifying_key := [5];
     deposit_address_proof := Some
       {| address_signatures := {[ hex_encode [10] := signature; hex_encode [11] := signature ]};
          proof_of_possession_signature :=
            proof_of_possession_message_hash (W := world) identity (-4 : @SecpPublicKey example_bitcoin) address |} |}.

Definition listed_address (leaf : option string) : DepositAddressQueryResult :=
  {| dq_deposit_address := hex_encode script; dq_user_signing_public_key := [9];
     dq_verifying_public_key := [5]; dq_leaf_id := leaf |}.

Definition created (id : string) : ProtoTreeNode :=
  {| pn_id := id; pn_tree_id := "tree"; pn_value := 5000; pn_parent_node_id := None;
     pn_node_tx := [1; 1073743824; 5000]; pn_refund_tx := [2; 1073743774; 5000]; pn_vout := 0;
     pn_verifying_public_key := [5]; pn_owner_identity_public_key := [8];
     pn_signing_keyshare := Some {| pk_owner_identifiers := []; pk_threshold := 2; pk_public_key := [2] |};
     pn_status := "AVAILABLE"; pn_direct_tx := []; pn_direct_refund_tx := [];
     pn_direct_from_cpfp_refund_tx := [2; 1073743774; 4045] |}.

#[export] Instance deposit_calls : DepositCalls world := {|
  get_utxos_for_identity_rpc op req := se_ret ([], None);
  start_deposit_tree_creation op req :=
    se_ret (Some {| rs_node_id := "root"; rs_node_tx_signing_result := Some (1 : @ProtoSigningResult _ _ env);
                    rs_refund_tx_signing_result := Some (2 : @ProtoSigningResult _ _ env);
                    rs_direct_from_cpfp_refund_tx_signing_result := Some (3 : @ProtoSigningResult _ _ env);
                    rs_verifying_key := [5] |});
  finalize_created_nodes op sigs := se_ret ((λ s, created (ns_node_id s)) <$> sigs);
  generate_deposit_address_rpc op req := se_ret (Some proved_answer);
  generate_static_deposit_address_rpc op req := se_ret (Some proved_answer);
  rotate_static_deposit_address_rpc op req := se_ret (Some proved_answer);
  query_static_deposit_addresses_rpc op req := se_ret [listed_address None];
  query_unused_deposit_addresses_rpc op req := se_ret ([listed_address (Some "leaf")], 0);
  initiate_static_deposit_utxo_refund op req :=
    se_ret {| uf_refund_tx_signing_result := Some (1 : @ProtoSigningResult _ _ env);
              uf_verifying_public_key := Some [5] |};
  claim_static_deposit_request input := se_ret "transfer";
  get_claim_deposit_quote txid v net :=
    se_ret {| sd_transaction_id := txid; sd_output_index := v; sd_network := net;
              sd_credit_amount_sats := 4900; sd_signature := "" |};
  static_deposit_secret i := se_ret [4];
  static_deposit_secret_encrypted i := se_ret (Encrypted [4]);
  static_deposit_signing_key i := se_ret user;
  ecdsa_from_str s := hex_decode s;
  sighash_bytes h := [h : Z]
|}.

Lemma deposit_addresses_proved_witness :
  ∃ w' a, generate_static_deposit_address service identity user begin = (w', Ok a) ∧
    sa_user_signing_public_key a = user ∧
    handed_out (W := world) service identity user true (sa_address a) (sa_verifying_public_key a).
Proof.
  assert (is_ok (generate_static_deposit_address service identity user begin).2 = true) as Hok
    by (vm_compute; reflexivity).
  destruct (generate_static_deposit_address service identity user begin) as [w' [a|e]] eqn:H; [|done].
  exists w', a. split; [reflexivity|].
  exact (proj1 (proj2 (deposit_addresses_proved service identity user "leaf" begin w')) a H).
Defined.

(** The run of a query in pages that ended well. *)
Definition answered {A E} (r : option (result A E)) : bool :=
  match r with Some r => is_ok r | None => false end.

Lemma deposit_tree_has_way_out_witness :
  ∃ w' nodes, claim_deposit service identity 1 deposit 1 begin = (w', Some (Ok nodes)) ∧
    ∃ out d w1 unused, output deposit !! 1%nat = Some out ∧
      query_unused_deposit_addresses service identity 1 None begin = (w1, Some (Ok unused)) ∧ d ∈ items unused ∧
      Address_from_script (script_pubkey out) (BtcNetwork_from (ts_network service)) = Some (su_address d) ∧
      tree_made (W := world) service identity (su_leaf_id d) (su_verifying_public_key d) deposit 1 out nodes.
Proof.
  assert (answered (claim_deposit service identity 1 deposit 1 begin).2 = true) as Hok
    by (vm_compute; reflexivity).
  destruct (claim_deposit service identity 1 deposit 1 begin) as [w' [[nodes|e]|]] eqn:H; [|done|done].
  exists w', nodes. split; [reflexivity|].
  exact (deposit_tree_has_way_out service identity 1 deposit 1 begin w' nodes H).
Defined.

(** The refund of the static output, found, at two satoshis a byte: 5000 less 222. *)
Lemma static_refund_spends_deposit_witness :
  let address : @Address _ _ deposit_ops := hex_encode [0; 7] in
  ∃ w' r, refund_static_deposit service identity 1 deposit None address (Rate 2) begin = (w', Some (Ok r)) ∧
    ∃ v out unsigned verifying source signature b (w1 w2 : world) i,
      meant_output service identity 1 deposit None begin v ∧ output deposit !! Z.to_nat v = Some out ∧
      static_refund deposit v out (Address_script_pubkey address) (Rate 2) unsigned ∧
      refund_accepted (W := world) service deposit v out unsigned verifying ∧
      static_deposit_secret_encrypted 0 w1 = (w2, Ok source) ∧
      frost_signed (W := world) source verifying unsigned out signature ∧ signature_serialize signature = Ok b ∧
      output r = output unsigned ∧ input r = [i] ∧ witness i = [b] ∧
      previous_output i = {| op_txid := compute_txid deposit; op_vout := v |}.
Proof.
  intros address.
  assert (answered (refund_static_deposit service identity 1 deposit None address (Rate 2) begin).2 = true) as Hok
    by (vm_compute; reflexivity).
  destruct (refund_static_deposit service identity 1 deposit None address (Rate 2) begin)
    as [w' [[r|e]|]] eqn:H; [|done|done].
  exists w', r. split; [reflexivity|].
  exact (static_refund_spends_deposit service identity 1 deposit None address (Rate 2) begin w' r H).
Defined.

(** A refund below the floor of the fee, or that would leave dust, is refused. *)
Example low_fee_refused :
  (refund_static_deposit service identity 1 deposit (Some 1) (hex_encode [0; 7] : @Address _ _ deposit_ops)
     (Rate 1) begin).2 = Some (Err (Throw (SE_Generic "fee must be at least 194 sats"))).
Proof. vm_compute. reflexivity. Qed.

Example dust_refused :
  (refund_static_deposit service identity 1 deposit (Some 1) (hex_encode [0; 7] : @Address _ _ deposit_ops)
     (Fixed 4700) begin).2
  = Some (Err (Throw (TreeTypes.InvalidInput
      "Refund amount (300 sats) is below the minimum of 330 sats required for this address"))).
Proof. vm_compute. reflexivity. Qed.

Lemma claim_payload_binds_witness :
  let id : @Txid example_bitcoin := 7 in
  let payload := serialize_static_deposit_claim_payload service id 1 SwapFixed 4900 [1; 2] in
  payload = serialize_static_deposit_claim_payload service id 1 SwapFixed 4900 [1; 2] ∧
  ∃ s2 v2, ts_network service = ts_network s2 ∧ 1 = v2.
Proof.
  intros id payload. split; [reflexivity|]. exists service, 1.
  destruct (claim_payload_binds service service id id 1 1 SwapFixed SwapFixed 4900 4900 [1; 2] [1; 2])
    as (Hnet & _ & Hv & _); [reflexivity|vm_compute; done|vm_compute; done|vm_compute; done|vm_compute; done|reflexivity|].
  split; [exact Hnet|exact Hv].
Defined.
End Example.
