(* ===== verification/StableBalance.v ===== *)
(** The stable balance: [crates/breez-sdk/core/src/stable_balance/mod.rs] and
    [conversions.rs], the worker of [queue.rs] over the queue of [ConversionQueue], the
    requests of [token_conversion/models.rs] and the cell of [utils/expiring_cell.rs].

    A method is a program over a world that holds the state of the stable balance (class
    [StableWorld]); every call of the storage, the wallet or the converter may change that
    state too, as other tasks run while it is awaited. *)
From stdpp Require Import base gmap strings list.
From S2P Require Import Prelude Payments ConversionQueue ObjectCache PaymentSync.

(** ** Requests of conversions *)

Inductive ConversionType : Type := FromBitcoin | ToBitcoin (from_token_identifier : string).

Record ConversionOptions : Type := {
  conversion_type : ConversionType;
  max_slippage_bps : option Z;
  completion_timeout_secs : option Z
}.

Inductive ConversionAmount : Type := MinAmountOut (amount : Z) | AmountIn (amount : Z).

Record ConversionEstimate : Type := {
  ce_options : ConversionOptions;
  ce_amount_in : Z;
  ce_amount_out : Z;
  ce_fee : Z;
  ce_amount_adjustment : option AmountAdjustmentReason
}.

Record TokenConversionResponse : Type := { sent_payment_id : string; received_payment_id : string }.

Record FetchConversionLimitsRequest : Type := {
  fl_conversion_type : ConversionType;
  fl_token_identifier : option string
}.

Record FetchConversionLimitsResponse : Type := {
  min_from_amount : option Z;
  min_to_amount : option Z
}.

(** An error of the wallet is given by its text. *)
Inductive ConversionError : Type :=
| NoPoolsAvailable
| ConversionFailedError (s : string)
| DuplicateTransfer
| ValidationFailed (s : string)
| RefundFailed (s : string)
| CE_Sdk (e : SdkError)
| CE_Storage (e : StorageError)
| CE_Wallet (s : string).

Definition is_duplicate_transfer (e : ConversionError) : bool :=
  match e with DuplicateTransfer => true | _ => false end.

(** ** State *)

Definition EFFECTIVE_VALUES_TTL_MS : Z := 3600000.

Record StableBalanceToken : Type := { sbt_label : string; sbt_token_identifier : string }.

Record StableBalanceConfig : Type := {
  tokens : list StableBalanceToken;
  default_active_label : option string;
  threshold_sats : option Z;
  sbc_max_slippage_bps : option Z
}.

Record EffectiveValues : Type := { ev_threshold : Z; ev_min_from_amount : Z }.

(** The parts shared by the clones: [effective_values] with its expiration in milliseconds;
    [synced_notify] has a permit or not. *)
Record StableBalance : Type := {
  active_token : option StableBalanceToken;
  effective_values : option (EffectiveValues * Z);
  queue : ConversionQueue;
  payment_counter : Z;
  synced : bool
}.

Definition set_active (t : option StableBalanceToken) (s : StableBalance) : StableBalance :=
  {| active_token := t; effective_values := effective_values s; queue := queue s;
     payment_counter := payment_counter s; synced := synced s |}.
Definition set_effective (v : option (EffectiveValues * Z)) (s : StableBalance) : StableBalance :=
  {| active_token := active_token s; effective_values := v; queue := queue s;
     payment_counter := payment_counter s; synced := synced s |}.
Definition set_queue (q : ConversionQueue) (s : StableBalance) : StableBalance :=
  {| active_token := active_token s; effective_values := effective_values s; queue := q;
     payment_counter := payment_counter s; synced := synced s |}.
Definition set_counter (n : Z) (s : StableBalance) : StableBalance :=
  {| active_token := active_token s; effective_values := effective_values s; queue := queue s;
     payment_counter := n; synced := synced s |}.
Definition set_synced (b : bool) (s : StableBalance) : StableBalance :=
  {| active_token := active_token s; effective_values := effective_values s; queue := queue s;
     payment_counter := payment_counter s; synced := b |}.

(** [TransferId] and [Uuid::new_v5] in the namespace of object identifiers. *)
Class TransferIds := {
  TransferId : Type;
  new_v5 : string → TransferId;
  TransferId_fmt : TransferId → string
}.

Definition per_receive_transfer_id {ti : TransferIds} (payment_id : string) : TransferId :=
  new_v5 ("receive_conversion:" +:+ payment_id).

(** The state in the world, clocks in milliseconds ([None] before the epoch) and in seconds,
    whether the queue could write its cache, and the sync trigger. *)
Class StableWorld (W : Type) := {
  sb : W → StableBalance;
  put_sb : StableBalance → W → W;
  clock_ms : W → W * option Z;
  clock_secs : W → W * Z;
  queue_stored : W → W * bool;
  trigger_sync : W → W
}.

(** The wallet: satoshis and the balances of tokens; an error is its text. *)
Class StableWallet (W : Type) := {
  get_balance : SE W string Z;
  get_token_balances : SE W string (gmap string Z)
}.

(** The trait [TokenConverter]. *)
Class TokenConverter {ti : TransferIds} (W : Type) := {
  convert : ConversionOptions → ConversionPurpose → option string → ConversionAmount →
            option TransferId → SE W ConversionError TokenConversionResponse;
  validate : option ConversionOptions → option string → ConversionAmount →
             SE W ConversionError (option ConversionEstimate);
  fetch_limits : FetchConversionLimitsRequest → SE W ConversionError FetchConversionLimitsResponse
}.

Section stable.
Context {W : Type} {pt : PaymentTypes} {cs : CacheStorage W} {ps : PaymentStorage W} {ti : TransferIds}
  {sw : StableWorld W} {wal : StableWallet W} {tc : TokenConverter W}.
Context (config : StableBalanceConfig).

Abbreviation C A := (SE W ConversionError A).

Definition modify (f : StableBalance → StableBalance) (w : W) : W := put_sb (f (sb w)) w.

(** A change of the state alone, and one of the queue that writes its cache. *)
Definition change {E} (f : StableBalance → StableBalance) : SE W E () := λ w, (modify f w, Ok ()).

Definition on_queue {E A} (f : bool → ConversionQueue → ConversionQueue * A) : SE W E A := λ w,
  let '(w, stored) := queue_stored w in
  let '(q, a) := f stored (queue (sb w)) in
  (modify (set_queue q) w, Ok a).

Definition push_auto {E} : SE W E () := change (λ s, set_queue (push_auto_convert (queue s)) s).

(** ** [ExpiringCell] *)

Definition cell_get {E} : SE W E (option EffectiveValues) := λ w,
  match effective_values (sb w) with
  | None => (w, Ok None)
  | Some (value, expiration) =>
      let '(w, now) := clock_ms w in
      (w, Ok (n ← now; if n <? expiration then Some value else None))
  end.

Definition cell_set {E} (value : EffectiveValues) (ttl_ms : Z) : SE W E () := λ w,
  let '(w, now) := clock_ms w in
  (modify (set_effective (Some (value, from_option (λ n, saturating_add 128 n ttl_ms) 0 now))) w, Ok ()).

(** ** State *)

Definition get_active_token_identifier {E} : SE W E (option string) :=
  λ w, (w, Ok (sbt_token_identifier <$> active_token (sb w))).
Definition get_active_label {E} : SE W E (option string) :=
  λ w, (w, Ok (sbt_label <$> active_token (sb w))).

(** The guard taken and dropped. *)
Definition acquire_payment_guard {E} : SE W E () :=
  change (λ s, set_counter (payment_counter s + 1) s).
Definition drop_payment_guard {E} : SE W E () :=
  change (λ s, set_queue (notify_one (queue s)) (set_counter (payment_counter s - 1) s)).

Definition insert_metadata (id : string) (m : PaymentMetadata) : C () :=
  se_map_err CE_Storage (insert_payment_metadata id m).

Definition parent_metadata (parent : string) : PaymentMetadata :=
  {| parent_payment_id := Some parent; pm_lnurl_pay_info := None; pm_lnurl_withdraw_info := None;
     lnurl_description := None; pm_conversion_info := None; conversion_status := None |}.
Definition status_metadata (status : ConversionStatus) : PaymentMetadata :=
  {| parent_payment_id := None; pm_lnurl_pay_info := None; pm_lnurl_withdraw_info := None;
     lnurl_description := None; pm_conversion_info := None; conversion_status := Some status |}.

(** [if let Err(e) = .. { warn!(..) }]. *)
Definition mark {E} (status : ConversionStatus) (id : string) : SE W E () :=
  try* _ := insert_payment_metadata id (status_metadata status) in se_ret ().

Fixpoint mark_all {E} (status : ConversionStatus) (ids : list string) : SE W E () :=
  match ids with
  | [] => se_ret ()
  | id :: ids => do* _ := mark status id in mark_all status ids
  end.

Definition find_label (label : string) : option StableBalanceToken :=
  List.find (λ t, String.eqb (sbt_label t) label) (tokens config).

Definition of_storage_sdk {A} (m : SE W StorageError A) : SE W SdkError A := se_map_err SdkError_of_storage m.

(** The new active token, cached; deactivation is queued for the current one. *)
Definition resolve_label (label : option string) : SE W SdkError (option StableBalanceToken) :=
  match label with
  | Some label =>
      do* token := se_lift (ok_or (find_label label)
        (InvalidInput ("Stable balance label '" +:+ label +:+ "' not found in configured tokens"))) in
      do* _ := of_storage_sdk (save_stable_balance_active_label label) in
      se_ret (Some token)
  | None =>
      do* current := get_active_token_identifier in
      do* _ := match current with
               | Some token_id => change (λ s, set_queue (push_deactivation token_id (queue s)) s)
               | None => se_ret ()
               end in
      do* _ := of_storage_sdk delete_stable_balance_active_label in
      se_ret None
  end.

Definition set_active_token (label : option string) : SE W SdkError () :=
  do* cleared_payment_ids := on_queue clear_queue in
  do* _ := mark_all ConversionFailed cleared_payment_ids in
  do* new_active := resolve_label label in
  do* _ := change (set_active new_active) in
  do* _ := change (set_effective None) in
  if bool_decide (new_active = None) then se_ret () else push_auto.

Definition resolve_initial_token {E} : SE W E (option StableBalanceToken) :=
  try* r := fetch_stable_balance_active_label in
  match r with
  | Ok (Some cached_label) => se_ret (find_label cached_label)
  | Ok None => se_ret (default_active_label config ≫= find_label)
  | Err _ => se_ret None
  end.

(** [StableBalance::new], without the registration as middleware and the worker's start. *)
Definition StableBalance_new {E} (saved : option (list PendingConversion)) : SE W E () :=
  do* initial := resolve_initial_token in
  change (λ _, {| active_token := initial; effective_values := None; queue := ConversionQueue_new saved;
                  payment_counter := 0; synced := false |}).

(** [u64::try_from(x).unwrap_or(u64::MAX)]. *)
Definition to_u64 (x : Z) : Z := if x <=? umax 64 then x else umax 64.

Definition effective_threshold (min_from : Z) : Z :=
  match threshold_sats config with
  | Some t => if min_from <=? t then t else min_from
  | None => min_from
  end.

Definition get_or_init_effective_values (active_token_identifier : string) : C (Z * Z) :=
  do* cached := cell_get in
  match cached with
  | Some values => se_ret (ev_threshold values, ev_min_from_amount values)
  | None =>
      do* limits := fetch_limits {| fl_conversion_type := FromBitcoin;
                                    fl_token_identifier := Some active_token_identifier |} in
      let min_from := to_u64 (default 0 (min_from_amount limits)) in
      let threshold := effective_threshold min_from in
      do* _ := cell_set {| ev_threshold := threshold; ev_min_from_amount := min_from |} EFFECTIVE_VALUES_TTL_MS in
      se_ret (threshold, min_from)
  end.

Definition of_wallet {A} (m : SE W string A) : C A := se_map_err CE_Wallet m.

Definition options_for (t : ConversionType) : ConversionOptions :=
  {| conversion_type := t; max_slippage_bps := sbc_max_slippage_bps config; completion_timeout_secs := None |}.

Definition get_conversion_options (options : option ConversionOptions) (token_identifier : option string)
    (payment_amount : Z) : C (option ConversionOptions) :=
  match options, token_identifier with
  | Some o, _ => se_ret (Some o)
  | None, Some _ => se_ret None
  | None, None =>
      do* active := get_active_token_identifier in
      match active with
      | None => se_ret None
      | Some token =>
          do* balance_sats := of_wallet get_balance in
          if payment_amount <=? balance_sats then se_ret None
          else se_ret (Some (options_for (ToBitcoin token)))
      end
  end.

Definition should_trigger_per_receive {E} (payment : Payment) : SE W E bool :=
  if negb (bool_decide (payment_type payment = Receive)) || bool_decide (p_method payment = Token)
  then se_ret false
  else if is_conversion_child payment then se_ret false
  else
    do* active := get_active_token_identifier in
    match active with
    | None => se_ret false
    | Some token_id =>
        try* values := get_or_init_effective_values token_id in
        match values with
        | Err _ => se_ret false
        | Ok (_, min_from) => se_ret (negb (to_u64 (amount payment) <? min_from))
        end
    end.

(** ** Conversions *)

Definition is_conversion_receive (payment : Payment) : bool :=
  match details payment with Some (SparkDetails _ _ (Some _)) => true | _ => false end.

(** [storage.get_payment_by_id(..).await.is_ok()]. *)
Definition payment_exists {E} (id : string) : SE W E bool :=
  try* r := get_payment_by_id id in se_ret (is_ok r).

Definition per_receive_convert (parent_payment_id : string) : C bool :=
  do* active := get_active_token_identifier in
  match active with
  | None => se_ret false
  | Some active_token_identifier =>
      do* payment := se_map_err CE_Storage (get_payment_by_id parent_payment_id) in
      if is_conversion_receive payment then se_ret false
      else
        do* (_, min_from) := get_or_init_effective_values active_token_identifier in
        if to_u64 (amount payment) <? min_from then se_ret false
        else
          let transfer_id := per_receive_transfer_id parent_payment_id in
          do* exists_ := payment_exists (TransferId_fmt transfer_id) in
          if exists_ : bool then se_ret false
          else
            do* response := convert (options_for FromBitcoin) AutoConversion (Some active_token_identifier)
                              (AmountIn (amount payment)) (Some transfer_id) in
            do* _ := insert_metadata (sent_payment_id response) (parent_metadata parent_payment_id) in
            do* _ := insert_metadata (received_payment_id response) (parent_metadata parent_payment_id) in
            se_ret true
  end.

(** The calls of [join!] one after the other. *)
Definition produces_token_dust (active_token_identifier : string) (from_btc_options : ConversionOptions)
    (balance_sats : Z) : C bool :=
  try* limits_res := fetch_limits {| fl_conversion_type := ToBitcoin active_token_identifier;
                                     fl_token_identifier := Some active_token_identifier |} in
  try* balances_res := get_token_balances in
  match (match limits_res with Ok l => min_from_amount l | Err _ => None end) with
  | None => se_ret false
  | Some to_btc_min =>
      let balances := match balances_res with Ok b => b | Err _ => ∅ end in
      let existing_tokens := default 0 (balances !! active_token_identifier) in
      if to_btc_min <=? existing_tokens then se_ret false
      else
        try* est := validate (Some from_btc_options) (Some active_token_identifier) (AmountIn balance_sats) in
        match est with
        | Ok (Some est) => se_ret (saturating_add 128 existing_tokens (ce_amount_out est) <? to_btc_min)
        | _ => se_ret false
        end
  end.

(** The counter is read and the balance fetched under the payment lock; [None] with payments
    in flight. *)
Definition locked_balance : C (option Z) := λ w,
  if 0 <? payment_counter (sb w) then (w, Ok None)
  else (do* balance_sats := of_wallet get_balance in se_ret (Some balance_sats)) w.

(** The two payments of a conversion: the sent one belongs to the received one, which is
    completed. *)
Definition link_conversion (response : TokenConversionResponse) : C () :=
  do* _ := insert_metadata (sent_payment_id response) (parent_metadata (received_payment_id response)) in
  insert_metadata (received_payment_id response) (status_metadata ConversionCompleted).

Definition has_queued {E} : SE W E bool := λ w, (w, Ok (has_per_receive (queue (sb w)))).

Definition auto_convert : C bool :=
  do* active := get_active_token_identifier in
  match active with
  | None => se_ret false
  | Some active_token_identifier =>
      do* balance := locked_balance in
      match balance with
      | None => se_ret false
      | Some balance_sats =>
          do* (threshold, _) := get_or_init_effective_values active_token_identifier in
          if balance_sats <? threshold then se_ret false
          else
            let from_btc_options := options_for FromBitcoin in
            do* dust := produces_token_dust active_token_identifier from_btc_options balance_sats in
            if dust : bool then se_ret false
            else
              do* queued := has_queued in
              if queued : bool then se_ret false
              else
                do* response := convert from_btc_options AutoConversion (Some active_token_identifier)
                                  (AmountIn balance_sats) None in
                do* _ := link_conversion response in
                se_ret true
      end
  end.

Definition deactivation_convert (token_identifier : string) : C bool :=
  do* token_balances := of_wallet get_token_balances in
  let token_balance := default 0 (token_balances !! token_identifier) in
  if token_balance =? 0 then se_ret false
  else
    do* limits := fetch_limits {| fl_conversion_type := ToBitcoin token_identifier;
                                  fl_token_identifier := Some token_identifier |} in
    if from_option (λ min_from, token_balance <? min_from) false (min_from_amount limits) then se_ret false
    else
      do* response := convert (options_for (ToBitcoin token_identifier)) AutoConversion (Some token_identifier)
                        (AmountIn token_balance) None in
      do* _ := link_conversion response in
      se_ret true.

(** ** The worker *)

Definition per_receive_result (payment_id : string) (r : result bool ConversionError) : SE W () PerReceiveResult :=
  match r with
  | Ok converted =>
      do* _ := if converted then mark ConversionCompleted payment_id else se_ret () in
      se_ret (Done converted)
  | Err e => se_ret (if is_duplicate_transfer e then Done false else Retry)
  end.

Definition complete (task : ConversionTask) : SE W () () :=
  on_queue (λ stored q, (complete_task stored task q, ())).

Definition sync_if (converted : bool) : SE W () () :=
  λ w, ((if converted then trigger_sync w else w), Ok ()).

(** One task of the main loop. *)
Definition process_task (task : ConversionTask) : SE W () () :=
  match task with
  | PerReceive payment_id =>
      try* r := per_receive_convert payment_id in
      do* outcome := per_receive_result payment_id r in
      match outcome with
      | Done converted =>
          do* _ := complete task in
          do* _ := if converted
                   then change (λ s, set_queue (clear_pending_auto_convert (queue s)) s) else se_ret () in
          sync_if converted
      | Retry => on_queue (λ stored q, (defer_task stored payment_id q, ()))
      end
  | AutoConvert =>
      try* r := auto_convert in
      do* _ := complete task in sync_if (match r with Ok converted => converted | Err _ => false end)
  | Deactivation token_id =>
      try* r := deactivation_convert token_id in
      do* _ := complete task in sync_if (match r with Ok converted => converted | Err _ => false end)
  end.

(** [while let Some(task) = queue.next_task().await]; [None] when the fuel runs out. *)
Fixpoint drain (fuel : nat) (w : W) : option (W * list ConversionTask) :=
  match next_task (queue (sb w)) with
  | None => Some (w, [])
  | Some task =>
      match fuel with
      | O => None
      | S fuel =>
          '(w', tasks) ← drain fuel (process_task task w).1;
          Some (w', task :: tasks)
      end
  end.

(** The start of the worker, before the first sync and after it. *)
Definition prepare_worker : SE W () () :=
  do* active := get_active_token_identifier in
  do* _ := match active with
           | Some token_id => try* _ := get_or_init_effective_values token_id in se_ret ()
           | None => se_ret ()
           end in
  do* fetched := on_queue (λ fetched q, (q, fetched)) in
  on_queue (λ stored q, (recover_pending_conversions fetched stored q, ())).

Definition worker_synced : SE W () () :=
  do* _ := change (set_synced false) in
  push_auto.

(** ** Events *)

(** The events the middleware looks at, and the others. *)
Inductive StableEvent : Type := Synced | OfPayment (e : SdkEvent) | OtherEvent (name : string).

Definition with_details (d : ConversionDetails) (p : Payment) : Payment :=
  {| p_id := p_id p; payment_type := payment_type p; p_status := p_status p; amount := amount p;
     fees := fees p; timestamp := timestamp p; p_method := p_method p; details := details p;
     conversion_details := Some d |}.

Definition pending_details : ConversionDetails :=
  {| cd_status := ConversionPending; cd_from := None; cd_to := None |}.

Definition process_synced : SE W () () :=
  do* expired_payment_ids := λ w,
    let '(w, now) := clock_secs w in on_queue (λ stored, clear_expired_tasks now stored) w in
  do* _ := mark_all ConversionFailed expired_payment_ids in
  do* _ := change (set_synced true) in
  push_auto.

Definition process_succeeded (payment : Payment) : SE W () Payment :=
  do* resolved := on_queue (λ stored,
    resolve_by_conversion_payment (λ id, TransferId_fmt (per_receive_transfer_id id)) stored (p_id payment)) in
  match resolved with
  | Some _ => se_ret payment
  | None =>
      do* trigger := should_trigger_per_receive payment in
      if trigger : bool then
        do* _ := mark ConversionPending (p_id payment) in
        do* _ := λ w,
          let '(w, now) := clock_secs w in
          on_queue (λ stored q, (push_per_receive now stored (p_id payment) q, ())) w in
        se_ret (with_details pending_details payment)
      else
        do* _ := push_auto in
        se_ret payment
  end.

Definition process (event : StableEvent) : SE W () (option StableEvent) :=
  match event with
  | Synced => do* _ := process_synced in se_ret (Some Synced)
  | OfPayment (PaymentSucceeded payment) =>
      do* payment := process_succeeded payment in se_ret (Some (OfPayment (PaymentSucceeded payment)))
  | _ => se_ret (Some event)
  end.
End stable.
