(* ===== verification/StableBalanceProps.v ===== *)
(** What the stable balance promises ([StableBalance]): what is converted, when and how it is
    recorded, what a change of the active token leaves behind, and that the worker comes to an
    end of its queue. *)
From stdpp Require Import base gmap strings list.
From S2P Require Import Prelude Payments ConversionQueue ObjectCache PaymentSync Traces StableBalance.

(** The conversions asked for, with their response, and the metadata written. *)
Inductive ConversionEvent {pt : PaymentTypes} {ti : TransferIds} : Type :=
| Converted (options : ConversionOptions) (token : option string) (amount : ConversionAmount)
    (transfer_id : option TransferId) (response : option TokenConversionResponse)
| Wrote (payment_id : string) (metadata : PaymentMetadata) (accepted : bool).

Section logs.
Context {W : Type} {pt : PaymentTypes} {cs : CacheStorage W} {ps : PaymentStorage W} {ti : TransferIds}
  {sw : StableWorld W} {wal : StableWallet W} {tc : TokenConverter W} {lg : Log W ConversionEvent}.
Context (config : StableBalanceConfig).

Definition response_of {E A} (r : result A E) : option A := match r with Ok a => Some a | Err _ => None end.

(** The state is in the world; only conversions and writes of metadata are logged. *)
Class StableLogLaws : Prop := {
  sb_put s w : sb (put_sb s w) = s;
  log_put s w : log (put_sb s w) = log w;
  log_clock_ms w : log (clock_ms w).1 = log w;
  log_queue_stored w : log (queue_stored w).1 = log w;
  log_trigger_sync w : log (trigger_sync w) = log w;
  quiet_balance : quiet get_balance;
  quiet_token_balances : quiet get_token_balances;
  quiet_validate o t a : quiet (validate o t a);
  quiet_limits req : quiet (fetch_limits req);
  quiet_payment id : quiet (get_payment_by_id id);
  quiet_set_item k v : quiet (set_cached_item k v);
  quiet_delete_item k : quiet (delete_cached_item k);
  log_metadata id m : emits (insert_payment_metadata id m) (λ r l, l = [Wrote id m (is_ok r)]);
  log_convert o p t a id :
    emits (convert o p t a id) (λ r l, l = [Converted o t a id (response_of r)])
}.
Context {ll : StableLogLaws}.

Lemma quiet_active {E} : quiet (E := E) get_active_token_identifier.
Proof. by apply quiet_same. Qed.
Lemma quiet_queued {E} : quiet (E := E) has_queued.
Proof. by apply quiet_same. Qed.
Lemma quiet_change {E} f : quiet (E := E) (change f).
Proof using ll. apply quiet_same. intros w. apply log_put. Qed.
Lemma quiet_on_queue {E A} (f : bool → ConversionQueue → ConversionQueue * A) : quiet (E := E) (on_queue f).
Proof using ll.
  apply quiet_same. intros w. unfold on_queue. pose proof (log_queue_stored w) as H.
  destruct (queue_stored w) as [w1 stored]. simpl in *. destruct (f _ _) as [q a]. simpl.
  unfold modify. by rewrite log_put.
Qed.
Lemma quiet_sync b : quiet (sync_if b).
Proof using ll. apply quiet_same. intros w. destruct b; [apply log_trigger_sync|done]. Qed.

Lemma quiet_cell_get {E} : quiet (E := E) cell_get.
Proof using ll.
  apply quiet_same. intros w. unfold cell_get. pose proof (log_clock_ms w) as H.
  destruct (effective_values (sb w)) as [[v t]|]; [|done]. by destruct (clock_ms w).
Qed.
Lemma quiet_cell_set {E} v ttl : quiet (E := E) (cell_set v ttl).
Proof using ll.
  apply quiet_same. intros w. unfold cell_set. pose proof (log_clock_ms w) as H.
  destruct (clock_ms w) as [w1 now]. simpl in *. unfold modify. by rewrite log_put.
Qed.

#[local] Hint Resolve quiet_active quiet_queued quiet_change quiet_on_queue quiet_sync quiet_cell_get
  quiet_cell_set quiet_balance quiet_token_balances quiet_validate quiet_limits quiet_payment : quiet.

Lemma quiet_values token : quiet (get_or_init_effective_values config token).
Proof using ll. unfold get_or_init_effective_values. solve_quiet. Qed.

Lemma quiet_dust token o b : quiet (produces_token_dust token o b).
Proof using ll. unfold produces_token_dust. solve_quiet. Qed.

Lemma quiet_locked : quiet locked_balance.
Proof using ll.
  assert (quiet (se_bind (of_wallet get_balance) (λ b, se_ret (Some b)))) as Hrun
    by (unfold of_wallet; solve_quiet).
  intros w w' r. unfold locked_balance. destruct (0 <? payment_counter (sb w)); [|exact (Hrun w w' r)].
  intros [= <- <-]. exists []. by rewrite app_nil_r.
Qed.

Lemma quiet_exists {E} id : quiet (E := E) (payment_exists id).
Proof using ll. unfold payment_exists. solve_quiet. Qed.
#[local] Hint Resolve quiet_values quiet_dust quiet_locked quiet_exists : quiet.

(** ** Writes *)

(** The writes of a list, in order, up to the first that fails; all of them when [done]. *)
Inductive written : list (string * PaymentMetadata) → bool → list ConversionEvent → Prop :=
| written_all : written [] true []
| written_fails id m ms : written ((id, m) :: ms) false [Wrote id m false]
| written_next id m ms b l : written ms b l → written ((id, m) :: ms) b (Wrote id m true :: l).

Lemma emits_insert id m : emits (insert_metadata id m) (λ r l, written [(id, m)] (is_ok r) l).
Proof using ll.
  unfold insert_metadata. apply emits_map_err. eapply emits_conseq; [apply log_metadata|].
  intros [a|e] l ->; simpl; [apply written_next; constructor|constructor].
Qed.

Lemma insert_then {A} id m ms (k : SE W ConversionError A) (Q : result A ConversionError → Prop) :
  (∀ e, Q (Err e)) → emits k (λ r l, written ms (is_ok r) l ∧ Q r) →
  emits (se_bind (insert_metadata id m) (λ _, k)) (λ r l, written ((id, m) :: ms) (is_ok r) l ∧ Q r).
Proof using ll.
  intros He Hk. unfold insert_metadata. apply emits_bind, emits_map_err. eapply emits_conseq; [apply log_metadata|].
  intros [[]|e] l ->; simpl; [|split; [constructor|done]].
  eapply emits_conseq; [exact Hk|]. intros r l [Hr HQ]. split; [by constructor|done].
Qed.
(** ** Conversions of received payments *)

(** The conversion asked for in the world [w], with the links that are written when it was made;
    [all] when they all were. *)
Definition conversion_made (options : ConversionOptions) (token : string) (amount : Z)
    (transfer_id : option TransferId) (links : TokenConversionResponse → list (string * PaymentMetadata))
    (all : bool) (w w' : W) : Prop :=
  ∃ w1 response rest,
    convert options AutoConversion (Some token) (AmountIn amount) transfer_id w = (w1, response) ∧
    log w' = log w ++ Converted options (Some token) (AmountIn amount) transfer_id (response_of response) :: rest ∧
    match response with
    | Ok response => written (links response) all rest
    | Err _ => rest = [] ∧ all = false
    end.

Lemma convert_then options token a id links (k : TokenConversionResponse → SE W ConversionError bool) w w' r :
  (∀ response, emits (k response) (λ r l, written (links response) (is_ok r) l ∧ r ≠ Ok false)) →
  se_bind (convert options AutoConversion (Some token) (AmountIn a) id) k w = (w', r) →
  conversion_made options token a id links (is_ok r) w w' ∧ r ≠ Ok false.
Proof using ll.
  intros Hk H. unfold conversion_made.
  destruct (convert options AutoConversion (Some token) (AmountIn a) id w) as [w1 response] eqn:Hc.
  destruct (log_convert _ _ _ _ _ _ _ _ Hc) as (l1 & Hl1 & ->). unfold se_bind in H. rewrite Hc in H.
  destruct response as [response|e].
  - destruct (Hk response _ _ _ H) as (l2 & Hl2 & Hlinks & Hr). split; [|done].
    exists w1, (Ok response), l2. by rewrite Hl2, Hl1, <- app_assoc.
  - injection H as <- <-. split; [|done]. by exists w1, (Err e), [].
Qed.

Definition payment_links (id : string) (response : TokenConversionResponse) : list (string * PaymentMetadata) :=
  [(sent_payment_id response, parent_metadata id); (received_payment_id response, parent_metadata id)].

(** Why a payment is converted to [token]: from [w] on the storage returns it and it is no
    conversion itself, it is worth converting by the limits then read, and a payment with the id
    of its conversion is not found; [w'] is the world this leaves. *)
Definition converts_payment (id : string) (token : StableBalanceToken) (payment : Payment) (w w' : W) : Prop :=
  ∃ threshold min_from e w1 w2,
    get_payment_by_id id w = (w1, Ok payment) ∧ is_conversion_receive payment = false ∧
    get_or_init_effective_values config (sbt_token_identifier token) w1 = (w2, Ok (threshold, min_from)) ∧
    min_from ≤ to_u64 (amount payment) ∧
    get_payment_by_id (TransferId_fmt (per_receive_transfer_id id)) w2 = (w', Err e).

(** From [w] to [w'] a received payment is converted, in a world reached by the reasons alone. *)
Definition payment_conversion (id : string) (all : bool) (w w' : W) : Prop :=
  ∃ token payment w1, active_token (sb w) = Some token ∧ converts_payment id token payment w w1 ∧ log w1 = log w ∧
    conversion_made (options_for config FromBitcoin) (sbt_token_identifier token) (amount payment)
      (Some (per_receive_transfer_id id)) (payment_links id) all w1 w'.

(** A call that asks for nothing, or for a conversion as [conversion] says. *)
Definition steps (conversion : bool → W → W → Prop) (w w' : W) (r : result bool ConversionError) : Prop :=
  (log w' = log w ∧ r ≠ Ok true) ∨ (conversion (is_ok r) w w' ∧ r ≠ Ok false).

Lemma payment_exists_false {E} id w w' :
  @payment_exists W pt ps E id w = (w', Ok false) → ∃ e, get_payment_by_id id w = (w', Err e).
Proof.
  unfold payment_exists, se_try. destruct (get_payment_by_id id w) as [w1 [p|e]]; [done|].
  intros [= <-]. by exists e.
Qed.

(** Goes through a call that adds nothing: its error ends the call, its value names the world. *)
Ltac quiet_step H a w1 Hm Hl :=
  apply bind_run in H as [(?e & Hm & ->)|(a & w1 & Hm & H)];
  [left; split; [eapply quiet_run in Hm; [congruence|solve_quiet]|done]|];
  lazymatch type of Hm with ?m ?w = _ =>
    assert (log w1 = log w) as Hl by (eapply (quiet_run m w); [solve_quiet|exact Hm]) end.

(** A call that returns without asking for anything. *)
Ltac nothing H := injection H as <- <-; left; split; [congruence|done].

Lemma per_receive_convert_log id w w' r :
  per_receive_convert config id w = (w', r) → steps (payment_conversion id) w w' r.
Proof using ll.
  unfold per_receive_convert. intros H. unfold se_bind at 1, get_active_token_identifier in H.
  destruct (active_token (sb w)) as [token|] eqn:Htoken; simpl fmap in H; [|nothing H].
  quiet_step H payment w1 Hpayment Hl1. apply se_map_err_ok in Hpayment.
  destruct (is_conversion_receive payment) eqn:Hreceive; [nothing H|].
  quiet_step H values w2 Hvalues Hl2. destruct values as [threshold min_from].
  destruct (Z.ltb_spec (to_u64 (amount payment)) min_from) as [|Hmin]; [nothing H|].
  cbv zeta in H. quiet_step H known w3 Hknown Hl3. destruct known; [nothing H|].
  apply payment_exists_false in Hknown as [e Hknown].
  apply (convert_then _ _ _ _ (payment_links id)) in H as [Hmade Hr].
  - right. split; [|done]. exists token, payment, w3. split_and!; [done| |congruence|done].
    by exists threshold, min_from, e, w1, w2.
  - intros response. apply insert_then; [done|]. apply insert_then; [done|]. apply emits_ret. split; [constructor|done].
Qed.

(** ** Conversions of balances *)

(** Converting [balance] leaves a balance of the token that can be converted back, as far as
    the limit and the estimate are known. *)
Definition no_dust (token : string) (balance : Z) (w w' : W) : Prop :=
  ∃ limits balances w1 w2,
    fetch_limits {| fl_conversion_type := ToBitcoin token; fl_token_identifier := Some token |} w = (w1, limits) ∧
    get_token_balances w1 = (w2, balances) ∧
    let existing := default 0 (match balances with Ok b => b | Err _ => ∅ end !! token) in
    match (match limits with Ok l => min_from_amount l | Err _ => None end) with
    | None => w' = w2
    | Some m =>
        (m ≤ existing ∧ w' = w2) ∨
        ∃ est, validate (Some (options_for config FromBitcoin)) (Some token) (AmountIn balance) w2 = (w', est) ∧
          ∀ e, est = Ok (Some e) → m ≤ saturating_add 128 existing (ce_amount_out e)
    end.

Lemma produces_no_dust token balance w w' :
  produces_token_dust token (options_for config FromBitcoin) balance w = (w', Ok false) → no_dust token balance w w'.
Proof.
  unfold produces_token_dust, no_dust, se_try, se_ret. cbv beta zeta.
  destruct (fetch_limits _ w) as [w1 limits] eqn:Hlimits.
  destruct (get_token_balances w1) as [w2 balances] eqn:Hbalances.
  intros H. exists limits, balances, w1, w2. split_and!; [done..|].
  destruct (match limits with Ok l => min_from_amount l | Err _ => None end) as [m|]; [|by injection H as <-].
  destruct (Z.leb_spec m (default 0 (match balances with Ok b => b | Err _ => ∅ end !! token)));
    [injection H as <-; by left|right].
  destruct (validate _ _ _ w2) as [w3 est]. exists est. destruct est as [[est|]|e]; injection H as <-; split; try done.
  intros e [= <-]. by apply Z.ltb_ge.
Qed.

(** Why the balance is converted to [token]: it is read from [w] on without a payment in
    flight, it reaches the threshold, no dust comes of it, and in [w'], where all this is known,
    no received payment waits. *)
Definition converts_balance (token : string) (balance : Z) (w w' : W) : Prop :=
  ∃ threshold min_from w1 w2,
    payment_counter (sb w) ≤ 0 ∧ get_balance w = (w1, Ok balance) ∧
    get_or_init_effective_values config token w1 = (w2, Ok (threshold, min_from)) ∧ threshold ≤ balance ∧
    no_dust token balance w2 w' ∧ has_per_receive (queue (sb w')) = false.

Definition balance_links (response : TokenConversionResponse) : list (string * PaymentMetadata) :=
  [(sent_payment_id response, parent_metadata (received_payment_id response));
   (received_payment_id response, status_metadata ConversionCompleted)].

Lemma emits_link response :
  emits (do* _ := link_conversion response in se_ret true)
    (λ r l, written (balance_links response) (is_ok r) l ∧ r ≠ Ok false).
Proof using ll.
  unfold link_conversion.
  assert (emits (se_bind (insert_metadata (sent_payment_id response) (parent_metadata (received_payment_id response)))
            (λ _, do* _ := insert_metadata (received_payment_id response) (status_metadata ConversionCompleted) in
                  se_ret true))
          (λ r l, written (balance_links response) (is_ok r) l ∧ r ≠ Ok false)) as H.
  { apply insert_then; [done|]. apply insert_then; [done|]. apply emits_ret. split; [constructor|done]. }
  intros w w' r Hr. apply (H w w' r). rewrite <- Hr. unfold se_bind.
  by destruct (insert_metadata (sent_payment_id response) _ w) as [w1 [[]|e]].
Qed.

Definition balance_conversion (all : bool) (w w' : W) : Prop :=
  ∃ token balance w1, active_token (sb w) = Some token ∧ converts_balance (sbt_token_identifier token) balance w w1 ∧
    log w1 = log w ∧
    conversion_made (options_for config FromBitcoin) (sbt_token_identifier token) balance None balance_links all w1 w'.

Lemma locked_balance_ok w w' b :
  locked_balance w = (w', Ok (Some b)) → payment_counter (sb w) ≤ 0 ∧ get_balance w = (w', Ok b).
Proof.
  unfold locked_balance. destruct (Z.ltb_spec 0 (payment_counter (sb w))) as [|Hc]; [done|].
  by intros (w1 & b' & Hb%se_map_err_ok & [= <- <-])%se_bind_ok.
Qed.

Lemma auto_convert_log w w' r :
  auto_convert config w = (w', r) → steps balance_conversion w w' r.
Proof using ll.
  unfold auto_convert. intros H. unfold se_bind at 1, get_active_token_identifier in H.
  destruct (active_token (sb w)) as [token|] eqn:Htoken; simpl fmap in H; [|nothing H].
  quiet_step H b w1 Hbalance Hl1. destruct b as [balance|]; [|nothing H].
  apply locked_balance_ok in Hbalance as [Hcounter Hbalance].
  quiet_step H values w2 Hvalues Hl2. destruct values as [threshold min_from].
  destruct (Z.ltb_spec balance threshold) as [|Hthreshold]; [nothing H|].
  cbv zeta in H. quiet_step H dust w3 Hdust Hl3. destruct dust; [nothing H|]. apply produces_no_dust in Hdust.
  unfold se_bind at 1, has_queued in H. destruct (has_per_receive (queue (sb w3))) eqn:Hqueued; [nothing H|].
  apply (convert_then _ _ _ _ balance_links) in H as [Hmade Hr]; [|exact emits_link].
  right. split; [|done]. exists token, balance, w3. split_and!; [done| |congruence|done].
  by exists threshold, min_from, w1, w2.
Qed.

(** Why a balance of a token is converted back: from [w] on it is read as the whole balance of
    the token, and is not below the limit. *)
Definition converts_tokens (token : string) (balance : Z) (w w' : W) : Prop :=
  ∃ balances limits w1,
    get_token_balances w = (w1, Ok balances) ∧ balance = default 0 (balances !! token) ∧ balance ≠ 0 ∧
    fetch_limits {| fl_conversion_type := ToBitcoin token; fl_token_identifier := Some token |} w1 = (w', Ok limits) ∧
    ∀ m, min_from_amount limits = Some m → m ≤ balance.

Definition token_conversion (token : string) (all : bool) (w w' : W) : Prop :=
  ∃ balance w1, converts_tokens token balance w w1 ∧ log w1 = log w ∧
    conversion_made (options_for config (ToBitcoin token)) token balance None balance_links all w1 w'.

Lemma deactivation_convert_log token w w' r :
  deactivation_convert config token w = (w', r) → steps (token_conversion token) w w' r.
Proof using ll.
  unfold deactivation_convert, of_wallet. intros H.
  quiet_step H balances w1 Hbalances Hl1. apply se_map_err_ok in Hbalances. cbv zeta in H.
  destruct (Z.eqb_spec (default 0 (balances !! token)) 0) as [|Hpos]; [nothing H|].
  quiet_step H limits w2 Hlimits Hl2.
  destruct (from_option _ false _) eqn:Hmin; [nothing H|].
  apply (convert_then _ _ _ _ balance_links) in H as [Hmade Hr]; [|exact emits_link].
  right. split; [|done]. exists (default 0 (balances !! token)), w2. split_and!; [|congruence|done].
  exists balances, limits, w1. split_and!; [done..|].
  intros m Hm. rewrite Hm in Hmin. by apply Z.ltb_ge in Hmin.
Qed.

(** ** A task of the worker *)

(** What a task adds to the log from [w] to [w']: nothing, or one conversion with its links, for
    its reasons in the worlds the task went through; a received payment is then completed, once
    it is converted and linked. *)
Definition task_steps (task : ConversionTask) (w w' : W) : Prop :=
  log w' = log w ∨
  match task with
  | PerReceive id => ∃ all w1, payment_conversion id all w w1 ∧
      if all then ∃ accepted, log w' = log w1 ++ [Wrote id (status_metadata ConversionCompleted) accepted]
      else log w' = log w1
  | AutoConvert => ∃ all w1, balance_conversion all w w1 ∧ log w' = log w1
  | Deactivation id => ∃ all w1, token_conversion id all w w1 ∧ log w' = log w1
  end.

Lemma quiet_complete task : quiet (complete task).
Proof using ll. apply quiet_on_queue. Qed.
#[local] Hint Resolve quiet_complete : quiet.

Lemma emits_mark {E} status id :
  emits (E := E) (mark status id) (λ _ l, ∃ b, l = [Wrote id (status_metadata status) b]).
Proof using ll.
  unfold mark. apply emits_try. eapply emits_conseq; [apply log_metadata|]. intros r l ->.
  apply emits_ret. by exists (is_ok r).
Qed.

Lemma emits_mark_all {E} status ids :
  emits (E := E) (mark_all status ids) (λ _ l, Forall2 (λ id e, ∃ b, e = Wrote id (status_metadata status) b) ids l).
Proof using ll.
  induction ids as [|id ids IH]; cbn [mark_all]; [by apply emits_ret|].
  apply emits_bind. intros w w' r Hr. destruct (emits_mark status id w w' r Hr) as (l & Hl & b & ->).
  exists [Wrote id (status_metadata status) b]. split; [done|].
  destruct r as [[]|e]; [|unfold mark, se_try in Hr; by destruct (insert_payment_metadata _ _ w)].
  eapply emits_conseq; [exact IH|]. intros r l Hall. constructor; [by exists b|done].
Qed.

(** A change of the active token marks what was in the queue as failed, and writes no more. *)
Lemma set_active_token_log label w w' r :
  set_active_token config label w = (w', r) →
  ∃ l, log w' = log w ++ l ∧
    Forall2 (λ id e, ∃ b, e = Wrote id (status_metadata ConversionFailed) b)
      (payment_id <$> q_per_receive (queue (sb (queue_stored w).1))) l.
Proof using ll.
  unfold set_active_token. unfold se_bind at 1, on_queue at 1. pose proof (log_queue_stored w) as Hlog.
  destruct (queue_stored w) as [w0 stored]. simpl in *. intros H.
  assert (∀ m : SE W SdkError (), quiet m → emits (se_bind (mark_all ConversionFailed
    (payment_id <$> q_per_receive (queue (sb w0)))) (λ _, m)) (λ _ l,
      Forall2 (λ id e, ∃ b, e = Wrote id (status_metadata ConversionFailed) b)
        (payment_id <$> q_per_receive (queue (sb w0))) l)) as Hmarks.
  { intros m Hm. apply emits_bind. eapply emits_conseq; [apply emits_mark_all|]. intros [[]|e] l Hl; [|done].
    eapply emits_conseq; [exact Hm|]. intros r' l' ->. by rewrite app_nil_r. }
  apply Hmarks in H as (l & Hl & Hall).
  - exists l. split; [|done]. by rewrite Hl; unfold modify; rewrite log_put, Hlog.
  - unfold resolve_label, of_storage_sdk, save_stable_balance_active_label, delete_stable_balance_active_label, push_auto.
    pose proof quiet_set_item. pose proof quiet_delete_item. pose proof @quiet_change. solve_quiet.
Qed.

(** The rest of a turn for a received payment: it is completed when it was converted. *)
Lemma finish_per_receive id r :
  emits (do* outcome := per_receive_result id r in
         match outcome with
         | Done converted =>
             do* _ := complete (PerReceive id) in
             do* _ := if converted then change (λ s, set_queue (clear_pending_auto_convert (queue s)) s) else se_ret () in
             sync_if converted
         | Retry => on_queue (λ stored q, (defer_task stored id q, ()))
         end) (λ _ l, match r with
                      | Ok true => ∃ b, l = [Wrote id (status_metadata ConversionCompleted) b]
                      | _ => l = []
                      end).
Proof using ll.
  destruct r as [[]|e]; [|unfold per_receive_result; solve_quiet..].
  unfold per_receive_result. apply emits_bind, emits_bind. eapply emits_conseq; [apply emits_mark|].
  intros [[]|[]] l1 [b ->]; [|by exists b].
  apply emits_ret. eapply (emits_conseq _ (λ _ l, l = [])); [solve_quiet|]. intros ? ? ->. by exists b.
Qed.

(** C12: a task of the worker asks for one conversion at most, for reasons it read before, in the
    states it went through from its start to the call of the converter, and with the token that
    was active at its start.  A received payment is converted whole, under the identifier made
    of its own, when it is no conversion itself, reaches the minimum and the lookup of a payment
    with that identifier finds none; it is only marked as completed when the conversion was
    made and both its payments are linked to it.  The balance is converted when no payment was
    in flight as it was read, it reaches the threshold, it leaves no dust (as far as the limit
    and the estimate could be read) and, in the state in which the converter is called, no
    received payment is in the queue; on deactivation the whole token balance read is, unless
    below the minimum. *)
Theorem conversions_have_reasons task w w' r :
  process_task config task w = (w', r) → task_steps task w w'.
Proof using ll.
  destruct task as [id| |id]; cbn [process_task]; unfold se_try.
  - destruct (per_receive_convert config id w) as [w1 c] eqn:Hc. intros Hrest.
    destruct (finish_per_receive _ _ _ _ _ Hrest) as (l & Hl & Hr). apply per_receive_convert_log in Hc.
    destruct Hc as [[Hw1 Hc]|[Hmade Hc]].
    + left. rewrite Hl, Hw1. destruct c as [[]|e]; [done|..]; by rewrite Hr, app_nil_r.
    + right. exists (is_ok c), w1. split; [exact Hmade|].
      destruct c as [[]|e]; [by destruct Hr as [b ->]; exists b|done|]. by rewrite Hl, Hr, app_nil_r.
  - destruct (auto_convert config w) as [w1 c] eqn:Hc. intros Hrest.
    apply quiet_run in Hrest; [|solve_quiet]. apply auto_convert_log in Hc as [[Hw1 _]|[Hmade _]];
      [left; congruence|right; by exists (is_ok c), w1].
  - destruct (deactivation_convert config id w) as [w1 c] eqn:Hc. intros Hrest.
    apply quiet_run in Hrest; [|solve_quiet]. apply deactivation_convert_log in Hc as [[Hw1 _]|[Hmade _]];
      [left; congruence|right; by exists (is_ok c), w1].
Qed.
End logs.

(** The state put into a world is the one found there. *)
Class StateLaw {W} (sw : StableWorld W) : Prop := { state_put s w : sb (put_sb s w) = s }.

(** ** Without other tasks

    The calls of collaborators leave the state alone when no other task runs meanwhile. *)
Section calm.
Context {W : Type} {pt : PaymentTypes} {cs : CacheStorage W} {ps : PaymentStorage W} {ti : TransferIds}
  {sw : StableWorld W} {wal : StableWallet W} {tc : TokenConverter W} {lg : Log W ConversionEvent}.
Context (config : StableBalanceConfig).

Definition same_state : relation W := λ w w', sb w' = sb w.
Definition same_queue : relation W := λ w w', queue (sb w') = queue (sb w).

#[local] Instance same_state_preorder : PreOrder same_state.
Proof. split; [done|]. intros x y z Hxy Hyz. unfold same_state in *. congruence. Qed.
#[local] Instance same_queue_preorder : PreOrder same_queue.
Proof. split; [done|]. intros x y z Hxy Hyz. unfold same_queue in *. congruence. Qed.

Abbreviation calm m := (se_preserves same_state m).

Class NoOtherTask : Prop := {
  calm_put s w : sb (put_sb s w) = s;
  calm_clock_ms w : sb (clock_ms w).1 = sb w;
  calm_clock_secs w : sb (clock_secs w).1 = sb w;
  calm_stored w : sb (queue_stored w).1 = sb w;
  calm_sync w : sb (trigger_sync w) = sb w;
  calm_balance : calm get_balance;
  calm_token_balances : calm get_token_balances;
  calm_validate o t a : calm (validate o t a);
  calm_limits req : calm (fetch_limits req);
  calm_payment id : calm (get_payment_by_id id);
  calm_metadata id m : calm (insert_payment_metadata id m);
  calm_convert o p t a id : calm (convert o p t a id);
  calm_set_item k v : calm (set_cached_item k v);
  calm_delete_item k : calm (delete_cached_item k)
}.
Context {cl : NoOtherTask}.

#[global] Instance calm_state : StateLaw sw.
Proof using cl. split. exact calm_put. Qed.

Lemma calm_queue {E A} (m : SE W E A) : calm m → se_preserves same_queue m.
Proof. intros H w. unfold same_queue. by rewrite (H w). Qed.

Ltac keep :=
  cbv beta zeta;
  lazymatch goal with
  | |- se_preserves _ (se_bind _ _) => apply se_preserves_bind; [apply _| |intros ?]; keep
  | |- se_preserves _ (se_try _ _) => apply se_preserves_try; [apply _| |intros ?]; keep
  | |- se_preserves _ (se_map_err _ _) => apply se_preserves_map_err; keep
  | |- se_preserves _ (se_ret _) => apply se_preserves_ret, _
  | |- se_preserves _ (match _ with _ => _ end) => case_match; keep
  | |- _ => eauto using calm_queue, calm_balance, calm_token_balances, calm_validate, calm_limits, calm_payment,
              calm_metadata, calm_convert, calm_set_item, calm_delete_item
  end.

Lemma keep_values token : se_preserves same_queue (get_or_init_effective_values config token).
Proof using cl.
  unfold get_or_init_effective_values.
  assert (se_preserves same_queue (E := ConversionError) cell_get) as Hget.
  { intros w. unfold same_queue, cell_get. pose proof (calm_clock_ms w) as H.
    destruct (effective_values (sb w)) as [[v t]|]; [|done]. destruct (clock_ms w). simpl in *. by rewrite H. }
  assert (∀ v ttl, se_preserves same_queue (E := ConversionError) (cell_set v ttl)) as Hset.
  { intros v ttl w. unfold same_queue, cell_set. pose proof (calm_clock_ms w) as H.
    destruct (clock_ms w). simpl in *. unfold modify. by rewrite calm_put, <- H. }
  keep.
Qed.

Lemma keep_active {E} : se_preserves same_queue (E := E) get_active_token_identifier.
Proof. by intros w. Qed.

Lemma keep_per_receive id : se_preserves same_queue (per_receive_convert config id).
Proof using cl.
  unfold per_receive_convert, payment_exists, insert_metadata. pose proof keep_values. pose proof @keep_active. keep.
Qed.

Lemma keep_auto : se_preserves same_queue (auto_convert config).
Proof using cl.
  unfold auto_convert, produces_token_dust, link_conversion, insert_metadata.
  pose proof keep_values. pose proof @keep_active.
  assert (se_preserves same_queue locked_balance).
  { intros w. unfold locked_balance. case_match; [done|]. unfold of_wallet.
    assert (se_preserves same_queue (se_bind (se_map_err CE_Wallet get_balance) (λ b, se_ret (Some b)))) as H' by keep.
    exact (H' w). }
  assert (∀ E, se_preserves same_queue (E := E) has_queued) by (by intros E w). keep.
Qed.

Lemma keep_deactivation id : se_preserves same_queue (deactivation_convert config id).
Proof using cl. unfold deactivation_convert, of_wallet, link_conversion, insert_metadata. keep. Qed.

Lemma run_on_queue {E A} (f : bool → ConversionQueue → ConversionQueue * A) w :
  ∃ stored, queue (sb (@on_queue W sw E A f w).1) = (f stored (queue (sb w))).1.
Proof using cl.
  unfold on_queue. pose proof (calm_stored w) as H. destruct (queue_stored w) as [w1 stored]. simpl in *.
  exists stored. rewrite <- H. destruct (f stored (queue (sb w1))). simpl. unfold modify. by rewrite calm_put.
Qed.

(** ** The worker refines its queue *)

Definition outcome_of (r : result bool ConversionError) : result bool bool := map_err is_duplicate_transfer r.

Lemma sync_if_queue b w : queue (sb (sync_if b w).1) = queue (sb w).
Proof using cl. destruct b; simpl; [by rewrite calm_sync|done]. Qed.

Lemma complete_queue task w : ∃ stored, queue (sb (complete task w).1) = complete_task stored task (queue (sb w)).
Proof using cl. unfold complete. apply (run_on_queue (E := ())). Qed.

(** The rest of the turn, once the conversion returned. *)
Lemma complete_then_sync task b w :
  ∃ stored, queue (sb ((do* _ := complete task in sync_if b) w).1) = complete_task stored task (queue (sb w)).
Proof using cl.
  unfold se_bind. destruct (complete_queue task w) as [stored H]. exists stored. rewrite <- H.
  unfold complete, on_queue. destruct (queue_stored w) as [w1 s]. cbv beta iota. apply sync_if_queue.
Qed.

Lemma mark_keeps {E} status id : se_preserves same_queue (E := E) (mark status id).
Proof using cl. unfold mark. keep. Qed.

Lemma process_payment_queue id w :
  ∃ stored r, queue (sb (process_task config (PerReceive id) w).1)
                = (finish_task stored (PerReceive id) r (queue (sb w))).1.
Proof using cl.
  cbn [process_task]. unfold se_try. pose proof (keep_per_receive id w) as Hq. destruct (per_receive_convert config id w) as [w1 r] eqn:Hr.
  unfold same_queue in Hq. simpl in Hq. rewrite <- Hq. clear Hq Hr.
  destruct r as [converted|e]; unfold per_receive_result; cbn [se_bind].
  - set (m := if converted then mark ConversionCompleted id else se_ret ()).
    assert (∃ w2, m w1 = (w2, Ok ()) ∧ queue (sb w2) = queue (sb w1)) as (w2 & Hm & Hw2).
    { unfold m. destruct converted; [|by exists w1]. unfold mark, se_try.
      pose proof (calm_queue _ (calm_metadata id (status_metadata ConversionCompleted)) w1) as H.
      destruct (insert_payment_metadata _ _ w1) as [w2 x]. exists w2. by split. }
    destruct (complete_queue (PerReceive id) w2) as [stored Hc]. exists stored, (Ok converted).
    unfold se_bind. rewrite Hm. unfold se_ret. unfold complete, on_queue in Hc |- *.
    destruct (queue_stored w2) as [w3 s]. cbv beta iota in Hc |- *. simpl fst in Hc.
    cbn [finish_task process_per_receive]. rewrite <- Hw2, <- Hc. destruct converted; simpl.
    + unfold modify. by rewrite calm_sync, calm_put.
    + done.
  - unfold se_bind, se_ret. destruct (is_duplicate_transfer e) eqn:He.
    + destruct (complete_then_sync (PerReceive id) false w1) as [stored Hc]. exists stored, (Err true).
      change (finish_task stored (PerReceive id) (Err true) (queue (sb w1))).1
        with (complete_task stored (PerReceive id) (queue (sb w1))).
      rewrite <- Hc. unfold se_bind, complete, on_queue. by destruct (queue_stored w1).
    + destruct (run_on_queue (E := ()) (λ stored q, (defer_task stored id q, ())) w1) as [stored Hc].
      exists stored, (Err false). exact Hc.
Qed.

(** A turn of the worker does to the queue what [ConversionQueue.finish_task] says. *)
Lemma process_task_queue task w :
  ∃ stored r, queue (sb (process_task config task w).1) = (finish_task stored task r (queue (sb w))).1.
Proof using cl.
  destruct task as [id| |id]; [apply process_payment_queue| |]; cbn [process_task]; unfold se_try.
  - pose proof (keep_auto w) as Hq. destruct (auto_convert config w) as [w1 r].
    unfold same_queue in Hq. simpl in Hq. rewrite <- Hq.
    destruct (complete_then_sync AutoConvert (match r with Ok converted => converted | Err _ => false end) w1)
      as [stored Hc]. exists stored, (outcome_of r). exact Hc.
  - pose proof (keep_deactivation id w) as Hq. destruct (deactivation_convert config id w) as [w1 r].
    unfold same_queue in Hq. simpl in Hq. rewrite <- Hq.
    destruct (complete_then_sync (Deactivation id) (match r with Ok converted => converted | Err _ => false end) w1)
      as [stored Hc]. exists stored, (outcome_of r). exact Hc.
Qed.

(** ** The worker ends *)

Definition todo (q : ConversionQueue) : nat :=
  (length (List.filter is_ready (q_per_receive q)) + (if q_pending q then 1 else 0))%nat.

Definition queue_ok (q : ConversionQueue) : Prop := NoDup (queue_ids (q_per_receive q)) ∧ pending_ok q.

Lemma clear_auto_fields q :
  q_per_receive (clear_pending_auto_convert q) = q_per_receive q ∧
  q_pending (clear_pending_auto_convert q) = match q_pending q with Some AutoConvert => None | t => t end.
Proof. unfold clear_pending_auto_convert. by destruct (q_pending q) as [[]|] eqn:H; rewrite ?H. Qed.

(** What a turn does to the two parts of the queue. *)
Lemma finish_task_fields stored task r q :
  let q' := (finish_task stored task r q).1 in
  match task with
  | PerReceive id =>
      (q_per_receive q' = List.filter (λ p, negb (is_payment id p)) (q_per_receive q) ∨
       q_per_receive q' = defer_first id (q_per_receive q)) ∧
      (q_pending q' = q_pending q ∨ q_pending q' = None)
  | _ => q_per_receive q' = q_per_receive q ∧ q_pending q' = None
  end.
Proof.
  destruct task as [id| |id]; [|done|done]. unfold finish_task.
  destruct (process_per_receive r) as [[]|]; cbn [fst].
  - destruct (clear_auto_fields (complete_task stored (PerReceive id) q)) as [-> ->].
    split; [by left|]. change (q_pending (complete_task stored (PerReceive id) q)) with (q_pending q).
    destruct (q_pending q) as [[]|]; auto.
  - split; by left.
  - unfold defer_task. destruct (existsb _ _) eqn:He; [split; [by right|by left]|]. split; [right|by left].
    symmetry. clear -He. unfold q_per_receive in *. induction (per_receive (q_state q)) as [|p l IH]; [done|].
    simpl in *. apply orb_false_iff in He as [-> He]. by rewrite IH.
Qed.

Lemma finish_task_ok stored task r q : queue_ok q → queue_ok (finish_task stored task r q).1.
Proof.
  intros [Hn Hp]. pose proof (finish_task_fields stored task r q) as H. cbv zeta in H.
  unfold queue_ok, pending_ok in *. destruct task as [id| |id].
  - destruct H as [Hl Hq]. split.
    + destruct Hl as [->| ->]; [by apply queue_ids_filter|by rewrite queue_ids_defer].
    + intros i. destruct Hq as [->| ->]; [apply Hp|done].
  - destruct H as [-> ->]. by split.
  - destruct H as [-> ->]. by split.
Qed.

Lemma finish_task_less stored task r q :
  queue_ok q → next_task q = Some task → (todo (finish_task stored task r q).1 < todo q)%nat.
Proof.
  intros [Hn Hp] Hnext. pose proof (finish_task_fields stored task r q) as H. cbv zeta in H.
  unfold todo. unfold next_task in Hnext. destruct (List.find is_ready (q_per_receive q)) as [p|] eqn:Hf.
  - injection Hnext as <-. destruct H as [Hl Hq].
    destruct (find_is_ready_split _ _ Hf) as (l1 & l2 & Hsplit & _ & Hr).
    rewrite Hsplit in Hn. destruct (filter_id_out (payment_id p) l1 p l2 Hn eq_refl) as [Hout Hdefer].
    rewrite Hsplit, Hout, Hdefer in Hl. rewrite Hsplit.
    assert ((length (List.filter is_ready (q_per_receive (finish_task stored (PerReceive (payment_id p)) r q).1))
             < length (List.filter is_ready (l1 ++ p :: l2)))%nat) as Hlt.
    { destruct Hl as [->| ->]; rewrite !bfilter_app; simpl; rewrite Hr, !length_app; simpl; lia. }
    destruct Hq as [->| ->]; [|destruct (q_pending q)]; lia.
  - case_bool_decide; [|done]. rewrite Hnext. destruct task as [id| |id].
    + by destruct (Hp id).
    + destruct H as [-> ->]. lia.
    + destruct H as [-> ->]. lia.
Qed.

Lemma drain_ends fuel w :
  queue_ok (queue (sb w)) → (todo (queue (sb w)) ≤ fuel)%nat →
  ∃ w' tasks, drain config fuel w = Some (w', tasks) ∧ next_task (queue (sb w')) = None ∧ queue_ok (queue (sb w')).
Proof using cl.
  revert w. induction fuel as [|fuel IH]; intros w Hok Hfuel.
  - exists w, []. cbn [drain]. destruct (next_task (queue (sb w))) as [task|] eqn:Hn; [|by split].
    pose proof (finish_task_less true task (Ok true) _ Hok Hn). lia.
  - cbn [drain]. destruct (next_task (queue (sb w))) as [task|] eqn:Hn; [|by exists w, []].
    destruct (process_task_queue task w) as (stored & r & Hq).
    pose proof (finish_task_less stored task r _ Hok Hn) as Hless.
    pose proof (finish_task_ok stored task r _ Hok) as Hok'. rewrite <- Hq in Hless, Hok'.
    destruct (IH _ Hok' ltac:(lia)) as (w' & tasks & -> & H). exists w', (task :: tasks). by split.
Qed.

(** once the worker starts on a queue that no other task fills it comes to an end within a
    turn per ready payment and one more; what is left are payments whose conversion failed,
    deferred until they are resolved or time out. *)
Theorem worker_ends w :
  queue_ok (queue (sb w)) →
  ∃ w' tasks, drain config (S (length (q_per_receive (queue (sb w))))) w = Some (w', tasks) ∧
    Forall (λ p, pc_state p = Deferred) (q_per_receive (queue (sb w'))) ∧
    (q_per_receive (queue (sb w')) = [] → q_pending (queue (sb w')) = None).
Proof using cl.
  intros Hok. destruct (drain_ends (S (length (q_per_receive (queue (sb w))))) w Hok) as (w' & tasks & Hd & Hn & _).
  { unfold todo. pose proof (sublist_length _ _ (sublist_bfilter is_ready (q_per_receive (queue (sb w))))).
    destruct (q_pending _); lia. }
  exists w', tasks. split; [done|]. apply next_task_none_iff in Hn as [Hf Hpending]. split; [|done].
  apply Forall_forall. intros p Hin. apply find_None_elem with (x := p) in Hf; [|done].
  unfold is_ready in Hf. apply negb_false_iff in Hf. by apply bool_decide_eq_true in Hf.
Qed.

(** ** The active token *)

Lemma calm_mark_all {E} status ids : calm (mark_all (E := E) status ids).
Proof using cl.
  induction ids as [|id ids IH]; cbn [mark_all]; unfold mark; keep.
Qed.

Lemma mark_all_total {E} status ids w : (mark_all (E := E) status ids w).2 = Ok ().
Proof.
  revert w. induction ids as [|id ids IH]; intros w; cbn [mark_all]; [done|].
  unfold se_bind, mark, se_try. destruct (insert_payment_metadata _ _ w) as [w1 r]. apply IH.
Qed.

Lemma on_queue_run {E A} (f : bool → ConversionQueue → ConversionQueue * A) w :
  ∃ stored w', @on_queue W sw E A f w = (w', Ok (f stored (queue (sb w))).2) ∧
    sb w' = set_queue (f stored (queue (sb w))).1 (sb w).
Proof using cl.
  unfold on_queue. pose proof (calm_stored w) as H. destruct (queue_stored w) as [w1 stored]. simpl in H.
  exists stored. rewrite <- H. destruct (f stored (queue (sb w1))) as [q a]. eexists. split; [done|].
  unfold modify. by rewrite calm_put.
Qed.

Lemma change_run {E} f w : ∃ w', @change W sw E f w = (w', Ok ()) ∧ sb w' = f (sb w).
Proof using cl. eexists. split; [done|]. unfold modify. by rewrite calm_put. Qed.

(** What a call to change the active token leaves when no other task changes the state: always
    an empty queue; then either the token with this label, its conversion pending, or none, with
    the conversion of the last one's balance pending; an error leaves the token as it was, but
    the queue is lost. *)
Definition token_changed_alone (label : option string) (s s' : StableBalance) (r : result () SdkError) : Prop :=
  q_per_receive (queue s') = [] ∧
  match r with
  | Err e => active_token s' = active_token s ∧ effective_values s' = effective_values s ∧
      q_pending (queue s') =
        match label with Some _ => None | None => Deactivation <$> (sbt_token_identifier <$> active_token s) end
  | Ok _ => effective_values s' = None ∧
      match label with
      | Some text => ∃ t, find_label config text = Some t ∧ active_token s' = Some t ∧
          q_pending (queue s') = Some AutoConvert ∧ q_notified (queue s') = true
      | None => active_token s' = None ∧
          q_pending (queue s') = Deactivation <$> (sbt_token_identifier <$> active_token s)
      end
  end.

(** The queue and the rest after [resolve_label]. *)
Lemma resolve_label_state label w w' r :
  resolve_label config label w = (w', r) → q_per_receive (queue (sb w)) = [] → q_pending (queue (sb w)) = None →
  active_token (sb w') = active_token (sb w) ∧ effective_values (sb w') = effective_values (sb w) ∧
  q_per_receive (queue (sb w')) = [] ∧
  match label with
  | Some text => q_pending (queue (sb w')) = None ∧
      match r with Ok t => t = find_label config text ∧ t ≠ None | Err _ => True end
  | None => q_pending (queue (sb w')) = Deactivation <$> (sbt_token_identifier <$> active_token (sb w)) ∧
      match r with Ok t => t = None | Err _ => True end
  end.
Proof using cl.
  intros H Hl Hp. destruct label as [text|]; cbn [resolve_label] in H.
  - unfold se_bind at 1, se_lift in H. destruct (find_label config text) as [t|]; cbn [ok_or] in H.
    + pose proof (calm_set_item STABLE_BALANCE_ACTIVE_LABEL_KEY text w) as Hc. unfold same_state in Hc.
      unfold se_bind, of_storage_sdk, se_map_err, save_stable_balance_active_label in H.
      destruct (set_cached_item _ _ w) as [w1 [[]|e]]; simpl in *; injection H as <- <-; rewrite Hc; split_and!; done.
    + injection H as <- <-. split_and!; done.
  - set (s0 := sb w) in *. unfold se_bind, get_active_token_identifier in H. fold s0 in H.
    assert (∃ w1, match sbt_token_identifier <$> active_token s0 with
                  | Some token_id => change (λ s, set_queue (push_deactivation token_id (queue s)) s)
                  | None => se_ret () end w = (w1, @Ok () SdkError ()) ∧
              active_token (sb w1) = active_token s0 ∧ effective_values (sb w1) = effective_values s0 ∧
              q_per_receive (queue (sb w1)) = [] ∧
              q_pending (queue (sb w1)) = Deactivation <$> (sbt_token_identifier <$> active_token s0))
      as (w1 & Hrun & Ha & He & Hpr & Hpe).
    { destruct (sbt_token_identifier <$> active_token s0) as [id|].
      - destruct (change_run (E := SdkError) (λ s, set_queue (push_deactivation id (queue s)) s) w) as (w1 & Hrun & Hs).
        exists w1. rewrite Hrun, Hs. by split_and!.
      - exists w. by split_and!. }
    rewrite Hrun in H. unfold of_storage_sdk, se_map_err, delete_stable_balance_active_label in H.
    pose proof (calm_delete_item STABLE_BALANCE_ACTIVE_LABEL_KEY w1) as Hc. unfold same_state in Hc.
    destruct (delete_cached_item _ w1) as [w2 [[]|e]]; simpl in *; injection H as <- <-; rewrite Hc; split_and!; done.
Qed.

Lemma set_active_alone label w w' r :
  set_active_token config label w = (w', r) → token_changed_alone label (sb w) (sb w') r.
Proof using cl.
  unfold set_active_token. intros H. unfold se_bind at 1 in H.
  destruct (on_queue_run (E := SdkError) clear_queue w) as (stored & w1 & Hrun & Hw1). rewrite Hrun in H.
  unfold se_bind at 1 in H. destruct (mark_all _ _ w1) as [w2 r2] eqn:Hmark.
  pose proof (mark_all_total (E := SdkError) ConversionFailed (clear_queue stored (queue (sb w))).2 w1) as Htot.
  pose proof (calm_mark_all (E := SdkError) ConversionFailed (clear_queue stored (queue (sb w))).2 w1) as Hw2.
  rewrite Hmark in Htot, Hw2. unfold same_state in Hw2. simpl in Htot, Hw2. subst r2.
  rewrite Hw1 in Hw2. unfold se_bind at 1 in H. destruct (resolve_label config label w2) as [w3 r3] eqn:Hr.
  apply resolve_label_state in Hr as (Ha & He & Hl & Hrest); [|by rewrite Hw2..].
  rewrite Hw2 in Ha, He, Hrest. cbn [active_token effective_values set_queue] in Ha, He, Hrest.
  destruct r3 as [t|e]; [|injection H as <- <-; split; [done|]; rewrite Ha, He; split_and!; [done..|];
     destruct label as [text|]; [by destruct Hrest|]; by destruct Hrest as [-> _]].
  unfold se_bind in H. destruct (change_run (E := SdkError) (set_active t) w3) as (w4 & Hrun4 & Hw4).
  rewrite Hrun4 in H. destruct (change_run (E := SdkError) (set_effective None) w4) as (w5 & Hrun5 & Hw5).
  rewrite Hrun5, Hw4 in *. destruct label as [text|].
  - destruct Hrest as [Hp [Ht Hnone]]. rewrite bool_decide_eq_false_2 in H by done. unfold push_auto in H.
    destruct (change_run (E := SdkError) (λ s, set_queue (push_auto_convert (queue s)) s) w5) as (w6 & Hrun6 & Hw6).
    rewrite Hrun6 in H. injection H as <- <-. rewrite Hw6, Hw5. unfold token_changed_alone. simpl.
    unfold push_auto_convert. rewrite Hp. destruct t as [t|]; [|done]. split_and!; [done..|]. by exists t.
  - destruct Hrest as [Hp ->]. injection H as <- <-. rewrite Hw5. unfold token_changed_alone. simpl. by split_and!.
Qed.

(** ** Payments that succeed *)

Lemma remove_first_length f l x rest : remove_first f l = Some (x, rest) → length l = S (length rest).
Proof.
  revert rest. induction l as [|p l IH]; intros rest; simpl; [done|].
  destruct (f p); [intros [= <- <-]; done|]. destruct (remove_first f l) as [[y l']|]; [|done].
  intros [= <- <-]. simpl. by rewrite (IH l').
Qed.

Lemma keep_trigger payment : se_preserves same_queue (should_trigger_per_receive config (E := ()) payment).
Proof using cl. unfold should_trigger_per_receive. pose proof keep_values. pose proof @keep_active. keep. Qed.

Lemma push_per_receive_in now stored id q :
  id ∈ payment_id <$> q_per_receive (push_per_receive now stored id q) ∧
  sublist (q_per_receive q) (q_per_receive (push_per_receive now stored id q)).
Proof.
  unfold push_per_receive. destruct (existsb _ _) eqn:He; cbn [negb].
  - split; [|done]. apply existsb_exists in He as (p & Hin & Hp). apply bool_decide_eq_true in Hp as <-.
    apply list_elem_of_fmap. exists p. split; [done|]. by apply list_elem_of_In.
  - cbv zeta. unfold q_per_receive at 1 3. cbn.
    split; [|by apply sublist_inserts_r]. rewrite fmap_app. apply elem_of_app. right. by left.
Qed.

(** Without other tasks nothing else leaves the queue. *)
Lemma process_succeeded_alone payment w w' r :
  process_succeeded config payment w = (w', r) →
  (S (length (q_per_receive (queue (sb w')))) = length (q_per_receive (queue (sb w))) ∧
   sublist (q_per_receive (queue (sb w'))) (q_per_receive (queue (sb w)))) ∨
  sublist (q_per_receive (queue (sb w))) (q_per_receive (queue (sb w'))).
Proof using cl.
  unfold process_succeeded. intros H. unfold se_bind at 1 in H.
  set (f := λ stored, resolve_by_conversion_payment (λ id, TransferId_fmt (per_receive_transfer_id id)) stored (p_id payment)) in H.
  destruct (on_queue_run (E := ()) f w) as (stored & w1 & Hrun & Hw1). rewrite Hrun in H. unfold f in H, Hw1. clear Hrun f.
  unfold resolve_by_conversion_payment in H, Hw1.
  destruct (remove_first _ (q_per_receive (queue (sb w)))) as [[p rest]|] eqn:Hr; cbn [fst snd] in H, Hw1.
  { injection H as <- <-. left. rewrite Hw1. pose proof (remove_first_length _ _ _ _ Hr) as Hlen.
    by apply remove_first_sublist in Hr as (Hsub & _ & _). }
  right. unfold se_bind at 1 in H. pose proof (keep_trigger payment w1) as Hw2. unfold same_queue in Hw2.
  destruct (should_trigger_per_receive config payment w1) as [w2 [b|e]]; simpl in Hw2; rewrite Hw1 in Hw2;
    cbn [queue set_queue] in Hw2; [|injection H as <- <-; by rewrite Hw2]. destruct b.
  - unfold se_bind at 1, mark, se_try in H.
    pose proof (calm_metadata (p_id payment) (status_metadata ConversionPending) w2) as Hc.
    destruct (insert_payment_metadata _ _ w2) as [w3 x]. unfold se_ret at 1 in H. unfold same_state in Hc. simpl in Hc.
    unfold se_bind in H. pose proof (calm_clock_secs w3) as Hs. destruct (clock_secs w3) as [w4 now]. simpl in Hs.
    destruct (on_queue_run (E := ()) (λ stored q, (push_per_receive now stored (p_id payment) q, ())) w4)
      as (stored' & w5 & Hpush & Hw5). rewrite Hpush in H. injection H as <- <-.
    rewrite Hw5, Hs, Hc. cbn [queue set_queue fst]. rewrite <- Hw2. by apply push_per_receive_in.
  - unfold se_bind, push_auto in H.
    destruct (change_run (E := ()) (λ s, set_queue (push_auto_convert (queue s)) s) w2) as (w3 & Hpush & Hw3).
    rewrite Hpush in H. injection H as <- <-. rewrite Hw3. cbn [queue set_queue]. rewrite Hw2. unfold push_auto_convert.
    by destruct (q_pending (queue (sb w))).
Qed.
End calm.

(** ** Among other tasks

    Every call of the storage, the wallet or the converter may change the state here. *)
Section interleaved.
Context {W : Type} {pt : PaymentTypes} {cs : CacheStorage W} {ps : PaymentStorage W} {ti : TransferIds}
  {sw : StableWorld W} {wal : StableWallet W} {tc : TokenConverter W}.
Context (config : StableBalanceConfig).
Context {law : StateLaw sw}.

Lemma on_queue_state {E A} (f : bool → ConversionQueue → ConversionQueue * A) w :
  ∃ w', @on_queue W sw E A f w = (w', Ok (f (queue_stored w).2 (queue (sb (queue_stored w).1))).2) ∧
    sb w' = set_queue (f (queue_stored w).2 (queue (sb (queue_stored w).1))).1 (sb (queue_stored w).1).
Proof using law.
  unfold on_queue. destruct (queue_stored w) as [w1 stored]. simpl. destruct (f stored (queue (sb w1))) as [q a].
  eexists. split; [done|]. unfold modify. by rewrite state_put.
Qed.

(** The conversion [p] waits for this payment, which another instance made for it. *)
Definition awaits (payment : Payment) (p : PendingConversion) : Prop :=
  pc_state p = Deferred ∧ TransferId_fmt (per_receive_transfer_id (payment_id p)) = p_id payment.

(** In the world [w] the payment is worth a conversion of its own: it was received, not as a
    token and not within a conversion, and it reaches the minimum of the active token, which is
    known. *)
Definition worth_converting (payment : Payment) (w : W) : Prop :=
  payment_type payment = Receive ∧ p_method payment ≠ Token ∧ is_conversion_child payment = false ∧
  ∃ token threshold min_from w', active_token (sb w) = Some token ∧
    get_or_init_effective_values config (sbt_token_identifier token) w = (w', Ok (threshold, min_from)) ∧
    min_from ≤ to_u64 (amount payment).

(** What the middleware does with a payment that succeeded: the first conversion in the queue
    that waits for it leaves; when none does, the payment's own conversion is in the queue and
    its event says so if it is worth one in the world [w1] that looking left, else a conversion
    of the balance, or of a token given up, is pending. *)
Definition payment_handled (payment payment' : Payment) (w w' : W) : Prop :=
  let q := queue (sb (queue_stored w).1) in
  let q' := queue (sb w') in
  (payment' = payment ∧ ∃ l1 p l2, q_per_receive q = l1 ++ p :: l2 ∧ Forall (not ∘ awaits payment) l1 ∧ awaits payment p ∧
     q_per_receive q' = l1 ++ l2 ∧ q_notified q' = true) ∨
  (Forall (not ∘ awaits payment) (q_per_receive q) ∧ ∃ w1,
     w1 = put_sb (set_queue q (sb (queue_stored w).1)) (queue_stored w).1 ∧
     ((worth_converting payment w1 ∧ payment' = with_details pending_details payment ∧
       p_id payment ∈ payment_id <$> q_per_receive q') ∨
      (¬ worth_converting payment w1 ∧ payment' = payment ∧ q_pending q' ≠ None))).

Lemma should_trigger_iff payment w :
  ∃ w' b, should_trigger_per_receive config (E := ()) payment w = (w', Ok b) ∧ (b = true ↔ worth_converting payment w).
Proof.
  unfold should_trigger_per_receive, worth_converting.
  destruct (_ || _) eqn:Hkind.
  { exists w, false. split; [done|]. split; [done|]. intros (Ht & Hm & _).
    apply orb_true_iff in Hkind as [Hk|Hk]; [apply negb_true_iff, bool_decide_eq_false in Hk; contradiction|].
    by apply bool_decide_eq_true in Hk. }
  apply orb_false_iff in Hkind as [Ht%negb_false_iff Hm]. apply bool_decide_eq_true in Ht. apply bool_decide_eq_false in Hm.
  destruct (is_conversion_child payment) eqn:Hchild; [exists w, false; split; [done|naive_solver]|].
  unfold se_bind, get_active_token_identifier, se_try.
  destruct (active_token (sb w)) as [token|]; simpl; [|exists w, false; split; [done|naive_solver]].
  destruct (get_or_init_effective_values config _ w) as [w1 [[threshold m]|e]] eqn:Hv; eexists w1, _; (split; [done|]).
  - rewrite negb_true_iff, Z.ltb_ge. split.
    + intros Hmin. split_and!; [done..|]. by exists token, threshold, m, w1.
    + intros (_ & _ & _ & t & th & m' & w2 & [= <-] & Hv' & Hmin). rewrite Hv in Hv'. by injection Hv' as _ _ <-.
  - split; [done|]. intros (_ & _ & _ & t & th & m' & w2 & [= <-] & Hv' & _). by rewrite Hv in Hv'.
Qed.

Lemma is_resolved_awaits payment p :
  is_resolved (λ id, TransferId_fmt (per_receive_transfer_id id)) (p_id payment) p = true ↔ awaits payment p.
Proof. unfold is_resolved, awaits. by rewrite andb_true_iff, !bool_decide_eq_true. Qed.

Lemma remove_first_splits payment l :
  match remove_first (is_resolved (λ id, TransferId_fmt (per_receive_transfer_id id)) (p_id payment)) l with
  | Some (p, rest) => ∃ l1 l2, l = l1 ++ p :: l2 ∧ rest = l1 ++ l2 ∧ Forall (not ∘ awaits payment) l1 ∧ awaits payment p
  | None => Forall (not ∘ awaits payment) l
  end.
Proof.
  induction l as [|p l IH]; [constructor|]. simpl. pose proof (is_resolved_awaits payment p) as Hp.
  destruct (is_resolved _ _ p); [exists [], l; split_and!; naive_solver|].
  assert (¬ awaits payment p) as Hno by naive_solver.
  destruct (remove_first _ l) as [[x rest]|]; [|by constructor].
  destruct IH as (l1 & l2 & -> & -> & Hl & Hx). exists (p :: l1), l2. split_and!; [done..|by constructor|done].
Qed.

(** C13: a payment that succeeded is never overlooked by the middleware, whatever other tasks do
    meanwhile. If a conversion in the queue waits for it, the first one leaves the queue and the
    worker is woken. Otherwise, exactly when the payment was received, not as a token and not
    within a conversion, a token is active and its minimum is known and reached, its own
    conversion is in the queue and its event says that it is pending; in all other cases the
    conversion of the balance (or of a token given up) is pending. When no other task changes
    the state during the calls, nothing but the conversion that waited leaves the queue. *)
Theorem succeeded_payment_handled {lg : Log W ConversionEvent} payment w w' r :
  process_succeeded config payment w = (w', r) →
  ∃ payment', r = Ok payment' ∧ payment_handled payment payment' w w' ∧
    (NoOtherTask →
       (S (length (q_per_receive (queue (sb w')))) = length (q_per_receive (queue (sb w))) ∧
        sublist (q_per_receive (queue (sb w'))) (q_per_receive (queue (sb w)))) ∨
       sublist (q_per_receive (queue (sb w))) (q_per_receive (queue (sb w')))).
Proof using law.
  intros H. assert (∃ payment', r = Ok payment' ∧ payment_handled payment payment' w w') as (payment' & Hr & Hp).
  2: { exists payment'. split_and!; [done..|]. intros cl. by eapply process_succeeded_alone. }
  unfold process_succeeded in H. unfold se_bind at 1, on_queue at 1 in H. unfold payment_handled.
  destruct (queue_stored w) as [w0 stored]. unfold resolve_by_conversion_payment in H. cbn [fst snd].
  pose proof (remove_first_splits payment (q_per_receive (queue (sb w0)))) as Hsplit.
  destruct (remove_first _ (q_per_receive (queue (sb w0)))) as [[p rest]|].
  { destruct Hsplit as (l1 & l2 & Hl & -> & Hl1 & Hp). injection H as <- <-. exists payment. split; [done|]. left.
    split; [done|]. exists l1, p, l2. unfold modify. by rewrite state_put. }
  set (w1 := modify (set_queue (queue (sb w0))) w0) in H. unfold se_bind at 1 in H.
  destruct (should_trigger_iff payment w1) as (w2 & b & Htrigger & Hb). rewrite Htrigger in H.
  destruct b.
  - unfold se_bind at 1, mark, se_try in H.
    destruct (insert_payment_metadata _ _ w2) as [w3 x]. unfold se_ret at 1 in H.
    unfold se_bind in H. destruct (clock_secs w3) as [w4 now].
    destruct (on_queue_state (E := ()) (λ stored q, (push_per_receive now stored (p_id payment) q, ())) w4)
      as (w5 & Hpush & Hw5). rewrite Hpush in H. injection H as <- <-.
    eexists. split; [done|]. right. split; [done|]. exists w1. split; [done|]. left. rewrite Hw5.
    split_and!; [by apply Hb|done|]. cbn [queue set_queue fst]. apply push_per_receive_in.
  - unfold se_bind, push_auto, change in H. injection H as <- <-. exists payment. split; [done|]. right.
    split; [done|]. exists w1. split; [done|]. right. split_and!; [intros Hw%Hb; done|done|].
    unfold modify. rewrite state_put. cbn [queue set_queue]. unfold push_auto_convert.
    by destruct (q_pending (queue (sb w2))) eqn:Hq; rewrite ?Hq.
Qed.

(** What a change of the active token does whatever other tasks do meanwhile: on success the
    token with this label, or none, is active in the end, its values are forgotten and, with a
    label, a conversion is pending. *)
Definition token_changed (label : option string) (w' : W) (r : result () SdkError) : Prop :=
  match r with
  | Err e => ∀ text, label = Some text → find_label config text = None →
      e = InvalidInput ("Stable balance label '" +:+ text +:+ "' not found in configured tokens")
  | Ok _ => active_token (sb w') = (label ≫= find_label config) ∧ effective_values (sb w') = None ∧
      (label ≠ None → active_token (sb w') ≠ None ∧ q_pending (queue (sb w')) ≠ None)
  end.

Lemma resolve_label_ok label w w' t :
  resolve_label config label w = (w', Ok t) → t = (label ≫= find_label config) ∧ (label ≠ None → t ≠ None).
Proof.
  destruct label as [text|]; cbn [resolve_label].
  - intros (w1 & t1 & Hf & (w2 & u & _ & [= _ <-])%se_bind_ok)%se_bind_ok. unfold se_lift in Hf. simpl.
    destruct (find_label config text) as [t2|]; simpl in Hf; [|done]. by injection Hf as _ <-.
  - intros (w1 & c & _ & (w2 & u & _ & (w3 & u' & _ & [= _ <-])%se_bind_ok)%se_bind_ok)%se_bind_ok. by split.
Qed.

End interleaved.

(** ** Examples: a wallet whose calls succeed *)
Module Example.
#[local] Existing Instance example_payment_types.
#[local] Instance example_ids : TransferIds := {| TransferId := string; new_v5 s := s; TransferId_fmt s := s |}.

Record world : Type := {
  w_sb : StableBalance;
  w_log : list ConversionEvent;
  w_cache : gmap string string;
  w_payments : gmap string Payment;
  w_sats : Z;
  w_tokens : gmap string Z
}.

Definition with_sb (s : StableBalance) (w : world) : world :=
  {| w_sb := s; w_log := w_log w; w_cache := w_cache w; w_payments := w_payments w; w_sats := w_sats w; w_tokens := w_tokens w |}.
Definition with_cache (c : gmap string string) (w : world) : world :=
  {| w_sb := w_sb w; w_log := w_log w; w_cache := c; w_payments := w_payments w; w_sats := w_sats w; w_tokens := w_tokens w |}.
Definition logged (e : ConversionEvent) (w : world) : world :=
  {| w_sb := w_sb w; w_log := w_log w ++ [e]; w_cache := w_cache w; w_payments := w_payments w; w_sats := w_sats w; w_tokens := w_tokens w |}.

#[local] Instance example_log : Log world ConversionEvent := {| log := w_log |}.
#[local] Instance example_cache : CacheStorage world := {|
  get_cached_item k := λ w, (w, Ok (w_cache w !! k));
  set_cached_item k v := λ w, (with_cache (<[k := v]> (w_cache w)) w, Ok ());
  delete_cached_item k := λ w, (with_cache (delete k (w_cache w)) w, Ok ())
|}.
#[local] Instance example_storage : PaymentStorage world := {|
  insert_payment p := se_ret ();
  insert_payment_metadata id m := λ w, (logged (Wrote id m true) w, Ok ());
  get_payment_by_id id := λ w, (w, ok_or (w_payments w !! id) StorageNotFound);
  get_payments_by_parent_ids _ := se_ret ∅
|}.
#[local] Instance example_stable : StableWorld world := {|
  sb := w_sb; put_sb := with_sb; clock_ms w := (w, Some 1000); clock_secs w := (w, 1);
  queue_stored w := (w, true); trigger_sync w := w
|}.
#[local] Instance example_stable_wallet : StableWallet world := {|
  get_balance := λ w, (w, Ok (w_sats w));
  get_token_balances := λ w, (w, Ok (w_tokens w))
|}.
#[local] Instance example_converter : TokenConverter world := {|
  convert o p t a id := λ w,
    let response := {| sent_payment_id := "sent"; received_payment_id := "received" |} in
    (logged (Converted o t a id (Some response)) w, Ok response);
  validate o t a := se_ret None;
  fetch_limits req := se_ret {| min_from_amount := Some 500; min_to_amount := None |}
|}.

#[local] Instance example_log_laws : StableLogLaws.
Proof.
  split; try done;
    try (intros; intros w w' r [= <- <-]; exists []; rewrite app_nil_r; by split).
  - intros id m w w' r [= <- <-]. by eexists.
  - intros o p t a id w w' r [= <- <-]. by eexists.
Qed.
#[local] Instance example_calm_laws : NoOtherTask.
Proof. split; done. Qed.

Definition usd : StableBalanceToken := {| sbt_label := "USD"; sbt_token_identifier := "usd" |}.
Definition eur : StableBalanceToken := {| sbt_label := "EUR"; sbt_token_identifier := "eur" |}.
Definition example_config : StableBalanceConfig :=
  {| tokens := [usd; eur]; default_active_label := Some "USD"; threshold_sats := Some 2000; sbc_max_slippage_bps := None |}.

Definition received (id : string) (sats : Z) : Payment :=
  {| p_id := id; payment_type := Receive; p_status := Completed; amount := sats; fees := 0; timestamp := 1;
     p_method := Spark; details := None; conversion_details := None |}.

(** Two received payments wait, the first after a failure; a conversion of the balance too. *)
Definition waiting : ConversionQueue :=
  {| q_state := {| per_receive := [ {| payment_id := "a"; pc_state := Deferred; created_at := 1 |};
                                    {| payment_id := "b"; pc_state := Ready; created_at := 1 |} ];
                   pending_task := Some AutoConvert |};
     q_notified := true; q_saved := None |}.

Definition begin (q : ConversionQueue) : world :=
  {| w_sb := {| active_token := Some usd; effective_values := None; queue := q; payment_counter := 0; synced := true |};
     w_log := []; w_cache := ∅; w_payments := {[ "a" := received "a" 800; "b" := received "b" 900 ]};
     w_sats := 3000; w_tokens := {[ "usd" := 700 ]} |}.

Lemma conversions_have_reasons_witness :
  let w := begin waiting in let run := process_task (W := world) example_config (PerReceive "b") w in
  length (w_log run.1) = 4%nat ∧ task_steps (W := world) example_config (PerReceive "b") w run.1.
Proof.
  intros w run. split; [reflexivity|].
  apply (conversions_have_reasons (sw := example_stable) example_config (PerReceive "b") w run.1 run.2). apply surjective_pairing.
Defined.

Lemma worker_ends_witness :
  queue_ok waiting ∧
  ∃ w' tasks, drain example_config 3 (begin waiting) = Some (w', tasks) ∧ tasks = [PerReceive "b"] ∧
    Forall (λ p, pc_state p = Deferred) (q_per_receive (queue (w_sb w'))).
Proof.
  assert (queue_ok waiting) as Hok.
  { split; [|by intros id]. apply (bool_decide_eq_true_1 (NoDup ["a"; "b"])). reflexivity. }
  split; [exact Hok|].
  destruct (worker_ends (sw := example_stable) example_config (begin waiting) Hok) as (w' & tasks & Hd & Hf & _).
  exists w', tasks. split; [exact Hd|]. split; [|exact Hf].
  assert (snd <$> drain example_config 3 (begin waiting) = Some [PerReceive "b"]) as Ht by reflexivity.
  change (S (length (q_per_receive (queue (sb (begin waiting)))))) with 3%nat in Hd. rewrite Hd in Ht. by injection Ht.
Defined.


Lemma succeeded_payment_handled_witness :
  let w := begin waiting in let run := process_succeeded (W := world) example_config (received "c" 600) w in
  is_ok run.2 = true ∧ length (q_per_receive (queue (w_sb run.1))) = 3%nat ∧
  ∃ payment', payment_handled (sw := example_stable) example_config (received "c" 600) payment' w run.1.
Proof.
  intros w run. split; [reflexivity|]. split; [reflexivity|].
  destruct (succeeded_payment_handled (sw := example_stable) example_config (received "c" 600) w run.1 run.2)
    as (payment' & _ & H & _); [apply surjective_pairing|]. exists payment'. exact H.
Defined.

(** A label that is not configured is refused, but the conversions in the queue are lost. *)
Example unknown_label_clears_queue :
  let run := set_active_token (W := world) example_config (Some "GBP") (begin waiting) in
  is_ok run.2 = false ∧ q_per_receive (queue (w_sb run.1)) = [] ∧ q_pending (queue (w_sb run.1)) = None ∧
  length (w_log run.1) = 2%nat.
Proof. by split_and!. Qed.

(** A cache during whose write a payment succeeds and its conversion is queued: the conversion is
    still in the queue after the change of the token. *)
#[local] Instance busy_cache : CacheStorage world := {|
  get_cached_item k := λ w, (w, Ok (w_cache w !! k));
  set_cached_item k v := λ w, (with_sb (set_queue (push_per_receive 1 true "c" (queue (w_sb w))) (w_sb w)) w, Ok ());
  delete_cached_item k := λ w, (w, Ok ())
|}.

Example payment_between_stays :
  let run := set_active_token (cs := busy_cache) example_config (Some "EUR") (begin waiting) in
  is_ok run.2 = true ∧ active_token (w_sb run.1) = Some eur ∧ payment_id <$> q_per_receive (queue (w_sb run.1)) = ["c"].
Proof. by split_and!. Qed.
End Example.
