(* ===== verification/Flashnet.v ===== *)
(** The client of Flashnet, the exchange that swaps satoshis for tokens:
    [crates/flashnet/src/api.rs], [auth.rs], [cache.rs], [config.rs] and the messages of
    [models.rs], over the pools of [FlashnetPools].

    HTTP, the wallet, clocks and random numbers are classes over a world, [serde_json] and
    [serde_urlencoded] the class [FlashnetSerde].  The mutex of an authentication keeps a
    second one from starting; it has no other effect and is left out. *)
From Stdlib Require Import Ascii.
From stdpp Require Import base gmap strings list pretty.
From S2P Require Import Prelude Payments ObjectCache Transactions Addresses TokenTx FlashnetPools StableBalance.
From S2P Require TokenTransfers.

(** ** HTTP: [crates/platform-utils/src/http/mod.rs] *)

Inductive HttpError : Type :=
| HttpBuilder (s : string) | HttpRedirect (s : string) | HttpStatus (status : Z) (body : string)
| HttpTimeout (s : string) | HttpRequest (s : string) | HttpConnect (s : string)
| HttpBody (s : string) | HttpDecode (s : string) | HttpJson (s : string) | HttpOther (s : string).

Definition HttpError_fmt (e : HttpError) : string :=
  match e with
  | HttpBuilder s => "Builder error: " +:+ s
  | HttpRedirect s => "Redirect error: " +:+ s
  | HttpStatus status body => "Status error: " +:+ pretty status +:+ " - " +:+ body
  | HttpTimeout s => "Timeout error: " +:+ s
  | HttpRequest s => "Request error: " +:+ s
  | HttpConnect s => "Connect error: " +:+ s
  | HttpBody s => "Body error: " +:+ s
  | HttpDecode s => "Decode error: " +:+ s
  | HttpJson s => "Json error: " +:+ s
  | HttpOther s => "Other error: " +:+ s
  end.

Definition HttpError_status (e : HttpError) : option Z :=
  match e with HttpStatus status _ => Some status | _ => None end.

Record HttpResponse : Type := { hr_status : Z; hr_body : string }.

Definition is_success (r : HttpResponse) : bool := (200 <=? hr_status r) && (hr_status r <? 300).

(** ** Messages *)

Inductive FeatureName : Type :=
| MasterKillSwitch | AllowWithdrawFees | AllowPoolCreation | AllowSwaps | AllowAddLiquidity
| AllowRouteSwaps | AllowWithdrawLiquidity | AllowV3LiquidityOperations | UnknownFeature.

#[export] Instance FeatureName_eq_dec : EqDecision FeatureName.
Proof. solve_decision. Defined.

(** [Debug]. *)
Definition FeatureName_debug (f : FeatureName) : string :=
  match f with
  | MasterKillSwitch => "MasterKillSwitch" | AllowWithdrawFees => "AllowWithdrawFees"
  | AllowPoolCreation => "AllowPoolCreation" | AllowSwaps => "AllowSwaps"
  | AllowAddLiquidity => "AllowAddLiquidity" | AllowRouteSwaps => "AllowRouteSwaps"
  | AllowWithdrawLiquidity => "AllowWithdrawLiquidity"
  | AllowV3LiquidityOperations => "AllowV3LiquidityOperations" | UnknownFeature => "Unknown"
  end.

Record FeatureStatus : Type := { feature_name : FeatureName; fs_enabled : bool; reason : option string }.
Record MinAmount : Type := { asset_identifier : string; min_amount : Z; ma_enabled : bool }.
Record PingResponse : Type := { ping_status : string }.
Record ChallengeRequest : Type := { ch_public_key : string }.
Record ChallengeResponse : Type := { challenge : string; challenge_string : string; ch_request_id : string }.
Record VerifyRequest : Type := { vr_public_key : string; vr_signature : string }.
Record VerifyResponse : Type := { access_token : string }.

Record GetMinAmountsRequest : Type := { gm_asset_in : string; gm_asset_out : string }.
Record GetMinAmountsResponse : Type := { asset_in_min : option Z; asset_out_min : option Z }.

Inductive PoolSortOrder : Type :=
| CreatedAtAsc | CreatedAtDesc | Volume24hAsc | Volume24hDesc | TvlAsc | TvlDesc.

Record ListPoolsRequest : Type := {
  lp_asset_a_address : option string;
  lp_asset_b_address : option string;
  host_names : option (list string);
  min_volume_24h : option Z;
  min_tvl : option Z;
  curve_types : option (list CurveType);
  lp_sort : option PoolSortOrder;
  lp_limit : option Z;
  lp_offset : option Z;
  after_updated_at : option string
}.

Record SimulateSwapResponse : Type := {
  sim_amount_out : Z;
  sim_execution_price : option f64;
  fee_paid_asset_in : option Z;
  price_impact_pct : option string;
  warning_message : option string
}.

Record ClawbackResponse : Type := {
  cb_request_id : string;
  cb_accepted : bool;
  internal_request_id : string;
  spark_status_tracking_id : string;
  cb_error : option string
}.

Record SignedExecuteSwapResponse : Type := {
  sx_request_id : string;
  sx_accepted : bool;
  sx_amount_out : option Z;
  sx_fee_amount : option Z;
  sx_execution_price : option f64;
  sx_asset_out_address : option string;
  sx_asset_in_address : option string;
  sx_outbound_transfer_id : option string;
  sx_error : option string;
  sx_refunded_asset_address : option string;
  sx_refunded_amount : option Z;
  sx_refund_transfer_id : option string
}.

Record ExecuteSwapResponse : Type := {
  xr_transfer_id : string;
  xr_request_id : string;
  xr_accepted : bool;
  xr_amount_out : option Z;
  xr_fee_amount : option Z;
  xr_execution_price : option f64;
  xr_asset_out_address : option string;
  xr_asset_in_address : option string;
  xr_outbound_transfer_id : option string;
  xr_error : option string;
  xr_refunded_asset_address : option string;
  xr_refunded_amount : option Z;
  xr_refund_transfer_id : option string
}.

Definition from_signed_execute_swap_response (response : SignedExecuteSwapResponse) (transfer_id : string)
    : ExecuteSwapResponse :=
  {| xr_transfer_id := transfer_id; xr_request_id := sx_request_id response;
     xr_accepted := sx_accepted response; xr_amount_out := sx_amount_out response;
     xr_fee_amount := sx_fee_amount response; xr_execution_price := sx_execution_price response;
     xr_asset_out_address := sx_asset_out_address response;
     xr_asset_in_address := sx_asset_in_address response;
     xr_outbound_transfer_id := sx_outbound_transfer_id response; xr_error := sx_error response;
     xr_refunded_asset_address := sx_refunded_asset_address response;
     xr_refunded_amount := sx_refunded_amount response;
     xr_refund_transfer_id := sx_refund_transfer_id response |}.

Section messages.
Context {ao : AddressOps} {ti : TransferIds}.

Record IntegratorConfig : Type := { ic_pubkey : AddrKey; ic_fee_bps : Z }.

Record FlashnetConfig : Type := {
  base_url : string;
  fc_network : Transactions.Network;
  integrator_config : option IntegratorConfig
}.

Definition default_config (network : Transactions.Network) (integrator_config : option IntegratorConfig)
    : FlashnetConfig :=
  {| base_url := match network with
                 | Transactions.Mainnet => "https://api.flashnet.xyz"
                 | _ => "https://api.amm.makebitcoingreatagain.dev"
                 end;
     fc_network := network; integrator_config := integrator_config |}.

Record ListPoolsResponse : Type := { pools : list (Pool (PublicKey := AddrKey)); total_count : Z }.

Record SimulateSwapRequest : Type := {
  ss_pool_id : AddrKey;
  ss_asset_in_address : string;
  ss_asset_out_address : string;
  ss_amount_in : Z;
  integrator_bps : option Z
}.

Record ExecuteSwapRequest : Type := {
  xs_pool_id : AddrKey;
  xs_asset_in_address : string;
  xs_asset_out_address : string;
  xs_amount_in : Z;
  xs_max_slippage_bps : Z;
  xs_min_amount_out : Z;
  integrator_fee_rate_bps : option Z;
  integrator_public_key : option AddrKey;
  xs_transfer_id : option TransferId
}.

Record ExecuteSwapIntent : Type := {
  xi_user_public_key : AddrKey;
  xi_lp_identity_public_key : AddrKey;
  xi_asset_in_spark_transfer_id : string;
  xi_asset_in_address : string;
  xi_asset_out_address : string;
  xi_amount_in : Z;
  xi_min_amount_out : Z;
  xi_max_slippage_bps : Z;
  xi_nonce : string;
  xi_total_integrator_fee_rate_bps : Z
}.

Record SignedExecuteSwapRequest : Type := {
  sr_user_public_key : AddrKey;
  sr_pool_id : AddrKey;
  sr_asset_in_address : string;
  sr_asset_out_address : string;
  sr_amount_in : Z;
  sr_max_slippage_bps : Z;
  sr_min_amount_out : Z;
  sr_asset_in_spark_transfer_id : string;
  sr_nonce : string;
  sr_total_integrator_fee_rate_bps : Z;
  sr_integrator_public_key : string;
  sr_signature : string
}.

Record ClawbackRequest : Type := { cr_pool_id : AddrKey; cr_transfer_id : string }.

Record ClawbackIntent : Type := {
  cl_sender_public_key : AddrKey;
  cl_spark_transfer_id : string;
  cl_lp_identity_public_key : AddrKey;
  cl_nonce : string
}.

Record SignedClawbackRequest : Type := {
  sc_sender_public_key : AddrKey;
  sc_spark_transfer_id : string;
  sc_lp_identity_public_key : AddrKey;
  sc_nonce : string;
  sc_signature : string
}.

(** JSON and query strings, and the claim [exp] of a payload in base64. *)
Class FlashnetSerde := {
  serde_features :: Serde (list FeatureStatus);
  serde_min_amounts :: Serde (list MinAmount);
  serde_ping :: Serde PingResponse;
  serde_text :: Serde string;
  serde_challenge_request :: Serde ChallengeRequest;
  serde_challenge_response :: Serde ChallengeResponse;
  serde_verify_request :: Serde VerifyRequest;
  serde_verify_response :: Serde VerifyResponse;
  serde_list_pools_request :: Serde ListPoolsRequest;
  serde_list_pools_response :: Serde ListPoolsResponse;
  serde_simulate_request :: Serde SimulateSwapRequest;
  serde_simulate_response :: Serde SimulateSwapResponse;
  serde_swap_intent :: Serde ExecuteSwapIntent;
  serde_swap_request :: Serde SignedExecuteSwapRequest;
  serde_swap_response :: Serde SignedExecuteSwapResponse;
  serde_clawback_intent :: Serde ClawbackIntent;
  serde_clawback_request :: Serde SignedClawbackRequest;
  serde_clawback_response :: Serde ClawbackResponse;
  urlencode_pools : ListPoolsRequest → result string string;
  payload_exp : string → option Z
}.
End messages.

(** The errors of the session manager, the signer and the wallet. *)
Class ForeignErrors := { ForeignError : Type; ForeignError_fmt : ForeignError → string }.

Abbreviation FError := (FlashnetError (ForeignError := ForeignError)).

(** [Debug] of an [Option<u16>]. *)
Definition code_debug (code : option Z) : string :=
  match code with Some c => "Some(" +:+ pretty c +:+ ")" | None => "None" end.

Fixpoint FlashnetError_fmt {fo : ForeignErrors} (e : FError) : string :=
  match e with
  | FlashnetPools.NetworkError reason code => "Network error: " +:+ reason +:+ " (code: " +:+ code_debug code +:+ ")"
  | Execution source _ => "Execution error: " +:+ FlashnetError_fmt source
  | Session e => "Session: " +:+ ForeignError_fmt e
  | Signer e => "Signer: " +:+ ForeignError_fmt e
  | Wallet e => "Wallet: " +:+ ForeignError_fmt e
  | Generic s => "Generic: " +:+ s
  end.

Definition FlashnetError_of_http {fo : ForeignErrors} (err : HttpError) : FError :=
  FlashnetPools.NetworkError (HttpError_fmt err) (HttpError_status err).

Record CacheItem : Type := { item_data : string; expiration : Z }.

(** The cache of the client, the clock in nanoseconds since the epoch ([None] before it), HTTP
    and the random bytes of a nonce. *)
Class FlashnetWorld (W : Type) := {
  cache : W → gmap string CacheItem;
  put_cache : gmap string CacheItem → W → W;
  clock_ns : W → W * option Z;
  http_get : string → gmap string string → SE W HttpError HttpResponse;
  http_post : string → gmap string string → string → SE W HttpError HttpResponse;
  generate_nonce : W → W * list Z
}.

(** The wallet: its key, compact signatures, and transfers with their identifier or hash. *)
Class FlashnetWallet {ao : AddressOps} {ti : TransferIds} {fo : ForeignErrors} (W : Type) := {
  fw_identity_public_key : AddrKey;
  sign_message : string → SE W ForeignError (list Z);
  fw_transfer : Z → SparkAddress → option TransferId → SE W ForeignError string;
  fw_transfer_tokens : list TokenTransfers.TransferTokenOutput → SE W ForeignError string
}.

Definition BTC_ASSET_ADDRESS : string :=
  "020202020202020202020202020202020202020202020202020202020202020202".
Definition FEATURE_STATUSES_CACHE_KEY : string := "feature_statuses".
Definition LIST_POOLS_CACHE_KEY : string := "list_pools".
Definition MIN_AMOUNTS_CACHE_KEY : string := "min_amounts".
Definition PING_CACHE_KEY : string := "ping".
Definition ACCESS_TOKEN_CACHE_KEY : string := "access_token".
Definition FEATURE_STATUSES_TTL_MS : Z := 5000.
Definition LIST_POOLS_TTL_MS : Z := 60000.
Definition MIN_AMOUNTS_TTL_MS : Z := 5000.
Definition PING_TTL_MS : Z := 2000.
Definition HOUR_MS : Z := 60 * 60 * 1000.

(** [s.split(c)]. *)
Fixpoint segments (c : ascii) (s : string) : list string :=
  match s with
  | EmptyString => [""]
  | String a s =>
      if Ascii.eqb a c then "" :: segments c s
      else match segments c s with
           | [] => [String a ""]
           | x :: l => String a x :: l
           end
  end.

Section client.
Context {W : Type} {ao : AddressOps} {tx : TokenTextOps} {ti : TransferIds} {fo : ForeignErrors}
  {fs : FlashnetSerde} {fw : FlashnetWorld W} {wal : FlashnetWallet W}.
Context (config : FlashnetConfig).

Abbreviation F A := (SE W FError A).

Definition generic {A} (r : result A string) (prefix : string) : result A FError :=
  map_err (λ e, Generic (prefix +:+ e)) r.

Definition of_wallet_error {A} (m : SE W ForeignError A) : F A := se_map_err Wallet m.

Definition key_to_string (key : AddrKey) : string := hex_encode (Key_serialize key).

(** ** [CacheStore] *)

(** [SystemTime::now().duration_since(UNIX_EPOCH)]. *)
Definition now_since_epoch (error : FError) : F Z :=
  λ w, let '(w, now) := clock_ns w in (w, ok_or now error).

Definition system_time_error : FError :=
  Generic "System time error: second time provided was later than self".

Definition cache_get {D} {s : Serde D} (key : string) : F (option D) := λ w,
  match cache w !! key with
  | None => (w, Ok None)
  | Some item =>
      (do* now := now_since_epoch system_time_error in
       if expiration item <? now / 1000000 then se_ret None
       else
         do* res := se_lift (generic (from_json (item_data item)) "Failed to deserialize cache item: ") in
         se_ret (Some res)) w
  end.

Definition cache_set {D} {s : Serde D} (key : string) (data : D) (ttl_ms : Z) : F () :=
  do* data := se_lift (generic (to_json data) "Failed to serialize cache item: ") in
  do* now := now_since_epoch system_time_error in
  λ w, (put_cache (<[key := {| item_data := data;
                               expiration := saturating_add 128 (now / 1000000) ttl_ms |}]> (cache w)) w, Ok ()).

(** A value of the cache, or asked for and cached. *)
Definition cached_or {D} {s : Serde D} (key : string) (ttl_ms : Z) (request : F D) : F D :=
  do* hit := cache_get key in
  match hit with
  | Some value => se_ret value
  | None =>
      do* value := request in
      do* _ := cache_set key value ttl_ms in
      se_ret value
  end.

(** ** Requests *)

Definition request_headers (access_token : option string) : gmap string string :=
  let headers := <["Content-Type" := "application/json"]> ∅ in
  match access_token with
  | Some token => <["Authorization" := "Bearer " +:+ token]> headers
  | None => headers
  end.

Definition of_response {D} {s : Serde D} (response : HttpResponse) : result D FError :=
  if negb (is_success response)
  then Err (FlashnetPools.NetworkError (hr_body response) (Some (hr_status response)))
  else generic (map_err (λ e, HttpError_fmt (HttpJson e)) (from_json (hr_body response)))
         "Failed to parse response JSON: ".

Definition get_request_inner {D} {s : Serde D} (endpoint : string) (access_token : option string)
    (query : option (result string string)) : F D :=
  do* query_string := se_lift match query with
                              | Some q => let* qs := generic q "Failed to serialize query parameters: " in
                                          Ok ("?" +:+ qs)
                              | None => Ok ""
                              end in
  let url := base_url config +:+ "/" +:+ endpoint +:+ query_string in
  do* response := se_map_err FlashnetError_of_http (http_get url (request_headers access_token)) in
  se_lift (of_response response).

Definition post_request_inner {S D} {ss : Serde S} {s : Serde D} (endpoint : string)
    (access_token : option string) (body : S) : F D :=
  let url := base_url config +:+ "/" +:+ endpoint in
  do* body_json := se_lift (generic (to_json body) "Failed to serialize body: ") in
  do* response := se_map_err FlashnetError_of_http (http_post url (request_headers access_token) body_json) in
  se_lift (of_response response).

Definition auth_challenge (request : ChallengeRequest) : F ChallengeResponse :=
  post_request_inner "v1/auth/challenge" None request.
Definition auth_verify (request : VerifyRequest) : F VerifyResponse :=
  post_request_inner "v1/auth/verify" None request.

(** How long a token is kept: until thirty seconds before it expires, or an hour. *)
Definition access_token_ttl (token : string) : F Z :=
  match (payload ← segments "." token !! 1%nat; payload_exp payload) with
  | Some exp =>
      do* now := now_since_epoch (Generic "Failed to get current time") in
      let left := saturating_sub (exp * 1000000000) now in
      se_ret (saturating_sub left (30 * 1000000000) / 1000000)
  | None => se_ret HOUR_MS
  end.

Definition authenticate : F string :=
  let identity_public_key := key_to_string fw_identity_public_key in
  do* challenge_response := auth_challenge {| ch_public_key := identity_public_key |} in
  do* signature := of_wallet_error (sign_message (challenge_string challenge_response)) in
  do* verify_response := auth_verify {| vr_public_key := identity_public_key;
                                        vr_signature := hex_encode signature |} in
  do* ttl_ms := access_token_ttl (access_token verify_response) in
  do* _ := cache_set ACCESS_TOKEN_CACHE_KEY (access_token verify_response) ttl_ms in
  se_ret (access_token verify_response).

Definition get_access_token : F string :=
  do* hit := cache_get ACCESS_TOKEN_CACHE_KEY in
  match hit with Some token => se_ret token | None => authenticate end.

Definition get_request {D} {s : Serde D} (endpoint : string) (query : option (result string string)) : F D :=
  do* token := get_access_token in get_request_inner endpoint (Some token) query.

Definition post_request {S D} {ss : Serde S} {s : Serde D} (endpoint : string) (body : S) : F D :=
  do* token := get_access_token in post_request_inner endpoint (Some token) body.

(** ** Token identifiers *)

(** [bech32m_decode_token_id] for a network, with the text of its error. *)
Definition bech32m_decode (id : string) (network : Transactions.Network) : result (list Z) string :=
  map_err service_generic_fmt (bech32m_decode_token_id id (Some network)).

Definition decode_id (token_id : string) : result string FError :=
  FlashnetPools.decode_token_identifier bech32m_decode hex_encode token_id (fc_network config).

Definition decode_id_opt (token_id : option string) : result (option string) FError :=
  match token_id with
  | Some id => let* id := decode_id id in Ok (Some id)
  | None => Ok None
  end.

Definition decode_list_pools (r : ListPoolsRequest) : result ListPoolsRequest FError :=
  let* asset_a := decode_id_opt (lp_asset_a_address r) in
  let* asset_b := decode_id_opt (lp_asset_b_address r) in
  Ok {| lp_asset_a_address := asset_a; lp_asset_b_address := asset_b; host_names := host_names r;
        min_volume_24h := min_volume_24h r; min_tvl := min_tvl r; curve_types := curve_types r;
        lp_sort := lp_sort r; lp_limit := lp_limit r; lp_offset := lp_offset r;
        after_updated_at := after_updated_at r |}.

Definition decode_min_amounts (r : GetMinAmountsRequest) : result GetMinAmountsRequest FError :=
  let* asset_in := decode_id (gm_asset_in r) in
  let* asset_out := decode_id (gm_asset_out r) in
  Ok {| gm_asset_in := asset_in; gm_asset_out := asset_out |}.

Definition decode_simulate (r : SimulateSwapRequest) : result SimulateSwapRequest FError :=
  let* asset_in := decode_id (ss_asset_in_address r) in
  let* asset_out := decode_id (ss_asset_out_address r) in
  Ok {| ss_pool_id := ss_pool_id r; ss_asset_in_address := asset_in; ss_asset_out_address := asset_out;
        ss_amount_in := ss_amount_in r; integrator_bps := integrator_bps r |}.

Definition decode_execute (r : ExecuteSwapRequest) : result ExecuteSwapRequest FError :=
  let* asset_in := decode_id (xs_asset_in_address r) in
  let* asset_out := decode_id (xs_asset_out_address r) in
  Ok {| xs_pool_id := xs_pool_id r; xs_asset_in_address := asset_in; xs_asset_out_address := asset_out;
        xs_amount_in := xs_amount_in r; xs_max_slippage_bps := xs_max_slippage_bps r;
        xs_min_amount_out := xs_min_amount_out r; integrator_fee_rate_bps := integrator_fee_rate_bps r;
        integrator_public_key := integrator_public_key r; xs_transfer_id := xs_transfer_id r |}.

(** ** Checks before a swap *)

Definition ping : F PingResponse := get_request "v1/ping" None.
Definition config_feature_status : F (list FeatureStatus) := get_request "v1/config/feature-status" None.

Definition ensure_ping_ok : F () :=
  do* ping := cached_or PING_CACHE_KEY PING_TTL_MS ping in
  if negb (String.eqb (to_lowercase (ping_status ping)) "ok")
  then se_fail (Generic "Flashnet ping response not ok") else se_ret ().

Definition ensure_feature_status (feature : FeatureName) : F () :=
  do* feature_statuses := cached_or FEATURE_STATUSES_CACHE_KEY FEATURE_STATUSES_TTL_MS config_feature_status in
  match List.find (λ fs, bool_decide (feature_name fs = feature)) feature_statuses with
  | Some fs =>
      if fs_enabled fs then se_ret ()
      else se_fail (Generic ("Feature " +:+ FeatureName_debug feature +:+ " is disabled: "
                             +:+ default "No reason provided" (reason fs)))
  | None => se_fail (Generic ("Feature " +:+ FeatureName_debug feature +:+ " not found in status list"))
  end.

Definition config_min_amounts : F (list MinAmount) :=
  cached_or MIN_AMOUNTS_CACHE_KEY MIN_AMOUNTS_TTL_MS (get_request "v1/config/min-amounts" None).

Definition min_amounts_of (l : list MinAmount) (request : GetMinAmountsRequest) : GetMinAmountsResponse :=
  let min_amounts_map : gmap string Z :=
    insert_all asset_identifier min_amount (List.filter ma_enabled l) ∅ in
  match min_amounts_map !! gm_asset_in request with
  | Some min_in => {| asset_in_min := Some min_in; asset_out_min := None |}
  | None =>
      match min_amounts_map !! gm_asset_out request with
      | Some min_out => {| asset_in_min := None; asset_out_min := Some (min_out / 2) |}
      | None => {| asset_in_min := None; asset_out_min := None |}
      end
  end.

Definition get_min_amounts (request : GetMinAmountsRequest) : F GetMinAmountsResponse :=
  do* request := se_lift (decode_min_amounts request) in
  do* min_amounts := config_min_amounts in
  se_ret (min_amounts_of min_amounts request).

Definition check_min_amounts (asset_in_address asset_out_address : string) (amount_in : Z)
    (min_amount_out : option Z) (min_amounts : GetMinAmountsResponse) : result () FError :=
  match asset_in_min min_amounts with
  | Some min_in =>
      if amount_in <? min_in
      then Err (Generic ("Amount in " +:+ pretty amount_in +:+ " is less than minimum required "
                         +:+ pretty min_in +:+ " for asset " +:+ asset_in_address))
      else Ok ()
  | None =>
      match min_amount_out, asset_out_min min_amounts with
      | Some min_amount_out, Some min_out =>
          if min_amount_out <? min_out
          then Err (Generic ("Minimum amount out " +:+ pretty min_amount_out +:+ " is less than required "
                             +:+ pretty min_out +:+ " (50% relaxed) for asset " +:+ asset_out_address))
          else Ok ()
      | _, _ => Ok ()
      end
  end.

Definition ensure_min_amounts (asset_in_address asset_out_address : string) (amount_in : Z)
    (min_amount_out : option Z) : F () :=
  do* min_amounts := get_min_amounts {| gm_asset_in := asset_in_address; gm_asset_out := asset_out_address |} in
  se_lift (check_min_amounts asset_in_address asset_out_address amount_in min_amount_out min_amounts).

(** ** Pools and swaps *)

Definition get_pool (pool_id : string) : F ListPoolsResponse := get_request ("v1/pools/" +:+ pool_id) None.

(** [to_string] of a [sha256::Hash] is its hexadecimal text. *)
Definition list_pools_key (request_json : string) : string :=
  LIST_POOLS_CACHE_KEY +:+ "_" +:+ hex_encode (sha256 (Bytes.as_bytes request_json)).

Definition list_pools (request : ListPoolsRequest) : F ListPoolsResponse :=
  do* request := se_lift (decode_list_pools request) in
  do* request_json := se_lift (generic (to_json request) "Failed to serialize list pools request: ") in
  cached_or (list_pools_key request_json) LIST_POOLS_TTL_MS
    (get_request "v1/pools" (Some (urlencode_pools request))).

Definition simulate_swap (request : SimulateSwapRequest) : F SimulateSwapResponse :=
  do* request := se_lift (decode_simulate request) in
  do* _ := ensure_ping_ok in
  do* _ := ensure_feature_status AllowSwaps in
  do* _ := ensure_min_amounts (ss_asset_in_address request) (ss_asset_out_address request)
             (ss_amount_in request) None in
  post_request "v1/swap/simulate" request.

(** The text of an error of [hex::decode] is left out. *)
Definition transfer_asset (amount : Z) (asset_address : string) (receiver_public_key : AddrKey)
    (transfer_id : option TransferId) : F string :=
  let receiver_address := {| identity_public_key := receiver_public_key; Addresses.network := fc_network config;
                             spark_invoice_fields := None |} in
  if String.eqb asset_address BTC_ASSET_ADDRESS then
    do* amount := se_lift (if amount <=? umax 64 then Ok amount
      else Err (Generic "Failed to convert amount to u64: out of range integral type conversion attempted")) in
    of_wallet_error (fw_transfer amount receiver_address transfer_id)
  else
    do* asset_address_hex := se_lift (ok_or (hex_decode asset_address)
                               (Generic "Failed to decode asset address from hex")) in
    do* token_id := se_lift (generic (map_err service_generic_fmt (bech32m_encode_token_id asset_address_hex (fc_network config)))
                               "Failed to encode token id: ") in
    of_wallet_error (fw_transfer_tokens
      [ {| TokenTransfers.tro_token_id := token_id; TokenTransfers.tro_amount := amount;
           TokenTransfers.receiver_address := receiver_address; TokenTransfers.tro_spark_invoice := None |} ]).

(** The fee and the key of the integrator: those of the request, or of the configuration. *)
Definition integrator (request : ExecuteSwapRequest) : Z * option AddrKey :=
  match integrator_fee_rate_bps request, integrator_public_key request with
  | Some fee, pk => (fee, pk)
  | None, Some pk => (0, Some pk)
  | None, None =>
      match integrator_config config with
      | Some c => (ic_fee_bps c, Some (ic_pubkey c))
      | None => (0, None)
      end
  end.

Definition swap_intent (request : ExecuteSwapRequest) (asset_in_spark_transfer_id nonce : string)
    : ExecuteSwapIntent :=
  {| xi_user_public_key := fw_identity_public_key; xi_lp_identity_public_key := xs_pool_id request;
     xi_asset_in_spark_transfer_id := asset_in_spark_transfer_id;
     xi_asset_in_address := xs_asset_in_address request; xi_asset_out_address := xs_asset_out_address request;
     xi_amount_in := xs_amount_in request; xi_min_amount_out := xs_min_amount_out request;
     xi_max_slippage_bps := xs_max_slippage_bps request; xi_nonce := nonce;
     xi_total_integrator_fee_rate_bps := (integrator request).1 |}.

Definition signed_swap (request : ExecuteSwapRequest) (asset_in_spark_transfer_id nonce : string)
    (signature : list Z) : SignedExecuteSwapRequest :=
  {| sr_user_public_key := fw_identity_public_key; sr_pool_id := xs_pool_id request;
     sr_asset_in_address := xs_asset_in_address request; sr_asset_out_address := xs_asset_out_address request;
     sr_amount_in := xs_amount_in request; sr_max_slippage_bps := xs_max_slippage_bps request;
     sr_min_amount_out := xs_min_amount_out request;
     sr_asset_in_spark_transfer_id := asset_in_spark_transfer_id; sr_nonce := nonce;
     sr_total_integrator_fee_rate_bps := (integrator request).1;
     sr_integrator_public_key := default "" (key_to_string <$> (integrator request).2);
     sr_signature := hex_encode signature |}.

Definition sign_execute_swap (request : ExecuteSwapRequest) (asset_in_spark_transfer_id : string)
    : F SignedExecuteSwapResponse :=
  do* nonce := se_total generate_nonce in
  let nonce := hex_encode nonce in
  do* intent_json := se_lift (generic (to_json (swap_intent request asset_in_spark_transfer_id nonce))
                                "Failed to serialize execute swap intent: ") in
  do* signature := of_wallet_error (sign_message intent_json) in
  post_request "v1/swap" (signed_swap request asset_in_spark_transfer_id nonce signature).

Definition execute_swap (request : ExecuteSwapRequest) : F ExecuteSwapResponse :=
  do* request := se_lift (decode_execute request) in
  do* _ := ensure_ping_ok in
  do* _ := ensure_feature_status AllowSwaps in
  do* _ := ensure_min_amounts (xs_asset_in_address request) (xs_asset_out_address request)
             (xs_amount_in request) (Some (xs_min_amount_out request)) in
  do* transaction_identifier := transfer_asset (xs_amount_in request) (xs_asset_in_address request)
                                  (xs_pool_id request) (xs_transfer_id request) in
  try* swap_response_res := sign_execute_swap request transaction_identifier in
  se_lift match swap_response_res with
          | Ok response => Ok (from_signed_execute_swap_response response transaction_identifier)
          | Err e => Err (Execution e (Some transaction_identifier))
          end.

Definition sign_clawback (request : ClawbackRequest) : F ClawbackResponse :=
  do* nonce := se_total generate_nonce in
  let nonce := hex_encode nonce in
  let intent := {| cl_sender_public_key := fw_identity_public_key; cl_spark_transfer_id := cr_transfer_id request;
                   cl_lp_identity_public_key := cr_pool_id request; cl_nonce := nonce |} in
  do* intent_json := se_lift (generic (to_json intent) "Failed to serialize execute swap intent: ") in
  do* signature := of_wallet_error (sign_message intent_json) in
  post_request "v1/clawback"
    {| sc_sender_public_key := fw_identity_public_key; sc_spark_transfer_id := cr_transfer_id request;
       sc_lp_identity_public_key := cr_pool_id request; sc_nonce := nonce; sc_signature := hex_encode signature |}.

Definition clawback (request : ClawbackRequest) : F ClawbackResponse :=
  do* _ := ensure_ping_ok in
  sign_clawback request.
End client.
