(* ===== verification/TokenConversion.v ===== *)
(** The conversions of satoshis and tokens over Flashnet:
    [crates/breez-sdk/core/src/token_conversion/flashnet.rs], with
    [ConversionType::as_asset_addresses] of [models.rs] and the middleware of
    [middleware.rs].  At the end the converter is made an instance of the trait that the stable
    balance uses ([TokenConverter]).

    The futures of a [join!] or a [try_join!] run one after the other, and those of a
    [try_join!] that come after one that failed are not run. *)
From stdpp Require Import base gmap strings list pretty.
From S2P Require Import Prelude Payments ConversionQueue ObjectCache PaymentSync Transactions Addresses TokenTx.
From S2P Require Import FlashnetPools StableBalance Flashnet.

Definition DEFAULT_CONVERSION_MAX_SLIPPAGE_BPS : Z := 10.

(** The side of a conversion that bears the fee. *)
Inductive FeeSplit : Type := FeeSent (fee : Z) | FeeReceived (fee : Z).

Definition as_asset_addresses (conversion_type : ConversionType) (token_identifier : option string)
    : result (string * string) SdkError :=
  match conversion_type with
  | FromBitcoin =>
      let* token := ok_or token_identifier
                      (InvalidInput "Token identifier is required for from Bitcoin conversion") in
      Ok (BTC_ASSET_ADDRESS, token)
  | ToBitcoin from_token_identifier => Ok (from_token_identifier, BTC_ASSET_ADDRESS)
  end.

(** [From<Network> for SparkNetwork]. *)
Definition SparkNetwork_from (n : Payments.Network) : Transactions.Network :=
  match n with Payments.Mainnet => Transactions.Mainnet | Payments.Regtest => Transactions.Regtest end.

Definition ConversionError_of_flashnet {fo : ForeignErrors} (e : FError) : ConversionError :=
  match e with
  | FlashnetPools.NetworkError _ (Some 409) => DuplicateTransfer
  | _ => ConversionFailedError (FlashnetError_fmt e)
  end.

(** ** Payments to refund: requests of the storage *)

Inductive AssetFilter : Type := AssetBitcoin | AssetToken (token_identifier : option string).

Inductive StoragePaymentDetailsFilter : Type :=
| SparkFilter (htlc_status : option (list SparkHtlcStatus)) (conversion_refund_needed : option bool)
| TokenFilter (conversion_refund_needed : option bool) (tx_hash : option string)
    (tx_type : option TokenTransactionType)
| LightningFilter (htlc_status : option (list SparkHtlcStatus)).

Record StorageListPaymentsRequest : Type := {
  type_filter : option (list PaymentType);
  status_filter : option (list PaymentStatus);
  asset_filter : option AssetFilter;
  payment_details_filter : option (list StoragePaymentDetailsFilter);
  from_timestamp : option Z;
  to_timestamp : option Z;
  lq_offset : option Z;
  lq_limit : option Z;
  sort_ascending : option bool
}.

(** What else the converter calls: the payments of the storage, token transactions of the wallet
    (an error is its text), fresh identifiers, the trigger of the refunds, and texts of library
    types ([TransferId::from_str], [PublicKey::from_str], [Debug] of a string). *)
Class ConversionEnv {pt : PaymentTypes} {ao : AddressOps} {ti : TransferIds} (W : Type) := {
  list_payments : StorageListPaymentsRequest → SE W StorageError (list Payment);
  wallet_token_transactions : list string → SE W string (list TokenTransaction);
  now_v7 : W → W * string;
  send_refund_trigger : W → W;
  transfer_id_from_str : string → option TransferId;
  key_from_str : string → option AddrKey;
  string_debug : string → string
}.

Section converter.
Context {W : Type} {pt : PaymentTypes} {ip : InvoiceParsers} {cs : CacheStorage W} {ps : PaymentStorage W}
  {sync : SyncWallet W} {s_token : Serde TokenMetadata} {s_meta : Serde PaymentMetadata}.
Context {ao : AddressOps} {tx : TokenTextOps} {ti : TransferIds} {fo : ForeignErrors} {fs : FlashnetSerde}
  {fw : FlashnetWorld W} {fwal : FlashnetWallet W} {wal : StableWallet W} {env : ConversionEnv W}.
Context `{!Countable AddrKey} {ho : HashOrder}.
Context (config : FlashnetConfig) (network : Payments.Network).

Abbreviation M A := (SE W (exn ConversionError) A).
Abbreviation AnyPool := (Pool (PublicKey := AddrKey)).

Record TokenConversionPool : Type := {
  cp_asset_in_address : string;
  cp_asset_out_address : string;
  cp_pool : AnyPool
}.

(** [?] on the errors of the collaborators. *)
Definition of_flashnet {A} (m : SE W FError A) : M A := se_map_err (λ e, Throw (ConversionError_of_flashnet e)) m.
Definition lift_flashnet {A} (r : result A FError) : M A := se_lift (throws (map_err ConversionError_of_flashnet r)).
Definition of_store {A} (m : SE W StorageError A) : M A := se_map_err (λ e, Throw (CE_Storage e)) m.
Definition of_spark_wallet {A} (m : SE W string A) : M A := se_map_err (λ e, Throw (CE_Wallet e)) m.
Definition throw {A} (e : ConversionError) : M A := se_fail (Throw e).

(** [match m.await { Ok(a) => .., Err(e) => .. }]; a panic is not caught. *)
Definition catch {E A B} (m : SE W (exn E) A) (k : result A E → M B) : M B :=
  try* r := m in
  match r with
  | Ok a => k (Ok a)
  | Err (Throw e) => k (Err e)
  | Err Panic => se_fail Panic
  end.

Definition integrator_fee_bps : Z := from_option ic_fee_bps 0 (integrator_config config).

Definition slippage (options : ConversionOptions) : Z :=
  default DEFAULT_CONVERSION_MAX_SLIPPAGE_BPS (max_slippage_bps options).

(** ** Pools *)

Definition pools_request (asset_a asset_b : string) : ListPoolsRequest :=
  {| lp_asset_a_address := Some asset_a; lp_asset_b_address := Some asset_b; host_names := None;
     min_volume_24h := None; min_tvl := None; curve_types := None; lp_sort := Some Volume24hDesc;
     lp_limit := None; lp_offset := None; after_updated_at := None |}.

(** The pools of both answers by their key; the second answer wins. *)
Definition merge_pools (a_in b_in : result ListPoolsResponse FError) : list AnyPool :=
  let pools_of (r : result ListPoolsResponse FError) := match r with Ok res => pools res | Err _ => [] end in
  hm_values (insert_all lp_public_key id (pools_of b_in) (insert_all lp_public_key id (pools_of a_in) ∅)).

Definition select_pool (l : list AnyPool) (asset_in_address : string) (amount_out max_slippage_bps : Z)
    : option (result AnyPool FError) :=
  select_best_pool BTC_ASSET_ADDRESS bech32m_decode hex_encode l asset_in_address amount_out max_slippage_bps
    integrator_fee_bps (SparkNetwork_from network).

Definition get_conversion_pool (options : ConversionOptions) (token_identifier : option string)
    (amount_out : Z) : M TokenConversionPool :=
  do* (asset_in_address, asset_out_address) :=
    se_lift (throws (map_err CE_Sdk (as_asset_addresses (conversion_type options) token_identifier))) in
  try* a_in_pools_res := list_pools config (pools_request asset_in_address asset_out_address) in
  try* b_in_pools_res := list_pools config (pools_request asset_out_address asset_in_address) in
  let pools := merge_pools a_in_pools_res b_in_pools_res in
  if bool_decide (pools = []) then throw NoPoolsAvailable
  else
    do* selected := se_lift (or_panic (select_pool pools asset_in_address amount_out (slippage options))) in
    do* pool := lift_flashnet selected in
    se_ret {| cp_asset_in_address := asset_in_address; cp_asset_out_address := asset_out_address;
              cp_pool := pool |}.

(** ** Limits *)

Definition flashnet_fetch_limits (request : FetchConversionLimitsRequest) : M FetchConversionLimitsResponse :=
  do* (asset_in_address, asset_out_address) :=
    se_lift (throws (map_err CE_Sdk (as_asset_addresses (fl_conversion_type request) (fl_token_identifier request)))) in
  do* min_amounts := of_flashnet (get_min_amounts config {| gm_asset_in := asset_in_address;
                                                            gm_asset_out := asset_out_address |}) in
  se_ret {| min_from_amount := asset_in_min min_amounts; min_to_amount := asset_out_min min_amounts |}.

(** The amount raised to the limit, or to the whole balance when dust would be left. *)
Definition adjust_amount (amount_in min_from_amount token_balance : Z) : Z * option AmountAdjustmentReason :=
  let adjusted := Z.max amount_in min_from_amount in
  let remaining := saturating_sub token_balance adjusted in
  if (0 <? remaining) && (remaining <? min_from_amount) then (token_balance, Some IncreasedToAvoidDust)
  else (adjusted, if adjusted =? amount_in then None else Some FlooredToMinLimit).

Definition maybe_adjust_to_min_limit (options : ConversionOptions) (token_identifier : option string)
    (amount_in : Z) : M (Z * option AmountAdjustmentReason) :=
  match conversion_type options with
  | FromBitcoin => se_ret (amount_in, None)
  | ToBitcoin from_token_identifier =>
      do* limits := flashnet_fetch_limits {| fl_conversion_type := conversion_type options;
                                             fl_token_identifier := token_identifier |} in
      match min_from_amount limits with
      | None => se_ret (amount_in, None)
      | Some min_from_amount =>
          do* token_balances := of_spark_wallet get_token_balances in
          let token_balance := default 0 (token_balances !! from_token_identifier) in
          se_ret (adjust_amount amount_in min_from_amount token_balance)
      end
  end.

(** ** Estimates *)

Definition simulate_request (pool : TokenConversionPool) (amount_in : Z) : SimulateSwapRequest :=
  {| ss_pool_id := lp_public_key (cp_pool pool); ss_asset_in_address := cp_asset_in_address pool;
     ss_asset_out_address := cp_asset_out_address pool; ss_amount_in := amount_in;
     integrator_bps := if 0 <? integrator_fee_bps then Some integrator_fee_bps else None |}.

Definition estimate_internal (conversion_pool : TokenConversionPool) (options : ConversionOptions)
    (token_identifier : option string) (amount_out : Z) : M ConversionEstimate :=
  do* calculated := se_lift (or_panic
    (calculate_amount_in BTC_ASSET_ADDRESS bech32m_decode hex_encode (cp_pool conversion_pool)
       (cp_asset_in_address conversion_pool) amount_out (slippage options) integrator_fee_bps
       (SparkNetwork_from network))) in
  do* calculated_amount_in := lift_flashnet calculated in
  do* (amount_in, amount_adjustment) :=
    maybe_adjust_to_min_limit options token_identifier calculated_amount_in in
  do* response := of_flashnet (simulate_swap config (simulate_request conversion_pool amount_in)) in
  if sim_amount_out response <? amount_out
  then throw (ValidationFailed ("Validation returned " +:+ pretty (sim_amount_out response)
                                +:+ " but expected at least " +:+ pretty amount_out))
  else se_ret {| ce_options := options; ce_amount_in := amount_in; ce_amount_out := sim_amount_out response;
                 ce_fee := default 0 (fee_paid_asset_in response); ce_amount_adjustment := amount_adjustment |}.

(** The simulated output less the slippage. *)
Definition less_slippage (amount_out max_slippage : Z) : Z :=
  saturating_mul 128 amount_out (saturating_sub 10000 max_slippage) / 10000.

Definition flashnet_validate (options : option ConversionOptions) (token_identifier : option string)
    (amount : ConversionAmount) : M (option ConversionEstimate) :=
  match options with
  | None => se_ret None
  | Some options =>
      match amount with
      | MinAmountOut amount_out =>
          do* conversion_pool := get_conversion_pool options token_identifier amount_out in
          do* estimate := estimate_internal conversion_pool options token_identifier amount_out in
          se_ret (Some estimate)
      | AmountIn amount_in =>
          do* conversion_pool := get_conversion_pool options token_identifier 0 in
          do* response := of_flashnet (simulate_swap config (simulate_request conversion_pool amount_in)) in
          se_ret (Some {| ce_options := options; ce_amount_in := amount_in;
                          ce_amount_out := less_slippage (sim_amount_out response) (slippage options);
                          ce_fee := default 0 (fee_paid_asset_in response); ce_amount_adjustment := None |})
      end
  end.

Definition resolve_amount (options : ConversionOptions) (token_identifier : option string)
    (amount : ConversionAmount) : M (Z * Z * option AmountAdjustmentReason) :=
  do* estimate := flashnet_validate (Some options) token_identifier amount in
  do* estimate := se_lift (ok_or estimate (Throw (ConversionFailedError "No conversion estimate available"))) in
  let min_amount_out := match amount with
                        | MinAmountOut min_out => min_out
                        | AmountIn _ => ce_amount_out estimate
                        end in
  se_ret (ce_amount_in estimate, min_amount_out, ce_amount_adjustment estimate).

(** ** The payments of a conversion *)

Definition fetch_payment_id_by_identifier (identifier : string) (tx_inputs_are_ours : bool) : M string :=
  match transfer_id_from_str identifier with
  | Some transfer_id => se_ret (TransferId_fmt transfer_id)
  | None =>
      do* token_transactions := of_spark_wallet (wallet_token_transactions [identifier]) in
      do* token_transaction := se_lift (ok_or (head token_transactions)
                                 (Throw (ConversionFailedError "Token transaction not found"))) in
      do* payments := se_map_err (λ e, match e with Throw e => Throw (CE_Sdk e) | Panic => Panic end)
                        (token_transaction_to_payments token_transaction tx_inputs_are_ours) in
      se_lift (ok_or (p_id <$> head payments)
        (Throw (ConversionFailedError "Payment id not found for token transaction")))
  end.

Definition info_metadata (info : ConversionInfo) : PaymentMetadata :=
  {| parent_payment_id := None; pm_lnurl_pay_info := None; pm_lnurl_withdraw_info := None;
     lnurl_description := None; pm_conversion_info := Some info; conversion_status := None |}.

Definition status_of (inbound_identifier refund_identifier : option string) : ConversionStatus :=
  match inbound_identifier, refund_identifier with
  | Some _, _ => ConversionCompleted
  | None, Some _ => Refunded
  | None, None => RefundNeeded
  end.

(** The metadata of an inbound payment, kept in the cache until the payment is known. *)
Definition record_inbound (identifier : string) (metadata : PaymentMetadata) : M string :=
  catch (fetch_payment_id_by_identifier identifier false) (λ r,
    match r with
    | Ok payment_id =>
        do* _ := of_store (insert_payment_metadata payment_id metadata) in se_ret payment_id
    | Err _ =>
        do* _ := of_store (save_payment_metadata identifier metadata) in se_ret identifier
    end).

Definition update_payment_conversion_info (pool_id : AddrKey) (outbound_identifier : string)
    (inbound_identifier refund_identifier : option string) (fee_split : option FeeSplit)
    (purpose : ConversionPurpose) (amount_adjustment : option AmountAdjustmentReason)
    : M (string * option string) :=
  let sent_fee := match fee_split with Some (FeeSent fee) => Some fee | _ => None end in
  let received_fee := match fee_split with Some (FeeReceived fee) => Some fee | _ => None end in
  let status := status_of inbound_identifier refund_identifier in
  let pool_id_str := key_to_string pool_id in
  do* conversion_id := se_total now_v7 in
  let info fee purpose adjustment := info_metadata
    {| ci_pool_id := pool_id_str; conversion_id := conversion_id; ci_status := status; ci_fee := fee;
       Payments.purpose := purpose; ci_amount_adjustment := adjustment |} in
  do* sent_payment_id := fetch_payment_id_by_identifier outbound_identifier true in
  do* _ := of_store (insert_payment_metadata sent_payment_id (info sent_fee (Some purpose) amount_adjustment)) in
  do* received_payment_id :=
    match inbound_identifier with
    | Some identifier =>
        do* id := record_inbound identifier (info received_fee (Some purpose) None) in se_ret (Some id)
    | None => se_ret None
    end in
  do* _ := match refund_identifier with
           | Some identifier => do* _ := record_inbound identifier (info None None None) in se_ret ()
           | None => se_ret ()
           end in
  se_ret (sent_payment_id, received_payment_id).

(** ** Conversions *)

Definition fee_side (asset_in_address : string) (fee : Z) : FeeSplit :=
  if String.eqb asset_in_address BTC_ASSET_ADDRESS then FeeReceived fee else FeeSent fee.

(** An answer of the exchange. *)
Definition swap_answered (asset_in_address : string) (pool_id : AddrKey) (purpose : ConversionPurpose)
    (amount_adjustment : option AmountAdjustmentReason) (response : ExecuteSwapResponse)
    : M TokenConversionResponse :=
  do* (sent_payment_id, received_payment_id) :=
    update_payment_conversion_info pool_id (xr_transfer_id response) (xr_outbound_transfer_id response)
      (xr_refund_transfer_id response) (fee_side asset_in_address <$> xr_fee_amount response) purpose
      amount_adjustment in
  match received_payment_id, xr_accepted response with
  | Some received_payment_id, true =>
      se_ret {| sent_payment_id := sent_payment_id; received_payment_id := received_payment_id |}
  | _, _ =>
      throw (ConversionFailedError ("Convert token failed, refund in progress: "
                                    +:+ default "Conversion not accepted" (xr_error response)))
  end.

(** A failed swap: when its transfer was made, it is marked for a refund. *)
Definition swap_failed (pool_id : AddrKey) (purpose : ConversionPurpose)
    (amount_adjustment : option AmountAdjustmentReason) (e : FError) : M TokenConversionResponse :=
  match e with
  | Execution source (Some transaction_identifier) =>
      catch (update_payment_conversion_info pool_id transaction_identifier None None None purpose
               amount_adjustment) (λ _,
        do* _ := λ w, (send_refund_trigger w, Ok ()) in
        throw (ConversionFailedError ("Convert token failed, refund pending: " +:+ FlashnetError_fmt source)))
  | _ => throw (ConversionError_of_flashnet e)
  end.

Definition swap_request (pool : TokenConversionPool) (options : ConversionOptions)
    (amount_in min_amount_out : Z) (transfer_id : option TransferId) : ExecuteSwapRequest :=
  {| xs_pool_id := lp_public_key (cp_pool pool); xs_asset_in_address := cp_asset_in_address pool;
     xs_asset_out_address := cp_asset_out_address pool; xs_amount_in := amount_in;
     xs_max_slippage_bps := slippage options; xs_min_amount_out := min_amount_out;
     integrator_fee_rate_bps := None; integrator_public_key := None; xs_transfer_id := transfer_id |}.

Definition flashnet_convert (options : ConversionOptions) (purpose : ConversionPurpose)
    (token_identifier : option string) (amount : ConversionAmount) (transfer_id : option TransferId)
    : M TokenConversionResponse :=
  do* (amount_in, min_amount_out, amount_adjustment) := resolve_amount options token_identifier amount in
  do* conversion_pool := get_conversion_pool options token_identifier min_amount_out in
  let pool_id := lp_public_key (cp_pool conversion_pool) in
  try* response_res := execute_swap config
    (swap_request conversion_pool options amount_in min_amount_out transfer_id) in
  match response_res with
  | Ok response => swap_answered (cp_asset_in_address conversion_pool) pool_id purpose amount_adjustment response
  | Err e => swap_failed pool_id purpose amount_adjustment e
  end.

(** ** Refunds *)

Definition refunds_needed : StorageListPaymentsRequest :=
  {| type_filter := None; status_filter := None; asset_filter := None;
     payment_details_filter := Some [SparkFilter None (Some true); TokenFilter (Some true) None None];
     from_timestamp := None; to_timestamp := None; lq_offset := None; lq_limit := None; sort_ascending := None |}.

Definition refund_failed {A} (s : string) : M A := throw (RefundFailed s).

(** The identifier to claw back and the conversion of a payment. *)
Definition refund_details (payment : Payment) : option (string * option ConversionInfo) :=
  match details payment with
  | Some (SparkDetails _ _ conversion_info) => Some (p_id payment, conversion_info)
  | Some (TokenDetails _ tx_hash _ _ conversion_info) => Some (tx_hash, conversion_info)
  | _ => None
  end.

Definition option_debug (o : option string) : string :=
  match o with Some s => "Some(" +:+ string_debug s +:+ ")" | None => "None" end.

Definition refund_payment (payment : Payment) : M () :=
  match refund_details payment with
  | None => refund_failed "Payment is not a Spark or Conversion"
  | Some (clawback_id, conversion_info) =>
      match (info ← conversion_info; if bool_decide (ci_status info = RefundNeeded) then Some info else None) with
      | None => refund_failed "Conversion does not have a refund pending status"
      | Some info =>
          match key_from_str (ci_pool_id info) with
          | None => refund_failed ("Invalid pool_id: " +:+ ci_pool_id info)
          | Some pool_id =>
              try* r := clawback config {| cr_pool_id := pool_id; cr_transfer_id := clawback_id |} in
              match r with
              | Ok response =>
                  if cb_accepted response then
                    of_store (insert_payment_metadata (p_id payment) (info_metadata
                      {| ci_pool_id := key_to_string pool_id; conversion_id := conversion_id info;
                         ci_status := Refunded; ci_fee := ci_fee info; Payments.purpose := Payments.purpose info;
                         ci_amount_adjustment := ci_amount_adjustment info |}))
                  else refund_failed ("Clawback not accepted: request_id: " +:+ string_debug (cb_request_id response)
                                      +:+ ", error: " +:+ option_debug (cb_error response))
              | Err e => refund_failed ("Failed to initiate clawback: " +:+ FlashnetError_fmt e)
              end
          end
      end
  end.

Fixpoint refund_each (payments : list Payment) : M () :=
  match payments with
  | [] => se_ret ()
  | payment :: payments => catch (refund_payment payment) (λ _, refund_each payments)
  end.

Definition refund_failed_conversions : M () :=
  do* payments := of_store (list_payments refunds_needed) in
  refund_each payments.

(** ** The trait

    [panicked] stands for a panic of the task: what the stable balance does after it does not
    depend on which error it is. *)
Definition unwind {A} (panicked : ConversionError) (m : M A) : SE W ConversionError A :=
  se_map_err (λ e, match e with Throw e => e | Panic => panicked end) m.

Definition FlashnetTokenConverter (panicked : ConversionError) : TokenConverter W := {|
  convert options purpose token amount transfer_id :=
    unwind panicked (flashnet_convert options purpose token amount transfer_id);
  validate options token amount := unwind panicked (flashnet_validate options token amount);
  fetch_limits request := unwind panicked (flashnet_fetch_limits request)
|}.
End converter.

(** ** [TokenConversionMiddleware] *)

Definition hides {pt : PaymentTypes} (event : SdkEvent) : bool :=
  match event with
  | PaymentSucceeded payment | PaymentPending payment | PaymentFailed payment => is_conversion_child payment
  end.

Definition TokenConversionMiddleware_process {pt : PaymentTypes} (event : StableEvent) : option StableEvent :=
  match event with
  | OfPayment e => if hides e then None else Some event
  | _ => Some event
  end.
