(* ===== verification/TokenConversionProps.v ===== *)
(** What conversions over Flashnet promise ([Flashnet], [TokenConversion]): what is paid to a pool
    and when, how the payments of a conversion are marked, when a failed conversion is marked as
    refunded, and that the amount of a conversion leaves no dust. *)
From stdpp Require Import base gmap strings list pretty.
From S2P Require Import Prelude Payments ConversionQueue ObjectCache PaymentSync Transactions Addresses TokenTx.
From S2P Require Import FlashnetPools StableBalance Flashnet TokenConversion Traces.
From S2P Require TokenTransfers AddressesProps.

(** Payments with their identifier, the requests of swaps and of clawbacks, the metadata written
    and the trigger of the refunds. *)
Inductive FlashnetEvent {pt : PaymentTypes} {ao : AddressOps} {ti : TransferIds} : Type :=
| PaidSats (amount : Z) (receiver : SparkAddress) (transfer_id : option TransferId) (paid : option string)
| PaidTokens (outputs : list TokenTransfers.TransferTokenOutput) (paid : option string)
| SwapPosted (body : string)
| ClawbackPosted (body : string)
| Wrote (payment_id : string) (metadata : PaymentMetadata) (accepted : bool)
| RefundsTriggered.

Section logs.
Context {W : Type} {pt : PaymentTypes} {ip : InvoiceParsers} {cs : CacheStorage W} {ps : PaymentStorage W}
  {sync : SyncWallet W} {s_token : Serde TokenMetadata} {s_meta : Serde PaymentMetadata}.
Context {ao : AddressOps} {tx : TokenTextOps} {ti : TransferIds} {fo : ForeignErrors} {fs : FlashnetSerde}
  {fw : FlashnetWorld W} {fwal : FlashnetWallet W} {wal : StableWallet W} {env : ConversionEnv W}.
Context `{!Countable AddrKey} {ho : HashOrder} {lg : Log W FlashnetEvent}.
Context (config : FlashnetConfig) (network : Payments.Network).

Definition response_of {E A} (r : result A E) : option A := match r with Ok a => Some a | Err _ => None end.

Definition endpoint_url (endpoint : string) : string := base_url config +:+ "/" +:+ endpoint.

(** Of the requests the log has those that move money. *)
Definition posted (url body : string) : list FlashnetEvent :=
  if String.eqb url (endpoint_url "v1/swap") then [SwapPosted body]
  else if String.eqb url (endpoint_url "v1/clawback") then [ClawbackPosted body] else [].

Class FlashnetLogLaws : Prop := {
  log_put_cache c w : log (put_cache c w) = log w;
  log_clock_ns w : log (clock_ns w).1 = log w;
  log_nonce w : log (generate_nonce w).1 = log w;
  log_now_v7 w : log (now_v7 w).1 = log w;
  log_trigger w : log (send_refund_trigger w) = log w ++ [RefundsTriggered];
  quiet_http_get url headers : quiet (http_get url headers);
  log_http_post url headers body : emits (http_post url headers body) (λ _ l, l = posted url body);
  quiet_sign message : quiet (sign_message message);
  log_transfer amount receiver id :
    emits (fw_transfer amount receiver id) (λ r l, l = [PaidSats amount receiver id (response_of r)]);
  log_transfer_tokens outputs :
    emits (fw_transfer_tokens outputs) (λ r l, l = [PaidTokens outputs (response_of r)]);
  quiet_token_balances : quiet get_token_balances;
  quiet_transactions hashes : quiet (wallet_token_transactions hashes);
  quiet_get_item key : quiet (get_cached_item key);
  quiet_set_item key value : quiet (set_cached_item key value);
  quiet_tokens_metadata ids : quiet (get_tokens_metadata ids);
  log_metadata id m : emits (insert_payment_metadata id m) (λ r l, l = [Wrote id m (is_ok r)])
}.
Context {ll : FlashnetLogLaws}.

(** ** Requests without effect on money

    They log nothing, and their error is not that of an execution. *)
Definition plain {A} (r : result A FError) : Prop := ∀ source id, r ≠ Err (Execution source id).

Definition plainly {A} (m : SE W FError A) : Prop := emits m (λ r l, l = [] ∧ plain r).

Lemma plainly_bind {A B} (m : SE W FError A) (k : A → SE W FError B) :
  plainly m → (∀ a, plainly (k a)) → plainly (se_bind m k).
Proof.
  intros Hm Hk. apply emits_bind. eapply emits_conseq; [exact Hm|]. intros [a|e] l [-> H]; [apply Hk|].
  split; [done|]. intros s i [= ->]. by destruct (H s i).
Qed.
Lemma plainly_lift {A} (r : result A FError) : plain r → plainly (se_lift r).
Proof. intros H. by apply emits_lift. Qed.
Lemma plainly_ret {A} (a : A) : plainly (se_ret a).
Proof. by apply emits_ret. Qed.
Lemma plainly_map_err {E A} (f : E → FError) (m : SE W E A) :
  (∀ e s i, f e ≠ Execution s i) → quiet m → plainly (se_map_err f m).
Proof.
  intros Hf Hm. apply emits_map_err. eapply emits_conseq; [exact Hm|]. intros [a|e] l ->; split; try done.
  intros s i [= He]. by destruct (Hf e s i).
Qed.
Lemma plain_generic {A} (r : result A string) p : plain (generic r p).
Proof. by destruct r. Qed.
Lemma plain_bind {A B} (r : result A FError) (k : A → result B FError) :
  plain r → (∀ a, plain (k a)) → plain (rbind r k).
Proof. destruct r as [a|e]; intros H Hk; simpl; [apply Hk|]. intros s i [= ->]. by destruct (H s i). Qed.
Lemma plain_ok {A} (a : A) : plain (Ok a).
Proof. done. Qed.
Lemma plain_Generic {A} s : plain (Err (Generic s) : result A FError).
Proof. done. Qed.
Lemma plain_response {D} {s : Serde D} response : plain (of_response (D := D) response).
Proof. unfold of_response. case_match; [done|apply plain_generic]. Qed.
#[local] Hint Resolve plainly_ret plain_generic plain_ok plain_Generic plain_response plainly_lift : plain.

Ltac solve_plain :=
  cbv beta zeta;
  lazymatch goal with
  | |- plainly (se_bind _ _) => apply plainly_bind; [|intros ?]; solve_plain
  | |- plainly (match _ with _ => _ end) => case_match; solve_plain
  | |- plain (rbind _ _) => apply plain_bind; [|intros ?]; solve_plain
  | |- plain (match _ with _ => _ end) => case_match; solve_plain
  | |- plainly (se_lift _) => apply plainly_lift; solve_plain
  | |- _ => eauto with plain
  end.

Lemma plainly_now e : (∀ s i, e ≠ Execution s i) → plainly (now_since_epoch (W := W) e).
Proof using ll.
  intros He w w' r. unfold now_since_epoch. pose proof (log_clock_ns w) as H. destruct (clock_ns w) as [w1 [n|]];
    intros [= <- <-]; exists []; rewrite app_nil_r; (split; [done|]); split; try done. by intros s i [= ->]; destruct (He s i).
Qed.

Lemma plainly_cache_get {D} {s : Serde D} key : plainly (cache_get (W := W) (D := D) key).
Proof using ll.
  intros w w' r. unfold cache_get. destruct (cache w !! key) as [item|].
  - intros H. revert w w' r H. change (plainly (do* now := now_since_epoch system_time_error in
      if expiration item <? now / 1000000 then se_ret None
      else do* res := se_lift (generic (from_json (item_data item)) "Failed to deserialize cache item: ") in
           se_ret (Some res))).
    apply plainly_bind; [by apply plainly_now|]. intros now. solve_plain.
  - intros [= <- <-]. exists []. by rewrite app_nil_r.
Qed.

Lemma plainly_cache_set {D} {s : Serde D} key (d : D) ttl : plainly (cache_set (W := W) key d ttl).
Proof using ll.
  unfold cache_set. apply plainly_bind; [solve_plain|intros data]. apply plainly_bind; [by apply plainly_now|intros now].
  intros w w' r [= <- <-]. exists []. rewrite log_put_cache, app_nil_r. done.
Qed.
#[local] Hint Resolve plainly_cache_get plainly_cache_set : plain.

Lemma plainly_cached_or {D} {s : Serde D} key ttl (request : SE W FError D) :
  plainly request → plainly (cached_or key ttl request).
Proof using ll. intros H. unfold cached_or. solve_plain. Qed.

Lemma plainly_wallet {A} (m : SE W ForeignError A) : quiet m → plainly (of_wallet_error m).
Proof. by apply plainly_map_err. Qed.

Lemma plainly_get_inner {D} {s : Serde D} endpoint token query :
  plainly (get_request_inner (W := W) (D := D) config endpoint token query).
Proof using ll.
  unfold get_request_inner. apply plainly_bind; [apply plainly_lift; destruct query; solve_plain|intros q]. cbv zeta.
  apply plainly_bind; [apply plainly_map_err; [done|apply quiet_http_get]|intros response]. solve_plain.
Qed.

(** ** Requests that are posted *)

Lemma append_eqb p a b : String.eqb (p +:+ a) (p +:+ b) = String.eqb a b.
Proof. induction p as [|c p IH]; [done|]. simpl. by rewrite Ascii.eqb_refl. Qed.

Lemma posted_other endpoint body :
  endpoint ≠ "v1/swap" → endpoint ≠ "v1/clawback" → posted (endpoint_url endpoint) body = [].
Proof.
  intros Hs Hc. unfold posted, endpoint_url. rewrite !append_eqb. simpl.
  by rewrite (proj2 (String.eqb_neq _ _) Hs), (proj2 (String.eqb_neq _ _) Hc).
Qed.
Lemma posted_swap body : posted (endpoint_url "v1/swap") body = [SwapPosted body].
Proof. unfold posted. by rewrite String.eqb_refl. Qed.
Lemma posted_clawback body : posted (endpoint_url "v1/clawback") body = [ClawbackPosted body].
Proof. unfold posted, endpoint_url. by rewrite append_eqb, String.eqb_refl. Qed.

(** A request is posted with its text, or the call failed before. *)
Definition post_steps {B D} {sb : Serde B} (endpoint : string) (request : B) (r : result D FError)
    (l : list FlashnetEvent) : Prop :=
  plain r ∧ ((l = [] ∧ is_ok r = false) ∨ ∃ body, to_json request = Ok body ∧ l = posted (endpoint_url endpoint) body).

Lemma post_inner_steps {B D} {sb : Serde B} {sd : Serde D} endpoint token (request : B) :
  emits (post_request_inner (W := W) (D := D) config endpoint token request) (post_steps endpoint request).
Proof using ll.
  unfold post_request_inner. cbv zeta. apply emits_bind, emits_lift.
  destruct (to_json request) as [body|e] eqn:Hjson; simpl; [|split; [done|by left]].
  apply emits_bind, emits_map_err. eapply emits_conseq; [apply log_http_post|]. intros [response|e] l ->; simpl.
  - apply emits_lift. split; [apply plain_response|]. right. exists body. by rewrite app_nil_r.
  - split; [done|]. right. by exists body.
Qed.

Lemma plainly_post_inner {B D} {sb : Serde B} {sd : Serde D} endpoint token (request : B) :
  endpoint ≠ "v1/swap" → endpoint ≠ "v1/clawback" →
  plainly (post_request_inner (W := W) (D := D) config endpoint token request).
Proof using ll.
  intros Hs Hc. eapply emits_conseq; [apply post_inner_steps|].
  intros r l [Hr [[-> _]|(body & _ & ->)]]; split; try done. by apply posted_other.
Qed.

Lemma plainly_token : plainly (get_access_token config).
Proof using ll.
  unfold get_access_token. apply plainly_bind; [apply plainly_cache_get|intros [token|]; [apply plainly_ret|]].
  unfold authenticate, auth_challenge, auth_verify. cbv zeta.
  apply plainly_bind; [by apply plainly_post_inner|intros c].
  apply plainly_bind; [apply plainly_wallet, quiet_sign|intros signature].
  apply plainly_bind; [by apply plainly_post_inner|intros v].
  apply plainly_bind; [|intros ttl; solve_plain].
  unfold access_token_ttl. case_match; [|apply plainly_ret].
  apply plainly_bind; [by apply plainly_now|intros now; apply plainly_ret].
Qed.

Lemma post_steps_of {B D} {sb : Serde B} {sd : Serde D} endpoint (request : B) :
  emits (post_request (W := W) (D := D) config endpoint request) (post_steps endpoint request).
Proof using ll.
  unfold post_request. apply emits_bind. eapply emits_conseq; [apply plainly_token|]. intros [token|e] l [-> H].
  - apply post_inner_steps.
  - split; [|by left]. intros s i [= ->]. by destruct (H s i).
Qed.

Lemma plainly_get {D} {s : Serde D} endpoint query : plainly (get_request (W := W) (D := D) config endpoint query).
Proof using ll. unfold get_request. apply plainly_bind; [apply plainly_token|intros t; apply plainly_get_inner]. Qed.
#[local] Hint Resolve plainly_get plainly_cached_or : plain.

(** ** The checks *)

Lemma plain_decode id : plain (decode_id config id).
Proof. unfold decode_id, decode_token_identifier. case_match; [|done]. apply plain_bind; [|done]. by destruct (bech32m_decode _ _). Qed.

Lemma plainly_ping : plainly (ensure_ping_ok config).
Proof using ll. unfold ensure_ping_ok, ping. apply plainly_bind; [auto with plain|intros p]. case_match; by apply plainly_lift. Qed.

Lemma plainly_feature f : plainly (ensure_feature_status config f).
Proof using ll.
  unfold ensure_feature_status, config_feature_status. apply plainly_bind; [auto with plain|intros l].
  repeat case_match; by apply plainly_lift.
Qed.

Lemma plainly_get_min_amounts request : plainly (get_min_amounts config request).
Proof using ll.
  unfold get_min_amounts, config_min_amounts. apply plainly_bind; [apply plainly_lift|intros d; solve_plain].
  unfold decode_min_amounts. apply plain_bind; [apply plain_decode|intros a]. apply plain_bind; [apply plain_decode|done].
Qed.

Lemma plainly_min_amounts a b amount out : plainly (ensure_min_amounts config a b amount out).
Proof using ll.
  unfold ensure_min_amounts. apply plainly_bind; [apply plainly_get_min_amounts|intros m]. apply plainly_lift.
  unfold check_min_amounts. by repeat case_match.
Qed.

Lemma plainly_list_pools request : plainly (list_pools config request).
Proof using ll.
  unfold list_pools. apply plainly_bind; [apply plainly_lift|intros d; apply plainly_bind; [solve_plain|intros j; auto with plain]].
  unfold decode_list_pools, decode_id_opt.
  apply plain_bind; [case_match; [apply plain_bind; [apply plain_decode|done]|done]|intros a].
  apply plain_bind; [case_match; [apply plain_bind; [apply plain_decode|done]|done]|done].
Qed.

Lemma plainly_simulate request : plainly (simulate_swap config request).
Proof using ll.
  unfold simulate_swap. apply plainly_bind; [apply plainly_lift|intros d].
  { unfold decode_simulate. apply plain_bind; [apply plain_decode|intros a]. apply plain_bind; [apply plain_decode|done]. }
  apply plainly_bind; [apply plainly_ping|intros _]. apply plainly_bind; [apply plainly_feature|intros _].
  apply plainly_bind; [apply plainly_min_amounts|intros _]. unfold post_request.
  apply plainly_bind; [apply plainly_token|intros t]. by apply plainly_post_inner.
Qed.

(** ** A swap *)

Definition pool_address (request : ExecuteSwapRequest) : SparkAddress :=
  {| identity_public_key := xs_pool_id request; Addresses.network := fc_network config; spark_invoice_fields := None |}.

Definition token_payment (request : ExecuteSwapRequest) (token : string) : list TokenTransfers.TransferTokenOutput :=
  [ {| TokenTransfers.tro_token_id := token; TokenTransfers.tro_amount := xs_amount_in request;
       TokenTransfers.receiver_address := pool_address request; TokenTransfers.tro_spark_invoice := None |} ].

(** The payment of a swap: its amount of the asset it puts in, to the key of its pool. *)
Definition payment_of (request : ExecuteSwapRequest) (paid : option string) (e : FlashnetEvent) : Prop :=
  if String.eqb (xs_asset_in_address request) BTC_ASSET_ADDRESS
  then xs_amount_in request ≤ umax 64 ∧ e = PaidSats (xs_amount_in request) (pool_address request) (xs_transfer_id request) paid
  else ∃ raw token, hex_decode (xs_asset_in_address request) = Some raw ∧
    bech32m_encode_token_id raw (fc_network config) = Ok token ∧
    e = PaidTokens (token_payment request token) paid.

Definition pay_steps (request : ExecuteSwapRequest) (r : result string FError) (l : list FlashnetEvent) : Prop :=
  (l = [] ∧ (∃ s, r = Err (Generic s))) ∨
  ∃ e, l = [e] ∧ payment_of request (response_of r) e ∧ ∀ x, r = Err x → ∃ y, x = Wallet y.

Lemma emits_wallet {A} (m : SE W ForeignError A) (Q : option A → list FlashnetEvent → Prop) :
  emits m (λ r l, Q (response_of r) l) →
  emits (of_wallet_error m) (λ r l, Q (response_of r) l ∧ ∀ x, r = Err x → ∃ y, x = Wallet y).
Proof.
  intros H. apply emits_map_err. eapply emits_conseq; [exact H|]. intros [a|e] l HQ; (split; [exact HQ|]).
  - done.
  - intros x [= <-]. by exists e.
Qed.

Lemma transfer_asset_steps request :
  emits (transfer_asset config (xs_amount_in request) (xs_asset_in_address request) (xs_pool_id request)
           (xs_transfer_id request)) (pay_steps request).
Proof using ll.
  unfold transfer_asset. cbv zeta. fold (pool_address request).
  destruct (String.eqb (xs_asset_in_address request) BTC_ASSET_ADDRESS) eqn:Hbtc.
  - apply emits_bind, emits_lift. destruct (Z.leb_spec (xs_amount_in request) (umax 64)); [|left; by eauto].
    eapply emits_conseq; [apply (emits_wallet _ (λ o l, l = [PaidSats (xs_amount_in request) (pool_address request) (xs_transfer_id request) o])), log_transfer|].
    intros r l [-> Hr]. right. eexists. split; [done|]. split; [|exact Hr]. unfold payment_of. by rewrite Hbtc.
  - apply emits_bind, emits_lift. destruct (hex_decode (xs_asset_in_address request)) as [raw|] eqn:Hraw; [|left; by eauto].
    simpl ok_or. cbv iota. apply emits_bind, emits_lift.
    destruct (bech32m_encode_token_id raw (fc_network config)) as [token|] eqn:Htoken; [|left; by eauto].
    eapply emits_conseq; [apply (emits_wallet _ (λ o l, l = [PaidTokens (token_payment request token) o])), log_transfer_tokens|].
    intros r l [-> Hr]. right. eexists. split; [done|]. split; [|exact Hr]. unfold payment_of. rewrite Hbtc. by exists raw, token.
Qed.

(** The request that is posted: of this swap, for this payment. *)
Definition swap_body (request : ExecuteSwapRequest) (id body : string) : Prop :=
  ∃ nonce signature, to_json (signed_swap config request id nonce signature) = Ok body.

Definition sign_steps (request : ExecuteSwapRequest) (id : string) {A} (r : result A FError)
    (l : list FlashnetEvent) : Prop :=
  (l = [] ∧ is_ok r = false) ∨ ∃ body, swap_body request id body ∧ l = [SwapPosted body].

Lemma sign_execute_swap_steps request id :
  emits (sign_execute_swap config request id) (sign_steps request id).
Proof using ll.
  unfold sign_execute_swap. apply (emits_run _ _ (λ _ l, l = [])).
  { apply quiet_same. intros w. unfold se_total. pose proof (log_nonce w) as H. by destruct (generate_nonce w). }
  { by intros e l ->; left. }
  intros nonce l w w' -> _. cbv zeta.
  apply (emits_run _ _ (λ r l, l = [])); [apply quiet_lift|by intros e l ->; left|]. intros text l w1 w1' -> _.
  apply (emits_run _ _ (λ r l, l = [])).
  { eapply emits_conseq; [apply plainly_wallet, quiet_sign|]. by intros r l [-> _]. }
  { by intros e l ->; left. }
  intros signature l w2 w2' -> _. eapply emits_conseq; [apply post_steps_of|].
  intros r l [_ [[-> Hr]|(body & Hbody & ->)]]; [by left|right]. exists body. split; [|simpl; apply posted_swap].
  by exists (hex_encode nonce), signature.
Qed.

(** The checks before the payment, from the world [w] on: the exchange answers the ping, swaps are
    allowed, and the amounts reach the minimums that apply; [w'] is the world they leave. *)
Definition checked (request : ExecuteSwapRequest) (w w' : W) : Prop :=
  ∃ p features feature mins w1 w2,
    cached_or PING_CACHE_KEY PING_TTL_MS (ping config) w = (w1, Ok p) ∧ to_lowercase (ping_status p) = "ok" ∧
    cached_or FEATURE_STATUSES_CACHE_KEY FEATURE_STATUSES_TTL_MS (config_feature_status config) w1 = (w2, Ok features) ∧
    List.find (λ f, bool_decide (feature_name f = AllowSwaps)) features = Some feature ∧ fs_enabled feature = true ∧
    get_min_amounts config {| gm_asset_in := xs_asset_in_address request; gm_asset_out := xs_asset_out_address request |} w2
      = (w', Ok mins) ∧
    match asset_in_min mins, asset_out_min mins with
    | Some m, _ => m ≤ xs_amount_in request
    | None, Some m => m ≤ xs_min_amount_out request
    | None, None => True
    end.

Lemma checks_passed request w w1 w2 w3 :
  ensure_ping_ok config w = (w1, Ok ()) → ensure_feature_status config AllowSwaps w1 = (w2, Ok ()) →
  ensure_min_amounts config (xs_asset_in_address request) (xs_asset_out_address request)
    (xs_amount_in request) (Some (xs_min_amount_out request)) w2 = (w3, Ok ()) → checked request w w3.
Proof.
  intros (v1 & p & Hp & Hok)%se_bind_ok (v2 & features & Hf & Hen)%se_bind_ok (v3 & mins & Hm & Hcheck)%se_bind_ok.
  destruct (String.eqb_spec (to_lowercase (ping_status p)) "ok") as [Hping|]; [|done]. injection Hok as ->.
  destruct (List.find _ features) as [feature|] eqn:Hfind; [|done].
  destruct (fs_enabled feature) eqn:Henabled; [|done]. injection Hen as ->.
  unfold se_lift in Hcheck. injection Hcheck as -> Hcheck. exists p, features, feature, mins, w1, w2. split_and!; [done..|].
  unfold check_min_amounts in Hcheck. destruct (asset_in_min mins) as [m|].
  - by destruct (Z.ltb_spec (xs_amount_in request) m).
  - destruct (asset_out_min mins) as [m|]; [|done]. by destruct (Z.ltb_spec (xs_min_amount_out request) m).
Qed.

Definition paid_in (request : ExecuteSwapRequest) (w w' : W) (r : result string FError) : Prop :=
  transfer_asset config (xs_amount_in request) (xs_asset_in_address request) (xs_pool_id request)
    (xs_transfer_id request) w = (w', r).

(** A swap from the world [w] on: nothing is paid when a check refuses it; the payment is made in
    the world that the checks left; after it the swap is asked for at most once, and a failure
    then names the payment. *)
Definition swap_steps (request : ExecuteSwapRequest) (w : W) (r : result ExecuteSwapResponse FError)
    (l : list FlashnetEvent) : Prop :=
  (l = [] ∧ (∃ e, r = Err e) ∧ plain r) ∨
  ∃ d w1 w2 paid, decode_execute config request = Ok d ∧ checked d w w1 ∧ log w1 = log w ∧ paid_in d w1 w2 paid ∧
    ((∃ e y, payment_of d None e ∧ l = [e] ∧ paid = Err (Wallet y) ∧ r = Err (Wallet y)) ∨
     ∃ id e rest, payment_of d (Some id) e ∧ l = e :: rest ∧ paid = Ok id ∧
       match r with
       | Ok response => xr_transfer_id response = id ∧ ∃ body, swap_body d id body ∧ rest = [SwapPosted body]
       | Err x => (∃ source, x = Execution source (Some id)) ∧
           (rest = [] ∨ ∃ body, swap_body d id body ∧ rest = [SwapPosted body])
       end).

Lemma plainly_run {A B} (m : SE W FError A) (k : A → SE W FError B) (Q : result B FError → list FlashnetEvent → Prop) :
  plainly m → (∀ e, plain (Err e : result B FError) → Q (Err e) []) → (∀ a, emits (k a) Q) → emits (se_bind m k) Q.
Proof.
  intros Hm He Hk. apply emits_bind. eapply emits_conseq; [exact Hm|]. intros [a|e] l [-> H]; [apply Hk|].
  apply He. intros s i [= ->]. by destruct (H s i).
Qed.

Lemma plain_decode_execute request : plain (decode_execute config request).
Proof.
  unfold decode_execute. apply plain_bind; [apply plain_decode|intros a]. by apply plain_bind; [apply plain_decode|].
Qed.

Lemma plainly_log {A} (m : SE W FError A) w w' r : plainly m → m w = (w', r) → log w' = log w ∧ plain r.
Proof. intros Hm Hr. destruct (Hm w w' r Hr) as (l & -> & -> & H). by rewrite app_nil_r. Qed.

Lemma swap_refused {A} request w w' e :
  log w' = log w → plain (Err e : result A FError) → ∃ l, log w' = log w ++ l ∧ swap_steps request w (Err e) l.
Proof.
  intros Hl H. exists []. rewrite app_nil_r. split; [done|]. left. split_and!; [done|by eexists|].
  intros s i [= ->]. by destruct (H s i).
Qed.

(** Goes through a check: its error ends the swap with nothing paid. *)
Ltac check_step H lem w1 Hm Hl :=
  apply bind_run in H as [(?e & Hm & ->)|([] & w1 & Hm & H)];
  [apply (plainly_log _ _ _ _ lem) in Hm as [Hl Hm]; eapply swap_refused; [congruence|exact Hm]
  |destruct (plainly_log _ _ _ _ lem Hm) as [Hl _]].

Lemma execute_swap_steps request w w' r :
  execute_swap config request w = (w', r) → ∃ l, log w' = log w ++ l ∧ swap_steps request w r l.
Proof using ll.
  unfold execute_swap. intros H. pose proof (plain_decode_execute request) as Hdecode. unfold se_bind at 1, se_lift in H.
  destruct (decode_execute config request) as [d|e] eqn:Hd.
  2: { injection H as <- <-. by eapply swap_refused. }
  check_step H plainly_ping w1 Hping Hl1. check_step H (plainly_feature AllowSwaps) w2 Hfeature Hl2.
  check_step H (plainly_min_amounts (xs_asset_in_address d) (xs_asset_out_address d) (xs_amount_in d)
                  (Some (xs_min_amount_out d))) w3 Hmin Hl3.
  pose proof (checks_passed d _ _ _ _ Hping Hfeature Hmin) as Hchecked. clear Hping Hfeature Hmin.
  assert (log w3 = log w) as Hlog by congruence.
  apply bind_run in H as [(x & Hpaid & ->)|(id & w4 & Hpaid & H)];
    destruct (transfer_asset_steps d _ _ _ Hpaid) as (l & Hl & [[-> [s Hs]]|(e & -> & Hpay & Hx)]);
    try (injection Hs as ->); try done.
  - apply (swap_refused (A := string)); [rewrite Hl, Hlog, app_nil_r; done|done].
  - destruct (Hx x eq_refl) as [y ->]. exists [e]. split; [congruence|]. right. exists d, w3, w', (Err (Wallet y)).
    split_and!; [done..|]. left. by exists e, y.
  - unfold se_try in H. destruct (sign_execute_swap config d id w4) as [w5 answer] eqn:Hanswer.
    destruct (sign_execute_swap_steps d id _ _ _ Hanswer) as (rest & Hl5 & Hrest). injection H as <- <-.
    exists (e :: rest). split; [by rewrite Hl5, Hl, Hlog, <- app_assoc|]. right. exists d, w3, w4, (Ok id).
    split_and!; [done..|]. right. exists id, e, rest. split_and!; [done..|]. destruct answer as [response|x].
    + split; [done|]. by destruct Hrest as [[_ ?]|Hrest].
    + split; [by exists x|]. destruct Hrest as [[-> _]|Hrest]; [by left|by right].
Qed.

(** ** The payments of a conversion *)

Lemma quiet_of_flashnet {A} (m : SE W FError A) : plainly m → quiet (of_flashnet m).
Proof. intros H. apply quiet_map_err. eapply emits_conseq; [exact H|]. by intros r l [-> _]. Qed.

Lemma quiet_split ids : quiet (split_cached ids).
Proof using ll.
  induction ids as [|i ids IH]; cbn [split_cached]; [apply quiet_ret|].
  pose proof quiet_get_item. unfold fetch_token_metadata, fetch_json, of_storage. solve_quiet.
Qed.

Lemma quiet_save l : quiet (save_tokens_metadata l).
Proof using ll.
  induction l as [|m l IH]; cbn [save_tokens_metadata]; [apply quiet_ret|].
  pose proof quiet_set_item. unfold save_token_metadata, save_json, of_storage. solve_quiet.
Qed.

Lemma quiet_payments transaction ours : quiet (token_transaction_to_payments transaction ours).
Proof using ll.
  pose proof quiet_split. pose proof quiet_save. pose proof quiet_tokens_metadata.
  unfold token_transaction_to_payments, get_tokens_metadata_cached_or_query. solve_quiet.
Qed.

(** Not the error of a transfer made twice. *)
Definition not_duplicate {A} (r : result A (exn ConversionError)) : Prop := r ≠ Err (Throw DuplicateTransfer).

Lemma fetch_id_steps identifier ours :
  emits (fetch_payment_id_by_identifier identifier ours) (λ r l, l = [] ∧ not_duplicate r).
Proof using ll.
  unfold fetch_payment_id_by_identifier. case_match; [by apply emits_ret|].
  apply emits_bind, emits_map_err. eapply emits_conseq; [apply quiet_transactions|]. intros [txs|e] l ->; [|by split].
  simpl. apply emits_bind, emits_lift. destruct (head txs) as [t|]; [|by split]. simpl.
  apply emits_bind, emits_map_err. eapply emits_conseq; [apply quiet_payments|].
  intros [ps'|[|e]] l ->; [|by split..]. apply emits_lift. split; [done|]. by destruct (head ps').
Qed.

(** Metadata of a payment of a conversion: of this pool, with this status. *)
Definition marked (pool_id : AddrKey) (status : ConversionStatus) (m : PaymentMetadata) : Prop :=
  ∃ info, m = info_metadata info ∧ ci_pool_id info = key_to_string pool_id ∧ ci_status info = status.

(** Only marks of payments. *)
Definition marks (pool_id : AddrKey) (status : ConversionStatus) (l : list FlashnetEvent) : Prop :=
  Forall (λ e, ∃ id m b, e = Wrote id m b ∧ marked pool_id status m) l.

Lemma emits_store {A} (m : SE W StorageError A) Q : emits m (λ r l, Q (is_ok r) l) → emits (of_store m) (λ r l, Q (is_ok r) l).
Proof. intros H. apply emits_map_err. eapply emits_conseq; [exact H|]. by intros [a|e] l. Qed.

Lemma emits_catch {E A B} (m : SE W (exn E) A) (k : result A E → SE W (exn ConversionError) B) Q :
  emits m (λ r l1, match r with
                   | Ok a => emits (k (Ok a)) (λ r l2, Q r (l1 ++ l2))
                   | Err (Throw e) => emits (k (Err e)) (λ r l2, Q r (l1 ++ l2))
                   | Err Panic => Q (Err Panic) l1
                   end) → emits (catch m k) Q.
Proof.
  intros H. unfold catch. apply emits_try. eapply emits_conseq; [exact H|]. intros [a|[|e]] l HQ; [exact HQ| |exact HQ].
  apply emits_fail. by rewrite app_nil_r.
Qed.

Lemma record_inbound_marks identifier m pool_id status :
  marked pool_id status m → emits (record_inbound identifier m) (λ r l, marks pool_id status l ∧ not_duplicate r).
Proof using ll.
  intros Hm. unfold record_inbound. apply emits_catch. eapply emits_conseq; [apply fetch_id_steps|].
  intros [id|[|e]] l [-> _]; simpl; [|by split; [constructor|]|].
  - apply emits_bind, emits_map_err. eapply emits_conseq; [apply log_metadata|].
    intros [[]|e] l ->; simpl; [apply emits_ret|]; (split; [constructor; [by eexists _, _, _|constructor]|done]).
  - apply emits_bind, emits_map_err. apply (emits_conseq _ (λ _ l, l = [])).
    { pose proof quiet_set_item. unfold save_payment_metadata, save_json. solve_quiet. }
    intros [[]|e'] l ->; [apply emits_ret|]; (split; [constructor|done]).
Qed.

(** What the marking of the payments adds: marks; the first is that of the sent payment, accepted
    when all of it succeeds. *)
Definition update_steps (pool_id : AddrKey) (inbound refund : option string)
    (r : result (string * option string) (exn ConversionError)) (l : list FlashnetEvent) : Prop :=
  marks pool_id (status_of inbound refund) l ∧
  match r with
  | Ok (sent, received) => (∃ m rest, l = Wrote sent m true :: rest) ∧ (received = None ↔ inbound = None)
  | Err e => e ≠ Throw DuplicateTransfer
  end.

(** After the mark of the sent payment. *)
Lemma update_rest pool_id status (sent : string) inbound refund received_info refund_info :
  marked pool_id status received_info → marked pool_id status refund_info →
  emits (do* received_payment_id :=
           match inbound with
           | Some identifier => do* id := record_inbound identifier received_info in se_ret (Some id)
           | None => se_ret None
           end in
         do* _ := match refund with
                  | Some identifier => do* _ := record_inbound identifier refund_info in se_ret ()
                  | None => se_ret ()
                  end in
         se_ret (sent, received_payment_id))
    (λ r l, marks pool_id status l ∧ not_duplicate r ∧
       ∀ (s : string) (rc : option string), r = Ok (s, rc) → s = sent ∧ (rc = None ↔ inbound = None)).
Proof using ll.
  intros Hrec Href. apply emits_bind.
  apply (emits_conseq _ (λ r l, marks pool_id status l ∧ not_duplicate r ∧ ∀ rc, r = Ok rc → (rc = None ↔ inbound = None))).
  { destruct inbound as [identifier|]; [|apply emits_ret; split_and!; [constructor|done|]; by intros rc [= <-]].
    apply emits_bind. eapply emits_conseq; [by apply record_inbound_marks|]. intros [id|e] l [Hl Hd].
    - apply emits_ret. rewrite app_nil_r. split_and!; [done..|]. by intros rc [= <-].
    - split_and!; [done| |done]. intros [= ->]. by apply Hd. }
  intros [rc|e] l (Hl & Hd & Hiff). 2: { split_and!; [done| |done]. intros [= ->]. by apply Hd. }
  assert (∀ (s : string) (rc' : option string), Ok (E := exn ConversionError) (sent, rc) = Ok (s, rc') → s = sent ∧ (rc' = None ↔ inbound = None)) as Hok
    by (intros s rc' [= <- <-]; auto).
  apply emits_bind. destruct refund as [identifier|]; [|apply emits_ret, emits_ret; rewrite !app_nil_r; by split_and!].
  apply emits_bind. eapply emits_conseq; [by apply record_inbound_marks|]. intros [id|e] l' [Hl' Hd'].
  - apply emits_ret, emits_ret. rewrite !app_nil_r. split_and!; [by apply Forall_app|done|exact Hok].
  - split_and!; [by apply Forall_app| |done]. intros [= ->]. by apply Hd'.
Qed.

Lemma update_marks pool_id outbound inbound refund fee purpose adjustment :
  emits (update_payment_conversion_info pool_id outbound inbound refund fee purpose adjustment)
    (update_steps pool_id inbound refund).
Proof using ll.
  unfold update_payment_conversion_info. cbv zeta.
  apply (emits_run _ _ (λ r l, l = [] ∧ not_duplicate r)).
  { intros w w' r. unfold se_total. pose proof (log_now_v7 w) as H. destruct (now_v7 w) as [w1 u].
    intros [= <- <-]. exists []. by rewrite app_nil_r. }
  { intros e l [-> H]. split; [constructor|]. intros ->. by apply H. }
  intros cid l w w' [-> _] _. simpl app.
  apply (emits_run _ _ (λ r l, l = [] ∧ not_duplicate r)); [apply fetch_id_steps| |].
  { intros e l [-> H]. split; [constructor|]. intros ->. by apply H. }
  intros sent l w1 w1' [-> _] _. simpl app.
  unfold update_steps. set (status := status_of inbound refund). clearbody status.
  set (info (fee : option Z) (purpose : option ConversionPurpose) (adjustment : option AmountAdjustmentReason) :=
    info_metadata {| ci_pool_id := key_to_string pool_id; conversion_id := cid; ci_status := status;
                     ci_fee := fee; Payments.purpose := purpose; ci_amount_adjustment := adjustment |}).
  assert (∀ f p a, marked pool_id status (info f p a)) as Hinfo by (intros; eexists; by split_and!).
  fold (info match fee with Some (FeeSent f) => Some f | _ => None end (Some purpose) adjustment).
  apply emits_bind, emits_map_err. eapply emits_conseq; [apply log_metadata|]. intros [[]|e] l ->; simpl.
  2: { split; [|done]. constructor; [|constructor]. by eexists _, _, _. }
  apply (emits_conseq _ (λ r l, marks pool_id status l ∧ not_duplicate r ∧
      ∀ s rc, r = Ok (s, rc) → s = sent ∧ (rc = None ↔ inbound = None))).
  { apply update_rest; intros; apply Hinfo. }
  intros r l (Hl & Hdup & Hr). split; [constructor; [by eexists _, _, _|exact Hl]|].
  destruct r as [[s rc]|e]; [|intros ->; by apply Hdup].
  destruct (Hr s rc eq_refl) as [-> Hiff]. split; [by eexists _, _|exact Hiff].
Qed.

(** ** Amounts *)

Lemma quiet_get_pool options token out : quiet (get_conversion_pool config network options token out).
Proof using ll.
  pose proof plainly_list_pools as Hlist. unfold get_conversion_pool, lift_flashnet, throw.
  apply quiet_bind; [apply quiet_lift|done|intros [a b]].
  apply quiet_try; [eapply emits_conseq; [apply Hlist|by intros r l [-> _]]|intros ra].
  apply quiet_try; [eapply emits_conseq; [apply Hlist|by intros r l [-> _]]|intros rb]. solve_quiet.
Qed.

Lemma quiet_limits request : quiet (flashnet_fetch_limits config request).
Proof using ll.
  unfold flashnet_fetch_limits. apply quiet_bind; [apply quiet_lift|done|intros [a b]].
  apply quiet_bind; [apply quiet_of_flashnet, plainly_get_min_amounts|done|intros m]. solve_quiet.
Qed.

Lemma quiet_adjust options token a : quiet (maybe_adjust_to_min_limit config options token a).
Proof using ll.
  pose proof quiet_limits. pose proof quiet_token_balances. unfold maybe_adjust_to_min_limit, of_spark_wallet. solve_quiet.
Qed.

Lemma quiet_simulate pool a : quiet (of_flashnet (simulate_swap config (simulate_request config pool a))).
Proof using ll. apply quiet_of_flashnet, plainly_simulate. Qed.

Lemma quiet_estimate pool options token out : quiet (estimate_internal config network pool options token out).
Proof using ll.
  pose proof quiet_adjust. pose proof quiet_simulate. unfold estimate_internal, lift_flashnet, throw. solve_quiet.
Qed.

Lemma quiet_validate options token amount : quiet (flashnet_validate config network options token amount).
Proof using ll.
  pose proof quiet_get_pool. pose proof quiet_simulate. pose proof quiet_estimate. unfold flashnet_validate. solve_quiet.
Qed.

(** The least output that is asked of the pool, and the amount put in where it is given. *)
Definition resolved (options : ConversionOptions) (amount : ConversionAmount) (amount_in min_amount_out : Z) : Prop :=
  match amount with
  | MinAmountOut out => min_amount_out = out
  | AmountIn a => amount_in = a ∧ ∃ simulated, min_amount_out = less_slippage simulated (slippage options)
  end.

Lemma resolve_amount_ok options token amount w w' a out adjustment :
  resolve_amount config network options token amount w = (w', Ok (a, out, adjustment)) → resolved options amount a out.
Proof.
  unfold resolve_amount. intros (w1 & est & Hest & H)%se_bind_ok. apply se_bind_ok in H as (w2 & e & He & [= _ <- <- <-]).
  destruct est as [est|]; [|discriminate He]. injection He as _ <-.
  destruct amount as [o|i]; cbn [resolved]; [done|]. cbn [flashnet_validate] in Hest.
  apply se_bind_ok in Hest as (w3 & pool & _ & Hest). apply se_bind_ok in Hest as (w4 & response & _ & [= _ <-]).
  split; [done|]. by eexists.
Qed.

(** ** A conversion *)

(** What follows the payment [id]: the request of the swap, once at most; then the marks of the
    payments; and the trigger of the refunds when the swap was not answered. *)
Definition after_payment (d : ExecuteSwapRequest) (id : string)
    (r : result TokenConversionResponse (exn ConversionError)) (l : list FlashnetEvent) : Prop :=
  ∃ posts ws, (posts = [] ∨ ∃ body, swap_body d id body ∧ posts = [SwapPosted body]) ∧
    match r with
    | Ok response => posts ≠ [] ∧ l = posts ++ ws ∧ marks (xs_pool_id d) ConversionCompleted ws ∧
        ∃ m rest, ws = Wrote (sent_payment_id response) m true :: rest
    | Err e => e ≠ Throw DuplicateTransfer ∧
        ((posts ≠ [] ∧ l = posts ++ ws ∧ ∃ status, marks (xs_pool_id d) status ws) ∨
         (marks (xs_pool_id d) RefundNeeded ws ∧
          l = posts ++ ws ++ match e with Panic => [] | Throw _ => [RefundsTriggered] end))
    end.

(** After the checks: the payment failed and nothing more is done, or it is followed up. *)
Definition settled (d : ExecuteSwapRequest) (paid : result string FError)
    (r : result TokenConversionResponse (exn ConversionError)) (l : list FlashnetEvent) : Prop :=
  (∃ e y text, payment_of d None e ∧ l = [e] ∧ paid = Err (Wallet y) ∧ r = Err (Throw (ConversionFailedError text))) ∨
  ∃ id e rest, payment_of d (Some id) e ∧ l = e :: rest ∧ paid = Ok id ∧ after_payment d id r rest.

(** A conversion from the world [w] on: the amounts are resolved, the pool is chosen, and the
    payment is made in the world that the checks of the swap left. *)
Definition convert_steps (options : ConversionOptions) (token : option string) (amount : ConversionAmount)
    (transfer_id : option TransferId) (w : W)
    (r : result TokenConversionResponse (exn ConversionError)) (l : list FlashnetEvent) : Prop :=
  (l = [] ∧ is_ok r = false) ∨
  ∃ amount_in out adjustment pool d w1 w2 w3 w4 paid,
    resolve_amount config network options token amount w = (w1, Ok (amount_in, out, adjustment)) ∧
    resolved options amount amount_in out ∧
    get_conversion_pool config network options token out w1 = (w2, Ok pool) ∧
    decode_execute config (swap_request pool options amount_in out transfer_id) = Ok d ∧
    checked d w2 w3 ∧ log w3 = log w ∧ paid_in d w3 w4 paid ∧ settled d paid r l.

Lemma decode_execute_pool request d : decode_execute config request = Ok d → xs_pool_id d = xs_pool_id request.
Proof. unfold decode_execute. intros (a & _ & H)%rbind_ok. by apply rbind_ok in H as (b & _ & [= <-]). Qed.

Lemma swap_answered_steps asset pool_id purpose adjustment response :
  emits (swap_answered asset pool_id purpose adjustment response) (λ r ws,
    match r with
    | Ok res => marks pool_id ConversionCompleted ws ∧ ∃ m rest, ws = Wrote (sent_payment_id res) m true :: rest
    | Err e => e ≠ Throw DuplicateTransfer ∧ ∃ status, marks pool_id status ws
    end).
Proof using ll.
  unfold swap_answered. apply emits_bind. eapply emits_conseq; [apply update_marks|].
  intros [[sent received]|e] l [Hl H]; [|split; [exact H|by eexists]].
  destruct H as [Hfirst Hiff]. destruct received as [received|]; [destruct (xr_accepted response)|].
  - apply emits_ret. rewrite app_nil_r. simpl. split; [|exact Hfirst].
    destruct (xr_outbound_transfer_id response); [exact Hl|]. by destruct (proj2 Hiff eq_refl).
  - apply emits_fail. rewrite app_nil_r. split; [done|by eexists].
  - apply emits_fail. rewrite app_nil_r. split; [done|by eexists].
Qed.

Lemma swap_failed_steps pool_id purpose adjustment source id :
  emits (swap_failed pool_id purpose adjustment (Execution source (Some id))) (λ r l,
    ∃ e, r = Err e ∧ e ≠ Throw DuplicateTransfer ∧
      ∃ ws, marks pool_id RefundNeeded ws ∧ l = ws ++ match e with Panic => [] | Throw _ => [RefundsTriggered] end).
Proof using ll.
  cbn [swap_failed].
  assert (∀ ws, marks pool_id RefundNeeded ws →
    emits (do* _ := λ w, (send_refund_trigger w, Ok ()) in
           throw (A := TokenConversionResponse) (ConversionFailedError ("Convert token failed, refund pending: " +:+ FlashnetError_fmt source)))
      (λ r l, ∃ e, r = Err e ∧ e ≠ Throw DuplicateTransfer ∧
         ∃ ws', marks pool_id RefundNeeded ws' ∧ ws ++ l = ws' ++ match e with Panic => [] | Throw _ => [RefundsTriggered] end))
    as Htrigger.
  { intros ws Hws w w' r [= <- <-]. exists [RefundsTriggered]. split; [apply log_trigger|].
    eexists. split; [done|]. split; [done|]. by exists ws. }
  apply emits_catch. eapply emits_conseq; [apply update_marks|].
  intros [[s rc]|[|e]] l [Hl H]; [by apply Htrigger| |by apply Htrigger].
  exists Panic. split_and!; [done..|]. exists l. by rewrite app_nil_r.
Qed.

(** What a conversion does with the answer of the swap it ran. *)
Lemma swap_outcome request asset purpose adjustment w0 w w1 answer l w' r :
  log w = log w0 → log w1 = log w0 ++ l → swap_steps request w answer l →
  match answer with
  | Ok response => swap_answered asset (xs_pool_id request) purpose adjustment response
  | Err e => swap_failed (xs_pool_id request) purpose adjustment e
  end w1 = (w', r) →
  ∃ l', log w' = log w0 ++ l' ∧
    ((l' = [] ∧ is_ok r = false) ∨
     ∃ d v1 v2 paid, decode_execute config request = Ok d ∧ checked d w v1 ∧ log v1 = log w0 ∧
       paid_in d v1 v2 paid ∧ settled d paid r l').
Proof using ll.
  intros Hw Hl [(-> & [y ->] & Hplain)|(d & v1 & v2 & paid & Hd & Hchecked & Hv1 & Hpaid & Hsteps)] Hrun.
  { exists []. destruct y as [reason code|source tid|f|f|f|s]; try (injection Hrun as <- <-; split; [done|by left]).
    by destruct (Hplain source tid). }
  rewrite Hw in Hv1. pose proof (decode_execute_pool _ _ Hd) as Hpool. rewrite <- Hpool in Hrun.
  destruct Hsteps as [(e & y & He & -> & -> & ->)|(id & e & rest & He & -> & -> & Hrest)].
  { injection Hrun as <- <-. exists [e]. split; [done|]. right. exists d, v1, v2, (Err (Wallet y)). split_and!; [done..|].
    left. by eexists e, y, _. }
  destruct answer as [response|x].
  - destruct Hrest as (_ & body & Hbody & ->). destruct (swap_answered_steps _ _ _ _ _ _ _ _ Hrun) as (ws & Hws & Hmarks).
    exists (e :: SwapPosted body :: ws). split; [by rewrite Hws, Hl, <- app_assoc|]. right. exists d, v1, v2, (Ok id).
    split_and!; [done..|]. right. exists id, e, (SwapPosted body :: ws). split_and!; [done..|]. exists [SwapPosted body], ws.
    split; [right; by exists body|]. destruct r as [res|x]; [split_and!; naive_solver|].
    destruct Hmarks as [Hdup Hmarks]. split; [exact Hdup|]. left. by split_and!.
  - destruct Hrest as [[source ->] Hposts]. destruct (swap_failed_steps _ _ _ _ _ _ _ _ Hrun) as (l' & Hl' & x & -> & Hdup & ws & Hws & ->).
    set (tail := ws ++ match x with Panic => [] | Throw _ => [RefundsTriggered] end) in *.
    exists (e :: rest ++ tail). split; [by rewrite Hl', Hl, <- app_assoc|]. right. exists d, v1, v2, (Ok id).
    split_and!; [done..|]. right. exists id, e, (rest ++ tail). split_and!; [done..|]. exists rest, ws.
    split; [exact Hposts|]. split; [exact Hdup|]. by right.
Qed.


(** ** Refunds *)

Definition clawback_body (request : ClawbackRequest) (body : string) : Prop :=
  ∃ nonce signature, to_json
    {| sc_sender_public_key := fw_identity_public_key; sc_spark_transfer_id := cr_transfer_id request;
       sc_lp_identity_public_key := cr_pool_id request; sc_nonce := nonce; sc_signature := signature |} = Ok body.

Lemma clawback_steps request :
  emits (clawback config request) (λ r l,
    (l = [] ∧ is_ok r = false) ∨ ∃ body, clawback_body request body ∧ l = [ClawbackPosted body]).
Proof using ll.
  unfold clawback, sign_clawback.
  apply plainly_run; [apply plainly_ping|by intros e _; left|intros _].
  apply (emits_run _ _ (λ _ l, l = [])).
  { apply quiet_same. intros w. unfold se_total. pose proof (log_nonce w) as H. by destruct (generate_nonce w). }
  { by intros e l ->; left. }
  intros nonce l w w' -> _. cbv zeta.
  apply (emits_run _ _ (λ r l, l = [])); [apply quiet_lift|by intros e l ->; left|]. intros text l w1 w1' -> _. simpl app.
  apply plainly_run; [apply plainly_wallet, quiet_sign|by intros e _; left|intros signature].
  eapply emits_conseq; [apply post_steps_of|].
  intros r l [_ [[-> Hr]|(body & Hbody & ->)]]; [by left|right]. exists body. split; [|apply posted_clawback].
  by eexists _, _.
Qed.

(** A payment is refunded when its conversion is marked for it; it is marked as refunded only
    after the exchange accepted to give the payment back. *)
Definition refund_steps (payment : Payment) (r : result () (exn ConversionError)) (l : list FlashnetEvent) : Prop :=
  (l = [] ∧ is_ok r = false) ∨
  ∃ id info pool body, refund_details payment = Some (id, Some info) ∧ ci_status info = RefundNeeded ∧
    key_from_str (ci_pool_id info) = Some pool ∧
    let request := {| cr_pool_id := pool; cr_transfer_id := id |} in
    clawback_body request body ∧
    ((l = [ClawbackPosted body] ∧ is_ok r = false) ∨
     ∃ w1 w2 response m, clawback config request w1 = (w2, Ok response) ∧ cb_accepted response = true ∧
       marked pool Refunded m ∧ l = [ClawbackPosted body; Wrote (p_id payment) m (is_ok r)]).

(** C16: a payment of a failed conversion is clawed back only while it is marked for a refund,
    from the pool and under the identifier it was paid with, and it is marked as refunded only
    once the exchange accepted the clawback; every other outcome is an error that leaves the mark
    as it was, so that the refund is tried again. *)
Theorem refund_marks_what_was_clawed_back payment w w' r :
  refund_payment config payment w = (w', r) →
  ∃ l, log w' = log w ++ l ∧ refund_steps payment r l.
Proof using ll.
  unfold refund_payment, refund_failed, throw.
  assert (∀ e, refund_steps payment (Err e) []) as Hno by (by left).
  assert (∀ e, (w, Err e : result () (exn ConversionError)) = (w', r) →
    ∃ l, log w' = log w ++ l ∧ refund_steps payment r l) as Hfail
    by (intros e [= <- <-]; exists []; rewrite app_nil_r; by split).
  destruct (refund_details payment) as [[id info]|] eqn:Hdetails; [|by apply Hfail].
  destruct info as [info|]; [|by apply Hfail]. cbn [mbind option_bind].
  case_bool_decide as Hstatus; [|by apply Hfail]. cbv iota beta.
  destruct (key_from_str (ci_pool_id info)) as [pool|] eqn:Hpool; [|by apply Hfail].
  unfold se_try. destruct (clawback config _ w) as [w1 c] eqn:Hc.
  destruct (clawback_steps _ _ _ _ Hc) as (l1 & Hl1 & Hsteps). intros Hrun.
  assert (∀ e, (w1, Err e : result () (exn ConversionError)) = (w', r) →
    ∃ l, log w' = log w ++ l ∧ refund_steps payment r l) as Hrefused.
  { intros e [= <- <-]. exists l1. split; [exact Hl1|]. destruct Hsteps as [[-> _]|(body & Hbody & ->)]; [by left|].
    right. exists id, info, pool, body. split; [done|]. split; [done|]. split; [exact Hpool|]. split; [exact Hbody|].
    by left. }
  destruct c as [response|e]; [|by apply (Hrefused _ Hrun)].
  destruct (cb_accepted response) eqn:Hacc; [|by apply (Hrefused _ Hrun)].
  destruct Hsteps as [[_ ?]|(body & Hbody & ->)]; [done|]. unfold of_store, se_map_err in Hrun. cbv beta iota in Hrun.
  match type of Hrun with context [insert_payment_metadata ?i ?m w1] =>
    pose proof (log_metadata i m w1) as Hlog; set (meta := m) in *; destruct (insert_payment_metadata i meta w1) as [w2 x] eqn:Hx end.
  injection Hrun as <- <-. destruct (Hlog w2 x eq_refl) as (l2 & Hl2 & ->).
  exists ([ClawbackPosted body] ++ [Wrote (p_id payment) meta (is_ok x)]).
  split; [by rewrite Hl2, Hl1, app_assoc|]. right. exists id, info, pool, body.
  split; [done|]. split; [done|]. split; [exact Hpool|]. split; [exact Hbody|]. right.
  exists w, w1, response, meta. split_and!; [done..|by eexists|]. by destruct x.
Qed.
End logs.

(** ** No dust *)
Section dust.
Context {W : Type} {pt : PaymentTypes} {ao : AddressOps} {tx : TokenTextOps} {ti : TransferIds} {fo : ForeignErrors}
  {fs : FlashnetSerde} {fw : FlashnetWorld W} {fwal : FlashnetWallet W} {wal : StableWallet W}.
Context (config : FlashnetConfig).

Lemma adjust_amount_spec a m b a' why :
  adjust_amount a m b = (a', why) →
  a ≤ a' ∧ m ≤ a' ∧ (b ≤ a' ∨ m ≤ b - a') ∧ (why = None ↔ a' = a) ∧ (why = Some IncreasedToAvoidDust → a' = b).
Proof.
  unfold adjust_amount, saturating_sub. cbv zeta. case_match eqn:Hdust.
  - apply andb_true_iff in Hdust as [H1%Z.ltb_lt H2%Z.ltb_lt]. intros [= <- <-].
    split_and!; [lia..|split; [done|lia]|done].
  - apply andb_false_iff in Hdust. rewrite !Z.ltb_ge in Hdust. destruct (Z.eqb_spec (Z.max a m) a) as [He|He];
      intros [= <- <-]; (split_and!; [lia..| |done]); naive_solver.
Qed.

(** the amount of a conversion to satoshis is never below the one that pays for the output nor
    below the limit of the exchange, and what it leaves of the token is nothing or at least that
    limit; a reason is given exactly when the amount was changed.  A conversion to a token is
    not changed. *)
Theorem conversion_leaves_no_dust options token a w w' a' why :
  maybe_adjust_to_min_limit config options token a w = (w', Ok (a', why)) →
  a ≤ a' ∧ (why = None ↔ a' = a) ∧
  match conversion_type options with
  | FromBitcoin => a' = a
  | ToBitcoin from => ∃ limits w1,
      flashnet_fetch_limits config {| fl_conversion_type := ToBitcoin from; fl_token_identifier := token |} w
        = (w1, Ok limits) ∧
      match min_from_amount limits with
      | None => a' = a
      | Some m => ∃ balances, get_token_balances w1 = (w', Ok balances) ∧ m ≤ a' ∧
          let balance := default 0 (balances !! from) in balance ≤ a' ∨ m ≤ balance - a'
      end
  end.
Proof.
  unfold maybe_adjust_to_min_limit. destruct (conversion_type options) as [|from].
  { intros [= _ <- <-]. by split_and!. }
  intros (w1 & limits & Hlimits & H)%se_bind_ok. destruct (min_from_amount limits) as [m|] eqn:Hm.
  - apply se_bind_ok in H as (w2 & balances & Hb%se_map_err_ok & [= <- H]). cbv zeta in H.
    apply adjust_amount_spec in H as (H1 & H2 & H3 & H4 & _). split_and!; [done..|].
    exists limits, w1. split; [done|]. rewrite Hm. exists balances. by split_and!.
  - injection H as <- <- <-. split_and!; [lia|done|]. exists limits, w1. split; [done|]. by rewrite Hm.
Qed.
End dust.

(** ** Examples: an exchange with one pool *)
Module Example.
Import AddressesProps.Example.
#[local] Existing Instance example_payment_types.
#[local] Existing Instance example_parsers.
#[local] Existing Instance canonical_order.

#[local] Instance texts : TokenTextOps := {|
  hex_encode b := pos_text (encode b); hex_decode s := decode (text_pos s); is_nfc _ := true
|}.
#[local] Instance example_ids : TransferIds := {| TransferId := string; new_v5 s := s; TransferId_fmt s := s |}.
#[local] Instance example_errors : ForeignErrors := {| ForeignError := string; ForeignError_fmt s := s |}.
#[local] Instance example_key_countable : Countable (@AddrKey example_ops).
Proof. exact (_ : Countable bool). Defined.

(** Every request has the same text, every answer of a type the same value. *)
Definition says {A} (text : string) (a : option A) : Serde A :=
  {| to_json _ := Ok text; from_json _ := ok_or a "unsupported" |}.

Definition pool : Pool (PublicKey := @AddrKey example_ops) :=
  {| lp_public_key := (true : @AddrKey example_ops); host_name := "host"; host_fee_bps := 10; lp_fee_bps := 5;
     asset_a_address := BTC_ASSET_ADDRESS; asset_b_address := "token";
     asset_a_reserve := Some 1000000; asset_b_reserve := Some 5000000;
     virtual_reserve_a := None; virtual_reserve_b := None; threshold_pct := None;
     current_price_a_in_b := None; tvl_asset_b := None; volume_24h_asset_b := None;
     price_change_percent_24h := None; curve_type := Some ConstantProduct; initial_reserve_a := None;
     bonding_progress_percent := None; graduation_threshold_amount := None;
     FlashnetPools.created_at := ""; updated_at := "" |}.

Definition answer : SignedExecuteSwapResponse :=
  {| sx_request_id := "r"; sx_accepted := true; sx_amount_out := Some 4900; sx_fee_amount := Some 7;
     sx_execution_price := None; sx_asset_out_address := None; sx_asset_in_address := None;
     sx_outbound_transfer_id := Some "received"; sx_error := None; sx_refunded_asset_address := None;
     sx_refunded_amount := None; sx_refund_transfer_id := None |}.

#[local] Instance example_serde : FlashnetSerde := {|
  serde_features := says "" (Some [{| feature_name := AllowSwaps; fs_enabled := true; reason := None |}]);
  serde_min_amounts := says "" (Some [{| asset_identifier := BTC_ASSET_ADDRESS; min_amount := 500; ma_enabled := true |};
                                      {| asset_identifier := "token"; min_amount := 600; ma_enabled := true |}]);
  serde_ping := says "" (Some {| ping_status := "OK" |});
  serde_text := {| to_json s := Ok s; from_json s := Ok s |};
  serde_challenge_request := says "" None;
  serde_challenge_response := says "" (Some {| challenge := ""; challenge_string := "sign me"; ch_request_id := "" |});
  serde_verify_request := says "" None;
  serde_verify_response := says "" (Some {| access_token := "head.payload.signature" |});
  serde_list_pools_request := says "" None;
  serde_list_pools_response := says "" (Some {| pools := [pool]; total_count := 1 |});
  serde_simulate_request := says "" None;
  serde_simulate_response := says "" (Some {| sim_amount_out := 4950; sim_execution_price := None; fee_paid_asset_in := Some 5;
                                              price_impact_pct := None; warning_message := None |});
  serde_swap_intent := says "" None;
  serde_swap_request := says "swap" None;
  serde_swap_response := says "" (Some answer);
  serde_clawback_intent := says "" None;
  serde_clawback_request := says "clawback" None;
  serde_clawback_response := says "" (Some {| cb_request_id := ""; cb_accepted := true; internal_request_id := "";
                                              spark_status_tracking_id := ""; cb_error := None |});
  urlencode_pools _ := Ok "";
  payload_exp _ := Some 3600
|}.

Record world : Type := { w_cache : gmap string CacheItem; w_log : list FlashnetEvent }.

Definition logged (l : list FlashnetEvent) (w : world) : world := {| w_cache := w_cache w; w_log := w_log w ++ l |}.
#[local] Instance example_log : Log world FlashnetEvent := {| log := w_log |}.

Definition config : FlashnetConfig := default_config Transactions.Regtest None.

#[local] Instance example_flashnet : FlashnetWorld world := {|
  cache := w_cache; put_cache c w := {| w_cache := c; w_log := w_log w |}; clock_ns w := (w, Some 1000000000);
  http_get _ _ := se_ret {| hr_status := 200; hr_body := "" |};
  http_post url _ body := λ w, (logged (posted config url body) w, Ok {| hr_status := 200; hr_body := "" |});
  generate_nonce w := (w, [])
|}.
#[local] Instance example_flashnet_wallet : FlashnetWallet world := {|
  fw_identity_public_key := (false : @AddrKey example_ops);
  sign_message _ := se_ret [];
  fw_transfer amount receiver id := λ w, (logged [PaidSats amount receiver id (Some "sent")] w, Ok "sent");
  fw_transfer_tokens outputs := λ w, (logged [PaidTokens outputs (Some "hash")] w, Ok "hash")
|}.
#[local] Instance example_balances : StableWallet world := {|
  get_balance := se_ret 3000; get_token_balances := se_ret {[ "token" := 1000 ]}
|}.
#[local] Instance example_cache_storage : CacheStorage world := {|
  get_cached_item _ := se_ret None; set_cached_item _ _ := se_ret (); delete_cached_item _ := se_ret ()
|}.
#[local] Instance example_storage : PaymentStorage world := {|
  insert_payment _ := se_ret ();
  insert_payment_metadata id m := λ w, (logged [Wrote id m true] w, Ok ());
  get_payment_by_id _ := se_fail StorageNotFound; get_payments_by_parent_ids _ := se_ret ∅
|}.
#[local] Instance example_sync_wallet : SyncWallet world := {|
  list_transfers _ := se_fail (SdkGeneric ""); list_token_transactions _ := se_fail (SdkGeneric "");
  get_token_transactions_by_hashes _ := se_ret []; get_tokens_metadata _ := se_ret [];
  PaymentSync.get_identity_public_key := example_key 7; emit _ w := w
|}.
#[local] Instance example_token_serde : Serde TokenMetadata := no_serde _.
#[local] Instance example_metadata_serde : Serde PaymentMetadata := no_serde _.
#[local] Instance example_env : ConversionEnv world := {|
  list_payments _ := se_ret []; wallet_token_transactions _ := se_ret [];
  now_v7 w := (w, "conversion"); send_refund_trigger := logged [RefundsTriggered];
  transfer_id_from_str s := Some (s : @TransferId example_ids);
  key_from_str s := Some (true : @AddrKey example_ops); string_debug s := s
|}.

#[local] Instance example_laws : FlashnetLogLaws config.
Proof.
  split; try done; try (intros; intros w w' r [= <- <-]; exists []; by rewrite app_nil_r).
  - intros url headers body w w' r [= <- <-]. by eexists.
  - intros amount receiver id w w' r [= <- <-]. by eexists.
  - intros outputs w w' r [= <- <-]. by eexists.
  - intros id m w w' r [= <- <-]. by eexists.
Qed.

Definition begin : world := {| w_cache := ∅; w_log := [] |}.
Definition to_token : ConversionOptions :=
  {| conversion_type := FromBitcoin; max_slippage_bps := Some 100; completion_timeout_secs := None |}.
Definition to_bitcoin : ConversionOptions :=
  {| conversion_type := ToBitcoin "token"; max_slippage_bps := None; completion_timeout_secs := None |}.


Definition failed_payment : Payment :=
  {| p_id := "sent"; payment_type := Send; p_status := Completed; amount := 1000; fees := 0; timestamp := 1;
     p_method := Spark; conversion_details := None;
     details := Some (SparkDetails None None (Some
       {| ci_pool_id := "pool"; conversion_id := "conversion"; ci_status := RefundNeeded; ci_fee := None;
          Payments.purpose := Some AutoConversion; ci_amount_adjustment := None |})) |}.

Lemma refund_marks_what_was_clawed_back_witness :
  let run := refund_payment config failed_payment begin in
  is_ok run.2 = true ∧ length (w_log run.1) = 2%nat ∧
  ∃ l, w_log run.1 = l ∧ refund_steps config failed_payment run.2 l.
Proof.
  intros run. split; [vm_compute; reflexivity|]. split; [vm_compute; reflexivity|].
  destruct (refund_marks_what_was_clawed_back config failed_payment begin run.1 run.2) as (l & Hl & H);
    [apply surjective_pairing|]. exists l. split; [exact Hl|exact H].
Defined.
Lemma conversion_leaves_no_dust_witness :
  ∃ w', maybe_adjust_to_min_limit config to_bitcoin None 500 begin = (w', Ok (1000, Some IncreasedToAvoidDust)) ∧
  500 ≤ 1000 ∧ (Some IncreasedToAvoidDust = None ↔ 1000 = 500).
Proof.
  pose (run := maybe_adjust_to_min_limit config to_bitcoin None 500 begin).
  assert (run.2 = Ok (1000, Some IncreasedToAvoidDust)) as Hrun by (vm_compute; reflexivity).
  assert (run = (run.1, Ok (1000, Some IncreasedToAvoidDust))) as Heq by (rewrite <- Hrun; apply surjective_pairing).
  exists run.1. split; [exact Heq|].
  destruct (conversion_leaves_no_dust config to_bitcoin None 500 begin run.1 1000 (Some IncreasedToAvoidDust) Heq)
    as (H1 & H2 & _). split; [exact H1|exact H2].
Defined.

(** A conflict answered to the request of the swap is a failed swap, not a duplicate: its error
    has the payment, which is then marked for a refund. *)
Example conflict_of_swap_is_not_duplicate :
  let e := Execution (FlashnetPools.NetworkError "" (Some 409)) (Some "sent") in
  ConversionError_of_flashnet (fo := example_errors) e ≠ DuplicateTransfer ∧
  w_log (swap_failed (true : @AddrKey example_ops) AutoConversion None e begin).1
    = [Wrote "sent" (info_metadata {| ci_pool_id := key_to_string (true : @AddrKey example_ops); conversion_id := "conversion";
                                      ci_status := RefundNeeded; ci_fee := None; Payments.purpose := Some AutoConversion;
                                      ci_amount_adjustment := None |}) true; RefundsTriggered].
Proof. split; [discriminate|reflexivity]. Qed.
End Example.
